(* ===== verification/_CoqProject ===== *)
-Q . S2P
Prelude.v
Labgob.v
LabgobProps.v
Persister.v
RaftTypes.v
RaftNode.v
RaftLog.v
RaftSpec.v
RaftReplication.v
RaftLeader.v
RaftSnapshot.v
RaftInv.v
RaftProps.v
RaftVotes.v
RaftElection.v
RaftSystem.v
RaftHistory.v
RaftPreserve.v
RaftReplicate.v
RaftAppend.v
RaftSafety.v
RaftApply.v
RaftLive.v
RaftSafetyExample.v
Notify.v
KvStateMachine.v
KvServer.v
KvInv.v
KvProps.v
KvCluster.v
KvClusterExample.v
Clerk.v
CtrlConfig.v
CtrlBalance.v
CtrlOps.v
CtrlProps.v
CtrlServer.v
ShardKv.v
ShardKvProps.v
MrCoordinator.v
MrProps.v
MapReduce.v
MapReduceData.v
Names.v
MrJob.v
MrJobProps.v
MrApps.v
MrFine.v
MrFineProps.v
MrPlugins.v
Drivers.v
Porcupine.v
PorcupineHeap.v
PorcupineBits.v
PorcupineSearch.v
PorcupineHistory.v
PorcupineProps.v
PorcupinePartial.v
PorcupineTimed.v
PorcupineKv.v
Visualization.v
VisualizationProps.v
Labrpc.v
LabrpcInv.v
LabrpcProps.v
LabrpcExample.v
RaftConfig.v
RaftConfigNet.v
RaftConfigProps.v
RaftConfigExample.v
ServiceConfig.v
ServiceConfigNet.v
ServiceConfigLife.v
ServiceConfigProps.v
ServiceTesters.v
ShardConfig.v
ShardConfigNet.v
ShardConfigLife.v
ShardConfigProps.v
ShardTester.v
