(* ===== verification/Prelude.v ===== *)
(** * A verification of the MIT 6.824 labs (src/src)

    ** The program

    The repository holds the four labs of MIT 6.824 in Go: MapReduce ([mr], [mrapps],
    [main/mrsequential.go]), Raft ([raft]), a key/value service replicated with Raft
    ([kvraft]), and a sharded one ([shardctrler], which keeps the sequence of
    configurations, and [shardkv], which moves shards between groups); what they run on,
    a simulated network ([labrpc]) and an encoder ([labgob]); and the checker of
    linearizability that tests use ([porcupine], [models]). The tests of each package drive
    it through a tester ([config.go]) that starts, stops and disconnects servers. The servers of a service own a
    Raft peer each. A clerk calls a server over [labrpc]; the server gives the command to
    [Raft.Start]; peers elect a leader and replicate its log, again over [labrpc], saving
    their state with [labgob] in a [Persister]; what is committed comes out of [applyCh] and
    is executed by the service's [applier], which wakes the waiting handler.

    ** How Go is modelled

    A method that runs under a lock is one computation of the monad [M] of this file,
    state passing in which [None] is a run-time panic, [log.Fatal] or a failed test; a
    method that releases its lock is split there, and systems of objects are step relations
    over these pieces. Integers are [Z]; where the width matters (the counters of [labrpc],
    the words of the bitset, [ihash], the bits of the clerk's random numbers) the
    wrap-around is written out. A slice is a list with [slice_get], [slice_set] and
    [slice_from], which fail out of range; a Go map is [GoMap], [None] being the nil map, on
    which a write panics. Objects shared through pointers live in stores (the heap of
    porcupine's list, the channels of [Notify], the Raft objects of [RaftConfig]).

    What the repository does not contain is a parameter with its documented laws, and has
    an instance that evaluates: [Gob] and [GobLaws] (encoding/gob: what was encoded is
    decoded), [Values] (reflection and gob as [labrpc] uses them), [Unicode], [Json],
    [SortByKey] (sort.Sort sorts, stability left open), [Rand] (timeouts), [MapOrder] (any
    order of [range] over a map: theorems hold for every instance), [Alloc] (the
    capacities of slices).

    ** The files

    - [Prelude]: the monad, its weakest preconditions [wp] and the tactic [go], Go's slices,
      maps and map order, lemmas on lists and sums.
    - labgob: [Labgob] (the interface), [LabgobProps] (checkType, checkDefault).
    - raft/persister.go, raft/util.go, raft/rpc.go, raft/raft.go: [Persister], [RaftTypes],
      [RaftNode] (one definition per method). [RaftLog], [RaftSpec], [RaftReplication],
      [RaftLeader], [RaftSnapshot]: the weakest precondition of every method. [RaftInv],
      [RaftProps]: one peer. [RaftVotes], [RaftElection]: elections in a cluster.
      [RaftSystem], [RaftHistory], [RaftPreserve], [RaftReplicate], [RaftAppend],
      [RaftSafety], [RaftApply], [RaftLive], [RaftSafetyExample]: replication in a cluster.
    - kvraft: [Notify] (the channels of all three servers), [KvStateMachine], [KvServer],
      [KvInv], [KvProps], [KvCluster] (servers on the cluster of [RaftSystem]),
      [KvClusterExample], [Clerk] (client.go).
    - shardctrler: [CtrlConfig], [CtrlBalance], [CtrlOps], [CtrlProps] (configurations),
      [CtrlServer] (server.go, client.go).
    - shardkv: [ShardKv], [ShardKvProps].
    - mr, mrsequential: [MrCoordinator], [MrProps], [MapReduce], [MapReduceData], [Names]
      (names with numbers in them), [MrJob], [MrJobProps] (coordinator, workers and
      files together, a file written in one step: the specification [MrFineProps] refines;
      and the loop of one worker), [MrFine], [MrFineProps] (the same write by
      write, on directories and inodes).
    - mrapps: [MrApps] (wc, indexer), [MrPlugins] (crash, nocrash, early_exit, jobcount,
      mtiming, rtiming). main: [Drivers] (the programs and their arguments).
    - porcupine, models: [Porcupine], [PorcupineHeap], [PorcupineBits], [PorcupineSearch],
      [PorcupineHistory], [PorcupineProps], [PorcupinePartial] (partial linearizations and
      partitions), [PorcupineTimed], [PorcupineKv]; visualization.go: [Visualization],
      [VisualizationProps].
    - labrpc: [Labrpc], [LabrpcInv], [LabrpcProps], [LabrpcExample].
    - The testers. raft/config.go: [RaftConfig], [RaftConfigNet], [RaftConfigProps],
      [RaftConfigExample]. kvraft/config.go and shardctrler/config.go, over the interface
      [Replica] of the server they test: [ServiceConfig], [ServiceConfigNet],
      [ServiceConfigLife], [ServiceConfigProps], [ServiceTesters]. shardkv/config.go:
      [ShardConfig], [ShardConfigNet], [ShardConfigLife], [ShardConfigProps], [ShardTester].

    ** What the theorems show

    - One peer: no method panics, and term, vote and log are on stable storage, after any
      sequence of events ([raft_method_safe]); a crash loses nothing
      ([raft_crash_recovery]); [AppendEntries] cuts the log at the first entry that differs
      from the request and nowhere else, and the leader commits what a majority has
      ([AppendEntries_merges], [leader_commit_majority]).
    - A cluster whose peers do not compact their logs, with AppendEntries and InstallSnapshot
      calls lost, delayed, reordered and duplicated, RequestVote calls lost, delayed and
      reordered but answered at most once (as labrpc does), and with peers that
      crash and restart: one leader per term, log matching, leaders have what was applied,
      peers apply the same entries in the same order without gaps, and nothing panics.
      A running majority of two or more peers can always elect a leader and commit a new
      command, whatever the state: the timers that start elections and heartbeats are never
      all stopped ([majority_can_commit]); a cluster of one peer cannot
      ([lone_peer_never_leads]).
    - The key/value service: a log with retries is executed with no write twice, and with
      every write once if each client's ids first occur in order ([kv_exactly_once]); servers
      that do not snapshot have all handled prefixes of one sequence of committed entries and
      are in the states of that specification on them ([kv_replicas_agree]), a running
      majority of them can always serve a request ([kv_majority_can_serve]); snapshots restore
      the state, waiting handlers are woken; but a handler can be woken with the reply to
      another command ([kv_reply_of_other_command], a finding).
    - The shard controller: [Join], when there is a group, makes a balanced partition of the
      shards, [Leave] keeps one, and from a balanced configuration they move only what they
      must; every operation returns, configurations are numbered from 0 and never change
      ([config_history]); replicas agree although they iterate over maps in different orders.
    - The clerk returns the first answer of a leader. Shards are taken over as sent; a put
      to the wrong group is lost (a finding).
    - MapReduce: the output of any job, with workers that write piece by piece, die, are slow
      and race, is the output of the sequential program if no two workers ever have one
      temporary file open at the same time ([mapreduce_refines_sequential]); that is so when
      only the tasks of dead workers time out, and such a job can always be completed
      ([job_survives_crashes]); otherwise a slow worker can lose the output
      ([slow_worker_loses_output], a finding). One worker alone completes a job, however many
      of its reports come after the coordinator's timer ([worker_completes_job]).
      The programs of [main] on the same plugin and files agree ([programs_agree]), and diskvd
      reads back what can be printed ([diskvd_roundtrip]).
    - porcupine answers Ok exactly on linearizable histories, its list and bitset are
      what they stand for, and on [KvModel] keys can be checked one by one; the page
      it draws shows for each operation a longest partial linearization.
    - labrpc: a [Call] that returns true was executed exactly once, by the server its end was
      connected to ([rpc_true_executed_once]); a reliable network
      loses nothing; every call ends. labgob's type check ends and complains once per field.
    - The testers: that of raft never fails a cluster that does not compact and is exact
      about what it lets through ([tester_accepts]), finds the right leader, reports
      agreements that are there ([one_agrees]) and restarts a peer with what it saved; those
      of the services keep the network in the state their bookkeeping says, whatever is
      stopped, started and disconnected; that of shardkv works for groups of three
      servers only ([shard_tester_needs_three], a finding).

    ** Fuel and bounds

    Loops that are not structural take fuel, and a theorem says how much is enough: the
    balancing loop of [Join] (202 rounds, [join_balances]), the search of [checkSingle] (a
    measure on its variables, [PorcupineSearch]), [checkType] (one more than the types,
    [checkValue_complains_once]), the worker's loop ([worker_completes_job]: a list of rounds), the loop of a
    clerk, which need not end ([clerk_returns_first_answer] gives the number of calls).
    Running out of fuel is never counted as success.

    ** Not modelled

    - Log compaction in a cluster: the single-peer theorems cover [Snapshot],
      [InstallSnapshot] and [CondInstallSnapshot], the cluster theorems do not, because
      [CondInstallSnapshot] keeps a log suffix that may conflict with the snapshot (a finding)
      and the invariant fails.
    - shardkv's server is partly modelled: the package does not compile (it calls functions
      it does not define), so there is no whole server to prove correct.
    - porcupine/visualization.go: the HTML page and the writing of the file; the data in it is
      modelled. What the programs of [main] for labs that are not in the repository call.
      DPrintf and most String methods.
    - The testers' random names and seeds are parameters, and what they read of the clock.
    - Durations: a timer that is armed may run out at any moment; whether it is armed, stopped
      or has a tick waiting in its channel is modelled ([Timer] of [RaftTypes]). Memory-model effects: the code locks, and
      a critical section is one step. *)
From stdpp Require Export base tactics list list_numbers gmap strings sorting.
From Stdlib Require Export ZArith Lia.
#[export] Set Default Goal Selector "!".
Open Scope Z_scope.

(** ** Go programs: a state monad with run-time panics *)

(** [M S A] is a computation on a mutable object of type [S]; [None] is a Go
    run-time panic (an index out of range, a write to a nil map). *)
Definition M (S A : Type) : Type := S -> option (A * S).

Definition ret {S A} (a : A) : M S A := fun s => Some (a, s).
Definition bind {S A B} (m : M S A) (f : A -> M S B) : M S B :=
  fun s => match m s with Some (a, s') => f a s' | None => None end.
Definition get {S} : M S S := fun s => Some (s, s).
Definition modify {S} (f : S -> S) : M S unit := fun s => Some (tt, f s).
Definition panic {S A} : M S A := fun _ => None.
Definition lift {S A} (o : option A) : M S A :=
  fun s => match o with Some a => Some (a, s) | None => None end.

Declare Scope go_scope.
Delimit Scope go_scope with go.
Notation "'let!' x ':=' c 'in' k" := (bind c (fun x => k))
  (at level 10, x pattern, c at level 100, k at level 200,
   format "'[v' 'let!'  x  ':='  c  'in' '/' k ']'") : go_scope.
Notation "'do!' c ';' k" := (bind c (fun _ => k))
  (at level 10, c at level 100, k at level 200,
   format "'[v' 'do!'  c ';' '/' k ']'") : go_scope.
Open Scope go_scope.

Create HintDb raft.

(** A [for] loop over the elements of a list that only changes the state. *)
Fixpoint forM {S A} (l : list A) (f : A -> M S unit) : M S unit :=
  match l with
  | [] => ret tt
  | x :: l' => do! f x; forM l' f
  end.

(** [wp m s Q]: started in [s], [m] does not panic and ends with a value and a
    state in [Q]. *)
Definition wp {S A} (m : M S A) (s : S) (Q : A -> S -> Prop) : Prop :=
  match m s with Some (a, s') => Q a s' | None => False end.

Section wp.
Context {S A B : Type}.
Implicit Types (m : M S A) (s : S).

Lemma wp_ret (a : A) s (Q : A -> S -> Prop) : Q a s -> wp (ret a) s Q.
Proof. done. Qed.

Lemma wp_bind m (f : A -> M S B) s Q :
  wp m s (fun a s' => wp (f a) s' Q) -> wp (bind m f) s Q.
Proof. unfold wp, bind. destruct (m s) as [[a s']|]; done. Qed.

Lemma wp_get s (Q : S -> S -> Prop) : Q s s -> wp get s Q.
Proof. done. Qed.

Lemma wp_modify f s (Q : unit -> S -> Prop) : Q tt (f s) -> wp (modify f) s Q.
Proof. done. Qed.

Lemma wp_lift (o : option A) s (Q : A -> S -> Prop) a :
  o = Some a -> Q a s -> wp (lift o) s Q.
Proof. intros ->. done. Qed.

Lemma wp_mono m s (P Q : A -> S -> Prop) :
  wp m s P -> (forall a s', P a s' -> Q a s') -> wp m s Q.
Proof. unfold wp. destruct (m s) as [[a s']|]; auto. Qed.

Lemma wp_run m s a s' (Q : A -> S -> Prop) : m s = Some (a, s') -> wp m s Q -> Q a s'.
Proof. unfold wp. intros ->. done. Qed.

Lemma wp_runs m s (Q : A -> S -> Prop) :
  wp m s Q <-> exists a s', m s = Some (a, s') /\ Q a s'.
Proof.
  unfold wp. destruct (m s) as [[a s']|]; split; [eauto| |done|].
  - intros (?&?&[= <- <-]&?). done.
  - intros (?&?&[=]&_).
Qed.

Lemma bind_run m (f : A -> M S B) s a s' : m s = Some (a, s') -> bind m f s = f a s'.
Proof. unfold bind. by intros ->. Qed.

Lemma wp_conj m s (P Q : A -> S -> Prop) :
  wp m s P -> wp m s Q -> wp m s (fun a s' => P a s' /\ Q a s').
Proof. unfold wp. destruct (m s) as [[a s']|]; auto. Qed.
End wp.

(** A loop over two lists, one after the other. *)
Lemma forM_app {S A} (l l' : list A) (f : A -> M S unit) s :
  forM (l ++ l') f s = (do! forM l f; forM l' f) s.
Proof.
  revert s. induction l as [|x l IH]; intros s; [done|]. simpl. unfold bind in *.
  destruct (f x s) as [[[] s']|]; [|done]. apply IH.
Qed.

(** Loop rule: an invariant on the elements already visited. *)
Lemma wp_forM {S A} (l : list A) (f : A -> M S unit) (I : list A -> S -> Prop) s :
  I [] s ->
  (forall pre x s', (exists post, l = pre ++ x :: post) -> I pre s' ->
     wp (f x) s' (fun _ s'' => I (pre ++ [x]) s'')) ->
  wp (forM l f) s (fun _ s' => I l s').
Proof.
  intros H0 Hstep.
  assert (Hg : forall suf pre s, l = pre ++ suf -> I pre s ->
            wp (forM suf f) s (fun _ s' => I l s')).
  { clear s H0. intros suf. induction suf as [|x suf IH]; intros pre s E Hp; simpl.
    - apply wp_ret. by rewrite E, app_nil_r.
    - apply wp_bind. eapply wp_mono; [apply Hstep; eauto|].
      intros [] s' Hs'. apply (IH (pre ++ [x])); [|done].
      by rewrite <-app_assoc. }
  by apply (Hg l []).
Qed.

Lemma forM_fmap {S A B} (g : A -> B) (l : list A) (f : B -> M S unit) : forM (g <$> l) f = forM l (f ∘ g).
Proof. induction l as [|x l IH]; [done|]. cbn. by rewrite IH. Qed.

(** Symbolic execution of a monadic program in a [wp] goal: [go] runs up to the
    next branch, [go_case] also splits branches. *)
Ltac go_step :=
  lazymatch goal with
  | |- wp (bind _ _) _ _ => apply wp_bind
  | |- wp (ret _) _ _ => apply wp_ret
  | |- wp get _ _ => apply wp_get
  | |- wp (modify _) _ _ => apply wp_modify
  | |- wp (lift (Some _)) _ _ => eapply wp_lift; [reflexivity|]
  end.
Ltac go := repeat (go_step; cbn beta).
Ltac go_case :=
  lazymatch goal with
  | |- wp (if decide ?P then _ else _) _ _ => destruct (decide P)
  | |- wp (if ?b then _ else _) _ _ => destruct b eqn:?
  | |- wp (match ?b with _ => _ end) _ _ => destruct b eqn:?
  end; go.

(** ** Slices, indexed by Go integers *)

Abbreviation len l := (Z.of_nat (length l)).

(** [l[i]], [l[i:]] and [l[i] = v]; [None] is the index panic. *)
Definition slice_get {A} (l : list A) (i : Z) : option A :=
  if decide (0 <= i) then l !! Z.to_nat i else None.
Definition slice_from {A} (l : list A) (i : Z) : option (list A) :=
  if decide (0 <= i <= len l) then Some (drop (Z.to_nat i) l) else None.
Definition slice_set {A} (l : list A) (i : Z) (v : A) : option (list A) :=
  if decide (0 <= i < len l) then Some (<[Z.to_nat i := v]> l) else None.
(** [l[:i]]. Go accepts [i] up to [cap(l)] and would then expose the spare part
    of the backing array; the model stops there, and the uses in the
    development are proved to stay within [len(l)]. *)
Definition slice_to {A} (l : list A) (i : Z) : option (list A) :=
  if decide (0 <= i <= len l) then Some (take (Z.to_nat i) l) else None.

(** [l[i:j]]. *)
Definition slice_range {A} (l : list A) (i j : Z) : option (list A) :=
  match slice_to l j with Some l' => slice_from l' i | None => None end.

Section slices.
Context {A : Type}.
Implicit Types (l : list A) (i : Z).

Lemma slice_get_Some l i x :
  slice_get l i = Some x <-> 0 <= i /\ l !! Z.to_nat i = Some x.
Proof. unfold slice_get. destruct (decide _); naive_solver. Qed.

Lemma slice_get_is_Some l i : 0 <= i < len l -> exists x, slice_get l i = Some x.
Proof.
  intros Hi. unfold slice_get. case_decide; [|lia].
  apply lookup_lt_is_Some_2. lia.
Qed.

Lemma slice_get_lt l i x : slice_get l i = Some x -> 0 <= i < len l.
Proof.
  intros [? H]%slice_get_Some. apply lookup_lt_Some in H. lia.
Qed.

Lemma slice_from_Some l i : 0 <= i <= len l -> slice_from l i = Some (drop (Z.to_nat i) l).
Proof. intros. unfold slice_from. by case_decide. Qed.

Lemma slice_to_Some l i : 0 <= i <= len l -> slice_to l i = Some (take (Z.to_nat i) l).
Proof. intros. unfold slice_to. by case_decide. Qed.

Lemma slice_set_Some l i v : 0 <= i < len l -> slice_set l i v = Some (<[Z.to_nat i := v]> l).
Proof. intros. unfold slice_set. by case_decide. Qed.

Lemma slice_get_app_l l l' i : i < len l -> slice_get (l ++ l') i = slice_get l i.
Proof.
  intros. unfold slice_get. case_decide; [|done]. apply lookup_app_l. lia.
Qed.

Lemma slice_get_app_r l l' i : len l <= i -> slice_get (l ++ l') i = slice_get l' (i - len l).
Proof.
  intros. unfold slice_get. rewrite !decide_True by lia.
  rewrite lookup_app_r by lia. f_equal. lia.
Qed.

Lemma slice_get_take l n i : i < Z.of_nat n -> slice_get (take n l) i = slice_get l i.
Proof.
  intros. unfold slice_get. case_decide; [|done]. apply lookup_take_lt. lia.
Qed.

Lemma slice_get_drop l n i : 0 <= i -> slice_get (drop n l) i = slice_get l (Z.of_nat n + i).
Proof.
  intros. unfold slice_get. rewrite !decide_True by lia. rewrite lookup_drop. f_equal. lia.
Qed.

Lemma slice_get_insert l i j v :
  0 <= i < len l ->
  slice_get (<[Z.to_nat i := v]> l) j = if decide (i = j) then Some v else slice_get l j.
Proof.
  intros Hi. unfold slice_get. case_decide.
  - case_decide; subst.
    + apply list_lookup_insert_eq. lia.
    + apply list_lookup_insert_ne. lia.
  - case_decide; [lia|done].
Qed.
End slices.

(** [copy(dst, src)] up to the shorter length. *)
Fixpoint copy_into {A} (dst src : list A) : list A :=
  match dst, src with
  | _ :: dst, x :: src => x :: copy_into dst src
  | dst, _ => dst
  end.

Lemma copy_into_replicate {A} (x : A) l : copy_into (replicate (length l) x) l = l.
Proof. induction l as [|y l IH]; simpl; congruence. Qed.

(** Go's [/] on a non-negative [int]. *)
Lemma quot2_bounds n : 0 <= n -> 2 * (n `quot` 2) <= n < 2 * (n `quot` 2) + 2.
Proof.
  intros Hn. rewrite Z.quot_div_nonneg by lia.
  pose proof (Z.mod_pos_bound n 2 ltac:(lia)). pose proof (Z.div_mod n 2 ltac:(lia)). lia.
Qed.

Lemma replicate_middle {A} (x : A) k l :
  x :: replicate k x ++ l = replicate k x ++ x :: l.
Proof. induction k as [|k IH]; simpl; congruence. Qed.

(** Replacing one element changes a count by at most one. *)
Lemma filter_insert_length {A} (P : A -> Prop) `{!forall x, Decision (P x)} (l : list A) k x y :
  l !! k = Some x ->
  (length (filter P (<[k := y]> l)) + (if decide (P x) then 1 else 0) =
   length (filter P l) + (if decide (P y) then 1 else 0))%nat.
Proof.
  intros Hk. pose proof (lookup_lt_Some _ _ _ Hk) as Hlt.
  rewrite <-(take_drop_middle l k x Hk) at 2. rewrite insert_take_drop by done.
  rewrite !filter_app, !length_app, !filter_cons. repeat case_decide; simpl; lia.
Qed.

Lemma forallb_Forall {A} (f : A -> bool) l : forallb f l = true <-> Forall (fun x => f x = true) l.
Proof.
  induction l as [|x l IH]; simpl; [by split|]. rewrite andb_true_iff, IH. by rewrite Forall_cons.
Qed.

Lemma filter_ext_in {A} (P Q : A -> Prop) `{!forall x, Decision (P x)} `{!forall x, Decision (Q x)} (l : list A) :
  (forall x, x ∈ l -> P x <-> Q x) -> filter P l = filter Q l.
Proof.
  induction l as [|x l IH]; intros Hl; [done|]. rewrite !filter_cons, IH by set_solver.
  pose proof (Hl x ltac:(set_solver)). repeat case_decide; tauto.
Qed.

Lemma seq_split n pre i post : seq 0 n = pre ++ i :: post -> (i < n)%nat /\ i ∉ pre.
Proof.
  intros E. pose proof (NoDup_seq 0 n) as Hd. rewrite E in Hd. split.
  - assert (i ∈ seq 0 n) as Hin by (rewrite E; set_solver). apply elem_of_seq in Hin. lia.
  - apply NoDup_app in Hd as (_&Hd&_). intros Hin. apply (Hd i Hin). set_solver.
Qed.

Lemma lookup_range {A} (l : list A) i : (i < length l)%nat -> exists x, l !! i = Some x /\ slice_get l (Z.of_nat i) = Some x.
Proof.
  intros [x Hx]%lookup_lt_is_Some_2. exists x. split; [done|]. apply slice_get_Some. rewrite Nat2Z.id. split; [lia|done].
Qed.

Lemma alter_insert {A} (f : A -> A) (l : list A) (i : nat) x : l !! i = Some x -> alter f i l = <[i := f x]> l.
Proof. intros Hx. rewrite list_insert_alter. apply list_alter_ext; [congruence|done]. Qed.

(** ** Maps of Go: a nil map reads as empty and panics when written *)
Definition GoMap K `{Countable K} V : Type := option (gmap K V).

Definition map_get `{Countable K} {V} (m : GoMap K V) (k : K) : option V :=
  match m with Some m => m !! k | None => None end.
Definition map_set `{Countable K} {V} (m : GoMap K V) (k : K) (v : V) : option (GoMap K V) :=
  match m with Some m => Some (Some (<[k := v]> m)) | None => None end.
(** [delete(m, k)] is a no-op on a nil map. *)
Definition map_delete `{Countable K} {V} (m : GoMap K V) (k : K) : GoMap K V :=
  match m with Some m => Some (delete k m) | None => None end.

(** [for k, v := range m] visits the entries of a map in an order Go leaves open.
    [range] is that order, a parameter; [range_perm] is all the language promises. *)
Class MapOrder := range : forall {K V} `{Countable K}, gmap K V -> list (K * V).
Class MapOrderLaws `{MapOrder} :=
  range_perm : forall {K V} `{Countable K} (m : gmap K V), Permutation (range m) (map_to_list m).

Lemma range_keys `{MapOrderLaws} `{Countable K} {V} (m : gmap K V) :
  Permutation (fst <$> range m) (fst <$> map_to_list m).
Proof. by rewrite (range_perm m). Qed.

Lemma elem_of_range `{MapOrderLaws} `{Countable K} {V} (m : gmap K V) k v :
  (k, v) ∈ range m <-> m !! k = Some v.
Proof. rewrite (range_perm m). apply elem_of_map_to_list. Qed.

(** Two orders that exist. *)
Definition list_order : MapOrder := fun K V _ _ m => map_to_list m.
#[export] Instance list_order_laws : MapOrderLaws (H := list_order).
Proof. by intros K V ? ? m. Qed.
Definition reversed_order : MapOrder := fun K V _ _ m => reverse (map_to_list m).
#[export] Instance reversed_order_laws : MapOrderLaws (H := reversed_order).
Proof. intros K V ? ? m. apply reverse_Permutation. Qed.
