(* ===== verification/Labgob.v ===== *)
(** * labgob: the encoder the services persist and snapshot with

    [src/src/labgob/labgob.go] wraps Go's [encoding/gob]. The byte format of gob
    is not part of the repository, so an encoder is a parameter of the model: the
    class [Gob] has the two operations the code calls ([LabEncoder.Encode] on a
    growing buffer, [LabDecoder.Decode] on a stream) and [GobLaws] has what the
    code relies on, that decoding reads back the value encoded and leaves the
    rest of the stream. [countable_gob] is a concrete codec that satisfies the
    laws and evaluates. *)
From stdpp Require Import countable.
From Stdlib Require Import Strings.Byte.
From S2P Require Import Prelude.

Class Gob (A : Type) := {
  Encode : A -> list byte;
  Decode : list byte -> option (A * list byte)
}.

Class GobLaws (A : Type) `{!Gob A} := {
  Decode_Encode : forall (a : A) rest, Decode (Encode a ++ rest) = Some (a, rest);
  Encode_nonempty : forall a : A, Encode a <> []
}.

Lemma Decode_Encode_nil `{GobLaws A} (a : A) : Decode (Encode a) = Some (a, []).
Proof. rewrite <-(app_nil_r (Encode a)). apply Decode_Encode. Qed.

(** ** A concrete codec: the bits of stdpp's [encode], one per byte *)

Fixpoint pos_bytes (p : positive) : list byte :=
  match p with
  | xH => [x00]
  | xO p => x01 :: pos_bytes p
  | xI p => x02 :: pos_bytes p
  end.

Fixpoint bytes_pos (l : list byte) : option (positive * list byte) :=
  match l with
  | x00 :: l => Some (xH, l)
  | x01 :: l => match bytes_pos l with Some (p, r) => Some (xO p, r) | None => None end
  | x02 :: l => match bytes_pos l with Some (p, r) => Some (xI p, r) | None => None end
  | _ => None
  end.

Lemma bytes_pos_bytes p rest : bytes_pos (pos_bytes p ++ rest) = Some (p, rest).
Proof. induction p as [p IH|p IH|]; simpl; by rewrite ?IH. Qed.

#[export] Instance countable_gob `{Countable A} : Gob A := {|
  Encode a := pos_bytes (encode a);
  Decode l := match bytes_pos l with
              | Some (p, r) => match decode p with Some a => Some (a, r) | None => None end
              | None => None
              end
|}.

#[export] Instance countable_gob_laws `{Countable A} : GobLaws A.
Proof.
  split; simpl.
  - intros a rest. by rewrite bytes_pos_bytes, decode_encode.
  - intros a. by destruct (encode a).
Qed.
