(* ===== verification/LabgobProps.v ===== *)
(** * labgob: the checks around encoding/gob ([src/src/labgob/labgob.go])

    Before it encodes or decodes a value labgob walks over its type and complains about
    fields whose names are not capitalised, once per type; before it decodes into a
    variable it walks over the value and warns when it is not the zero value. This is one
    goroutine's walk: the package's variables are read and written under [mu]. The
    types of a program are nodes of a graph, the [reflect.Type]s being numbers; a
    recursive type is a cycle. [checkType] recurs at most once per type, which the fuel
    [type_fuel] covers.

    What the checks find: [checkType] is a depth-first search: it ends, visits exactly the
    types that can be reached and counts every badly named field once. [checkDefault]
    counts the basic values within its depth that are not zero. *)
From Stdlib Require Import Strings.Byte Strings.Ascii.
From S2P Require Import Prelude Labgob.

(** [unicode.IsUpper] of the first rune of a name beyond ASCII. *)
Class Unicode := isUpperRune : string -> bool.

(** ** Types and values *)

(** [BasicT]: the kinds [checkDefault1] compares with zero; [OtherT]: interfaces,
    functions, channels, complex numbers. *)
Inductive TypeDesc :=
  | StructT (fields : list (string * nat))
  | SliceT (elem : nat)
  | ArrayT (elem : nat)
  | PtrT (elem : nat)
  | MapT (key elem : nat)
  | BasicT
  | OtherT.

Record GoTypes := mkGoTypes { t_names : gmap nat string; t_descs : gmap nat TypeDesc }.

(** A [reflect.Value]; of a basic value only whether it is zero matters here. A slice,
    array, map or other value is not looked into. *)
Inductive GoValue :=
  | StructV (t : nat) (fields : list (string * bool * GoValue)) (** name, embedded, value *)
  | PtrV (t : nat) (v : option GoValue)
  | BasicV (t : nat) (zero : bool)
  | OtherV (t : nat).

Inductive Complaint :=
  | LowerCaseField (field : string) (t : nat)
  | NonDefault (what : string).

(** The variables of the package and what it printed. *)
Record Lab := mkLab { errorCount : Z; checked : option (gset nat); printed : list Complaint }.
Definition NewLab : Lab := mkLab 0 None [].

Section labgob.
Context `{Unicode} (types : GoTypes).
Implicit Types (st : Lab) (t : nat).

(** [utf8.DecodeRuneInString] and [unicode.IsUpper]. *)
Definition capital (name : string) : bool :=
  match name with
  | EmptyString => false
  | String c _ =>
      if decide (nat_of_ascii c < 128)%nat
      then bool_decide (65 <= nat_of_ascii c)%nat && bool_decide (nat_of_ascii c <= 90)%nat
      else isUpperRune name
  end.

(** ** checkType *)

Definition marked (t : nat) st : bool := bool_decide (t ∈ default ∅ (checked st)).
Definition mark (t : nat) st : Lab :=
  mkLab (errorCount st) (Some ({[t]} ∪ default ∅ (checked st))) (printed st).
Definition complain (field : string) (t : nat) st : Lab :=
  mkLab (errorCount st + 1) (checked st) (printed st ++ [LowerCaseField field t]).

(** [None]: out of fuel. *)
Fixpoint checkType (fuel : nat) (t : nat) st : option Lab :=
  match fuel with
  | O => None
  | S fuel =>
      if marked t st then Some st else
      let st := mark t st in
      match t_descs types !! t with
      | Some (StructT fields) =>
          (fix loop (fields : list (string * nat)) st :=
             match fields with
             | [] => Some st
             | (name, u) :: fields =>
                 let st := if capital name then st else complain name t st in
                 st ← checkType fuel u st;
                 loop fields st
             end) fields st
      | Some (SliceT u) | Some (ArrayT u) | Some (PtrT u) => checkType fuel u st
      | Some (MapT key elem) => st ← checkType fuel elem st; checkType fuel key st
      | _ => Some st
      end
  end.

(** As many calls nest as there are types, and one that returns at once. *)
Definition type_fuel : nat := S (S (size (t_descs types))).
Definition checkValue (t : nat) st : option Lab := checkType type_fuel t st.

(** ** checkDefault *)

Definition type_of (v : GoValue) : nat :=
  match v with StructV t _ | PtrV t _ | BasicV t _ | OtherV t => t end.

Definition warn (what : string) st : Lab :=
  mkLab (errorCount st + 1) (checked st)
    (if decide (errorCount st < 1) then printed st ++ [NonDefault what] else printed st).

(** The read-only flags of a [reflect.Value]: it was reached through a field that is not
    exported ([Sticky], which the fields of the value inherit), or it is an embedded
    field that is not exported ([Embed], which they do not). *)
Inductive Flag := NoRO | Embed | Sticky.
Definition field_flag (ro : Flag) (name : string) (embedded : bool) : Flag :=
  match ro with
  | Sticky => Sticky
  | _ => if capital name then NoRO else if embedded then Embed else Sticky
  end.

Definition field_name (name field : string) : string :=
  if decide (name <> "") then (name ++ "." ++ field)%string else field.

(** [Interface] panics ([None]) on a read-only value. [fuel] is [4 - depth]: at depth 4
    the walk returns. *)
Fixpoint checkDefault1 (fuel : nat) (ro : Flag) (name : string) (v : GoValue) st : option Lab :=
  match fuel with
  | O => Some st
  | S fuel =>
      match v with
      | StructV t fields =>
          (fix loop (fields : list (string * bool * GoValue)) st :=
             match fields with
             | [] => Some st
             | (field, embedded, vv) :: fields =>
                 st ← checkDefault1 fuel (field_flag ro field embedded) (field_name name field) vv st;
                 loop fields st
             end) fields st
      | PtrV t None => Some st
      | PtrV t (Some v) => checkDefault1 fuel ro name v st
      | BasicV t zero =>
          match ro with
          | NoRO =>
              if zero : bool then Some st
              else Some (warn (if decide (name = "") then default "" (t_names types !! t) else name) st)
          | _ => None
          end
      | OtherV t => Some st
      end
  end.
(** The argument is an interface; [None]: nil. *)
Definition checkDefault (value : option GoValue) st : option Lab :=
  match value with
  | None => Some st
  | Some v => checkDefault1 3 NoRO "" v st
  end.

(** ** Encode, Decode and Register *)

(** What they do before they call gob; [reflect.TypeOf] of nil has no [Kind]. *)
Definition Encode_check (e : option GoValue) st : option Lab :=
  v ← e; checkValue (type_of v) st.
Definition Decode_check (e : option GoValue) st : option Lab :=
  st ← Encode_check e st; checkDefault e st.
Definition Register_check (value : option GoValue) st : option Lab := Encode_check value st.
(** [value.Interface()] is the value again, and an interface without one is nil. *)
Definition EncodeValue_check (value : option GoValue) st : option Lab := Encode_check value st.
Definition RegisterName_check (name : string) (value : option GoValue) st : option Lab := Encode_check value st.
End labgob.

(** ** What the checks find *)

Section types.
Context `{Unicode} (types : GoTypes).
Implicit Types (st : Lab) (t u : nat) (X Y : gset nat).

(** ** The graph of types *)

(** The types [checkType] goes on to, in its order. *)
Definition children (t : nat) : list nat :=
  match t_descs types !! t with
  | Some (StructT fields) => fields.*2
  | Some (SliceT u) | Some (ArrayT u) | Some (PtrT u) => [u]
  | Some (MapT key elem) => [elem; key]
  | _ => []
  end.
Definition reach : nat -> nat -> Prop := rtc (fun t u => u ∈ children t).

(** The number of fields of a type it complains about. *)
Definition lower (t : nat) : nat :=
  match t_descs types !! t with
  | Some (StructT fields) => length (filter (fun f => capital f.1 = false) fields)
  | _ => 0
  end.
Definition lowers X : nat := sum_list (lower <$> elements X).

Definition seen st : gset nat := default ∅ (checked st).

(** Whatever was checked was checked with all it refers to. *)
Definition closed st : Prop := forall t u, t ∈ seen st -> u ∈ children t -> u ∈ seen st.

Lemma lowers_union X Y : X ## Y -> lowers (X ∪ Y) = (lowers X + lowers Y)%nat.
Proof. intros Hd. unfold lowers. by rewrite (elements_disj_union X Y Hd), fmap_app, sum_list_with_app. Qed.
Lemma lowers_singleton t : lowers {[t]} = lower t.
Proof. unfold lowers. rewrite elements_singleton. cbn. lia. Qed.

(** ** The search *)

(** What the search has done between [st] and [st'], starting from [roots], [extra]
    complaints aside. *)
Record visited (roots : list nat) (extra : nat) st st' : Prop := {
  vi_mono : seen st ⊆ seen st';
  vi_roots t : t ∈ roots -> t ∈ seen st';
  vi_closed t u : t ∈ seen st' -> t ∉ seen st -> u ∈ children t -> u ∈ seen st';
  vi_reach u : u ∈ seen st' -> u ∉ seen st -> exists t, t ∈ roots /\ reach t u;
  vi_count : errorCount st' = errorCount st + Z.of_nat (extra + lowers (seen st' ∖ seen st));
  vi_printed : len (printed st') - len (printed st) = errorCount st' - errorCount st
}.

Lemma visited_refl st : visited [] 0 st st.
Proof.
  split; [done|set_solver|naive_solver|naive_solver| |lia]. replace (seen st ∖ seen st) with (∅ : gset nat) by set_solver.
  change (lowers ∅) with 0%nat. lia.
Qed.

Lemma lowers_between X Y (D : gset nat) : X ⊆ Y -> Y ⊆ D -> lowers (D ∖ X) = (lowers (Y ∖ X) + lowers (D ∖ Y))%nat.
Proof.
  intros HXY HYD. rewrite <-lowers_union by set_solver. f_equal.
  apply set_eq. intros x. destruct (decide (x ∈ Y)); set_solver.
Qed.

Lemma visited_app roots roots' e e' st1 st2 st3 :
  visited roots e st1 st2 -> visited roots' e' st2 st3 -> visited (roots ++ roots') (e + e') st1 st3.
Proof.
  intros [M1 R1 C1 H1 N1 P1] [M2 R2 C2 H2 N2 P2]. split.
  - set_solver.
  - intros t [Ht|Ht]%elem_of_app; [by apply M2, R1|by apply R2].
  - intros t u Ht Hn Hu. destruct (decide (t ∈ seen st2)); [apply M2; by eapply C1|by eapply C2].
  - intros u Hu Hn. destruct (decide (u ∈ seen st2)) as [H2'|H2'].
    + destruct (H1 u H2' Hn) as (t&?&?). exists t. set_solver.
    + destruct (H2 u Hu H2') as (t&?&?). exists t. set_solver.
  - rewrite N2, N1, (lowers_between (seen st1) (seen st2) (seen st3)) by done. lia.
  - lia.
Qed.

Lemma visited_complain name t st : visited [] 1 st (complain name t st).
Proof.
  split; [done|set_solver|naive_solver|naive_solver|..].
  - cbn. replace (seen (complain name t st) ∖ seen st) with (∅ : gset nat) by set_solver.
    change (lowers ∅) with 0%nat. lia.
  - cbn. rewrite length_app. cbn. lia.
Qed.

(** The root itself, once all its children are done. *)
Lemma visited_root t st st' : t ∉ seen st -> visited (children t) (lower t) (mark t st) st' -> visited [t] 0 st st'.
Proof.
  intros Hn [M R C V N P]. assert (seen (mark t st) = {[t]} ∪ seen st) as Em by done. rewrite Em in *. split.
  - set_solver.
  - set_solver.
  - intros x u Hx Hxn Hu. destruct (decide (x = t)) as [->|]; [by apply R|]. eapply C; [done| |done]. set_solver.
  - intros u Hu Hun. exists t. split; [set_solver|]. destruct (decide (u = t)) as [->|]; [apply rtc_refl|].
    destruct (V u Hu) as (x&Hx&Hr); [set_solver|]. by eapply rtc_l.
  - rewrite N. cbn [errorCount mark]. rewrite (lowers_between (seen st) ({[t]} ∪ seen st) (seen st')) by set_solver.
    replace (({[t]} ∪ seen st) ∖ seen st) with ({[t]} : gset nat) by set_solver. rewrite lowers_singleton. lia.
  - cbn in P. lia.
Qed.

(** Types left to check: the fuel a search needs. *)
Definition unchecked st : nat := size (dom (t_descs types) ∖ seen st).

Lemma unchecked_mono st st' : seen st ⊆ seen st' -> (unchecked st' <= unchecked st)%nat.
Proof. intros Hs. unfold unchecked. apply subseteq_size. set_solver. Qed.

Lemma unchecked_mark t st d : t_descs types !! t = Some d -> t ∉ seen st -> (unchecked (mark t st) < unchecked st)%nat.
Proof.
  intros Hd Hn. unfold unchecked. apply subset_size. change (seen (mark t st)) with ({[t]} ∪ seen st).
  apply elem_of_dom_2 in Hd. split; [set_solver|]. intros Hs. specialize (Hs t). set_solver.
Qed.

Definition searches (fuel : nat) (t : nat) st : Prop :=
  exists st', checkType types fuel t st = Some st' /\ visited [t] 0 st st'.

Lemma checkType_visits fuel t st : (unchecked st < fuel)%nat -> searches fuel t st.
Proof.
  revert t st. induction fuel as [|fuel IH]; intros t st Hf; [lia|]. unfold searches. cbn [checkType].
  unfold marked. fold (seen st). case_bool_decide as Hm.
  { exists st. split; [done|]. destruct (visited_refl st). split; try done; set_solver. }
  enough (exists st', match t_descs types !! t with
      | Some (StructT fields) =>
          (fix loop (fields : list (string * nat)) st :=
             match fields with
             | [] => Some st
             | (name, u) :: fields =>
                 let st := if capital name then st else complain name t st in
                 st ← checkType types fuel u st;
                 loop fields st
             end) fields (mark t st)
      | Some (SliceT u) | Some (ArrayT u) | Some (PtrT u) => checkType types fuel u (mark t st)
      | Some (MapT key elem) => st ← checkType types fuel elem (mark t st); checkType types fuel key st
      | _ => Some (mark t st)
      end = Some st' /\ visited (children t) (lower t) (mark t st) st') as (st'&Hr&Hv).
  { exists st'. split; [exact Hr|by apply visited_root]. }
  unfold children, lower. destruct (t_descs types !! t) as [d|] eqn:Ed; [|eexists; split; [done|apply visited_refl]].
  assert (unchecked (mark t st) < fuel)%nat as Hf' by (pose proof (unchecked_mark _ _ _ Ed Hm); lia).
  clear Hf Hm. revert Hf'. generalize (mark t st) as st1. clear st. intros st Hf.
  destruct d as [fields|u|u|u|key elem| |]; try (by apply IH); try (eexists; split; [done|apply visited_refl]).
  - clear Ed. revert st Hf. induction fields as [|[name u] fields IHf]; intros st Hf; [eexists; split; [done|apply visited_refl]|].
    set (st1 := if capital name then st else complain name t st).
    assert (seen st1 = seen st) as E1 by (unfold st1; by destruct (capital name)).
    destruct (IH u st1) as (st2&Hr2&Hv2); [unfold unchecked in *; by rewrite E1|].
    destruct (IHf st2) as (st3&Hr3&Hv3).
    { eapply Nat.le_lt_trans; [|exact Hf]. apply unchecked_mono. rewrite <-E1. apply Hv2. }
    exists st3. cbn zeta. fold st1. rewrite Hr2. split; [exact Hr3|]. cbn [fmap list_fmap snd].
    assert (visited [] (if capital name then 0 else 1) st st1) as Hv1.
    { unfold st1. destruct (capital name); [apply visited_refl|apply visited_complain]. }
    replace (length (filter _ ((name, u) :: fields))) with
      ((if capital name then 0 else 1) + (0 + length (filter (fun f => capital f.1 = false) fields)))%nat.
    + exact (visited_app _ _ _ _ _ _ _ Hv1 (visited_app _ _ _ _ _ _ _ Hv2 Hv3)).
    + rewrite filter_cons. cbn [fst]. destruct (capital name) eqn:Ec; [rewrite decide_False by congruence; done|].
      by rewrite decide_True.
  - destruct (IH elem st Hf) as (st2&Hr2&Hv2). destruct (IH key st2) as (st3&Hr3&Hv3).
    { eapply Nat.le_lt_trans; [|exact Hf]. apply unchecked_mono. apply Hv2. }
    exists st3. rewrite Hr2. split; [exact Hr3|]. exact (visited_app _ _ _ _ _ _ _ Hv2 Hv3).
Qed.

(** [checkValue] ends on every type, recursive ones included, and from then on the types
    that have been checked are those it had checked and those its argument refers to,
    directly or not; it complains, and counts an error, once for every field of the newly
    checked types whose name is not capitalised; and a second call does nothing. *)
Theorem checkValue_complains_once t st : closed st ->
  exists st', checkValue types t st = Some st' /\ closed st' /\
    (forall u, u ∈ seen st' <-> u ∈ seen st \/ reach t u) /\
    errorCount st' = errorCount st + Z.of_nat (lowers (seen st' ∖ seen st)) /\
    len (printed st') - len (printed st) = errorCount st' - errorCount st /\
    checkValue types t st' = Some st'.
Proof.
  intros Hc. destruct (checkType_visits (type_fuel types) t st) as (st'&Hr&[M R C V N P]).
  { unfold type_fuel, unchecked. enough (size (dom (t_descs types) ∖ seen st) <= size (t_descs types))%nat by lia.
    rewrite <-size_dom. apply subseteq_size. set_solver. }
  assert (closed st') as Hc'.
  { intros x u Hx Hu. destruct (decide (x ∈ seen st)) as [Hin|Hin]; [apply M; by eapply Hc|by eapply C]. }
  assert (t ∈ seen st') as Ht by (apply R; set_solver).
  exists st'. split_and!; [done|done| |done|done|].
  - intros u. split.
    + intros Hu. destruct (decide (u ∈ seen st)) as [|Hn]; [by left|right]. destruct (V u Hu Hn) as (x&Hx&?). set_solver.
    + intros [Hu|Hu]; [by apply M|]. clear -Hu Ht Hc'. induction Hu as [|x y z Hxy _ IH]; [done|]. apply IH. by eapply Hc'.
  - unfold checkValue, type_fuel. cbn [checkType]. unfold marked. fold (seen st'). by rewrite bool_decide_eq_true_2.
Qed.

(** ** The walk over a value *)

(** A basic value, how deep it is and through what it is reached. *)
Record Leaf := mkLeaf { l_depth : nat; l_flag : Flag; l_what : string; l_zero : bool }.

Fixpoint leaves (depth : nat) (ro : Flag) (name : string) (v : GoValue) : list Leaf :=
  match v with
  | StructV t fields =>
      (fix loop (fields : list (string * bool * GoValue)) :=
         match fields with
         | [] => []
         | (field, embedded, vv) :: fields =>
             leaves (S depth) (field_flag ro field embedded) (field_name name field) vv ++ loop fields
         end) fields
  | PtrV t None => []
  | PtrV t (Some v) => leaves (S depth) ro name v
  | BasicV t zero => [mkLeaf depth ro (if decide (name = "") then default "" (t_names types !! t) else name) zero]
  | OtherV t => []
  end.

(** What [checkDefault1] makes of the leaves it gets to. *)
Definition readable (l : Leaf) : bool := match l_flag l with NoRO => true | _ => false end.
Definition nonzero (ls : list Leaf) : list Leaf := filter (fun l => l_zero l = false) ls.
Definition near (d : nat) (ls : list Leaf) : list Leaf := filter (fun l => (l_depth l < d)%nat) ls.

Definition warned (ls : list Leaf) st : option Lab :=
  if forallb readable ls
  then Some (mkLab (errorCount st + len (nonzero ls)) (checked st)
               (printed st ++ (NonDefault ∘ l_what <$> take (Z.to_nat (1 - errorCount st)) (nonzero ls))))
  else None.

Lemma warned_nil st : warned [] st = Some st.
Proof. unfold warned. cbn. destruct st; cbn. by rewrite Z.add_0_r, take_nil, app_nil_r. Qed.

Lemma warned_app ls ls' st : warned (ls ++ ls') st = (st ← warned ls st; warned ls' st).
Proof.
  unfold warned. rewrite forallb_app. destruct (forallb readable ls); [|done]. cbn.
  destruct (forallb readable ls'); [|done]. unfold nonzero. rewrite filter_app. f_equal.
  set (a := filter _ ls). set (b := filter _ ls'). rewrite length_app. f_equal; [lia|].
  rewrite <-app_assoc, <-fmap_app, take_app. do 4 f_equal. lia.
Qed.

Lemma near_app d ls ls' : near d (ls ++ ls') = near d ls ++ near d ls'.
Proof. apply filter_app. Qed.

(** A value's leaves are at its depth or deeper. *)
Lemma near_leaves : forall v d ro name, near d (leaves d ro name v) = [].
Proof.
  assert (forall v k d ro name, (k <= d)%nat -> near k (leaves d ro name v) = []) as Hd; [|intros; by apply Hd].
  fix IH 1. intros [t fields|t [v|]|t z|t] k d ro name Hk; cbn [leaves]; [|by apply IH; lia|done| |done].
  - induction fields as [|[[field e] vv] fields IHf]; [done|].
    rewrite near_app, IHf, (IH vv) by lia. done.
  - unfold near. rewrite filter_cons_False; [done|]. cbn. lia.
Qed.

Lemma checkDefault1_warned fuel : forall d ro name v st,
  checkDefault1 types fuel ro name v st = warned (near (d + fuel) (leaves d ro name v)) st.
Proof.
  induction fuel as [|fuel IH]; intros d ro name v st.
  { rewrite Nat.add_0_r, near_leaves. symmetry. apply warned_nil. }
  rewrite <-Nat.add_succ_comm. destruct v as [t fields|t [v|]|t z|t]; cbn [checkDefault1 leaves]; try (symmetry; apply warned_nil).
  - revert st. induction fields as [|[[field e] vv] fields IHf]; intros st; [symmetry; apply warned_nil|].
    rewrite near_app, warned_app, (IH (S d)). destruct (warned (near _ _) st) as [st1|]; cbn; [apply IHf|done].
  - apply IH.
  - unfold near. rewrite filter_cons_True by (cbn; lia). cbn [filter list_filter].
    unfold warned, warn. cbn. destruct ro; cbn; [|done|done]. unfold nonzero. destruct z.
    { rewrite decide_False by done. destruct st. cbn. by rewrite take_nil, app_nil_r, Z.add_0_r. }
    rewrite (decide_True (P := false = false)) by done. cbn [length fmap].
    do 2 f_equal. destruct (decide (errorCount st < 1)) as [Hc|Hc].
    + replace (Z.to_nat (1 - errorCount st)) with (S (Z.to_nat (- errorCount st))) by lia. cbn. by rewrite take_nil.
    + replace (Z.to_nat (1 - errorCount st)) with 0%nat by lia. by rewrite app_nil_r.
Qed.

(** C38: [checkDefault] looks at the basic values at most three levels down, the variable
    itself being the first: it counts those that are not zero, prints a warning for the
    first [1 - errorCount] of them (one if nothing was reported before), and panics if one of them,
    zero or not, was reached through a field that is not exported. *)
Theorem checkDefault_warns v st :
  let ls := near 4 (leaves 1 NoRO "" v) in
  checkDefault types (Some v) st =
    if forallb readable ls
    then Some (mkLab (errorCount st + len (nonzero ls)) (checked st)
                 (printed st ++ (NonDefault ∘ l_what <$> take (Z.to_nat (1 - errorCount st)) (nonzero ls))))
    else None.
Proof. exact (checkDefault1_warned 3 1 NoRO "" v st). Qed.
End types.

(** ** The package's own tests, and a recursive type *)

Module LabgobExample.
(** Only ASCII names here. *)
#[local] Instance no_rune : Unicode := fun _ => false.

(** 0 to 7: [[]map[*T4]int] and [*[]map[T4]int] of TestCapital and what they refer to;
    8 and 9: [type Node struct { Val int; next *Node }] and [*Node]; 10: [DD]
    of TestDefault and 11 its pointer. *)
Definition types : GoTypes := mkGoTypes
  (list_to_map [(3, "T4"); (4, "int"); (8, "Node"); (10, "DD")]%nat)
  (list_to_map [(0, SliceT 1); (1, MapT 2 4); (2, PtrT 3); (3, StructT [("Yes", 4); ("no", 4)]); (4, BasicT);
    (5, PtrT 6); (6, SliceT 7); (7, MapT 3 4); (8, StructT [("Val", 4); ("next", 9)]); (9, PtrT 8);
    (10, StructT [("X", 4)]); (11, PtrT 10)]%nat).

Example test_capital :
  (st ← Encode_check types (Some (OtherV 0)) NewLab; Decode_check types (Some (PtrV 5 (Some (OtherV 6)))) st)
    ≫= (fun st => Some (errorCount st, printed st)) = Some (1, [LowerCaseField "no" 3]).
Proof. vm_compute. reflexivity. Qed.

Example test_default :
  Decode_check types (Some (PtrV 11 (Some (StructV 10 [("X", false, BasicV 4 false)])))) NewLab
    ≫= (fun st => Some (errorCount st, printed st)) = Some (1, [NonDefault "X"]).
Proof. vm_compute. reflexivity. Qed.

(** A variable with a field that is not exported: the decoder panics even if it is zero. *)
Example decode_unexported_panics :
  Decode_check types (Some (PtrV 2 (Some (StructV 3 [("Yes", false, BasicV 4 true); ("no", false, BasicV 4 true)])))) NewLab = None.
Proof. vm_compute. reflexivity. Qed.

Lemma checkValue_complains_once_witness : closed types NewLab /\
  exists st', checkValue types 9 NewLab = Some st' /\ closed types st' /\
    (forall u, u ∈ seen st' <-> u ∈ seen NewLab \/ reach types 9 u) /\
    errorCount st' = errorCount NewLab + Z.of_nat (lowers types (seen st' ∖ seen NewLab)) /\
    len (printed st') - len (printed NewLab) = errorCount st' - errorCount NewLab /\
    checkValue types 9 st' = Some st'.
Proof.
  assert (closed types NewLab) as Hc by (intros t u Ht; set_solver).
  split; [exact Hc|exact (checkValue_complains_once types 9 NewLab Hc)].
Defined.
End LabgobExample.
