(* ===== verification/Persister.v ===== *)
(** * raft/persister.go: stable storage of a Raft peer

    [Persister] holds the encoded Raft state and the service's snapshot. The
    mutex makes every method atomic, so each method is one function on the
    record. [clone] copies a byte slice, so the stored bytes are never shared
    with the caller: a value of type [list byte] is such a private copy. *)
From Stdlib Require Import Strings.Byte.
From S2P Require Import Prelude.

Record Persister := mkPersister {
  raftstate : list byte;
  snapshot : list byte
}.

Definition MakePersister : Persister := mkPersister [] [].

(** [make([]byte, len(orig))] filled by [copy]. *)
Fixpoint copy_bytes (dst src : list byte) : list byte :=
  match dst, src with
  | _ :: dst, b :: src => b :: copy_bytes dst src
  | dst, _ => dst
  end.
Definition clone (orig : list byte) : list byte :=
  copy_bytes (replicate (length orig) x00) orig.

Definition Copy (ps : Persister) : Persister :=
  mkPersister (raftstate ps) (snapshot ps).
Definition SaveRaftState (st : list byte) (ps : Persister) : Persister :=
  mkPersister (clone st) (snapshot ps).
Definition ReadRaftState (ps : Persister) : list byte := clone (raftstate ps).
Definition RaftStateSize (ps : Persister) : Z := len (raftstate ps).
Definition SaveStateAndSnapshot (st snap : list byte) (ps : Persister) : Persister :=
  mkPersister (clone st) (clone snap).
Definition ReadSnapshot (ps : Persister) : list byte := clone (snapshot ps).
Definition SnapshotSize (ps : Persister) : Z := len (snapshot ps).

Lemma clone_id l : clone l = l.
Proof. unfold clone. induction l as [|b l IH]; simpl; congruence. Qed.

(** What was saved is what is read, and saving the Raft state alone keeps the
    snapshot. *)
Lemma ReadRaftState_SaveRaftState st ps : ReadRaftState (SaveRaftState st ps) = st.
Proof. unfold ReadRaftState; simpl. by rewrite !clone_id. Qed.

Lemma ReadSnapshot_SaveRaftState st ps :
  ReadSnapshot (SaveRaftState st ps) = ReadSnapshot ps.
Proof. done. Qed.

Lemma ReadRaftState_SaveBoth st snap ps :
  ReadRaftState (SaveStateAndSnapshot st snap ps) = st.
Proof. unfold ReadRaftState; simpl. by rewrite !clone_id. Qed.

Lemma ReadSnapshot_SaveBoth st snap ps :
  ReadSnapshot (SaveStateAndSnapshot st snap ps) = snap.
Proof. unfold ReadSnapshot; simpl. by rewrite !clone_id. Qed.

Create Rewrite HintDb persister.
#[export] Hint Rewrite ReadRaftState_SaveRaftState ReadSnapshot_SaveRaftState
  ReadRaftState_SaveBoth ReadSnapshot_SaveBoth : persister.
