(* ===== verification/RaftTypes.v ===== *)
(** * raft/util.go and raft/rpc.go: data types and helpers of a Raft peer

    Commands are opaque to Raft ([interface{}]); [C] is their type and a nil
    command is [None]. Terms and log indices are Go [int]s and are kept in [Z]:
    the code only adds one to them. *)
From Stdlib Require Import Strings.Byte.
From S2P Require Import Prelude.

Inductive NodeState := StateFollower | StateCandidate | StateLeader.
#[export] Instance NodeState_eq_dec : EqDecision NodeState.
Proof. solve_decision. Defined.

Record Entry {C : Type} := mkEntry {
  e_Index : Z;
  e_Term : Z;
  e_Command : option C
}.
Arguments Entry : clear implicits.

(** [make([]Entry, 1)] holds one zero entry. *)
Definition zeroEntry {C} : Entry C := mkEntry C 0 0 None.

#[export] Instance Entry_eq_dec `{EqDecision C} : EqDecision (Entry C).
Proof. solve_decision. Defined.
#[export] Instance Entry_countable `{Countable C} : Countable (Entry C).
Proof.
  refine (inj_countable' (fun e => (e_Index e, e_Term e, e_Command e))
            (fun '(i, t, c) => mkEntry C i t c) _). by intros [].
Defined.

Record ApplyMsg {C : Type} := mkApplyMsg {
  CommandValid : bool;
  am_Command : option C;
  CommandTerm : Z;
  CommandIndex : Z;
  SnapshotValid : bool;
  Snapshot_ : list byte;
  SnapshotTerm : Z;
  SnapshotIndex : Z
}.
Arguments ApplyMsg : clear implicits.

Record RequestVoteRequest := mkRequestVoteRequest {
  rv_Term : Z;
  rv_CandidateId : Z;
  rv_LastLogIndex : Z;
  rv_LastLogTerm : Z
}.

Record RequestVoteResponse := mkRequestVoteResponse {
  rvr_Term : Z;
  rvr_VoteGranted : bool
}.

Record AppendEntriesRequest {C : Type} := mkAppendEntriesRequest {
  ae_Term : Z;
  ae_LeaderId : Z;
  ae_PrevLogIndex : Z;
  ae_PrevLogTerm : Z;
  ae_LeaderCommit : Z;
  ae_Entries : list (Entry C)
}.
Arguments AppendEntriesRequest : clear implicits.

Record AppendEntriesResponse := mkAppendEntriesResponse {
  aer_Term : Z;
  aer_Success : bool;
  aer_ConflictIndex : Z;
  aer_ConflictTerm : Z
}.

Record InstallSnapshotRequest := mkInstallSnapshotRequest {
  is_Term : Z;
  is_LeaderId : Z;
  is_LastIncludedIndex : Z;
  is_LastIncludedTerm : Z;
  is_Data : list byte
}.

Record InstallSnapshotResponse := mkInstallSnapshotResponse {
  isr_Term : Z
}.

(** ** Timers *)

(** A [*time.Timer] and the goroutine that receives from its channel. [t_when] is the
    duration in milliseconds it is armed with, if it is. [t_ticks] counts the expirations
    [ticker] has still to handle: one it has received, when it waits for the mutex, and one
    in the channel [C], which has room for one. [Stop] and [Reset] take neither back. *)
Record Timer := mkTimer { t_when : option Z; t_ticks : nat }.

Definition Stopped : Timer := mkTimer None 0.
Definition Armed (ms : Z) : Timer := mkTimer (Some ms) 0.

Definition Timer_Stop (t : Timer) : Timer := mkTimer None (t_ticks t).
Definition Timer_Reset (ms : Z) (t : Timer) : Timer := mkTimer (Some ms) (t_ticks t).
(** The duration has passed: the runtime sends on the channel unless it is full. *)
Definition Timer_expire (t : Timer) : Timer :=
  match t_when t with
  | Some _ => mkTimer None (Nat.min 2 (S (t_ticks t)))
  | None => t
  end.
(** [<-t.C], which waits for a tick. *)
Definition Timer_receive (t : Timer) : Timer := mkTimer (t_when t) (pred (t_ticks t)).
Definition ticked (t : Timer) : bool := bool_decide (0 < t_ticks t)%nat.

Definition HeartbeatTimeout : Z := 125.
Definition ElectionTimeout : Z := 1000.
Definition StableHeartbeatTimeout : Z := HeartbeatTimeout.

(** [math/rand]: [Intn k n] is the [k]-th draw of [globalRand.Intn(n)], which
    the library documents to be in [[0,n)]. *)
Class Rand := Intn : nat -> Z -> Z.
Class RandLaws `{Rand} := Intn_range : forall k n, 0 < n -> 0 <= Intn k n < n.

Definition RandomizedElectionTimeout `{Rand} (k : nat) : Z :=
  ElectionTimeout + Intn k ElectionTimeout.

Lemma RandomizedElectionTimeout_range `{RandLaws} k :
  ElectionTimeout <= RandomizedElectionTimeout k < 2 * ElectionTimeout.
Proof.
  unfold RandomizedElectionTimeout, ElectionTimeout.
  pose proof (Intn_range k 1000 ltac:(lia)). lia.
Qed.

(** ** Min, Max, insertionSort, shrinkEntriesArray *)

Definition Min (x y : Z) : Z := if decide (x > y) then y else x.
Definition Max (x y : Z) : Z := if decide (x < y) then y else x.

Lemma Min_min x y : Min x y = Z.min x y.
Proof. unfold Min. case_decide; lia. Qed.
Lemma Max_max x y : Max x y = Z.max x y.
Proof. unfold Max. case_decide; lia. Qed.

(** The inner loop of [insertionSort]: [sl[j]] moves left while it is smaller
    than its neighbour. The slice is the state, sorted in place. *)
Fixpoint sift_down (j : nat) : M (list Z) unit :=
  match j with
  | O => ret tt
  | S j' =>
      let! sl := get in
      let! x := lift (slice_get sl (Z.of_nat j)) in
      let! y := lift (slice_get sl (Z.of_nat j')) in
      if decide (x < y) then
        do! modify (fun sl => <[j' := x]> (<[j := y]> sl));
        sift_down j'
      else ret tt
  end.

Definition insertionSort : M (list Z) unit :=
  let! sl := get in
  forM (seq 1 (length sl - 1)) sift_down.

Lemma sift_down_spec l1 x mid rest :
  StronglySorted Z.le (l1 ++ mid) -> Forall (fun y => x < y) mid ->
  wp (sift_down (length l1)) (l1 ++ x :: mid ++ rest)
    (fun _ sl => exists l, sl = l ++ rest /\ Permutation l (l1 ++ x :: mid) /\
                 StronglySorted Z.le l).
Proof.
  revert mid. induction l1 as [|y l1 IH] using rev_ind; intros mid Hs Hm.
  - simpl. go. exists (x :: mid). repeat split; [done|].
    constructor; [done|]. eapply Forall_impl; [exact Hm|]. simpl. lia.
  - rewrite length_app, Nat.add_comm. simpl. go.
    rewrite <-app_assoc. simpl.
    eapply (wp_lift _ _ _ x).
    { apply slice_get_Some. split; [lia|].
      rewrite lookup_app_r by lia. by replace (_ - _)%nat with 1%nat by lia. }
    go. eapply (wp_lift _ _ _ y).
    { apply slice_get_Some. split; [lia|].
      rewrite lookup_app_r by lia. by replace (_ - _)%nat with 0%nat by lia. }
    rewrite <-app_assoc in Hs. simpl in Hs.
    case_decide as Hxy; go.
    + replace (<[length l1:=x]> (<[S (length l1):=y]> (l1 ++ y :: x :: mid ++ rest)))
        with (l1 ++ x :: (y :: mid) ++ rest).
      2:{ rewrite !insert_app_r_alt by (rewrite ?length_insert, ?length_app; simpl; lia).
          by replace (S (length l1) - length l1)%nat with 1%nat by lia;
             replace (length l1 - length l1)%nat with 0%nat by lia. }
      eapply wp_mono; [apply (IH (y :: mid)); [done|by constructor]|].
      intros _ sl (l & -> & Hp & Hss). exists l. repeat split; [|done].
      rewrite Hp. rewrite <-app_assoc. simpl. apply Permutation_app_head, perm_swap.
    + exists (l1 ++ y :: x :: mid). rewrite <-!app_assoc. simpl. repeat split; [done|].
      apply StronglySorted_app in Hs as (H12 & Hs1 & Hs2).
      apply StronglySorted_inv in Hs2 as [Hs2 Hy].
      apply StronglySorted_app. split_and!; [|done|].
      * intros a b Ha Hb. pose proof (H12 a y Ha ltac:(by left)).
        apply elem_of_cons in Hb as [->|Hb]; [lia|].
        apply elem_of_cons in Hb as [->|Hb]; [lia|].
        apply H12; [done|]. by right.
      * repeat constructor; [done| |lia|done].
        eapply Forall_impl; [exact Hm|]. simpl. lia.
Qed.

(** [insertionSort] ends, without an index panic, with a sorted permutation of
    the slice it was given. *)
Lemma insertionSort_spec sl :
  wp insertionSort sl (fun _ sl' => Permutation sl' sl /\ StronglySorted Z.le sl').
Proof.
  unfold insertionSort. go. destruct sl as [|a sl].
  { simpl. go. split; [done|constructor]. }
  set (I := fun (pre : list nat) (s : list Z) => exists l rest,
    s = l ++ rest /\ length l = S (length pre) /\ Permutation s (a :: sl) /\
    StronglySorted Z.le l).
  eapply (wp_mono _ _ (fun _ s => I (seq 1 (length (a :: sl) - 1)) s)).
  - apply (wp_forM _ _ I).
    { exists [a], sl. split_and!; try done. repeat constructor. }
    intros pre i s [post Hseq] (l & rest & -> & Hl & Hp & Hs).
    assert (i = length l) as ->.
    { assert (seq 1 (length (a :: sl) - 1) !! length pre = Some i) as Hi.
      { rewrite Hseq. by rewrite list_lookup_middle. }
      apply lookup_seq in Hi as [-> _]. lia. }
    destruct rest as [|x rest].
    { exfalso. apply (f_equal length) in Hseq. rewrite length_seq, length_app in Hseq.
      apply Permutation_length in Hp. rewrite app_nil_r in Hp. simpl in *. lia. }
    eapply wp_mono; [apply (sift_down_spec l x [] rest); [by rewrite app_nil_r|done]|].
    intros _ s (l' & -> & Hp' & Hs'). exists l', rest. split_and!; [done| | |done].
    + apply Permutation_length in Hp'. rewrite length_app in *. simpl in *. lia.
    + rewrite <-Hp, Hp'. by rewrite <-app_assoc.
  - intros _ s (l & rest & -> & Hl & Hp & Hs). rewrite length_seq in Hl.
    destruct rest as [|x rest]; [by rewrite app_nil_r in *|].
    apply Permutation_length in Hp. rewrite length_app in Hp. simpl in *. lia.
Qed.

(** The capacity of a slice's backing array is the run-time's choice, and
    [shrinkEntriesArray] looks at it only to decide whether to copy. *)
Class Alloc := cap : forall {A : Type}, list A -> Z.

Definition shrinkEntriesArray `{Alloc} {C} (entries : list (Entry C)) : list (Entry C) :=
  if decide (len entries * 2 < cap entries) then
    copy_into (replicate (length entries) zeroEntry) entries
  else entries.

Lemma shrinkEntriesArray_id `{Alloc} {C} (entries : list (Entry C)) :
  shrinkEntriesArray entries = entries.
Proof. unfold shrinkEntriesArray. case_decide; [apply copy_into_replicate|done]. Qed.

(** ** Counting in a sorted slice: the majority element *)

(** Number of elements of [l] that are at least [v]. *)
Definition count_ge (v : Z) (l : list Z) : Z := len (filter (fun x => v <= x) l).

#[export] Instance count_ge_perm v : Proper (Permutation ==> eq) (count_ge v).
Proof.
  intros l l' Hp. unfold count_ge. by rewrite (filter_Permutation _ _ _ Hp).
Qed.

Lemma count_ge_app v l l' : count_ge v (l ++ l') = count_ge v l + count_ge v l'.
Proof. unfold count_ge. rewrite filter_app, length_app. lia. Qed.

Lemma count_ge_le_len v l : 0 <= count_ge v l <= len l.
Proof. unfold count_ge. pose proof (length_filter (fun x => v <= x) l). lia. Qed.

Lemma count_ge_all v l : Forall (fun x => v <= x) l -> count_ge v l = len l.
Proof.
  unfold count_ge. induction 1 as [|x l Hx _ IH]; [done|].
  rewrite filter_cons_True by done. simpl. lia.
Qed.

Lemma count_ge_none v l : Forall (fun x => x < v) l -> count_ge v l = 0.
Proof.
  unfold count_ge. induction 1 as [|x l Hx _ IH]; [done|].
  by rewrite filter_cons_False by lia.
Qed.

Lemma count_ge_anti v w l : v <= w -> count_ge w l <= count_ge v l.
Proof.
  intros Hvw. unfold count_ge. induction l as [|x l IH]; [done|].
  rewrite !filter_cons. do 2 case_decide; simpl; lia.
Qed.

(** The element at position [k] of a sorted slice has at least [n-k] elements
    as large as it, and a larger value has fewer. *)
Lemma sorted_count_ge l k v :
  StronglySorted Z.le l -> slice_get l k = Some v ->
  len l - k <= count_ge v l /\ (forall w, v < w -> count_ge w l < len l - k).
Proof.
  intros Hs [Hk Hv]%slice_get_Some.
  pose proof (lookup_lt_Some _ _ _ Hv) as Hlt.
  apply list_elem_of_split_length in Hv as (l1 & l2 & -> & Hl1).
  apply StronglySorted_app in Hs as (H12 & Hs1 & [Hs2 Hv]%StronglySorted_inv).
  rewrite length_app in *; simpl in *. split.
  - rewrite count_ge_app. rewrite (count_ge_all v (v :: l2)) by (by constructor).
    pose proof (count_ge_le_len v l1). simpl. lia.
  - intros w Hw. replace (l1 ++ v :: l2) with ((l1 ++ [v]) ++ l2)
      by (by rewrite <-app_assoc).
    rewrite count_ge_app, (count_ge_none w (l1 ++ [v])).
    + pose proof (count_ge_le_len w l2). lia.
    + apply Forall_app; split; [|by repeat constructor].
      apply Forall_forall. intros x Hx.
      pose proof (H12 x v Hx ltac:(by left)). lia.
Qed.
