(* ===== verification/RaftNode.v ===== *)
(** * raft/raft.go: the Raft peer

    One definition per method of [Raft]. A method runs under the peer's mutex, so
    it is one computation of the monad [M] on the record [Raft]; a method that
    releases the lock around an RPC is split where it does ([StartElection] and
    [electionReply], [replicateOneRound] and the two response handlers, [applier]
    into [applier_take] and [applier_done]). Goroutines started, condition
    variables signalled and messages sent on [applyCh] are appended to [out].
    [DPrintf] prints nothing ([Debug] is false); its arguments are evaluated, so
    the log accesses among them are kept. *)
From Stdlib Require Import Strings.Byte.
From S2P Require Import Prelude Labgob Persister RaftTypes.

Section Raft.
Context {C : Type}.

(** What a method leaves behind besides the state. *)
Inductive Action :=
  | GoReplicator (peer : Z)
  | GoTicker
  | GoApplier
  | GoSendRequestVote (peer : Z) (request : RequestVoteRequest)
  | GoReplicateOneRound (peer : Z)
  | GoSendApplyMsg (msg : ApplyMsg C)
  | SignalReplicator (peer : Z)
  | SignalApply.

(** [peers] is the number of endpoints, [draws] counts the values taken from
    [globalRand]. *)
Record Raft := mkRaft {
  peers : nat;
  persister : Persister;
  me : Z;
  dead : bool;
  state : NodeState;
  currentTerm : Z;
  votedFor : Z;
  logs : list (Entry C);
  commitIndex : Z;
  lastApplied : Z;
  nextIndex : list Z;
  matchIndex : list Z;
  electionTimer : Timer;
  heartbeatTimer : Timer;
  draws : nat;
  out : list Action
}.

Definition set_persister (v : Persister) (rf : Raft) : Raft :=
  mkRaft (peers rf) v (me rf) (dead rf) (state rf) (currentTerm rf) (votedFor rf) (logs rf) (commitIndex rf) (lastApplied rf) (nextIndex rf) (matchIndex rf) (electionTimer rf) (heartbeatTimer rf) (draws rf) (out rf).
Definition set_dead (v : bool) (rf : Raft) : Raft :=
  mkRaft (peers rf) (persister rf) (me rf) v (state rf) (currentTerm rf) (votedFor rf) (logs rf) (commitIndex rf) (lastApplied rf) (nextIndex rf) (matchIndex rf) (electionTimer rf) (heartbeatTimer rf) (draws rf) (out rf).
Definition set_state (v : NodeState) (rf : Raft) : Raft :=
  mkRaft (peers rf) (persister rf) (me rf) (dead rf) v (currentTerm rf) (votedFor rf) (logs rf) (commitIndex rf) (lastApplied rf) (nextIndex rf) (matchIndex rf) (electionTimer rf) (heartbeatTimer rf) (draws rf) (out rf).
Definition set_currentTerm (v : Z) (rf : Raft) : Raft :=
  mkRaft (peers rf) (persister rf) (me rf) (dead rf) (state rf) v (votedFor rf) (logs rf) (commitIndex rf) (lastApplied rf) (nextIndex rf) (matchIndex rf) (electionTimer rf) (heartbeatTimer rf) (draws rf) (out rf).
Definition set_votedFor (v : Z) (rf : Raft) : Raft :=
  mkRaft (peers rf) (persister rf) (me rf) (dead rf) (state rf) (currentTerm rf) v (logs rf) (commitIndex rf) (lastApplied rf) (nextIndex rf) (matchIndex rf) (electionTimer rf) (heartbeatTimer rf) (draws rf) (out rf).
Definition set_logs (v : list (Entry C)) (rf : Raft) : Raft :=
  mkRaft (peers rf) (persister rf) (me rf) (dead rf) (state rf) (currentTerm rf) (votedFor rf) v (commitIndex rf) (lastApplied rf) (nextIndex rf) (matchIndex rf) (electionTimer rf) (heartbeatTimer rf) (draws rf) (out rf).
Definition set_commitIndex (v : Z) (rf : Raft) : Raft :=
  mkRaft (peers rf) (persister rf) (me rf) (dead rf) (state rf) (currentTerm rf) (votedFor rf) (logs rf) v (lastApplied rf) (nextIndex rf) (matchIndex rf) (electionTimer rf) (heartbeatTimer rf) (draws rf) (out rf).
Definition set_lastApplied (v : Z) (rf : Raft) : Raft :=
  mkRaft (peers rf) (persister rf) (me rf) (dead rf) (state rf) (currentTerm rf) (votedFor rf) (logs rf) (commitIndex rf) v (nextIndex rf) (matchIndex rf) (electionTimer rf) (heartbeatTimer rf) (draws rf) (out rf).
Definition set_nextIndex (v : list Z) (rf : Raft) : Raft :=
  mkRaft (peers rf) (persister rf) (me rf) (dead rf) (state rf) (currentTerm rf) (votedFor rf) (logs rf) (commitIndex rf) (lastApplied rf) v (matchIndex rf) (electionTimer rf) (heartbeatTimer rf) (draws rf) (out rf).
Definition set_matchIndex (v : list Z) (rf : Raft) : Raft :=
  mkRaft (peers rf) (persister rf) (me rf) (dead rf) (state rf) (currentTerm rf) (votedFor rf) (logs rf) (commitIndex rf) (lastApplied rf) (nextIndex rf) v (electionTimer rf) (heartbeatTimer rf) (draws rf) (out rf).
Definition set_electionTimer (v : Timer) (rf : Raft) : Raft :=
  mkRaft (peers rf) (persister rf) (me rf) (dead rf) (state rf) (currentTerm rf) (votedFor rf) (logs rf) (commitIndex rf) (lastApplied rf) (nextIndex rf) (matchIndex rf) v (heartbeatTimer rf) (draws rf) (out rf).
Definition set_heartbeatTimer (v : Timer) (rf : Raft) : Raft :=
  mkRaft (peers rf) (persister rf) (me rf) (dead rf) (state rf) (currentTerm rf) (votedFor rf) (logs rf) (commitIndex rf) (lastApplied rf) (nextIndex rf) (matchIndex rf) (electionTimer rf) v (draws rf) (out rf).
Definition set_draws (v : nat) (rf : Raft) : Raft :=
  mkRaft (peers rf) (persister rf) (me rf) (dead rf) (state rf) (currentTerm rf) (votedFor rf) (logs rf) (commitIndex rf) (lastApplied rf) (nextIndex rf) (matchIndex rf) (electionTimer rf) (heartbeatTimer rf) v (out rf).
Definition set_out (v : list Action) (rf : Raft) : Raft :=
  mkRaft (peers rf) (persister rf) (me rf) (dead rf) (state rf) (currentTerm rf) (votedFor rf) (logs rf) (commitIndex rf) (lastApplied rf) (nextIndex rf) (matchIndex rf) (electionTimer rf) (heartbeatTimer rf) (draws rf) v.

Definition emit (a : Action) : M Raft unit :=
  modify (fun rf => set_out (out rf ++ [a]) rf).

Context `{Gob Z} `{Gob (list (Entry C))} `{Rand} `{Alloc}.

(** ** Accessors *)

Definition GetState (rf : Raft) : Z * bool :=
  (currentTerm rf, bool_decide (state rf = StateLeader)).

Definition GetRaftStateSize (rf : Raft) : Z := RaftStateSize (persister rf).

Definition getLastLog : M Raft (Entry C) :=
  let! rf := get in
  lift (slice_get (logs rf) (len (logs rf) - 1)).

Definition getFirstLog : M Raft (Entry C) :=
  let! rf := get in
  lift (slice_get (logs rf) 0).

Definition isLogUpToDate (term index : Z) : M Raft bool :=
  let! lastLog := getLastLog in
  ret (bool_decide (term > e_Term lastLog) ||
       (bool_decide (term = e_Term lastLog) && bool_decide (index >= e_Index lastLog))).

Definition matchLog (term index : Z) : M Raft bool :=
  let! lastLog := getLastLog in
  if decide (index <= e_Index lastLog) then
    let! firstLog := getFirstLog in
    let! rf := get in
    let! e := lift (slice_get (logs rf) (index - e_Index firstLog)) in
    ret (bool_decide (e_Term e = term))
  else ret false.

(** ** Persistence *)

Definition encodeState (rf : Raft) : list byte :=
  Encode (currentTerm rf) ++ Encode (votedFor rf) ++ Encode (logs rf).

Definition persist : M Raft unit :=
  modify (fun rf => set_persister (SaveRaftState (encodeState rf) (persister rf)) rf).

(** The decoder's results, with the variables left at zero from the first
    failure on. *)
Definition decodeState (data : list byte) : Z * Z * list (Entry C) :=
  match Decode data with
  | Some (ct, data) =>
      match Decode data with
      | Some (vf, data) =>
          match Decode data with
          | Some (ls, _) => (ct, vf, ls)
          | None => (ct, vf, [])
          end
      | None => (ct, 0, [])
      end
  | None => (0, 0, [])
  end.

Definition readPersist (data : list byte) : M Raft unit :=
  if decide (len data = 0) then ret tt else
  let '(ct, vf, ls) := decodeState data in
  do! modify (fun rf => set_logs ls (set_votedFor vf (set_currentTerm ct rf)));
  let! firstLog := getFirstLog in
  modify (fun rf => set_commitIndex (e_Index firstLog) (set_lastApplied (e_Index firstLog) rf)).

(** ** Timers *)

Definition resetElectionTimer : M Raft unit :=
  modify (fun rf => set_draws (S (draws rf))
    (set_electionTimer (Timer_Reset (RandomizedElectionTimeout (draws rf)) (electionTimer rf)) rf)).

Definition resetHeartbeatTimer : M Raft unit :=
  modify (fun rf => set_heartbeatTimer (Timer_Reset StableHeartbeatTimeout (heartbeatTimer rf)) rf).

(** The timers run out. *)
Definition expireElectionTimer : M Raft unit :=
  modify (fun rf => set_electionTimer (Timer_expire (electionTimer rf)) rf).
Definition expireHeartbeatTimer : M Raft unit :=
  modify (fun rf => set_heartbeatTimer (Timer_expire (heartbeatTimer rf)) rf).

(** ** Role changes *)

(** [rf.matchIndex[i], rf.nextIndex[i] = m, n]. *)
Definition setProgress (i m n : Z) : M Raft unit :=
  let! rf := get in
  let! ms := lift (slice_set (matchIndex rf) i m) in
  let! ns := lift (slice_set (nextIndex rf) i n) in
  modify (fun rf => set_nextIndex ns (set_matchIndex ms rf)).

Definition ChangeState (st : NodeState) : M Raft unit :=
  let! rf := get in
  if decide (state rf = st) then ret tt else
  do! modify (set_state st);
  match st with
  | StateFollower =>
      do! modify (fun rf => set_heartbeatTimer (Timer_Stop (heartbeatTimer rf)) rf);
      resetElectionTimer
  | StateCandidate => ret tt
  | StateLeader =>
      let! lastLog := getLastLog in
      do! forM (seq 0 (peers rf)) (fun i => setProgress (Z.of_nat i) 0 (e_Index lastLog + 1));
      do! modify (fun rf => set_electionTimer (Timer_Stop (electionTimer rf)) rf);
      resetHeartbeatTimer
  end.

Definition BroadcastHeartbeat (isHeartBeat : bool) : M Raft unit :=
  let! rf := get in
  forM (seq 0 (peers rf)) (fun peer =>
    if decide (Z.of_nat peer = me rf) then ret tt else
    if isHeartBeat then emit (GoReplicateOneRound (Z.of_nat peer))
    else emit (SignalReplicator (Z.of_nat peer))).

(** [rf.currentTerm, rf.votedFor = term, -1]. *)
Definition adoptTerm (term : Z) : M Raft unit :=
  modify (fun rf => set_votedFor (-1) (set_currentTerm term rf)).

(** ** RequestVote *)

Definition RequestVote_body (request : RequestVoteRequest) : M Raft RequestVoteResponse :=
  let! rf := get in
  if bool_decide (rv_Term request < currentTerm rf) ||
     (bool_decide (rv_Term request = currentTerm rf) && bool_decide (votedFor rf <> -1) &&
      bool_decide (votedFor rf <> rv_CandidateId request))
  then ret (mkRequestVoteResponse (currentTerm rf) false)
  else
  do! (if decide (rv_Term request > currentTerm rf) then
         do! ChangeState StateFollower;
         adoptTerm (rv_Term request)
       else ret tt);
  let! ok := isLogUpToDate (rv_LastLogTerm request) (rv_LastLogIndex request) in
  if negb ok then
    let! rf := get in
    ret (mkRequestVoteResponse (currentTerm rf) false)
  else
  do! modify (set_votedFor (rv_CandidateId request));
  do! resetElectionTimer;
  let! rf := get in
  ret (mkRequestVoteResponse (currentTerm rf) true).

(** The deferred [DPrintf] evaluates [getFirstLog] and [getLastLog] on entry;
    the deferred [persist] runs on every return. *)
Definition RequestVote (request : RequestVoteRequest) : M Raft RequestVoteResponse :=
  let! _ := getFirstLog in
  let! _ := getLastLog in
  let! response := RequestVote_body request in
  do! persist;
  ret response.

(** ** AppendEntries *)

(** [for index >= firstIndex && logs[index-firstIndex].Term == term { index-- }],
    which runs at most [index - firstIndex + 1] times. *)
Fixpoint conflictScan (fuel : nat) (ls : list (Entry C)) (firstIndex term index : Z) : option Z :=
  match fuel with
  | O => Some index
  | S fuel =>
      if decide (index >= firstIndex) then
        match slice_get ls (index - firstIndex) with
        | Some e => if decide (e_Term e = term)
                    then conflictScan fuel ls firstIndex term (index - 1)
                    else Some index
        | None => None
        end
      else Some index
  end.
Definition conflictFuel (firstIndex index : Z) : nat := Z.to_nat (index - firstIndex + 1).

(** The loop over [request.Entries]: the first entry that is missing or differs
    replaces the rest of the log. *)
Fixpoint mergeEntries (firstIndex : Z) (entries : list (Entry C)) : M Raft unit :=
  match entries with
  | [] => ret tt
  | entry :: rest =>
      let! rf := get in
      let! conflict :=
        (if decide (e_Index entry - firstIndex >= len (logs rf)) then ret true
         else let! e := lift (slice_get (logs rf) (e_Index entry - firstIndex)) in
              ret (bool_decide (e_Term e <> e_Term entry))) in
      if (conflict : bool) then
        let! pre := lift (slice_to (logs rf) (e_Index entry - firstIndex)) in
        modify (set_logs (shrinkEntriesArray (pre ++ entries)))
      else mergeEntries firstIndex rest
  end.

Definition advanceCommitIndexForFollower (leaderCommit : Z) : M Raft unit :=
  let! lastLog := getLastLog in
  let newCommitIndex := Min leaderCommit (e_Index lastLog) in
  let! rf := get in
  if decide (newCommitIndex > commitIndex rf) then
    do! modify (set_commitIndex newCommitIndex);
    emit SignalApply
  else ret tt.

Definition AppendEntries_body (request : AppendEntriesRequest C) : M Raft AppendEntriesResponse :=
  let! rf := get in
  if decide (ae_Term request < currentTerm rf) then
    ret (mkAppendEntriesResponse (currentTerm rf) false 0 0)
  else
  do! (if decide (ae_Term request > currentTerm rf) then adoptTerm (ae_Term request)
       else ret tt);
  do! ChangeState StateFollower;
  do! resetElectionTimer;
  let! firstLog := getFirstLog in
  if decide (ae_PrevLogIndex request < e_Index firstLog) then
    ret (mkAppendEntriesResponse 0 false 0 0)
  else
  let! matched := matchLog (ae_PrevLogTerm request) (ae_PrevLogIndex request) in
  let! rf := get in
  if negb matched then
    let! lastLog := getLastLog in
    if decide (e_Index lastLog < ae_PrevLogIndex request) then
      ret (mkAppendEntriesResponse (currentTerm rf) false (e_Index lastLog + 1) (-1))
    else
    let firstIndex := e_Index firstLog in
    let! e := lift (slice_get (logs rf) (ae_PrevLogIndex request - firstIndex)) in
    let index := ae_PrevLogIndex request - 1 in
    let! index := lift (conflictScan (conflictFuel firstIndex index) (logs rf)
                          firstIndex (e_Term e) index) in
    ret (mkAppendEntriesResponse (currentTerm rf) false index (e_Term e))
  else
  do! mergeEntries (e_Index firstLog) (ae_Entries request);
  do! advanceCommitIndexForFollower (ae_LeaderCommit request);
  let! rf := get in
  ret (mkAppendEntriesResponse (currentTerm rf) true 0 0).

Definition AppendEntries (request : AppendEntriesRequest C) : M Raft AppendEntriesResponse :=
  let! response := AppendEntries_body request in
  do! persist;
  ret response.

(** ** Snapshots *)

Definition InstallSnapshot (request : InstallSnapshotRequest) : M Raft InstallSnapshotResponse :=
  let! rf := get in
  let response := mkInstallSnapshotResponse (currentTerm rf) in
  if decide (is_Term request < currentTerm rf) then ret response else
  do! (if decide (is_Term request > currentTerm rf) then
         do! modify (set_currentTerm (is_Term request));
         do! modify (set_votedFor (-1));
         persist
       else ret tt);
  do! ChangeState StateFollower;
  do! resetElectionTimer;
  let! rf := get in
  if decide (is_LastIncludedIndex request <= commitIndex rf) then ret response else
  do! emit (GoSendApplyMsg (mkApplyMsg C false None 0 0 true (is_Data request)
              (is_LastIncludedTerm request) (is_LastIncludedIndex request)));
  ret response.

(** [rf.logs[0].Command = nil]. *)
Definition clearFirstCommand : M Raft unit :=
  let! rf := get in
  let! e := lift (slice_get (logs rf) 0) in
  let! ls := lift (slice_set (logs rf) 0 (mkEntry C (e_Index e) (e_Term e) None)) in
  modify (set_logs ls).

Definition saveStateAndSnapshot (snap : list byte) : M Raft unit :=
  modify (fun rf => set_persister
    (SaveStateAndSnapshot (encodeState rf) snap (persister rf)) rf).

Definition CondInstallSnapshot (lastIncludedTerm lastIncludedIndex : Z) (snap : list byte)
  : M Raft bool :=
  let! rf := get in
  if decide (lastIncludedIndex <= commitIndex rf) then ret false else
  let! lastLog := getLastLog in
  do! (if decide (lastIncludedIndex > e_Index lastLog) then
         modify (set_logs [zeroEntry])
       else
         let! firstLog := getFirstLog in
         let! ls := lift (slice_from (logs rf) (lastIncludedIndex - e_Index firstLog)) in
         do! modify (set_logs (shrinkEntriesArray ls));
         clearFirstCommand);
  let! rf := get in
  let! e := lift (slice_get (logs rf) 0) in
  let! ls := lift (slice_set (logs rf) 0
                     (mkEntry C lastIncludedIndex lastIncludedTerm (e_Command e))) in
  do! modify (set_logs ls);
  do! modify (fun rf => set_commitIndex lastIncludedIndex (set_lastApplied lastIncludedIndex rf));
  do! saveStateAndSnapshot snap;
  ret true.

Definition Snapshot (index : Z) (snap : list byte) : M Raft unit :=
  let! firstLog := getFirstLog in
  let snapshotIndex := e_Index firstLog in
  if decide (index <= snapshotIndex) then ret tt else
  let! rf := get in
  let! ls := lift (slice_from (logs rf) (index - snapshotIndex)) in
  do! modify (set_logs (shrinkEntriesArray ls));
  do! clearFirstCommand;
  saveStateAndSnapshot snap.

(** ** Elections *)

Definition genRequestVoteRequest : M Raft RequestVoteRequest :=
  let! lastLog := getLastLog in
  let! rf := get in
  ret (mkRequestVoteRequest (currentTerm rf) (me rf) (e_Index lastLog) (e_Term lastLog)).

(** Up to the point where the goroutines are started; each of them runs
    [sendRequestVote] and, when an answer comes, [electionReply]. *)
Definition StartElection : M Raft RequestVoteRequest :=
  let! request := genRequestVoteRequest in
  do! modify (fun rf => set_votedFor (me rf) rf);
  do! persist;
  let! rf := get in
  do! forM (seq 0 (peers rf)) (fun peer =>
        if decide (Z.of_nat peer = me rf) then ret tt
        else emit (GoSendRequestVote (Z.of_nat peer) request));
  ret request.

(** The critical section of an election goroutine. [grantedVotes] is the variable
    the goroutines of one election share; its new value is returned. *)
Definition electionReply (request : RequestVoteRequest) (response : RequestVoteResponse)
  (grantedVotes : Z) : M Raft Z :=
  let! rf := get in
  if bool_decide (currentTerm rf = rv_Term request) &&
     bool_decide (state rf = StateCandidate) then
    if rvr_VoteGranted response then
      let grantedVotes := grantedVotes + 1 in
      if decide (grantedVotes > Z.of_nat (peers rf) `quot` 2) then
        do! ChangeState StateLeader;
        do! BroadcastHeartbeat true;
        ret grantedVotes
      else ret grantedVotes
    else if decide (rvr_Term response > currentTerm rf) then
      do! ChangeState StateFollower;
      do! adoptTerm (rvr_Term response);
      do! persist;
      ret grantedVotes
    else ret grantedVotes
  else ret grantedVotes.

(** The two cases of the [select] of [ticker]. A case is taken when its timer has a tick
    ([ticked]); the tick is received before the mutex is acquired, so the timer may have
    been stopped or reset since. *)
Definition ticker_election : M Raft RequestVoteRequest :=
  do! modify (fun rf => set_electionTimer (Timer_receive (electionTimer rf)) rf);
  do! ChangeState StateCandidate;
  do! modify (fun rf => set_currentTerm (currentTerm rf + 1) rf);
  let! request := StartElection in
  do! resetElectionTimer;
  ret request.

Definition ticker_heartbeat : M Raft unit :=
  do! modify (fun rf => set_heartbeatTimer (Timer_receive (heartbeatTimer rf)) rf);
  let! rf := get in
  if decide (state rf = StateLeader) then
    do! BroadcastHeartbeat true;
    resetHeartbeatTimer
  else ret tt.

(** ** Replication *)

Definition genAppendEntriesRequest (prevLogIndex : Z) : M Raft (AppendEntriesRequest C) :=
  let! firstLog := getFirstLog in
  let firstIndex := e_Index firstLog in
  let! rf := get in
  let! tail := lift (slice_from (logs rf) (prevLogIndex + 1 - firstIndex)) in
  let entries := copy_into (replicate (length tail) zeroEntry) tail in
  let! prev := lift (slice_get (logs rf) (prevLogIndex - firstIndex)) in
  ret (mkAppendEntriesRequest C (currentTerm rf) (me rf) prevLogIndex (e_Term prev)
         (commitIndex rf) entries).

Definition genInstallSnapshotRequest : M Raft InstallSnapshotRequest :=
  let! firstLog := getFirstLog in
  let! rf := get in
  ret (mkInstallSnapshotRequest (currentTerm rf) (me rf) (e_Index firstLog) (e_Term firstLog)
         (ReadSnapshot (persister rf))).

(** The request [replicateOneRound] sends, if any. *)
Inductive Replication :=
  | NoRequest
  | SendInstallSnapshot (request : InstallSnapshotRequest)
  | SendAppendEntries (request : AppendEntriesRequest C).

Definition replicateOneRound (peer : Z) : M Raft Replication :=
  let! rf := get in
  if decide (state rf <> StateLeader) then ret NoRequest else
  let! next := lift (slice_get (nextIndex rf) peer) in
  let prevLogIndex := next - 1 in
  let! firstLog := getFirstLog in
  if decide (prevLogIndex < e_Index firstLog) then
    let! request := genInstallSnapshotRequest in
    ret (SendInstallSnapshot request)
  else
    let! request := genAppendEntriesRequest prevLogIndex in
    ret (SendAppendEntries request).

Definition advanceCommitIndexForLeader : M Raft unit :=
  let! rf := get in
  let n := len (matchIndex rf) in
  let! srt := lift (snd <$> insertionSort (matchIndex rf)) in
  let! newCommitIndex := lift (slice_get srt (n - (n `quot` 2 + 1))) in
  if decide (newCommitIndex > commitIndex rf) then
    let! matched := matchLog (currentTerm rf) newCommitIndex in
    if matched then
      do! modify (set_commitIndex newCommitIndex);
      emit SignalApply
    else ret tt
  else ret tt.

(** [for i := PrevLogIndex; i >= firstIndex; i--], looking for an entry of the
    conflicting term. *)
Fixpoint findTerm (fuel : nat) (ls : list (Entry C)) (firstIndex term i : Z) : option (option Z) :=
  match fuel with
  | O => Some None
  | S fuel =>
      if decide (i >= firstIndex) then
        match slice_get ls (i - firstIndex) with
        | Some e => if decide (e_Term e = term) then Some (Some i)
                    else findTerm fuel ls firstIndex term (i - 1)
        | None => None
        end
      else Some None
  end.

(** [rf.nextIndex[peer] = n]. *)
Definition setNextIndex (peer n : Z) : M Raft unit :=
  let! rf := get in
  let! ns := lift (slice_set (nextIndex rf) peer n) in
  modify (set_nextIndex ns).

Definition handleAppendEntriesResponse (peer : Z) (request : AppendEntriesRequest C)
  (response : AppendEntriesResponse) : M Raft unit :=
  let! rf := get in
  if bool_decide (state rf = StateLeader) && bool_decide (currentTerm rf = ae_Term request) then
    if aer_Success response then
      let m := ae_PrevLogIndex request + len (ae_Entries request) in
      do! setProgress peer m (m + 1);
      advanceCommitIndexForLeader
    else if decide (aer_Term response > currentTerm rf) then
      do! ChangeState StateFollower;
      do! adoptTerm (aer_Term response);
      persist
    else if decide (aer_Term response = currentTerm rf) then
      do! setNextIndex peer (aer_ConflictIndex response);
      if decide (aer_ConflictTerm response <> -1) then
        let! firstLog := getFirstLog in
        let firstIndex := e_Index firstLog in
        let i := ae_PrevLogIndex request in
        let! found := lift (findTerm (conflictFuel firstIndex i) (logs rf)
                              firstIndex (aer_ConflictTerm response) i) in
        match found with
        | Some i => setNextIndex peer (i + 1)
        | None => ret tt
        end
      else ret tt
    else ret tt
  else ret tt.

Definition handleInstallSnapshotResponse (peer : Z) (request : InstallSnapshotRequest)
  (response : InstallSnapshotResponse) : M Raft unit :=
  let! rf := get in
  if bool_decide (state rf = StateLeader) && bool_decide (currentTerm rf = is_Term request) then
    if decide (isr_Term response > currentTerm rf) then
      do! ChangeState StateFollower;
      resetElectionTimer
    else setProgress peer (is_LastIncludedIndex request) (is_LastIncludedIndex request + 1)
  else ret tt.

Definition needReplicating (peer : Z) : M Raft bool :=
  let! rf := get in
  if decide (state rf = StateLeader) then
    let! m := lift (slice_get (matchIndex rf) peer) in
    let! lastLog := getLastLog in
    ret (bool_decide (m < e_Index lastLog))
  else ret false.

(** One turn of the loop of [replicator]: it waits on its condition variable, or it is going
    to run a round, for which it needs the mutex again. *)
Definition replicator_check (peer : Z) : M Raft bool :=
  let! need := needReplicating peer in
  do! (if need : bool then emit (GoReplicateOneRound peer) else ret tt);
  ret need.

(** The first of the rounds for [peer] that are waiting to run. *)
Fixpoint remove_round (peer : Z) (actions : list Action) : list Action :=
  match actions with
  | [] => []
  | GoReplicateOneRound p :: actions =>
      if decide (p = peer) then actions else GoReplicateOneRound p :: remove_round peer actions
  | a :: actions => a :: remove_round peer actions
  end.

(** A round that was waiting runs. *)
Definition goReplicateOneRound (peer : Z) : M Raft Replication :=
  do! modify (fun rf => set_out (remove_round peer (out rf)) rf);
  replicateOneRound peer.

(** ** Client commands *)

Definition appendNewEntry (command : C) : M Raft (Entry C) :=
  let! lastLog := getLastLog in
  let! rf := get in
  let newLog := mkEntry C (e_Index lastLog + 1) (currentTerm rf) (Some command) in
  do! modify (set_logs (logs rf ++ [newLog]));
  do! setProgress (me rf) (e_Index newLog) (e_Index newLog + 1);
  do! persist;
  ret newLog.

Definition Start (command : C) : M Raft (Z * Z * bool) :=
  let! rf := get in
  if decide (state rf <> StateLeader) then ret (-1, -1, false) else
  let! newLog := appendNewEntry command in
  do! BroadcastHeartbeat false;
  ret (e_Index newLog, e_Term newLog, true).

(** ** Applying committed entries *)

(** The first critical section of [applier]: [None] while there is nothing to
    apply (the goroutine waits on [applyCond]), else the entries to send on
    [applyCh] and the commit index read. *)
Definition applier_take : M Raft (option (list (Entry C) * Z)) :=
  let! rf := get in
  if decide (lastApplied rf >= commitIndex rf) then ret None else
  let! firstLog := getFirstLog in
  let firstIndex := e_Index firstLog in
  let! part := lift (slice_range (logs rf) (lastApplied rf + 1 - firstIndex)
                       (commitIndex rf + 1 - firstIndex)) in
  let entries := copy_into (replicate (Z.to_nat (commitIndex rf - lastApplied rf)) zeroEntry)
                   part in
  ret (Some (entries, commitIndex rf)).

(** The message sent for one entry. *)
Definition applyMsg (entry : Entry C) : ApplyMsg C :=
  mkApplyMsg C true (e_Command entry) (e_Term entry) (e_Index entry) false [] 0 0.

(** The second critical section. *)
Definition applier_done (commit : Z) : M Raft unit :=
  modify (fun rf => set_lastApplied (Max (lastApplied rf) commit) rf).

(** ** Life cycle *)

Definition Kill : M Raft unit := modify (set_dead true).
Definition killed (rf : Raft) : bool := dead rf.

Definition Make (npeers : nat) (me : Z) (ps : Persister) : option Raft :=
  let rf := mkRaft npeers ps me false StateFollower 0 (-1) [zeroEntry] 0 0
              (replicate npeers 0) (replicate npeers 0)
              (Armed (RandomizedElectionTimeout 0)) (Armed StableHeartbeatTimeout) 1 [] in
  snd <$> (do! readPersist (ReadRaftState ps);
           let! lastLog := getLastLog in
           do! forM (seq 0 npeers) (fun i =>
                 do! setProgress (Z.of_nat i) 0 (e_Index lastLog + 1);
                 if decide (Z.of_nat i <> me) then emit (GoReplicator (Z.of_nat i)) else ret tt);
           do! emit GoTicker;
           emit GoApplier) rf.

End Raft.

Arguments Action : clear implicits.
Arguments Raft : clear implicits.
Arguments Replication : clear implicits.
