(* ===== verification/RaftLog.v ===== *)
(** * Logs of a Raft peer: positions, well-formedness, and the log operations

    A peer's [logs] slice starts with a dummy entry that carries the index and
    term of the last entry covered by its snapshot; entry [i] is at position
    [i - first_index]. This file has the vocabulary ([entry_at], [term_at],
    [wf_logs]) and the weakest preconditions of the accessors every handler
    uses. *)
From S2P Require Import Prelude Labgob Persister RaftTypes RaftNode.

Section log.
Context {C : Type}.
Implicit Types (ls : list (Entry C)) (e : Entry C).

Definition first_index ls : Z := match ls with e :: _ => e_Index e | [] => 0 end.
Definition last_index ls : Z := first_index ls + len ls - 1.
Definition entry_at ls (i : Z) : option (Entry C) := slice_get ls (i - first_index ls).
Definition term_at ls (i : Z) : option Z := e_Term <$> entry_at ls i.
Definition last_term ls : Z := match last ls with Some e => e_Term e | None => 0 end.

(** Indices go up by one from [i]. *)
Fixpoint consecutive (i : Z) ls : Prop :=
  match ls with
  | [] => True
  | e :: ls => e_Index e = i /\ consecutive (i + 1) ls
  end.

Definition wf_logs ls : Prop := ls <> [] /\ consecutive (first_index ls) ls.

Lemma consecutive_lookup i ls :
  consecutive i ls <-> (forall k e, ls !! k = Some e -> e_Index e = i + Z.of_nat k).
Proof.
  revert i. induction ls as [|e ls IH]; intros i; simpl; [done|].
  rewrite IH. split.
  - intros [<- Hc] [|k] e'; simpl; [intros [= <-]; lia|].
    intros Hk. rewrite (Hc k e' Hk). lia.
  - intros Hk. split; [rewrite (Hk 0%nat e eq_refl); lia|].
    intros k e' He. rewrite (Hk (S k) e' He). lia.
Qed.

Lemma consecutive_app i ls ls' :
  consecutive i (ls ++ ls') <-> consecutive i ls /\ consecutive (i + len ls) ls'.
Proof.
  revert i. induction ls as [|e ls IH]; intros i; simpl.
  - rewrite Z.add_0_r. tauto.
  - rewrite IH. replace (i + 1 + len ls) with (i + Z.of_nat (S (length ls))) by lia. tauto.
Qed.

Lemma entry_at_Some ls i e : entry_at ls i = Some e -> first_index ls <= i <= last_index ls.
Proof. unfold entry_at, last_index. intros He%slice_get_lt. lia. Qed.

Lemma entry_at_is_Some ls i :
  first_index ls <= i <= last_index ls -> exists e, entry_at ls i = Some e.
Proof. unfold entry_at, last_index. intros ?. apply slice_get_is_Some. lia. Qed.

Lemma entry_at_index ls i e : wf_logs ls -> entry_at ls i = Some e -> e_Index e = i.
Proof.
  intros [_ Hc] [Hi He]%slice_get_Some. rewrite consecutive_lookup in Hc.
  rewrite (Hc _ _ He). lia.
Qed.

Lemma entry_at_first ls : wf_logs ls -> exists e, ls !! 0%nat = Some e /\
  entry_at ls (first_index ls) = Some e /\ e_Index e = first_index ls.
Proof.
  intros [Hne _]. destruct ls as [|e ls]; [done|]. exists e. split_and!; [done| |done].
  unfold entry_at. by rewrite Z.sub_diag.
Qed.

Lemma entry_at_last ls : wf_logs ls -> exists e, last ls = Some e /\
  entry_at ls (last_index ls) = Some e /\ e_Index e = last_index ls /\ e_Term e = last_term ls.
Proof.
  intros Hwf. destruct (entry_at_is_Some ls (last_index ls)) as [e He].
  { destruct Hwf as [Hne _]. unfold last_index. destruct ls; [done|simpl; lia]. }
  exists e. assert (last ls = Some e) as Hl.
  { rewrite last_lookup. unfold entry_at, last_index in He.
    apply slice_get_Some in He as [_ He]. rewrite <-He. f_equal. lia. }
  split_and!; [done|done|by eapply entry_at_index|]. unfold last_term. by rewrite Hl.
Qed.

Lemma wf_logs_len ls : wf_logs ls -> 1 <= len ls.
Proof. intros [Hne _]. destruct ls; [done|simpl; lia]. Qed.

Lemma wf_logs_first_last ls : wf_logs ls -> first_index ls <= last_index ls.
Proof. intros Hl%wf_logs_len. unfold last_index. lia. Qed.

Lemma first_index_app ls ls' : ls <> [] -> first_index (ls ++ ls') = first_index ls.
Proof. by destruct ls. Qed.

Lemma last_index_app ls ls' : ls <> [] -> last_index (ls ++ ls') = last_index ls + len ls'.
Proof.
  intros Hne. unfold last_index. rewrite first_index_app by done. rewrite length_app. lia.
Qed.

Lemma wf_logs_app ls ls' :
  wf_logs ls -> consecutive (last_index ls + 1) ls' -> wf_logs (ls ++ ls').
Proof.
  intros [Hne Hc] Hc'. split; [by destruct ls|]. rewrite first_index_app by done.
  rewrite consecutive_app. split; [done|]. unfold last_index in Hc'.
  by replace (first_index ls + len ls) with (first_index ls + len ls - 1 + 1) by lia.
Qed.

Lemma consecutive_take i n ls : consecutive i ls -> consecutive i (take n ls).
Proof.
  rewrite !consecutive_lookup. intros Hc k e [Hk _]%lookup_take_Some. eauto.
Qed.

Lemma consecutive_drop i n ls : consecutive i ls -> consecutive (i + Z.of_nat n) (drop n ls).
Proof.
  rewrite !consecutive_lookup. intros Hc k e. rewrite lookup_drop. intros Hk.
  rewrite (Hc _ _ Hk). lia.
Qed.

Lemma first_index_take n ls : (0 < n)%nat -> first_index (take n ls) = first_index ls.
Proof. destruct n; [lia|]. by destruct ls. Qed.

Lemma wf_logs_take n ls : (0 < n)%nat -> wf_logs ls -> wf_logs (take n ls).
Proof.
  intros Hn [Hne Hc]. split; [destruct n, ls; done || lia|].
  rewrite first_index_take by done. by apply consecutive_take.
Qed.

Lemma first_index_drop n ls :
  wf_logs ls -> (n < length ls)%nat -> first_index (drop n ls) = first_index ls + Z.of_nat n.
Proof.
  intros [_ Hc] Hn. apply consecutive_drop with (n := n) in Hc.
  destruct (drop n ls) as [|e l] eqn:E; [|by destruct Hc].
  apply (f_equal length) in E. rewrite length_drop in E. simpl in E. lia.
Qed.

Lemma wf_logs_drop n ls : (n < length ls)%nat -> wf_logs ls -> wf_logs (drop n ls).
Proof.
  intros Hn Hwf. split.
  - intros E. apply (f_equal length) in E. rewrite length_drop in E. simpl in E. lia.
  - rewrite first_index_drop by done. apply consecutive_drop, Hwf.
Qed.

Lemma entry_at_app_l ls ls' i :
  ls <> [] -> i <= last_index ls -> entry_at (ls ++ ls') i = entry_at ls i.
Proof.
  intros Hne Hi. unfold entry_at, last_index in *. rewrite first_index_app by done.
  apply slice_get_app_l. lia.
Qed.

Lemma entry_at_app_r ls ls' i :
  ls <> [] -> last_index ls < i ->
  entry_at (ls ++ ls') i = slice_get ls' (i - last_index ls - 1).
Proof.
  intros Hne Hi. unfold entry_at, last_index in *. rewrite first_index_app by done.
  rewrite slice_get_app_r by lia. f_equal. lia.
Qed.

Lemma wf_zero : wf_logs [@zeroEntry C].
Proof. by repeat split. Qed.
End log.

#[export] Hint Resolve wf_zero wf_logs_first_last : raft.

(** ** Weakest preconditions of the accessors *)
Section accessors.
Context {C : Type}.
Implicit Types (rf : Raft C).

Lemma wp_getFirstLog rf (Q : Entry C -> Raft C -> Prop) :
  wf_logs (logs rf) ->
  (forall e, logs rf !! 0%nat = Some e -> e_Index e = first_index (logs rf) -> Q e rf) ->
  wp getFirstLog rf Q.
Proof.
  intros Hwf HQ. destruct (entry_at_first _ Hwf) as (e & H0 & _ & Hi).
  unfold getFirstLog. go. eapply wp_lift; [apply slice_get_Some; split; [lia|exact H0]|].
  by apply HQ.
Qed.

Lemma wp_getLastLog rf (Q : Entry C -> Raft C -> Prop) :
  wf_logs (logs rf) ->
  (forall e, last (logs rf) = Some e -> e_Index e = last_index (logs rf) ->
     e_Term e = last_term (logs rf) -> Q e rf) ->
  wp getLastLog rf Q.
Proof.
  intros Hwf HQ. destruct (entry_at_last _ Hwf) as (e & Hl & He & Hi & Ht).
  unfold getLastLog. go. eapply wp_lift; [|by apply HQ].
  rewrite <-He. unfold entry_at, last_index. f_equal. lia.
Qed.

(** [matchLog] tests the term of the entry at [index]; below the first entry the
    code would panic. *)
Lemma wp_matchLog rf term index (Q : bool -> Raft C -> Prop) :
  wf_logs (logs rf) -> first_index (logs rf) <= index ->
  Q (bool_decide (term_at (logs rf) index = Some term)) rf ->
  wp (matchLog term index) rf Q.
Proof.
  intros Hwf Hge HQ. unfold matchLog. go. apply wp_getLastLog; [done|]. intros l _ Hl _.
  destruct (decide (index <= e_Index l)) as [Hle|Hle]; go.
  - apply wp_getFirstLog; [done|]. intros f _ Hf. go.
    destruct (entry_at_is_Some (logs rf) index) as [e He]; [lia|].
    eapply wp_lift; [rewrite Hf; exact He|]. go.
    erewrite bool_decide_ext; [exact HQ|]. unfold term_at. rewrite He. naive_solver.
  - rewrite bool_decide_eq_false_2 in HQ; [done|].
    unfold term_at. destruct (entry_at _ index) eqn:E; [|done].
    apply entry_at_Some in E. lia.
Qed.

(** The candidate's log is at least as up to date as a peer's log. *)
Definition up_to_date (term index : Z) (ls : list (Entry C)) : Prop :=
  term > last_term ls \/ (term = last_term ls /\ index >= last_index ls).

#[export] Instance up_to_date_dec term index ls : Decision (up_to_date term index ls).
Proof. unfold up_to_date. apply _. Defined.

Lemma wp_isLogUpToDate rf term index (Q : bool -> Raft C -> Prop) :
  wf_logs (logs rf) -> Q (bool_decide (up_to_date term index (logs rf))) rf ->
  wp (isLogUpToDate term index) rf Q.
Proof.
  intros Hwf HQ. unfold isLogUpToDate. go. apply wp_getLastLog; [done|].
  intros e _ Hi Ht. go. rewrite Hi, Ht.
  rewrite <-bool_decide_and, <-bool_decide_or. exact HQ.
Qed.
End accessors.
