(* ===== verification/RaftSpec.v ===== *)
(** * What each method of a Raft peer does, from a well-formed state

    [wf] is the well-formedness invariant of a peer. The lemmas of this file give
    the weakest precondition of the building blocks ([ChangeState],
    [BroadcastHeartbeat], [persist], ...) with explicit result states, and then
    the full behaviour of [RequestVote], branch by branch. *)
From Stdlib Require Import Strings.Byte.
From S2P Require Import Prelude Labgob Persister RaftTypes RaftNode RaftLog.

Section spec.
Context {C : Type} `{Gob Z} `{Gob (list (Entry C))} `{Rand} `{Alloc}.
Implicit Types (rf : Raft C) (ls : list (Entry C)).

(** The other peers, in the order of [range rf.peers]. *)
Definition other_peers rf : list Z :=
  filter (fun p => p <> me rf) (Z.of_nat <$> seq 0 (peers rf)).

(** [ChangeState(StateFollower)]. *)
Definition followed rf : Raft C :=
  if decide (state rf = StateFollower) then rf else
  set_draws (S (draws rf)) (set_electionTimer (Timer_Reset (RandomizedElectionTimeout (draws rf)) (electionTimer rf))
    (set_heartbeatTimer (Timer_Stop (heartbeatTimer rf)) (set_state StateFollower rf))).

(** [electionTimer.Reset(RandomizedElectionTimeout())]. *)
Definition timer_reset rf : Raft C :=
  set_draws (S (draws rf))
    (set_electionTimer (Timer_Reset (RandomizedElectionTimeout (draws rf)) (electionTimer rf)) rf).

(** [ChangeState(StateLeader)] of a peer that is not the leader. *)
Definition elected rf : Raft C :=
  set_heartbeatTimer (Timer_Reset StableHeartbeatTimeout (heartbeatTimer rf)) (set_electionTimer (Timer_Stop (electionTimer rf))
    (set_nextIndex (replicate (peers rf) (last_index (logs rf) + 1))
      (set_matchIndex (replicate (peers rf) 0) (set_state StateLeader rf)))).

Definition saved rf : Raft C :=
  set_persister (SaveRaftState (encodeState rf) (persister rf)) rf.

Lemma wp_followed rf (Q : unit -> Raft C -> Prop) :
  Q tt (followed rf) -> wp (ChangeState StateFollower) rf Q.
Proof.
  intros HQ. unfold ChangeState, followed in *. go. by destruct (decide _); go.
Qed.

Lemma wp_resetElectionTimer rf (Q : unit -> Raft C -> Prop) :
  Q tt (timer_reset rf) -> wp resetElectionTimer rf Q.
Proof. done. Qed.

Lemma wp_persist rf (Q : unit -> Raft C -> Prop) : Q tt (saved rf) -> wp persist rf Q.
Proof. done. Qed.

Lemma wp_setProgress rf i m n (Q : unit -> Raft C -> Prop) :
  0 <= i < len (matchIndex rf) -> 0 <= i < len (nextIndex rf) ->
  Q tt (set_nextIndex (<[Z.to_nat i := n]> (nextIndex rf))
          (set_matchIndex (<[Z.to_nat i := m]> (matchIndex rf)) rf)) ->
  wp (setProgress i m n) rf Q.
Proof.
  intros Hm Hn HQ. unfold setProgress. go. rewrite slice_set_Some by done. go.
  rewrite slice_set_Some by done. by go.
Qed.

(** The loop that resets the replication progress of every peer. *)
Lemma wp_resetProgress rf m n :
  length (matchIndex rf) = peers rf -> length (nextIndex rf) = peers rf ->
  wp (forM (seq 0 (peers rf)) (fun i => setProgress (Z.of_nat i) m n)) rf
    (fun _ rf' => rf' = set_nextIndex (replicate (peers rf) n)
                          (set_matchIndex (replicate (peers rf) m) rf)).
Proof.
  intros Hm Hn.
  set (I := fun (pre : list nat) (s : Raft C) =>
    s = set_nextIndex (replicate (length pre) n ++ drop (length pre) (nextIndex rf))
          (set_matchIndex (replicate (length pre) m ++ drop (length pre) (matchIndex rf)) rf)).
  eapply (wp_mono _ _ (fun _ => I (seq 0 (peers rf)))).
  - apply (wp_forM _ _ I); [by destruct rf|].
    intros pre i s [post Hseq] ->.
    assert (i = length pre /\ (length pre < peers rf)%nat) as [-> Hlt].
    { assert (seq 0 (peers rf) !! length pre = Some i) as Hi%lookup_seq
        by (by rewrite Hseq, list_lookup_middle). lia. }
    apply wp_setProgress; cbn; rewrite ?length_app, ?length_replicate, ?length_drop; [lia|lia|].
    unfold I. rewrite length_app, Nat.add_1_r, Nat2Z.id. simpl.
    rewrite !insert_app_r_alt by (rewrite length_replicate; lia).
    rewrite !length_replicate, Nat.sub_diag.
    destruct (lookup_lt_is_Some_2 (nextIndex rf) (length pre)) as [a Ha]; [lia|].
    destruct (lookup_lt_is_Some_2 (matchIndex rf) (length pre)) as [b Hb]; [lia|].
    rewrite (drop_S _ _ _ Ha), (drop_S _ _ _ Hb). simpl.
    by rewrite !replicate_middle.
  - intros [] s ->. rewrite length_seq, !drop_ge by lia. by rewrite !app_nil_r.
Qed.

Lemma wp_elected rf (Q : unit -> Raft C -> Prop) :
  state rf <> StateLeader -> wf_logs (logs rf) ->
  length (matchIndex rf) = peers rf -> length (nextIndex rf) = peers rf ->
  Q tt (elected rf) -> wp (ChangeState StateLeader) rf Q.
Proof.
  intros Hs Hl Hm Hn HQ. unfold ChangeState. go. go_case; [done|]. go.
  apply wp_getLastLog; [done|]. intros e _ He _. go.
  eapply wp_mono; [apply (wp_resetProgress (set_state StateLeader rf)); done|].
  intros [] s ->. cbn in He. rewrite He. go. exact HQ.
Qed.

(** The two broadcast loops: one action per other peer. *)
Lemma wp_forM_others rf (f : Z -> Action C) (Q : unit -> Raft C -> Prop) :
  Q tt (set_out (out rf ++ (f <$> other_peers rf)) rf) ->
  wp (forM (seq 0 (peers rf)) (fun peer =>
        if decide (Z.of_nat peer = me rf) then ret tt else emit (f (Z.of_nat peer)))) rf Q.
Proof.
  intros HQ. unfold other_peers in HQ.
  set (P := fun p : Z => p <> me rf) in HQ.
  set (I := fun (pre : list nat) (s : Raft C) =>
    s = set_out (out rf ++ (f <$> filter P (Z.of_nat <$> pre))) rf).
  eapply (wp_mono _ _ (fun _ => I (seq 0 (peers rf)))).
  - apply (wp_forM _ _ I); [unfold I; simpl; rewrite app_nil_r; by destruct rf|].
    intros pre i s _ ->. unfold I.
    rewrite fmap_app, filter_app, fmap_app. simpl.
    rewrite filter_cons, filter_nil.
    destruct (decide (Z.of_nat i = me rf)) as [Hi|Hi].
    + rewrite decide_False by (unfold P; tauto). go. by rewrite app_nil_r.
    + rewrite decide_True by done. unfold emit. go. cbn. by rewrite app_assoc.
  - intros [] s ->. exact HQ.
Qed.

Lemma wp_BroadcastHeartbeat b rf (Q : unit -> Raft C -> Prop) :
  Q tt (set_out (out rf ++ ((if b : bool then GoReplicateOneRound else SignalReplicator)
                            <$> other_peers rf)) rf) ->
  wp (BroadcastHeartbeat b) rf Q.
Proof.
  intros HQ. unfold BroadcastHeartbeat. go.
  destruct b; by apply wp_forM_others.
Qed.

(** ** RequestVote *)

(** The request is stale, or the peer has voted for someone else in its term. *)
Definition vote_refused (request : RequestVoteRequest) rf : Prop :=
  rv_Term request < currentTerm rf \/
  (rv_Term request = currentTerm rf /\ votedFor rf <> -1 /\ votedFor rf <> rv_CandidateId request).

(** The state in which a request of term [term] is considered: a newer term makes
    the peer a follower that has not voted. *)
Definition at_term (term : Z) rf : Raft C :=
  if decide (term > currentTerm rf) then set_votedFor (-1) (set_currentTerm term (followed rf))
  else rf.

Lemma wp_RequestVote request rf (Q : RequestVoteResponse -> Raft C -> Prop) :
  wf_logs (logs rf) ->
  (vote_refused request rf -> Q (mkRequestVoteResponse (currentTerm rf) false) (saved rf)) ->
  (~ vote_refused request rf -> currentTerm rf <= rv_Term request ->
   ~ up_to_date (rv_LastLogTerm request) (rv_LastLogIndex request) (logs rf) ->
   Q (mkRequestVoteResponse (rv_Term request) false) (saved (at_term (rv_Term request) rf))) ->
  (~ vote_refused request rf -> currentTerm rf <= rv_Term request ->
   up_to_date (rv_LastLogTerm request) (rv_LastLogIndex request) (logs rf) ->
   Q (mkRequestVoteResponse (rv_Term request) true)
     (saved (timer_reset (set_votedFor (rv_CandidateId request)
        (at_term (rv_Term request) rf))))) ->
  wp (RequestVote request) rf Q.
Proof.
  intros Hl Href Hno Hyes. unfold RequestVote. go. apply wp_getFirstLog; [done|]. intros _ _ _.
  go. apply wp_getLastLog; [done|]. intros _ _ _ _. go. unfold RequestVote_body. go.
  rewrite <-!bool_decide_and, <-bool_decide_or.
  destruct (bool_decide _) eqn:Hd; go.
  { apply wp_persist. go. apply Href. apply bool_decide_eq_true in Hd.
    unfold vote_refused. naive_solver. }
  apply bool_decide_eq_false in Hd.
  assert (~ vote_refused request rf) as Hnr by (unfold vote_refused; naive_solver).
  assert (currentTerm rf <= rv_Term request) as Hle by lia.
  specialize (Hno Hnr Hle). specialize (Hyes Hnr Hle).
  assert (Hat : logs (at_term (rv_Term request) rf) = logs rf /\
                currentTerm (at_term (rv_Term request) rf) = rv_Term request).
  { unfold at_term, followed. repeat case_decide; cbn; split; done || lia. }
  destruct Hat as [Hlog Hterm].
  eapply (wp_mono _ _ (fun _ s => s = at_term (rv_Term request) rf)).
  { unfold at_term. destruct (decide _); go; [|done]. apply wp_followed. done. }
  intros [] s ->. go. apply wp_isLogUpToDate; [by rewrite Hlog|]. rewrite Hlog.
  destruct (bool_decide (up_to_date _ _ _)) eqn:Hu; cbn [negb]; go.
  - apply bool_decide_eq_true in Hu. apply wp_resetElectionTimer. go. apply wp_persist. go.
    cbn. rewrite Hterm. by apply Hyes.
  - apply bool_decide_eq_false in Hu. apply wp_persist. go. rewrite Hterm. by apply Hno.
Qed.

(** ** The loops of AppendEntries *)

(** Reference for the merge loop: [suf] is the peer's log after the matching
    entry. Entries present with the same term are kept; from the first missing or
    conflicting entry on, the request's entries take over. *)
Fixpoint merge_ref (suf entries : list (Entry C)) {struct entries} : list (Entry C) :=
  match entries, suf with
  | [], _ => suf
  | _ :: _, [] => entries
  | e :: entries', l :: suf' =>
      if decide (e_Term l = e_Term e) then l :: merge_ref suf' entries' else entries
  end.

Lemma wp_mergeEntries rf entries pre suf (Q : unit -> Raft C -> Prop) :
  logs rf = pre ++ suf -> pre <> [] ->
  consecutive (first_index (logs rf) + len pre) entries ->
  Q tt (set_logs (pre ++ merge_ref suf entries) rf) ->
  wp (mergeEntries (first_index (logs rf)) entries) rf Q.
Proof.
  remember (first_index (logs rf)) as first eqn:Hf. clear Hf.
  revert pre suf. induction entries as [|e entries IH]; intros pre suf Hls Hne Hc HQ; simpl.
  - go. simpl in HQ. rewrite <-Hls in HQ. by destruct rf.
  - destruct Hc as [Hi Hc]. go. rewrite Hi.
    replace (first + len pre - first) with (len pre) by lia.
    rewrite Hls. destruct suf as [|l suf].
    + rewrite app_nil_r, decide_True by lia. go. rewrite slice_to_Some by lia. go.
      rewrite shrinkEntriesArray_id, Nat2Z.id, firstn_all. exact HQ.
    + rewrite decide_False by (rewrite length_app; simpl; lia). go.
      eapply (wp_lift _ _ _ l).
      { apply slice_get_Some. split; [lia|]. by rewrite Nat2Z.id, list_lookup_middle. }
      go. simpl in HQ. case_bool_decide as Hd.
      * rewrite decide_False in HQ by done. rewrite slice_to_Some by (rewrite length_app; lia). go.
        rewrite shrinkEntriesArray_id, Nat2Z.id, take_app_length. exact HQ.
      * rewrite decide_True in HQ by (destruct (decide (e_Term l = e_Term e)); tauto).
        apply (IH (pre ++ [l]) suf).
        -- by rewrite <-app_assoc.
        -- by destruct pre.
        -- rewrite length_app. simpl.
           by replace (first + Z.of_nat (length pre + 1)) with (first + len pre + 1) by lia.
        -- by rewrite <-app_assoc.
Qed.

(** The backwards scan stops at the last index whose term differs from [term],
    or just before the first entry. *)
Lemma conflictScan_spec (ls : list (Entry C)) term index :
  index <= last_index ls -> first_index ls <= index + 1 ->
  exists r, conflictScan (conflictFuel (first_index ls) index) ls (first_index ls) term index = Some r /\
    first_index ls - 1 <= r <= index /\
    (forall j, r < j <= index -> term_at ls j = Some term) /\
    (first_index ls <= r -> term_at ls r <> Some term).
Proof.
  unfold conflictFuel.
  remember (Z.to_nat (index - first_index ls + 1)) as fuel eqn:Hfuel.
  revert index Hfuel. induction fuel as [|fuel IH]; intros index Hfuel Hlast Hfirst; simpl.
  - exists index. split_and!; [done|lia|lia|intros; lia|intros; lia].
  - rewrite decide_True by lia.
    destruct (entry_at_is_Some ls index) as [e He]; [lia|].
    pose proof He as He'. unfold entry_at in He'. rewrite He'.
    assert (term_at ls index = Some (e_Term e)) as Ht by (unfold term_at; by rewrite He).
    case_decide as Hterm.
    + destruct (IH (index - 1)) as (r & Hr & Hb & Hall & Hend); [lia|lia|lia|].
      exists r. split_and!; [done|lia|lia| |done].
      intros j Hj. destruct (decide (j = index)) as [->|]; [congruence|]. apply Hall. lia.
    + exists index. split_and!; [done|lia|lia|intros; lia|]. rewrite Ht. congruence.
Qed.

(** The leader's search for its last entry of the conflicting term. *)
Lemma findTerm_spec (ls : list (Entry C)) term i :
  i <= last_index ls ->
  exists r, findTerm (conflictFuel (first_index ls) i) ls (first_index ls) term i = Some r /\
    match r with
    | Some k => first_index ls <= k <= i /\ term_at ls k = Some term /\
                (forall j, k < j <= i -> term_at ls j <> Some term)
    | None => forall j, first_index ls <= j <= i -> term_at ls j <> Some term
    end.
Proof.
  unfold conflictFuel.
  remember (Z.to_nat (i - first_index ls + 1)) as fuel eqn:Hfuel.
  revert i Hfuel. induction fuel as [|fuel IH]; intros i Hfuel Hlast; simpl.
  - exists None. split; [done|]. intros; lia.
  - rewrite decide_True by lia.
    destruct (entry_at_is_Some ls i) as [e He]; [lia|].
    pose proof He as He'. unfold entry_at in He'. rewrite He'.
    assert (term_at ls i = Some (e_Term e)) as Ht by (unfold term_at; by rewrite He).
    case_decide as Hterm.
    + exists (Some i). split_and!; [done|lia|lia|congruence|intros; lia].
    + destruct (IH (i - 1)) as (r & Hr & Hspec); [lia|lia|].
      exists r. split; [done|]. destruct r as [k|].
      * destruct Hspec as (Hk & Htk & Hall). split_and!; [lia|lia|done|].
        intros j Hj. destruct (decide (j = i)) as [->|]; [congruence|]. apply Hall. lia.
      * intros j Hj. destruct (decide (j = i)) as [->|]; [congruence|]. apply Hspec. lia.
Qed.
End spec.
