(* ===== verification/RaftReplication.v ===== *)
(** * Log replication: AppendEntries, the commit index, requests and responses

    Weakest preconditions of the replication methods, with the loops replaced by
    their specifications. *)
From Stdlib Require Import Strings.Byte.
From S2P Require Import Prelude Labgob Persister RaftTypes RaftNode RaftLog RaftSpec.

Section replication.
Context {C : Type} `{Gob Z} `{Gob (list (Entry C))} `{Rand} `{Alloc}.
Implicit Types (rf : Raft C) (ls suf entries : list (Entry C)).

(** ** The merged log *)

(** The log after the entries of a request that matches at [prev]. *)
Definition merged ls (prev : Z) entries : list (Entry C) :=
  let n := Z.to_nat (prev + 1 - first_index ls) in
  take n ls ++ merge_ref (drop n ls) entries.

Lemma merge_ref_consecutive i suf entries :
  consecutive i suf -> consecutive i entries -> consecutive i (merge_ref suf entries).
Proof.
  revert i suf. induction entries as [|e entries IH]; intros i suf Hs He; simpl; [done|].
  destruct suf as [|l suf]; [done|]. case_decide; [|done].
  destruct Hs as [? ?], He as [? ?]. split; auto.
Qed.

Lemma merge_ref_term suf entries k e :
  entries !! k = Some e -> e_Term <$> merge_ref suf entries !! k = Some (e_Term e).
Proof.
  revert suf k. induction entries as [|e' entries IH]; intros suf k; [done|].
  simpl. destruct suf as [|l suf]; [by intros ->|].
  case_decide as Ht; [|by intros ->].
  destruct k as [|k]; simpl; [by intros [= <-]; rewrite Ht|]. apply IH.
Qed.

Lemma merge_ref_length suf entries : (length entries <= length (merge_ref suf entries))%nat.
Proof.
  revert suf. induction entries as [|e entries IH]; intros suf; simpl; [lia|].
  destruct suf as [|l suf]; [done|]. case_decide; simpl; [|done].
  specialize (IH suf). lia.
Qed.

(** Entries are dropped only from the first conflict on. *)
Lemma merge_ref_keeps n suf entries :
  (forall k l e, (k < n)%nat -> suf !! k = Some l -> entries !! k = Some e ->
     e_Term l = e_Term e) ->
  take n suf `prefix_of` merge_ref suf entries.
Proof.
  revert n suf. induction entries as [|e entries IH]; intros n suf Hk; simpl.
  { exists (drop n suf). by rewrite take_drop. }
  destruct suf as [|l suf]; [rewrite take_nil; apply prefix_nil|].
  destruct n as [|n]; [apply prefix_nil|].
  rewrite decide_True by (apply (Hk 0%nat); done || lia).
  apply prefix_cons, IH. intros k x y Hn. apply (Hk (S k)). lia.
Qed.

(** Every position holds the old entry or the request's entry. *)
Lemma merge_ref_source suf entries k x :
  merge_ref suf entries !! k = Some x -> suf !! k = Some x \/ entries !! k = Some x.
Proof.
  revert suf k. induction entries as [|e entries IH]; intros suf k; simpl; [auto|].
  destruct suf as [|l suf]; [auto|]. case_decide; [|auto].
  destruct k as [|k]; simpl; [auto|]. apply IH.
Qed.

(** The first [k] entries of the request are in [suf], with their terms. *)
Definition matches (k : nat) suf entries : Prop :=
  forall j x, (j < k)%nat -> entries !! j = Some x -> e_Term <$> suf !! j = Some (e_Term x).

Lemma matches_cons k l suf e entries : matches (S k) (l :: suf) (e :: entries) ->
  e_Term l = e_Term e /\ matches k suf entries.
Proof.
  intros Hm. split; [by specialize (Hm 0%nat e ltac:(lia) eq_refl) as [= ?]|].
  intros j x Hj. apply (Hm (S j)). lia.
Qed.

(** A request that brings nothing new changes nothing. *)
Lemma merge_ref_present suf entries : matches (length entries) suf entries -> merge_ref suf entries = suf.
Proof.
  revert suf. induction entries as [|e entries IH]; intros suf Hm; simpl; [done|].
  destruct suf as [|l suf]; [by specialize (Hm 0%nat e (Nat.lt_0_succ _) eq_refl)|].
  apply matches_cons in Hm as [Ht Hm]. rewrite decide_True by done. by rewrite IH.
Qed.

(** From the first entry that is missing or of another term on, the request's entries
    replace the rest. *)
Lemma merge_ref_conflict k suf entries e : matches k suf entries -> entries !! k = Some e ->
  e_Term <$> suf !! k <> Some (e_Term e) -> merge_ref suf entries = take k suf ++ drop k entries.
Proof.
  revert k suf. induction entries as [|x entries IH]; intros k suf Hm He Hne; [done|].
  destruct k as [|k].
  - injection He as ->. destruct suf as [|l suf]; simpl; [done|]. rewrite decide_False; [done|].
    intros E. apply Hne. cbn. by rewrite E.
  - destruct suf as [|l suf]; [by specialize (Hm 0%nat x (Nat.lt_0_succ _) eq_refl)|].
    apply matches_cons in Hm as [Ht Hm]. simpl. rewrite decide_True by done. f_equal. by apply IH.
Qed.

Section merged.
Context ls prev entries (Hwf : wf_logs ls)
  (Hprev : first_index ls <= prev <= last_index ls)
  (Hent : consecutive (prev + 1) entries).

Let n := Z.to_nat (prev + 1 - first_index ls).
Let Hn : (0 < n)%nat /\ (n <= length ls)%nat /\ Z.of_nat n = prev + 1 - first_index ls.
Proof. unfold n, last_index in *. lia. Qed.

Lemma merged_take_len : length (take n ls) = n.
Proof. rewrite length_take. lia. Qed.

Lemma merged_first : first_index (merged ls prev entries) = first_index ls.
Proof.
  unfold merged. rewrite first_index_app; [apply first_index_take; fold n; lia|].
  fold n. intros E. apply (f_equal length) in E. rewrite merged_take_len in E. simpl in E. lia.
Qed.

Lemma merged_last_take : last_index (take n ls) = prev.
Proof. unfold last_index. rewrite first_index_take by lia. rewrite merged_take_len. lia. Qed.

Lemma merged_wf : wf_logs (merged ls prev entries).
Proof.
  unfold merged. fold n. apply wf_logs_app.
  - apply wf_logs_take; [lia|done].
  - rewrite merged_last_take. apply merge_ref_consecutive; [|done].
    replace (prev + 1) with (first_index ls + Z.of_nat n) by lia.
    apply consecutive_drop, Hwf.
Qed.

Lemma merged_nonempty : take n ls <> [].
Proof. intros E. apply (f_equal length) in E. rewrite merged_take_len in E. simpl in E. lia. Qed.

(** Up to [prev] nothing changes. *)
Lemma merged_below i : i <= prev -> entry_at (merged ls prev entries) i = entry_at ls i.
Proof.
  intros Hi. unfold merged. fold n.
  rewrite entry_at_app_l by (rewrite ?merged_last_take; auto using merged_nonempty).
  unfold entry_at. rewrite first_index_take by lia. apply slice_get_take. lia.
Qed.

Lemma merged_above i :
  prev < i -> entry_at (merged ls prev entries) i = merge_ref (drop n ls) entries !! Z.to_nat (i - prev - 1).
Proof.
  intros Hi. unfold merged. fold n.
  rewrite entry_at_app_r by (rewrite ?merged_last_take; auto using merged_nonempty).
  rewrite merged_last_take. unfold slice_get. by rewrite decide_True by lia.
Qed.

Lemma old_above i :
  prev < i -> entry_at ls i = drop n ls !! Z.to_nat (i - prev - 1).
Proof.
  intros Hi. unfold entry_at, slice_get. rewrite decide_True by lia.
  rewrite lookup_drop. f_equal. lia.
Qed.

Lemma old_term k : term_at ls (prev + 1 + Z.of_nat k) = e_Term <$> drop n ls !! k.
Proof. unfold term_at. rewrite old_above by lia. by replace (Z.to_nat _) with k by lia. Qed.

Lemma old_matches k : (forall j x, (j < k)%nat -> entries !! j = Some x ->
  term_at ls (prev + 1 + Z.of_nat j) = Some (e_Term x)) -> matches k (drop n ls) entries.
Proof. intros Hm j x Hj Hx. rewrite <-old_term. by apply Hm. Qed.

Lemma merged_present : (forall j x, entries !! j = Some x ->
  term_at ls (prev + 1 + Z.of_nat j) = Some (e_Term x)) -> merged ls prev entries = ls.
Proof.
  intros Hm. unfold merged. fold n. rewrite merge_ref_present by (apply old_matches; auto). apply take_drop.
Qed.

Lemma merged_conflict k e : entries !! k = Some e ->
  (forall j x, (j < k)%nat -> entries !! j = Some x -> term_at ls (prev + 1 + Z.of_nat j) = Some (e_Term x)) ->
  term_at ls (prev + 1 + Z.of_nat k) <> Some (e_Term e) ->
  merged ls prev entries = take (n + k) ls ++ drop k entries.
Proof.
  intros He Hm Hne. rewrite old_term in Hne. unfold merged. fold n.
  rewrite (merge_ref_conflict k _ _ e); [|by apply old_matches|done|done].
  rewrite app_assoc. f_equal. rewrite take_take_drop. done.
Qed.

(** The request's entries are in the log, with their terms. *)
Lemma merged_entries k e :
  entries !! k = Some e -> term_at (merged ls prev entries) (prev + 1 + Z.of_nat k) = Some (e_Term e).
Proof.
  intros Hk. unfold term_at. rewrite merged_above by lia.
  replace (Z.to_nat _) with k by lia. by apply merge_ref_term.
Qed.

Lemma merged_last : prev + len entries <= last_index (merged ls prev entries).
Proof.
  unfold merged. fold n. rewrite last_index_app by apply merged_nonempty.
  rewrite merged_last_take. pose proof (merge_ref_length (drop n ls) entries). lia.
Qed.

(** Where the log agrees with the request up to [c], its entries up to [c] stay:
    a delayed request never erases what a later one added. *)
Lemma merged_keeps c i e :
  (forall k l x, prev + 1 + Z.of_nat k <= c ->
     entry_at ls (prev + 1 + Z.of_nat k) = Some l -> entries !! k = Some x ->
     e_Term l = e_Term x) ->
  i <= c -> entry_at ls i = Some e -> entry_at (merged ls prev entries) i = Some e.
Proof.
  intros Hag Hic He. destruct (decide (i <= prev)) as [Hi|Hi]; [by rewrite merged_below|].
  rewrite merged_above by lia. rewrite old_above in He by lia.
  eapply (prefix_lookup_Some (take (Z.to_nat (c - prev)) (drop n ls))).
  - rewrite lookup_take_lt by lia. exact He.
  - apply merge_ref_keeps. intros k l x Hk Hl. apply Hag; [lia|]. rewrite old_above by lia.
    by replace (Z.to_nat (prev + 1 + Z.of_nat k - prev - 1)) with k by lia.
Qed.

Lemma merged_source i e :
  entry_at (merged ls prev entries) i = Some e ->
  entry_at ls i = Some e \/ (prev < i /\ entries !! Z.to_nat (i - prev - 1) = Some e).
Proof.
  destruct (decide (i <= prev)) as [Hi|Hi]; [rewrite merged_below by done; auto|].
  rewrite merged_above by lia. intros [?|?]%merge_ref_source; [|by auto with lia].
  left. by rewrite old_above by lia.
Qed.
End merged.

(** ** AppendEntries *)

(** [advanceCommitIndexForFollower]. *)
Definition commit_follower (leaderCommit : Z) rf : Raft C :=
  if decide (Z.min leaderCommit (last_index (logs rf)) > commitIndex rf) then
    set_out (out rf ++ [SignalApply])
      (set_commitIndex (Z.min leaderCommit (last_index (logs rf))) rf)
  else rf.

Lemma wp_commit_follower leaderCommit rf (Q : unit -> Raft C -> Prop) :
  wf_logs (logs rf) -> Q tt (commit_follower leaderCommit rf) ->
  wp (advanceCommitIndexForFollower leaderCommit) rf Q.
Proof.
  intros Hl HQ. unfold advanceCommitIndexForFollower. go. apply wp_getLastLog; [done|].
  intros e _ He _. go. rewrite He, Min_min. unfold commit_follower in HQ.
  by destruct (decide _); unfold emit; go.
Qed.

(** The state in which an acceptable AppendEntries of term [term] is processed. *)
Definition follow_leader (term : Z) rf : Raft C :=
  timer_reset (followed
    (if decide (term > currentTerm rf) then set_votedFor (-1) (set_currentTerm term rf) else rf)).

Lemma follow_leader_logs term rf : logs (follow_leader term rf) = logs rf.
Proof. unfold follow_leader, followed. by repeat case_decide. Qed.
Lemma follow_leader_term term rf :
  currentTerm rf <= term -> currentTerm (follow_leader term rf) = term.
Proof. intros. unfold follow_leader, followed. repeat case_decide; cbn; lia. Qed.

Lemma wp_AppendEntries request rf (Q : AppendEntriesResponse -> Raft C -> Prop) :
  let prev := ae_PrevLogIndex request in
  let rf1 := follow_leader (ae_Term request) rf in
  wf_logs (logs rf) -> consecutive (prev + 1) (ae_Entries request) ->
  (ae_Term request < currentTerm rf ->
   Q (mkAppendEntriesResponse (currentTerm rf) false 0 0) (saved rf)) ->
  (currentTerm rf <= ae_Term request -> prev < first_index (logs rf) ->
   Q (mkAppendEntriesResponse 0 false 0 0) (saved rf1)) ->
  (currentTerm rf <= ae_Term request -> last_index (logs rf) < prev ->
   first_index (logs rf) <= prev ->
   Q (mkAppendEntriesResponse (ae_Term request) false (last_index (logs rf) + 1) (-1)) (saved rf1)) ->
  (forall t r, currentTerm rf <= ae_Term request ->
   first_index (logs rf) <= prev <= last_index (logs rf) ->
   term_at (logs rf) prev = Some t -> t <> ae_PrevLogTerm request ->
   first_index (logs rf) - 1 <= r < prev ->
   (forall j, r < j <= prev -> term_at (logs rf) j = Some t) ->
   (first_index (logs rf) <= r -> term_at (logs rf) r <> Some t) ->
   Q (mkAppendEntriesResponse (ae_Term request) false r t) (saved rf1)) ->
  (currentTerm rf <= ae_Term request ->
   first_index (logs rf) <= prev <= last_index (logs rf) ->
   term_at (logs rf) prev = Some (ae_PrevLogTerm request) ->
   Q (mkAppendEntriesResponse (ae_Term request) true 0 0)
     (saved (commit_follower (ae_LeaderCommit request)
        (set_logs (merged (logs rf) prev (ae_Entries request)) rf1)))) ->
  wp (AppendEntries request) rf Q.
Proof.
  intros prev rf1 Hl Hent Hstale Hold Hshort Hconf Hok.
  unfold AppendEntries, AppendEntries_body. go.
  destruct (decide (ae_Term request < currentTerm rf)) as [Hlt|Hge]; go.
  { apply wp_persist. go. auto. }
  assert (currentTerm rf <= ae_Term request) as Hle by lia.
  eapply (wp_mono _ _ (fun _ s => s = if decide (ae_Term request > currentTerm rf)
     then set_votedFor (-1) (set_currentTerm (ae_Term request) rf) else rf)).
  { destruct (decide _); go; done. }
  intros [] s ->. go. apply wp_followed. go. apply wp_resetElectionTimer. go.
  fold (follow_leader (ae_Term request) rf). fold rf1.
  assert (Hl1 : logs rf1 = logs rf) by apply follow_leader_logs.
  assert (Ht1 : currentTerm rf1 = ae_Term request) by (by apply follow_leader_term).
  clearbody rf1.
  apply wp_getFirstLog; [by rewrite Hl1|]. intros f _ Hf. rewrite Hl1 in Hf. rewrite Hf.
  destruct (decide _) as [Hpf|Hpf]; go. { apply wp_persist. go. auto. }
  fold prev in Hpf |- *.
  apply wp_matchLog; [by rewrite Hl1|rewrite Hl1; lia|]. rewrite Hl1. go.
  destruct (bool_decide (term_at (logs rf) prev = _)) eqn:Hm; cbn [negb].
  - apply bool_decide_eq_true in Hm.
    assert (first_index (logs rf) <= prev <= last_index (logs rf)) as Hprev.
    { unfold term_at in Hm. destruct (entry_at (logs rf) prev) eqn:E; [|done].
      by apply entry_at_Some in E. }
    go. rewrite <-Hl1.
    pose proof Hprev as Hprev2. unfold last_index in Hprev2.
    apply (wp_mergeEntries rf1 _ (take (Z.to_nat (prev + 1 - first_index (logs rf1))) (logs rf1))
             (drop (Z.to_nat (prev + 1 - first_index (logs rf1))) (logs rf1))).
    + by rewrite take_drop.
    + rewrite Hl1. intros E. apply (f_equal length) in E. rewrite length_take in E.
      pose proof (wf_logs_len _ Hl). simpl in E. lia.
    + rewrite Hl1. rewrite length_take.
      replace (_ + Z.of_nat (_ `min` _)) with (prev + 1) by lia. done.
    + fold (merged (logs rf1) prev (ae_Entries request)). go. rewrite Hl1.
      apply wp_commit_follower; [by apply merged_wf|]. go. apply wp_persist. go.
      replace (currentTerm (commit_follower _ _)) with (ae_Term request); [by apply Hok|].
      unfold commit_follower. by case_decide.
  - apply bool_decide_eq_false in Hm. go. apply wp_getLastLog; [by rewrite Hl1|].
    intros e _ He _. rewrite Hl1 in He. rewrite He.
    destruct (decide (last_index (logs rf) < prev)) as [Hs|Hs]; go.
    { rewrite Ht1. apply wp_persist. go. apply Hshort; lia. }
    destruct (entry_at_is_Some (logs rf) prev) as [c Hc]; [lia|].
    rewrite Hl1. eapply wp_lift; [exact Hc|]. go.
    assert (term_at (logs rf) prev = Some (e_Term c)) as Htc by (unfold term_at; by rewrite Hc).
    destruct (conflictScan_spec (logs rf) (e_Term c) (prev - 1)) as (r & -> & Hr & Hall & Hend);
      [lia|lia|]. go. rewrite Ht1. apply wp_persist. go.
    apply Hconf; [lia|lia|done|congruence|lia| |done].
    intros j Hj. destruct (decide (j = prev)) as [->|]; [done|]. apply Hall. lia.
Qed.
End replication.
