(* ===== verification/RaftLeader.v ===== *)
(** * The leader's side: commit index, replication requests, responses, elections

    Weakest preconditions of the methods a leader or candidate runs, and of the
    snapshot and apply methods. *)
From Stdlib Require Import Strings.Byte.
From S2P Require Import Prelude Labgob Persister RaftTypes RaftNode RaftLog RaftSpec RaftReplication.

(** [v] is the largest value that more than half of [l] reach. *)
Definition majority (l : list Z) (v : Z) : Prop :=
  len l `quot` 2 < count_ge v l /\ forall w, v < w -> count_ge w l <= len l `quot` 2.

Lemma majority_unique l v w : majority l v -> majority l w -> v = w.
Proof.
  intros [Hv Hv'] [Hw Hw'].
  destruct (Z.lt_trichotomy v w) as [Hlt|[?|Hlt]]; [|done|].
  - specialize (Hv' w Hlt). lia.
  - specialize (Hw' v Hlt). lia.
Qed.

Lemma majority_sorted l srt v :
  Permutation srt l -> StronglySorted Z.le srt ->
  slice_get srt (len l - (len l `quot` 2 + 1)) = Some v -> majority l v.
Proof.
  intros Hp Hs Hv. destruct (sorted_count_ge _ _ _ Hs Hv) as [Hge Hlt].
  rewrite Hp in Hge. rewrite (Permutation_length Hp) in *.
  split; [lia|]. intros w Hw. specialize (Hlt w Hw). rewrite Hp in Hlt. lia.
Qed.

Section leader.
Context {C : Type} `{Gob Z} `{Gob (list (Entry C))} `{Rand} `{Alloc}.
Implicit Types (rf : Raft C).

(** ** advanceCommitIndexForLeader *)

Definition committed_to (v : Z) rf : Raft C :=
  set_out (out rf ++ [SignalApply]) (set_commitIndex v rf).

Lemma wp_commit_leader rf (Q : unit -> Raft C -> Prop) :
  wf_logs (logs rf) -> first_index (logs rf) <= commitIndex rf -> matchIndex rf <> [] ->
  (forall v, majority (matchIndex rf) v ->
     v <= commitIndex rf \/ term_at (logs rf) v <> Some (currentTerm rf) -> Q tt rf) ->
  (forall v, majority (matchIndex rf) v -> commitIndex rf < v ->
     term_at (logs rf) v = Some (currentTerm rf) -> Q tt (committed_to v rf)) ->
  wp advanceCommitIndexForLeader rf Q.
Proof.
  intros Hl Hc Hne Hno Hyes. unfold advanceCommitIndexForLeader. go.
  destruct (proj1 (wp_runs _ _ _) (insertionSort_spec (matchIndex rf)))
    as ([] & srt & Hrun & Hp & Hs).
  rewrite Hrun. cbn. go.
  assert (1 <= len (matchIndex rf)) as Hn by (destruct (matchIndex rf); [done|simpl; lia]).
  destruct (slice_get_is_Some srt (len (matchIndex rf) - (len (matchIndex rf) `quot` 2 + 1)))
    as [v Hv].
  { rewrite (Permutation_length Hp). pose proof (quot2_bounds (len (matchIndex rf))). lia. }
  eapply wp_lift; [exact Hv|].
  pose proof (majority_sorted _ _ _ Hp Hs Hv) as Hmaj.
  destruct (decide (v > commitIndex rf)) as [Hgt|Hle]; go; [|apply (Hno v); [done|lia]].
  apply wp_matchLog; [done|lia|]. case_bool_decide as Hm; unfold emit; go.
  - by apply Hyes; [| lia |].
  - apply (Hno v); auto.
Qed.

(** ** Requests *)

Lemma wp_genAppendEntriesRequest prev rf (Q : AppendEntriesRequest C -> Raft C -> Prop) :
  wf_logs (logs rf) -> first_index (logs rf) <= prev <= last_index (logs rf) ->
  (forall t, term_at (logs rf) prev = Some t ->
     Q (mkAppendEntriesRequest C (currentTerm rf) (me rf) prev t (commitIndex rf)
          (drop (Z.to_nat (prev + 1 - first_index (logs rf))) (logs rf))) rf) ->
  wp (genAppendEntriesRequest prev) rf Q.
Proof.
  intros Hl Hp HQ. unfold genAppendEntriesRequest. go. apply wp_getFirstLog; [done|].
  intros f _ Hf. go. rewrite Hf. rewrite slice_from_Some by (unfold last_index in Hp; lia). go.
  destruct (entry_at_is_Some _ _ Hp) as [e He]. eapply wp_lift; [exact He|]. go.
  rewrite copy_into_replicate. apply HQ. unfold term_at. by rewrite He.
Qed.

Lemma wp_genInstallSnapshotRequest rf (Q : InstallSnapshotRequest -> Raft C -> Prop) :
  wf_logs (logs rf) ->
  (forall t, term_at (logs rf) (first_index (logs rf)) = Some t ->
     Q (mkInstallSnapshotRequest (currentTerm rf) (me rf) (first_index (logs rf)) t
          (ReadSnapshot (persister rf))) rf) ->
  wp genInstallSnapshotRequest rf Q.
Proof.
  intros Hl HQ. unfold genInstallSnapshotRequest. go. apply wp_getFirstLog; [done|].
  intros f H0f Hf. go. rewrite Hf. apply HQ.
  destruct (entry_at_first _ Hl) as (e & He & Hat & _). unfold term_at. rewrite Hat. simpl.
  congruence.
Qed.

Lemma wp_replicateOneRound peer rf (Q : Replication C -> Raft C -> Prop) :
  wf_logs (logs rf) -> 0 <= peer < len (nextIndex rf) ->
  (state rf = StateLeader -> Forall (fun n => n <= last_index (logs rf) + 1) (nextIndex rf)) ->
  (state rf <> StateLeader -> Q NoRequest rf) ->
  (forall t, state rf = StateLeader -> term_at (logs rf) (first_index (logs rf)) = Some t ->
     Q (SendInstallSnapshot (mkInstallSnapshotRequest (currentTerm rf) (me rf)
          (first_index (logs rf)) t (ReadSnapshot (persister rf)))) rf) ->
  (forall prev t, state rf = StateLeader ->
     first_index (logs rf) <= prev <= last_index (logs rf) ->
     term_at (logs rf) prev = Some t ->
     Q (SendAppendEntries (mkAppendEntriesRequest C (currentTerm rf) (me rf) prev t
          (commitIndex rf) (drop (Z.to_nat (prev + 1 - first_index (logs rf))) (logs rf)))) rf) ->
  wp (replicateOneRound peer) rf Q.
Proof.
  intros Hl Hpeer Hnext Hno Hsnap Happ. unfold replicateOneRound. go.
  destruct (decide _) as [Hs|Hs]; go; [auto|].
  assert (state rf = StateLeader) as Hs' by (destruct (state rf); tauto || naive_solver).
  specialize (Hnext Hs').
  destruct (slice_get_is_Some _ _ Hpeer) as [nx Hnx]. eapply wp_lift; [exact Hnx|]. go.
  apply slice_get_Some in Hnx as [_ Hnx]. rewrite Forall_lookup in Hnext.
  specialize (Hnext _ _ Hnx).
  apply wp_getFirstLog; [done|]. intros f _ Hf. rewrite Hf.
  destruct (decide _) as [Hlt|Hge]; go.
  - apply wp_genInstallSnapshotRequest; [done|]. intros t Ht. go. auto.
  - apply wp_genAppendEntriesRequest; [done|lia|]. intros t Ht. go. apply Happ; [done|lia|done].
Qed.

(** ** Responses *)

Definition progress (peer m n : Z) rf : Raft C :=
  set_nextIndex (<[Z.to_nat peer := n]> (nextIndex rf))
    (set_matchIndex (<[Z.to_nat peer := m]> (matchIndex rf)) rf).

(** A response from a newer term: the peer becomes a follower of that term. *)
Definition stepped_down (term : Z) rf : Raft C :=
  saved (set_votedFor (-1) (set_currentTerm term (followed rf))).

Lemma wp_setNextIndex peer n rf (Q : unit -> Raft C -> Prop) :
  0 <= peer < len (nextIndex rf) ->
  Q tt (set_nextIndex (<[Z.to_nat peer := n]> (nextIndex rf)) rf) ->
  wp (setNextIndex peer n) rf Q.
Proof. intros Hp HQ. unfold setNextIndex. go. rewrite slice_set_Some by done. by go. Qed.

Lemma wp_handleAppendEntriesResponse peer request response rf (Q : unit -> Raft C -> Prop) :
  wf_logs (logs rf) -> first_index (logs rf) <= commitIndex rf ->
  0 <= peer < len (nextIndex rf) -> length (matchIndex rf) = length (nextIndex rf) ->
  (state rf = StateLeader -> currentTerm rf = ae_Term request ->
     ae_PrevLogIndex request <= last_index (logs rf)) ->
  let m := ae_PrevLogIndex request + len (ae_Entries request) in
  (state rf <> StateLeader \/ currentTerm rf <> ae_Term request -> Q tt rf) ->
  (state rf = StateLeader -> currentTerm rf = ae_Term request -> aer_Success response = true ->
     forall v, majority (<[Z.to_nat peer := m]> (matchIndex rf)) v ->
     let rf1 := progress peer m (m + 1) rf in
     (v <= commitIndex rf \/ term_at (logs rf) v <> Some (currentTerm rf) -> Q tt rf1) /\
     (commitIndex rf < v -> term_at (logs rf) v = Some (currentTerm rf) ->
        Q tt (committed_to v rf1))) ->
  (state rf = StateLeader -> currentTerm rf = ae_Term request -> aer_Success response = false ->
     aer_Term response > currentTerm rf -> Q tt (stepped_down (aer_Term response) rf)) ->
  (state rf = StateLeader -> currentTerm rf = ae_Term request -> aer_Success response = false ->
     aer_Term response < currentTerm rf -> Q tt rf) ->
  (forall n, state rf = StateLeader -> currentTerm rf = ae_Term request ->
     aer_Success response = false -> aer_Term response = currentTerm rf ->
     n <= Z.max (aer_ConflictIndex response) (ae_PrevLogIndex request + 1) ->
     Q tt (set_nextIndex (<[Z.to_nat peer := n]> (nextIndex rf)) rf)) ->
  wp (handleAppendEntriesResponse peer request response) rf Q.
Proof.
  intros Hl Hc Hpeer Hlen Hreq m Hskip Hok Hdown Hlow Hback.
  unfold handleAppendEntriesResponse. go.
  rewrite <-bool_decide_and. case_bool_decide as Hs; go; [|apply Hskip; destruct (decide (state rf = StateLeader)); tauto].
  destruct Hs as [Hs Ht]. specialize (Hreq Hs Ht).
  destruct (aer_Success response) eqn:Hsucc; go.
  - apply wp_setProgress; [lia|lia|]. fold m. fold (progress peer m (m + 1) rf).
    apply wp_commit_leader; [done|done| | |].
    + cbn. intros E. apply (f_equal length) in E. rewrite length_insert in E. simpl in E. lia.
    + intros v Hmaj Hv. by apply (Hok Hs Ht eq_refl v Hmaj).
    + intros v Hmaj Hlt Hv. by apply (Hok Hs Ht eq_refl v Hmaj).
  - destruct (decide (aer_Term response > currentTerm rf)) as [Hgt|Hle]; go.
    { apply wp_followed. unfold adoptTerm. go. apply wp_persist. auto. }
    destruct (decide (aer_Term response = currentTerm rf)) as [Heq|Hne]; go;
      [|apply Hlow; [done|done|done|lia]].
    apply wp_setNextIndex; [lia|].
    destruct (decide (aer_ConflictTerm response <> -1)) as [Hct|Hct]; go;
      [|apply Hback; [done|done|done|done|lia]].
    apply wp_getFirstLog; [done|]. intros f _ Hf. cbn in Hf. rewrite Hf. go.
    destruct (findTerm_spec (logs rf) (aer_ConflictTerm response) (ae_PrevLogIndex request))
      as (r & -> & Hr); [done|]. go. destruct r as [k|]; go.
    + apply wp_setNextIndex; [cbn; rewrite length_insert; lia|]. cbn.
      rewrite list_insert_insert_eq. apply Hback; [done|done|done|done|lia].
    + apply Hback; [done|done|done|done|lia].
Qed.

Lemma wp_handleInstallSnapshotResponse peer request response rf (Q : unit -> Raft C -> Prop) :
  0 <= peer < len (nextIndex rf) -> length (matchIndex rf) = length (nextIndex rf) ->
  (state rf <> StateLeader \/ currentTerm rf <> is_Term request -> Q tt rf) ->
  (state rf = StateLeader -> currentTerm rf = is_Term request ->
     isr_Term response > currentTerm rf -> Q tt (timer_reset (followed rf))) ->
  (state rf = StateLeader -> currentTerm rf = is_Term request ->
     isr_Term response <= currentTerm rf ->
     Q tt (progress peer (is_LastIncludedIndex request) (is_LastIncludedIndex request + 1) rf)) ->
  wp (handleInstallSnapshotResponse peer request response) rf Q.
Proof.
  intros Hpeer Hlen Hskip Hdown Hok. unfold handleInstallSnapshotResponse. go.
  rewrite <-bool_decide_and. case_bool_decide as Hs; go;
    [|apply Hskip; destruct (decide (state rf = StateLeader)); tauto].
  destruct Hs as [Hs Ht]. destruct (decide _) as [Hgt|Hle]; go.
  - apply wp_followed. go. apply wp_resetElectionTimer. auto.
  - apply wp_setProgress; [lia|lia|]. apply Hok; [done|done|lia].
Qed.

(** ** Elections *)

(** A tick of the election timer is received. *)
Definition tick_received rf : Raft C := set_electionTimer (Timer_receive (electionTimer rf)) rf.

(** The candidate after [ChangeState(StateCandidate)] and the new term. *)
Definition candidate rf : Raft C :=
  set_currentTerm (currentTerm rf + 1) (set_state StateCandidate (tick_received rf)).

Definition vote_request rf : RequestVoteRequest :=
  mkRequestVoteRequest (currentTerm rf) (me rf) (last_index (logs rf)) (last_term (logs rf)).

Lemma wp_ticker_election rf (Q : RequestVoteRequest -> Raft C -> Prop) :
  wf_logs (logs rf) ->
  (let rf1 := saved (set_votedFor (me rf) (candidate rf)) in
   let request := vote_request (candidate rf) in
   Q request (timer_reset (set_out (out rf ++
     ((fun p => GoSendRequestVote p request) <$> other_peers rf)) rf1))) ->
  wp ticker_election rf Q.
Proof.
  intros Hl HQ. unfold ticker_election. go.
  eapply (wp_mono _ _ (fun _ s => s = set_state StateCandidate (tick_received rf))).
  { unfold ChangeState. go. destruct (decide _) as [Hs|Hs]; go; [|done].
    destruct rf; cbn in *; by subst. }
  intros [] s ->. go. unfold StartElection, genRequestVoteRequest. go.
  apply wp_getLastLog; [done|]. intros e _ Hi Ht. go. rewrite Hi, Ht.
  apply wp_persist. go.
  apply (wp_forM_others (saved (set_votedFor (me rf) (candidate rf)))
           (fun p => GoSendRequestVote p (vote_request (candidate rf)))).
  go. apply wp_resetElectionTimer. go. exact HQ.
Qed.

Lemma wp_electionReply request response granted rf (Q : Z -> Raft C -> Prop) :
  wf_logs (logs rf) -> length (matchIndex rf) = peers rf -> length (nextIndex rf) = peers rf ->
  (currentTerm rf <> rv_Term request \/ state rf <> StateCandidate -> Q granted rf) ->
  (currentTerm rf = rv_Term request -> state rf = StateCandidate ->
     rvr_VoteGranted response = true -> granted + 1 <= Z.of_nat (peers rf) `quot` 2 ->
     Q (granted + 1) rf) ->
  (currentTerm rf = rv_Term request -> state rf = StateCandidate ->
     rvr_VoteGranted response = true -> Z.of_nat (peers rf) `quot` 2 < granted + 1 ->
     Q (granted + 1) (set_out (out rf ++ (GoReplicateOneRound <$> other_peers rf)) (elected rf))) ->
  (currentTerm rf = rv_Term request -> state rf = StateCandidate ->
     rvr_VoteGranted response = false -> currentTerm rf < rvr_Term response ->
     Q granted (stepped_down (rvr_Term response) rf)) ->
  (currentTerm rf = rv_Term request -> state rf = StateCandidate ->
     rvr_VoteGranted response = false -> rvr_Term response <= currentTerm rf ->
     Q granted rf) ->
  wp (electionReply request response granted) rf Q.
Proof.
  intros Hl Hm Hn Hskip Hcnt Hwin Hdown Hno. unfold electionReply. go.
  rewrite <-bool_decide_and. case_bool_decide as Hs; go;
    [|apply Hskip; destruct (decide (state rf = StateCandidate)); tauto].
  destruct Hs as [Ht Hs]. destruct (rvr_VoteGranted response) eqn:Hg.
  - destruct (decide _) as [Hgt|Hle]; go.
    + apply wp_elected; [by rewrite Hs|done|done|done|]. go.
      apply wp_BroadcastHeartbeat. go. apply Hwin; [done|done|done|lia].
    + apply Hcnt; [done|done|done|lia].
  - destruct (decide _) as [Hgt|Hle]; go.
    + apply wp_followed. unfold adoptTerm. go. apply wp_persist. go. apply Hdown; [done|done|done|lia].
    + apply Hno; [done|done|done|lia].
Qed.

(** ** Client commands *)

Definition appended (command : C) rf : Raft C :=
  let i := last_index (logs rf) + 1 in
  saved (progress (me rf) i (i + 1)
    (set_logs (logs rf ++ [mkEntry C i (currentTerm rf) (Some command)]) rf)).

Lemma wp_Start command rf (Q : Z * Z * bool -> Raft C -> Prop) :
  wf_logs (logs rf) -> 0 <= me rf < len (nextIndex rf) ->
  length (matchIndex rf) = length (nextIndex rf) ->
  (state rf <> StateLeader -> Q (-1, -1, false) rf) ->
  (state rf = StateLeader ->
     Q (last_index (logs rf) + 1, currentTerm rf, true)
       (set_out (out rf ++ (SignalReplicator <$> other_peers rf)) (appended command rf))) ->
  wp (Start command) rf Q.
Proof.
  intros Hl Hme Hlen Hno Hyes. unfold Start. go.
  destruct (decide _) as [Hs|Hs]; go; [auto|].
  unfold appendNewEntry. go. apply wp_getLastLog; [done|]. intros e _ Hi _. go. rewrite Hi.
  apply wp_setProgress; [cbn; lia|cbn; lia|]. go. apply wp_persist. go.
  apply wp_BroadcastHeartbeat. go. cbn. apply Hyes. destruct (state rf); tauto || naive_solver.
Qed.
End leader.
