(* ===== verification/RaftSnapshot.v ===== *)
(** * Snapshots, applying entries, and restart

    Weakest preconditions of [Snapshot], [CondInstallSnapshot],
    [InstallSnapshot], the two halves of [applier], and [Make]. *)
From Stdlib Require Import Strings.Byte.
From S2P Require Import Prelude Labgob Persister RaftTypes RaftNode RaftLog RaftSpec RaftReplication RaftLeader.

Section compact.
Context {C : Type}.
Implicit Types (ls : list (Entry C)).

(** The log with everything up to [i] replaced by a dummy entry of term [t]. *)
Definition compact ls (i t : Z) : list (Entry C) :=
  mkEntry C i t None :: drop (Z.to_nat (i + 1 - first_index ls)) ls.

Lemma compact_first ls i t : first_index (compact ls i t) = i.
Proof. done. Qed.

Lemma compact_wf ls i t : wf_logs ls -> first_index ls <= i -> wf_logs (compact ls i t).
Proof.
  intros [_ Hc] Hi. split; [done|]. simpl. split; [done|].
  replace (i + 1) with (first_index ls + Z.of_nat (Z.to_nat (i + 1 - first_index ls))) at 1 by lia.
  by apply consecutive_drop.
Qed.

Lemma compact_last ls i t :
  wf_logs ls -> first_index ls <= i -> last_index (compact ls i t) = Z.max i (last_index ls).
Proof.
  intros Hl%wf_logs_len Hi. unfold last_index. simpl. rewrite length_drop. lia.
Qed.

(** Entries above [i] are untouched. *)
Lemma compact_entry ls i t j :
  first_index ls <= i -> i < j -> entry_at (compact ls i t) j = entry_at ls j.
Proof.
  intros Hi Hj. unfold entry_at. simpl. unfold slice_get. rewrite !decide_True by lia.
  replace (Z.to_nat (j - i)) with (S (Z.to_nat (j - i - 1))) by lia. simpl.
  rewrite lookup_drop. f_equal. lia.
Qed.

Lemma compact_term_first ls i t : term_at (compact ls i t) i = Some t.
Proof. unfold term_at, entry_at. simpl. by rewrite Z.sub_diag. Qed.
End compact.

Section snapshot.
Context {C : Type} `{Gob Z} `{Gob (list (Entry C))} `{Rand} `{Alloc}.
Implicit Types (rf : Raft C).

Definition saved_with (snap : list byte) rf : Raft C :=
  set_persister (SaveStateAndSnapshot (encodeState rf) snap (persister rf)) rf.

Lemma drop_entry_at (ls : list (Entry C)) i e :
  entry_at ls i = Some e ->
  drop (Z.to_nat (i - first_index ls)) ls = e :: drop (Z.to_nat (i + 1 - first_index ls)) ls.
Proof.
  intros [Hi He]%slice_get_Some. rewrite (drop_S _ _ _ He). f_equal. f_equal. lia.
Qed.

Lemma wp_clearFirstCommand rf e ls (Q : unit -> Raft C -> Prop) :
  logs rf = e :: ls ->
  Q tt (set_logs (mkEntry C (e_Index e) (e_Term e) None :: ls) rf) ->
  wp clearFirstCommand rf Q.
Proof.
  intros Hl HQ. unfold clearFirstCommand. go. rewrite Hl.
  eapply wp_lift; [reflexivity|]. go. rewrite slice_set_Some by (simpl; lia). by go.
Qed.

Lemma wp_Snapshot index snap rf (Q : unit -> Raft C -> Prop) :
  wf_logs (logs rf) -> index <= last_index (logs rf) ->
  (index <= first_index (logs rf) -> Q tt rf) ->
  (forall t, first_index (logs rf) < index -> term_at (logs rf) index = Some t ->
     Q tt (saved_with snap (set_logs (compact (logs rf) index t) rf))) ->
  wp (Snapshot index snap) rf Q.
Proof.
  intros Hl Hlast Hno Hyes. unfold Snapshot. go. apply wp_getFirstLog; [done|].
  intros f _ Hf. rewrite Hf. destruct (decide _) as [Hle|Hgt]; go; [auto|].
  rewrite slice_from_Some by (unfold last_index in Hlast; lia). go.
  destruct (entry_at_is_Some (logs rf) index) as [e He]; [lia|].
  rewrite shrinkEntriesArray_id, (drop_entry_at _ _ _ He).
  eapply wp_clearFirstCommand; [reflexivity|]. unfold saveStateAndSnapshot. go.
  rewrite (entry_at_index _ _ _ Hl He). apply Hyes; [lia|]. unfold term_at. by rewrite He.
Qed.

Definition installed (term index : Z) (snap : list byte) rf : Raft C :=
  saved_with snap (set_commitIndex index (set_lastApplied index
    (set_logs (compact (logs rf) index term) rf))).

Lemma wp_CondInstallSnapshot term index snap rf (Q : bool -> Raft C -> Prop) :
  wf_logs (logs rf) -> first_index (logs rf) <= commitIndex rf ->
  (index <= commitIndex rf -> Q false rf) ->
  (commitIndex rf < index -> Q true (installed term index snap rf)) ->
  wp (CondInstallSnapshot term index snap) rf Q.
Proof.
  intros Hl Hc Hno Hyes. unfold CondInstallSnapshot. go.
  destruct (decide _) as [Hle|Hgt]; go; [auto|].
  apply wp_getLastLog; [done|]. intros l _ Hli _. rewrite Hli. go.
  eapply (wp_mono _ _ (fun _ s => exists e,
    s = set_logs (mkEntry C (e_Index e) (e_Term e) None ::
                  drop (Z.to_nat (index + 1 - first_index (logs rf))) (logs rf)) rf)).
  - destruct (decide _) as [Hlast|Hlast]; go.
    + exists zeroEntry. rewrite drop_ge by (unfold last_index in Hlast; lia). done.
    + apply wp_getFirstLog; [done|]. intros f _ Hf. rewrite Hf. go.
      rewrite slice_from_Some by (unfold last_index in Hlast; lia). go.
      destruct (entry_at_is_Some (logs rf) index) as [e He]; [lia|].
      rewrite shrinkEntriesArray_id, (drop_entry_at _ _ _ He).
      eapply wp_clearFirstCommand; [reflexivity|]. by exists e.
  - intros [] s [e ->]. go. eapply wp_lift; [reflexivity|]. go.
    rewrite slice_set_Some by (simpl; lia). go. unfold saveStateAndSnapshot. go.
    apply Hyes. lia.
Qed.

(** The peer's state after an InstallSnapshot of a current term. *)
Definition follow_snapshot (term : Z) rf : Raft C :=
  timer_reset (followed
    (if decide (term > currentTerm rf)
     then saved (set_votedFor (-1) (set_currentTerm term rf)) else rf)).

Lemma wp_InstallSnapshot request rf (Q : InstallSnapshotResponse -> Raft C -> Prop) :
  let response := mkInstallSnapshotResponse (currentTerm rf) in
  let rf1 := follow_snapshot (is_Term request) rf in
  (is_Term request < currentTerm rf -> Q response rf) ->
  (currentTerm rf <= is_Term request -> is_LastIncludedIndex request <= commitIndex rf ->
     Q response rf1) ->
  (currentTerm rf <= is_Term request -> commitIndex rf < is_LastIncludedIndex request ->
     Q response (set_out (out rf1 ++ [GoSendApplyMsg (mkApplyMsg C false None 0 0 true
       (is_Data request) (is_LastIncludedTerm request) (is_LastIncludedIndex request))]) rf1)) ->
  wp (InstallSnapshot request) rf Q.
Proof.
  intros response rf1 Hstale Hold Hnew. unfold InstallSnapshot. go.
  destruct (decide _) as [Hlt|Hge]; go; [auto|].
  eapply (wp_mono _ _ (fun _ s => s = if decide (is_Term request > currentTerm rf)
     then saved (set_votedFor (-1) (set_currentTerm (is_Term request) rf)) else rf)).
  { destruct (decide _); go; [|done]. by apply wp_persist. }
  intros [] s ->. go. apply wp_followed. go. apply wp_resetElectionTimer. go.
  fold (follow_snapshot (is_Term request) rf). fold rf1.
  assert (commitIndex rf1 = commitIndex rf) as ->.
  { unfold rf1, follow_snapshot, followed. by repeat case_decide. }
  destruct (decide _) as [Hle|Hgt]; unfold emit; go.
  - apply Hold; lia.
  - apply Hnew; lia.
Qed.

(** ** applier *)

(** The entries with indices in [(lo, hi]]. *)
Definition entries_between (ls : list (Entry C)) (lo hi : Z) : list (Entry C) :=
  take (Z.to_nat (hi - lo)) (drop (Z.to_nat (lo + 1 - first_index ls)) ls).

Lemma entries_between_length ls lo hi :
  first_index ls <= lo + 1 -> lo <= hi <= last_index ls ->
  length (entries_between ls lo hi) = Z.to_nat (hi - lo).
Proof.
  unfold entries_between, last_index. intros. rewrite length_take, length_drop. lia.
Qed.

Lemma entries_between_lookup (ls : list (Entry C)) lo hi k :
  first_index ls <= lo + 1 -> (k < Z.to_nat (hi - lo))%nat ->
  entries_between ls lo hi !! k = entry_at ls (lo + 1 + Z.of_nat k).
Proof.
  intros Hf Hk. unfold entries_between, entry_at, slice_get. rewrite decide_True by lia.
  rewrite lookup_take_lt by done. rewrite lookup_drop. f_equal. lia.
Qed.

Lemma wp_applier_take rf (Q : option (list (Entry C) * Z) -> Raft C -> Prop) :
  wf_logs (logs rf) -> commitIndex rf <= last_index (logs rf) ->
  first_index (logs rf) <= lastApplied rf + 1 ->
  (commitIndex rf <= lastApplied rf -> Q None rf) ->
  (lastApplied rf < commitIndex rf ->
     Q (Some (entries_between (logs rf) (lastApplied rf) (commitIndex rf), commitIndex rf)) rf) ->
  wp applier_take rf Q.
Proof.
  intros Hl Hc Hf Hno Hyes. unfold applier_take. go.
  destruct (decide _) as [Hge|Hlt]; go; [apply Hno; lia|].
  apply wp_getFirstLog; [done|]. intros f _ Hfi. rewrite Hfi.
  unfold last_index in Hc. unfold slice_range.
  rewrite slice_to_Some by lia. rewrite slice_from_Some by (rewrite length_take; lia). go.
  replace (drop _ (take _ _)) with (entries_between (logs rf) (lastApplied rf) (commitIndex rf)).
  2:{ unfold entries_between. rewrite skipn_firstn_comm. f_equal. lia. }
  rewrite <-(entries_between_length (logs rf)) by (unfold last_index; lia).
  rewrite copy_into_replicate. apply Hyes. lia.
Qed.

(** ** Make *)

(** A peer freshly made with the persistent state [(ct, vf, ls)]. *)
Record fresh_peer (n : nat) (id : Z) (ps : Persister) (ct vf : Z) (ls : list (Entry C))
  (rf : Raft C) : Prop := {
  fresh_peers : peers rf = n;
  fresh_me : me rf = id;
  fresh_persister : persister rf = ps;
  fresh_state : state rf = StateFollower;
  fresh_term : currentTerm rf = ct;
  fresh_vote : votedFor rf = vf;
  fresh_logs : logs rf = ls;
  fresh_commit : commitIndex rf = first_index ls;
  fresh_applied : lastApplied rf = first_index ls;
  fresh_match : matchIndex rf = replicate n 0;
  fresh_next : nextIndex rf = replicate n (last_index ls + 1)
}.

Lemma wp_makeLoop id m n rf :
  length (matchIndex rf) = peers rf -> length (nextIndex rf) = peers rf ->
  wp (forM (seq 0 (peers rf)) (fun i =>
        do! setProgress (Z.of_nat i) m n;
        if decide (Z.of_nat i <> id) then emit (GoReplicator (Z.of_nat i)) else ret tt)) rf
    (fun _ rf' => exists o, rf' = set_out o (set_nextIndex (replicate (peers rf) n)
                              (set_matchIndex (replicate (peers rf) m) rf))).
Proof.
  intros Hm Hn.
  set (I := fun (pre : list nat) (s : Raft C) => exists o,
    s = set_out o (set_nextIndex (replicate (length pre) n ++ drop (length pre) (nextIndex rf))
          (set_matchIndex (replicate (length pre) m ++ drop (length pre) (matchIndex rf)) rf))).
  eapply (wp_mono _ _ (fun _ => I (seq 0 (peers rf)))).
  - apply (wp_forM _ _ I); [exists (out rf); by destruct rf|].
    intros pre i s [post Hseq] [o ->].
    assert (i = length pre /\ (length pre < peers rf)%nat) as [-> Hlt].
    { assert (seq 0 (peers rf) !! length pre = Some i) as Hi%lookup_seq
        by (by rewrite Hseq, list_lookup_middle). lia. }
    go. apply wp_setProgress; cbn; rewrite ?length_app, ?length_replicate, ?length_drop;
      [lia|lia|].
    destruct (lookup_lt_is_Some_2 (nextIndex rf) (length pre)) as [a Ha]; [lia|].
    destruct (lookup_lt_is_Some_2 (matchIndex rf) (length pre)) as [b Hb]; [lia|].
    assert (forall o', I (pre ++ [length pre]) (set_out o'
      (set_nextIndex (<[Z.to_nat (len pre) := n]> (replicate (length pre) n ++ drop (length pre) (nextIndex rf)))
       (set_matchIndex (<[Z.to_nat (len pre) := m]> (replicate (length pre) m ++ drop (length pre) (matchIndex rf))) rf)))) as HI.
    { intros o'. exists o'. rewrite length_app, Nat.add_1_r, Nat2Z.id.
      rewrite !insert_app_r_alt by (rewrite length_replicate; lia).
      rewrite !length_replicate, Nat.sub_diag.
      rewrite (drop_S _ _ _ Ha), (drop_S _ _ _ Hb). simpl. by rewrite !replicate_middle. }
    destruct (decide _); unfold emit; go; apply HI.
  - intros [] s [o ->]. exists o. rewrite length_seq, !drop_ge by lia. by rewrite !app_nil_r.
Qed.

Lemma Make_spec n id ps ct vf ls :
  (len (raftstate ps) = 0 /\ (ct, vf, ls) = (0, -1, [zeroEntry]) \/
   len (raftstate ps) <> 0 /\ decodeState (raftstate ps) = (ct, vf, ls)) ->
  wf_logs ls ->
  exists rf, Make n id ps = Some rf /\ fresh_peer n id ps ct vf ls rf.
Proof.
  intros Hdec Hl. unfold Make.
  set (rf0 := mkRaft n ps id _ _ _ _ _ _ _ _ _ _ _ _ _).
  assert (Hwp : wp (do! readPersist (ReadRaftState ps);
           let! lastLog := getLastLog in
           do! forM (seq 0 n) (fun i =>
                 do! setProgress (Z.of_nat i) 0 (e_Index lastLog + 1);
                 if decide (Z.of_nat i <> id) then emit (GoReplicator (Z.of_nat i)) else ret tt);
           do! emit GoTicker;
           emit GoApplier) rf0 (fun _ rf => fresh_peer n id ps ct vf ls rf)).
  2:{ apply wp_runs in Hwp as ([] & rf & -> & Hfresh). by exists rf. }
  go. eapply (wp_mono _ _ (fun _ s => s = set_commitIndex (first_index ls)
     (set_lastApplied (first_index ls)
        (set_logs ls (set_votedFor vf (set_currentTerm ct rf0)))))).
  { unfold readPersist, ReadRaftState. rewrite clone_id.
    destruct Hdec as [[Hz [= -> -> ->]]|[Hz Hdec]].
    - rewrite decide_True by done. go. done.
    - rewrite decide_False by done. rewrite Hdec. go. apply wp_getFirstLog; [done|].
      intros e _ He. cbn in He. rewrite He. go. done. }
  intros [] s ->. go. apply wp_getLastLog; [done|]. intros e _ He _. cbn in He. rewrite He. go.
  match goal with |- wp _ ?s _ =>
    eapply wp_mono; [apply (wp_makeLoop id 0 (last_index ls + 1) s); cbn; by rewrite length_replicate|]
  end.
  intros [] s [o ->]. unfold emit. go. by split.
Qed.
End snapshot.
