(* ===== verification/RaftInv.v ===== *)
(** * Invariants of a Raft peer

    [wf] is well-formedness, [durable] says that stable storage holds the current
    term, vote and log, and [vote_mono] that terms never decrease and a vote is
    never changed within a term. [Event] lists every way the peer's state changes
    and [run] is the method it runs; [run_good] shows that from a well-formed
    state, under the conditions [ok] the rest of the system guarantees, no event
    panics and all three properties hold afterwards. *)
From Stdlib Require Import Strings.Byte.
From S2P Require Import Prelude Labgob Persister RaftTypes RaftNode RaftLog RaftSpec RaftReplication RaftLeader RaftSnapshot.

Section inv.
Context {C : Type} `{Gob Z} `{Gob (list (Entry C))} `{Rand} `{Alloc}.
Context `{!GobLaws Z} `{!GobLaws (list (Entry C))}.
Implicit Types (rf : Raft C).

Record wf rf : Prop := {
  wf_log : wf_logs (logs rf);
  wf_first : 0 <= first_index (logs rf);
  wf_commit : first_index (logs rf) <= commitIndex rf <= last_index (logs rf);
  wf_applied : lastApplied rf <= commitIndex rf;
  wf_match_len : length (matchIndex rf) = peers rf;
  wf_next_len : length (nextIndex rf) = peers rf;
  wf_me : 0 <= me rf < Z.of_nat (peers rf);
  wf_next : state rf = StateLeader ->
            Forall (fun n => n <= last_index (logs rf) + 1) (nextIndex rf)
}.

(** Stable storage is empty only before the first change. *)
Definition durable rf : Prop :=
  raftstate (persister rf) = encodeState rf \/
  (raftstate (persister rf) = [] /\ currentTerm rf = 0 /\ votedFor rf = -1 /\
   logs rf = [zeroEntry]).

Definition vote_mono rf rf' : Prop :=
  currentTerm rf <= currentTerm rf' /\
  (currentTerm rf = currentTerm rf' -> votedFor rf = votedFor rf' \/ votedFor rf = -1).

Definition same_identity rf rf' : Prop := me rf' = me rf /\ peers rf' = peers rf.

(** ** Events *)

Inductive Event :=
  | EvRequestVote (request : RequestVoteRequest)
  | EvAppendEntries (request : AppendEntriesRequest C)
  | EvInstallSnapshot (request : InstallSnapshotRequest)
  | EvElectionTimeout
  | EvHeartbeatTimeout
  | EvElectionExpire
  | EvHeartbeatExpire
  | EvElectionReply (request : RequestVoteRequest) (response : RequestVoteResponse) (granted : Z)
  | EvReplicate (peer : Z)
  | EvAppendReply (peer : Z) (request : AppendEntriesRequest C) (response : AppendEntriesResponse)
  | EvSnapshotReply (peer : Z) (request : InstallSnapshotRequest) (response : InstallSnapshotResponse)
  | EvNeedReplicating (peer : Z)
  | EvStart (command : C)
  | EvSnapshot (index : Z) (snap : list byte)
  | EvCondInstall (term index : Z) (snap : list byte)
  | EvApplierTake
  | EvApplierDone (commit : Z)
  | EvKill
  | EvRestart.

(** The state after a method, when it does not panic. *)
Definition after {A} (m : M (Raft C) A) rf : option (Raft C) := snd <$> m rf.

Definition run (ev : Event) rf : option (Raft C) :=
  match ev with
  | EvRequestVote request => after (RequestVote request) rf
  | EvAppendEntries request => after (AppendEntries request) rf
  | EvInstallSnapshot request => after (InstallSnapshot request) rf
  | EvElectionTimeout => after ticker_election rf
  | EvHeartbeatTimeout => after ticker_heartbeat rf
  | EvElectionExpire => after expireElectionTimer rf
  | EvHeartbeatExpire => after expireHeartbeatTimer rf
  | EvElectionReply request response granted => after (electionReply request response granted) rf
  | EvReplicate peer => after (goReplicateOneRound peer) rf
  | EvAppendReply peer request response =>
      after (handleAppendEntriesResponse peer request response) rf
  | EvSnapshotReply peer request response =>
      after (handleInstallSnapshotResponse peer request response) rf
  | EvNeedReplicating peer => after (replicator_check peer) rf
  | EvStart command => after (Start command) rf
  | EvSnapshot index snap => after (Snapshot index snap) rf
  | EvCondInstall term index snap => after (CondInstallSnapshot term index snap) rf
  | EvApplierTake => after applier_take rf
  | EvApplierDone commit => after (applier_done commit) rf
  | EvKill => after Kill rf
  | EvRestart => Make (peers rf) (me rf) (persister rf)
  end.

(** The request agrees with the log on every entry up to [c]. *)
Definition agrees_upto (c : Z) (request : AppendEntriesRequest C) (ls : list (Entry C)) : Prop :=
  forall k l x, ae_PrevLogIndex request + 1 + Z.of_nat k <= c ->
    entry_at ls (ae_PrevLogIndex request + 1 + Z.of_nat k) = Some l ->
    ae_Entries request !! k = Some x -> e_Term l = e_Term x.

(** What the callers guarantee: the entries of a request follow on
    [PrevLogIndex] and do not contradict committed entries; a response answers a request this leader sent in its term,
    whose entries are in its log; the service snapshots and [applier] reports only
    what is committed; [applier] takes entries only above the snapshot. *)
Definition ok (ev : Event) rf : Prop :=
  match ev with
  | EvAppendEntries request =>
      consecutive (ae_PrevLogIndex request + 1) (ae_Entries request) /\
      (currentTerm rf <= ae_Term request -> agrees_upto (commitIndex rf) request (logs rf))
  | EvReplicate peer | EvNeedReplicating peer => 0 <= peer < Z.of_nat (peers rf)
  | EvAppendReply peer request response =>
      0 <= peer < Z.of_nat (peers rf) /\
      (state rf = StateLeader -> currentTerm rf = ae_Term request ->
         ae_PrevLogIndex request + len (ae_Entries request) <= last_index (logs rf)) /\
      (aer_Success response = false -> aer_ConflictIndex response <= ae_PrevLogIndex request)
  | EvSnapshotReply peer request _ =>
      0 <= peer < Z.of_nat (peers rf) /\
      (state rf = StateLeader -> currentTerm rf = is_Term request ->
         is_LastIncludedIndex request <= last_index (logs rf))
  | EvSnapshot index _ => index <= commitIndex rf
  | EvApplierTake => first_index (logs rf) <= lastApplied rf
  | EvApplierDone commit => commit <= commitIndex rf
  | _ => True
  end.

Definition kept rf rf' : Prop :=
  wf rf' /\ durable rf' /\ vote_mono rf rf' /\ same_identity rf rf'.

(** While the peer is up its commit index does not decrease either. *)
Definition good rf rf' : Prop := kept rf rf' /\ commitIndex rf <= commitIndex rf'.

Lemma wp_after {A} (m : M (Raft C) A) rf (P : Raft C -> Prop) :
  wp m rf (fun _ rf' => P rf') -> exists rf', after m rf = Some rf' /\ P rf'.
Proof.
  intros Hwp%wp_runs. destruct Hwp as (a & rf' & Hm & HP). exists rf'.
  unfold after. by rewrite Hm.
Qed.

Lemma decode_encode rf : decodeState (encodeState rf) = (currentTerm rf, votedFor rf, logs rf).
Proof.
  unfold decodeState, encodeState. by rewrite !Decode_Encode, Decode_Encode_nil.
Qed.

Lemma encodeState_nonempty rf : len (encodeState rf) <> 0.
Proof.
  unfold encodeState. pose proof (Encode_nonempty (currentTerm rf)).
  destruct (Encode (currentTerm rf)); [done|]. simpl. lia.
Qed.

(** States that differ only in role, timers, progress and outputs. *)
Lemma durable_saved rf : durable (saved rf).
Proof. left. unfold saved. cbn. by rewrite clone_id. Qed.

Lemma durable_saved_with snap rf : durable (saved_with snap rf).
Proof. left. unfold saved_with. cbn. by rewrite clone_id. Qed.

Lemma durable_same rf rf' :
  durable rf -> persister rf' = persister rf -> currentTerm rf' = currentTerm rf ->
  votedFor rf' = votedFor rf -> logs rf' = logs rf -> durable rf'.
Proof.
  unfold durable, encodeState. intros Hd -> -> -> ->. exact Hd.
Qed.

Lemma vote_mono_refl rf rf' :
  currentTerm rf' = currentTerm rf -> votedFor rf' = votedFor rf -> vote_mono rf rf'.
Proof. unfold vote_mono. intros -> ->. auto with lia. Qed.
End inv.

Arguments Event : clear implicits.

(** Computes the fields of an explicit result state. *)
Ltac raft_fields :=
  unfold at_term, follow_leader, follow_snapshot, stepped_down, appended, installed,
    commit_follower, committed_to, progress, candidate, tick_received, timer_reset, elected, followed in *;
  repeat case_decide; cbn in *.

(** Closes [good rf rf'] for an explicit [rf'], but for what is about the log. *)
Ltac raft_close := try solve [done | assumption | auto | intros; first [lia | discriminate | congruence]].
Ltac raft_good Hwf Hd :=
  destruct Hwf; unfold good, kept; split_and!;
  [ split; raft_fields; raft_close
  | try first [ exact Hd | apply durable_saved | apply durable_saved_with
              | solve [apply (durable_same _ _ Hd); raft_fields; done]
              | solve [left; raft_fields; by rewrite ?clone_id]
              | solve [raft_fields; first [ apply (durable_same _ _ Hd); done
                         | eapply durable_same; [apply durable_saved|done..] ] ] ]
  | raft_fields; try first [ solve [apply vote_mono_refl; done] | solve [split; cbn; intros; lia] ]
  | try solve [unfold same_identity; raft_fields; done]
  | raft_fields; try lia ].

Section events.
Context {C : Type} `{Gob Z} `{Gob (list (Entry C))} `{Rand} `{Alloc}.
Context `{!GobLaws Z} `{!GobLaws (list (Entry C))}.
Implicit Types (rf : Raft C).

Lemma RequestVote_good request rf :
  wf rf -> durable rf -> wp (RequestVote request) rf (fun _ rf' => good rf rf').
Proof.
  intros Hwf Hd. apply wp_RequestVote; [by destruct Hwf| | |].
  - intros _. raft_good Hwf Hd.
  - intros Hr Hle _. raft_good Hwf Hd.
  - intros Hr Hle _. raft_good Hwf Hd.
    split; cbn; [lia|]. unfold vote_refused in Hr. lia.
Qed.

Lemma merged_commit request rf :
  wf rf -> consecutive (ae_PrevLogIndex request + 1) (ae_Entries request) ->
  first_index (logs rf) <= ae_PrevLogIndex request <= last_index (logs rf) ->
  agrees_upto (commitIndex rf) request (logs rf) ->
  commitIndex rf <= last_index (merged (logs rf) (ae_PrevLogIndex request) (ae_Entries request)).
Proof.
  intros [] Hc Hp Hag.
  destruct (entry_at_is_Some (logs rf) (commitIndex rf)) as [e He]; [done|].
  eapply merged_keeps in He; [|exact Hp|exact Hag|reflexivity].
  apply entry_at_Some in He. lia.
Qed.

Lemma AppendEntries_good request rf :
  wf rf -> durable rf -> ok (EvAppendEntries request) rf ->
  wp (AppendEntries request) rf (fun _ rf' => good rf rf').
Proof.
  intros Hwf Hd [Hc Hag]. apply wp_AppendEntries; [by destruct Hwf|done|..].
  - intros _. raft_good Hwf Hd.
  - intros _ _. raft_good Hwf Hd.
  - intros _ _ _. raft_good Hwf Hd.
  - intros. raft_good Hwf Hd.
  - intros Hle Hp _. pose proof (merged_commit _ _ Hwf Hc Hp (Hag Hle)) as Hcm.
    pose proof (merged_wf _ _ _ (wf_log _ Hwf) Hp Hc) as Hmw.
    pose proof (merged_first _ _ (ae_Entries request) Hp) as Hmf.
    raft_good Hwf Hd; rewrite ?Hmf; (done || lia).
Qed.

Lemma InstallSnapshot_good request rf :
  wf rf -> durable rf -> wp (InstallSnapshot request) rf (fun _ rf' => good rf rf').
Proof.
  intros Hwf Hd. apply wp_InstallSnapshot.
  - intros _. raft_good Hwf Hd.
  - intros _ _. raft_good Hwf Hd.
  - intros _ _. raft_good Hwf Hd.
Qed.

Lemma ticker_election_good rf :
  wf rf -> durable rf -> wp ticker_election rf (fun _ rf' => good rf rf').
Proof.
  intros Hwf Hd. apply wp_ticker_election; [by destruct Hwf|]. raft_good Hwf Hd.
Qed.

Lemma ticker_heartbeat_good rf :
  wf rf -> durable rf -> wp ticker_heartbeat rf (fun _ rf' => good rf rf').
Proof.
  intros Hwf Hd. unfold ticker_heartbeat. go. destruct (decide _); go.
  - apply wp_BroadcastHeartbeat. unfold resetHeartbeatTimer. go. raft_good Hwf Hd.
  - raft_good Hwf Hd.
Qed.

Lemma Forall_replicate_le n (v b : Z) : v <= b -> Forall (fun x => x <= b) (replicate n v).
Proof. intros. by apply Forall_replicate. Qed.

Lemma electionReply_good request response granted rf :
  wf rf -> durable rf ->
  wp (electionReply request response granted) rf (fun _ rf' => good rf rf').
Proof.
  intros Hwf Hd. apply wp_electionReply; [by destruct Hwf|by destruct Hwf|by destruct Hwf|intros..].
  - raft_good Hwf Hd.
  - raft_good Hwf Hd.
  - raft_good Hwf Hd; try by rewrite length_replicate. intros _. by apply Forall_replicate_le.
  - raft_good Hwf Hd.
  - raft_good Hwf Hd.
Qed.

Lemma replicateOneRound_good peer rf :
  wf rf -> durable rf -> ok (EvReplicate peer) rf ->
  wp (replicateOneRound peer) rf (fun _ rf' => good rf rf').
Proof.
  intros Hwf Hd Hok. apply wp_replicateOneRound; [by destruct Hwf| |apply Hwf|intros..].
  { destruct Hwf. simpl in Hok. lia. }
  - raft_good Hwf Hd.
  - raft_good Hwf Hd.
  - raft_good Hwf Hd.
Qed.

Lemma goReplicateOneRound_good peer rf :
  wf rf -> durable rf -> ok (EvReplicate peer) rf ->
  wp (goReplicateOneRound peer) rf (fun _ rf' => good rf rf').
Proof.
  intros Hwf Hd Hok. unfold goReplicateOneRound. go. set (rf0 := set_out _ rf).
  assert (wf rf0) as Hwf0 by (destruct Hwf; by split).
  eapply wp_mono; [by apply (replicateOneRound_good peer rf0)|done].
Qed.

Lemma wp_needReplicating peer rf (Q : bool -> Raft C -> Prop) : wf rf -> 0 <= peer < Z.of_nat (peers rf) ->
  (forall b, Q b rf) -> wp (needReplicating peer) rf Q.
Proof.
  intros Hwf Hok HQ. unfold needReplicating. go. destruct (decide _); go; [|auto].
  destruct (slice_get_is_Some (matchIndex rf) peer) as [m Hm]; [destruct Hwf; lia|].
  eapply wp_lift; [exact Hm|]. go. apply wp_getLastLog; [apply Hwf|]. intros. go. auto.
Qed.

Lemma replicator_check_good peer rf :
  wf rf -> durable rf -> ok (EvNeedReplicating peer) rf ->
  wp (replicator_check peer) rf (fun _ rf' => good rf rf').
Proof.
  intros Hwf Hd Hok. unfold replicator_check. go. apply wp_needReplicating; [done|done|].
  intros []; unfold emit; go; raft_good Hwf Hd.
Qed.

Lemma insert_next_le (l : list Z) i n b :
  Forall (fun x => x <= b) l -> n <= b -> Forall (fun x => x <= b) (<[i := n]> l).
Proof. intros. by apply Forall_insert. Qed.

Lemma handleAppendEntriesResponse_good peer request response rf :
  wf rf -> durable rf -> ok (EvAppendReply peer request response) rf ->
  wp (handleAppendEntriesResponse peer request response) rf (fun _ rf' => good rf rf').
Proof.
  intros Hwf Hd (Hpeer & Hlast & Hconf).
  pose proof (wf_match_len _ Hwf) as Hml. pose proof (wf_next_len _ Hwf) as Hnl.
  pose proof (wf_next _ Hwf) as Hnext.
  apply wp_handleAppendEntriesResponse; [apply Hwf|apply Hwf|lia|lia|..].
  - intros Hs Ht. specialize (Hlast Hs Ht). lia.
  - intros _. raft_good Hwf Hd.
  - intros Hs Ht _ v Hmaj. specialize (Hlast Hs Ht). specialize (Hnext Hs). split.
    + intros _. raft_good Hwf Hd; rewrite ?length_insert; [done|done|].
      intros _. apply insert_next_le; [done|lia].
    + intros Hv Hterm.
      assert (v <= last_index (logs rf)).
      { unfold term_at in Hterm. destruct (entry_at (logs rf) v) eqn:E; [|done].
        apply entry_at_Some in E. lia. }
      raft_good Hwf Hd; rewrite ?length_insert; [done|done|].
      intros _. apply insert_next_le; [done|lia].
  - intros Hs Ht _ Hgt. raft_good Hwf Hd.
  - intros _ _ _ _. raft_good Hwf Hd.
  - intros n Hs Ht Hf _ Hn. specialize (Hlast Hs Ht). specialize (Hnext Hs). specialize (Hconf Hf).
    raft_good Hwf Hd; rewrite ?length_insert; [done|]. intros _. apply insert_next_le; [done|lia].
Qed.

Lemma handleInstallSnapshotResponse_good peer request response rf :
  wf rf -> durable rf -> ok (EvSnapshotReply peer request response) rf ->
  wp (handleInstallSnapshotResponse peer request response) rf (fun _ rf' => good rf rf').
Proof.
  intros Hwf Hd (Hpeer & Hlast).
  pose proof (wf_match_len _ Hwf) as Hml. pose proof (wf_next_len _ Hwf) as Hnl.
  apply wp_handleInstallSnapshotResponse; [lia|lia|..].
  - intros _. raft_good Hwf Hd.
  - intros Hs Ht _. raft_good Hwf Hd.
  - intros Hs Ht _. specialize (Hlast Hs Ht). pose proof (wf_next _ Hwf Hs) as Hnext.
    raft_good Hwf Hd; rewrite ?length_insert; [done|done|].
    intros _. apply insert_next_le; [done|lia].
Qed.

Lemma Start_good command rf :
  wf rf -> durable rf -> wp (Start command) rf (fun _ rf' => good rf rf').
Proof.
  intros Hwf Hd. pose proof (wf_match_len _ Hwf) as Hml. pose proof (wf_next_len _ Hwf) as Hnl.
  pose proof (wf_log _ Hwf) as Hl. pose proof (proj1 Hl) as Hne.
  apply wp_Start; [done|destruct Hwf; lia|lia|..].
  - intros _. raft_good Hwf Hd.
  - intros Hs. pose proof (wf_next _ Hwf Hs) as Hnext.
    raft_good Hwf Hd; rewrite ?length_insert, ?first_index_app, ?last_index_app by done; simpl;
      try (done || lia).
    + apply wf_logs_app; [done|]. by split.
    + intros _. apply insert_next_le; [|lia].
      eapply Forall_impl; [exact Hnext|]. simpl. lia.
Qed.

Lemma Snapshot_good index snap rf :
  wf rf -> durable rf -> ok (EvSnapshot index snap) rf ->
  wp (Snapshot index snap) rf (fun _ rf' => good rf rf').
Proof.
  intros Hwf Hd Hok. simpl in Hok. pose proof (wf_commit _ Hwf) as Hc.
  pose proof (wf_log _ Hwf) as Hl. apply wp_Snapshot; [done|lia|..].
  - intros _. raft_good Hwf Hd.
  - intros t Hlt _.
    assert (Hcl : last_index (compact (logs rf) index t) = last_index (logs rf))
      by (rewrite compact_last by (done || lia); lia).
    raft_good Hwf Hd; rewrite ?Hcl, ?compact_first; try (done || lia).
    apply compact_wf; [done|lia].
Qed.

Lemma CondInstallSnapshot_good term index snap rf :
  wf rf -> durable rf ->
  wp (CondInstallSnapshot term index snap) rf (fun _ rf' => good rf rf').
Proof.
  intros Hwf Hd. pose proof (wf_commit _ Hwf) as Hc. pose proof (wf_log _ Hwf) as Hl.
  apply wp_CondInstallSnapshot; [done|lia|..].
  - intros _. raft_good Hwf Hd.
  - intros Hlt.
    assert (Hcl : last_index (compact (logs rf) index term) = Z.max index (last_index (logs rf)))
      by (rewrite compact_last by (done || lia); lia).
    raft_good Hwf Hd; rewrite ?Hcl, ?compact_first; try (done || lia).
    + apply compact_wf; [done|lia].
    + intros Hs. eapply Forall_impl; [apply wf_next0, Hs|]. simpl. lia.
Qed.

Lemma applier_take_good rf :
  wf rf -> durable rf -> ok EvApplierTake rf ->
  wp applier_take rf (fun _ rf' => good rf rf').
Proof.
  intros Hwf Hd Hok. simpl in Hok. apply wp_applier_take; [apply Hwf|apply Hwf|lia|..].
  - intros _. raft_good Hwf Hd.
  - intros _. raft_good Hwf Hd.
Qed.

Lemma applier_done_good commit rf :
  wf rf -> durable rf -> ok (EvApplierDone commit) rf ->
  wp (applier_done commit) rf (fun _ rf' => good rf rf').
Proof.
  intros Hwf Hd Hok. simpl in Hok. unfold applier_done. go. rewrite Max_max.
  raft_good Hwf Hd.
Qed.

Lemma Kill_good rf : wf rf -> durable rf -> wp Kill rf (fun _ rf' => good rf rf').
Proof. intros Hwf Hd. unfold Kill. go. raft_good Hwf Hd. Qed.

Lemma expireElectionTimer_good rf : wf rf -> durable rf -> wp expireElectionTimer rf (fun _ rf' => good rf rf').
Proof. intros Hwf Hd. unfold expireElectionTimer. go. raft_good Hwf Hd. Qed.
Lemma expireHeartbeatTimer_good rf : wf rf -> durable rf -> wp expireHeartbeatTimer rf (fun _ rf' => good rf rf').
Proof. intros Hwf Hd. unfold expireHeartbeatTimer. go. raft_good Hwf Hd. Qed.

(** The state a restart reads back. *)
Lemma durable_Make n id rf :
  wf_logs (logs rf) -> durable rf ->
  exists rf', Make n id (persister rf) = Some rf' /\
    fresh_peer n id (persister rf) (currentTerm rf) (votedFor rf) (logs rf) rf'.
Proof.
  intros Hl Hd. apply Make_spec; [|done]. destruct Hd as [Hd|(Hd & -> & -> & ->)].
  - right. rewrite Hd. split; [apply encodeState_nonempty|apply decode_encode].
  - left. by rewrite Hd.
Qed.

Lemma Make_good rf : wf rf -> durable rf ->
  exists rf', Make (peers rf) (me rf) (persister rf) = Some rf' /\ kept rf rf'.
Proof.
  intros Hwf Hd. pose proof (wf_logs_first_last _ (wf_log _ Hwf)) as Hfl.
  destruct (durable_Make (peers rf) (me rf) rf (wf_log _ Hwf) Hd) as (rf' & HM & []).
  exists rf'. split; [done|]. destruct Hwf. unfold kept. split_and!.
  - split; rewrite ?fresh_logs, ?fresh_commit, ?fresh_applied, ?fresh_match, ?fresh_next,
      ?fresh_me, ?fresh_peers, ?length_replicate, ?fresh_state; first [done|lia|discriminate|by rewrite fresh_peers].
  - by eapply durable_same.
  - by apply vote_mono_refl.
  - done.
Qed.

(** No event panics, and every event keeps the three invariants. *)
Lemma run_good ev rf : wf rf -> durable rf -> ok ev rf ->
  exists rf', run ev rf = Some rf' /\ kept rf rf' /\
    (ev <> EvRestart -> commitIndex rf <= commitIndex rf').
Proof.
  intros Hwf Hd Hok.
  assert (ev = EvRestart \/ exists rf', run ev rf = Some rf' /\ good rf rf') as [->|(rf' & Hr & Hg)].
  3:{ exists rf'. destruct Hg. auto. }
  2:{ destruct (Make_good rf Hwf Hd) as (rf' & Hr & Hk). by exists rf'. }
  destruct ev; simpl run; try (by left); right; apply wp_after;
    auto using RequestVote_good, AppendEntries_good, InstallSnapshot_good, ticker_election_good,
      ticker_heartbeat_good, expireElectionTimer_good, expireHeartbeatTimer_good, electionReply_good, goReplicateOneRound_good, replicator_check_good,
      handleAppendEntriesResponse_good, handleInstallSnapshotResponse_good, Start_good,
      Snapshot_good, CondInstallSnapshot_good, applier_take_good, applier_done_good, Kill_good.
Qed.
End events.
