(* ===== verification/RaftProps.v ===== *)
(** * Properties of a single Raft peer

    The theorems about one peer, each with a witness on a concrete three-peer
    configuration whose commands are strings. *)
From Stdlib Require Import Strings.Byte.
From S2P Require Import Prelude Labgob Persister RaftTypes RaftNode RaftLog RaftSpec RaftReplication RaftLeader RaftSnapshot RaftInv.

(** ** Runs of one peer *)
Section runs.
Context {C : Type} `{Gob Z} `{Gob (list (Entry C))} `{Rand} `{Alloc}.
Context `{!GobLaws Z} `{!GobLaws (list (Entry C))}.
Implicit Types (rf : Raft C).

(** A run of events, each under the conditions its caller guarantees. *)
Inductive peer_steps : Raft C -> Raft C -> Prop :=
  | steps_refl rf : peer_steps rf rf
  | steps_event rf ev rf' rf'' :
      ok ev rf -> run ev rf = Some rf' -> peer_steps rf' rf'' -> peer_steps rf rf''.

Lemma steps_good rf rf' :
  peer_steps rf rf' -> wf rf -> durable rf -> kept rf rf'.
Proof.
  induction 1 as [rf|rf ev rf' rf'' Hok Hrun _ IH]; intros Hwf Hd.
  - unfold kept, same_identity. split_and!; auto using vote_mono_refl.
  - destruct (run_good ev rf Hwf Hd Hok) as (rf1 & Hrun1 & (Hwf1 & Hd1 & [Ht Hv] & Hm & Hp) & _).
    rewrite Hrun in Hrun1. injection Hrun1 as <-.
    destruct (IH Hwf1 Hd1) as (Hwf2 & Hd2 & [Ht2 Hv2] & Hm2 & Hp2).
    unfold kept, vote_mono, same_identity. split_and!; try done; try lia; try congruence.
Qed.

(** The first state of a peer. *)
Lemma Make_initial n id rf :
  0 <= id < Z.of_nat n -> Make n id MakePersister = Some rf -> wf rf /\ durable rf.
Proof.
  intros Hid HM.
  destruct (Make_spec n id MakePersister 0 (-1) [@zeroEntry C]) as (rf' & HM' & []);
    [by left|apply wf_zero|].
  rewrite HM in HM'. injection HM' as <-. split.
  - split; rewrite ?fresh_logs, ?fresh_commit, ?fresh_applied, ?fresh_match, ?fresh_next,
      ?fresh_me, ?fresh_peers, ?length_replicate, ?fresh_state;
      first [apply wf_zero|done|lia|discriminate].
  - right. by rewrite fresh_persister.
Qed.
End runs.

(** ** The concrete configuration of the witnesses *)
Module Example3.
#[export] Instance draw0 : Rand := fun _ _ => 0.
#[export] Instance draw0_laws : RandLaws.
Proof. intros k n. unfold Intn, draw0. lia. Defined.
#[export] Instance cap0 : Alloc := fun _ _ => 0.

Definition force {A} (d : A) (o : option A) : A := match o with Some a => a | None => d end.

(** A peer that has two entries of term 1 and follows. *)
Definition entry1 : Entry string := mkEntry string 1 1 (Some "a"%string).
Definition entry2 : Entry string := mkEntry string 2 1 (Some "b"%string).
Definition follower : Raft string :=
  saved (mkRaft 3 MakePersister 0 false StateFollower 1 (-1) [zeroEntry; entry1; entry2]
    1 0 [3; 3; 3] [0; 0; 0] (Armed 1000) Stopped 1 []).
Definition longer_follower : Raft string :=
  set_logs [zeroEntry; entry1; entry2; mkEntry string 3 1 (Some "d"%string)] follower.
Definition leader : Raft string :=
  saved (mkRaft 3 MakePersister 0 false StateLeader 1 0 [zeroEntry; entry1; entry2]
    0 0 [3; 3; 1] [2; 1; 0] Stopped (Armed 125) 1 []).

Lemma follower_wf : wf follower.
Proof. split; cbn; try done; lia. Qed.
Lemma follower_durable : durable follower.
Proof. apply durable_saved. Qed.
Lemma leader_wf : wf leader.
Proof. split; cbn; try done; try lia. intros _. repeat constructor; done. Qed.
End Example3.
Import Example3.

Section properties.
Context {C : Type} `{Gob Z} `{Gob (list (Entry C))} `{Rand} `{Alloc}.
Context `{!GobLaws Z} `{!GobLaws (list (Entry C))}.
Implicit Types (rf : Raft C).

(** C7: from a well-formed peer whose stable storage is current, no method called as [ok]
    says panics (no slice index goes out of range), and it leaves the peer well-formed, its
    stable storage current, its term no smaller, its vote in a term unchanged and, unless
    it crashes, its commit index no smaller. [ok]: the entries of an AppendEntries request
    are numbered from [PrevLogIndex + 1] and, if its term is not old, agree with the peer's
    log up to its commit index; a reply comes from a peer of the cluster and answers a
    request of this leader, within its log, with a conflict index not above
    [PrevLogIndex]; [Snapshot] is at most at the commit index; the applier has not been
    overtaken by a snapshot, and reports a commit index that was reached. Other methods
    take any arguments. *)
Theorem raft_method_safe ev rf :
  wf rf -> durable rf -> ok ev rf ->
  exists rf', run ev rf = Some rf' /\ wf rf' /\ durable rf' /\ vote_mono rf rf' /\
    (ev <> EvRestart -> commitIndex rf <= commitIndex rf').
Proof.
  intros Hwf Hd Hok. destruct (run_good ev rf Hwf Hd Hok) as (rf' & Hr & Hg). exists rf'.
  unfold kept in Hg. tauto.
Qed.

(** C13: whatever a peer does after it is first made, a crash at any point loses
    nothing of its term, vote and log: [Make] on its persister brings them back. *)
Theorem raft_crash_recovery n id rf0 rf :
  0 <= id < Z.of_nat n -> Make n id MakePersister = Some rf0 -> peer_steps rf0 rf ->
  exists rf', Make n id (persister rf) = Some rf' /\ currentTerm rf' = currentTerm rf /\
    votedFor rf' = votedFor rf /\ logs rf' = logs rf /\ state rf' = StateFollower.
Proof.
  intros Hid HM Hs. destruct (Make_initial n id rf0 Hid HM) as [Hwf Hd].
  destruct (steps_good _ _ Hs Hwf Hd) as (Hwf' & Hd' & _ & _).
  destruct (durable_Make n id rf (wf_log _ Hwf') Hd') as (rf' & HM' & []).
  exists rf'. auto.
Qed.

(** A peer votes at most once per term: along any run, crashes included, once
    it has voted for a candidate it has that same vote as long as its term stays
    the same. *)
Theorem raft_votes_once rf rf' :
  wf rf -> durable rf -> peer_steps rf rf' ->
  currentTerm rf <= currentTerm rf' /\
  (currentTerm rf' = currentTerm rf -> votedFor rf <> -1 -> votedFor rf' = votedFor rf).
Proof.
  intros Hwf Hd Hs. destruct (steps_good _ _ Hs Hwf Hd) as (_ & _ & [Ht Hv] & _).
  split; [done|]. intros Heq Hne. destruct Hv; congruence.
Qed.

(** The vote rule. A request is granted exactly when it is not stale, the peer
    has not voted for another candidate in that term, and the candidate's log is
    at least as up to date; the peer then has that term and that vote. *)
Theorem RequestVote_grants request rf :
  wf_logs (logs rf) ->
  exists response rf', RequestVote request rf = Some (response, rf') /\
    (rvr_VoteGranted response = true <->
       ~ vote_refused request rf /\
       up_to_date (rv_LastLogTerm request) (rv_LastLogIndex request) (logs rf)) /\
    (rvr_VoteGranted response = true ->
       currentTerm rf' = rv_Term request /\ votedFor rf' = rv_CandidateId request) /\
    rvr_Term response = currentTerm rf' /\ logs rf' = logs rf.
Proof.
  intros Hl. apply wp_runs, wp_RequestVote; [done|..].
  - intros Hr. cbn. intuition discriminate.
  - intros Hr Hle Hu. raft_fields; intuition (discriminate || lia).
  - intros Hr Hle Hu. raft_fields; intuition (discriminate || lia).
Qed.

(** C16: the log after a successful AppendEntries, exactly. The code's scan-and-truncate
    loop computes the reference merge [merged]. When the log already has every entry of the
    request (same index and term) it stays as it is, with whatever follows them; otherwise,
    with [k] the first entry of the request that is missing or has another term, the log is
    cut there, stale suffix included, and ends with the request's entries from [k] on. In
    both cases every entry of the request is then present, the log up to [PrevLogIndex] is
    untouched, and no entry up to an index to which the request agrees is lost. *)
Theorem AppendEntries_merges request rf :
  let prev := ae_PrevLogIndex request in
  wf_logs (logs rf) -> consecutive (prev + 1) (ae_Entries request) ->
  currentTerm rf <= ae_Term request -> first_index (logs rf) <= prev ->
  term_at (logs rf) prev = Some (ae_PrevLogTerm request) ->
  exists response rf', AppendEntries request rf = Some (response, rf') /\
    aer_Success response = true /\ wf_logs (logs rf') /\
    logs rf' = merged (logs rf) prev (ae_Entries request) /\
    ((forall j x, ae_Entries request !! j = Some x ->
        term_at (logs rf) (prev + 1 + Z.of_nat j) = Some (e_Term x)) -> logs rf' = logs rf) /\
    (forall k e, ae_Entries request !! k = Some e ->
       (forall j x, (j < k)%nat -> ae_Entries request !! j = Some x ->
          term_at (logs rf) (prev + 1 + Z.of_nat j) = Some (e_Term x)) ->
       term_at (logs rf) (prev + 1 + Z.of_nat k) <> Some (e_Term e) ->
       logs rf' = take (Z.to_nat (prev + 1 - first_index (logs rf)) + k) (logs rf) ++
         drop k (ae_Entries request)) /\
    (forall i, i <= prev -> entry_at (logs rf') i = entry_at (logs rf) i) /\
    (forall k e, ae_Entries request !! k = Some e ->
       term_at (logs rf') (prev + 1 + Z.of_nat k) = Some (e_Term e)) /\
    (forall i e, entry_at (logs rf') i = Some e -> entry_at (logs rf) i = Some e \/
       (prev < i /\ ae_Entries request !! Z.to_nat (i - prev - 1) = Some e)) /\
    (forall c i e, agrees_upto c request (logs rf) -> i <= c ->
       entry_at (logs rf) i = Some e -> entry_at (logs rf') i = Some e).
Proof.
  intros prev Hl Hc Hterm Hfirst Hprev.
  assert (first_index (logs rf) <= prev <= last_index (logs rf)) as Hp.
  { unfold term_at in Hprev. destruct (entry_at _ prev) eqn:E; [|done].
    by apply entry_at_Some in E. }
  apply wp_runs, wp_AppendEntries; [done|done|intros; exfalso; try lia..|].
  - unfold prev in *. congruence.
  - intros _ _ _.
    assert (logs (saved (commit_follower (ae_LeaderCommit request) (set_logs (merged (logs rf)
      (ae_PrevLogIndex request) (ae_Entries request)) (follow_leader (ae_Term request) rf)))) =
      merged (logs rf) prev (ae_Entries request)) as -> by (by raft_fields).
    split_and!; eauto using merged_wf, merged_present, merged_conflict, merged_below, merged_entries, merged_source.
    intros c i e Hag Hi He. eapply merged_keeps; eauto.
Qed.

(** The conflict hint. When the follower's entry at [PrevLogIndex] has another
    term [t], the reply carries [t] and the largest index below it whose entry
    is not of term [t] (or the one just below the first entry); all entries in
    between have term [t]. When the follower's log is too short, the reply carries
    -1 and the first missing index. *)
Theorem AppendEntries_conflict request rf :
  let prev := ae_PrevLogIndex request in
  wf_logs (logs rf) -> consecutive (prev + 1) (ae_Entries request) ->
  currentTerm rf <= ae_Term request -> first_index (logs rf) <= prev ->
  term_at (logs rf) prev <> Some (ae_PrevLogTerm request) ->
  exists response rf', AppendEntries request rf = Some (response, rf') /\
    aer_Success response = false /\ aer_Term response = ae_Term request /\
    logs rf' = logs rf /\ commitIndex rf' = commitIndex rf /\
    (last_index (logs rf) < prev ->
       aer_ConflictTerm response = -1 /\
       aer_ConflictIndex response = last_index (logs rf) + 1) /\
    (prev <= last_index (logs rf) ->
       let r := aer_ConflictIndex response in
       let t := aer_ConflictTerm response in
       first_index (logs rf) - 1 <= r < prev /\
       (forall j, r < j <= prev -> term_at (logs rf) j = Some t) /\
       (first_index (logs rf) <= r -> term_at (logs rf) r <> Some t)).
Proof.
  intros prev Hl Hc Hterm Hfirst Hprev. apply wp_runs, wp_AppendEntries; [done|done|..].
  - intros. exfalso. lia.
  - intros. exfalso. unfold prev in *. lia.
  - intros Hle Hlast _. raft_fields; split_and!; try done; intros; lia.
  - intros t r Hle Hb Ht Hne Hr Hall Hend. raft_fields; split_and!; try done; intros; try done; lia.
  - intros _ _ Hm. by destruct Hprev.
Qed.

(** C17: the leader's commit rule. A successful reply advances the commit index
    exactly when the largest index stored by more than half of the peers is beyond
    it and holds an entry of the leader's own term; the new commit index is then
    that index, and nothing else can be committed. *)
Theorem leader_commit_majority rf :
  wf rf ->
  exists rf' v, advanceCommitIndexForLeader rf = Some (tt, rf') /\
    majority (matchIndex rf) v /\ logs rf' = logs rf /\
    commitIndex rf' =
      (if decide (commitIndex rf < v /\ term_at (logs rf) v = Some (currentTerm rf))
       then v else commitIndex rf) /\
    commitIndex rf' <= last_index (logs rf').
Proof.
  intros Hwf.
  assert (wp advanceCommitIndexForLeader rf (fun _ rf' => exists v,
    majority (matchIndex rf) v /\ logs rf' = logs rf /\ commitIndex rf' =
      (if decide (commitIndex rf < v /\ term_at (logs rf) v = Some (currentTerm rf))
       then v else commitIndex rf) /\ commitIndex rf' <= last_index (logs rf'))) as Hwp.
  { destruct Hwf. apply wp_commit_leader; [done|lia|destruct (matchIndex rf); simpl in *; lia || done|..].
    - intros v Hm Hv. exists v. split_and!; try done; try lia. rewrite decide_False; [done|].
      intros [? ?]. destruct Hv; [lia|done].
    - intros v Hm Hlt Ht. exists v. rewrite decide_True by done. split_and!; try done.
      unfold term_at in Ht. destruct (entry_at (logs rf) v) eqn:E; [|done].
      apply entry_at_Some in E. cbn. lia. }
  apply wp_runs in Hwp as ([] & rf' & Hr & v & Hv). by exists rf', v.
Qed.
End properties.

Lemma raft_method_safe_witness :
  exists rf', run (EvAppendEntries (mkAppendEntriesRequest string 2 1 1 1 2
      [mkEntry string 2 2 (Some "c"%string)])) follower = Some rf' /\
    wf rf' /\ durable rf' /\ vote_mono follower rf'.
Proof.
  destruct (raft_method_safe (EvAppendEntries (mkAppendEntriesRequest string 2 1 1 1 2
      [mkEntry string 2 2 (Some "c"%string)])) follower) as (rf' & Hr & Hw & Hd & Hv & _);
    [apply follower_wf|apply follower_durable| |by exists rf'].
  split; [by repeat split|]. intros _ k l x Hk. cbn in Hk. lia.
Defined.

Lemma raft_crash_recovery_witness :
  exists (rf0 rf rf' : Raft string), Make 3 0 MakePersister = Some rf0 /\ run EvElectionTimeout rf0 = Some rf /\
    currentTerm rf = 1 /\ Make 3 0 (persister rf) = Some rf' /\ currentTerm rf' = 1 /\ votedFor rf' = 0.
Proof.
  set (rf0 := force follower (Make 3 0 MakePersister)).
  set (rf := force follower (run EvElectionTimeout rf0)).
  assert (Make 3 0 MakePersister = Some rf0) as H0 by (vm_compute; reflexivity).
  assert (run EvElectionTimeout rf0 = Some rf) as H1 by (vm_compute; reflexivity).
  assert (currentTerm rf = 1 /\ votedFor rf = 0) as [Ht1 Hv1] by (vm_compute; split; reflexivity).
  clearbody rf rf0.
  destruct (raft_crash_recovery 3 0 rf0 rf) as (rf' & HM & Ht & Hv & _);
    [lia|exact H0|apply (steps_event _ EvElectionTimeout rf); [exact I|exact H1|constructor]|].
  exists rf0, rf, rf'. split_and!; [exact H0|exact H1|exact Ht1|exact HM|congruence|congruence].
Defined.

Lemma raft_votes_once_witness :
  exists rf', run (EvRequestVote (mkRequestVoteRequest 1 2 2 1)) follower = Some rf' /\
    currentTerm follower <= currentTerm rf' /\ votedFor rf' = 2.
Proof.
  set (ev := EvRequestVote (mkRequestVoteRequest 1 2 2 1)).
  set (rf' := force follower (run ev follower)).
  assert (run ev follower = Some rf') as H1 by (vm_compute; reflexivity).
  assert (votedFor rf' = 2) as H2 by (vm_compute; reflexivity).
  clearbody rf'. exists rf'. split_and!; [exact H1| |exact H2].
  apply (raft_votes_once follower rf'); [apply follower_wf|apply follower_durable|].
  apply (steps_event _ ev rf'); [exact I|exact H1|constructor].
Defined.

Lemma RequestVote_grants_witness :
  exists response rf', RequestVote (mkRequestVoteRequest 2 1 2 1) follower = Some (response, rf') /\
    rvr_VoteGranted response = true /\ votedFor rf' = 1.
Proof.
  destruct (RequestVote_grants (mkRequestVoteRequest 2 1 2 1) follower (wf_log _ follower_wf))
    as (response & rf' & Hr & Hg & Hv & _).
  assert (rvr_VoteGranted response = true) as Hy.
  { apply Hg. split; [unfold vote_refused; cbn; lia|right; by vm_compute]. }
  exists response, rf'. split_and!; [done|done|]. by apply Hv.
Defined.

Lemma AppendEntries_merges_witness :
  exists response rf', AppendEntries (mkAppendEntriesRequest string 2 1 0 0 2
      [entry1; mkEntry string 2 2 (Some "c"%string)]) longer_follower = Some (response, rf') /\
    aer_Success response = true /\
    logs rf' = [zeroEntry; entry1; mkEntry string 2 2 (Some "c"%string)].
Proof.
  destruct (AppendEntries_merges (mkAppendEntriesRequest string 2 1 0 0 2
      [entry1; mkEntry string 2 2 (Some "c"%string)]) longer_follower)
    as (response & rf' & Hr & Hs & _ & _ & _ & Hc & _);
    [by repeat split|by repeat split|cbn; lia|cbn; lia|reflexivity|].
  exists response, rf'. split_and!; [done|done|].
  apply (Hc 1%nat _ eq_refl); [|done]. intros [|j] x Hj Hx; [|lia]. cbn in Hx. simplify_eq. reflexivity.
Defined.

Lemma AppendEntries_conflict_witness :
  exists response rf', AppendEntries (mkAppendEntriesRequest string 3 1 2 2 0 []) follower =
      Some (response, rf') /\ aer_Success response = false /\ logs rf' = logs follower.
Proof.
  destruct (AppendEntries_conflict (mkAppendEntriesRequest string 3 1 2 2 0 []) follower
    (wf_log _ follower_wf)) as (response & rf' & Hr & Hs & _ & Hl & _);
    [done|cbn; lia|cbn; lia|done|].
  exists response, rf'. done.
Defined.

Lemma leader_commit_majority_witness :
  exists rf', advanceCommitIndexForLeader leader = Some (tt, rf') /\ commitIndex rf' = 1.
Proof.
  destruct (leader_commit_majority leader leader_wf) as (rf' & v & Hr & _).
  exists rf'. split; [done|]. vm_compute in Hr. injection Hr as <-. reflexivity.
Defined.
