(* ===== verification/RaftVotes.v ===== *)
(** * Terms and votes in every execution of a method

    Partial-correctness reasoning: [wlp m s Q] constrains the result of [m] when it
    returns, with no assumption on the state it starts in. The lemmas of this file
    say what each method of a Raft peer does to the term, the vote, the role and
    stable storage, whatever the log looks like; the election safety proof rests on
    them alone. *)
From Stdlib Require Import Strings.Byte.
From S2P Require Import Prelude Labgob Persister RaftTypes RaftNode RaftLog RaftSpec RaftLeader RaftSnapshot RaftInv.

Definition wlp {S A} (m : M S A) (s : S) (Q : A -> S -> Prop) : Prop :=
  forall a s', m s = Some (a, s') -> Q a s'.

Section wlp.
Context {S A B : Type}.

Lemma wlp_ret (a : A) (s : S) Q : Q a s -> wlp (ret a) s Q.
Proof. intros HQ a' s' [= <- <-]. done. Qed.

Lemma wlp_bind (m : M S A) (f : A -> M S B) s Q :
  wlp m s (fun a s' => wlp (f a) s' Q) -> wlp (bind m f) s Q.
Proof.
  unfold wlp, bind. intros Hm b s'. destruct (m s) as [[a s1]|] eqn:E; [|done].
  by apply Hm.
Qed.

Lemma wlp_get (s : S) (Q : S -> S -> Prop) : Q s s -> wlp get s Q.
Proof. intros HQ a s' [= <- <-]. done. Qed.

Lemma wlp_modify f (s : S) (Q : unit -> S -> Prop) : Q tt (f s) -> wlp (modify f) s Q.
Proof. intros HQ a s' [= <- <-]. done. Qed.

Lemma wlp_lift (o : option A) (s : S) (Q : A -> S -> Prop) :
  (forall a, o = Some a -> Q a s) -> wlp (lift o) s Q.
Proof. intros HQ a s'. unfold lift. destruct o; [|done]. intros [= <- <-]. by apply HQ. Qed.

Lemma wlp_mono (m : M S A) s (P Q : A -> S -> Prop) :
  wlp m s P -> (forall a s', P a s' -> Q a s') -> wlp m s Q.
Proof. unfold wlp. eauto. Qed.
End wlp.

(** A loop keeps whatever every iteration keeps. *)
Lemma wlp_forM {S A} (l : list A) (f : A -> M S unit) (R : S -> S -> Prop) s :
  (forall s, R s s) -> (forall s1 s2 s3, R s1 s2 -> R s2 s3 -> R s1 s3) ->
  (forall x s, wlp (f x) s (fun _ s' => R s s')) ->
  wlp (forM l f) s (fun _ s' => R s s').
Proof.
  intros Hr Ht Hf. revert s. induction l as [|x l IH]; intros s; simpl.
  - by apply wlp_ret.
  - apply wlp_bind. eapply wlp_mono; [apply Hf|]. intros [] s1 H1.
    eapply wlp_mono; [apply IH|]. eauto.
Qed.

Lemma wp_wlp {S A} (m : M S A) s Q : wp m s Q -> wlp m s Q.
Proof. unfold wp, wlp. intros Hwp a s' Hm. by rewrite Hm in Hwp. Qed.

Ltac wlp_step :=
  lazymatch goal with
  | |- wlp (bind _ _) _ _ => apply wlp_bind
  | |- wlp (ret _) _ _ => apply wlp_ret
  | |- wlp get _ _ => apply wlp_get
  | |- wlp (modify _) _ _ => apply wlp_modify
  | |- wlp (lift _) _ _ => apply wlp_lift; intros ? ?
  | |- wlp (if ?b then _ else _) _ _ => destruct b eqn:?
  | |- wlp (match ?b with _ => _ end) _ _ => destruct b eqn:?
  end.
Ltac wlp_go := repeat (wlp_step; cbn beta).

Section votes.
Context {C : Type} `{Gob Z} `{Gob (list (Entry C))} `{Rand} `{Alloc}.
Implicit Types (rf : Raft C).

(** The part of the state elections depend on. *)
Definition ballot rf : Z * Z * NodeState * Z * nat * Persister :=
  (currentTerm rf, votedFor rf, state rf, me rf, peers rf, persister rf).

Definition same_ballot rf rf' : Prop := ballot rf' = ballot rf.
Definition same_ballot_log rf rf' : Prop := ballot rf' = ballot rf /\ logs rf' = logs rf.

Lemma same_ballot_log_refl rf : same_ballot_log rf rf.
Proof. done. Qed.
Lemma same_ballot_log_trans rf1 rf2 rf3 :
  same_ballot_log rf1 rf2 -> same_ballot_log rf2 rf3 -> same_ballot_log rf1 rf3.
Proof. unfold same_ballot_log. intuition congruence. Qed.

(** Accessors leave the state alone. *)
Lemma wlp_getLastLog rf Q : (forall e, Q e rf) -> wlp getLastLog rf Q.
Proof. intros HQ. unfold getLastLog. by wlp_go. Qed.
Lemma wlp_getFirstLog rf Q : (forall e, Q e rf) -> wlp getFirstLog rf Q.
Proof. intros HQ. unfold getFirstLog. by wlp_go. Qed.
Lemma wlp_isLogUpToDate t i rf Q : (forall b, Q b rf) -> wlp (isLogUpToDate t i) rf Q.
Proof. intros HQ. unfold isLogUpToDate. wlp_go. apply wlp_getLastLog. intros. by wlp_go. Qed.
Lemma wlp_matchLog t i rf Q : (forall b, Q b rf) -> wlp (matchLog t i) rf Q.
Proof.
  intros HQ. unfold matchLog. wlp_go. apply wlp_getLastLog. intros. wlp_go; [|done].
  apply wlp_getFirstLog. intros. by wlp_go.
Qed.

Lemma wlp_setProgress i m n rf :
  wlp (setProgress i m n) rf (fun _ rf' => same_ballot_log rf rf').
Proof. unfold setProgress. by wlp_go. Qed.
Lemma wlp_setNextIndex i n rf :
  wlp (setNextIndex i n) rf (fun _ rf' => same_ballot_log rf rf').
Proof. unfold setNextIndex. by wlp_go. Qed.

Lemma wlp_BroadcastHeartbeat b rf :
  wlp (BroadcastHeartbeat b) rf (fun _ rf' => same_ballot_log rf rf').
Proof.
  unfold BroadcastHeartbeat. wlp_go.
  apply (wlp_forM _ _ same_ballot_log); [done|apply same_ballot_log_trans|].
  intros p rf1. unfold emit. by wlp_go.
Qed.

(** [ChangeState] changes the role only. *)
Lemma wlp_ChangeState st rf :
  wlp (ChangeState st) rf (fun _ rf' => same_ballot_log (set_state st rf) rf').
Proof.
  unfold ChangeState. wlp_go.
  - split; [|done]. destruct rf; cbn in *; unfold ballot; cbn; congruence.
  - unfold resetElectionTimer. by wlp_go.
  - done.
  - apply wlp_getLastLog. intros e. wlp_go.
    eapply wlp_mono; [apply (wlp_forM _ _ same_ballot_log);
      [done|apply same_ballot_log_trans|intros; apply wlp_setProgress]|].
    intros [] rf1 Hrf1. unfold resetHeartbeatTimer. wlp_go. exact Hrf1.
Qed.

Lemma wlp_mergeEntries first entries rf :
  wlp (mergeEntries first entries) rf (fun _ rf' => same_ballot rf rf').
Proof.
  induction entries as [|e entries IH]; simpl; wlp_go; try done; apply IH.
Qed.

Lemma wlp_advanceCommitIndexForFollower c rf :
  wlp (advanceCommitIndexForFollower c) rf (fun _ rf' => same_ballot_log rf rf').
Proof.
  unfold advanceCommitIndexForFollower. wlp_go. apply wlp_getLastLog. intros e.
  unfold emit. by wlp_go.
Qed.

Lemma wlp_advanceCommitIndexForLeader rf :
  wlp advanceCommitIndexForLeader rf (fun _ rf' => same_ballot_log rf rf').
Proof.
  unfold advanceCommitIndexForLeader. wlp_go; [|done].
  apply wlp_matchLog. intros b. unfold emit. by wlp_go.
Qed.

(** ** The effect of a method on the election state *)

(** The peer keeps its identity, its vote within a term and the storage of both,
    and does not become leader. *)
Record vote_effect rf rf' : Prop := {
  ve_mono : vote_mono rf rf';
  ve_id : same_identity rf rf';
  ve_durable : durable rf -> durable rf';
  ve_leader : state rf' = StateLeader -> state rf = StateLeader /\ currentTerm rf' = currentTerm rf
}.

Lemma same_ballot_log_effect rf rf' : same_ballot_log rf rf' -> vote_effect rf rf'.
Proof.
  intros [[= Ht Hv Hs Hm Hp Hps] Hl]. split.
  - by apply vote_mono_refl.
  - done.
  - intros Hd. by apply (durable_same _ _ Hd).
  - rewrite Hs, Ht. done.
Qed.

Record pre_effect rf rf' : Prop := {
  pe_mono : vote_mono rf rf';
  pe_id : same_identity rf rf';
  pe_leader : state rf' = StateLeader -> state rf = StateLeader /\ currentTerm rf' = currentTerm rf
}.

(** Saving makes any such change durable. *)
Lemma effect_saved rf rf1 : pre_effect rf rf1 ->
  vote_effect rf (set_persister (SaveRaftState (encodeState rf1) (persister rf1)) rf1).
Proof. intros [Hm Hi Hl]. split; [done|done|intros _; apply durable_saved|done]. Qed.

Lemma effect_saved_with rf rf1 snap : pre_effect rf rf1 ->
  vote_effect rf (set_persister (SaveStateAndSnapshot (encodeState rf1) snap (persister rf1)) rf1).
Proof.
  intros [Hm Hi Hl]. split; [done|done|intros _; left; cbn; by rewrite clone_id|done].
Qed.

(** Becoming a follower keeps term and vote. *)
Lemma effect_follower rf rf1 : same_ballot_log (set_state StateFollower rf) rf1 -> vote_effect rf rf1.
Proof.
  intros [[= Ht Hv Hs Hm Hp Hps] Hl]. split.
  - by apply vote_mono_refl.
  - done.
  - intros Hd. by apply (durable_same _ _ Hd).
  - by rewrite Hs.
Qed.

Lemma effect_pre rf rf' : vote_effect rf rf' -> pre_effect rf rf'.
Proof. by intros []. Qed.

Lemma pre_effect_ballot rf rf1 rf2 :
  pre_effect rf rf1 -> same_ballot rf1 rf2 -> pre_effect rf rf2.
Proof.
  intros [Hm Hi Hl] [= Ht Hv Hs Hme Hp Hps]. split.
  - unfold vote_mono in *. by rewrite Ht, Hv.
  - unfold same_identity in *. by rewrite Hme, Hp.
  - by rewrite Hs, Ht.
Qed.

(** A follower of a newer term that has not voted. *)
Lemma pre_effect_newer rf rf1 term :
  same_ballot_log (set_state StateFollower rf) rf1 -> currentTerm rf < term ->
  pre_effect rf (set_votedFor (-1) (set_currentTerm term rf1)).
Proof.
  intros [[= Ht Hv Hs Hm Hp Hps] Hl] Hlt. split.
  - split; cbn; lia.
  - done.
  - cbn. by rewrite Hs.
Qed.

Lemma RequestVote_effect request rf :
  wlp (RequestVote request) rf (fun response rf' => vote_effect rf rf' /\
    (rvr_VoteGranted response = true ->
       currentTerm rf' = rv_Term request /\ votedFor rf' = rv_CandidateId request /\
       currentTerm rf <= rv_Term request /\
       (currentTerm rf = rv_Term request ->
          votedFor rf = -1 \/ votedFor rf = rv_CandidateId request))).
Proof.
  unfold RequestVote. wlp_go. apply wlp_getFirstLog. intros _. wlp_go.
  apply wlp_getLastLog. intros _. wlp_go. unfold RequestVote_body. do 2 wlp_step. cbn beta.
  destruct (_ || _) eqn:Heqb.
  { unfold persist. wlp_go. split; [|done]. apply effect_saved, effect_pre.
    by apply same_ballot_log_effect. }
  rewrite <-!bool_decide_and, <-bool_decide_or in Heqb. apply bool_decide_eq_false in Heqb.
  assert (Hfin : forall rf1, pre_effect rf rf1 -> currentTerm rf1 = rv_Term request ->
    (currentTerm rf = rv_Term request -> votedFor rf1 = votedFor rf) ->
    wlp (let! ok := isLogUpToDate (rv_LastLogTerm request) (rv_LastLogIndex request) in
         if negb ok then let! rf := get in ret (mkRequestVoteResponse (currentTerm rf) false)
         else do! modify (set_votedFor (rv_CandidateId request)); do! resetElectionTimer;
              let! rf := get in ret (mkRequestVoteResponse (currentTerm rf) true)) rf1
      (fun response rf2 => wlp (do! persist; ret response) rf2 (fun response rf' =>
         vote_effect rf rf' /\ (rvr_VoteGranted response = true ->
         currentTerm rf' = rv_Term request /\ votedFor rf' = rv_CandidateId request /\
         currentTerm rf <= rv_Term request /\
         (currentTerm rf = rv_Term request ->
            votedFor rf = -1 \/ votedFor rf = rv_CandidateId request))))).
  { intros rf1 Hpe Ht Hv. wlp_go. apply wlp_isLogUpToDate. intros b. wlp_go.
    - unfold persist. wlp_go. split; [by apply effect_saved|done].
    - unfold resetElectionTimer. wlp_go. unfold persist. wlp_go. split; [|cbn; lia].
      apply effect_saved. destruct Hpe as [Hmono Hid Hlead]. split; [|done|exact Hlead].
      unfold vote_mono in *. cbn. lia. }
  wlp_step. destruct (decide (rv_Term request > currentTerm rf)) as [Hgt|Hle].
  - wlp_go. eapply wlp_mono; [apply wlp_ChangeState|]. intros [] rf1 Hrf1. unfold adoptTerm. wlp_step. cbn beta.
    apply Hfin; [by apply pre_effect_newer; [|lia]|done|cbn; lia].
  - wlp_step. cbn beta. apply Hfin; [|lia|done]. apply effect_pre. by apply same_ballot_log_effect.
Qed.

Lemma AppendEntries_effect request rf :
  wlp (AppendEntries request) rf (fun _ rf' => vote_effect rf rf').
Proof.
  unfold AppendEntries. wlp_go.
  eapply (wlp_mono _ _ (fun _ rf1 => pre_effect rf rf1)).
  2:{ intros r rf1 Hpe. unfold persist. wlp_go. by apply effect_saved. }
  unfold AppendEntries_body. do 2 wlp_step. cbn beta.
  wlp_step; [wlp_go; by apply effect_pre, same_ballot_log_effect|]. wlp_step.
  eapply (wlp_mono _ _ (fun _ rf0 => ballot rf0 = ballot rf \/
    (currentTerm rf < ae_Term request /\
     rf0 = set_votedFor (-1) (set_currentTerm (ae_Term request) rf)))).
  { unfold adoptTerm. wlp_go; [right; split; [lia|done]|by left]. }
  intros [] rf0 Hrf0. wlp_go. eapply wlp_mono; [apply wlp_ChangeState|].
  intros [] rf1 [[= Ht Hv Hs Hm Hp Hps] _]. unfold resetElectionTimer. wlp_go.
  set (rf2 := set_draws _ _).
  assert (pre_effect rf rf2) as Hpe.
  { unfold rf2. split; [| |cbn; by rewrite Hs].
    - split; cbn; rewrite ?Ht, ?Hv; destruct Hrf0 as [[= Et Ev _ _ _ _]|[? ->]]; cbn; lia.
    - split; cbn; rewrite ?Hm, ?Hp; destruct Hrf0 as [[= _ _ _ Em Ep _]|[? ->]]; done. }
  clearbody rf2. apply wlp_getFirstLog. intros f. wlp_go; [done|].
  apply wlp_matchLog. intros b. wlp_go.
  - apply wlp_getLastLog. intros l. by wlp_go.
  - eapply wlp_mono; [apply wlp_mergeEntries|]. intros [] rf3 H3. wlp_go.
    eapply wlp_mono; [apply wlp_advanceCommitIndexForFollower|]. intros [] rf4 [H4 _]. wlp_go.
    eapply pre_effect_ballot; [eapply pre_effect_ballot; [exact Hpe|exact H3]|exact H4].
Qed.

Lemma InstallSnapshot_effect request rf :
  wlp (InstallSnapshot request) rf (fun _ rf' => vote_effect rf rf').
Proof.
  unfold InstallSnapshot. do 2 wlp_step. cbn beta.
  wlp_step; [wlp_go; by apply same_ballot_log_effect|]. wlp_step.
  eapply (wlp_mono _ _ (fun _ rf0 => rf0 = rf \/ (currentTerm rf < is_Term request /\
    let rf1 := set_votedFor (-1) (set_currentTerm (is_Term request) rf) in
    rf0 = set_persister (SaveRaftState (encodeState rf1) (persister rf1)) rf1))).
  { unfold persist. wlp_go; [right; split; [lia|done]|by left]. }
  intros [] rf0 Hrf0. wlp_go. eapply wlp_mono; [apply wlp_ChangeState|].
  intros [] rf1 Hrf1. unfold resetElectionTimer.
  assert (vote_effect rf rf1) as Hve.
  { destruct Hrf0 as [->|[Hlt ->]]; [by apply effect_follower|].
    pose proof Hrf1 as [[= Ht Hv Hs Hm Hp Hps] Hl]. split; [split; cbn; lia|done| |by rewrite Hs].
    intros _. eapply durable_same; [apply durable_saved|exact Hps|exact Ht|exact Hv|exact Hl]. }
  destruct Hve as [? ? ? ?]. unfold emit. wlp_go; by split.
Qed.

Lemma replicateOneRound_effect peer rf :
  wlp (replicateOneRound peer) rf (fun _ rf' => rf' = rf).
Proof.
  unfold replicateOneRound, genInstallSnapshotRequest, genAppendEntriesRequest.
  wlp_go; [done|]. apply wlp_getFirstLog. intros f. wlp_go; apply wlp_getFirstLog; intros; by wlp_go.
Qed.

Lemma stepDown_effect term rf :
  currentTerm rf < term ->
  wlp (do! ChangeState StateFollower; do! adoptTerm term; persist) rf
    (fun _ rf' => vote_effect rf rf').
Proof.
  intros Hlt. wlp_go. eapply wlp_mono; [apply wlp_ChangeState|]. intros [] rf1 Hrf1.
  unfold adoptTerm, persist. wlp_go. by apply effect_saved, pre_effect_newer.
Qed.

Lemma handleAppendEntriesResponse_effect peer request response rf :
  wlp (handleAppendEntriesResponse peer request response) rf (fun _ rf' => vote_effect rf rf').
Proof.
  unfold handleAppendEntriesResponse. wlp_step. wlp_step. cbn beta.
  destruct (_ && _); [|wlp_go; by apply same_ballot_log_effect].
  destruct (aer_Success response).
  - wlp_go. eapply wlp_mono; [apply wlp_setProgress|]. intros [] rf1 Hr1.
    eapply wlp_mono; [apply wlp_advanceCommitIndexForLeader|]. intros [] rf2 Hr2.
    eapply same_ballot_log_effect, same_ballot_log_trans; eauto.
  - destruct (decide _); [apply stepDown_effect; lia|].
    destruct (decide _); [|wlp_go; by apply same_ballot_log_effect].
    wlp_step. eapply wlp_mono; [apply wlp_setNextIndex|]. intros [] rf1 Hr1.
    destruct (decide _); [|wlp_go; by apply same_ballot_log_effect].
    wlp_go. apply wlp_getFirstLog. intros f. wlp_go.
    + eapply wlp_mono; [apply wlp_setNextIndex|]. intros [] rf2 Hr2.
      eapply same_ballot_log_effect, same_ballot_log_trans; eauto.
    + by apply same_ballot_log_effect.
Qed.

Lemma handleInstallSnapshotResponse_effect peer request response rf :
  wlp (handleInstallSnapshotResponse peer request response) rf (fun _ rf' => vote_effect rf rf').
Proof.
  unfold handleInstallSnapshotResponse. wlp_go.
  - eapply wlp_mono; [apply wlp_ChangeState|]. intros [] rf1 Hr1. unfold resetElectionTimer. wlp_go.
    destruct (effect_follower _ _ Hr1) as [? ? ? ?]. by split.
  - eapply wlp_mono; [apply wlp_setProgress|]. intros [] rf1 Hr1. by apply same_ballot_log_effect.
  - by apply same_ballot_log_effect.
Qed.

Lemma Start_effect command rf :
  wlp (Start command) rf (fun _ rf' => vote_effect rf rf').
Proof.
  unfold Start, appendNewEntry. wlp_go; [by apply same_ballot_log_effect|].
  apply wlp_getLastLog. intros e. wlp_go.
  eapply wlp_mono; [apply wlp_setProgress|]. intros [] rf1 [Hr1 _]. unfold persist. wlp_go.
  eapply wlp_mono; [apply wlp_BroadcastHeartbeat|]. intros [] rf2 Hr2. wlp_go.
  assert (pre_effect rf rf1) as Hpe.
  { eapply pre_effect_ballot; [apply effect_pre, same_ballot_log_effect, same_ballot_log_refl|].
    exact Hr1. }
  apply effect_saved in Hpe as [Hm Hi Hd Hl].
  destruct (same_ballot_log_effect _ _ Hr2) as [Hm2 Hi2 Hd2 Hl2].
  destruct Hr2 as [[= Ht Hv Hs Hme Hp Hps] _]. split.
  - unfold vote_mono in *. cbn in *. lia.
  - unfold same_identity in *. cbn in *. intuition congruence.
  - auto.
  - intros Hs'. destruct (Hl2 Hs') as [Hs1 Ht1]. rewrite Ht1. by apply Hl.
Qed.

Lemma pre_effect_same rf rf1 : same_ballot rf rf1 -> pre_effect rf rf1.
Proof.
  intros Hb. eapply pre_effect_ballot; [|exact Hb].
  apply effect_pre, same_ballot_log_effect, same_ballot_log_refl.
Qed.

Lemma Snapshot_effect index snap rf :
  wlp (Snapshot index snap) rf (fun _ rf' => vote_effect rf rf').
Proof.
  unfold Snapshot, clearFirstCommand, saveStateAndSnapshot. wlp_go. apply wlp_getFirstLog.
  intros f. wlp_go; [by apply same_ballot_log_effect|]. by apply effect_saved_with, pre_effect_same.
Qed.

Lemma CondInstallSnapshot_effect term index snap rf :
  wlp (CondInstallSnapshot term index snap) rf (fun _ rf' => vote_effect rf rf').
Proof.
  unfold CondInstallSnapshot, saveStateAndSnapshot. wlp_go; [by apply same_ballot_log_effect|].
  apply wlp_getLastLog. intros l. wlp_go; [by apply effect_saved_with, pre_effect_same|].
  apply wlp_getFirstLog. intros f. unfold clearFirstCommand. wlp_go.
  by apply effect_saved_with, pre_effect_same.
Qed.

(** A quiet step changes neither ballot nor log. *)
Lemma applier_take_effect rf : wlp applier_take rf (fun _ rf' => rf' = rf).
Proof. unfold applier_take. wlp_go; [done|]. apply wlp_getFirstLog. intros f. by wlp_go. Qed.

Lemma ticker_heartbeat_effect rf :
  wlp ticker_heartbeat rf (fun _ rf' => vote_effect rf rf').
Proof.
  unfold ticker_heartbeat. wlp_go; [|by apply same_ballot_log_effect].
  eapply wlp_mono; [apply wlp_BroadcastHeartbeat|]. intros [] rf1 Hr1. unfold resetHeartbeatTimer.
  wlp_go. apply same_ballot_log_effect. exact Hr1.
Qed.

(** A timeout starts an election in the next term: the peer votes for itself,
    saves that, and asks every other peer. *)
Record started rf request rf' : Prop := {
  st_term : currentTerm rf' = currentTerm rf + 1;
  st_vote : votedFor rf' = me rf;
  st_state : state rf' = StateCandidate;
  st_id : same_identity rf rf';
  st_durable : durable rf';
  st_request : rv_Term request = currentTerm rf + 1 /\ rv_CandidateId request = me rf;
  st_out : out rf' = out rf ++ ((fun p => GoSendRequestVote p request) <$> other_peers rf)
}.

Lemma ticker_election_effect rf :
  wlp ticker_election rf (fun request rf' => started rf request rf').
Proof.
  unfold ticker_election. do 3 wlp_step.
  eapply (wlp_mono _ _ (fun _ s => s = set_state StateCandidate (tick_received rf))).
  { unfold ChangeState. wlp_go; [|done]. destruct rf; cbn in *; by subst. }
  intros [] s ->. wlp_go. unfold StartElection, genRequestVoteRequest. wlp_go.
  apply wlp_getLastLog. intros e. wlp_go. unfold persist. wlp_step. cbn beta. do 3 wlp_step. cbn beta.
  set (rf1 := set_persister _ _).
  set (request := mkRequestVoteRequest _ _ _ _).
  eapply (wlp_mono _ _ (fun _ s => s = set_out (out rf1 ++
    ((fun p => GoSendRequestVote p request) <$> other_peers rf1)) rf1)).
  { by apply wp_wlp, (wp_forM_others rf1 (fun p => GoSendRequestVote p request)). }
  intros [] rf2 ->. unfold resetElectionTimer. wlp_go. split; try done.
  eapply durable_same; [apply (durable_saved (set_votedFor (me rf)
    (set_currentTerm (currentTerm rf + 1) (set_state StateCandidate rf))))|done..].
Qed.

(** A reply either leaves an election as it is, counts a vote (and wins the
    election with a majority), or ends it. *)
Lemma electionReply_effect request response granted rf :
  wlp (electionReply request response granted) rf (fun granted' rf' =>
    vote_mono rf rf' /\ same_identity rf rf' /\ (durable rf -> durable rf') /\
    (granted' = granted \/
     granted' = granted + 1 /\ rvr_VoteGranted response = true) /\
    (state rf' = StateLeader ->
       state rf = StateLeader /\ currentTerm rf' = currentTerm rf \/
       currentTerm rf' = rv_Term request /\ granted' > Z.of_nat (peers rf) `quot` 2)).
Proof.
  assert (Hsame : forall rf' g, vote_effect rf rf' ->
    (g = granted \/ g = granted + 1 /\ rvr_VoteGranted response = true) ->
    vote_mono rf rf' /\ same_identity rf rf' /\ (durable rf -> durable rf') /\
    (g = granted \/ g = granted + 1 /\ rvr_VoteGranted response = true) /\
    (state rf' = StateLeader ->
       state rf = StateLeader /\ currentTerm rf' = currentTerm rf \/
       currentTerm rf' = rv_Term request /\ g > Z.of_nat (peers rf) `quot` 2)).
  { intros rf' g [Hm Hi Hd Hl] Hg. split_and!; auto. }
  pose proof (same_ballot_log_effect rf rf (same_ballot_log_refl rf)) as Hrefl.
  unfold electionReply. do 2 wlp_step. cbn beta.
  destruct (_ && _) eqn:Hc; [|wlp_go; by apply Hsame; [|left]].
  rewrite <-bool_decide_and in Hc. apply bool_decide_eq_true in Hc as [Ht Hs].
  destruct (rvr_VoteGranted response) eqn:Hv.
  - destruct (decide _) as [Hgt|Hle]; [|wlp_go; by apply Hsame; [|right]].
    wlp_go. eapply wlp_mono; [apply wlp_ChangeState|]. intros [] rf1 Hr1. wlp_go.
    eapply wlp_mono; [apply wlp_BroadcastHeartbeat|]. intros [] rf2 Hr2. wlp_go.
    destruct (same_ballot_log_trans _ _ _ Hr1 Hr2) as [[= Ht' Hv' Hs' Hm' Hp' Hps'] Hl'].
    split_and!; [by apply vote_mono_refl|done| |by right|].
    + intros Hd. by apply (durable_same _ _ Hd).
    + intros _. right. rewrite Ht'. done.
  - destruct (decide _) as [Hgt|Hle]; [|wlp_go; by apply Hsame; [|left]].
    eapply (wlp_mono _ _ (fun g rf' => g = granted /\ vote_effect rf rf')).
    { wlp_go. eapply wlp_mono; [apply wlp_ChangeState|]. intros [] rf1 Hr1.
      unfold adoptTerm, persist. wlp_go. split; [done|].
      apply effect_saved, pre_effect_newer; [done|lia]. }
    intros g rf' [-> He]. by apply Hsame; [|left].
Qed.

(** Events other than those of an election. *)
Definition local (ev : Event C) : Prop :=
  match ev with
  | EvRequestVote _ | EvElectionTimeout | EvElectionReply _ _ _ | EvRestart => False
  | _ => True
  end.

Lemma after_wlp {A} (m : M (Raft C) A) rf rf' (P : Raft C -> Prop) :
  wlp m rf (fun _ rf' => P rf') -> after m rf = Some rf' -> P rf'.
Proof.
  unfold wlp, after. intros Hm. destruct (m rf) as [[a s]|]; [|done].
  intros [= <-]. by eapply Hm.
Qed.

Lemma effect_quiet {A} (m : M (Raft C) A) rf :
  wlp m rf (fun _ rf' => rf' = rf) -> wlp m rf (fun _ rf' => vote_effect rf rf').
Proof.
  intros Hm. eapply wlp_mono; [exact Hm|]. intros a s ->. by apply same_ballot_log_effect.
Qed.

Lemma needReplicating_effect peer rf : wlp (needReplicating peer) rf (fun _ rf' => rf' = rf).
Proof. unfold needReplicating. wlp_go; [|done]. apply wlp_getLastLog. intros ?. by wlp_go. Qed.

Lemma goReplicateOneRound_effect peer rf : wlp (goReplicateOneRound peer) rf (fun _ rf' => vote_effect rf rf').
Proof.
  unfold goReplicateOneRound. wlp_go. eapply wlp_mono; [apply replicateOneRound_effect|]. intros a s ->.
  by apply same_ballot_log_effect.
Qed.
Lemma replicator_check_effect peer rf : wlp (replicator_check peer) rf (fun _ rf' => vote_effect rf rf').
Proof.
  unfold replicator_check. wlp_go. eapply wlp_mono; [apply needReplicating_effect|]. intros b s ->. cbn beta.
  unfold emit. destruct b; wlp_go; by apply same_ballot_log_effect.
Qed.

Lemma applier_done_effect commit rf : wlp (applier_done commit) rf (fun _ rf' => vote_effect rf rf').
Proof. unfold applier_done. wlp_go. by apply same_ballot_log_effect. Qed.

Lemma expireElectionTimer_effect rf : wlp expireElectionTimer rf (fun _ rf' => vote_effect rf rf').
Proof. unfold expireElectionTimer. wlp_go. by apply same_ballot_log_effect. Qed.
Lemma expireHeartbeatTimer_effect rf : wlp expireHeartbeatTimer rf (fun _ rf' => vote_effect rf rf').
Proof. unfold expireHeartbeatTimer. wlp_go. by apply same_ballot_log_effect. Qed.

Lemma Kill_effect rf : wlp Kill rf (fun _ rf' => vote_effect rf rf').
Proof. unfold Kill. wlp_go. by apply same_ballot_log_effect. Qed.

Lemma local_effect ev rf rf' : local ev -> run ev rf = Some rf' -> vote_effect rf rf'.
Proof.
  intros Hl. destruct ev; try done; simpl; apply after_wlp;
    auto using AppendEntries_effect, InstallSnapshot_effect, ticker_heartbeat_effect,
      expireElectionTimer_effect, expireHeartbeatTimer_effect, handleAppendEntriesResponse_effect, handleInstallSnapshotResponse_effect, Start_effect,
      Snapshot_effect, CondInstallSnapshot_effect, effect_quiet, goReplicateOneRound_effect,
      replicator_check_effect, applier_take_effect, applier_done_effect, Kill_effect.
Qed.

Context `{!GobLaws Z} `{!GobLaws (list (Entry C))}.

(** A restarted peer has the term and the vote it had, as a follower. *)
Record restarted rf rf' : Prop := {
  rs_term : currentTerm rf' = currentTerm rf;
  rs_vote : votedFor rf' = votedFor rf;
  rs_state : state rf' = StateFollower;
  rs_id : same_identity rf rf';
  rs_durable : durable rf'
}.

Lemma wlp_readPersist rf0 rf :
  persister rf0 = persister rf -> durable rf -> currentTerm rf0 = 0 -> votedFor rf0 = -1 ->
  logs rf0 = [zeroEntry] ->
  wlp (readPersist (ReadRaftState (persister rf))) rf0 (fun _ rf1 =>
    ballot rf1 = (currentTerm rf, votedFor rf, state rf0, me rf0, peers rf0, persister rf) /\
    logs rf1 = logs rf).
Proof.
  intros Hps Hd Ht Hv Hl. unfold readPersist, ReadRaftState. rewrite clone_id.
  destruct Hd as [Hd|(Hd & Ht' & Hv' & Hl')]; rewrite Hd.
  - rewrite decide_False by apply encodeState_nonempty. rewrite decode_encode.
    do 2 wlp_step. cbn beta. wlp_step. apply wlp_getFirstLog. intros e. wlp_go.
    unfold ballot. cbn. by rewrite Hps.
  - rewrite decide_True by done. wlp_go. unfold ballot. by rewrite Hps, Ht, Hv, Ht', Hv', Hl.
Qed.

Lemma Make_effect rf rf' :
  durable rf -> Make (peers rf) (me rf) (persister rf) = Some rf' -> restarted rf rf'.
Proof.
  intros Hd. unfold Make. set (rf0 := mkRaft _ _ _ _ _ _ _ _ _ _ _ _ _ _ _ _).
  apply after_wlp. wlp_step.
  eapply wlp_mono; [apply (wlp_readPersist rf0 rf); done|]. intros [] rf1 [Hb Hl]. wlp_go.
  apply wlp_getLastLog. intros e. wlp_go.
  eapply wlp_mono; [apply (wlp_forM _ _ same_ballot_log); [done|apply same_ballot_log_trans|]|].
  { intros i s. wlp_step. eapply wlp_mono; [apply wlp_setProgress|]. intros [] s1 Hs1.
    unfold emit. wlp_go; done. }
  intros [] rf2 [Hb2 Hl2]. unfold emit. wlp_go. rewrite Hb in Hb2.
  injection Hb2 as Ht Hv Hs Hm Hp Hps. split; cbn; try done.
  apply (durable_same _ _ Hd); cbn; congruence.
Qed.
End votes.
