(* ===== verification/RaftElection.v ===== *)
(** * Election safety of a Raft cluster

    A cluster is the peers, the [RequestVote] calls in flight and the vote counters
    of the elections. A step runs one method of one peer: an election timeout, here at any
    moment (which allows more than the timer does), sends the calls the peer's goroutines
    make, a delivery runs [RequestVote] at the callee, a reply runs the election goroutine's
    critical section at the caller, a restart runs [Make] on the caller's persister and kills
    its goroutines. Calls and replies may be delayed for ever and arrive in any order; each
    call is handled at most once and each reply is received at most once, as [labrpc] does
    ([LabrpcProps]): a reply received twice would be counted twice. Every other method runs
    with any argument at all. At most one peer is ever leader of a term. *)
From Stdlib Require Import Strings.Byte.
From S2P Require Import Prelude Labgob Persister RaftTypes RaftNode RaftLog RaftSpec RaftInv RaftProps RaftVotes.

Lemma NoDup_range_length (n : nat) (l : list Z) :
  NoDup l -> (forall x, x ∈ l -> 0 <= x < Z.of_nat n) -> (length l <= n)%nat.
Proof.
  intros Hnd Hr. rewrite <-(length_seq n 0), <-(length_fmap Z.of_nat (seq 0 n)).
  apply submseteq_length, NoDup_submseteq; [done|].
  intros x Hx%Hr. apply list_elem_of_fmap. exists (Z.to_nat x).
  rewrite elem_of_seq. lia.
Qed.

(** A list of more than half of [0 .. n-1], without repetition, meets any other. *)
Lemma majorities_meet (n : nat) (l1 l2 : list Z) :
  NoDup l1 -> NoDup l2 ->
  (forall x, x ∈ l1 -> 0 <= x < Z.of_nat n) -> (forall x, x ∈ l2 -> 0 <= x < Z.of_nat n) ->
  Z.of_nat n `quot` 2 < len l1 -> Z.of_nat n `quot` 2 < len l2 ->
  exists x, x ∈ l1 /\ x ∈ l2.
Proof.
  intros Hn1 Hn2 Hr1 Hr2 Hl1 Hl2. pose proof (quot2_bounds (Z.of_nat n) ltac:(lia)).
  destruct (decide (Exists (fun x => x ∈ l2) l1)) as [He|He].
  { apply Exists_exists in He. done. }
  exfalso. assert (NoDup (l1 ++ l2)) as Hnd.
  { apply NoDup_app. split_and!; [done| |done].
    intros x Hx Hx2. apply He, Exists_exists. eauto. }
  apply (NoDup_range_length n) in Hnd; [rewrite length_app in Hnd; lia|].
  intros x [?|?]%elem_of_app; auto.
Qed.

(** ** The cluster *)

Inductive Status :=
  | Sent
  | Replied (response : RequestVoteResponse)
  | Finished (response : RequestVoteResponse).

(** One [sendRequestVote] of an election goroutine; [c_live] is false once the
    caller has crashed. *)
Record Call := mkCall {
  c_from : Z;
  c_to : Z;
  c_request : RequestVoteRequest;
  c_status : Status;
  c_live : bool
}.

Definition c_key (c : Call) : Z * Z * Z := (c_from c, rv_Term (c_request c), c_to c).

Definition set_status (s : Status) (c : Call) : Call :=
  mkCall (c_from c) (c_to c) (c_request c) s (c_live c).

Definition killed_with (i : Z) (c : Call) : Call :=
  if decide (c_from c = i) then mkCall (c_from c) (c_to c) (c_request c) (c_status c) false else c.

(** The peer answered [true]. *)
Definition gave_vote (s : Status) : Prop :=
  match s with
  | Sent => False
  | Replied response | Finished response => rvr_VoteGranted response = true
  end.

(** The vote was given and the caller has seen it. *)
Definition counted (s : Status) : Prop :=
  match s with Finished response => rvr_VoteGranted response = true | _ => False end.
#[export] Instance counted_dec s : Decision (counted s).
Proof. destruct s; simpl; apply _. Defined.

(** [c_votes] is the variable [grantedVotes] of each election, by candidate and
    term. *)
Record Cluster {C : Type} := mkCluster {
  c_nodes : gmap Z (Raft C);
  c_calls : list Call;
  c_votes : gmap (Z * Z) Z
}.
Arguments Cluster : clear implicits.

Section cluster.
Context {C : Type} `{Gob Z} `{Gob (list (Entry C))} `{Rand} `{Alloc}.
Implicit Types (rf : Raft C) (cs : Cluster C).

(** The goroutines a method started. *)
Definition spawned rf rf' : list (Action C) := drop (length (out rf)) (out rf').

(** The calls they make. *)
Definition vote_calls (i : Z) (actions : list (Action C)) : list Call :=
  omap (fun a => match a with
    | GoSendRequestVote p request => Some (mkCall i p request Sent true)
    | _ => None end) actions.

Inductive step cs : Cluster C -> Prop :=
  | step_timeout i rf request rf' :
      c_nodes cs !! i = Some rf ->
      ticker_election rf = Some (request, rf') ->
      step cs (mkCluster _ (<[i := rf']> (c_nodes cs))
                 (c_calls cs ++ vote_calls i (spawned rf rf'))
                 (<[(i, currentTerm rf') := 1]> (c_votes cs)))
  | step_deliver k c rf response rf' :
      c_calls cs !! k = Some c -> c_status c = Sent ->
      c_nodes cs !! c_to c = Some rf ->
      RequestVote (c_request c) rf = Some (response, rf') ->
      step cs (mkCluster _ (<[c_to c := rf']> (c_nodes cs))
                 (<[k := set_status (Replied response) c]> (c_calls cs)) (c_votes cs))
  | step_reply k c response g rf g' rf' :
      c_calls cs !! k = Some c -> c_status c = Replied response -> c_live c = true ->
      c_nodes cs !! c_from c = Some rf ->
      c_votes cs !! (c_from c, rv_Term (c_request c)) = Some g ->
      electionReply (c_request c) response g rf = Some (g', rf') ->
      step cs (mkCluster _ (<[c_from c := rf']> (c_nodes cs))
                 (<[k := set_status (Finished response) c]> (c_calls cs))
                 (<[(c_from c, rv_Term (c_request c)) := g']> (c_votes cs)))
  | step_local i rf ev rf' :
      c_nodes cs !! i = Some rf -> local ev -> run ev rf = Some rf' ->
      step cs (mkCluster _ (<[i := rf']> (c_nodes cs)) (c_calls cs) (c_votes cs))
  | step_restart i rf rf' :
      c_nodes cs !! i = Some rf ->
      Make (peers rf) (me rf) (persister rf) = Some rf' ->
      step cs (mkCluster _ (<[i := rf']> (c_nodes cs)) (killed_with i <$> c_calls cs) (c_votes cs)).

(** [n] peers, each made on an empty persister. *)
Definition initial (n : nat) cs : Prop :=
  c_calls cs = [] /\ c_votes cs = ∅ /\
  forall i rf, c_nodes cs !! i = Some rf ->
    0 <= i < Z.of_nat n /\ Make n i MakePersister = Some rf.

Definition reachable (n : nat) cs : Prop := exists cs0, initial n cs0 /\ rtc step cs0 cs.

(** ** What a vote is *)

(** Peer [p] gave its vote of term [T] to [i]: it answered so, or it is [i] and
    started an election. *)
Inductive voted cs (p T i : Z) : Prop :=
  | voted_call c : c ∈ c_calls cs -> c_key c = (i, T, p) -> gave_vote (c_status c) ->
      voted cs p T i
  | voted_self : p = i -> is_Some (c_votes cs !! (i, T)) -> voted cs p T i.

(** The calls whose votes the election of [i] in [T] has counted. *)
Definition counted_for (i T : Z) (c : Call) : Prop :=
  c_from c = i /\ rv_Term (c_request c) = T /\ counted (c_status c).

Record inv (n : nat) cs : Prop := {
  inv_node i rf : c_nodes cs !! i = Some rf ->
    me rf = i /\ peers rf = n /\ 0 <= i < Z.of_nat n /\ durable rf;
  inv_call c : c ∈ c_calls cs ->
    rv_CandidateId (c_request c) = c_from c /\ 0 <= c_to c < Z.of_nat n /\
    c_to c <> c_from c /\
    is_Some (c_votes cs !! (c_from c, rv_Term (c_request c)));
  inv_keys : NoDup (c_key <$> c_calls cs);
  inv_election i T g : c_votes cs !! (i, T) = Some g ->
    is_Some (c_nodes cs !! i) /\ g <= 1 + len (filter (counted_for i T) (c_calls cs));
  inv_voted p T i rf : voted cs p T i -> c_nodes cs !! p = Some rf ->
    T <= currentTerm rf /\ (T = currentTerm rf -> votedFor rf = i);
  inv_callee p T i : voted cs p T i -> is_Some (c_nodes cs !! p);
  inv_once p T i j : voted cs p T i -> voted cs p T j -> i = j;
  inv_leader i rf : c_nodes cs !! i = Some rf -> state rf = StateLeader ->
    exists g, c_votes cs !! (i, currentTerm rf) = Some g /\ g > Z.of_nat n `quot` 2
}.

Lemma voted_candidate n cs p T i : inv n cs -> voted cs p T i -> 0 <= i < Z.of_nat n.
Proof.
  intros Hinv Hv.
  assert (is_Some (c_votes cs !! (i, T))) as [g Hg].
  { destruct Hv as [c Hc Hk _|_ Hs]; [|done].
    destruct (inv_call _ _ Hinv c Hc) as (_ & _ & _ & Hs). unfold c_key in Hk. by simplify_eq. }
  destruct (inv_election _ _ Hinv i T g Hg) as [[rf Hrf] _].
  by apply (inv_node _ _ Hinv i rf Hrf).
Qed.

(** A vote of the past constrains the peer after a monotone change. *)
Lemma voted_mono n cs p T i rf rf' :
  inv n cs -> voted cs p T i -> c_nodes cs !! p = Some rf -> vote_mono rf rf' ->
  T <= currentTerm rf' /\ (T = currentTerm rf' -> votedFor rf' = i).
Proof.
  intros Hinv Hv Hp [Hle Heq]. pose proof (voted_candidate _ _ _ _ _ Hinv Hv).
  destruct (inv_voted _ _ Hinv p T i rf Hv Hp) as [HT HTv]. split; [lia|].
  intros ->. destruct Heq; [lia|rewrite HTv in * by lia; congruence|rewrite HTv in * by lia; lia].
Qed.

(** One peer changes, and any new vote is the one it now holds. *)
Lemma inv_update n cs i rf rf' calls votes :
  let cs' := mkCluster _ (<[i := rf']> (c_nodes cs)) calls votes in
  inv n cs -> c_nodes cs !! i = Some rf ->
  vote_mono rf rf' -> same_identity rf rf' -> durable rf' ->
  (forall c, c ∈ calls ->
    rv_CandidateId (c_request c) = c_from c /\ 0 <= c_to c < Z.of_nat n /\ c_to c <> c_from c /\
    is_Some (votes !! (c_from c, rv_Term (c_request c)))) ->
  NoDup (c_key <$> calls) ->
  (forall j T g, votes !! (j, T) = Some g -> is_Some (c_nodes cs !! j) /\
     g <= 1 + len (filter (counted_for j T) calls)) ->
  (forall p T j, voted cs' p T j ->
     voted cs p T j \/ (p = i /\ T = currentTerm rf' /\ j = votedFor rf')) ->
  (forall j T g, c_votes cs !! (j, T) = Some g -> exists g', votes !! (j, T) = Some g' /\ g <= g') ->
  (state rf' = StateLeader ->
     exists g, votes !! (i, currentTerm rf') = Some g /\ g > Z.of_nat n `quot` 2) ->
  inv n cs'.
Proof.
  intros cs' Hinv Hi Hm [Hme Hpe] Hd Hcalls Hkeys Hel Hnew Hgrow Hlead.
  assert (Hvm : forall p T j rf1, voted cs' p T j -> c_nodes cs' !! p = Some rf1 ->
    T <= currentTerm rf1 /\ (T = currentTerm rf1 -> votedFor rf1 = j)).
  { intros p T j rf1 Hv Hp. cbn in Hp. apply lookup_insert_Some in Hp as [[<- <-]|[Hne Hp]].
    - destruct (Hnew _ _ _ Hv) as [Ho|(_ & -> & ->)]; [|lia]. by eapply voted_mono.
    - destruct (Hnew _ _ _ Hv) as [Ho|(-> & _)]; [|done]. by eapply inv_voted. }
  assert (Hcallee : forall p T j, voted cs' p T j -> is_Some (c_nodes cs' !! p)).
  { intros p T j Hv. cbn. apply lookup_insert_is_Some'.
    destruct (Hnew _ _ _ Hv) as [Ho|(-> & _)]; [|by left]. right. by eapply inv_callee. }
  split; cbn; [| |done| |exact Hvm|exact Hcallee| |].
  - intros j rfj [[<- <-]|[_ Hj]]%lookup_insert_Some; [|by apply (inv_node _ _ Hinv)].
    destruct (inv_node _ _ Hinv _ _ Hi) as (? & ? & ? & _). split_and!; congruence || lia || done.
  - exact Hcalls.
  - intros j T g Hg. destruct (Hel j T g Hg) as [Hs Hc]. split; [|exact Hc].
    apply lookup_insert_is_Some'. by right.
  - intros p T j k Hj Hk. destruct (Hnew _ _ _ Hj) as [Oj|(-> & -> & ->)].
    + destruct (Hnew _ _ _ Hk) as [Ok|(-> & -> & ->)]; [by eapply inv_once|].
      symmetry. eapply voted_mono; [exact Hinv|exact Oj|exact Hi|exact Hm|done].
    + eapply (Hvm i); [exact Hk|apply lookup_insert_eq|done].
  - intros j rfj [[<- <-]|[Hne Hj]]%lookup_insert_Some Hs; [by apply Hlead|].
    destruct (inv_leader _ _ Hinv j rfj Hj Hs) as (g & Hg & Hgt).
    destruct (Hgrow _ _ _ Hg) as (g' & Hg' & Hle). exists g'. split; [done|lia].
Qed.

(** ** Bookkeeping of the calls *)

Lemma keys_set_status (calls : list Call) k c s :
  calls !! k = Some c -> c_key <$> <[k := set_status s c]> calls = c_key <$> calls.
Proof.
  intros Hk. rewrite list_fmap_insert. apply list_insert_id. by rewrite list_lookup_fmap, Hk.
Qed.

Lemma elem_of_set_status (calls : list Call) k c s c' :
  calls !! k = Some c -> c' ∈ <[k := set_status s c]> calls ->
  (c' = set_status s c) \/ c' ∈ calls.
Proof.
  intros Hk [j Hj]%list_elem_of_lookup. destruct (decide (k = j)) as [->|Hne].
  - left. rewrite list_lookup_insert_eq in Hj by (by eapply lookup_lt_Some). congruence.
  - right. rewrite list_lookup_insert_ne in Hj by done. by apply list_elem_of_lookup_2 in Hj.
Qed.

(** A vote of the cluster in which one call has a new status. *)
Lemma voted_set_status cs k c s nodes votes p T i :
  c_calls cs !! k = Some c ->
  voted (mkCluster _ nodes (<[k := set_status s c]> (c_calls cs)) votes) p T i ->
  (forall key, is_Some (votes !! key) -> is_Some (c_votes cs !! key)) ->
  voted cs p T i \/ (c_key c = (i, T, p) /\ gave_vote s).
Proof.
  intros Hk Hv Hs. destruct Hv as [c' Hc' Hkey Hg| -> Hg]; cbn in *.
  - destruct (elem_of_set_status _ _ _ _ _ Hk Hc') as [->|Hin].
    + by right.
    + left. by eapply voted_call.
  - left. apply voted_self; auto.
Qed.

(** ** Every step keeps the invariant *)

Lemma step_local_inv n cs i rf ev rf' :
  inv n cs -> c_nodes cs !! i = Some rf -> local ev -> run ev rf = Some rf' ->
  inv n (mkCluster _ (<[i := rf']> (c_nodes cs)) (c_calls cs) (c_votes cs)).
Proof.
  intros Hinv Hi Hl Hrun. destruct (local_effect _ _ _ Hl Hrun) as [Hm Hid Hd Hlead].
  apply (inv_update n cs i rf); try done; try by apply Hinv.
  - apply Hd. by apply (inv_node _ _ Hinv i).
  - intros p T j Hv. left. destruct Hv as [c ? ? ?|? ?]; [by eapply voted_call|by apply voted_self].
  - eauto with lia.
  - intros Hs. destruct (Hlead Hs) as [Hs0 ->]. by eapply inv_leader.
Qed.

Lemma step_deliver_inv n cs k c rf response rf' :
  inv n cs -> c_calls cs !! k = Some c -> c_status c = Sent -> c_nodes cs !! c_to c = Some rf ->
  RequestVote (c_request c) rf = Some (response, rf') ->
  inv n (mkCluster _ (<[c_to c := rf']> (c_nodes cs))
           (<[k := set_status (Replied response) c]> (c_calls cs)) (c_votes cs)).
Proof.
  intros Hinv Hk Hst Hi Hrv. apply RequestVote_effect in Hrv as [[Hm Hid Hd Hlead] Hg].
  assert (Hc : c ∈ c_calls cs) by (by apply list_elem_of_lookup_2 in Hk).
  pose proof (inv_call _ _ Hinv c Hc) as Hcok.
  apply (inv_update n cs (c_to c) rf); try done; try by apply Hinv.
  - apply Hd. by apply (inv_node _ _ Hinv (c_to c)).
  - intros c' Hc'. destruct (elem_of_set_status _ _ _ _ _ Hk Hc') as [->|Hin]; [done|].
    by apply Hinv.
  - rewrite keys_set_status by done. apply Hinv.
  - intros j T g Hgr. destruct (inv_election _ _ Hinv j T g Hgr) as [Hs Hle]. split; [done|].
    pose proof (filter_insert_length (counted_for j T) _ _ _ (set_status (Replied response) c) Hk) as E.
    rewrite !decide_False in E by (unfold counted_for; cbn; rewrite ?Hst; cbn; tauto). lia.
  - intros p T j Hv. destruct (voted_set_status _ _ _ _ _ _ _ _ _ Hk Hv) as [|[Hkey Hgv]];
      [done|by left|]. right. cbn in Hgv. destruct (Hg Hgv) as (-> & -> & _).
    destruct Hcok as [-> _]. unfold c_key in Hkey. by simplify_eq.
  - eauto with lia.
  - intros Hs. destruct (Hlead Hs) as [Hs0 ->]. by eapply inv_leader.
Qed.

Lemma step_reply_inv n cs k c response g rf g' rf' :
  inv n cs -> c_calls cs !! k = Some c -> c_status c = Replied response ->
  c_nodes cs !! c_from c = Some rf ->
  c_votes cs !! (c_from c, rv_Term (c_request c)) = Some g ->
  electionReply (c_request c) response g rf = Some (g', rf') ->
  inv n (mkCluster _ (<[c_from c := rf']> (c_nodes cs))
           (<[k := set_status (Finished response) c]> (c_calls cs))
           (<[(c_from c, rv_Term (c_request c)) := g']> (c_votes cs))).
Proof.
  intros Hinv Hk Hst Hi Hg Hr. apply electionReply_effect in Hr as (Hm & Hid & Hd & Hg' & Hlead).
  assert (Hc : c ∈ c_calls cs) by (by apply list_elem_of_lookup_2 in Hk).
  pose proof (inv_call _ _ Hinv c Hc) as Hcok.
  destruct (inv_node _ _ Hinv _ _ Hi) as (Hme & Hpe & _ & Hdur).
  apply (inv_update n cs (c_from c) rf); try done; auto.
  - intros c' Hc'. rewrite lookup_insert_is_Some'.
    destruct (elem_of_set_status _ _ _ _ _ Hk Hc') as [->|Hin]; cbn; [by intuition auto|].
    apply (inv_call _ _ Hinv) in Hin. intuition auto.
  - rewrite keys_set_status by done. apply Hinv.
  - intros j T h Hh.
    pose proof (filter_insert_length (counted_for j T) _ _ _ (set_status (Finished response) c) Hk) as E.
    rewrite (decide_False (P := counted_for j T c)) in E
      by (unfold counted_for; rewrite Hst; cbn; tauto).
    apply lookup_insert_Some in Hh as [[[= <- <-] <-]|[_ Hh]].
    + destruct (inv_election _ _ Hinv _ _ _ Hg) as [Hs Hle]. split; [done|].
      destruct Hg' as [->|[-> Hgv]]; [lia|]. rewrite decide_True in E by done. lia.
    + destruct (inv_election _ _ Hinv _ _ _ Hh) as [Hs Hle]. split; [done|]. lia.
  - intros p T j Hv. left. destruct (voted_set_status _ _ _ _ _ _ _ _ _ Hk Hv) as [|[Hkey Hgv]].
    + intros key. rewrite lookup_insert_is_Some'. intros [<-|?]; [by eexists|done].
    + done.
    + eapply voted_call; [exact Hc|exact Hkey|]. by rewrite Hst.
  - intros j T h Hh. destruct (decide ((c_from c, rv_Term (c_request c)) = (j, T))) as [E|E].
    + rewrite <-E in Hh |- *. rewrite lookup_insert_eq. exists g'. split; [done|].
      assert (h = g) by congruence. destruct Hg' as [?|[? _]]; lia.
    + rewrite lookup_insert_ne by done. eauto with lia.
  - intros Hs. destruct (Hlead Hs) as [[Hs0 ->]|[-> Hgt]].
    + destruct (inv_leader _ _ Hinv _ _ Hi Hs0) as (h & Hh & Hgt).
      destruct (decide (rv_Term (c_request c) = currentTerm rf)) as [E|E].
      * rewrite E in *. rewrite lookup_insert_eq. exists g'. split; [done|].
        assert (h = g) by congruence. destruct Hg' as [?|[? _]]; lia.
      * rewrite lookup_insert_ne by congruence. eauto.
    + rewrite lookup_insert_eq. exists g'. split; [done|]. by rewrite <-Hpe.
Qed.

Lemma filter_fmap_length {A} (P : A -> Prop) `{!forall x, Decision (P x)} (f : A -> A) (l : list A) :
  (forall x, P (f x) <-> P x) -> length (filter P (f <$> l)) = length (filter P l).
Proof.
  intros Hf. induction l as [|x l IH]; [done|]. cbn [fmap list_fmap]. rewrite !filter_cons.
  specialize (Hf x). repeat case_decide; simpl; tauto || congruence.
Qed.

Lemma killed_with_fields i c :
  c_key (killed_with i c) = c_key c /\ c_status (killed_with i c) = c_status c /\
  c_request (killed_with i c) = c_request c.
Proof. unfold killed_with. by case_decide. Qed.

Context `{!GobLaws Z} `{!GobLaws (list (Entry C))}.

Lemma step_restart_inv n cs i rf rf' :
  inv n cs -> c_nodes cs !! i = Some rf -> Make (peers rf) (me rf) (persister rf) = Some rf' ->
  inv n (mkCluster _ (<[i := rf']> (c_nodes cs)) (killed_with i <$> c_calls cs) (c_votes cs)).
Proof.
  intros Hinv Hi Hmk. destruct (inv_node _ _ Hinv _ _ Hi) as (_ & _ & _ & Hdur).
  apply Make_effect in Hmk as [Ht Hv Hs Hid Hd]; [|done].
  assert (Hfk : forall c, c_from (killed_with i c) = c_from c /\ c_to (killed_with i c) = c_to c).
  { intros c. unfold killed_with. by case_decide. }
  apply (inv_update n cs i rf); try done.
  - by apply vote_mono_refl.
  - intros c' (c & -> & Hc)%list_elem_of_fmap. destruct (killed_with_fields i c) as (_ & _ & ->).
    destruct (Hfk c) as [-> ->]. by apply Hinv.
  - rewrite <-list_fmap_compose. rewrite (list_fmap_ext _ c_key); [apply Hinv|].
    intros _ c _. cbn. apply killed_with_fields.
  - intros j T g Hg. rewrite filter_fmap_length; [by apply Hinv|].
    intros c. unfold counted_for. destruct (killed_with_fields i c) as (_ & -> & ->).
    by destruct (Hfk c) as [-> _].
  - intros p T j Hvt. left. destruct Hvt as [c' Hc' Hk Hg|? ?]; [|by apply voted_self]. cbn in Hc'.
    apply list_elem_of_fmap in Hc' as (c & -> & Hc).
    destruct (killed_with_fields i c) as (Ek & Es & _). rewrite Ek in Hk. rewrite Es in Hg.
    by eapply voted_call.
  - eauto with lia.
  - by rewrite Hs.
Qed.

Lemma vote_calls_started i (ps : list Z) request :
  vote_calls i ((fun p => GoSendRequestVote p request) <$> ps) =
  (fun p => mkCall i p request Sent true) <$> ps.
Proof.
  unfold vote_calls. induction ps as [|p ps IH]; [done|].
  rewrite !fmap_cons. cbn [omap list_omap]. by rewrite IH.
Qed.

Lemma other_peers_spec rf : NoDup (other_peers rf) /\
  forall p, p ∈ other_peers rf -> p <> me rf /\ 0 <= p < Z.of_nat (peers rf).
Proof.
  unfold other_peers. split.
  - apply NoDup_filter, NoDup_fmap_2; [apply _|apply NoDup_seq].
  - intros p [Hne Hp]%list_elem_of_filter. split; [done|].
    apply list_elem_of_fmap in Hp as (k & -> & Hk%elem_of_seq). lia.
Qed.

(** A peer has started no election above its term. *)
Lemma election_term n cs i rf T :
  inv n cs -> c_nodes cs !! i = Some rf -> is_Some (c_votes cs !! (i, T)) -> T <= currentTerm rf.
Proof.
  intros Hinv Hi Hs. destruct (inv_voted _ _ Hinv i T i rf) as [? _]; [by apply voted_self|done|lia].
Qed.

Lemma step_timeout_inv n cs i rf request rf' :
  inv n cs -> c_nodes cs !! i = Some rf ->
  ticker_election rf = Some (request, rf') ->
  inv n (mkCluster _ (<[i := rf']> (c_nodes cs)) (c_calls cs ++ vote_calls i (spawned rf rf'))
           (<[(i, currentTerm rf') := 1]> (c_votes cs))).
Proof.
  intros Hinv Hi Hrun. apply ticker_election_effect in Hrun as [Ht Hv Hs Hid Hd [Hrt Hrc] Ho].
  cbn in *. unfold spawned. rewrite Ho, drop_app_length, vote_calls_started. clear Ho.
  destruct (inv_node _ _ Hinv _ _ Hi) as (Hme & Hpe & Hrange & _).
  destruct (other_peers_spec rf) as [Hnd Hps]. cbn in Hps.
  set (news := (fun p => mkCall i p request Sent true) <$> other_peers rf).
  assert (Hnews : forall c, c ∈ news -> c_from c = i /\ c_request c = request /\
    c_status c = Sent /\ c_to c <> i /\ 0 <= c_to c < Z.of_nat n).
  { intros c (p & -> & Hp)%list_elem_of_fmap. cbn. destruct (Hps p Hp). by rewrite <-Hme, <-Hpe. }
  assert (Hfresh : forall T, is_Some (c_votes cs !! (i, T)) -> T < currentTerm rf').
  { intros T HT. apply (election_term _ _ _ _ _ Hinv Hi) in HT. lia. }
  apply (inv_update n cs i rf); try done.
  - split; lia.
  - intros c [Hc|Hc]%elem_of_app; rewrite lookup_insert_is_Some'.
    + apply (inv_call _ _ Hinv) in Hc. intuition auto.
    + destruct (Hnews c Hc) as (-> & -> & _ & ? & ?). split_and!; [congruence|lia|lia|done|].
      left. congruence.
  - rewrite fmap_app. apply NoDup_app. split_and!; [apply Hinv| |].
    + intros k (c & -> & Hc)%list_elem_of_fmap (c' & E & Hc')%list_elem_of_fmap.
      destruct (Hnews c' Hc') as (Hf & Hr & _). unfold c_key in E.
      injection E as Ef Et _. apply (inv_call _ _ Hinv) in Hc as (_ & _ & _ & Hc).
      rewrite Ef, Hf in Hc. apply Hfresh in Hc. rewrite Et, Hr in Hc. lia.
    + unfold news. rewrite <-list_fmap_compose. apply NoDup_fmap_2_strong; [|done].
      intros x y _ _ [= ->]. done.
  - intros j T g. rewrite filter_app, length_app. intros [[[= <- <-] <-]|[_ Hg]]%lookup_insert_Some.
    + split; [done|]. lia.
    + destruct (inv_election _ _ Hinv _ _ _ Hg). split; [done|lia].
  - intros p T j [c Hc Hk Hg| -> Hsv]; cbn in *.
    + left. apply elem_of_app in Hc as [Hc|Hc]; [by eapply voted_call|].
      destruct (Hnews c Hc) as (_ & _ & Hst & _). by rewrite Hst in Hg.
    + rewrite lookup_insert_is_Some' in Hsv. destruct Hsv as [[= <- <-]|Hsv].
      * right. split_and!; congruence.
      * left. by apply voted_self.
  - intros j T g Hg. rewrite lookup_insert_ne; [eauto with lia|].
    intros [= <- <-]. assert (currentTerm rf' < currentTerm rf') by (apply Hfresh; eauto). lia.
  - by rewrite Hs.
Qed.

Lemma step_inv n cs cs' : inv n cs -> step cs cs' -> inv n cs'.
Proof.
  intros Hinv []; eauto using step_timeout_inv, step_deliver_inv, step_reply_inv, step_local_inv,
    step_restart_inv.
Qed.

(** Vote counters never decrease. *)
Lemma step_votes n cs cs' j T g : inv n cs -> step cs cs' -> c_votes cs !! (j, T) = Some g ->
  exists g', c_votes cs' !! (j, T) = Some g' /\ g <= g'.
Proof.
  intros Hinv Hstep Hg.
  destruct Hstep as [i rf request rf' Hi Hrun| |k c response g0 rf g0' rf' Hk Hst Hl Hi Hg0 Hr| |];
    cbn; eauto with lia.
  - apply ticker_election_effect in Hrun as [Ht _ _ _ _ _ _]. cbn in Ht.
    rewrite lookup_insert_ne; [eauto with lia|]. intros [= <- <-].
    pose proof (election_term n cs i rf _ Hinv Hi ltac:(by eexists)). lia.
  - apply electionReply_effect in Hr as (_ & _ & _ & Hg' & _).
    destruct (decide ((c_from c, rv_Term (c_request c)) = (j, T))) as [E|E].
    + rewrite <-E in *. rewrite lookup_insert_eq. exists g0'. split; [done|].
      assert (g = g0) by congruence. destruct Hg' as [?|[? _]]; lia.
    + rewrite lookup_insert_ne by done. eauto with lia.
Qed.

Lemma initial_inv n cs : initial n cs -> inv n cs.
Proof.
  intros (Hc & Hv & Hn).
  assert (Hnone : forall p T i, ~ voted cs p T i).
  { intros p T i [c Hin _ _|_ [g Hg]].
    - rewrite Hc in Hin. by apply not_elem_of_nil in Hin.
    - by rewrite Hv in Hg. }
  assert (Hmk : forall i rf, c_nodes cs !! i = Some rf ->
    me rf = i /\ peers rf = n /\ durable rf /\ state rf = StateFollower).
  { intros i rf [_ Hm]%Hn.
    set (rf0 := mkRaft (C := C) n MakePersister i false StateFollower 0 (-1) [zeroEntry] 0 0 [] []
                  Stopped Stopped 0 []).
    destruct (Make_effect rf0 rf) as [Ht Hvt Hs [Hme Hpe] Hd]; [by right|done|done]. }
  split.
  - intros i rf Hi. destruct (Hmk i rf Hi) as (? & ? & ? & ?). split_and!; try done; by apply (Hn i rf).
  - intros c Hin. rewrite Hc in Hin. by apply not_elem_of_nil in Hin.
  - rewrite Hc. constructor.
  - intros i T g Hg. by rewrite Hv in Hg.
  - intros p T i rf Hvt. by apply Hnone in Hvt.
  - intros p T i Hvt. by apply Hnone in Hvt.
  - intros p T i j Hvt. by apply Hnone in Hvt.
  - intros i rf Hi Hs. destruct (Hmk i rf Hi) as (_ & _ & _ & Hf). congruence.
Qed.

Lemma steps_inv n cs cs' : inv n cs -> rtc step cs cs' -> inv n cs'.
Proof. intros Hinv Hr. induction Hr; eauto using step_inv. Qed.

Lemma reachable_inv n cs : reachable n cs -> inv n cs.
Proof. intros (cs0 & Hi & Hr). eapply steps_inv; [by apply initial_inv|done]. Qed.

(** ** Majorities *)

(** [i] has the votes of a majority in term [T]. *)
Definition has_majority (n : nat) cs (i T : Z) : Prop :=
  exists g, c_votes cs !! (i, T) = Some g /\ g > Z.of_nat n `quot` 2.

(** The candidate and the peers whose votes it counted. *)
Definition voters cs (i T : Z) : list Z := i :: (c_to <$> filter (counted_for i T) (c_calls cs)).

Lemma voters_spec n cs i T : inv n cs -> has_majority n cs i T ->
  NoDup (voters cs i T) /\ Z.of_nat n `quot` 2 < len (voters cs i T) /\
  forall p, p ∈ voters cs i T -> voted cs p T i /\ 0 <= p < Z.of_nat n.
Proof.
  intros Hinv (g & Hg & Hgt).
  destruct (inv_election _ _ Hinv _ _ _ Hg) as [[rf Hrf] Hle].
  assert (Hself : voted cs i T i) by (apply voted_self; [done|by eexists]).
  assert (Hin : forall c, c ∈ filter (counted_for i T) (c_calls cs) ->
    counted_for i T c /\ c ∈ c_calls cs) by (intros c; apply list_elem_of_filter).
  unfold voters. split_and!.
  - apply NoDup_cons. split.
    + intros (c & E & [[Hf _] Hc]%Hin)%list_elem_of_fmap.
      apply (inv_call _ _ Hinv) in Hc as (_ & _ & Hne & _). congruence.
    + apply (NoDup_fmap_1 (fun p => (i, T, p))). rewrite <-list_fmap_compose.
      rewrite (list_fmap_ext _ c_key).
      * eapply sublist_NoDup; [apply (inv_keys _ _ Hinv)|]. apply fmap_sublist, sublist_filter.
      * intros k c Hk. apply list_elem_of_lookup_2 in Hk. apply Hin in Hk as [(<- & <- & _) _]. done.
  - simpl. rewrite length_fmap. lia.
  - intros p [->|(c & -> & [(Hf & HT & Hcnt) Hc]%Hin)%list_elem_of_fmap]%elem_of_cons.
    + split; [done|]. by apply (inv_node _ _ Hinv i rf).
    + split; [|by apply (inv_call _ _ Hinv c Hc)].
      eapply voted_call; [exact Hc|unfold c_key; congruence|].
      by destruct (c_status c).
Qed.

Lemma majority_once n cs i j T :
  inv n cs -> has_majority n cs i T -> has_majority n cs j T -> i = j.
Proof.
  intros Hinv Hi Hj.
  destruct (voters_spec _ _ _ _ Hinv Hi) as (Hn1 & Hl1 & Hv1).
  destruct (voters_spec _ _ _ _ Hinv Hj) as (Hn2 & Hl2 & Hv2).
  destruct (majorities_meet n (voters cs i T) (voters cs j T)) as (p & H1p & H2p); try done.
  - intros x Hx. by apply Hv1.
  - intros x Hx. by apply Hv2.
  - eapply inv_once; [exact Hinv|apply Hv1, H1p|apply Hv2, H2p].
Qed.

Lemma majority_steps n cs cs' i T :
  inv n cs -> rtc step cs cs' -> has_majority n cs i T -> has_majority n cs' i T.
Proof.
  intros Hinv Hr. induction Hr as [|cs1 cs2 cs3 Hs _ IH]; [done|].
  intros (g & Hg & Hgt). apply IH; [by eapply step_inv|].
  destruct (step_votes n _ _ _ _ _ Hinv Hs Hg) as (g' & Hg' & Hle). exists g'. split; [done|lia].
Qed.

(** Peer [i] is leader of term [T]. *)
Definition is_leader cs (i T : Z) : Prop :=
  exists rf, c_nodes cs !! i = Some rf /\ GetState rf = (T, true).

Lemma leader_majority n cs i T : inv n cs -> is_leader cs i T -> has_majority n cs i T.
Proof.
  intros Hinv (rf & Hi & Hs). injection Hs as <- Hs%bool_decide_eq_true.
  by eapply inv_leader.
Qed.
End cluster.

(** C5: election safety. In any execution of a cluster of [n] peers, with RequestVote calls
    and replies that are lost, delayed and reordered but delivered at most once each (which
    [labrpc] guarantees), with all other methods of the peers called with any arguments,
    snapshots included, and with crashes and restarts, if a peer is leader of a term and
    some peer is leader of the same term then or later, they are the same peer. *)
Theorem election_safety {C} `{Gob Z} `{Gob (list (Entry C))} `{Rand} `{Alloc}
  `{!GobLaws Z} `{!GobLaws (list (Entry C))} n (cs cs' : Cluster C) i j T :
  reachable n cs -> rtc step cs cs' -> is_leader cs i T -> is_leader cs' j T -> i = j.
Proof.
  intros Hr%reachable_inv Hs Hi Hj. pose proof (steps_inv _ _ _ Hr Hs) as Hr'.
  eapply majority_once; [exact Hr'| |by apply leader_majority].
  eapply majority_steps; [exact Hr|exact Hs|]. by apply leader_majority.
Qed.

(** ** A run that elects a leader *)
Import Example3.
Module Example_election.

Definition node (i : Z) : Raft string :=
  force follower (Make 3 i MakePersister).
Definition cs0 : Cluster string :=
  mkCluster _ {[0 := node 0; 1 := node 1; 2 := node 2]} [] ∅.

(** Peer 0 times out, peer 1 grants its vote, peer 0 counts it. *)
Definition timed_out := force (mkRequestVoteRequest 0 0 0 0, follower) (ticker_election (node 0)).
Definition cs1 : Cluster string :=
  mkCluster _ (<[0 := snd timed_out]> (c_nodes cs0))
    (c_calls cs0 ++ vote_calls 0 (spawned (node 0) (snd timed_out)))
    (<[(0, currentTerm (snd timed_out)) := 1]> (c_votes cs0)).
Definition call01 : Call := mkCall 0 1 (fst timed_out) Sent true.
Definition answered :=
  force (mkRequestVoteResponse 0 false, follower) (RequestVote (fst timed_out) (node 1)).
Definition cs2 : Cluster string :=
  mkCluster _ (<[1 := snd answered]> (c_nodes cs1))
    (<[0%nat := set_status (Replied (fst answered)) call01]> (c_calls cs1)) (c_votes cs1).
Definition won := force (0, follower) (electionReply (fst timed_out) (fst answered) 1 (snd timed_out)).
Definition cs3 : Cluster string :=
  mkCluster _ (<[0 := snd won]> (c_nodes cs2))
    (<[0%nat := set_status (Finished (fst answered)) (set_status (Replied (fst answered)) call01)]>
       (c_calls cs2))
    (<[(0, 1) := fst won]> (c_votes cs2)).

Lemma cs0_initial : initial 3 cs0.
Proof.
  split_and!; [done|done|]. intros i rf Hi. cbn in Hi.
  repeat (apply lookup_insert_Some in Hi as [[<- <-]|[_ Hi]];
    [split; [lia|vm_compute; reflexivity]|]).
  apply lookup_singleton_Some in Hi as [<- <-]. split; [lia|vm_compute; reflexivity].
Qed.

Lemma cs3_reachable : reachable 3 cs3.
Proof.
  exists cs0. split; [apply cs0_initial|].
  eapply rtc_l; [|eapply rtc_l; [|eapply rtc_l; [|apply rtc_refl]]].
  - apply (step_timeout cs0 0 (node 0) (fst timed_out) (snd timed_out)); vm_compute; reflexivity.
  - apply (step_deliver cs1 0 call01 (node 1) (fst answered) (snd answered)); vm_compute; reflexivity.
  - apply (step_reply cs2 0 (set_status (Replied (fst answered)) call01) (fst answered) 1
             (snd timed_out) (fst won) (snd won)); vm_compute; reflexivity.
Qed.

Lemma cs3_leader : is_leader cs3 0 1.
Proof. exists (snd won). split; vm_compute; reflexivity. Qed.
End Example_election.

Lemma election_safety_witness : is_leader Example_election.cs3 0 1 /\ 0 = 0.
Proof.
  split; [apply Example_election.cs3_leader|].
  apply (election_safety 3 Example_election.cs3 Example_election.cs3 0 0 1).
  - apply Example_election.cs3_reachable.
  - apply rtc_refl.
  - apply Example_election.cs3_leader.
  - apply Example_election.cs3_leader.
Defined.
