(* ===== verification/RaftSystem.v ===== *)
(** * A cluster of Raft peers that replicates a log

    [System] extends the cluster of [RaftElection] with the [AppendEntries] and
    [InstallSnapshot] calls and with what each peer's [applier] has sent on its
    [applyCh], ever ([s_applied]) and since it was last started ([s_sent]). A step runs
    one critical section of one peer: those of elections as before, but only when the
    election timer has sent its tick, a round of [replicateOneRound] that the peer has
    started ([out]), the handlers of requests and responses, [Start], the two halves
    of [applier], a timer that runs out, a tick that is received, a restart.
    [AppendEntries] and [InstallSnapshot] requests and responses are never removed, so
    they may be lost, delayed, reordered and duplicated at will; [RequestVote] calls and
    replies are delivered at most once each, as in [RaftElection]. Peers do not compact
    their logs: neither [Snapshot] nor [CondInstallSnapshot] is a step. *)
From Stdlib Require Import Strings.Byte.
From S2P Require Import Prelude Labgob Persister RaftTypes RaftNode RaftLog RaftSpec RaftReplication RaftLeader RaftSnapshot RaftInv RaftVotes RaftElection.

(** A call of [from] to [to]. *)
Record Sent_ {A : Type} := mkSent { s_from : Z; s_to : Z; s_msg : A }.
Arguments Sent_ : clear implicits.
Arguments mkSent {A}.

Record System {C : Type} := mkSystem {
  s_cluster : Cluster C;
  s_requests : list (Sent_ (AppendEntriesRequest C));
  s_responses : list (Sent_ (AppendEntriesRequest C * AppendEntriesResponse));
  s_installs : list (Sent_ InstallSnapshotRequest);
  s_installed : list (Sent_ (InstallSnapshotRequest * InstallSnapshotResponse));
  s_taken : gmap Z (list (Entry C) * Z);
  s_applied : list (Z * Entry C);
  s_sent : gmap Z (list (Entry C))
}.
Arguments System : clear implicits.

Section system.
Context {C : Type} `{Gob Z} `{Gob (list (Entry C))} `{Rand} `{Alloc}.
Implicit Types (rf : Raft C) (s : System C) (l : list (Entry C)).

Definition set_cluster cl s : System C :=
  mkSystem _ cl (s_requests s) (s_responses s) (s_installs s) (s_installed s) (s_taken s) (s_applied s) (s_sent s).
(** Peer [i] is in state [rf]. *)
Definition set_node (i : Z) rf s : System C :=
  set_cluster (mkCluster _ (<[i := rf]> (c_nodes (s_cluster s))) (c_calls (s_cluster s))
                 (c_votes (s_cluster s))) s.
(** What peer [i] has sent on [applyCh] since it was last started. *)
Definition sent s (i : Z) : list (Entry C) := default [] (s_sent s !! i).
Definition node s (i : Z) : option (Raft C) := c_nodes (s_cluster s) !! i.

(** Steps of a peer that change neither log, term, role nor progress: its timers run out,
    [ticker] receives a tick of the heartbeat timer, a [replicator] looks for work, the
    peer is killed. *)
Definition quiet (ev : Event C) rf : Prop :=
  match ev with
  | EvHeartbeatTimeout => ticked (heartbeatTimer rf) = true
  | EvElectionExpire | EvHeartbeatExpire | EvNeedReplicating _ | EvKill => True
  | _ => False
  end.

Definition add_replication (i peer : Z) (r : Replication C) s : System C :=
  match r with
  | NoRequest => s
  | SendAppendEntries q =>
      mkSystem _ (s_cluster s) (s_requests s ++ [mkSent i peer q]) (s_responses s) (s_installs s)
        (s_installed s) (s_taken s) (s_applied s) (s_sent s)
  | SendInstallSnapshot q =>
      mkSystem _ (s_cluster s) (s_requests s) (s_responses s) (s_installs s ++ [mkSent i peer q])
        (s_installed s) (s_taken s) (s_applied s) (s_sent s)
  end.
Definition add_response (m : Sent_ (AppendEntriesRequest C)) (resp : AppendEntriesResponse) s : System C :=
  mkSystem _ (s_cluster s) (s_requests s) (s_responses s ++ [mkSent (s_from m) (s_to m) (s_msg m, resp)])
    (s_installs s) (s_installed s) (s_taken s) (s_applied s) (s_sent s).
Definition add_installed (m : Sent_ InstallSnapshotRequest) (resp : InstallSnapshotResponse) s : System C :=
  mkSystem _ (s_cluster s) (s_requests s) (s_responses s) (s_installs s)
    (s_installed s ++ [mkSent (s_from m) (s_to m) (s_msg m, resp)]) (s_taken s) (s_applied s) (s_sent s).
Definition set_taken (t : gmap Z (list (Entry C) * Z)) s : System C :=
  mkSystem _ (s_cluster s) (s_requests s) (s_responses s) (s_installs s) (s_installed s) t (s_applied s) (s_sent s).
Definition add_applied (i : Z) (e : Entry C) s : System C :=
  mkSystem _ (s_cluster s) (s_requests s) (s_responses s) (s_installs s) (s_installed s)
    (s_taken s) (s_applied s ++ [(i, e)]) (<[i := sent s i ++ [e]]> (s_sent s)).
(** Peer [i] starts again: its [applyCh] and its [applier] are new. *)
Definition forget (i : Z) s : System C :=
  mkSystem _ (s_cluster s) (s_requests s) (s_responses s) (s_installs s) (s_installed s)
    (delete i (s_taken s)) (s_applied s) (delete i (s_sent s)).

Inductive sys_step s : System C -> Prop :=
  | sys_timeout i rf request rf' :
      node s i = Some rf -> ticked (electionTimer rf) = true ->
      ticker_election rf = Some (request, rf') ->
      sys_step s (set_cluster (mkCluster _ (<[i := rf']> (c_nodes (s_cluster s)))
        (c_calls (s_cluster s) ++ vote_calls i (spawned rf rf'))
        (<[(i, currentTerm rf') := 1]> (c_votes (s_cluster s)))) s)
  | sys_vote k c rf response rf' :
      c_calls (s_cluster s) !! k = Some c -> c_status c = Sent ->
      node s (c_to c) = Some rf -> RequestVote (c_request c) rf = Some (response, rf') ->
      sys_step s (set_cluster (mkCluster _ (<[c_to c := rf']> (c_nodes (s_cluster s)))
        (<[k := set_status (Replied response) c]> (c_calls (s_cluster s)))
        (c_votes (s_cluster s))) s)
  | sys_vote_reply k c response g rf g' rf' :
      c_calls (s_cluster s) !! k = Some c -> c_status c = Replied response -> c_live c = true ->
      node s (c_from c) = Some rf ->
      c_votes (s_cluster s) !! (c_from c, rv_Term (c_request c)) = Some g ->
      electionReply (c_request c) response g rf = Some (g', rf') ->
      sys_step s (set_cluster (mkCluster _ (<[c_from c := rf']> (c_nodes (s_cluster s)))
        (<[k := set_status (Finished response) c]> (c_calls (s_cluster s)))
        (<[(c_from c, rv_Term (c_request c)) := g']> (c_votes (s_cluster s)))) s)
  | sys_restart i rf rf' :
      node s i = Some rf -> Make (peers rf) (me rf) (persister rf) = Some rf' ->
      sys_step s (forget i
        (set_cluster (mkCluster _ (<[i := rf']> (c_nodes (s_cluster s)))
           (killed_with i <$> c_calls (s_cluster s)) (c_votes (s_cluster s))) s))
  | sys_replicate i peer rf r rf' :
      node s i = Some rf -> 0 <= peer < Z.of_nat (peers rf) -> peer <> i ->
      GoReplicateOneRound peer ∈ out rf -> goReplicateOneRound peer rf = Some (r, rf') ->
      sys_step s (add_replication i peer r (set_node i rf' s))
  | sys_append m rf resp rf' :
      m ∈ s_requests s -> node s (s_to m) = Some rf ->
      AppendEntries (s_msg m) rf = Some (resp, rf') ->
      sys_step s (add_response m resp (set_node (s_to m) rf' s))
  | sys_append_reply m rf rf' :
      m ∈ s_responses s -> node s (s_from m) = Some rf ->
      handleAppendEntriesResponse (s_to m) (fst (s_msg m)) (snd (s_msg m)) rf = Some (tt, rf') ->
      sys_step s (set_node (s_from m) rf' s)
  | sys_install m rf resp rf' :
      m ∈ s_installs s -> node s (s_to m) = Some rf ->
      InstallSnapshot (s_msg m) rf = Some (resp, rf') ->
      sys_step s (add_installed m resp (set_node (s_to m) rf' s))
  | sys_install_reply m rf rf' :
      m ∈ s_installed s -> node s (s_from m) = Some rf ->
      handleInstallSnapshotResponse (s_to m) (fst (s_msg m)) (snd (s_msg m)) rf = Some (tt, rf') ->
      sys_step s (set_node (s_from m) rf' s)
  | sys_start i command rf r rf' :
      node s i = Some rf -> Start command rf = Some (r, rf') -> sys_step s (set_node i rf' s)
  | sys_quiet i ev rf rf' :
      node s i = Some rf -> quiet ev rf -> ok ev rf -> run ev rf = Some rf' ->
      sys_step s (set_node i rf' s)
  | sys_take i rf entries commit rf' :
      node s i = Some rf -> s_taken s !! i = None ->
      applier_take rf = Some (Some (entries, commit), rf') ->
      sys_step s (set_taken (<[i := (entries, commit)]> (s_taken s)) (set_node i rf' s))
  | sys_send i e entries commit :
      s_taken s !! i = Some (e :: entries, commit) ->
      sys_step s (add_applied i e (set_taken (<[i := (entries, commit)]> (s_taken s)) s))
  | sys_done i commit rf rf' :
      s_taken s !! i = Some ([], commit) -> node s i = Some rf ->
      applier_done commit rf = Some (tt, rf') ->
      sys_step s (set_taken (delete i (s_taken s)) (set_node i rf' s)).

Definition sys_initial (n : nat) s : Prop :=
  initial n (s_cluster s) /\ s_requests s = [] /\ s_responses s = [] /\ s_installs s = [] /\
  s_installed s = [] /\ s_taken s = ∅ /\ s_applied s = [] /\ s_sent s = ∅.

Definition sys_reachable (n : nat) s : Prop := exists s0, sys_initial n s0 /\ rtc sys_step s0 s.

(** Every step is one of [RaftElection] or leaves the cluster as it is. *)
Lemma sys_step_election s s' : sys_step s s' ->
  RaftElection.step (s_cluster s) (s_cluster s') \/ s_cluster s' = s_cluster s.
Proof.
  assert (forall i rf rf' ev, node s i = Some rf -> local ev -> run ev rf = Some rf' ->
    RaftElection.step (s_cluster s) (s_cluster (set_node i rf' s))) as Hl by (intros; by eapply step_local).
  destruct 1 as [| | | |i p rf r rf' Hi Hp Hne _ Hr|m rf resp rf' _ Hi Hr|m rf rf' _ Hi Hr|m rf resp rf' _ Hi Hr
    |m rf rf' _ Hi Hr|i c rf r rf' Hi Hr|i ev rf rf' Hi Hq _ Hr|i rf es c rf' Hi _ Hr|i e es c Ht|i c rf rf' _ Hi Hr].
  - left. by eapply step_timeout.
  - left. by eapply step_deliver.
  - left. by eapply step_reply.
  - left. by eapply step_restart.
  - left. assert (s_cluster (add_replication i p r (set_node i rf' s)) = s_cluster (set_node i rf' s)) as ->
      by (by destruct r). apply (Hl i rf rf' (EvReplicate p)); [done..|]. unfold run, after; by rewrite Hr.
  - left. apply (Hl (s_to m) rf rf' (EvAppendEntries (s_msg m))); [done..|]. unfold run, after; by rewrite Hr.
  - left. eapply (Hl (s_from m) rf rf' (EvAppendReply _ _ _)); [done..|]. unfold run, after; by rewrite Hr.
  - left. apply (Hl (s_to m) rf rf' (EvInstallSnapshot (s_msg m))); [done..|]. unfold run, after; by rewrite Hr.
  - left. eapply (Hl (s_from m) rf rf' (EvSnapshotReply _ _ _)); [done..|]. unfold run, after; by rewrite Hr.
  - left. apply (Hl i rf rf' (EvStart c)); [done..|]. unfold run, after; by rewrite Hr.
  - left. apply (Hl i rf rf' ev); [done|by destruct ev|done].
  - left. apply (Hl i rf rf' EvApplierTake); [done..|]. unfold run, after; by rewrite Hr.
  - by right.
  - left. apply (Hl i rf rf' (EvApplierDone c)); [done..|]. unfold run, after; by rewrite Hr.
Qed.
End system.
