(* ===== verification/RaftHistory.v ===== *)
(** * The history of a cluster and leader completeness

    [History] is what the proof remembers of a run of a [System]: who led each term
    and with which log, the log of every voter when it voted, the prefixes every peer
    acknowledged. [sys_inv] is the invariant that ties it to the peers. From it alone
    follows leader completeness: a leader's log contains every entry committed in an
    earlier term ([leader_completeness]). *)
From Stdlib Require Import Strings.Byte.
From S2P Require Import Prelude Labgob Persister RaftTypes RaftNode RaftLog RaftSpec RaftReplication RaftLeader RaftSnapshot RaftInv RaftVotes RaftElection RaftSystem.

(** The leadership of a term: who won it, with which log and whose votes, and the
    log of the leader since. *)
Record Leadership {C : Type} := mkLead {
  ld_id : Z;
  ld_base : list (Entry C);
  ld_voters : list Z;
  ld_log : list (Entry C)
}.
Arguments Leadership : clear implicits.

(** [(p, T, l)] in [g_votes]: peer [p] voted in term [T] when its log was [l].
    [(p, T, m)] in [g_acks]: in term [T] the log of [p] agreed with that of the leader
    up to index [m]. *)
Record History {C : Type} := mkHistory {
  g_led : gmap Z (Leadership C);
  g_votes : list (Z * Z * list (Entry C));
  g_acks : list (Z * Z * nat)
}.
Arguments History : clear implicits.

Section history.
Context {C : Type} `{Gob Z} `{Gob (list (Entry C))} `{Rand} `{Alloc}.
Implicit Types (rf : Raft C) (s : System C) (l : list (Entry C)) (g : History C) (r : Leadership C).

(** A log that was never compacted: entry [k] is at position [k]. *)
Definition full l : Prop := wf_logs l /\ l !! 0%nat = Some zeroEntry.

(** Every entry was appended by the leader of its term, after the same entries. *)
Definition origin g l : Prop := forall k e, l !! k = Some e -> (0 < k)%nat ->
  exists r, g_led g !! e_Term e = Some r /\ take (S k) l `prefix_of` ld_log r.

(** The leader of [T] has the prefix [x], and so have the leaders elected between [T]
    and [T'] had it when they were elected. *)
Definition kept_between g (T T' : Z) (x : list (Entry C)) : Prop :=
  forall T3 r3, T < T3 <= T' -> g_led g !! T3 = Some r3 -> x `prefix_of` ld_base r3.

(** The entry at [k] of the leader of [T] is of its term and a majority
    acknowledged it. *)
Definition committed (n : nat) g (T : Z) (k : nat) : Prop :=
  exists r e, g_led g !! T = Some r /\ ld_log r !! k = Some e /\ e_Term e = T /\
  exists q, NoDup q /\ (forall p, p ∈ q -> 0 <= p < Z.of_nat n) /\ Z.of_nat n `quot` 2 < len q /\
    forall p, p ∈ q -> exists m, (k <= m)%nat /\ (p, T, m) ∈ g_acks g.

(** Up to index [c], log [l] is what was committed by term [T]. *)
Definition safe (n : nat) g (T c : Z) l : Prop :=
  0 <= c /\ (c = 0 \/
  exists T0 k r, committed n g T0 k /\ T0 <= T /\ c <= Z.of_nat k /\ g_led g !! T0 = Some r /\
    take (S (Z.to_nat c)) l = take (S (Z.to_nat c)) (ld_log r)).

(** ** The invariant *)

Record node_inv (n : nat) g (calls : list Call) (i : Z) rf : Prop := {
  ni_wf : wf rf;
  ni_full : full (logs rf);
  ni_origin : origin g (logs rf);
  ni_term : 0 <= currentTerm rf;
  ni_terms k e : logs rf !! k = Some e -> e_Term e <= currentTerm rf;
  ni_commit : safe n g (currentTerm rf) (commitIndex rf) (logs rf);
  ni_applied : 0 <= lastApplied rf;
  ni_leader : state rf = StateLeader -> exists r, g_led g !! currentTerm rf = Some r /\
    ld_id r = i /\ ld_log r = logs rf /\
    forall p m, matchIndex rf !! p = Some m -> m = 0 \/
      0 <= m /\ (Z.of_nat p, currentTerm rf, Z.to_nat m) ∈ g_acks g;
  ni_candidate : state rf = StateCandidate ->
    (i, currentTerm rf, logs rf) ∈ g_votes g /\
    (forall k e, logs rf !! k = Some e -> e_Term e < currentTerm rf) /\
    (forall c, c ∈ calls -> c_from c = i -> rv_Term (c_request c) = currentTerm rf ->
       rv_LastLogIndex (c_request c) = last_index (logs rf) /\
       rv_LastLogTerm (c_request c) = last_term (logs rf)) /\
    (forall r, g_led g !! currentTerm rf = Some r -> ld_id r <> i)
}.

Record lead_inv (n : nat) g (cl : Cluster C) (T : Z) r : Prop := {
  li_term : 1 <= T;
  li_majority : has_majority n cl (ld_id r) T;
  li_full : full (ld_base r) /\ full (ld_log r);
  li_prefix : ld_base r `prefix_of` ld_log r;
  li_origin : origin g (ld_log r);
  li_base k e : ld_base r !! k = Some e -> e_Term e < T;
  li_own k e : ld_log r !! k = Some e -> (length (ld_base r) <= k)%nat -> e_Term e = T;
  li_voters : NoDup (ld_voters r) /\ Z.of_nat n `quot` 2 < len (ld_voters r) /\
    forall p, p ∈ ld_voters r -> 0 <= p < Z.of_nat n /\
      exists l, (p, T, l) ∈ g_votes g /\ up_to_date (last_term (ld_base r)) (last_index (ld_base r)) l
}.

(** The votes of a term, as long as nobody has won it. *)
Definition call_inv g (c : Call) : Prop :=
  gave_vote (c_status c) -> g_led g !! rv_Term (c_request c) = None ->
  exists l, (c_to c, rv_Term (c_request c), l) ∈ g_votes g /\
    up_to_date (rv_LastLogTerm (c_request c)) (rv_LastLogIndex (c_request c)) l.

(** What peer [p] acknowledged in an earlier term was in its log when it voted, if
    the leaders in between had it. *)
Definition vote_inv g s (p T : Z) l : Prop :=
  full l /\ origin g l /\ (exists rf, node s p = Some rf /\ T <= currentTerm rf) /\
  forall T0 m k r, (p, T0, m) ∈ g_acks g -> T0 < T -> (k <= m)%nat -> g_led g !! T0 = Some r ->
    kept_between g T0 (T - 1) (take (S k) (ld_log r)) -> take (S k) (ld_log r) `prefix_of` l.

(** The same for the log it has now. *)
Definition ack_inv (n : nat) g s (p T : Z) (m : nat) : Prop :=
  0 <= p < Z.of_nat n /\ exists r rf, g_led g !! T = Some r /\ (m < length (ld_log r))%nat /\
    node s p = Some rf /\ T <= currentTerm rf /\
    forall k, (k <= m)%nat -> kept_between g T (currentTerm rf) (take (S k) (ld_log r)) ->
      take (S k) (ld_log r) `prefix_of` logs rf.

(** A request carries the rest of the leader's log when it was sent. *)
Definition request_inv (n : nat) g (m : Sent_ (AppendEntriesRequest C)) : Prop :=
  let q := s_msg m in
  0 <= s_to m < Z.of_nat n /\ 0 <= s_from m < Z.of_nat n /\ 0 <= ae_PrevLogIndex q /\
  exists r e, g_led g !! ae_Term q = Some r /\
    ld_log r !! Z.to_nat (ae_PrevLogIndex q) = Some e /\ e_Term e = ae_PrevLogTerm q /\
    take (S (Z.to_nat (ae_PrevLogIndex q))) (ld_log r) ++ ae_Entries q `prefix_of` ld_log r /\
    ae_LeaderCommit q <= ae_PrevLogIndex q + len (ae_Entries q) /\
    safe n g (ae_Term q) (ae_LeaderCommit q) (ld_log r).

Definition response_inv (n : nat) g (m : Sent_ (AppendEntriesRequest C * AppendEntriesResponse)) : Prop :=
  let '(q, resp) := s_msg m in
  request_inv n g (mkSent (s_from m) (s_to m) q) /\
  (aer_Success resp = true ->
     (s_to m, ae_Term q, Z.to_nat (ae_PrevLogIndex q + len (ae_Entries q))) ∈ g_acks g) /\
  (aer_Success resp = false -> aer_ConflictIndex resp <= ae_PrevLogIndex q).

(** An entry that was committed. *)
Definition committed_entry (n : nat) g (e : Entry C) : Prop :=
  exists T k r, committed n g T k /\ g_led g !! T = Some r /\
    0 <= e_Index e <= Z.of_nat k /\ ld_log r !! Z.to_nat (e_Index e) = Some e.

Record sys_inv (n : nat) g s : Prop := {
  si_cluster : inv n (s_cluster s);
  si_node i rf : node s i = Some rf -> node_inv n g (c_calls (s_cluster s)) i rf;
  si_led T r : g_led g !! T = Some r -> lead_inv n g (s_cluster s) T r;
  si_call c : c ∈ c_calls (s_cluster s) -> call_inv g c;
  si_vote p T l : (p, T, l) ∈ g_votes g -> vote_inv g s p T l;
  si_ack p T m : (p, T, m) ∈ g_acks g -> ack_inv n g s p T m;
  si_request m : m ∈ s_requests s -> request_inv n g m;
  si_response m : m ∈ s_responses s -> response_inv n g m;
  si_install m : m ∈ s_installs s -> is_LastIncludedIndex (s_msg m) = 0 /\ 0 <= s_to m < Z.of_nat n;
  si_installed m : m ∈ s_installed s -> is_LastIncludedIndex (fst (s_msg m)) = 0 /\ 0 <= s_to m < Z.of_nat n;
  si_taken i es c : s_taken s !! i = Some (es, c) ->
    Forall (committed_entry n g) es /\ exists rf, node s i = Some rf /\ c <= commitIndex rf;
  si_applied i e : (i, e) ∈ s_applied s -> committed_entry n g e
}.

(** ** Facts on uncompacted logs *)

Lemma full_first l : full l -> first_index l = 0.
Proof. intros [_ Hz]. destruct l; simpl in *; by simplify_eq. Qed.

Lemma full_last l : full l -> last_index l = len l - 1.
Proof. intros Hf. unfold last_index. rewrite (full_first l Hf). lia. Qed.

Lemma full_length l : full l -> (0 < length l)%nat.
Proof. intros [_ Hz]. by apply lookup_lt_Some in Hz. Qed.

Lemma full_entry_at l i : full l -> 0 <= i -> entry_at l i = l !! Z.to_nat i.
Proof.
  intros Hf Hi. unfold entry_at, slice_get. rewrite (full_first l Hf), Z.sub_0_r.
  by rewrite decide_True.
Qed.

Lemma full_index l k e : full l -> l !! k = Some e -> e_Index e = Z.of_nat k.
Proof.
  intros [[_ Hc] Hz] Hk. rewrite consecutive_lookup in Hc. rewrite (Hc _ _ Hk).
  rewrite full_first; [lia|]. split; [|done]. split; [by destruct l|]. by rewrite consecutive_lookup.
Qed.

Lemma full_last_term l : full l -> exists e, l !! pred (length l) = Some e /\ e_Term e = last_term l.
Proof.
  intros [Hw Hz]. destruct (entry_at_last l Hw) as (e&Hl&_&_&Ht). exists e.
  split; [|done]. by rewrite <-last_lookup.
Qed.

Lemma full_app l x : full l -> full (l ++ x) <-> consecutive (len l) x.
Proof.
  intros Hf. destruct Hf as [[Hne Hc] Hz]. pose proof (full_first l (conj (conj Hne Hc) Hz)) as H0'.
  unfold full, wf_logs. rewrite first_index_app, consecutive_app, H0' by done. rewrite Z.add_0_l.
  split; [naive_solver|]. intros Hx. split_and!; [by destruct l|by rewrite H0' in Hc|done|].
  by apply lookup_app_l_Some.
Qed.

Lemma take_prefix_lookup (l l' : list (Entry C)) k :
  (k < length l)%nat -> take (S k) l `prefix_of` l' <-> (forall j, (j <= k)%nat -> l' !! j = l !! j).
Proof.
  intros Hk. split.
  - intros [x ->] j Hj. rewrite lookup_app_l by (rewrite length_take; lia).
    by rewrite lookup_take_lt by lia.
  - intros Hj. exists (drop (S k) l'). rewrite <-(take_drop (S k) l') at 1. f_equal.
    apply list_eq. intros j. destruct (decide (j <= k)%nat).
    + rewrite !lookup_take_lt by lia. auto.
    + rewrite !lookup_take_ge by lia. done.
Qed.

Lemma prefix_take_S (l l' : list (Entry C)) j k : (j <= k)%nat ->
  take (S k) l `prefix_of` l' -> take (S j) l `prefix_of` l'.
Proof.
  intros Hjk. apply transitivity. replace (take (S j) l) with (take (S j) (take (S k) l)).
  - apply prefix_take.
  - rewrite take_take. f_equal. lia.
Qed.

Lemma origin_prefix g l l' : origin g l' -> l `prefix_of` l' -> origin g l.
Proof.
  intros Ho [x ->] k e Hk Hpos. destruct (Ho k e) as (r&Hr&Hp); [by apply lookup_app_l_Some|done|].
  exists r. split; [done|]. rewrite take_app_le in Hp; [done|]. apply lookup_lt_Some in Hk. lia.
Qed.

(** Two prefixes of one list. *)
Lemma prefix_of_shorter (l1 l2 l : list (Entry C)) :
  l1 `prefix_of` l -> l2 `prefix_of` l -> (length l1 <= length l2)%nat -> l1 `prefix_of` l2.
Proof.
  intros H1' H2' Hl. destruct (prefix_weak_total l1 l2 l H1' H2') as [?|Hp]; [done|].
  by rewrite (prefix_length_eq _ _ Hp Hl).
Qed.

Lemma lead_terms n g cl T r k e : lead_inv n g cl T r -> ld_log r !! k = Some e -> e_Term e <= T.
Proof.
  intros Hl He. destruct (decide (length (ld_base r) <= k)%nat).
  - by rewrite (li_own _ _ _ _ _ Hl k e).
  - assert (e_Term e < T); [|lia]. apply (li_base _ _ _ _ _ Hl k).
    destruct (li_prefix _ _ _ _ _ Hl) as [x E]. rewrite E, lookup_app_l in He by lia. done.
Qed.

(** An entry of the leader's own term is after what it was elected with. *)
Lemma lead_own_pos n g cl T r k e : lead_inv n g cl T r -> ld_log r !! k = Some e -> e_Term e = T ->
  (length (ld_base r) <= k)%nat.
Proof.
  intros Hl He HT. destruct (decide (length (ld_base r) <= k)%nat); [done|].
  destruct (li_prefix _ _ _ _ _ Hl) as [x E]. rewrite E, lookup_app_l in He by lia.
  apply (li_base _ _ _ _ _ Hl) in He. lia.
Qed.

Lemma full_pos l k e : full l -> l !! k = Some e -> e_Term e <> 0 -> (0 < k)%nat.
Proof. intros [_ Hz] He Ht. destruct k; [|lia]. by simplify_eq. Qed.

(** The last entry of a log that has the prefix is of no older term. *)
Lemma last_term_ge n g s T k r e l : sys_inv n g s -> g_led g !! T = Some r ->
  ld_log r !! k = Some e -> e_Term e = T -> full l -> origin g l ->
  take (S k) (ld_log r) `prefix_of` l -> T <= last_term l /\ (k < length l)%nat.
Proof.
  intros Hinv Hr Hk HT Hf Ho Hp. pose proof (si_led _ _ _ Hinv _ _ Hr) as Hl.
  pose proof (li_term _ _ _ _ _ Hl). destruct (li_full _ _ _ _ _ Hl) as [_ Hfl].
  pose proof (full_pos _ _ _ Hfl Hk ltac:(lia)) as Hpos.
  assert (l !! k = Some e) as Hlk.
  { rewrite <-Hk. apply take_prefix_lookup with k; [by eapply lookup_lt_Some|done|lia]. }
  pose proof (lookup_lt_Some _ _ _ Hlk) as Hlen. split; [|done].
  destruct (full_last_term _ Hf) as (e'&He'&<-).
  destruct (Ho _ _ He') as (r4&Hr4&Hp4); [lia|]. rewrite firstn_all2 in Hp4 by lia.
  rewrite <-HT. eapply lead_terms; [by eapply si_led|]. by eapply prefix_lookup_Some.
Qed.

Lemma leader_completeness n g s T k r T' r' : sys_inv n g s -> committed n g T k ->
  g_led g !! T = Some r -> g_led g !! T' = Some r' -> T < T' ->
  take (S k) (ld_log r) `prefix_of` ld_base r'.
Proof.
  intros Hinv (r0&e&Hr0&Hk&HT&q&Hnd&Hrange&Hmaj&Hq) Hr. assert (r0 = r) as -> by congruence.
  clear Hr0. revert r'. induction (Z.lt_wf T T') as [T' _ IH]. intros r' Hr' Hlt.
  pose proof (si_led _ _ _ Hinv _ _ Hr') as Hl'. pose proof (si_led _ _ _ Hinv _ _ Hr) as Hl.
  destruct (li_voters _ _ _ _ _ Hl') as (Hvn&Hvm&Hv).
  destruct (majorities_meet n q (ld_voters r')) as (p&Hpq&Hpv); try done.
  { intros x Hx. by apply Hv. }
  destruct (Hq p Hpq) as (m&Hkm&Hack). destruct (Hv p Hpv) as (_&l&Hvote&Hup).
  destruct (si_vote _ _ _ Hinv _ _ _ Hvote) as (Hfl&Hol&_&Hkept).
  assert (take (S k) (ld_log r) `prefix_of` l) as Hpl.
  { eapply Hkept; [done..|]. intros T3 r3 H3 Hr3. apply (IH T3); [lia|done|lia]. }
  destruct (last_term_ge _ _ _ _ _ _ _ _ Hinv Hr Hk HT Hfl Hol Hpl) as [Hge Hlen].
  pose proof (li_term _ _ _ _ _ Hl). destruct (li_full _ _ _ _ _ Hl') as [Hfb _].
  destruct (full_last_term _ Hfb) as (e'&He'&Ht').
  assert (T <= e_Term e') as Hge' by (destruct Hup as [?|[? _]]; lia).
  pose proof (full_pos _ _ _ Hfb He' ltac:(lia)) as Hpos'.
  pose proof (lookup_lt_Some _ _ _ He') as Hlen'.
  destruct (origin_prefix _ _ _ (li_origin _ _ _ _ _ Hl') (li_prefix _ _ _ _ _ Hl') _ _ He' Hpos')
    as (r''&Hr''&Hp''). rewrite firstn_all2 in Hp'' by lia.
  pose proof (li_base _ _ _ _ _ Hl' _ _ He') as Hlast.
  destruct (decide (e_Term e' = T)) as [E|E].
  - assert (r'' = r) as -> by congruence.
    eapply prefix_of_shorter; [apply prefix_take|done|]. rewrite length_take.
    destruct Hup as [?|[_ Hi]]; [lia|]. rewrite !full_last in Hi by done. lia.
  - assert (take (S k) (ld_log r) `prefix_of` ld_base r'') as Hpb by (apply (IH (e_Term e')); [lia|done|lia]).
    etrans; [exact Hpb|]. pose proof (si_led _ _ _ Hinv _ _ Hr'') as Hl''.
    eapply prefix_of_shorter; [apply Hl''|exact Hp''|].
    assert (length (ld_base r'') <= pred (length (ld_base r')))%nat; [|lia].
    eapply lead_own_pos; [exact Hl''| |done]. by eapply prefix_lookup_Some.
Qed.

(** Committed prefixes are comparable: entries committed at the same index agree. *)
Lemma committed_agree n g s T k r T' k' r' j : sys_inv n g s ->
  committed n g T k -> g_led g !! T = Some r -> committed n g T' k' -> g_led g !! T' = Some r' ->
  (j <= k)%nat -> (j <= k')%nat -> ld_log r !! j = ld_log r' !! j.
Proof.
  intros Hinv. assert (forall T k r T' k' r', committed n g T k -> g_led g !! T = Some r ->
    committed n g T' k' -> g_led g !! T' = Some r' -> T <= T' -> (j <= k)%nat ->
    ld_log r !! j = ld_log r' !! j) as Hx.
  { clear T k r T' k' r'. intros T k r T' k' r' Hc Hr Hc' Hr' HT Hj.
    destruct (decide (T = T')) as [->|]; [by simplify_eq|].
    assert (take (S k) (ld_log r) `prefix_of` ld_log r') as Hp.
    { etrans; [eapply leader_completeness; eauto; lia|]. by apply (si_led _ _ _ Hinv _ _ Hr'). }
    destruct Hc as (r0&e&Hr0&Hk&_). assert (r0 = r) as -> by congruence.
    symmetry. eapply take_prefix_lookup; [by eapply lookup_lt_Some|done|lia]. }
  intros Hc Hr Hc' Hr' Hj Hj'. destruct (decide (T <= T')).
  - by apply (Hx T k r T' k' r').
  - symmetry. apply (Hx T' k' r' T k r); done || lia.
Qed.

Lemma committed_entry_unique n g s e e' : sys_inv n g s -> committed_entry n g e ->
  committed_entry n g e' -> e_Index e = e_Index e' -> e = e'.
Proof.
  intros Hinv (T&k&r&Hc&Hr&Hi&He) (T'&k'&r'&Hc'&Hr'&Hi'&He') E.
  assert (Some e = Some e') as [= ->]; [|done]. rewrite <-He, <-He', E.
  eapply committed_agree; [exact Hinv|exact Hc|exact Hr|exact Hc'|exact Hr'|lia|lia].
Qed.
End history.
