(* ===== verification/RaftPreserve.v ===== *)
(** * Steps keep the invariant of a cluster: the common part

    [ext g g'] says that history only grows; what is committed or in flight stays so
    ([committed_ext], [safe_ext], [request_ext], ...). [sys_inv_update] is the one place
    where the invariant is put together again after one peer has moved; the lemmas of
    [RaftReplicate] discharge its premises step by step. *)
From Stdlib Require Import Strings.Byte.
From S2P Require Import Prelude Labgob Persister RaftTypes RaftNode RaftLog RaftSpec RaftReplication RaftLeader RaftSnapshot RaftInv RaftVotes RaftElection RaftSystem RaftHistory.

Section preserve.
Context {C : Type} `{Gob Z} `{Gob (list (Entry C))} `{Rand} `{Alloc}.
Context `{!GobLaws Z} `{!GobLaws (list (Entry C))}.
Implicit Types (rf : Raft C) (s : System C) (l : list (Entry C)) (g : History C) (r : Leadership C).

(** ** Growing histories *)

Record lead_ext r r' : Prop := {
  le_id : ld_id r' = ld_id r;
  le_base : ld_base r' = ld_base r;
  le_voters : ld_voters r' = ld_voters r;
  le_log : ld_log r `prefix_of` ld_log r'
}.

Record ext g g' : Prop := {
  ext_led T r : g_led g !! T = Some r -> exists r', g_led g' !! T = Some r' /\ lead_ext r r';
  ext_votes : g_votes g ⊆ g_votes g';
  ext_acks : g_acks g ⊆ g_acks g'
}.

Lemma lead_ext_refl r : lead_ext r r.
Proof. by split. Qed.

Lemma ext_refl g : ext g g.
Proof. split; [|done..]. intros T r Hr. exists r. split; [done|apply lead_ext_refl]. Qed.

(** The same leaderships, more votes and acknowledgements. *)
Lemma ext_more g votes acks : g_votes g ⊆ votes -> g_acks g ⊆ acks ->
  ext g (mkHistory _ (g_led g) votes acks).
Proof. intros. split; [|done..]. intros T r Hr. exists r. split; [done|apply lead_ext_refl]. Qed.

Lemma take_prefix_eq (l l' : list (Entry C)) k : l `prefix_of` l' -> (k <= length l)%nat ->
  take k l' = take k l.
Proof. intros [x ->] Hk. by rewrite take_app_le. Qed.

Lemma origin_ext g g' l : ext g g' -> origin g l -> origin g' l.
Proof.
  intros He Ho k e Hk Hpos. destruct (Ho k e Hk Hpos) as (r&Hr&Hp).
  destruct (ext_led _ _ He _ _ Hr) as (r'&Hr'&Hle). exists r'. split; [done|].
  etrans; [exact Hp|apply Hle].
Qed.

Lemma committed_ext n g g' T k : ext g g' -> committed n g T k -> committed n g' T k.
Proof.
  intros He (r&e&Hr&Hk&HT&q&?&?&?&Hq). destruct (ext_led _ _ He _ _ Hr) as (r'&Hr'&Hle).
  exists r', e. split_and!; [done|by eapply prefix_lookup_Some; [|apply Hle]|done|].
  exists q. split_and!; try done. intros p Hp. destruct (Hq p Hp) as (m&?&?). exists m.
  split; [done|by apply (ext_acks _ _ He)].
Qed.

Lemma committed_bound n g T k r : committed n g T k -> g_led g !! T = Some r -> (k < length (ld_log r))%nat.
Proof. intros (r0&e&Hr0&Hk&_) Hr. simplify_eq. by eapply lookup_lt_Some. Qed.

Lemma safe_ext n g g' T T' c l : ext g g' -> T <= T' -> safe n g T c l -> safe n g' T' c l.
Proof.
  intros He HT [Hc Hs]. split; [done|]. destruct Hs as [->|(T0&k&r&Hcm&HT0&Hck&Hr&Et)]; [by left|right].
  destruct (ext_led _ _ He _ _ Hr) as (r'&Hr'&Hle). pose proof (committed_bound _ _ _ _ _ Hcm Hr).
  exists T0, k, r'. split_and!; [by eapply committed_ext|lia|done|done|].
  rewrite (take_prefix_eq (ld_log r) (ld_log r')); [done|apply Hle|lia].
Qed.

(** Only the entries up to [c] matter. *)
Lemma safe_log n g T c l l' : safe n g T c l ->
  take (S (Z.to_nat c)) l' = take (S (Z.to_nat c)) l -> safe n g T c l'.
Proof.
  intros [Hc Hs] E. split; [done|]. destruct Hs as [->|(T0&k&r&?&?&?&?&Et)]; [by left|right].
  exists T0, k, r. split_and!; try done. by rewrite E.
Qed.

Lemma request_ext n g g' m : ext g g' -> request_inv n g m -> request_inv n g' m.
Proof.
  intros He (?&?&?&r&e&Hr&Hk&?&Hp&?&Hs). destruct (ext_led _ _ He _ _ Hr) as (r'&Hr'&Hle).
  pose proof (lookup_lt_Some _ _ _ Hk). split_and!; [lia..|]. exists r', e.
  rewrite (take_prefix_eq (ld_log r) (ld_log r')) by (try apply Hle; lia).
  split_and!; try done; [by eapply prefix_lookup_Some; [|apply Hle]|etrans; [exact Hp|apply Hle]|].
  eapply safe_ext; [exact He|reflexivity|]. destruct Hs as [? Hs]. split; [done|].
  destruct Hs as [->|(T0&k&r0&Hcm&?&?&Hr0&Et)]; [by left|right]. exists T0, k, r0.
  split_and!; try done. rewrite <-Et. apply take_prefix_eq; [apply Hle|].
  pose proof (committed_bound _ _ _ _ _ Hcm Hr0). apply (f_equal length) in Et.
  rewrite !length_take in Et. lia.
Qed.

Lemma response_ext n g g' m : ext g g' -> response_inv n g m -> response_inv n g' m.
Proof.
  unfold response_inv. destruct (s_msg m) as [q resp]. intros He (?&Ha&?). split_and!; [by eapply request_ext| |done].
  intros ?. apply (ext_acks _ _ He). auto.
Qed.

Lemma committed_entry_ext n g g' e : ext g g' -> committed_entry n g e -> committed_entry n g' e.
Proof.
  intros He (T&k&r&Hc&Hr&?&?). destruct (ext_led _ _ He _ _ Hr) as (r'&Hr'&Hle).
  exists T, k, r'. split_and!; [by eapply committed_ext|done|lia|lia|].
  by eapply prefix_lookup_Some; [|apply Hle].
Qed.

Lemma kept_between_ext g g' T T' x : ext g g' -> kept_between g' T T' x -> kept_between g T T' x.
Proof.
  intros He Hk T3 r3 HT Hr3. destruct (ext_led _ _ He _ _ Hr3) as (r'&Hr'&Hle).
  rewrite <-(le_base _ _ Hle). by eapply Hk.
Qed.

Lemma kept_between_mono g T T1 T2 x : T1 <= T2 -> kept_between g T T2 x -> kept_between g T T1 x.
Proof. intros HT Hk T3 r3 ? ?. apply (Hk T3); [lia|done]. Qed.

(** ** Putting the invariant together *)

(** The calls of [j] are those it had made. *)
Definition calls_of_kept (calls calls' : list Call) (j : Z) : Prop :=
  forall c, c ∈ calls' -> c_from c = j ->
    exists c0, c0 ∈ calls /\ c_from c0 = j /\ c_request c0 = c_request c.

(** A peer that does not move, if neither its leaderships nor its calls change. *)
Lemma node_inv_other n g g' calls calls' j rf : ext g g' ->
  (forall T r, g_led g !! T = Some r -> ld_id r = j -> g_led g' !! T = Some r) ->
  (forall T r, g_led g' !! T = Some r -> ld_id r = j -> g_led g !! T = Some r) ->
  calls_of_kept calls calls' j ->
  node_inv n g calls j rf -> node_inv n g' calls' j rf.
Proof.
  intros He Hled Hled' Hcalls Hn. split; try apply Hn.
  - eapply origin_ext; [done|apply Hn].
  - eapply safe_ext; [done|reflexivity|apply Hn].
  - intros Hs. destruct (ni_leader _ _ _ _ _ Hn Hs) as (r&Hr&Hid&Hlog&Hm). exists r.
    split_and!; [by apply Hled|done|done|]. intros p m Hp.
    destruct (Hm p m Hp) as [?|[? ?]]; [by left|right]. split; [done|by apply (ext_acks _ _ He)].
  - intros Hs. destruct (ni_candidate _ _ _ _ _ Hn Hs) as (Hv&Ht&Hc&Hnl). split_and!; [by apply (ext_votes _ _ He)|done| |].
    + intros c Hin Hf HT. destruct (Hcalls c Hin Hf) as (c0&Hin0&Hf0&E). rewrite <-E in HT |- *.
      by apply (Hc c0).
    + intros r Hr Hid. destruct (Hnl r); [by apply Hled'|done].
Qed.

Lemma lead_inv_ext n g g' cl cl' T r : ext g g' ->
  (forall j T, has_majority n cl j T -> has_majority n cl' j T) ->
  lead_inv n g cl T r -> lead_inv n g' cl' T r.
Proof.
  intros He Hm Hl. split; try apply Hl; [by apply Hm, Hl|eapply origin_ext; [done|apply Hl]|].
  destruct (li_voters _ _ _ _ _ Hl) as (?&?&Hv). split_and!; [done..|]. intros p Hp.
  destruct (Hv p Hp) as (?&l&?&?). split; [done|]. exists l. split; [by apply (ext_votes _ _ He)|done].
Qed.

Lemma vote_inv_ext n g g' s s' p T l :
  ext g g' -> (forall p rf, node s p = Some rf -> exists rf', node s' p = Some rf' /\ currentTerm rf <= currentTerm rf') ->
  (forall p T m, (p, T, m) ∈ g_acks g -> ack_inv n g s p T m) ->
  (forall p T0 m rf', (p, T0, m) ∈ g_acks g' -> node s' p = Some rf' ->
     (p, T0, m) ∈ g_acks g \/ T0 = currentTerm rf') ->
  (exists rf', node s' p = Some rf' /\ T <= currentTerm rf') ->
  vote_inv g s p T l -> vote_inv g' s' p T l.
Proof.
  intros He Hn Hacks Hnew (rf'&Hp&HT) (Hf&Ho&_&Hk). split_and!; [done|by eapply origin_ext|by eexists|].
  intros T0 m k r Ha HT0 Hkm Hr Hkept. destruct (Hnew _ _ _ _ Ha Hp) as [Ha0| ->]; [|lia].
  destruct (Hacks _ _ _ Ha0) as (_&r0&rf0&Hr0&Hlen&_). destruct (ext_led _ _ He _ _ Hr0) as (r'&Hr'&Hle).
  simplify_eq. rewrite (take_prefix_eq (ld_log r0) (ld_log r)) in * by (try apply Hle; lia).
  eapply Hk; [exact Ha0|done|done|done|]. by eapply kept_between_ext.
Qed.

Lemma ack_inv_ext n g g' s s' p T m rf rf' :
  ext g g' -> node s p = Some rf -> node s' p = Some rf' -> currentTerm rf <= currentTerm rf' ->
  (forall k r, g_led g !! T = Some r -> (k <= m)%nat -> (m < length (ld_log r))%nat ->
     kept_between g' T (currentTerm rf') (take (S k) (ld_log r)) ->
     take (S k) (ld_log r) `prefix_of` logs rf -> take (S k) (ld_log r) `prefix_of` logs rf') ->
  ack_inv n g s p T m -> ack_inv n g' s' p T m.
Proof.
  intros He Hp Hp' HT Hl (?&r&rf0&Hr&Hlen&Hp0&HT0&Hk). simplify_eq.
  destruct (ext_led _ _ He _ _ Hr) as (r'&Hr'&Hle). split; [done|]. exists r', rf'.
  pose proof (prefix_length _ _ (le_log _ _ Hle)).
  split_and!; [done|lia|done|lia|]. intros k Hkm.
  rewrite (take_prefix_eq (ld_log r) (ld_log r')) by (try apply Hle; lia). intros Hb.
  apply Hl; [done..|]. apply Hk; [done|]. eapply kept_between_mono; [exact HT|].
  by eapply kept_between_ext.
Qed.

(** Peer [i] moves from [rf] to [rf']. *)
Record moved (n : nat) g g' s s' (i : Z) rf rf' : Prop := {
  mv_from : node s i = Some rf;
  mv_nodes : c_nodes (s_cluster s') = <[i := rf']> (c_nodes (s_cluster s));
  mv_cluster : inv n (s_cluster s');
  mv_ext : ext g g';
  mv_term : currentTerm rf <= currentTerm rf';
  (* the peer *)
  mv_node : node_inv n g' (c_calls (s_cluster s')) i rf';
  mv_acked T m k r : (i, T, m) ∈ g_acks g -> g_led g !! T = Some r -> (k <= m)%nat ->
    (m < length (ld_log r))%nat -> kept_between g' T (currentTerm rf') (take (S k) (ld_log r)) ->
    take (S k) (ld_log r) `prefix_of` logs rf -> take (S k) (ld_log r) `prefix_of` logs rf';
  (* the history *)
  mv_led T r : g_led g' !! T = Some r -> g_led g !! T = Some r \/
    (ld_id r = i /\ lead_inv n g' (s_cluster s') T r);
  mv_led_keep T r : g_led g !! T = Some r -> ld_id r <> i -> g_led g' !! T = Some r;
  mv_votes p T l : (p, T, l) ∈ g_votes g' -> (p, T, l) ∈ g_votes g \/ vote_inv g' s' p T l;
  mv_acks p T m : (p, T, m) ∈ g_acks g' -> (p, T, m) ∈ g_acks g \/
    (p = i /\ T = currentTerm rf' /\ ack_inv n g' s' p T m);
  (* the calls *)
  mv_majority j T : has_majority n (s_cluster s) j T -> has_majority n (s_cluster s') j T;
  mv_calls j : j <> i -> calls_of_kept (c_calls (s_cluster s)) (c_calls (s_cluster s')) j;
  mv_call c : c ∈ c_calls (s_cluster s') -> call_inv g' c;
  mv_request m : m ∈ s_requests s' -> m ∈ s_requests s \/ request_inv n g' m;
  mv_response m : m ∈ s_responses s' -> m ∈ s_responses s \/ response_inv n g' m;
  mv_install m : m ∈ s_installs s' -> m ∈ s_installs s \/
    (is_LastIncludedIndex (s_msg m) = 0 /\ 0 <= s_to m < Z.of_nat n);
  mv_installed m : m ∈ s_installed s' -> m ∈ s_installed s \/
    (is_LastIncludedIndex (fst (s_msg m)) = 0 /\ 0 <= s_to m < Z.of_nat n);
  mv_taken j es c : s_taken s' !! j = Some (es, c) ->
    (s_taken s !! j = Some (es, c) /\ (j = i -> commitIndex rf <= commitIndex rf')) \/
    (j = i /\ Forall (committed_entry n g') es /\ c <= commitIndex rf');
  mv_applied : s_applied s' = s_applied s
}.

Lemma sys_inv_update n g g' s s' i rf rf' :
  sys_inv n g s -> moved n g g' s s' i rf rf' -> sys_inv n g' s'.
Proof.
  intros Hinv Hm. pose proof (mv_ext _ _ _ _ _ _ _ _ Hm) as He.
  assert (forall j, node s' j = if decide (i = j) then Some rf' else node s j) as Hnode.
  { intros j. unfold node. rewrite (mv_nodes _ _ _ _ _ _ _ _ Hm). apply lookup_insert. }
  assert (forall p rfp, node s p = Some rfp ->
    exists rfp', node s' p = Some rfp' /\ currentTerm rfp <= currentTerm rfp') as Hmono.
  { intros p rfp Hp. rewrite Hnode. destruct (decide (i = p)) as [->|].
    - rewrite (mv_from _ _ _ _ _ _ _ _ Hm) in Hp. injection Hp as <-. exists rf'. split; [done|apply Hm].
    - eauto with lia. }
  split.
  - apply Hm.
  - intros j rfj. rewrite Hnode. destruct (decide (i = j)) as [<-|Hij].
    + intros [= <-]. apply Hm.
    + intros Hj. eapply node_inv_other; [exact He|..|by apply (si_node _ _ _ Hinv)].
      * intros T r Hr Hid. eapply (mv_led_keep _ _ _ _ _ _ _ _ Hm); [done|congruence].
      * intros T r Hr Hid. destruct (mv_led _ _ _ _ _ _ _ _ Hm _ _ Hr) as [?|[? _]]; [done|congruence].
      * by apply Hm.
  - intros T r Hr. destruct (mv_led _ _ _ _ _ _ _ _ Hm _ _ Hr) as [Hr0|[_ ?]]; [|done].
    eapply lead_inv_ext; [exact He|apply Hm|by apply (si_led _ _ _ Hinv)].
  - apply Hm.
  - intros p T l Hv. destruct (mv_votes _ _ _ _ _ _ _ _ Hm _ _ _ Hv) as [Hv0|?]; [|done].
    pose proof (si_vote _ _ _ Hinv _ _ _ Hv0) as Hvi.
    eapply vote_inv_ext; [exact He|exact Hmono|apply Hinv|..|exact Hvi].
    + intros q T0 m rfq Ha Hq. destruct (mv_acks _ _ _ _ _ _ _ _ Hm _ _ _ Ha) as [?|(->&->&_)]; [by left|right].
      rewrite Hnode, decide_True in Hq by done. congruence.
    + destruct Hvi as (_&_&(rfp&Hp&HT)&_). destruct (Hmono _ _ Hp) as (rfp'&?&?). exists rfp'. split; [done|lia].
  - intros p T m Ha. destruct (mv_acks _ _ _ _ _ _ _ _ Hm _ _ _ Ha) as [Ha0|(_&_&?)]; [|done].
    pose proof (si_ack _ _ _ Hinv _ _ _ Ha0) as Hai. pose proof Hai as (_&r&rfp&Hr&_&Hp&_&_).
    destruct (Hmono _ _ Hp) as (rfp'&Hp'&HT). eapply ack_inv_ext; [exact He|exact Hp|exact Hp'|exact HT| |exact Hai].
    intros k r0 Hr0 Hkm Hlen Hkept Hpre. rewrite Hnode in Hp'. destruct (decide (i = p)) as [<-|].
    + injection Hp' as <-. rewrite (mv_from _ _ _ _ _ _ _ _ Hm) in Hp. injection Hp as <-.
      by eapply (mv_acked _ _ _ _ _ _ _ _ Hm).
    + rewrite Hp in Hp'. by injection Hp' as <-.
  - intros m Hin. destruct (mv_request _ _ _ _ _ _ _ _ Hm _ Hin) as [?|?]; [|done].
    eapply request_ext; [exact He|by apply (si_request _ _ _ Hinv)].
  - intros m Hin. destruct (mv_response _ _ _ _ _ _ _ _ Hm _ Hin) as [?|?]; [|done].
    eapply response_ext; [exact He|by apply (si_response _ _ _ Hinv)].
  - intros m Hin. destruct (mv_install _ _ _ _ _ _ _ _ Hm _ Hin) as [?|?]; [|done].
    by apply (si_install _ _ _ Hinv).
  - intros m Hin. destruct (mv_installed _ _ _ _ _ _ _ _ Hm _ Hin) as [?|?]; [|done].
    by apply (si_installed _ _ _ Hinv).
  - intros j es c Ht. destruct (mv_taken _ _ _ _ _ _ _ _ Hm _ _ _ Ht) as [[Ht0 Hc]|(->&Hes&Hc)].
    + destruct (si_taken _ _ _ Hinv _ _ _ Ht0) as (Hes&rfj&Hj&Hle). split.
      { eapply Forall_impl; [exact Hes|]. intros e. by apply committed_entry_ext. }
      rewrite Hnode. destruct (decide (i = j)) as [<-|]; [|eauto].
      rewrite (mv_from _ _ _ _ _ _ _ _ Hm) in Hj. injection Hj as <-. exists rf'. split; [done|].
      specialize (Hc eq_refl). lia.
    + split; [done|]. exists rf'. rewrite Hnode, decide_True; done.
  - intros j e. rewrite (mv_applied _ _ _ _ _ _ _ _ Hm). intros Ha.
    eapply committed_entry_ext; [exact He|]. by eapply (si_applied _ _ _ Hinv).
Qed.
End preserve.
