(* ===== verification/RaftReplicate.v ===== *)
(** * Steps keep the invariant of a cluster: the methods

    One lemma per step of [RaftSystem], each from the weakest precondition of the
    method that runs. [sys_step_inv] puts them together. *)
From Stdlib Require Import Strings.Byte.
From S2P Require Import Prelude Labgob Persister RaftTypes RaftNode RaftLog RaftSpec RaftReplication RaftLeader RaftSnapshot RaftInv RaftVotes RaftElection RaftSystem RaftHistory RaftPreserve.

Section replicate.
Context {C : Type} `{Gob Z} `{Gob (list (Entry C))} `{Rand} `{Alloc}.
Context `{!GobLaws Z} `{!GobLaws (list (Entry C))}.
Implicit Types (rf : Raft C) (s : System C) (l : list (Entry C)) (g : History C) (r : Leadership C).

(** ** Messages and outputs *)

Lemma elem_of_snoc {A} (x y : A) (l : list A) : x ∈ l ++ [y] -> x ∈ l \/ x = y.
Proof. rewrite elem_of_app, list_elem_of_singleton. done. Qed.

Lemma sys_inv_request n g s m : sys_inv n g s -> request_inv n g m ->
  sys_inv n g (mkSystem _ (s_cluster s) (s_requests s ++ [m]) (s_responses s) (s_installs s)
    (s_installed s) (s_taken s) (s_applied s) (s_sent s)).
Proof. intros Hs Hm. split; try apply Hs. intros x [?| ->]%elem_of_snoc; [by apply Hs|done]. Qed.

Lemma sys_inv_response n g s m : sys_inv n g s -> response_inv n g m ->
  sys_inv n g (mkSystem _ (s_cluster s) (s_requests s) (s_responses s ++ [m]) (s_installs s)
    (s_installed s) (s_taken s) (s_applied s) (s_sent s)).
Proof. intros Hs Hm. split; try apply Hs. intros x [?| ->]%elem_of_snoc; [by apply Hs|done]. Qed.

Lemma sys_inv_install n g s m : sys_inv n g s ->
  is_LastIncludedIndex (s_msg m) = 0 /\ 0 <= s_to m < Z.of_nat n ->
  sys_inv n g (mkSystem _ (s_cluster s) (s_requests s) (s_responses s) (s_installs s ++ [m])
    (s_installed s) (s_taken s) (s_applied s) (s_sent s)).
Proof. intros Hs Hm. split; try apply Hs. intros x [?| ->]%elem_of_snoc; [by apply Hs|done]. Qed.

Lemma sys_inv_installed n g s m : sys_inv n g s ->
  is_LastIncludedIndex (fst (s_msg m)) = 0 /\ 0 <= s_to m < Z.of_nat n ->
  sys_inv n g (mkSystem _ (s_cluster s) (s_requests s) (s_responses s) (s_installs s)
    (s_installed s ++ [m]) (s_taken s) (s_applied s) (s_sent s)).
Proof. intros Hs Hm. split; try apply Hs. intros x [?| ->]%elem_of_snoc; [by apply Hs|done]. Qed.

Lemma sys_inv_taken n g s t : sys_inv n g s ->
  (forall i es c, t !! i = Some (es, c) ->
     Forall (committed_entry n g) es /\ exists rf, node s i = Some rf /\ c <= commitIndex rf) ->
  sys_inv n g (set_taken t s).
Proof. intros Hs Ht. split; try apply Hs. exact Ht. Qed.

Lemma sys_inv_applied n g s i e : sys_inv n g s -> committed_entry n g e ->
  sys_inv n g (add_applied i e s).
Proof. intros Hs He. split; try apply Hs. intros j x [?|[= -> ->]]%elem_of_snoc; [by eapply Hs|done]. Qed.

(** ** A peer that keeps its log *)

Lemma safe_zero n g T l : safe n g T 0 l.
Proof. split; [lia|by left]. Qed.

(** It became a follower, perhaps of a newer term, or restarted. *)
Lemma node_inv_demoted n g calls i rf rf' : node_inv n g calls i rf -> wf rf' ->
  logs rf' = logs rf -> currentTerm rf <= currentTerm rf' -> state rf' = StateFollower ->
  commitIndex rf' = commitIndex rf \/ commitIndex rf' = 0 -> 0 <= lastApplied rf' ->
  node_inv n g calls i rf'.
Proof.
  intros Hn Hwf Hl HT Hs Hc Ha. split; rewrite ?Hl, ?Hs; try done; try apply Hn.
  - pose proof (ni_term _ _ _ _ _ Hn). lia.
  - intros k e He. pose proof (ni_terms _ _ _ _ _ Hn k e He). lia.
  - destruct Hc as [->| ->]; [|apply safe_zero].
    eapply safe_ext; [apply ext_refl|exact HT|apply Hn].
Qed.

(** It kept its term and role. *)
Lemma node_inv_same n g calls i rf rf' : node_inv n g calls i rf -> wf rf' ->
  logs rf' = logs rf -> currentTerm rf' = currentTerm rf -> state rf' = state rf ->
  safe n g (currentTerm rf) (commitIndex rf') (logs rf) -> 0 <= lastApplied rf' ->
  (state rf = StateLeader -> forall p m, matchIndex rf' !! p = Some m -> m = 0 \/
      0 <= m /\ (Z.of_nat p, currentTerm rf, Z.to_nat m) ∈ g_acks g) ->
  node_inv n g calls i rf'.
Proof.
  intros Hn Hwf Hl HT Hs Hc Ha Hm. split; rewrite ?Hl, ?Hs, ?HT; try done; try apply Hn.
  intros Hst. destruct (ni_leader _ _ _ _ _ Hn Hst) as (r&?&?&?&_). exists r. split_and!; auto.
Qed.

Lemma calls_of_kept_refl calls j : calls_of_kept calls calls j.
Proof. intros c Hc Hf. by exists c. Qed.

(** The peer moved, its log did not, and the history is the same. *)
Lemma sys_inv_plain n g s i rf rf' : sys_inv n g s -> node s i = Some rf ->
  inv n (s_cluster (set_node i rf' s)) -> currentTerm rf <= currentTerm rf' ->
  logs rf' = logs rf -> commitIndex rf <= commitIndex rf' ->
  node_inv n g (c_calls (s_cluster s)) i rf' -> sys_inv n g (set_node i rf' s).
Proof.
  intros Hinv Hi Hel HT Hl Hc Hn. apply (sys_inv_update n g g s _ i rf rf'); [exact Hinv|].
  split; try done; auto using ext_refl, calls_of_kept_refl.
  - by rewrite Hl.
  - apply Hinv.
Qed.

(** A method of a peer of the cluster: well-formedness, term and commit index. *)
Lemma node_run n g s i rf ev rf' : sys_inv n g s -> node s i = Some rf -> ok ev rf ->
  run ev rf = Some rf' -> wf rf' /\ currentTerm rf <= currentTerm rf' /\
    (ev <> EvRestart -> commitIndex rf <= commitIndex rf').
Proof.
  intros Hinv Hi Hok Hrun. destruct (inv_node _ _ (si_cluster _ _ _ Hinv) _ _ Hi) as (_&_&_&Hd).
  destruct (run_good ev rf) as (rf1&Hrun1&(Hwf&_&[HT _]&_)&Hc);
    [apply (si_node _ _ _ Hinv _ _ Hi)|done|done|]. rewrite Hrun in Hrun1. by injection Hrun1 as <-.
Qed.

Definition same_core rf rf' : Prop :=
  currentTerm rf' = currentTerm rf /\ state rf' = state rf /\ logs rf' = logs rf /\
  commitIndex rf' = commitIndex rf /\ matchIndex rf' = matchIndex rf /\ lastApplied rf' = lastApplied rf.

Lemma sys_inv_same n g s i rf rf' : sys_inv n g s -> node s i = Some rf ->
  inv n (s_cluster (set_node i rf' s)) -> wf rf' -> same_core rf rf' -> sys_inv n g (set_node i rf' s).
Proof.
  intros Hinv Hi Hel Hwf (HT&Hs&Hl&Hc&Hm&Ha). pose proof (si_node _ _ _ Hinv _ _ Hi) as Hn.
  eapply sys_inv_plain; [done|exact Hi|done|lia|done|lia|].
  apply (node_inv_same _ _ _ _ rf); try done; rewrite ?Hc, ?Ha; try apply Hn.
  intros Hst p m. rewrite Hm. destruct (ni_leader _ _ _ _ _ Hn Hst) as (r&_&_&_&Hmi). apply Hmi.
Qed.

Lemma same_core_refl rf : same_core rf rf.
Proof. done. Qed.

Lemma heartbeat_same rf rf' : run EvHeartbeatTimeout rf = Some rf' -> same_core rf rf'.
Proof.
  unfold run, after. destruct (ticker_heartbeat rf) as [[[] rf1]|] eqn:E; [|done]. intros [= <-].
  apply (wp_run _ _ _ _ (fun _ rf' => same_core rf rf') E). unfold ticker_heartbeat. go.
  destruct (decide _); go; [|done]. apply wp_BroadcastHeartbeat. unfold resetHeartbeatTimer. by go.
Qed.

Lemma step_quiet_inv n g s i ev rf rf' : sys_inv n g s -> inv n (s_cluster (set_node i rf' s)) ->
  node s i = Some rf -> quiet ev rf -> ok ev rf -> run ev rf = Some rf' -> sys_inv n g (set_node i rf' s).
Proof.
  intros Hinv Hel Hi Hq Hok Hrun. destruct (node_run _ _ _ _ _ _ _ Hinv Hi Hok Hrun) as (Hwf&_).
  eapply sys_inv_same; [done|exact Hi|done|done|]. destruct ev; try done.
  - by apply heartbeat_same.
  - by injection Hrun as <-.
  - by injection Hrun as <-.
  - unfold run in Hrun. apply (after_wlp _ _ _ (same_core rf)) in Hrun; [done|].
    unfold replicator_check. wlp_go. eapply wlp_mono; [apply needReplicating_effect|]. intros b s1 ->. cbn beta.
    unfold emit. by destruct b; wlp_go.
  - by injection Hrun as <-.
Qed.

(** ** applier *)

Lemma commit_safe_entry n g calls i rf k e : node_inv n g calls i rf ->
  0 < Z.of_nat k <= commitIndex rf -> logs rf !! k = Some e -> committed_entry n g e.
Proof.
  intros Hn Hk He. destruct (ni_commit _ _ _ _ _ Hn) as [_ [?|(T0&k0&r&Hc&HT&Hck&Hr&Et)]]; [lia|].
  exists T0, k0, r. rewrite (full_index _ _ _ (ni_full _ _ _ _ _ Hn) He), Nat2Z.id.
  split_and!; [done|done|lia|lia|]. rewrite <-He.
  rewrite <-(lookup_take_lt (logs rf) (S (Z.to_nat (commitIndex rf))) k) by lia.
  rewrite Et. by rewrite lookup_take_lt by lia.
Qed.

(** What [applier] takes: the entries above [lastApplied] up to the commit index. *)
Lemma taken_entries n g calls i rf es c rf' : node_inv n g calls i rf ->
  applier_take rf = Some (Some (es, c), rf') ->
  rf' = rf /\ c = commitIndex rf /\ es = entries_between (logs rf) (lastApplied rf) (commitIndex rf) /\
  lastApplied rf < commitIndex rf.
Proof.
  intros Hn Hr. pose proof (ni_wf _ _ _ _ _ Hn) as Hwf. pose proof (ni_full _ _ _ _ _ Hn) as Hf.
  apply (wp_run _ _ _ _ (fun a rf' => a = Some (es, c) -> rf' = rf /\ c = commitIndex rf /\
    es = entries_between (logs rf) (lastApplied rf) (commitIndex rf) /\ lastApplied rf < commitIndex rf) Hr); [|done].
  apply wp_applier_take; [apply Hwf|apply Hwf| |done|].
  - rewrite (full_first _ Hf). pose proof (ni_applied _ _ _ _ _ Hn). lia.
  - intros Hlt [= <- <-]. done.
Qed.

Lemma step_take_inv n g s i rf es c rf' : sys_inv n g s -> inv n (s_cluster (set_node i rf' s)) ->
  node s i = Some rf -> applier_take rf = Some (Some (es, c), rf') ->
  sys_inv n g (set_taken (<[i := (es, c)]> (s_taken s)) (set_node i rf' s)).
Proof.
  intros Hinv Hel Hi Hr. pose proof (si_node _ _ _ Hinv _ _ Hi) as Hn.
  pose proof (ni_wf _ _ _ _ _ Hn) as Hwf. pose proof (ni_full _ _ _ _ _ Hn) as Hf.
  destruct (taken_entries _ _ _ _ _ _ _ _ Hn Hr) as (->&->&->&Hlt).
  apply sys_inv_taken; [by apply (sys_inv_same _ _ _ _ rf)|].
  intros j es' c'. cbn. rewrite lookup_insert_Some. intros [[<- [= <- <-]]|[Hne Ht]].
  - split; [|exists rf; unfold node, set_node; cbn; rewrite lookup_insert_eq; split; [done|lia]].
    apply Forall_lookup. intros k e He. pose proof (ni_applied _ _ _ _ _ Hn) as Ha.
    pose proof (lookup_lt_Some _ _ _ He) as Hk. pose proof (wf_commit _ Hwf) as [_ Hcl].
    rewrite entries_between_length in Hk by (rewrite ?(full_first _ Hf); lia).
    rewrite entries_between_lookup in He by (rewrite ?(full_first _ Hf); lia).
    rewrite full_entry_at in He by (done || lia).
    eapply commit_safe_entry; [exact Hn| |exact He]. lia.
  - destruct (si_taken _ _ _ Hinv _ _ _ Ht) as (?&rfj&?&?). split; [done|]. exists rfj.
    unfold node, set_node; cbn. rewrite lookup_insert_ne by done. done.
Qed.

Lemma step_send_inv n g s i e es c : sys_inv n g s -> s_taken s !! i = Some (e :: es, c) ->
  sys_inv n g (add_applied i e (set_taken (<[i := (es, c)]> (s_taken s)) s)).
Proof.
  intros Hinv Ht. destruct (si_taken _ _ _ Hinv _ _ _ Ht) as (Hes&rf&Hi&Hc).
  apply Forall_cons in Hes as [He Hes]. apply sys_inv_applied; [|done].
  apply sys_inv_taken; [done|]. intros j es' c' [[<- [= <- <-]]|[_ Hj]]%lookup_insert_Some; [eauto|].
  by apply (si_taken _ _ _ Hinv).
Qed.

Lemma step_done_inv n g s i c rf rf' : sys_inv n g s -> inv n (s_cluster (set_node i rf' s)) ->
  s_taken s !! i = Some ([], c) -> node s i = Some rf -> applier_done c rf = Some (tt, rf') ->
  sys_inv n g (set_taken (delete i (s_taken s)) (set_node i rf' s)).
Proof.
  intros Hinv Hel Ht Hi Hr. pose proof (si_node _ _ _ Hinv _ _ Hi) as Hn.
  destruct (si_taken _ _ _ Hinv _ _ _ Ht) as (_&rf0&Hi0&Hc). rewrite Hi in Hi0. injection Hi0 as <-.
  destruct (node_run _ _ _ _ _ (EvApplierDone c) rf' Hinv Hi) as (Hwf&_&_);
    [done|unfold run, after; by rewrite Hr|].
  assert (rf' = set_lastApplied (Max (lastApplied rf) c) rf) as -> by (by injection Hr).
  apply sys_inv_taken.
  - eapply sys_inv_plain; [done|exact Hi|done|done|done|done|].
    apply (node_inv_same _ _ _ _ rf); try done; [apply Hn| |].
    + cbn. rewrite Max_max. pose proof (ni_applied _ _ _ _ _ Hn). lia.
    + intros Hst p m. destruct (ni_leader _ _ _ _ _ Hn Hst) as (r&_&_&_&Hmi). apply Hmi.
  - intros j es' c' [Hne Hj]%lookup_delete_Some. destruct (si_taken _ _ _ Hinv _ _ _ Hj) as (?&rfj&?&?).
    split; [done|]. exists rfj. unfold node, set_node; cbn. by rewrite lookup_insert_ne.
Qed.

(** ** Requests of a leader *)

Lemma node_range n g s i rf : sys_inv n g s -> node s i = Some rf ->
  0 <= i < Z.of_nat n /\ peers rf = n /\ me rf = i.
Proof. intros Hinv Hi. destruct (inv_node _ _ (si_cluster _ _ _ Hinv) _ _ Hi) as (?&?&?&_). done. Qed.

Lemma leader_request n g s i rf peer prev t : sys_inv n g s -> node s i = Some rf ->
  state rf = StateLeader -> 0 <= peer < Z.of_nat n ->
  first_index (logs rf) <= prev <= last_index (logs rf) -> term_at (logs rf) prev = Some t ->
  request_inv n g (mkSent i peer (mkAppendEntriesRequest C (currentTerm rf) (me rf) prev t (commitIndex rf)
    (drop (Z.to_nat (prev + 1 - first_index (logs rf))) (logs rf)))).
Proof.
  intros Hinv Hi Hs Hp Hprev Ht. pose proof (si_node _ _ _ Hinv _ _ Hi) as Hn.
  pose proof (ni_full _ _ _ _ _ Hn) as Hf. pose proof (wf_commit _ (ni_wf _ _ _ _ _ Hn)) as [_ Hc].
  destruct (node_range _ _ _ _ _ Hinv Hi) as (Hir&_&_).
  destruct (ni_leader _ _ _ _ _ Hn Hs) as (r&Hr&_&Hlog&_).
  rewrite (full_first _ Hf), (full_last _ Hf) in *. rewrite Z.sub_0_r.
  unfold term_at in Ht. rewrite full_entry_at in Ht by (done || lia).
  apply fmap_Some in Ht as (e&He&->). unfold request_inv; cbn [s_msg s_to s_from ae_PrevLogIndex ae_Term
    ae_PrevLogTerm ae_Entries ae_LeaderCommit]. split_and!; [lia..|]. exists r, e. rewrite Hlog.
  replace (Z.to_nat (prev + 1)) with (S (Z.to_nat prev)) by lia.
  split_and!; [done|done|done|by rewrite take_drop|rewrite length_drop; lia|apply Hn].
Qed.

Lemma step_replicate_inv n g s i peer rf (r : Replication C) rf' : sys_inv n g s -> inv n (s_cluster (set_node i rf' s)) ->
  node s i = Some rf -> 0 <= peer < Z.of_nat (peers rf) ->
  goReplicateOneRound peer rf = Some (r, rf') -> sys_inv n g (add_replication i peer r (set_node i rf' s)).
Proof.
  intros Hinv Hel Hi Hp Hr. pose proof (si_node _ _ _ Hinv _ _ Hi) as Hn.
  pose proof (ni_wf _ _ _ _ _ Hn) as Hwf. destruct (node_range _ _ _ _ _ Hinv Hi) as (Hir&Hpe&_).
  set (rf0 := set_out (remove_round peer (out rf)) rf).
  assert (wf rf0) as Hwf0 by (destruct Hwf; by split).
  assert (rf' = rf0 -> sys_inv n g (set_node i rf' s)) as Hsame.
  { intros ->. by apply (sys_inv_same _ _ _ _ rf). }
  apply (wp_run _ _ _ _ (fun (r : Replication C) rf' => rf' = rf0 /\ match r with
    | NoRequest => True
    | SendInstallSnapshot q => is_LastIncludedIndex q = 0
    | SendAppendEntries q => request_inv n g (mkSent i peer q) end)) in Hr as [-> Hm].
  - destruct r as [|q|q]; [auto|..].
    + apply sys_inv_install; [auto|]. cbn. rewrite Hpe in Hp. done.
    + apply sys_inv_request; auto.
  - unfold goReplicateOneRound. go. fold rf0.
    apply wp_replicateOneRound; [apply Hwf|by rewrite (wf_next_len _ Hwf0)|apply Hwf|done|..].
    + intros t _ _. split; [done|]. cbn. apply full_first, Hn.
    + intros prev t Hs Hprev Ht. split; [done|]. rewrite Hpe in Hp. by apply (leader_request n g s i rf).
Qed.

(** ** Snapshots of an uncompacted log have index zero and change no log *)

Lemma step_install_inv n g s m rf resp rf' : sys_inv n g s -> inv n (s_cluster (set_node (s_to m) rf' s)) ->
  m ∈ s_installs s -> node s (s_to m) = Some rf -> InstallSnapshot (s_msg m) rf = Some (resp, rf') ->
  sys_inv n g (add_installed m resp (set_node (s_to m) rf' s)).
Proof.
  intros Hinv Hel Hm Hi Hr. pose proof (si_node _ _ _ Hinv _ _ Hi) as Hn.
  destruct (si_install _ _ _ Hinv _ Hm) as [Hz Hto].
  destruct (node_run _ _ _ _ _ (EvInstallSnapshot (s_msg m)) rf' Hinv Hi) as (Hwf&HT&Hc);
    [done|unfold run, after; by rewrite Hr|].
  apply sys_inv_installed; [|done].
  assert (rf' = rf \/ logs rf' = logs rf /\ state rf' = StateFollower /\ commitIndex rf' = commitIndex rf /\
    lastApplied rf' = lastApplied rf) as [->|(Hl&Hs&Hc'&Ha)].
  { apply (wp_run _ _ _ _ (fun _ rf' => rf' = rf \/ logs rf' = logs rf /\ state rf' = StateFollower /\
      commitIndex rf' = commitIndex rf /\ lastApplied rf' = lastApplied rf) Hr).
    apply wp_InstallSnapshot; [by left| |].
    - intros _ _. right. raft_fields; done.
    - rewrite Hz. destruct (ni_commit _ _ _ _ _ Hn). lia. }
  - by apply (sys_inv_same _ _ _ _ rf).
  - eapply sys_inv_plain; [done|exact Hi|done|done|done|auto|]. eapply node_inv_demoted; [exact Hn|..]; auto.
    rewrite Ha. apply Hn.
Qed.

Lemma step_install_reply_inv n g s m rf rf' : sys_inv n g s -> inv n (s_cluster (set_node (s_from m) rf' s)) ->
  m ∈ s_installed s -> node s (s_from m) = Some rf ->
  handleInstallSnapshotResponse (s_to m) (fst (s_msg m)) (snd (s_msg m)) rf = Some (tt, rf') ->
  sys_inv n g (set_node (s_from m) rf' s).
Proof.
  intros Hinv Hel Hm Hi Hr. pose proof (si_node _ _ _ Hinv _ _ Hi) as Hn.
  pose proof (ni_wf _ _ _ _ _ Hn) as Hwf0. destruct (node_range _ _ _ _ _ Hinv Hi) as (Hir&Hpe&_).
  destruct (si_installed _ _ _ Hinv _ Hm) as [Hz Hto].
  destruct (node_run _ _ _ _ _ (EvSnapshotReply (s_to m) (fst (s_msg m)) (snd (s_msg m))) rf' Hinv Hi) as (Hwf&HT&Hc).
  { split; [by rewrite Hpe|]. intros _ _. rewrite Hz. pose proof (wf_commit _ Hwf0).
    destruct (ni_commit _ _ _ _ _ Hn). lia. }
  { unfold run, after. by rewrite Hr. }
  assert (rf' = rf \/ rf' = timer_reset (followed rf) \/
    rf' = progress (s_to m) 0 1 rf) as [->|[->| ->]].
  { apply (wp_run _ _ _ _ (fun _ rf' => rf' = rf \/ rf' = timer_reset (followed rf) \/
      rf' = progress (s_to m) 0 1 rf) Hr).
    apply wp_handleInstallSnapshotResponse; auto.
    - by rewrite (wf_next_len _ Hwf0), Hpe.
    - by rewrite (wf_next_len _ Hwf0), (wf_match_len _ Hwf0).
    - rewrite Hz. auto. }
  - by apply (sys_inv_same _ _ _ _ rf).
  - eapply sys_inv_plain; [done|exact Hi|done|done|raft_fields; done|auto|].
    eapply node_inv_demoted; [exact Hn|..]; try done; raft_fields; auto; apply Hn.
  - eapply sys_inv_plain; [done|exact Hi|done|done|done|done|].
    apply (node_inv_same _ _ _ _ rf); try done; try apply Hn.
    intros Hst p x Hx. cbn in Hx. apply list_lookup_insert_Some in Hx as [(_&<-&_)|[_ Hx]]; [by left|].
    destruct (ni_leader _ _ _ _ _ Hn Hst) as (r&_&_&_&Hmi). by apply Hmi.
Qed.

(** ** Restart *)

Lemma killed_with_same i c : c_from (killed_with i c) = c_from c /\ c_to (killed_with i c) = c_to c /\
  c_request (killed_with i c) = c_request c /\ c_status (killed_with i c) = c_status c.
Proof. unfold killed_with. by destruct (decide _). Qed.

Lemma step_restart_sys n g s i rf rf' (calls := killed_with i <$> c_calls (s_cluster s))
  (s' := forget i (set_cluster (mkCluster _ (<[i := rf']> (c_nodes (s_cluster s)))
           calls (c_votes (s_cluster s))) s)) :
  sys_inv n g s -> inv n (s_cluster s') -> node s i = Some rf ->
  Make (peers rf) (me rf) (persister rf) = Some rf' -> sys_inv n g s'.
Proof.
  intros Hinv Hel Hi Hm. pose proof (si_node _ _ _ Hinv _ _ Hi) as Hn.
  destruct (inv_node _ _ (si_cluster _ _ _ Hinv) _ _ Hi) as (_&_&_&Hd).
  destruct (node_run _ _ _ _ _ EvRestart rf' Hinv Hi) as (Hwf&HT&_); [done|done|].
  destruct (durable_Make (peers rf) (me rf) rf) as (rf1&Hm1&[]); [apply Hn|done|].
  rewrite Hm in Hm1. injection Hm1 as <-. rewrite (full_first _ (ni_full _ _ _ _ _ Hn)) in *.
  assert (forall c, c ∈ calls -> exists c0, c0 ∈ c_calls (s_cluster s) /\ c = killed_with i c0) as Hcalls.
  { intros c (c0&->&?)%list_elem_of_fmap. eauto. }
  apply (sys_inv_update n g g s s' i rf rf'); [exact Hinv|]. split; try done; auto using ext_refl.
  - eapply node_inv_demoted; [|done|done|done|done|by right|lia].
    apply (node_inv_other n g g (c_calls (s_cluster s))); auto using ext_refl.
    intros c (c0&Hc0&->)%Hcalls Hf. destruct (killed_with_same i c0) as (E1&_&E2&_).
    exists c0. by rewrite E2, <-E1.
  - by rewrite fresh_logs.
  - intros j _ c (c0&Hc0&->)%Hcalls Hf. destruct (killed_with_same i c0) as (E1&_&E2&_).
    exists c0. by rewrite E2, <-E1.
  - intros c (c0&Hc0&->)%Hcalls. unfold call_inv. destruct (killed_with_same i c0) as (_&->&->&->).
    by apply (si_call _ _ _ Hinv).
  - intros j es c. cbn. intros [Hne Hj]%lookup_delete_Some. left. split; [done|]. congruence.
Qed.

(** ** Elections *)

Lemma step_votes_majority n cl cl' : inv n cl -> RaftElection.step cl cl' ->
  forall j T, has_majority n cl j T -> has_majority n cl' j T.
Proof. intros Hinv Hs j T. apply majority_steps; [done|]. by apply rtc_once. Qed.

(** A vote: the log of the voter, if nobody has won the term. *)
Lemma vote_inv_new n g g' s s' i rf rf' T : sys_inv n g s -> ext g g' -> g_acks g' = g_acks g ->
  node s i = Some rf -> node s' i = Some rf' -> T <= currentTerm rf' -> currentTerm rf <= T ->
  (currentTerm rf = T -> g_led g !! T = None) ->
  vote_inv g' s' i T (logs rf).
Proof.
  intros Hinv He Ha Hi Hi' HT' HT Hnone. pose proof (si_node _ _ _ Hinv _ _ Hi) as Hn.
  split_and!; [apply Hn|eapply origin_ext; [exact He|apply Hn]|by exists rf'|].
  intros T0 m k r. rewrite Ha. intros Hack HT0 Hk Hr Hkept.
  destruct (si_ack _ _ _ Hinv _ _ _ Hack) as (_&r0&rf0&Hr0&Hlen&Hi0&_&Hpre).
  rewrite Hi in Hi0. injection Hi0 as <-. destruct (ext_led _ _ He _ _ Hr0) as (r'&Hr'&Hle).
  assert (r' = r) as -> by congruence.
  rewrite (take_prefix_eq (ld_log r0) (ld_log r)) in * by (try apply Hle; lia).
  apply Hpre; [done|]. intros T3 r3 H3 Hr3. apply (kept_between_ext _ _ _ _ _ He Hkept T3); [|done].
  assert (T3 <> T); [|lia]. intros ->. assert (currentTerm rf = T) as E by lia.
  rewrite (Hnone E) in Hr3. done.
Qed.

Lemma step_timeout_sys n g s i rf request rf'
  (s' := set_cluster (mkCluster _ (<[i := rf']> (c_nodes (s_cluster s)))
        (c_calls (s_cluster s) ++ vote_calls i (spawned rf rf'))
        (<[(i, currentTerm rf') := 1]> (c_votes (s_cluster s)))) s) :
  sys_inv n g s -> inv n (s_cluster s') -> RaftElection.step (s_cluster s) (s_cluster s') ->
  node s i = Some rf -> ticker_election rf = Some (request, rf') ->
  exists g', sys_inv n g' s'.
Proof.
  intros Hinv Hel Hstep Hi Hr. pose proof (si_node _ _ _ Hinv _ _ Hi) as Hn.
  destruct (node_range _ _ _ _ _ Hinv Hi) as (Hir&Hpe&Hme).
  set (g' := mkHistory _ (g_led g) (g_votes g ++ [(i, currentTerm rf + 1, logs rf)]) (g_acks g)).
  assert (ext g g') as He.
  { apply ext_more; [|done]. apply list_subseteq_app_l. done. }
  pose proof (ni_wf _ _ _ _ _ Hn) as Hwf0.
  assert (durable rf) as Hd0 by apply (inv_node _ _ (si_cluster _ _ _ Hinv) _ _ Hi).
  assert (wf rf') as Hwf.
  { apply (wp_run _ _ _ _ (fun _ rf' => wf rf') Hr). eapply wp_mono; [by apply ticker_election_good|].
    by intros ? ? [[? _] _]. }
  assert (forall c, c ∈ vote_calls i (spawned rf rf') -> c_from c = i /\ c_request c = request /\ c_status c = Sent)
    as Hcalls.
  { unfold spawned. rewrite (st_out _ _ _ (ticker_election_effect _ _ _ Hr)), drop_app_length.
    rewrite vote_calls_started. by intros c (p&->&_)%list_elem_of_fmap. }
  assert (currentTerm rf' = currentTerm rf + 1 /\ state rf' = StateCandidate /\ logs rf' = logs rf /\
    commitIndex rf' = commitIndex rf /\ lastApplied rf' = lastApplied rf /\
    rv_LastLogIndex request = last_index (logs rf) /\ rv_LastLogTerm request = last_term (logs rf))
    as (HT&Hs&Hl&Hc&Ha&Hq).
  { apply (wp_run _ _ _ _ (fun request rf' => currentTerm rf' = currentTerm rf + 1 /\ state rf' = StateCandidate /\
      logs rf' = logs rf /\ commitIndex rf' = commitIndex rf /\ lastApplied rf' = lastApplied rf /\
      rv_LastLogIndex request = last_index (logs rf) /\ rv_LastLogTerm request = last_term (logs rf)) Hr).
    apply wp_ticker_election; [apply Hwf0|]. by raft_fields. }
  exists g'. apply (sys_inv_update n g g' s s' i rf rf'); [exact Hinv|].
  assert (forall T, is_Some (c_votes (s_cluster s) !! (i, T)) -> T <= currentTerm rf) as Hold.
  { intros T. by apply (election_term n (s_cluster s)); [apply Hinv|]. }
  split; try done; auto.
  - lia.
  - split; rewrite ?Hl, ?HT, ?Hc, ?Ha, ?Hs; try done; try apply Hn.
    + pose proof (ni_term _ _ _ _ _ Hn). lia.
    + intros k e Hk%(ni_terms _ _ _ _ _ Hn). lia.
    + eapply safe_ext; [exact He| |apply Hn]. lia.
    + intros _. split_and!.
      * apply elem_of_app. right. by apply list_elem_of_here.
      * intros k e Hk%(ni_terms _ _ _ _ _ Hn). lia.
      * intros c [Hin|Hin]%elem_of_app Hf HTc.
        -- destruct (inv_call _ _ (si_cluster _ _ _ Hinv) _ Hin) as (_&_&_&Hsome).
           rewrite Hf, HTc in Hsome. apply Hold in Hsome. lia.
        -- destruct (Hcalls c Hin) as (_&->&_). done.
      * intros r Hr' Hid. destruct (li_majority _ _ _ _ _ (si_led _ _ _ Hinv _ _ Hr')) as (v&Hv&_).
        rewrite Hid in Hv. assert (is_Some (c_votes (s_cluster s) !! (i, currentTerm rf + 1))) as Hx by eauto.
        apply Hold in Hx. lia.
  - by rewrite Hl.
  - intros p T l [?|[= -> -> ->]]%elem_of_snoc; [by left|right].
    eapply (vote_inv_new n g g' s s' i rf rf'); try done; try lia.
    unfold node; cbn. apply lookup_insert_eq.
  - by apply step_votes_majority; [apply Hinv|].
  - intros j Hj c [?|Hin]%elem_of_app Hf; [eauto|]. destruct (Hcalls c Hin) as (?&_). congruence.
  - intros c [Hin|Hin]%elem_of_app.
    + intros Hg Hnone. destruct (si_call _ _ _ Hinv c Hin Hg Hnone) as (l&?&?). exists l.
      split; [apply elem_of_app; by left|done].
    + destruct (Hcalls c Hin) as (_&_&Hst). unfold call_inv. by rewrite Hst.
  - intros j es c Ht. left. split; [done|]. intros ->. lia.
Qed.

(** The peer kept its log; its role and term are the same or it follows a newer term. *)
Definition follows rf rf' : Prop :=
  logs rf' = logs rf /\ commitIndex rf' = commitIndex rf /\ lastApplied rf' = lastApplied rf /\
  (currentTerm rf' = currentTerm rf /\ state rf' = state rf /\ matchIndex rf' = matchIndex rf \/
   currentTerm rf <= currentTerm rf' /\ state rf' = StateFollower).

Lemma follows_term rf rf' : follows rf rf' -> currentTerm rf <= currentTerm rf'.
Proof. intros (_&_&_&[[-> _]|[? _]]); lia. Qed.

Lemma node_inv_follows n g calls i rf rf' : node_inv n g calls i rf -> wf rf' -> follows rf rf' ->
  node_inv n g calls i rf'.
Proof.
  intros Hn Hwf (Hl&Hc&Ha&Hcase). destruct Hcase as [(HT&Hs&Hm)|[HT Hs]].
  - apply (node_inv_same _ _ _ _ rf); try done; rewrite ?Hc, ?Ha, ?Hm; try apply Hn.
    intros Hst. destruct (ni_leader _ _ _ _ _ Hn Hst) as (r&_&_&_&Hmi). apply Hmi.
  - eapply node_inv_demoted; [exact Hn|..]; auto. rewrite Ha. apply Hn.
Qed.

Lemma calls_of_kept_status calls k c st j : calls !! k = Some c ->
  calls_of_kept calls (<[k := set_status st c]> calls) j.
Proof.
  intros Hk c' Hc' Hf. destruct (elem_of_set_status _ _ _ _ _ Hk Hc') as [->|?]; [|by exists c'].
  exists c. split; [by eapply list_elem_of_lookup_2|done].
Qed.

Lemma RequestVote_follows n g calls i request rf response rf' : node_inv n g calls i rf ->
  RequestVote request rf = Some (response, rf') -> follows rf rf' /\
    (rvr_VoteGranted response = true ->
       currentTerm rf <= rv_Term request /\ currentTerm rf' = rv_Term request /\
       up_to_date (rv_LastLogTerm request) (rv_LastLogIndex request) (logs rf)).
Proof.
  intros Hn Hr. apply (wp_run _ _ _ _ (fun response rf' => follows rf rf' /\
    (rvr_VoteGranted response = true ->
       currentTerm rf <= rv_Term request /\ currentTerm rf' = rv_Term request /\
       up_to_date (rv_LastLogTerm request) (rv_LastLogIndex request) (logs rf))) Hr).
  apply wp_RequestVote; [apply Hn|..].
  - intros _. split; [|done]. unfold follows; cbn. auto 10.
  - intros _ HT _. split; [|done]. unfold follows; raft_fields; split_and!; auto; right; split; (lia || done).
  - intros _ HT Hup. split; [|intros _; split_and!; [done|raft_fields; lia|done]].
    unfold follows; raft_fields; split_and!; auto; right; split; (lia || done).
Qed.

Lemma step_vote_sys n g s k c rf response rf'
  (s' := set_cluster (mkCluster _ (<[c_to c := rf']> (c_nodes (s_cluster s)))
        (<[k := set_status (Replied response) c]> (c_calls (s_cluster s)))
        (c_votes (s_cluster s))) s) :
  sys_inv n g s -> inv n (s_cluster s') -> c_calls (s_cluster s) !! k = Some c ->
  node s (c_to c) = Some rf -> RequestVote (c_request c) rf = Some (response, rf') ->
  exists g', sys_inv n g' s'.
Proof.
  intros Hinv Hel Hk Hi Hr. pose proof (si_node _ _ _ Hinv _ _ Hi) as Hn.
  destruct (node_run _ _ _ _ _ (EvRequestVote (c_request c)) rf' Hinv Hi) as (Hwf&HT&Hc);
    [done|unfold run, after; by rewrite Hr|].
  destruct (RequestVote_follows _ _ _ _ _ _ _ _ Hn Hr) as [Hfol Hgr].
  assert (forall g', ext g g' -> g_led g' = g_led g -> g_acks g' = g_acks g ->
    (forall p T l, (p, T, l) ∈ g_votes g' -> (p, T, l) ∈ g_votes g \/ vote_inv g' s' p T l) ->
    call_inv g' (set_status (Replied response) c) -> sys_inv n g' s') as Hmoved.
  { intros g' He Eled Eack Hvotes Hcall. apply (sys_inv_update n g g' s s' (c_to c) rf rf'); [exact Hinv|].
    split; try done; auto; rewrite ?Eled, ?Eack; auto.
    - apply (node_inv_follows _ _ _ _ rf); [|done|done].
      apply (node_inv_other n g g' (c_calls (s_cluster s))); rewrite ?Eled; auto. by apply calls_of_kept_status.
    - intros. by destruct Hfol as (->&_).
    - intros j _. by apply calls_of_kept_status.
    - intros c' Hc'. destruct (elem_of_set_status _ _ _ _ _ Hk Hc') as [->|Hin]; [done|].
      intros Hg. rewrite Eled. intros Hnone. destruct (si_call _ _ _ Hinv c' Hin Hg Hnone) as (l&?&?).
      exists l. split; [by apply (ext_votes _ _ He)|done].
    }
  destruct (decide (rvr_VoteGranted response = true /\ g_led g !! rv_Term (c_request c) = None)) as [[Hv Hnone]|Hnv].
  - destruct (Hgr Hv) as (HT1&HT2&Hup).
    set (g' := mkHistory _ (g_led g) (g_votes g ++ [(c_to c, rv_Term (c_request c), logs rf)]) (g_acks g)).
    assert (ext g g') as He by (apply ext_more; [by apply list_subseteq_app_l|done]).
    exists g'. apply Hmoved; try done.
    + intros p T l [?|[= -> -> ->]]%elem_of_snoc; [by left|right].
      eapply (vote_inv_new n g g' s s' (c_to c) rf rf'); try done; try lia.
      unfold node; cbn. apply lookup_insert_eq.
    + intros _ _. exists (logs rf). split; [|done]. apply elem_of_app. right. by apply list_elem_of_here.
  - exists g. apply Hmoved; auto using ext_refl. intros Hv Hnone. destruct Hnv. by split.
Qed.

(** What a reply to a vote request does. *)
Lemma electionReply_cases n g calls i request response v rf v' rf' : node_inv n g calls i rf ->
  electionReply request response v rf = Some (v', rf') ->
  follows rf rf' \/
  (state rf = StateCandidate /\ currentTerm rf' = currentTerm rf /\ state rf' = StateLeader /\
   logs rf' = logs rf /\ commitIndex rf' = commitIndex rf /\ lastApplied rf' = lastApplied rf /\
   matchIndex rf' = replicate (peers rf) 0).
Proof.
  intros Hn Hr. pose proof (ni_wf _ _ _ _ _ Hn) as Hwf.
  apply (wp_run _ _ _ _ (fun _ rf' => follows rf rf' \/
    (state rf = StateCandidate /\ currentTerm rf' = currentTerm rf /\ state rf' = StateLeader /\
     logs rf' = logs rf /\ commitIndex rf' = commitIndex rf /\ lastApplied rf' = lastApplied rf /\
     matchIndex rf' = replicate (peers rf) 0)) Hr).
  assert (follows rf rf) as Hrefl by (unfold follows; auto 10).
  apply wp_electionReply; try apply Hwf; auto.
  - intros _ Hs _ _. right. by raft_fields.
  - intros _ _ _ HT. left. unfold follows; raft_fields; split_and!; auto; right; split; (lia || done).
Qed.

(** The leadership that peer [i] with state [rf] begins. *)
Definition new_lead (cl : Cluster C) (i : Z) rf : Leadership C :=
  mkLead C i (logs rf) (voters cl i (currentTerm rf)) (logs rf).
Definition with_lead (T : Z) r g : History C :=
  mkHistory _ (<[T := r]> (g_led g)) (g_votes g) (g_acks g).

Lemma ext_with_lead T r g : g_led g !! T = None -> ext g (with_lead T r g).
Proof.
  intros Hnone. split; [|done..]. intros T0 r0 Hr0. exists r0. split; [|apply lead_ext_refl].
  cbn. rewrite lookup_insert_ne; [done|]. congruence.
Qed.

Lemma up_to_date_refl l : up_to_date (last_term l) (last_index l) l.
Proof. right. lia. Qed.

Section win.
Context n g s s' k c response i rf (Hinv : sys_inv n g s) (Hel : inv n (s_cluster s'))
  (Hk : c_calls (s_cluster s) !! k = Some c) (Hst : c_status c = Replied response)
  (Hcalls : c_calls (s_cluster s') = <[k := set_status (Finished response) c]> (c_calls (s_cluster s)))
  (Hi : node s i = Some rf) (Hs : state rf = StateCandidate)
  (Hmaj : has_majority n (s_cluster s') i (currentTerm rf))
  (Hmajs : forall j T, has_majority n (s_cluster s) j T -> has_majority n (s_cluster s') j T).

Lemma win_new : g_led g !! currentTerm rf = None.
Proof.
  destruct (g_led g !! currentTerm rf) as [r|] eqn:Hr; [|done].
  destruct (ni_candidate _ _ _ _ _ (si_node _ _ _ Hinv _ _ Hi) Hs) as (_&_&_&Hn). destruct (Hn r Hr).
  eapply majority_once; [exact Hel| |exact Hmaj]. by apply Hmajs, (si_led _ _ _ Hinv _ _ Hr).
Qed.

Lemma win_call c' : c' ∈ c_calls (s_cluster s') -> call_inv g c'.
Proof.
  rewrite Hcalls. intros Hc'. destruct (elem_of_set_status _ _ _ _ _ Hk Hc') as [->|Hin].
  - intros Hg Hnone. apply (si_call _ _ _ Hinv c); [by eapply list_elem_of_lookup_2| |done].
    by rewrite Hst.
  - by apply (si_call _ _ _ Hinv).
Qed.

(** Every voter was no more up to date than the winner. *)
Lemma win_voters p : voted (s_cluster s') p (currentTerm rf) i ->
  exists l, (p, currentTerm rf, l) ∈ g_votes g /\ up_to_date (last_term (logs rf)) (last_index (logs rf)) l.
Proof.
  destruct (ni_candidate _ _ _ _ _ (si_node _ _ _ Hinv _ _ Hi) Hs) as (Hself&_&Hreq&_).
  intros [c' Hc' Hkey Hg| -> _].
  - unfold c_key in Hkey. injection Hkey as Hf HT Hto.
    assert (exists c0, c0 ∈ c_calls (s_cluster s) /\ c_from c0 = i /\ c_request c0 = c_request c') as (c0&Hin&Hf0&E).
    { pose proof Hc' as Hx. rewrite Hcalls in Hx.
      apply (calls_of_kept_status _ _ _ (Finished response) i Hk c' Hx Hf). }
    destruct (Hreq c0 Hin Hf0) as [Ei Et]; [congruence|]. rewrite <-Ei, <-Et, E, <-Hto, <-HT.
    apply win_call; [done|done|]. rewrite HT. apply win_new.
  - exists (logs rf). split; [done|]. apply up_to_date_refl.
Qed.

Lemma win_lead : lead_inv n (with_lead (currentTerm rf) (new_lead (s_cluster s') i rf) g) (s_cluster s')
  (currentTerm rf) (new_lead (s_cluster s') i rf).
Proof.
  pose proof (si_node _ _ _ Hinv _ _ Hi) as Hn.
  destruct (ni_candidate _ _ _ _ _ Hn Hs) as (_&Hterms&_&_). pose proof (ni_full _ _ _ _ _ Hn) as Hf.
  split; cbn.
  - destruct Hf as [_ Hz]. specialize (Hterms _ _ Hz). cbn in Hterms. lia.
  - exact Hmaj.
  - by split.
  - done.
  - eapply origin_ext; [apply ext_with_lead, win_new|apply Hn].
  - exact Hterms.
  - intros j e He Hj. apply lookup_lt_Some in He. lia.
  - destruct (voters_spec _ _ _ _ Hel Hmaj) as (?&?&Hv). split_and!; [done..|].
    intros p Hp. destruct (Hv p Hp) as [Hvo ?]. split; [done|]. by apply win_voters.
Qed.
End win.

Lemma step_vote_reply_sys n g s k c response v rf v' rf'
  (s' := set_cluster (mkCluster _ (<[c_from c := rf']> (c_nodes (s_cluster s)))
        (<[k := set_status (Finished response) c]> (c_calls (s_cluster s)))
        (<[(c_from c, rv_Term (c_request c)) := v']> (c_votes (s_cluster s)))) s) :
  sys_inv n g s -> inv n (s_cluster s') -> RaftElection.step (s_cluster s) (s_cluster s') ->
  c_calls (s_cluster s) !! k = Some c -> c_status c = Replied response ->
  node s (c_from c) = Some rf -> electionReply (c_request c) response v rf = Some (v', rf') ->
  exists g', sys_inv n g' s'.
Proof.
  intros Hinv Hel Hstep Hk Hst Hi Hr. pose proof (si_node _ _ _ Hinv _ _ Hi) as Hn.
  destruct (node_run _ _ _ _ _ (EvElectionReply (c_request c) response v) rf' Hinv Hi) as (Hwf&HT&Hc);
    [done|unfold run, after; by rewrite Hr|].
  pose proof (step_votes_majority _ _ _ (si_cluster _ _ _ Hinv) Hstep) as Hmajs.
  assert (forall j, calls_of_kept (c_calls (s_cluster s)) (c_calls (s_cluster s')) j) as Hkept
    by (intros j; by apply calls_of_kept_status).
  pose proof (win_call n g s s' k c response Hinv Hk Hst eq_refl) as Hcall.
  destruct (electionReply_cases _ _ _ _ _ _ _ _ _ _ Hn Hr) as [Hfol|(Hs&HT'&Hs'&Hl&Hci&Ha&Hm)].
  - exists g. apply (sys_inv_update n g g s s' (c_from c) rf rf'); [exact Hinv|].
    split; try done; auto using ext_refl.
    + apply (node_inv_follows _ _ _ _ rf); [|done|done].
      apply (node_inv_other n g g (c_calls (s_cluster s))); auto using ext_refl.
    + intros. by destruct Hfol as (->&_).
  - assert (has_majority n (s_cluster s') (c_from c) (currentTerm rf)) as Hmaj.
    { rewrite <-HT'. apply (inv_leader _ _ Hel (c_from c)); [|done]. cbn. apply lookup_insert_eq. }
    pose proof (win_new n g s s' (c_from c) rf Hinv Hel Hi Hs Hmaj Hmajs) as Hnone.
    pose proof (win_lead n g s s' k c response (c_from c) rf Hinv Hel Hk Hst eq_refl Hi Hs Hmaj Hmajs) as Hlead.
    set (g' := with_lead (currentTerm rf) (new_lead (s_cluster s') (c_from c) rf) g) in *.
    pose proof (ext_with_lead _ (new_lead (s_cluster s') (c_from c) rf) _ Hnone) as He.
    exists g'. apply (sys_inv_update n g g' s s' (c_from c) rf rf'); [exact Hinv|].
    split; try done; auto.
    + split; rewrite ?Hl, ?HT', ?Hci, ?Ha, ?Hs'; try done; try apply Hn.
      * eapply origin_ext; [exact He|apply Hn].
      * eapply safe_ext; [exact He|reflexivity|apply Hn].
      * intros _. exists (new_lead (s_cluster s') (c_from c) rf). split_and!; [apply lookup_insert_eq|done|done|].
        intros p m. rewrite Hm. intros [-> _]%lookup_replicate. by left.
    + by rewrite Hl.
    + intros T r. cbn. rewrite lookup_insert_Some. intros [[<- <-]|[_ ?]]; [by right|by left].
    + intros T r Hr0 _. cbn. rewrite lookup_insert_ne; [done|]. congruence.
    + intros c' Hc' Hg Hn'. apply Hcall in Hc'. apply Hc'; [done|].
      cbn in Hn'. by apply lookup_insert_None in Hn' as [? _].
Qed.

(** ** Client commands *)

(** The leader of [T] appends an entry and acknowledges it. *)
Definition grown r (e : Entry C) : Leadership C := mkLead C (ld_id r) (ld_base r) (ld_voters r) (ld_log r ++ [e]).
Definition with_entry (T : Z) r (e : Entry C) g : History C :=
  mkHistory _ (<[T := grown r e]> (g_led g)) (g_votes g) (g_acks g ++ [(ld_id r, T, length (ld_log r))]).

Lemma ext_with_entry T r e g : g_led g !! T = Some r -> ext g (with_entry T r e g).
Proof.
  intros Hr. split; [|done|by apply list_subseteq_app_l]. intros T0 r0 Hr0. cbn.
  destruct (decide (T = T0)) as [<-|].
  - rewrite Hr in Hr0. injection Hr0 as <-. rewrite lookup_insert_eq. eexists. split; [done|].
    split; try done. by apply prefix_app_r.
  - rewrite lookup_insert_ne by done. exists r0. split; [done|apply lead_ext_refl].
Qed.

Lemma grown_lead n g cl cl' T r e : lead_inv n g cl T r -> g_led g !! T = Some r ->
  (forall j T, has_majority n cl j T -> has_majority n cl' j T) ->
  e_Index e = len (ld_log r) -> e_Term e = T ->
  lead_inv n (with_entry T r e g) cl' T (grown r e).
Proof.
  intros Hl Hr Hm Hi HT. pose proof (ext_with_entry T r e g Hr) as He.
  pose proof (lead_inv_ext _ _ _ _ _ _ _ He Hm Hl) as Hl'. destruct (li_full _ _ _ _ _ Hl) as [Hfb Hfl].
  split; try apply Hl'; cbn.
  - split; [done|]. by apply full_app.
  - etrans; [apply Hl|]. by apply prefix_app_r.
  - intros k x Hk Hpos. pose proof Hk as [Hx|[Hlen Hx]]%lookup_app_Some.
    + destruct (li_origin _ _ _ _ _ Hl' k x Hx Hpos) as (r0&Hr0&Hp). exists r0. split; [done|].
      rewrite take_app_le; [done|]. apply lookup_lt_Some in Hx. lia.
    + apply list_lookup_singleton_Some in Hx as [? <-]. exists (grown r e). rewrite HT.
      split; [apply lookup_insert_eq|]. apply prefix_take.
  - intros k x [Hx|[Hlen Hx]]%lookup_app_Some Hk; [by apply (li_own _ _ _ _ _ Hl k)|].
    by apply list_lookup_singleton_Some in Hx as [? <-].
Qed.

Lemma take_S_app_le (l x : list (Entry C)) c : 0 <= c < len l ->
  take (S (Z.to_nat c)) (l ++ x) = take (S (Z.to_nat c)) l.
Proof. intros. apply take_app_le. lia. Qed.

Lemma step_start_sys n g s i command rf res rf' : sys_inv n g s -> inv n (s_cluster (set_node i rf' s)) ->
  node s i = Some rf -> Start command rf = Some (res, rf') -> exists g', sys_inv n g' (set_node i rf' s).
Proof.
  intros Hinv Hel Hi Hr. pose proof (si_node _ _ _ Hinv _ _ Hi) as Hn. pose proof (ni_wf _ _ _ _ _ Hn) as Hwf0.
  destruct (node_run _ _ _ _ _ (EvStart command) rf' Hinv Hi) as (Hwf&HT&Hc);
    [done|unfold run, after; by rewrite Hr|]. destruct (node_range _ _ _ _ _ Hinv Hi) as (Hir&Hpe&Hme).
  pose proof (ni_full _ _ _ _ _ Hn) as Hf.
  set (e := mkEntry C (len (logs rf)) (currentTerm rf) (Some command)).
  assert (rf' = rf \/ state rf = StateLeader /\ logs rf' = logs rf ++ [e] /\ currentTerm rf' = currentTerm rf /\
    state rf' = StateLeader /\ commitIndex rf' = commitIndex rf /\ lastApplied rf' = lastApplied rf /\
    matchIndex rf' = <[Z.to_nat i := len (logs rf)]> (matchIndex rf)) as [->|(Hs&Hl&HT'&Hs'&Hc'&Ha&Hm)].
  { apply (wp_run _ _ _ _ (fun _ rf' => rf' = rf \/ state rf = StateLeader /\ logs rf' = logs rf ++ [e] /\
      currentTerm rf' = currentTerm rf /\ state rf' = StateLeader /\ commitIndex rf' = commitIndex rf /\
      lastApplied rf' = lastApplied rf /\ matchIndex rf' = <[Z.to_nat i := len (logs rf)]> (matchIndex rf)) Hr).
    apply wp_Start; [apply Hwf0|rewrite (wf_next_len _ Hwf0); apply Hwf0|
      by rewrite (wf_next_len _ Hwf0), (wf_match_len _ Hwf0)|by left|].
    intros Hs. right. unfold appended, e. rewrite (full_last _ Hf), Hme.
    replace (len (logs rf) - 1 + 1) with (len (logs rf)) by lia. done. }
  { exists g. by apply (sys_inv_same _ _ _ _ rf). }
  destruct (ni_leader _ _ _ _ _ Hn Hs) as (r&Hlr&Hid&Hlog&Hmi).
  set (g' := with_entry (currentTerm rf) r e g). pose proof (ext_with_entry _ r e g Hlr) as He.
  assert (lead_inv n g' (s_cluster (set_node i rf' s)) (currentTerm rf) (grown r e)) as Hlead.
  { apply (grown_lead n g (s_cluster s)); [by apply (si_led _ _ _ Hinv)|done|done|cbn; by rewrite Hlog|done]. }
  assert ((i, currentTerm rf, length (logs rf)) ∈ g_acks g') as Hack.
  { apply elem_of_app. right. rewrite Hid, Hlog. by apply list_elem_of_here. }
  assert (grown r e = mkLead C i (ld_base r) (ld_voters r) (logs rf')) as Eg.
  { unfold grown. by rewrite Hid, Hlog, Hl. }
  exists g'. apply (sys_inv_update n g g' s _ i rf rf'); [exact Hinv|]. split; try done; auto.
  - split; rewrite ?HT', ?Hc', ?Ha, ?Hs'; try done; try apply Hn.
    + destruct Hlead as [_ _ [_ Hfg] _ _ _ _ _]. by rewrite Eg in Hfg.
    + pose proof (li_origin _ _ _ _ _ Hlead) as Ho. by rewrite Eg in Ho.
    + intros k x. rewrite Hl. intros [Hx|[_ Hx]]%lookup_app_Some; [by apply (ni_terms _ _ _ _ _ Hn k)|].
      by apply list_lookup_singleton_Some in Hx as [? <-].
    + eapply safe_log; [eapply safe_ext; [exact He|reflexivity|apply Hn]|]. rewrite Hl. apply take_S_app_le.
      pose proof (wf_commit _ Hwf0) as [? ?]. rewrite (full_first _ Hf), (full_last _ Hf) in *. lia.
    + intros _. exists (grown r e). split_and!; [apply lookup_insert_eq|done|by rewrite Eg|].
      intros p m. rewrite Hm. intros [(<-&<-&_)|[_ Hp]]%list_lookup_insert_Some.
      * right. split; [lia|]. rewrite Z2Nat.id by lia. by rewrite Nat2Z.id.
      * destruct (Hmi p m Hp) as [?|[? ?]]; [by left|right]. split; [done|by apply (ext_acks _ _ He)].
  - intros T m k r0 _ _ _ _ _ Hp. rewrite Hl. etrans; [exact Hp|]. by apply prefix_app_r.
  - intros T r0. cbn. rewrite lookup_insert_Some. intros [[<- <-]|[_ ?]]; [right|by left]. split; [done|]. exact Hlead.
  - intros T r0 Hr0 Hne. cbn. rewrite lookup_insert_ne; [done|]. congruence.
  - intros p T m [?|[= -> -> ->]]%elem_of_snoc; [by left|right]. rewrite Hid.
    split_and!; [done|done|]. split; [done|]. exists (grown r e), rf'. split_and!; [apply lookup_insert_eq|..].
    + cbn. rewrite length_app. cbn. lia.
    + unfold node; cbn. apply lookup_insert_eq.
    + lia.
    + intros k _ _. rewrite Eg; cbn. apply prefix_take.
  - intros j _. apply calls_of_kept_refl.
  - intros c Hcc Hg Hnone. cbn in Hnone. apply lookup_insert_None in Hnone as [Hnone _].
    destruct (si_call _ _ _ Hinv c Hcc Hg Hnone) as (l&?&?). eauto.
Qed.

(** ** Responses *)

(** The peers whose match index is at least [v]. *)
Definition quorum (l : list Z) (v : Z) : list Z :=
  Z.of_nat <$> filter (fun k => default (v - 1) (l !! k) >= v) (seq 0 (length l)).

Lemma quorum_length (l : list Z) v : len (quorum l v) = count_ge v l.
Proof.
  unfold quorum, count_ge. rewrite length_fmap. f_equal.
  induction l as [|x l IH] using rev_ind; [done|].
  rewrite length_app, seq_app, !filter_app, !length_app. f_equal.
  - rewrite <-IH. f_equal. apply filter_ext_in. intros k Hk%elem_of_seq.
    by rewrite lookup_app_l by lia.
  - rewrite Nat.add_0_l. change (seq (length l) (length [x])) with [length l].
    rewrite !filter_cons, !filter_nil, list_lookup_middle by done. cbn [default].
    repeat case_decide; cbn in *; lia.
Qed.

Lemma quorum_spec (l : list Z) v : NoDup (quorum l v) /\
  forall p, p ∈ quorum l v -> 0 <= p < len l /\ exists m, l !! Z.to_nat p = Some m /\ v <= m.
Proof.
  split.
  - apply NoDup_fmap_2; [apply _|]. apply NoDup_filter, NoDup_seq.
  - intros p (k&->&[Hv Hk%elem_of_seq]%list_elem_of_filter)%list_elem_of_fmap. split; [lia|].
    rewrite Nat2Z.id. destruct (l !! k) as [m|] eqn:E; cbn in Hv; [exists m; split; [done|lia]|lia].
Qed.

(** What a majority of the match indices reaches is committed. *)
Lemma match_committed n g i calls rf ms v : node_inv n g calls i rf -> state rf = StateLeader ->
  length ms = n -> majority ms v -> 0 < v -> term_at (logs rf) v = Some (currentTerm rf) ->
  (forall p m, ms !! p = Some m -> m = 0 \/ 0 <= m /\ (Z.of_nat p, currentTerm rf, Z.to_nat m) ∈ g_acks g) ->
  safe n g (currentTerm rf) v (logs rf).
Proof.
  intros Hn Hs Hlen [Hmaj _] Hv Ht Hms. pose proof (ni_full _ _ _ _ _ Hn) as Hf.
  destruct (ni_leader _ _ _ _ _ Hn Hs) as (r&Hr&_&Hlog&_).
  unfold term_at in Ht. rewrite full_entry_at in Ht by (done || lia). apply fmap_Some in Ht as (e&He&HT).
  split; [lia|right]. exists (currentTerm rf), (Z.to_nat v), r.
  split_and!; [|lia|lia|done|by rewrite Hlog].
  exists r, e. rewrite Hlog. split_and!; [done..|]. destruct (quorum_spec ms v) as [Hnd Hq].
  exists (quorum ms v). rewrite quorum_length, Hlen in *. split_and!; [done| |done|].
  - intros p Hp. by apply Hq.
  - intros p Hp. destruct (Hq p Hp) as (Hp0&m&Hm&Hvm). exists (Z.to_nat m). split; [lia|].
    destruct (Hms _ _ Hm) as [?|[_ Hack]]; [lia|]. by rewrite Z2Nat.id in Hack by lia.
Qed.

Lemma request_last n g i calls rf m : node_inv n g calls i rf -> state rf = StateLeader ->
  request_inv n g m -> currentTerm rf = ae_Term (s_msg m) ->
  ae_PrevLogIndex (s_msg m) + len (ae_Entries (s_msg m)) <= last_index (logs rf).
Proof.
  intros Hn Hs (_&_&Hp&r&e&Hr&Hk&_&Hpre&_) HT. destruct (ni_leader _ _ _ _ _ Hn Hs) as (r0&Hr0&_&Hlog&_).
  assert (r0 = r) as -> by congruence. rewrite (full_last _ (ni_full _ _ _ _ _ Hn)), <-Hlog.
  pose proof (lookup_lt_Some _ _ _ Hk). apply prefix_length in Hpre.
  rewrite length_app, length_take in Hpre. lia.
Qed.

Lemma step_append_reply_inv n g s m rf rf' : sys_inv n g s -> inv n (s_cluster (set_node (s_from m) rf' s)) ->
  m ∈ s_responses s -> node s (s_from m) = Some rf ->
  handleAppendEntriesResponse (s_to m) (fst (s_msg m)) (snd (s_msg m)) rf = Some (tt, rf') ->
  sys_inv n g (set_node (s_from m) rf' s).
Proof.
  intros Hinv Hel Hm Hi Hr. pose proof (si_node _ _ _ Hinv _ _ Hi) as Hn. pose proof (ni_wf _ _ _ _ _ Hn) as Hwf0.
  pose proof (si_response _ _ _ Hinv _ Hm) as Hresp. unfold response_inv in Hresp.
  destruct (s_msg m) as [q resp]; cbn [fst snd] in *. destruct Hresp as (Hq&Hack&Hconf).
  destruct (node_range _ _ _ _ _ Hinv Hi) as (Hir&Hpe&_). pose proof Hq as (Hto&_&Hprev&_).
  cbn [s_to s_msg] in Hto, Hprev.
  pose proof (wf_match_len _ Hwf0) as Hml. pose proof (wf_next_len _ Hwf0) as Hnl.
  assert (state rf = StateLeader -> currentTerm rf = ae_Term q ->
    ae_PrevLogIndex q + len (ae_Entries q) <= last_index (logs rf)) as Hlast.
  { intros Hs HT. by apply (request_last _ _ _ _ _ _ Hn Hs Hq). }
  destruct (node_run _ _ _ _ _ (EvAppendReply (s_to m) q resp) rf' Hinv Hi) as (Hwf&HT&Hc);
    [split; [by rewrite Hpe|by split]|unfold run, after; by rewrite Hr|].
  set (mi := ae_PrevLogIndex q + len (ae_Entries q)) in *.
  set (ms := <[Z.to_nat (s_to m) := mi]> (matchIndex rf)).
  assert (follows rf rf' \/ state rf = StateLeader /\ currentTerm rf' = currentTerm rf /\ logs rf' = logs rf /\
    state rf' = state rf /\ lastApplied rf' = lastApplied rf /\ currentTerm rf = ae_Term q /\ aer_Success resp = true /\ matchIndex rf' = ms /\
    (commitIndex rf' = commitIndex rf \/ majority ms (commitIndex rf') /\ commitIndex rf < commitIndex rf' /\
       term_at (logs rf) (commitIndex rf') = Some (currentTerm rf))) as Hcases.
  { apply (wp_run _ _ _ _ (fun _ rf' => follows rf rf' \/ state rf = StateLeader /\ currentTerm rf' = currentTerm rf /\
      logs rf' = logs rf /\ state rf' = state rf /\ lastApplied rf' = lastApplied rf /\ currentTerm rf = ae_Term q /\ aer_Success resp = true /\ matchIndex rf' = ms /\
      (commitIndex rf' = commitIndex rf \/ majority ms (commitIndex rf') /\ commitIndex rf < commitIndex rf' /\
         term_at (logs rf) (commitIndex rf') = Some (currentTerm rf))) Hr).
    assert (follows rf rf) as Hrefl by (unfold follows; auto 10).
    apply wp_handleAppendEntriesResponse; auto.
    - apply Hwf0.
    - apply Hwf0.
    - by rewrite Hnl, Hpe.
    - by rewrite Hnl.
    - intros Hs HTq. specialize (Hlast Hs HTq). lia.
    - intros Hs HTq Hsucc v Hv. split; intros; right; cbn; split_and!; auto.
    - intros _ _ _ HTr. left. unfold follows; raft_fields; split_and!; auto; right; split; (lia || done).
    }
  destruct Hcases as [Hfol|(Hs&HT'&Hl&Hs'&Ha&HTq&Hsucc&Hms&Hcm)].
  - pose proof Hfol as (?&?&_). eapply sys_inv_plain; [done|exact Hi|done|done|done|lia|].
    by apply (node_inv_follows _ _ _ _ rf).
  - eapply sys_inv_plain; [done|exact Hi|done|done|done|by apply Hc|].
    assert (forall p x, ms !! p = Some x -> x = 0 \/ 0 <= x /\ (Z.of_nat p, currentTerm rf, Z.to_nat x) ∈ g_acks g) as Hmi.
    { intros p x [(<-&<-&_)|[_ Hx]]%list_lookup_insert_Some.
      - right. split; [unfold mi; lia|]. rewrite Z2Nat.id, HTq by lia. by apply Hack.
      - destruct (ni_leader _ _ _ _ _ Hn Hs) as (r&_&_&_&Hmi). by apply Hmi. }
    apply (node_inv_same _ _ _ _ rf); try done; rewrite ?Ha, ?Hms; try apply Hn; [|done].
    destruct Hcm as [->|(Hmaj&Hlt&Ht)]; [apply Hn|].
    eapply match_committed; [exact Hn|done| |exact Hmaj| |done|done].
    + unfold ms. by rewrite length_insert, Hml.
    + destruct (ni_commit _ _ _ _ _ Hn). lia.
Qed.
End replicate.
