(* ===== verification/RaftAppend.v ===== *)
(** * AppendEntries in a cluster

    Log matching ([log_matching]): logs that have an entry of the same index and term
    agree up to it. With it, what [AppendEntries] makes of a log is either the part of
    the leader's log the request carries or the old log, when it already has that part
    ([merged_cases]); no entry that the leader has is lost ([merged_prefix]). *)
From Stdlib Require Import Strings.Byte.
From S2P Require Import Prelude Labgob Persister RaftTypes RaftNode RaftLog RaftSpec RaftReplication RaftLeader RaftSnapshot RaftInv RaftVotes RaftElection RaftSystem RaftHistory RaftPreserve RaftReplicate.

Section append.
Context {C : Type} `{Gob Z} `{Gob (list (Entry C))} `{Rand} `{Alloc}.
Context `{!GobLaws Z} `{!GobLaws (list (Entry C))}.
Implicit Types (rf : Raft C) (s : System C) (l : list (Entry C)) (g : History C) (r : Leadership C).

Lemma log_matching g l l' k e e' : full l -> full l' -> origin g l -> origin g l' ->
  l !! k = Some e -> l' !! k = Some e' -> e_Term e = e_Term e' ->
  forall j, (j <= k)%nat -> l !! j = l' !! j.
Proof.
  intros [_ Hz] [_ Hz'] Ho Ho' Hk Hk' HT j Hj.
  destruct (decide (k = 0)%nat) as [->|Hpos]; [assert (j = 0%nat) as -> by lia; congruence|].
  destruct (Ho k e Hk) as (r&Hr&Hp); [lia|]. destruct (Ho' k e' Hk') as (r'&Hr'&Hp'); [lia|].
  assert (r' = r) as -> by congruence.
  pose proof (lookup_lt_Some _ _ _ Hk). pose proof (lookup_lt_Some _ _ _ Hk').
  rewrite take_prefix_lookup in Hp, Hp' by done. rewrite <-Hp, <-Hp' by done. done.
Qed.

Lemma full_prefix l l' : l `prefix_of` l' -> l <> [] -> full l' -> full l.
Proof.
  intros [x ->] Hne [[_ Hc] Hz]. destruct l as [|e l]; [done|]. cbn in Hz.
  split; [|done]. split; [done|]. cbn in *. destruct Hc as [? Hc]. split; [done|].
  rewrite consecutive_app in Hc. apply Hc.
Qed.

Lemma full_drop_consecutive l k : full l -> (k <= length l)%nat -> consecutive (Z.of_nat k) (drop k l).
Proof.
  intros Hf Hk. apply consecutive_lookup. intros j e. rewrite lookup_drop. intros He.
  rewrite (full_index _ _ _ Hf He). lia.
Qed.

(** ** The merged log *)

(** If entries of equal terms are equal, merging yields the new entries or the old. *)
Lemma merge_ref_cases (suf entries : list (Entry C)) :
  (forall k x y, suf !! k = Some x -> entries !! k = Some y -> e_Term x = e_Term y -> x = y) ->
  merge_ref suf entries = entries \/ merge_ref suf entries = suf /\ entries `prefix_of` suf.
Proof.
  revert suf. induction entries as [|y entries IH]; intros suf Hm.
  { right. split; [by destruct suf|apply prefix_nil]. }
  destruct suf as [|x suf]; simpl; [by left|]. case_decide as E; [|by left].
  assert (x = y) as -> by (by apply (Hm 0%nat)).
  destruct (IH suf) as [->|[-> Hp]]; [intros k; apply (Hm (S k))|by left|right].
  split; [done|]. by apply prefix_cons.
Qed.

Lemma merge_ref_have (suf entries : list (Entry C)) :
  entries `prefix_of` suf -> merge_ref suf entries = suf.
Proof.
  intros [x ->]. induction entries as [|y entries IH]; simpl; [by destruct x|].
  by rewrite decide_True, IH.
Qed.

(** A request of the leader [r] that matches log [l] at [prev]. *)
Record matching g r l (prev : Z) (entries : list (Entry C)) : Prop := {
  mt_full : full l /\ full (ld_log r);
  mt_origin : origin g l /\ origin g (ld_log r);
  mt_prev : 0 <= prev;
  mt_term : exists e e', l !! Z.to_nat prev = Some e /\ ld_log r !! Z.to_nat prev = Some e' /\
    e_Term e = e_Term e';
  mt_entries : take (S (Z.to_nat prev)) (ld_log r) ++ entries `prefix_of` ld_log r
}.

Definition carried r (prev : Z) (entries : list (Entry C)) : list (Entry C) :=
  take (S (Z.to_nat prev)) (ld_log r) ++ entries.

Section merged.
Context g r l prev entries (Hm : matching g r l prev entries).

Lemma matching_take : take (S (Z.to_nat prev)) l = take (S (Z.to_nat prev)) (ld_log r).
Proof.
  destruct Hm as [[Hf Hf'] [Ho Ho'] _ (e&e'&He&He'&HT) _].
  apply list_eq. intros j. destruct (decide (j <= Z.to_nat prev)%nat).
  - rewrite !lookup_take_lt by lia. by eapply log_matching.
  - by rewrite !lookup_take_ge by lia.
Qed.

Lemma carried_length : length (carried r prev entries) = (S (Z.to_nat prev) + length entries)%nat.
Proof.
  destruct (mt_term _ _ _ _ _ Hm) as (_&e'&_&He'&_). apply lookup_lt_Some in He'.
  unfold carried. rewrite length_app, length_take. lia.
Qed.

Lemma carried_lookup k : carried r prev entries !! (S (Z.to_nat prev) + k)%nat = entries !! k.
Proof.
  destruct (mt_term _ _ _ _ _ Hm) as (_&e'&_&He'&_). apply lookup_lt_Some in He'.
  unfold carried. rewrite lookup_app_r; rewrite length_take, Nat.min_l by lia; [|lia]. f_equal. lia.
Qed.

Lemma merged_unfold : merged l prev entries =
  take (S (Z.to_nat prev)) (ld_log r) ++ merge_ref (drop (S (Z.to_nat prev)) l) entries.
Proof.
  destruct (mt_full _ _ _ _ _ Hm) as [Hf _]. pose proof (mt_prev _ _ _ _ _ Hm).
  unfold merged. rewrite (full_first _ Hf).
  replace (Z.to_nat (prev + 1 - 0)) with (S (Z.to_nat prev)) by lia. by rewrite matching_take.
Qed.

Lemma old_split : l = take (S (Z.to_nat prev)) (ld_log r) ++ drop (S (Z.to_nat prev)) l.
Proof. by rewrite <-matching_take, take_drop. Qed.

Lemma merged_cases : merged l prev entries = carried r prev entries \/
  merged l prev entries = l /\ carried r prev entries `prefix_of` l.
Proof.
  rewrite merged_unfold. destruct (merge_ref_cases (drop (S (Z.to_nat prev)) l) entries) as [->|[-> [x Ex]]].
  - intros k x y. rewrite lookup_drop. intros Hx Hy HT. rewrite <-(carried_lookup k) in Hy.
    assert (ld_log r !! (S (Z.to_nat prev) + k)%nat = Some y) as Hy'.
    { eapply prefix_lookup_Some; [exact Hy|apply Hm]. }
    destruct Hm as [[Hf Hf'] [Ho Ho'] _ _ _].
    assert (Some x = Some y) as [= ->]; [|done]. rewrite <-Hx, <-Hy'. by eapply log_matching.
  - by left.
  - right. rewrite <-matching_take at 1. rewrite take_drop. split; [done|].
    unfold carried. rewrite old_split, Ex. rewrite app_assoc. by apply prefix_app_r.
Qed.

Lemma merged_have : carried r prev entries `prefix_of` l -> merged l prev entries = l.
Proof.
  intros Hp. rewrite merged_unfold, merge_ref_have; [by rewrite <-old_split|].
  rewrite old_split in Hp. by apply prefix_app_inv in Hp.
Qed.

Lemma carried_prefix : carried r prev entries `prefix_of` merged l prev entries.
Proof. destruct merged_cases as [->|[-> ?]]; done. Qed.

(** What both the leader and the peer have stays. *)
Lemma merged_prefix x : x `prefix_of` ld_log r -> x `prefix_of` l -> x `prefix_of` merged l prev entries.
Proof.
  intros Hr Hl. destruct merged_cases as [E|[-> _]]; [|done].
  destruct (decide (length x <= length (carried r prev entries))%nat).
  - rewrite E. eapply prefix_of_shorter; [exact Hr|apply Hm|done].
  - rewrite merged_have; [done|]. etrans; [|exact Hl].
    eapply prefix_of_shorter; [apply Hm|exact Hr|]. unfold carried in *. lia.
Qed.

Lemma merged_full_origin : full (merged l prev entries) /\ origin g (merged l prev entries).
Proof.
  destruct merged_cases as [->|[-> _]]; [|split; apply Hm].
  split; [|eapply origin_prefix; apply Hm]. eapply full_prefix; [apply Hm| |apply Hm].
  intros E. pose proof carried_length as Hl. rewrite E in Hl. done.
Qed.
End merged.

(** ** The step *)

(** What a peer has committed, the leader of a later term has. *)
Lemma commit_in_leader n g s i rf T r : sys_inv n g s -> node s i = Some rf ->
  g_led g !! T = Some r -> currentTerm rf <= T ->
  take (S (Z.to_nat (commitIndex rf))) (logs rf) `prefix_of` ld_log r.
Proof.
  intros Hinv Hi Hr HT. pose proof (si_node _ _ _ Hinv _ _ Hi) as Hn.
  pose proof (si_led _ _ _ Hinv _ _ Hr) as Hl. destruct (li_full _ _ _ _ _ Hl) as [_ [_ Hz]].
  pose proof (ni_full _ _ _ _ _ Hn) as Hf.
  destruct (ni_commit _ _ _ _ _ Hn) as [Hc [E|(T0&k&r0&Hcm&HT0&Hck&Hr0&Et)]].
  - rewrite E. destruct Hf as [_ Hz']. apply take_prefix_lookup; [by eapply lookup_lt_Some|].
    intros j Hj. assert (j = 0%nat) as -> by lia. congruence.
  - rewrite Et. assert (take (S k) (ld_log r0) `prefix_of` ld_log r) as Hp.
    { destruct (decide (T0 = T)) as [->|].
      - assert (r0 = r) as -> by congruence. apply prefix_take.
      - etrans; [apply (leader_completeness n g s T0 k r0 T r); [done..|lia]|]. apply Hl. }
    eapply prefix_take_S; [|exact Hp]. lia.
Qed.

Lemma request_consecutive n g s m : sys_inv n g s -> request_inv n g m ->
  consecutive (ae_PrevLogIndex (s_msg m) + 1) (ae_Entries (s_msg m)).
Proof.
  intros Hinv (_&_&Hp&r&e&Hr&Hk&_&[x Hpre]&_). pose proof (si_led _ _ _ Hinv _ _ Hr) as Hl.
  destruct (li_full _ _ _ _ _ Hl) as [_ Hf]. pose proof (lookup_lt_Some _ _ _ Hk) as Hlen.
  pose proof (full_drop_consecutive _ (S (Z.to_nat (ae_PrevLogIndex (s_msg m)))) Hf) as Hc.
  rewrite Hpre, <-app_assoc, drop_app_length', consecutive_app in Hc by (rewrite length_take; lia).
  replace (ae_PrevLogIndex (s_msg m) + 1) with (Z.of_nat (S (Z.to_nat (ae_PrevLogIndex (s_msg m))))) by lia.
  apply Hc. rewrite length_app, length_take. lia.
Qed.

(** The callers' obligation of [AppendEntries]: a request does not contradict what
    is committed. *)
Lemma append_ok n g s m rf : sys_inv n g s -> request_inv n g m -> node s (s_to m) = Some rf ->
  ok (EvAppendEntries (s_msg m)) rf.
Proof.
  intros Hinv Hm Hi. split; [by apply (request_consecutive n g s)|].
  intros HT k x y Hk Hx Hy. destruct Hm as (_&_&Hp&r&e&Hr&He&_&Hpre&_).
  pose proof (si_node _ _ _ Hinv _ _ Hi) as Hn. pose proof (ni_full _ _ _ _ _ Hn) as Hf.
  pose proof (commit_in_leader _ _ _ _ _ _ _ Hinv Hi Hr HT) as Hc.
  pose proof (lookup_lt_Some _ _ _ He) as Hlen.
  rewrite full_entry_at in Hx by (done || lia).
  replace (Z.to_nat (ae_PrevLogIndex (s_msg m) + 1 + Z.of_nat k))
    with (S (Z.to_nat (ae_PrevLogIndex (s_msg m))) + k)%nat in Hx by lia.
  pose proof (lookup_lt_Some _ _ _ Hx) as Hxl.
  assert (ld_log r !! (S (Z.to_nat (ae_PrevLogIndex (s_msg m))) + k)%nat = Some x) as H1'.
  { eapply prefix_lookup_Some; [|exact Hc]. rewrite lookup_take_lt by lia. done. }
  assert (ld_log r !! (S (Z.to_nat (ae_PrevLogIndex (s_msg m))) + k)%nat = Some y) as H2'.
  { eapply prefix_lookup_Some; [|exact Hpre]. rewrite lookup_app_r; rewrite length_take, Nat.min_l by lia; [|lia].
    rewrite <-Hy. f_equal. lia. }
  congruence.
Qed.

(** What the method does. *)
Lemma AppendEntries_cases n g s m rf resp rf' : sys_inv n g s -> request_inv n g m ->
  node s (s_to m) = Some rf -> AppendEntries (s_msg m) rf = Some (resp, rf') ->
  let q := s_msg m in
  (follows rf rf' /\ aer_Success resp = false /\ aer_ConflictIndex resp <= ae_PrevLogIndex q) \/
  (exists e, aer_Success resp = true /\ currentTerm rf <= ae_Term q /\
     logs rf !! Z.to_nat (ae_PrevLogIndex q) = Some e /\ e_Term e = ae_PrevLogTerm q /\
     currentTerm rf' = ae_Term q /\ state rf' = StateFollower /\ lastApplied rf' = lastApplied rf /\
     logs rf' = merged (logs rf) (ae_PrevLogIndex q) (ae_Entries q) /\
     (commitIndex rf' = commitIndex rf \/
      commitIndex rf < commitIndex rf' /\ commitIndex rf' <= ae_LeaderCommit q)).
Proof.
  intros Hinv Hm Hi Hr q. pose proof (si_node _ _ _ Hinv _ _ Hi) as Hn.
  pose proof Hm as (_&_&Hprev&_).
  apply (wp_run _ _ _ _ (fun resp rf' => (follows rf rf' /\ aer_Success resp = false /\
    aer_ConflictIndex resp <= ae_PrevLogIndex q) \/
    (exists e, aer_Success resp = true /\ currentTerm rf <= ae_Term q /\
     logs rf !! Z.to_nat (ae_PrevLogIndex q) = Some e /\ e_Term e = ae_PrevLogTerm q /\
     currentTerm rf' = ae_Term q /\ state rf' = StateFollower /\ lastApplied rf' = lastApplied rf /\
     logs rf' = merged (logs rf) (ae_PrevLogIndex q) (ae_Entries q) /\
     (commitIndex rf' = commitIndex rf \/
      commitIndex rf < commitIndex rf' /\ commitIndex rf' <= ae_LeaderCommit q))) Hr).
  assert (currentTerm rf <= ae_Term q -> follows rf (saved (follow_leader (ae_Term q) rf))) as Hfol.
  { intros HT. unfold follows. raft_fields; split_and!; auto; right; split; (lia || done). }
  apply wp_AppendEntries; [apply Hn|by apply (request_consecutive n g s)|..]; fold q.
  - intros _. left. split_and!; [unfold follows; cbn; auto 10|done|done].
  - intros HT _. left. split_and!; [by apply Hfol|done|done].
  - intros HT Hlt _. left. split_and!; [by apply Hfol|done|cbn; lia].
  - intros t x HT _ _ _ Hx _ _. left. split_and!; [by apply Hfol|done|cbn; lia].
  - intros HT Hpr Ht. right. unfold term_at in Ht. rewrite full_entry_at in Ht by (try apply Hn; done).
    apply fmap_Some in Ht as (e&He&Het). exists e.
    split_and!; try done; raft_fields; try done; try lia; right; lia.
Qed.

(** The history after peer [p] acknowledged index [k] in term [T]. *)
Definition with_ack (p T : Z) (k : nat) g : History C :=
  mkHistory _ (g_led g) (g_votes g) (g_acks g ++ [(p, T, k)]).

Lemma ext_with_ack p T k g : ext g (with_ack p T k g).
Proof. apply ext_more; [done|by apply list_subseteq_app_l]. Qed.

Section accepted.
Context n g s (m : Sent_ (AppendEntriesRequest C)) rf rf' r (Hinv : sys_inv n g s).
Let q := s_msg m.
Context (Hi : node s (s_to m) = Some rf) (HTq : currentTerm rf <= ae_Term q)
  (Hr : g_led g !! ae_Term q = Some r) (Hmt : matching g r (logs rf) (ae_PrevLogIndex q) (ae_Entries q))
  (Hcm : ae_LeaderCommit q <= ae_PrevLogIndex q + len (ae_Entries q))
  (Hsafe : safe n g (ae_Term q) (ae_LeaderCommit q) (ld_log r))
  (Hwf : wf rf') (HT' : currentTerm rf' = ae_Term q) (Hst : state rf' = StateFollower)
  (Ha : lastApplied rf' = lastApplied rf)
  (Hl : logs rf' = merged (logs rf) (ae_PrevLogIndex q) (ae_Entries q))
  (Hci : commitIndex rf' = commitIndex rf \/
         commitIndex rf < commitIndex rf' /\ commitIndex rf' <= ae_LeaderCommit q).

(** The last index the request carries. *)
Let b := Z.to_nat (ae_PrevLogIndex q + len (ae_Entries q)).

Lemma accepted_carried : length (carried r (ae_PrevLogIndex q) (ae_Entries q)) = S b.
Proof. rewrite (carried_length _ _ _ _ _ Hmt). unfold b. pose proof (mt_prev _ _ _ _ _ Hmt). lia. Qed.

Lemma accepted_bound : (b < length (ld_log r))%nat.
Proof. pose proof (prefix_length _ _ (mt_entries _ _ _ _ _ Hmt)) as Hp. pose proof accepted_carried. unfold carried in *. lia. Qed.

(** Up to there the new log is the leader's. *)
Lemma accepted_take k : (k <= b)%nat -> take (S k) (ld_log r) `prefix_of` logs rf'.
Proof.
  intros Hk. rewrite Hl. etrans; [|apply (carried_prefix _ _ _ _ _ Hmt)].
  eapply prefix_of_shorter; [apply prefix_take|apply Hmt|]. rewrite length_take.
  pose proof accepted_carried. unfold carried in *. lia.
Qed.

Lemma accepted_commit : safe n g (ae_Term q) (commitIndex rf') (logs rf').
Proof.
  pose proof (si_node _ _ _ Hinv _ _ Hi) as Hn. pose proof (wf_commit _ (ni_wf _ _ _ _ _ Hn)) as Hcl.
  rewrite (full_first _ (ni_full _ _ _ _ _ Hn)), (full_last _ (ni_full _ _ _ _ _ Hn)) in Hcl.
  destruct Hci as [->|[Hlt Hle]].
  - apply (safe_log _ _ _ _ (logs rf)).
    { eapply safe_ext; [apply ext_refl|exact HTq|apply Hn]. }
    rewrite Hl. destruct (merged_prefix _ _ _ _ _ Hmt (take (S (Z.to_nat (commitIndex rf))) (logs rf))) as [x ->].
    + by apply (commit_in_leader n g s (s_to m) rf (ae_Term q)).
    + apply prefix_take.
    + rewrite take_app_le by (rewrite length_take; lia). rewrite take_take. f_equal. lia.
  - destruct Hsafe as [_ [?|(T0&k&r0&Hc0&HT0&Hck&Hr0&Et)]]; [lia|]. split; [lia|right].
    exists T0, k, r0. split_and!; [done|done|lia|done|].
    assert (take (S (Z.to_nat (commitIndex rf'))) (ld_log r) = take (S (Z.to_nat (commitIndex rf'))) (ld_log r0)) as <-.
    { apply (f_equal (take (S (Z.to_nat (commitIndex rf'))))) in Et. rewrite !take_take in Et.
      by rewrite !Nat.min_l in Et by lia. }
    destruct (accepted_take (Z.to_nat (commitIndex rf'))) as [x ->]; [unfold b; lia|].
    pose proof accepted_bound. rewrite take_app_le by (rewrite length_take; unfold b in *; lia).
    rewrite take_take. f_equal. lia.
Qed.

Lemma accepted_node : node_inv n (with_ack (s_to m) (ae_Term q) b g) (c_calls (s_cluster s)) (s_to m) rf'.
Proof.
  pose proof (si_node _ _ _ Hinv _ _ Hi) as Hn. pose proof (si_led _ _ _ Hinv _ _ Hr) as Hlead.
  destruct (merged_full_origin _ _ _ _ _ Hmt) as [Hf Ho]. rewrite <-Hl in Hf, Ho.
  split; rewrite ?HT', ?Hst, ?Ha; try done; try apply Hn.
  - pose proof (li_term _ _ _ _ _ Hlead). lia.
  - intros k x Hx. rewrite Hl in Hx. destruct (merged_cases _ _ _ _ _ Hmt) as [E|[E _]]; rewrite E in Hx.
    + eapply lead_terms; [exact Hlead|]. by eapply prefix_lookup_Some; [|apply Hmt].
    + pose proof (ni_terms _ _ _ _ _ Hn _ _ Hx). lia.
  - eapply safe_ext; [apply ext_with_ack|reflexivity|apply accepted_commit].
Qed.

Lemma accepted_inv : inv n (s_cluster (set_node (s_to m) rf' s)) ->
  commitIndex rf <= commitIndex rf' ->
  sys_inv n (with_ack (s_to m) (ae_Term q) b g) (set_node (s_to m) rf' s).
Proof.
  intros Hel Hc. destruct (node_range _ _ _ _ _ Hinv Hi) as (Hir&_).
  apply (sys_inv_update n g _ s _ (s_to m) rf rf'); [exact Hinv|].
  split; try done; auto using ext_with_ack, accepted_node.
  - lia.
  - intros T x k r0 Hack Hr0 Hk Hlen Hkept Hp. rewrite Hl. apply (merged_prefix _ _ _ _ _ Hmt); [|done].
    destruct (si_ack _ _ _ Hinv _ _ _ Hack) as (_&r1&rf1&Hr1&_&Hi1&HT1&_).
    rewrite Hi in Hi1. injection Hi1 as <-. destruct (decide (T = ae_Term q)) as [->|].
    + assert (r0 = r) as -> by congruence. apply prefix_take.
    + etrans; [apply (Hkept (ae_Term q) r); [lia|done]|]. apply (si_led _ _ _ Hinv _ _ Hr).
  - intros p T k [?|[= -> -> ->]]%elem_of_snoc; [by left|right]. split_and!; [done|done|].
    split; [done|]. exists r, rf'. split_and!; [done|apply accepted_bound|unfold node; cbn; apply lookup_insert_eq|lia|].
    intros k Hk _. by apply accepted_take.
  - intros j _. apply calls_of_kept_refl.
  - intros c Hcc. by apply (si_call _ _ _ Hinv).
Qed.
End accepted.

Lemma step_append_sys n g s m rf resp rf' : sys_inv n g s ->
  inv n (s_cluster (set_node (s_to m) rf' s)) -> m ∈ s_requests s -> node s (s_to m) = Some rf ->
  AppendEntries (s_msg m) rf = Some (resp, rf') ->
  exists g', sys_inv n g' (add_response m resp (set_node (s_to m) rf' s)).
Proof.
  intros Hinv Hel Hin Hi Hr. pose proof (si_request _ _ _ Hinv _ Hin) as Hm.
  destruct (node_run _ _ _ _ _ (EvAppendEntries (s_msg m)) rf' Hinv Hi) as (Hwf&HT&Hc);
    [by apply (append_ok n g s)|unfold run, after; by rewrite Hr|].
  destruct (AppendEntries_cases _ _ _ _ _ _ _ Hinv Hm Hi Hr) as [(Hfol&Hf&Hconf)|(e&Hs&HTq&He&Het&HT'&Hst&Ha&Hl&Hci)].
  - exists g. apply sys_inv_response.
    + pose proof Hfol as (?&?&_). eapply sys_inv_plain; [done|exact Hi|done|done|done|lia|].
      eapply node_inv_follows; [by apply (si_node _ _ _ Hinv)|done|done].
    + unfold response_inv; cbn. destruct m; cbn in *. split_and!; [done|congruence|done].
  - destruct Hm as (Hto&Hfrom&Hp&r&e'&Hled&He'&Het'&Hpre&Hcm&Hsafe).
    pose proof (si_node _ _ _ Hinv _ _ Hi) as Hn. pose proof (si_led _ _ _ Hinv _ _ Hled) as Hlead.
    assert (matching g r (logs rf) (ae_PrevLogIndex (s_msg m)) (ae_Entries (s_msg m))) as Hmt.
    { split; [split; [apply Hn|apply Hlead]|split; [apply Hn|apply Hlead]|done| |done].
      exists e, e'. split_and!; [done|done|congruence]. }
    pose proof (accepted_inv n g s m rf rf' r Hinv Hi HTq Hled Hmt Hcm Hsafe Hwf HT' Hst Ha Hl Hci Hel) as Hnew.
    eexists. apply sys_inv_response; [apply Hnew; by apply Hc|].
    unfold response_inv; cbn. split_and!.
    + eapply request_ext; [apply ext_with_ack|]. apply (si_request _ _ _ Hinv) in Hin. by destruct m.
    + intros _. apply elem_of_app. right. by apply list_elem_of_here.
    + congruence.
Qed.
End append.
