(* ===== verification/RaftSafety.v ===== *)
(** * Safety of a Raft cluster

    Every reachable state of a [System] has a history that satisfies the invariant
    ([reachable_sys_inv]). Hence log matching, leader completeness and state machine
    safety, and no method of a peer ever panics: the conditions under which
    [RaftProps] proves a single peer safe hold in a cluster. *)
From Stdlib Require Import Strings.Byte.
From S2P Require Import Prelude Labgob Persister RaftTypes RaftNode RaftLog RaftSpec RaftReplication RaftLeader RaftSnapshot RaftInv RaftProps RaftVotes RaftElection RaftSystem RaftHistory RaftPreserve RaftReplicate RaftAppend.

Section safety.
Context {C : Type} `{Gob Z} `{Gob (list (Entry C))} `{Rand} `{Alloc}.
Context `{!GobLaws Z} `{!GobLaws (list (Entry C))}.
Implicit Types (rf : Raft C) (s : System C) (l : list (Entry C)) (g : History C) (r : Leadership C).

Lemma sys_step_cluster n s s' : inv n (s_cluster s) -> sys_step s s' -> inv n (s_cluster s').
Proof.
  intros Hinv Hs. destruct (sys_step_election _ _ Hs) as [?| ->]; [by eapply step_inv|done].
Qed.

Lemma sys_step_inv n g s s' : sys_inv n g s -> sys_step s s' -> exists g', sys_inv n g' s'.
Proof.
  intros Hinv Hs. pose proof (sys_step_cluster _ _ _ (si_cluster _ _ _ Hinv) Hs) as Hel.
  pose proof (sys_step_election _ _ Hs) as Hst.
  destruct Hs as [i rf q rf' Hi _ Hr|k c rf resp rf' Hk Hsent Hi Hr|k c resp v rf v' rf' Hk Hrep Hlive Hi Hv Hr|i rf rf' Hi Hr
    |i p rf q rf' Hi Hp Hne _ Hr|m rf resp rf' Hm Hi Hr|m rf rf' Hm Hi Hr|m rf resp rf' Hm Hi Hr
    |m rf rf' Hm Hi Hr|i c rf q rf' Hi Hr|i ev rf rf' Hi Hq Hok Hr|i rf es c rf' Hi _ Hr|i e es c Ht|i c rf rf' Ht Hi Hr].
  - eapply step_timeout_sys; [exact Hinv|exact Hel|by eapply step_timeout|exact Hi|exact Hr].
  - eapply step_vote_sys; [exact Hinv|exact Hel|exact Hk|exact Hi|exact Hr].
  - eapply step_vote_reply_sys; [exact Hinv|exact Hel| |exact Hk|exact Hrep|exact Hi|exact Hr].
    eapply step_reply; [exact Hk|exact Hrep|exact Hlive|exact Hi|exact Hv|exact Hr].
  - exists g. eapply step_restart_sys; [exact Hinv|exact Hel|exact Hi|exact Hr].
  - exists g. eapply step_replicate_inv; [exact Hinv| |exact Hi|exact Hp|exact Hr]. by destruct q.
  - eapply step_append_sys; [exact Hinv|exact Hel|exact Hm|exact Hi|exact Hr].
  - exists g. eapply step_append_reply_inv; [exact Hinv|exact Hel|exact Hm|exact Hi|exact Hr].
  - exists g. eapply step_install_inv; [exact Hinv|exact Hel|exact Hm|exact Hi|exact Hr].
  - exists g. eapply step_install_reply_inv; [exact Hinv|exact Hel|exact Hm|exact Hi|exact Hr].
  - eapply step_start_sys; [exact Hinv|exact Hel|exact Hi|exact Hr].
  - exists g. eapply step_quiet_inv; [exact Hinv|exact Hel|exact Hi|exact Hq|exact Hok|exact Hr].
  - exists g. eapply step_take_inv; [exact Hinv|exact Hel|exact Hi|exact Hr].
  - exists g. by eapply step_send_inv.
  - exists g. eapply step_done_inv; [exact Hinv|exact Hel|exact Ht|exact Hi|exact Hr].
Qed.

Lemma initial_node n g i rf : 0 <= i < Z.of_nat n -> Make n i MakePersister = Some rf ->
  node_inv n g [] i rf.
Proof.
  intros Hi HM. destruct (Make_initial n i rf Hi HM) as [Hwf _].
  destruct (Make_spec n i MakePersister 0 (-1) [@zeroEntry C]) as (rf1&HM1&[]); [by left|apply wf_zero|].
  rewrite HM in HM1. injection HM1 as <-.
  split; rewrite ?fresh_logs, ?fresh_term, ?fresh_commit, ?fresh_applied, ?fresh_state; try done.
  - intros k e Hk Hpos. apply lookup_lt_Some in Hk. cbn in Hk. lia.
  - intros k e Hk. by apply list_lookup_singleton_Some in Hk as [_ <-].
  - apply safe_zero.
Qed.

Lemma initial_sys_inv n s : sys_initial n s -> sys_inv n (mkHistory _ ∅ [] []) s.
Proof.
  intros (Hinit&Hrq&Hrs&Hin&Hind&Htk&Hap&_). pose proof (initial_inv _ _ Hinit) as Hel.
  destruct Hinit as (Hcalls&_&Hnodes).
  split; rewrite ?Hcalls, ?Hrq, ?Hrs, ?Hin, ?Hind, ?Htk, ?Hap; try done;
    try (by intros ? ?%not_elem_of_nil); try (by intros ? ? ?%not_elem_of_nil);
    try (by intros ? ? ? ?%not_elem_of_nil).
  - intros i rf Hi. destruct (Hnodes _ _ Hi) as [? ?]. by apply initial_node.
Qed.

Lemma steps_sys_inv n g s s' : sys_inv n g s -> rtc sys_step s s' -> exists g', sys_inv n g' s'.
Proof.
  intros Hinv Hr. revert g Hinv. induction Hr as [s|s s1 s2 Hs _ IH]; intros g Hinv; [eauto|].
  destruct (sys_step_inv _ _ _ _ Hinv Hs) as [g1 ?]. by eapply IH.
Qed.

Lemma reachable_sys_inv n s : sys_reachable n s -> exists g, sys_inv n g s.
Proof.
  intros (s0&Hi&Hr). eapply steps_sys_inv; [by apply initial_sys_inv|done].
Qed.
End safety.

Section theorems.
Context {C : Type} `{Gob Z} `{Gob (list (Entry C))} `{Rand} `{Alloc}.
Context `{!GobLaws Z} `{!GobLaws (list (Entry C))}.
Implicit Types (rf : Raft C) (s : System C).

(** C1: State machine safety. In any execution of a cluster whose peers do not compact their
    logs (none calls [Snapshot] or [CondInstallSnapshot]), with AppendEntries and
    InstallSnapshot calls and replies lost, delayed, reordered and duplicated, RequestVote
    calls and replies lost, delayed and reordered but delivered at most once each, and with
    crashes and restarts, no two peers, and no peer before and after a restart, ever apply
    different commands at the same log index. *)
Theorem state_machine_safety n s i j (e e' : Entry C) :
  sys_reachable n s -> (i, e) ∈ s_applied s -> (j, e') ∈ s_applied s ->
  e_Index e = e_Index e' -> e = e'.
Proof.
  intros [g Hinv]%reachable_sys_inv Hi Hj. eapply committed_entry_unique; [exact Hinv|..];
    by eapply (si_applied _ _ _ Hinv).
Qed.

(** C14: Log matching: in any execution of a cluster whose peers do not compact their logs,
    if the logs of two peers have an entry with the same index and term, they are the same
    up to that entry. *)
Theorem raft_log_matching n s i j rf rf' k (e e' : Entry C) :
  sys_reachable n s -> node s i = Some rf -> node s j = Some rf' ->
  logs rf !! k = Some e -> logs rf' !! k = Some e' -> e_Term e = e_Term e' ->
  forall h, (h <= k)%nat -> logs rf !! h = logs rf' !! h.
Proof.
  intros [g Hinv]%reachable_sys_inv Hi Hj. pose proof (si_node _ _ _ Hinv _ _ Hi) as Hni.
  pose proof (si_node _ _ _ Hinv _ _ Hj) as Hnj. eapply log_matching; [apply Hni|apply Hnj|apply Hni|apply Hnj].
Qed.

(** C8: Leader completeness: in any execution of a cluster whose peers do not compact their
    logs, a leader whose term no peer has passed has in its log every entry that any peer
    has ever applied, at its index. *)
Theorem leader_has_applied n s i rf j (e : Entry C) :
  sys_reachable n s -> node s i = Some rf -> state rf = StateLeader ->
  (forall p rfp, node s p = Some rfp -> currentTerm rfp <= currentTerm rf) ->
  (j, e) ∈ s_applied s -> logs rf !! Z.to_nat (e_Index e) = Some e.
Proof.
  intros [g Hinv]%reachable_sys_inv Hi Hs Hmax He.
  destruct (si_applied _ _ _ Hinv _ _ He) as (T&k&r&Hc&Hr&Hk&Hlog).
  pose proof (si_node _ _ _ Hinv _ _ Hi) as Hn.
  destruct (ni_leader _ _ _ _ _ Hn Hs) as (r'&Hr'&_&<-&_).
  pose proof (si_led _ _ _ Hinv _ _ Hr) as Hl.
  assert (T <= currentTerm rf) as HT.
  { destruct (li_majority _ _ _ _ _ Hl) as (v&Hv&_).
    destruct (inv_election _ _ (si_cluster _ _ _ Hinv) _ _ _ Hv) as [[rfp Hp] _].
    etrans; [|by eapply (Hmax _ rfp)]. eapply (election_term n (s_cluster s)); [apply Hinv|done|by eexists]. }
  destruct (decide (T = currentTerm rf)) as [->|]; [by simplify_eq|].
  assert (take (S k) (ld_log r) `prefix_of` ld_log r') as Hp.
  { etrans; [apply (leader_completeness n g s T k r (currentTerm rf) r'); [done..|lia]|].
    apply (si_led _ _ _ Hinv _ _ Hr'). }
  rewrite take_prefix_lookup in Hp by (by eapply committed_bound).
  rewrite Hp by lia. done.
Qed.

(** C15: No panic in a cluster: in every reachable state of a cluster whose peers do not
    compact their logs (none calls [Snapshot] or [CondInstallSnapshot]), no handler of a
    peer has an index out of range or another panic. The handlers: AppendEntries and
    InstallSnapshot requests and responses in flight, RequestVote requests and replies,
    [Start], the two timers, the rounds of replication and the replicators' check, the
    applier, and a restart from what the peer has persisted. *)
Theorem cluster_never_panics n s i rf :
  sys_reachable n s -> node s i = Some rf ->
  (forall m, m ∈ s_requests s -> s_to m = i -> is_Some (AppendEntries (s_msg m) rf)) /\
  (forall m, m ∈ s_responses s -> s_from m = i ->
     is_Some (handleAppendEntriesResponse (s_to m) (fst (s_msg m)) (snd (s_msg m)) rf)) /\
  (forall request, is_Some (InstallSnapshot request rf)) /\
  (forall m, m ∈ s_installed s -> s_from m = i ->
     is_Some (handleInstallSnapshotResponse (s_to m) (fst (s_msg m)) (snd (s_msg m)) rf)) /\
  (forall request, is_Some (RequestVote request rf)) /\
  (forall request response granted, is_Some (electionReply request response granted rf)) /\
  (forall command, is_Some (Start command rf)) /\
  is_Some (ticker_election rf) /\ is_Some (ticker_heartbeat rf) /\
  (forall peer, 0 <= peer < Z.of_nat n ->
     is_Some (goReplicateOneRound peer rf) /\ is_Some (replicator_check peer rf)) /\
  is_Some (applier_take rf) /\ (forall commit, is_Some (applier_done commit rf)) /\
  is_Some (Make (peers rf) (me rf) (persister rf)).
Proof.
  intros [g Hinv]%reachable_sys_inv Hi. pose proof (si_node _ _ _ Hinv _ _ Hi) as Hn.
  destruct (inv_node _ _ (si_cluster _ _ _ Hinv) _ _ Hi) as (_&Hpe&_&Hd).
  pose proof (ni_wf _ _ _ _ _ Hn) as Hwf.
  assert (forall A (m : M (Raft C) A) Q, wp m rf Q -> is_Some (m rf)) as Hx.
  { intros A m Q. unfold wp. destruct (m rf); [eauto|done]. }
  split_and!.
  - intros m Hm <-. eapply Hx, AppendEntries_good; [done|done|].
    eapply append_ok; [exact Hinv|by apply (si_request _ _ _ Hinv)|done].
  - intros m Hm <-. pose proof (si_response _ _ _ Hinv _ Hm) as Hr. unfold response_inv in Hr.
    destruct (s_msg m) as [q resp]; cbn. destruct Hr as (Hq&_&Hc).
    eapply Hx, handleAppendEntriesResponse_good; [done|done|]. rewrite <-Hpe in *.
    split_and!; try done; [apply Hq|apply Hq|]. intros Hs HT. by apply (request_last _ _ _ _ _ _ Hn Hs Hq).
  - intros request. by eapply Hx, InstallSnapshot_good.
  - intros m Hm <-. destruct (si_installed _ _ _ Hinv _ Hm) as [Hz Hto].
    eapply Hx, handleInstallSnapshotResponse_good; [done..|]. split; [by rewrite Hpe|]. intros _ _. rewrite Hz.
    pose proof (wf_commit _ Hwf). destruct (ni_commit _ _ _ _ _ Hn). lia.
  - intros request. by eapply Hx, RequestVote_good.
  - intros request response granted. by eapply Hx, electionReply_good.
  - intros command. by eapply Hx, Start_good.
  - by eapply Hx, ticker_election_good.
  - by eapply Hx, ticker_heartbeat_good.
  - intros peer Hp. rewrite <-Hpe in Hp. split.
    + by eapply Hx, goReplicateOneRound_good.
    + by eapply Hx, replicator_check_good.
  - eapply Hx, applier_take_good; [done|done|]. cbn. rewrite (full_first _ (ni_full _ _ _ _ _ Hn)). apply Hn.
  - intros commit. unfold applier_done. by eexists.
  - destruct (Make_good rf Hwf) as (rf'&->&_); [done|by eexists].
Qed.
End theorems.
