(* ===== verification/RaftApply.v ===== *)
(** * What the peers of a cluster apply, and in which order

    [moves R m]: the program [m] takes its object along the preorder [R]; lemmas for the
    constructs of the monad prove it by following the program. With them, only [applier]
    and a restart change [lastApplied] in a cluster without snapshots. The invariant
    [order_inv] follows: since it was started, a peer has sent on [applyCh] the entries
    1, 2, 3, ... of the log, one by one. *)
From Stdlib Require Import Strings.Byte.
From S2P Require Import Prelude Labgob Persister RaftTypes RaftNode RaftLog RaftSpec RaftReplication RaftLeader RaftSnapshot RaftInv RaftProps RaftVotes RaftElection RaftSystem RaftHistory RaftPreserve RaftReplicate RaftAppend RaftSafety.

(** ** Programs that only move along a preorder *)

Definition moves {S A} (R : relation S) (m : M S A) : Prop :=
  forall s a s', m s = Some (a, s') -> R s s'.

Section moves.
Context {S : Type} (R : relation S) `{!PreOrder R}.

Lemma moves_ret {A} (a : A) : moves R (ret a).
Proof. intros s b s' [= _ <-]. reflexivity. Qed.
Lemma moves_get : moves R get.
Proof. intros s b s' [= _ <-]. reflexivity. Qed.
Lemma moves_lift {A} (o : option A) : moves R (lift o).
Proof. intros s b s'. unfold lift. destruct o; [|done]. intros [= _ <-]. reflexivity. Qed.
Lemma moves_modify g : (forall s, R s (g s)) -> moves R (modify g).
Proof. intros Hg s b s' [= _ <-]. apply Hg. Qed.
Lemma moves_bind {A B} (m : M S A) (k : A -> M S B) :
  moves R m -> (forall a, moves R (k a)) -> moves R (bind m k).
Proof.
  intros Hm Hk s b s'. unfold bind. destruct (m s) as [[a s1]|] eqn:E; [|done].
  intros Hr. etrans; [by eapply Hm|by eapply Hk].
Qed.
(** A program that first reads the state. *)
Lemma moves_read {A} (k : S -> M S A) :
  (forall s a s', k s s = Some (a, s') -> R s s') -> moves R (bind get k).
Proof. intros Hk s a s'. unfold bind, get. apply Hk. Qed.
Lemma moves_forM {A} (l : list A) (k : A -> M S unit) :
  (forall a, moves R (k a)) -> moves R (forM l k).
Proof.
  intros Hk. induction l as [|a l IH]; cbn [forM]; [apply moves_ret|].
  by apply moves_bind.
Qed.
End moves.
#[export] Hint Resolve moves_ret moves_get moves_lift : raft.

(** [moves] follows a program down to the fields it sets. *)
Ltac program_head t := lazymatch t with ?g _ => program_head g | _ => t end.
Ltac moves :=
  repeat first
    [ solve [eauto with raft typeclass_instances]
    | apply moves_forM; [apply _|intros]
    | apply moves_bind; [apply _| |intros]
    | apply moves_modify; intros; first [done | by split_and!]
    | lazymatch goal with
      | |- moves _ (let _ := _ in _) => cbv zeta
      | |- moves _ (if ?b then _ else _) => destruct b
      | |- moves _ (match ?b with _ => _ end) => destruct b
      | |- moves _ ?m => let h := program_head m in unfold h
      end ].

Section methods.
Context {C : Type} `{Gob Z} `{Gob (list (Entry C))} `{Rand} `{Alloc}.
Implicit Types (rf : Raft C) (l : list (Entry C)).

Definition has_command (e : Entry C) : Prop := is_Some (e_Command e).

(** Every entry after the first, which stands for what is not in the log, has a
    command. *)
Definition has_commands l : Prop := Forall has_command (drop 1 l).

(** What no method but those of [applier] and of snapshots changes. *)
Definition steady rf rf' : Prop :=
  lastApplied rf' = lastApplied rf /\ snapshot (persister rf') = snapshot (persister rf) /\
  (has_commands (logs rf) -> has_commands (logs rf')).
#[export] Instance steady_preorder : PreOrder steady.
Proof.
  split; [by intros rf; split_and!|]. intros rf1 rf2 rf3 (?&?&?) (?&?&?). split_and!; [congruence..|auto].
Qed.

Lemma has_commands_take l m es : has_commands l -> Forall has_command es -> has_commands (take m l ++ es).
Proof.
  unfold has_commands. intros Hl He. destruct l as [|e l], m as [|m]; cbn; try by apply Forall_drop.
  rewrite drop_0 in *. apply Forall_app. split; [by apply Forall_take|done].
Qed.

Lemma steady_mergeEntries first (es : list (Entry C)) : Forall has_command es -> moves steady (mergeEntries first es).
Proof.
  induction es as [|e es IH]; intros He; cbn [mergeEntries]; [apply moves_ret, _|].
  apply moves_read. intros rf a rf'. unfold bind at 1.
  assert (forall c rf1, (if decide (e_Index e - first >= len (logs rf)) then ret true
    else let! x := lift (slice_get (logs rf) (e_Index e - first)) in
         ret (bool_decide (e_Term x <> e_Term e))) rf = Some (c, rf1) -> rf1 = rf) as Hsame.
  { intros c rf1. destruct (decide _); [by intros [= _ <-]|]. unfold bind, lift. destruct (slice_get _ _); [|done].
    by intros [= _ <-]. }
  match goal with |- match ?x with _ => _ end = _ -> _ => destruct x as [[c rf1]|] eqn:E; [|done] end. rewrite (Hsame _ _ eq_refl). destruct c.
  - unfold bind, lift, slice_to. destruct (decide (0 <= e_Index e - first <= len (logs rf))); [|done]. intros [= _ <-]. split_and!; [done..|].
    intros Hl. cbn. rewrite shrinkEntriesArray_id. by apply has_commands_take.
  - apply IH. by apply Forall_cons in He as [_ He].
Qed.

Lemma steady_AppendEntries q : Forall has_command (ae_Entries q) -> moves steady (AppendEntries q).
Proof. intros Hq. pose proof (fun first => steady_mergeEntries first _ Hq). moves. Qed.
Lemma steady_RequestVote q : moves steady (RequestVote q).
Proof. moves. Qed.
Lemma steady_electionReply q r g : moves steady (electionReply q r g).
Proof. moves. Qed.
Lemma steady_ticker_election : moves steady ticker_election.
Proof. moves. Qed.
Lemma steady_goReplicateOneRound p : moves steady (goReplicateOneRound p).
Proof. moves. Qed.
Lemma steady_handleAppend p q r : moves steady (handleAppendEntriesResponse p q r).
Proof. moves. Qed.
Lemma steady_InstallSnapshot q : moves steady (InstallSnapshot q).
Proof. moves. Qed.
Lemma steady_handleInstall p q r : moves steady (handleInstallSnapshotResponse p q r).
Proof. moves. Qed.
Lemma steady_applier_take : moves steady applier_take.
Proof. moves. Qed.

Lemma steady_Start c : moves steady (Start c).
Proof.
  unfold Start. apply moves_bind; [apply _|apply moves_get, _|]. intros rf0.
  destruct (decide _); [apply moves_ret, _|]. apply moves_bind; [apply _| |intros; moves].
  unfold appendNewEntry. apply moves_bind; [apply _|moves|]. intros lastLog. apply moves_read.
  intros rf a rf'. unfold bind at 1, modify at 1. intros Hr. etrans.
  2:{ revert Hr. match goal with |- ?m _ = _ -> _ => enough (moves steady m) as Hm; [intros Hr; exact (Hm _ _ _ Hr)|] end. moves. }
  split_and!; [done..|]. intros Hl. cbn. rewrite <-(firstn_all (logs rf)) at 1. apply has_commands_take; [done|].
  repeat constructor. by eexists.
Qed.

Lemma quiet_steady ev rf rf' : quiet ev rf -> run ev rf = Some rf' -> steady rf rf'.
Proof.
  assert (forall A (m : M (Raft C) A), moves steady m -> after m rf = Some rf' -> steady rf rf') as Hx.
  { intros A m Hm. unfold after. destruct (m rf) as [[a rf1]|] eqn:E; [|done]. intros [= <-]. by eapply Hm. }
  destruct ev; try done; intros _; cbn [run]; apply Hx; moves.
Qed.
End methods.

(** ** The order of application *)

Section order.
Context {C : Type} `{Gob Z} `{Gob (list (Entry C))} `{Rand} `{Alloc}.
Context `{!GobLaws Z} `{!GobLaws (list (Entry C))}.
Implicit Types (rf : Raft C) (s : System C) (l : list (Entry C)) (g : History C).

(** What [applier] has taken and not sent yet. *)
Definition pending s (i : Z) : list (Entry C) := default [] (fst <$> s_taken s !! i).

(** The entries have the indexes 1, 2, 3, ... *)
Definition numbered l : Prop := forall k e, l !! k = Some e -> e_Index e = Z.of_nat k + 1.

(** Where peer [i] stands: up to where it has sent or is about to send. *)
Definition upto s (i : Z) rf : Prop :=
  match s_taken s !! i with
  | None => len (sent s i) = lastApplied rf
  | Some (es, c) => len (sent s i) + len es = c /\ lastApplied rf <= c
  end.

(** In a record of who applied what, every entry but the first was preceded by the
    entry before it at the same peer. *)
Definition no_gap (l : list (Z * Entry C)) : Prop :=
  forall k i e, l !! k = Some (i, e) -> 1 <= e_Index e /\
    (1 < e_Index e -> exists k' e', (k' < k)%nat /\ l !! k' = Some (i, e') /\ e_Index e' = e_Index e - 1).

Record order_inv s : Prop := {
  oi_numbered i : numbered (sent s i ++ pending s i);
  oi_upto i rf : node s i = Some rf -> upto s i rf;
  oi_sent i e : e ∈ sent s i -> (i, e) ∈ s_applied s;
  oi_gap : no_gap (s_applied s);
  oi_known i e : (i, e) ∈ s_applied s -> is_Some (node s i);
  oi_logs i rf : node s i = Some rf -> has_commands (logs rf) /\ snapshot (persister rf) = [];
  oi_requests m : m ∈ s_requests s -> Forall has_command (ae_Entries (s_msg m));
  oi_commands i : Forall has_command (sent s i ++ pending s i)
}.

Lemma no_gap_snoc (l : list (Z * Entry C)) i (e : Entry C) : no_gap l -> 1 <= e_Index e ->
  (1 < e_Index e -> exists e', (i, e') ∈ l /\ e_Index e' = e_Index e - 1) -> no_gap (l ++ [(i, e)]).
Proof.
  intros Hl He Hp k j x [Hk|[Hlen Hk]]%lookup_app_Some.
  - destruct (Hl _ _ _ Hk) as [? Hx]. split; [done|]. intros Hlt. destruct (Hx Hlt) as (k'&e'&?&?&?).
    exists k', e'. split_and!; [done|by apply lookup_app_l_Some|done].
  - apply list_lookup_singleton_Some in Hk as [Hk [= <- <-]]. split; [done|]. intros Hlt.
    destruct (Hp Hlt) as (e'&(k'&Hk')%list_elem_of_lookup&?). exists k', e'.
    pose proof (lookup_lt_Some _ _ _ Hk'). split_and!; [lia|by apply lookup_app_l_Some|done].
Qed.

(** No step removes a peer. *)
Lemma known_insert s s' i rf' : (forall j (e : Entry C), (j, e) ∈ s_applied s -> is_Some (node s j)) ->
  c_nodes (s_cluster s') = <[i := rf']> (c_nodes (s_cluster s)) ->
  forall j (e : Entry C), (j, e) ∈ s_applied s -> is_Some (node s' j).
Proof.
  intros Hk Hn j e He. unfold node. rewrite Hn. apply lookup_insert_is_Some'. right. by eapply Hk.
Qed.

Lemma logs_insert s s' i rf rf' : order_inv s -> node s i = Some rf -> steady rf rf' ->
  c_nodes (s_cluster s') = <[i := rf']> (c_nodes (s_cluster s)) ->
  forall j rfj, node s' j = Some rfj -> has_commands (logs rfj) /\ snapshot (persister rfj) = [].
Proof.
  intros Hinv Hi (_&Hsn&Hc) Hn j rfj. unfold node. rewrite Hn, lookup_insert_Some.
  intros [[<- <-]|[_ Hj]]; [|by apply (oi_logs _ Hinv j)]. destruct (oi_logs _ Hinv _ _ Hi). split; [auto|congruence].
Qed.

(** A step that moves one peer and does not touch its [applier]. *)
Lemma order_frame s s' i rf rf' : order_inv s ->
  c_nodes (s_cluster s') = <[i := rf']> (c_nodes (s_cluster s)) -> node s i = Some rf ->
  s_taken s' = s_taken s -> s_sent s' = s_sent s -> s_applied s' = s_applied s ->
  (forall m, m ∈ s_requests s' -> m ∈ s_requests s \/ Forall has_command (ae_Entries (s_msg m))) ->
  steady rf rf' -> order_inv s'.
Proof.
  intros Hinv Hn Hi Ht Hs Ha Hrq Hst. pose proof Hst as [Hl _].
  assert (forall j, sent s' j = sent s j) as Es by (intros; unfold sent; by rewrite Hs).
  split; unfold pending, upto; rewrite ?Ht, ?Ha; try apply Hinv.
  - intros j. rewrite Es. apply (oi_numbered _ Hinv).
  - intros j rfj. unfold node. rewrite Hn. rewrite Es, lookup_insert_Some.
    intros [[<- <-]|[Hne Hj]]; [rewrite Hl; by apply (oi_upto _ Hinv)|by apply (oi_upto _ Hinv)].
  - intros j e. rewrite Es. apply (oi_sent _ Hinv).
  - eapply (known_insert s); [apply Hinv|done].
  - by eapply logs_insert.
  - intros m [Hm|Hm]%Hrq; [by apply (oi_requests _ Hinv)|done].
  - intros j. rewrite Es. apply (oi_commands _ Hinv).
Qed.

Lemma numbered_between (ls : list (Entry C)) a c : full ls -> 0 <= a -> a < c <= last_index ls ->
  forall k e, entries_between ls a c !! k = Some e -> e_Index e = a + Z.of_nat k + 1.
Proof.
  intros Hf Ha Hac k e He. pose proof (lookup_lt_Some _ _ _ He) as Hk.
  rewrite entries_between_length in Hk by (rewrite ?(full_first _ Hf); lia).
  rewrite entries_between_lookup in He by (rewrite ?(full_first _ Hf); lia).
  rewrite full_entry_at in He by (done || lia). rewrite (full_index _ _ _ Hf He). lia.
Qed.

Lemma order_take n g s i rf es c rf' : sys_inv n g s -> order_inv s ->
  node s i = Some rf -> s_taken s !! i = None -> applier_take rf = Some (Some (es, c), rf') ->
  order_inv (set_taken (<[i := (es, c)]> (s_taken s)) (set_node i rf' s)).
Proof.
  intros Hsys Hinv Hi Ht Hr. pose proof (si_node _ _ _ Hsys _ _ Hi) as Hn.
  destruct (taken_entries _ _ _ _ _ _ _ _ Hn Hr) as (->&->&->&Hlt).
  pose proof (ni_applied _ _ _ _ _ Hn) as Ha. pose proof (ni_full _ _ _ _ _ Hn) as Hf.
  pose proof (wf_commit _ (ni_wf _ _ _ _ _ Hn)) as [_ Hcl].
  pose proof (oi_upto _ Hinv _ _ Hi) as Hu. unfold upto in Hu. rewrite Ht in Hu.
  split; try apply Hinv.
  - intros j. unfold pending. cbn. destruct (decide (i = j)) as [<-|Hne].
    + rewrite lookup_insert_eq. cbn. change (sent _ i) with (sent s i). intros k e [Hk|[Hlen Hk]]%lookup_app_Some.
      * apply (oi_numbered _ Hinv i). by apply lookup_app_l_Some.
      * rewrite (numbered_between _ _ _ Hf Ha (conj Hlt Hcl) _ _ Hk). lia.
    + rewrite lookup_insert_ne by done. apply (oi_numbered _ Hinv).
  - intros j rfj. unfold upto, node, set_node. cbn. intros Hj. destruct (decide (i = j)) as [<-|Hne].
    + rewrite lookup_insert_eq in Hj. rewrite lookup_insert_eq. injection Hj as <-. change (sent _ i) with (sent s i).
      rewrite entries_between_length by (rewrite ?(full_first _ Hf); lia). lia.
    + rewrite lookup_insert_ne in Hj by done. rewrite lookup_insert_ne by done. by apply (oi_upto _ Hinv).
  - by eapply (known_insert s); [apply Hinv|].
  - by eapply (logs_insert s); [..|reflexivity|].
  - intros j. unfold pending. cbn. destruct (decide (i = j)) as [<-|Hne].
    + rewrite lookup_insert_eq. cbn. change (sent _ i) with (sent s i). apply Forall_app.
      pose proof (oi_commands _ Hinv i) as [? _]%Forall_app. split; [done|].
      destruct (oi_logs _ Hinv _ _ Hi) as [Hcm _]. unfold entries_between. apply Forall_take.
      rewrite (full_first _ Hf). replace (Z.to_nat _) with (1 + Z.to_nat (lastApplied rf))%nat by lia.
      rewrite <-drop_drop. by apply Forall_drop.
    + rewrite lookup_insert_ne by done. apply (oi_commands _ Hinv).
Qed.

Lemma order_send s i e es c : order_inv s -> is_Some (node s i) -> s_taken s !! i = Some (e :: es, c) ->
  order_inv (add_applied i e (set_taken (<[i := (es, c)]> (s_taken s)) s)).
Proof.
  intros Hinv Hi Ht. pose proof (oi_numbered _ Hinv i) as Hnum. unfold pending in Hnum. rewrite Ht in Hnum. cbn in Hnum.
  assert (e_Index e = len (sent s i) + 1) as He.
  { apply Hnum. by apply list_lookup_middle. }
  assert (forall j, sent (add_applied i e (set_taken (<[i := (es, c)]> (s_taken s)) s)) j =
    if decide (i = j) then sent s i ++ [e] else sent s j) as Es.
  { intros j. unfold sent. cbn. destruct (decide (i = j)) as [<-|].
    - by rewrite lookup_insert_eq.
    - by rewrite lookup_insert_ne. }
  split.
  - intros j. rewrite Es. unfold pending. cbn. destruct (decide (i = j)) as [<-|Hne].
    + rewrite lookup_insert_eq, <-app_assoc. exact Hnum.
    + rewrite lookup_insert_ne by done. apply (oi_numbered _ Hinv).
  - intros j rfj Hj. unfold upto. rewrite Es. cbn. pose proof (oi_upto _ Hinv j rfj Hj) as Hu. unfold upto in Hu.
    destruct (decide (i = j)) as [<-|Hne].
    + rewrite lookup_insert_eq. rewrite Ht in Hu. rewrite length_app. cbn in *. lia.
    + by rewrite lookup_insert_ne.
  - intros j x. rewrite Es. cbn. rewrite elem_of_app, list_elem_of_singleton. destruct (decide (i = j)) as [<-|Hne].
    + rewrite elem_of_app, list_elem_of_singleton. intros [Hx| -> ]; [left; by apply (oi_sent _ Hinv)|by right].
    + intros Hx. left. by apply (oi_sent _ Hinv).
  - apply no_gap_snoc; [apply Hinv|lia|]. intros Hlt.
    destruct (sent s i !! Z.to_nat (e_Index e - 2)) as [x|] eqn:Hx.
    2:{ apply lookup_ge_None in Hx. lia. }
    exists x. split; [apply (oi_sent _ Hinv); by eapply list_elem_of_lookup_2|].
    rewrite (Hnum (Z.to_nat (e_Index e - 2)) x) by (by apply lookup_app_l_Some). lia.
  - intros j x. cbn. rewrite elem_of_app, list_elem_of_singleton. intros [Hx|[= -> _]]; [|done].
    by eapply (oi_known _ Hinv).
  - apply Hinv.
  - apply Hinv.
  - intros j. rewrite Es. unfold pending. cbn. pose proof (oi_commands _ Hinv j) as Hcm. unfold pending in Hcm.
    destruct (decide (i = j)) as [<-|Hne].
    + rewrite lookup_insert_eq, <-app_assoc. by rewrite Ht in Hcm.
    + by rewrite lookup_insert_ne.
Qed.

Lemma order_done s i c rf rf' : order_inv s -> s_taken s !! i = Some ([], c) ->
  node s i = Some rf -> applier_done c rf = Some (tt, rf') ->
  order_inv (set_taken (delete i (s_taken s)) (set_node i rf' s)).
Proof.
  intros Hinv Ht Hi [= <-]. pose proof (oi_upto _ Hinv _ _ Hi) as Hu. unfold upto in Hu. rewrite Ht in Hu.
  split; try apply Hinv.
  - intros j. pose proof (oi_numbered _ Hinv j) as Hnum. unfold pending in *. cbn. destruct (decide (i = j)) as [<-|Hne].
    + rewrite lookup_delete_eq. by rewrite Ht in Hnum.
    + by rewrite lookup_delete_ne.
  - intros j rfj. unfold upto, node, set_node. cbn. intros Hj. destruct (decide (i = j)) as [<-|Hne].
    + rewrite lookup_delete_eq. rewrite lookup_insert_eq in Hj. injection Hj as <-. cbn. rewrite Max_max.
      change (sent _ i) with (sent s i). cbn in Hu. lia.
    + rewrite lookup_insert_ne in Hj by done. rewrite lookup_delete_ne by done. by apply (oi_upto _ Hinv).
  - by eapply (known_insert s); [apply Hinv|].
  - intros j rfj. unfold node, set_node. cbn. intros [[<- <-]|[_ Hj]]%lookup_insert_Some; [|by apply (oi_logs _ Hinv j)].
    exact (oi_logs _ Hinv i rf Hi).
  - intros j. pose proof (oi_commands _ Hinv j) as Hcm. unfold pending in *. cbn. destruct (decide (i = j)) as [<-|Hne].
    + rewrite lookup_delete_eq. by rewrite Ht in Hcm.
    + by rewrite lookup_delete_ne.
Qed.

Lemma order_restart s i rf' calls : order_inv s -> lastApplied rf' = 0 ->
  has_commands (logs rf') -> snapshot (persister rf') = [] ->
  order_inv (forget i (set_cluster (mkCluster _ (<[i := rf']> (c_nodes (s_cluster s))) calls
    (c_votes (s_cluster s))) s)).
Proof.
  intros Hinv Hl Hlg Hsn. set (s' := forget i _).
  assert (forall j, sent s' j = if decide (i = j) then [] else sent s j) as Es.
  { intros j. unfold sent. cbn. destruct (decide (i = j)) as [<-|];
      [by rewrite lookup_delete_eq|by rewrite lookup_delete_ne]. }
  split; try apply Hinv.
  - intros j. rewrite Es. unfold pending. cbn. destruct (decide (i = j)) as [<-|Hne].
    + by rewrite lookup_delete_eq.
    + rewrite lookup_delete_ne by done. apply (oi_numbered _ Hinv).
  - intros j rfj. unfold upto, node. rewrite Es. cbn. intros Hj. destruct (decide (i = j)) as [<-|Hne].
    + rewrite lookup_delete_eq. rewrite lookup_insert_eq in Hj. injection Hj as <-. cbn. lia.
    + rewrite lookup_insert_ne in Hj by done. rewrite lookup_delete_ne by done. by apply (oi_upto _ Hinv).
  - intros j e. rewrite Es. destruct (decide (i = j)); [by intros []%not_elem_of_nil|apply (oi_sent _ Hinv)].
  - by eapply (known_insert s); [apply Hinv|].
  - intros j rfj. unfold node. cbn. intros [[<- <-]|[_ Hj]]%lookup_insert_Some; [done|by apply (oi_logs _ Hinv j)].
  - intros j. rewrite Es. unfold pending. cbn. destruct (decide (i = j)) as [<-|Hne].
    + by rewrite lookup_delete_eq.
    + rewrite lookup_delete_ne by done. apply (oi_commands _ Hinv).
Qed.

Lemma replicated_commands n g s i peer rf q rf' : sys_inv n g s -> order_inv s -> node s i = Some rf ->
  0 <= peer < Z.of_nat (peers rf) -> goReplicateOneRound peer rf = Some (SendAppendEntries q, rf') ->
  Forall has_command (ae_Entries q).
Proof.
  intros Hsys Hinv Hi Hp Hr. pose proof (si_node _ _ _ Hsys _ _ Hi) as Hn. pose proof (ni_wf _ _ _ _ _ Hn) as Hwf.
  apply (wp_run _ _ _ _ (fun (r : Replication C) _ => match r with
    | SendAppendEntries q => Forall has_command (ae_Entries q) | _ => True end)) in Hr; [done|].
  unfold goReplicateOneRound. go.
  apply wp_replicateOneRound; [apply Hwf|cbn; by rewrite (wf_next_len _ Hwf)|apply Hwf|done|done|].
  intros prev t _ [Hge _] _. cbn in *. destruct (oi_logs _ Hinv _ _ Hi) as [Hcm _].
  rewrite (full_first _ (ni_full _ _ _ _ _ Hn)) in *.
  replace (Z.to_nat _) with (1 + Z.to_nat prev)%nat by lia. rewrite <-drop_drop. by apply Forall_drop.
Qed.

Lemma order_step n g s s'  : sys_inv n g s -> order_inv s -> sys_step s s' -> order_inv s'.
Proof.
  intros Hsys Hinv Hs.
  destruct Hs as [i rf q rf' Hi _ Hr|k c rf resp rf' Hk Hsent Hi Hr|k c resp v rf v' rf' Hk Hrep Hlive Hi Hv Hr|i rf rf' Hi Hr
    |i p rf q rf' Hi Hp Hne _ Hr|m rf resp rf' Hm Hi Hr|m rf rf' Hm Hi Hr|m rf resp rf' Hm Hi Hr
    |m rf rf' Hm Hi Hr|i c rf q rf' Hi Hr|i ev rf rf' Hi Hq Hok Hr|i rf es c rf' Hi Ht Hr|i e es c Ht|i c rf rf' Ht Hi Hr].
  - eapply (order_frame s _ i); [done|done|exact Hi|done..|by left|].
    exact (steady_ticker_election _ _ _ Hr).
  - eapply (order_frame s _ (c_to c)); [done|done|exact Hi|done..|by left|]. by eapply steady_RequestVote.
  - eapply (order_frame s _ (c_from c)); [done|done|exact Hi|done..|by left|]. by eapply steady_electionReply.
  - pose proof (si_node _ _ _ Hsys _ _ Hi) as Hn. destruct (oi_logs _ Hinv _ _ Hi) as [Hlg Hsn].
    destruct (inv_node _ _ (si_cluster _ _ _ Hsys) _ _ Hi) as (_&_&_&Hd).
    destruct (durable_Make (peers rf) (me rf) rf) as (rf1&Hm1&[]); [apply Hn|done|].
    rewrite Hr in Hm1. injection Hm1 as <-.
    apply order_restart; [done|by rewrite fresh_applied, (full_first _ (ni_full _ _ _ _ _ Hn))|congruence..].
  - apply (order_frame s _ i rf rf'); [done|by destruct q|done|by destruct q..| |by eapply steady_goReplicateOneRound].
    intros m. destruct q as [|q|q]; cbn; [by left..|]. rewrite elem_of_app, list_elem_of_singleton.
    intros [Hm| ->]; [by left|right]. cbn. by eapply replicated_commands.
  - apply (order_frame s _ (s_to m) rf rf'); try done; [by left|]. by eapply steady_AppendEntries; [apply (oi_requests _ Hinv)|].
  - apply (order_frame s _ (s_from m) rf rf'); try done; [by left|]. by eapply steady_handleAppend.
  - apply (order_frame s _ (s_to m) rf rf'); try done; [by left|]. by eapply steady_InstallSnapshot.
  - apply (order_frame s _ (s_from m) rf rf'); try done; [by left|]. by eapply steady_handleInstall.
  - apply (order_frame s _ i rf rf'); try done; [by left|]. by eapply steady_Start.
  - apply (order_frame s _ i rf rf'); try done; [by left|]. by eapply quiet_steady.
  - by eapply order_take.
  - apply order_send; [done| |done]. destruct (si_taken _ _ _ Hsys _ _ _ Ht) as (_&rf&Hi&_). by eexists.
  - by eapply order_done.
Qed.

Lemma initial_order n s : sys_initial n s -> order_inv s.
Proof.
  intros ((_&_&Hnodes)&Hrq&_&_&_&Ht&Ha&Hs).
  assert (forall j, sent s j = []) as Es by (intros; unfold sent; by rewrite Hs).
  split; unfold pending, upto; rewrite ?Ht, ?Ha, ?Hrq.
  - intros i. by rewrite Es.
  - intros i rf Hi. rewrite Es, lookup_empty. destruct (Hnodes i rf Hi) as [Hr HM].
    destruct (Make_spec n i MakePersister 0 (-1) [@zeroEntry C]) as (rf1&HM1&[]); [by left|apply wf_zero|].
    rewrite HM in HM1. injection HM1 as <-. by rewrite fresh_applied.
  - intros i e. rewrite Es. by intros []%not_elem_of_nil.
  - by intros k i e [=].
  - by intros i e []%not_elem_of_nil.
  - intros i rf Hi. destruct (Hnodes i rf Hi) as [Hr HM].
    destruct (Make_spec n i MakePersister 0 (-1) [@zeroEntry C]) as (rf1&HM1&[]); [by left|apply wf_zero|].
    rewrite HM in HM1. injection HM1 as <-. rewrite fresh_logs, fresh_persister. split; [constructor|done].
  - by intros m []%not_elem_of_nil.
  - intros i. rewrite Es. constructor.
Qed.

Lemma reachable_order n s : sys_reachable n s -> (exists g, sys_inv n g s) /\ order_inv s.
Proof.
  intros (s0&Hinit&Hsteps). revert Hinit. assert (sys_initial n s0 -> (exists g, sys_inv n g s0) /\ order_inv s0) as Hi0.
  { intros Hi. split; [eexists; by apply initial_sys_inv|by eapply initial_order]. }
  intros Hinit. specialize (Hi0 Hinit). clear Hinit. induction Hsteps as [|s0 s1 s2 Hs _ IH]; [done|].
  apply IH. destruct Hi0 as [[g Hg] Ho]. split; [by eapply sys_step_inv|by eapply order_step].
Qed.
(** Two lists that agree where both are defined: one continues the other. *)
Lemma agree_prefix {A} (l l' : list A) :
  (forall k x y, l !! k = Some x -> l' !! k = Some y -> x = y) -> l `prefix_of` l' \/ l' `prefix_of` l.
Proof.
  revert l'. induction l as [|x l IH]; intros [|y l'] Hk.
  - by left.
  - left. apply prefix_nil.
  - right. apply prefix_nil.
  - rewrite (Hk 0%nat x y) by done. destruct (IH l') as [Hp|Hp].
    + intros k. apply (Hk (S k)).
    + left. by apply prefix_cons.
    + right. by apply prefix_cons.
Qed.

Lemma sent_agree n g s i j k e e' : sys_inv n g s -> order_inv s ->
  sent s i !! k = Some e -> sent s j !! k = Some e' -> e = e'.
Proof.
  intros Hg Ho Hi Hj.
  assert (forall i e, sent s i !! k = Some e -> e_Index e = Z.of_nat k + 1) as Hk.
  { intros i' x Hx. apply (oi_numbered _ Ho i'). by apply lookup_app_l_Some. }
  eapply (committed_entry_unique n g s); [done| | |by rewrite (Hk _ _ Hi), (Hk _ _ Hj)];
    eapply (si_applied _ _ _ Hg), (oi_sent _ Ho), list_elem_of_lookup_2; eassumption.
Qed.

(** C6: Replicas apply one sequence of commands: in any execution of a cluster whose peers do
    not compact their logs (none calls [Snapshot] or [CondInstallSnapshot]), every peer has
    sent on [applyCh], since it was started, entries with the indexes 1, 2, 3, ... without
    a gap, and of any two peers one has sent what the other has and perhaps more. *)
Theorem peers_apply_one_sequence n s i j : sys_reachable n s ->
  (forall k (e : Entry C), sent s i !! k = Some e -> e_Index e = Z.of_nat k + 1) /\
  (sent s i `prefix_of` sent s j \/ sent s j `prefix_of` sent s i).
Proof.
  intros [[g Hg] Ho]%reachable_order. split.
  - intros k e Hk. apply (oi_numbered _ Ho i). by apply lookup_app_l_Some.
  - apply agree_prefix. intros k e e'. by eapply sent_agree.
Qed.
End order.
