(* ===== verification/RaftLive.v ===== *)
(** * A majority of the peers can always make progress

    [step_among Q] is a step of [RaftSystem] in which only peers of [Q] act, all of them
    running. From any
    reachable state, whatever was lost, delayed or is still in flight, the peers of a
    majority [Q] can elect a leader among them ([can_elect]), give it a command, catch up
    with its log ([catch_up]: the search for the place where the logs agree ends) and apply
    the command ([can_apply]), without any of the others. Elections and heartbeats start
    with the tick of a timer: the invariant [timed] says that a follower or candidate always
    has its election timer running or its tick waiting, a leader its heartbeat timer
    ([follower_pending], [leader_pending]). Leaders of old terms are
    demoted first ([demote_all]): their own election timers are stopped. *)
From Stdlib Require Import Strings.Byte.
From S2P Require Import Prelude Labgob Persister RaftTypes RaftNode RaftLog RaftSpec RaftReplication RaftLeader RaftSnapshot RaftInv RaftProps RaftVotes RaftElection RaftSystem RaftHistory RaftPreserve RaftReplicate RaftAppend RaftSafety RaftApply.

Create HintDb nodes.

Section live.
Context {C : Type} `{Gob Z} `{Gob (list (Entry C))} `{Rand} `{Alloc}.
Context `{!GobLaws Z} `{!GobLaws (list (Entry C))}.
Implicit Types (rf : Raft C) (s : System C) (L : list (Entry C)) (g : History C) (Q : list Z).

(** A step in which the peers outside of [Q] neither change nor send anything. *)
Definition acts_among Q s s' : Prop :=
  sys_step s s' /\
  (forall i, i ∉ Q -> node s' i = node s i /\ s_taken s' !! i = s_taken s !! i /\ s_sent s' !! i = s_sent s !! i) /\
  (forall m, m ∈ s_requests s' -> m ∈ s_requests s \/ s_from m ∈ Q) /\
  (forall m, m ∈ s_installs s' -> m ∈ s_installs s \/ s_from m ∈ Q) /\
  (forall i rf, node s i = Some rf -> exists rf', node s' i = Some rf' /\ dead rf' = dead rf).

(** The peers of [Q] are running: [Kill] was not called on them. *)
Definition running Q s : Prop := forall i, i ∈ Q -> exists rf, node s i = Some rf /\ dead rf = false.

Definition step_among Q s s' : Prop := running Q s /\ acts_among Q s s'.

Lemma running_acts Q s s' : running Q s -> acts_among Q s s' -> running Q s'.
Proof.
  intros Hrun (_&_&_&_&Hd) i Hi. destruct (Hrun i Hi) as (rf&Hn&Hdead). destruct (Hd i rf Hn) as (rf'&?&?).
  exists rf'. split; [done|congruence].
Qed.

Lemma running_steps Q s s' : running Q s -> rtc (acts_among Q) s s' -> rtc (step_among Q) s s'.
Proof.
  intros Hrun Hs. induction Hs as [|s s1 s2 Hs _ IH]; [done|]. eapply rtc_l; [by split|].
  apply IH. by eapply running_acts.
Qed.

(** Only [Kill] changes [dead]. *)
Definition same_dead rf rf' : Prop := dead rf' = dead rf.
#[export] Instance same_dead_preorder : PreOrder same_dead.
Proof. split; [done|]. intros ? ? ?. unfold same_dead. congruence. Qed.

#[local] Hint Extern 0 (same_dead _ _) => exact eq_refl : core.

Lemma dead_mergeEntries first (es : list (Entry C)) : moves same_dead (mergeEntries first es).
Proof. induction es; cbn [mergeEntries]; moves. Qed.
Lemma dead_AppendEntries q : moves same_dead (AppendEntries q).
Proof. pose proof dead_mergeEntries. moves. Qed.
Lemma dead_RequestVote q : moves same_dead (RequestVote q).
Proof. moves. Qed.
Lemma dead_electionReply q r v : moves same_dead (electionReply q r v).
Proof. moves. Qed.
Lemma dead_ticker_election : moves same_dead ticker_election.
Proof. moves. Qed.
Lemma dead_handleAppend p q r : moves same_dead (handleAppendEntriesResponse p q r).
Proof. moves. Qed.
Lemma dead_InstallSnapshot q : moves same_dead (InstallSnapshot q).
Proof. moves. Qed.
Lemma dead_handleInstall p q r : moves same_dead (handleInstallSnapshotResponse p q r).
Proof. moves. Qed.
Lemma dead_Start c : moves same_dead (Start c).
Proof. moves. Qed.
Lemma dead_goReplicateOneRound p : moves same_dead (goReplicateOneRound p).
Proof. moves. Qed.
Lemma dead_ticker_heartbeat : moves same_dead ticker_heartbeat.
Proof. moves. Qed.

(** ** Timers

    The election timer of a peer that is not the leader, and the heartbeat timer of a
    leader, is armed or has a tick to be handled. *)

Definition pending (t : Timer) : Prop := is_Some (t_when t) \/ ticked t = true.
Definition timed rf : Prop :=
  if decide (state rf = StateLeader) then pending (heartbeatTimer rf) else pending (electionTimer rf).

Lemma pending_Reset ms t : pending (Timer_Reset ms t).
Proof. left. by eexists. Qed.
Lemma ticked_expire t : pending t -> ticked (Timer_expire t) = true.
Proof.
  unfold pending, Timer_expire, ticked. destruct (t_when t); cbn; rewrite ?bool_decide_eq_true; [lia|].
  intros [[? ?]|?]; done.
Qed.
Lemma pending_expire t : pending t -> pending (Timer_expire t).
Proof. intros. right. by apply ticked_expire. Qed.

Definition keeps_timed rf rf' : Prop := timed rf -> timed rf'.
#[export] Instance keeps_timed_preorder : PreOrder keeps_timed.
Proof. split; [by intros ? ?|]. intros ? ? ? H12 H23 ?. by apply H23, H12. Qed.

#[local] Hint Extern 0 (keeps_timed _ _) => exact (fun Ht => Ht) : core.

Lemma timed_resetElectionTimer : moves keeps_timed resetElectionTimer.
Proof. apply moves_modify. intros rf. unfold keeps_timed, timed. cbn. case_decide; [done|]. intros _. apply pending_Reset. Qed.
Lemma timed_resetHeartbeatTimer : moves keeps_timed resetHeartbeatTimer.
Proof. apply moves_modify. intros rf. unfold keeps_timed, timed. cbn. case_decide; [|done]. intros _. apply pending_Reset. Qed.
Lemma timed_expireElectionTimer : moves keeps_timed expireElectionTimer.
Proof. apply moves_modify. intros rf. unfold keeps_timed, timed. cbn. case_decide; [done|]. apply pending_expire. Qed.
Lemma timed_expireHeartbeatTimer : moves keeps_timed expireHeartbeatTimer.
Proof. apply moves_modify. intros rf. unfold keeps_timed, timed. cbn. case_decide; [|done]. apply pending_expire. Qed.

(** A peer that steps down or wins starts the timer of its new role. *)
Lemma timed_ChangeState st : st <> StateCandidate -> moves keeps_timed (ChangeState st).
Proof.
  intros Hst. unfold ChangeState. apply moves_read. intros rf. destruct (decide (state rf = st)) as [|Hne].
  { by intros ? ? [= _ <-]. }
  assert (wlp (do! modify (set_state st);
    match st with
    | StateFollower => do! modify (fun rf => set_heartbeatTimer (Timer_Stop (heartbeatTimer rf)) rf); resetElectionTimer
    | StateCandidate => ret tt
    | StateLeader => let! lastLog := getLastLog in
        do! forM (seq 0 (peers rf)) (fun i => setProgress (Z.of_nat i) 0 (e_Index lastLog + 1));
        do! modify (fun rf => set_electionTimer (Timer_Stop (electionTimer rf)) rf); resetHeartbeatTimer
    end) rf (fun _ rf' => timed rf')) as Hx; [|intros ? ? Hr _; by eapply Hx].
  wlp_go; [|done|].
  - unfold resetElectionTimer. wlp_go. unfold timed. cbn. apply pending_Reset.
  - apply wlp_getLastLog. intros e. wlp_go.
    eapply wlp_mono; [apply (wlp_forM _ _ same_ballot_log); [done|apply same_ballot_log_trans|intros; apply wlp_setProgress]|].
    intros [] rf1 [[= _ _ Hs _ _ _] _]. unfold resetHeartbeatTimer. wlp_go. unfold timed. cbn. rewrite Hs. apply pending_Reset.
Qed.

#[local] Hint Resolve timed_resetElectionTimer timed_resetHeartbeatTimer timed_expireElectionTimer timed_expireHeartbeatTimer : raft.
#[local] Hint Extern 0 (moves keeps_timed (ChangeState _)) => by apply timed_ChangeState : raft.

Lemma timed_mergeEntries first (es : list (Entry C)) : moves keeps_timed (mergeEntries first es).
Proof. induction es; cbn [mergeEntries]; moves. Qed.
Lemma timed_AppendEntries q : moves keeps_timed (AppendEntries q).
Proof. pose proof timed_mergeEntries. moves. Qed.
Lemma timed_RequestVote q : moves keeps_timed (RequestVote q).
Proof. moves. Qed.
Lemma timed_electionReply q r v : moves keeps_timed (electionReply q r v).
Proof. moves. Qed.
Lemma timed_handleAppend p q r : moves keeps_timed (handleAppendEntriesResponse p q r).
Proof. moves. Qed.
Lemma timed_InstallSnapshot q : moves keeps_timed (InstallSnapshot q).
Proof. moves. Qed.
Lemma timed_handleInstall p q r : moves keeps_timed (handleInstallSnapshotResponse p q r).
Proof. moves. Qed.
Lemma timed_Start c : moves keeps_timed (Start c).
Proof. moves. Qed.
Lemma timed_goReplicateOneRound p : moves keeps_timed (goReplicateOneRound p).
Proof. moves. Qed.
Lemma timed_applier_take : moves keeps_timed applier_take.
Proof. moves. Qed.
Lemma timed_applier_done c : moves keeps_timed (applier_done c).
Proof. moves. Qed.

Lemma timed_ticker_heartbeat : moves keeps_timed ticker_heartbeat.
Proof.
  intros rf a rf' Hr Ht. revert a rf' Hr. change (wlp ticker_heartbeat rf (fun _ rf' => timed rf')).
  unfold ticker_heartbeat. wlp_go.
  - eapply wlp_mono; [apply wlp_BroadcastHeartbeat|]. intros [] rf1 [[= _ _ Hs _ _ _] _]. unfold resetHeartbeatTimer.
    wlp_go. unfold timed. cbn. rewrite Hs. cbn. rewrite decide_True by done. apply pending_Reset.
  - unfold timed in *. cbn. by rewrite decide_False in * by done.
Qed.

Lemma ticker_election_timed rf q rf' : ticker_election rf = Some (q, rf') -> timed rf'.
Proof.
  intros Hr. pose proof (st_state _ _ _ (ticker_election_effect _ _ _ Hr)) as Hs. unfold timed. rewrite Hs. cbn.
  revert q rf' Hr Hs. change (wlp ticker_election rf (fun _ rf' => state rf' = StateCandidate -> pending (electionTimer rf'))).
  unfold ticker_election. do 3 wlp_step. eapply wlp_mono; [by intros ? ? _; exact I|]. intros [] s1 _. wlp_go.
  eapply wlp_mono; [by intros ? ? _; exact I|]. intros q s2 _. unfold resetElectionTimer. wlp_go. intros _. apply pending_Reset.
Qed.

Lemma quiet_timed ev rf rf' : quiet ev rf -> run ev rf = Some rf' -> keeps_timed rf rf'.
Proof.
  assert (forall A (m : M (Raft C) A), moves keeps_timed m -> after m rf = Some rf' -> keeps_timed rf rf') as Hx.
  { intros A m Hm. unfold after. destruct (m rf) as [[a rf1]|] eqn:E; [|done]. intros [= <-]. by eapply Hm. }
  destruct ev; try done; intros _; cbn [run]; apply Hx; [apply timed_ticker_heartbeat|moves..].
Qed.

Lemma Make_timed n i ps rf : Make n i ps = Some rf -> timed rf.
Proof.
  unfold Make. set (m := bind _ _). intros ([[] rf1]&Hr&->)%fmap_Some. enough (moves keeps_timed m) as Hm.
  { apply (Hm _ _ _ Hr). left. by eexists. }
  subst m. moves.
Qed.

Definition all_timed s : Prop := forall i rf, node s i = Some rf -> timed rf.

Lemma step_timed s s' : sys_step s s' -> all_timed s -> all_timed s'.
Proof.
  intros Hs Hall.
  assert (forall j rf' s1, timed rf' -> c_nodes (s_cluster s1) = <[j := rf']> (c_nodes (s_cluster s)) -> all_timed s1) as Hx.
  { intros j rf' s1 Ht E i rf. unfold node. rewrite E. intros [[_ <-]|[_ ?]]%lookup_insert_Some; [done|by eapply Hall]. }
  destruct Hs as [i rf q rf' Hi _ Hr|k c rf resp rf' _ _ Hi Hr|k c resp v rf v' rf' _ _ _ Hi _ Hr|i rf rf' _ Hr
    |i p rf q rf' Hi _ _ _ Hr|m rf resp rf' _ Hi Hr|m rf rf' _ Hi Hr|m rf resp rf' _ Hi Hr
    |m rf rf' _ Hi Hr|i c rf q rf' Hi Hr|i ev rf rf' Hi Hq _ Hr|i rf es c rf' Hi _ Hr|i e es c Ht|i c rf rf' Ht Hi Hr].
  - eapply (Hx i rf'); [by eapply ticker_election_timed|done].
  - eapply (Hx _ rf'); [eapply timed_RequestVote; [exact Hr|by eapply Hall]|done].
  - eapply (Hx _ rf'); [eapply timed_electionReply; [exact Hr|by eapply Hall]|done].
  - eapply (Hx i rf'); [by eapply Make_timed|done].
  - eapply (Hx i rf'); [eapply timed_goReplicateOneRound; [exact Hr|by eapply Hall]|by destruct q].
  - eapply (Hx _ rf'); [eapply timed_AppendEntries; [exact Hr|by eapply Hall]|done].
  - eapply (Hx _ rf'); [eapply timed_handleAppend; [exact Hr|by eapply Hall]|done].
  - eapply (Hx _ rf'); [eapply timed_InstallSnapshot; [exact Hr|by eapply Hall]|done].
  - eapply (Hx _ rf'); [eapply timed_handleInstall; [exact Hr|by eapply Hall]|done].
  - eapply (Hx i rf'); [eapply timed_Start; [exact Hr|by eapply Hall]|done].
  - eapply (Hx i rf'); [eapply quiet_timed; [exact Hq|exact Hr|by eapply Hall]|done].
  - eapply (Hx i rf'); [eapply timed_applier_take; [exact Hr|by eapply Hall]|done].
  - exact Hall.
  - eapply (Hx i rf'); [eapply timed_applier_done; [exact Hr|by eapply Hall]|done].
Qed.

Lemma reachable_timed n s i rf : sys_reachable n s -> node s i = Some rf -> timed rf.
Proof.
  intros (s0&Hinit&Hs). assert (all_timed s0) as H0'.
  { intros j rfj Hj. destruct Hinit as [(_&_&Hn) _]. destruct (Hn _ _ Hj) as [_ HM]. by eapply Make_timed. }
  clear Hinit. revert i rf. change (all_timed s). induction Hs as [|s0 s1 s2 Hs _ IH]; [done|]. by eapply IH, step_timed.
Qed.

Lemma leader_pending n s i rf : sys_reachable n s -> node s i = Some rf -> state rf = StateLeader -> pending (heartbeatTimer rf).
Proof. intros Hr Hn Hs. pose proof (reachable_timed _ _ _ _ Hr Hn) as Ht. unfold timed in Ht. by rewrite decide_True in Ht. Qed.
Lemma follower_pending n s i rf : sys_reachable n s -> node s i = Some rf -> state rf <> StateLeader -> pending (electionTimer rf).
Proof. intros Hr Hn Hs. pose proof (reachable_timed _ _ _ _ Hr Hn) as Ht. unfold timed in Ht. by rewrite decide_False in Ht. Qed.

(** A step that puts a new state at [i]. *)
Lemma same_dead_at s s' i rf rf' : node s i = Some rf -> same_dead rf rf' -> node s' i = Some rf' ->
  (forall j, j <> i -> node s' j = node s j) ->
  forall j rfj, node s j = Some rfj -> exists rfj', node s' j = Some rfj' /\ dead rfj' = dead rfj.
Proof.
  intros Hn Hd Hn' Ho j rfj Hj. destruct (decide (j = i)) as [->|Hne].
  - rewrite Hn in Hj. injection Hj as <-. by exists rf'.
  - exists rfj. by rewrite Ho.
Qed.

Lemma among_steps Q s s' : rtc (acts_among Q) s s' -> rtc sys_step s s'.
Proof. apply rtc_subrel. by intros ? ? [? _]. Qed.

Lemma among_reachable n Q s s' : sys_reachable n s -> rtc (acts_among Q) s s' -> sys_reachable n s'.
Proof. intros (s0&Hi&Hr) Hs. exists s0. split; [done|]. etrans; [exact Hr|by eapply among_steps]. Qed.

(** ** The state of a peer after a step *)

Lemma node_set_node i rf s j : node (set_node i rf s) j = if decide (j = i) then Some rf else node s j.
Proof.
  unfold node, set_node. cbn. case_decide; [subst; by rewrite lookup_insert_eq|by rewrite lookup_insert_ne].
Qed.
Lemma node_set_node_eq i rf s : node (set_node i rf s) i = Some rf.
Proof. rewrite node_set_node. by rewrite decide_True. Qed.
Lemma node_set_node_ne i rf s j : j <> i -> node (set_node i rf s) j = node s j.
Proof. intros. rewrite node_set_node. by rewrite decide_False. Qed.
Lemma node_add_replication i p r s j : node (add_replication i p r s) j = node s j.
Proof. by destruct r. Qed.
Lemma node_add_response m r s j : node (add_response m r s) j = node s j.
Proof. done. Qed.
Lemma node_add_installed m r s j : node (add_installed m r s) j = node s j.
Proof. done. Qed.
#[local] Hint Rewrite node_set_node_eq node_add_replication node_add_response node_add_installed : nodes.
#[local] Hint Rewrite node_set_node_ne using congruence : nodes.

(** A step of one peer of [Q] that changes nothing but its state. *)
Lemma among_node Q s i rf rf' : i ∈ Q -> node s i = Some rf -> same_dead rf rf' -> sys_step s (set_node i rf' s) ->
  acts_among Q s (set_node i rf' s).
Proof.
  intros Hi Hn Hd Hs. split; [done|]. split_and!; [|by left..|].
  - intros j Hj. split; [|done]. rewrite node_set_node_ne; [done|]. by intros ->.
  - eapply same_dead_at; [done..|apply node_set_node_eq|]. intros j Hj. by apply node_set_node_ne.
Qed.

Lemma among_quiet Q s i ev rf rf' : i ∈ Q -> node s i = Some rf -> quiet ev rf -> ok ev rf -> run ev rf = Some rf' ->
  same_dead rf rf' -> acts_among Q s (set_node i rf' s).
Proof. intros Hi Hn Hq Hok Hr Hd. apply (among_node _ _ _ rf); [done..|]. by eapply sys_quiet. Qed.

Lemma among_replicate Q s l p rf r rf' : l ∈ Q -> node s l = Some rf -> 0 <= p < Z.of_nat (peers rf) ->
  p <> l -> GoReplicateOneRound p ∈ out rf -> goReplicateOneRound p rf = Some (r, rf') ->
  acts_among Q s (add_replication l p r (set_node l rf' s)).
Proof.
  intros Hl Hn Hp Hne Ho Hr. split; [by eapply sys_replicate|]. split_and!.
  - intros i Hi. rewrite node_add_replication, node_set_node_ne; [by destruct r|]. by intros ->.
  - destruct r; cbn; [by left|by left|]. intros m [?|Hm%list_elem_of_singleton]%elem_of_app; [by left|subst m; by right].
  - destruct r; cbn; [by left| |by left]. intros m [?|Hm%list_elem_of_singleton]%elem_of_app; [by left|subst m; by right].
  - eapply same_dead_at; [done|by eapply dead_goReplicateOneRound|by autorewrite with nodes|]. intros j Hj. by autorewrite with nodes.
Qed.

Lemma among_append Q s m rf resp rf' : s_to m ∈ Q -> m ∈ s_requests s -> node s (s_to m) = Some rf ->
  AppendEntries (s_msg m) rf = Some (resp, rf') -> acts_among Q s (add_response m resp (set_node (s_to m) rf' s)).
Proof.
  intros Hq Hm Hn Hr. split; [by eapply sys_append|]. split_and!; [|by left..|].
  - intros j Hj. split; [|done]. rewrite node_add_response, node_set_node_ne; [done|]. by intros ->.
  - eapply same_dead_at; [done|by eapply dead_AppendEntries|by autorewrite with nodes|]. intros j Hj. by autorewrite with nodes.
Qed.

Lemma among_install Q s m rf resp rf' : s_to m ∈ Q -> m ∈ s_installs s -> node s (s_to m) = Some rf ->
  InstallSnapshot (s_msg m) rf = Some (resp, rf') -> acts_among Q s (add_installed m resp (set_node (s_to m) rf' s)).
Proof.
  intros Hq Hm Hn Hr. split; [by eapply sys_install|]. split_and!; [|by left..|].
  - intros j Hj. split; [|done]. rewrite node_add_installed, node_set_node_ne; [done|]. by intros ->.
  - eapply same_dead_at; [done|by eapply dead_InstallSnapshot|by autorewrite with nodes|]. intros j Hj. by autorewrite with nodes.
Qed.

(** ** Rounds between a leader and a follower *)

Lemma wp_exact {A} (m : M (Raft C) A) rf a rf' : wp m rf (fun x y => x = a /\ y = rf') -> m rf = Some (a, rf').
Proof. intros (x&y&E&->&->)%wp_runs. done. Qed.

(** The same peer, but for its heartbeat timer and its goroutines. *)
Definition alike rf rf' : Prop := exists hb o, rf' = set_out o (set_heartbeatTimer hb rf).

Lemma alike_wf rf rf' : alike rf rf' -> wf rf -> wf rf'.
Proof. intros (hb&o&->) []. by split. Qed.

Lemma in_other_peers p rf : 0 <= p < Z.of_nat (peers rf) -> p <> me rf -> p ∈ other_peers rf.
Proof.
  intros Hp Hne. apply list_elem_of_filter. split; [done|]. apply list_elem_of_fmap. exists (Z.to_nat p).
  rewrite elem_of_seq. lia.
Qed.

(** The heartbeat timer of a leader runs out and [ticker] starts a round for every peer. *)
Lemma can_beat Q s l rf : l ∈ Q -> node s l = Some rf -> state rf = StateLeader -> pending (heartbeatTimer rf) ->
  exists s1 rf1, rtc (acts_among Q) s s1 /\ node s1 l = Some rf1 /\ (forall i, i <> l -> node s1 i = node s i) /\
    alike rf rf1 /\ forall p, p ∈ other_peers rf -> GoReplicateOneRound p ∈ out rf1.
Proof.
  intros Hl Hn Hlead Hpend. set (rf0 := set_heartbeatTimer (Timer_expire (heartbeatTimer rf)) rf).
  set (s0 := set_node l rf0 s).
  assert (acts_among Q s s0) as Hs0 by (by apply (among_quiet Q s l EvHeartbeatExpire rf)).
  assert (wp ticker_heartbeat rf0 (fun _ rf1 => alike rf rf1 /\ forall p, p ∈ other_peers rf -> GoReplicateOneRound p ∈ out rf1))
    as ([]&rf1&Hbeat&Halike&Hout)%wp_runs.
  { unfold ticker_heartbeat. go. rewrite decide_True by done. go. apply wp_BroadcastHeartbeat. unfold resetHeartbeatTimer. go.
    split; [by eexists _, _|]. intros p Hp. cbn. apply elem_of_app. right. by apply list_elem_of_fmap_2. }
  exists (set_node l rf1 s0), rf1. split_and!; [|by autorewrite with nodes| |done|done].
  - eapply rtc_l; [exact Hs0|]. apply rtc_once, (among_quiet Q s0 l EvHeartbeatTimeout rf0); [done|by apply node_set_node_eq| |done| |].
    + by apply ticked_expire.
    + unfold run, after. by rewrite Hbeat.
    + by eapply dead_ticker_heartbeat.
  - intros i Hi. unfold s0. by autorewrite with nodes.
Qed.

(** A leader sends a request to [p]. *)
Lemma can_send Q s l p rf r : l ∈ Q -> p <> l -> node s l = Some rf -> me rf = l -> 0 <= p < Z.of_nat (peers rf) ->
  state rf = StateLeader -> pending (heartbeatTimer rf) ->
  (forall rf1, alike rf rf1 -> replicateOneRound p rf1 = Some (r, rf1)) ->
  exists s1 rf1, rtc (acts_among Q) s s1 /\ node s1 l = Some rf1 /\ alike rf rf1 /\ (forall i, i <> l -> node s1 i = node s i) /\
    (forall q, r = SendAppendEntries q -> mkSent l p q ∈ s_requests s1) /\
    (forall q, r = SendInstallSnapshot q -> mkSent l p q ∈ s_installs s1).
Proof.
  intros Hl Hne Hn Hme Hp Hlead Hpend Hrep.
  destruct (can_beat Q s l rf) as (s1&rf1&Hs1&Hn1&Ho1&(hb&o&->)&Hout); [done..|].
  set (rf1 := set_out o (set_heartbeatTimer hb rf)) in *. set (rf2 := set_out (remove_round p (out rf1)) rf1).
  assert (alike rf rf2) as Ha2 by (by exists hb, (remove_round p (out rf1))).
  exists (add_replication l p r (set_node l rf2 s1)), rf2. split_and!; [|by autorewrite with nodes|done| | |].
  - eapply rtc_r; [exact Hs1|]. eapply among_replicate; [done|exact Hn1|done|done|apply Hout, in_other_peers; congruence|].
    exact (Hrep rf2 Ha2).
  - intros i Hi. autorewrite with nodes. by apply Ho1.
  - intros q ->. cbn. apply elem_of_app. right. by apply list_elem_of_singleton.
  - intros q ->. cbn. apply elem_of_app. right. by apply list_elem_of_singleton.
Qed.

(** The peers [l] and [p] have moved, the others have not. *)
Definition moved_two (l p : Z) rf rfp s s' : Prop :=
  node s' l = Some rf /\ node s' p = Some rfp /\ forall i, i <> l -> i <> p -> node s' i = node s i.

Section exchange.
Context Q s (l p : Z) rf rfp (Hl : l ∈ Q) (Hp : p ∈ Q) (Hne : p <> l) (Hnl : node s l = Some rf) (Hnp : node s p = Some rfp)
  (Hme : me rf = l) (Hrange : 0 <= p < Z.of_nat (peers rf)) (Hlead : state rf = StateLeader)
  (Hpend : pending (heartbeatTimer rf)).

Lemma round_append q resp rfp' (P : Raft C -> Prop) :
  (forall rf1, alike rf rf1 -> replicateOneRound p rf1 = Some (SendAppendEntries q, rf1)) ->
  AppendEntries q rfp = Some (resp, rfp') ->
  (forall rf1, alike rf rf1 -> exists rf', handleAppendEntriesResponse p q resp rf1 = Some (tt, rf') /\ P rf') ->
  exists s' rf', rtc (acts_among Q) s s' /\ moved_two l p rf' rfp' s s' /\ P rf'.
Proof.
  intros Hrep Happ Hhan. destruct (can_send Q s l p rf (SendAppendEntries q)) as (s1&rf1&Hs1&Hn1&Ha&Ho1&Hreq&_); [done..|].
  specialize (Hreq q eq_refl). destruct (Hhan rf1 Ha) as (rf'&Hh&HP).
  set (m := mkSent l p q). set (s2 := add_response m resp (set_node p rfp' s1)).
  assert (node s1 p = Some rfp) as Hnp1 by (by rewrite Ho1).
  exists (set_node l rf' s2), rf'. split_and!; [|..|done].
  - etrans; [exact Hs1|]. eapply rtc_l; [by apply (among_append Q s1 m rfp resp rfp')|].
    apply rtc_once, (among_node _ _ _ rf1); [done|subst s2; change (s_to m) with p; by autorewrite with nodes|by eapply dead_handleAppend|].
    eapply (sys_append_reply _ (mkSent l p (q, resp))); [|subst s2; cbn [s_from]; change (s_to m) with p; by autorewrite with nodes|done].
    cbn. apply elem_of_app. right. by apply list_elem_of_singleton.
  - split_and!; subst s2; [by autorewrite with nodes..|]. intros i Hi Hi'. autorewrite with nodes. by apply Ho1.
Qed.

Lemma round_install q resp rfp' (P : Raft C -> Prop) :
  (forall rf1, alike rf rf1 -> replicateOneRound p rf1 = Some (SendInstallSnapshot q, rf1)) ->
  InstallSnapshot q rfp = Some (resp, rfp') ->
  (forall rf1, alike rf rf1 -> exists rf', handleInstallSnapshotResponse p q resp rf1 = Some (tt, rf') /\ P rf') ->
  exists s' rf', rtc (acts_among Q) s s' /\ moved_two l p rf' rfp' s s' /\ P rf'.
Proof.
  intros Hrep Happ Hhan. destruct (can_send Q s l p rf (SendInstallSnapshot q)) as (s1&rf1&Hs1&Hn1&Ha&Ho1&_&Hreq); [done..|].
  specialize (Hreq q eq_refl). destruct (Hhan rf1 Ha) as (rf'&Hh&HP).
  set (m := mkSent l p q). set (s2 := add_installed m resp (set_node p rfp' s1)).
  assert (node s1 p = Some rfp) as Hnp1 by (by rewrite Ho1).
  exists (set_node l rf' s2), rf'. split_and!; [|..|done].
  - etrans; [exact Hs1|]. eapply rtc_l; [by apply (among_install Q s1 m rfp resp rfp')|].
    apply rtc_once, (among_node _ _ _ rf1); [done|subst s2; change (s_to m) with p; by autorewrite with nodes|by eapply dead_handleInstall|].
    eapply (sys_install_reply _ (mkSent l p (q, resp))); [|subst s2; cbn [s_from]; change (s_to m) with p; by autorewrite with nodes|done].
    cbn. apply elem_of_app. right. by apply list_elem_of_singleton.
  - split_and!; subst s2; [by autorewrite with nodes..|]. intros i Hi Hi'. autorewrite with nodes. by apply Ho1.
Qed.
End exchange.

(** ** What the methods do, exactly *)

Section leader.
Context rf (Hwf : wf rf) (Hfull : full (logs rf)) (Hlead : state rf = StateLeader).

Lemma replicate_append p nx : 0 <= p -> nextIndex rf !! Z.to_nat p = Some nx -> 1 <= nx ->
  exists t, term_at (logs rf) (nx - 1) = Some t /\
    forall rf1, alike rf rf1 -> replicateOneRound p rf1 = Some (SendAppendEntries (mkAppendEntriesRequest C (currentTerm rf)
      (me rf) (nx - 1) t (commitIndex rf) (drop (Z.to_nat nx) (logs rf))), rf1).
Proof.
  intros Hp Hnx Hpos. pose proof (wf_next _ Hwf Hlead) as Hle. rewrite Forall_lookup in Hle. specialize (Hle _ _ Hnx).
  pose proof (full_first _ Hfull) as Hf0. destruct (entry_at_is_Some (logs rf) (nx - 1)) as [e He]; [lia|].
  exists (e_Term e). assert (term_at (logs rf) (nx - 1) = Some (e_Term e)) as Ht by (unfold term_at; by rewrite He).
  split; [done|]. intros rf1 (hb&o&->). apply wp_exact. unfold replicateOneRound. go. rewrite decide_False by (cbn; tauto). go.
  eapply wp_lift; [by apply slice_get_Some|]. go.
  apply wp_getFirstLog; [apply Hfull|]. intros f _ Hf. cbn in Hf. rewrite Hf, Hf0. rewrite decide_False by lia. go.
  apply wp_genAppendEntriesRequest; [apply Hfull|cbn; lia|]. intros t Ht'. cbn in *. go. rewrite Ht in Ht'. injection Ht' as <-.
  rewrite Hf0. split; [|done]. by replace (nx - 1 + 1 - 0) with nx by lia.
Qed.

Lemma replicate_install p nx : 0 <= p -> nextIndex rf !! Z.to_nat p = Some nx -> nx < 1 ->
  exists q, is_Term q = currentTerm rf /\ is_LastIncludedIndex q = 0 /\
    forall rf1, alike rf rf1 -> replicateOneRound p rf1 = Some (SendInstallSnapshot q, rf1).
Proof.
  intros Hp Hnx Hpos. pose proof (full_first _ Hfull) as Hf0.
  exists (mkInstallSnapshotRequest (currentTerm rf) (me rf) 0 0 (ReadSnapshot (persister rf))).
  split_and!; [done..|]. intros rf1 (hb&o&->). apply wp_exact. unfold replicateOneRound. go. rewrite decide_False by (cbn; tauto). go.
  eapply wp_lift; [by apply slice_get_Some|]. go.
  apply wp_getFirstLog; [apply Hfull|]. intros f _ Hf. cbn in Hf. rewrite Hf, Hf0. rewrite decide_True by lia. go.
  apply wp_genInstallSnapshotRequest; [apply Hfull|]. intros t Ht. cbn in *. go. rewrite Hf0 in *. split; [|done].
  unfold term_at in Ht. rewrite full_entry_at in Ht by done. destruct Hfull as [_ Hz]. change (Z.to_nat 0) with 0%nat in Ht. rewrite Hz in Ht.
  by injection Ht as <-.
Qed.

(** A refusal moves [nextIndex] below the entry that did not match. *)
Lemma handle_conflict p q resp : 0 <= p < len (nextIndex rf) -> currentTerm rf = ae_Term q ->
  ae_PrevLogIndex q <= last_index (logs rf) -> aer_Success resp = false -> aer_Term resp = currentTerm rf ->
  aer_ConflictIndex resp <= ae_PrevLogIndex q ->
  term_at (logs rf) (ae_PrevLogIndex q) <> Some (aer_ConflictTerm resp) ->
  exists nx, nx <= ae_PrevLogIndex q /\ handleAppendEntriesResponse p q resp rf =
    Some (tt, set_nextIndex (<[Z.to_nat p := nx]> (nextIndex rf)) rf).
Proof.
  intros Hp HT Hprev Hsucc Hterm Hci Hct.
  assert (wp (handleAppendEntriesResponse p q resp) rf (fun _ rf' => exists nx, nx <= ae_PrevLogIndex q /\
    rf' = set_nextIndex (<[Z.to_nat p := nx]> (nextIndex rf)) rf)) as ([]&rf'&E&nx&?&->)%wp_runs; [|by exists nx].
  unfold handleAppendEntriesResponse. go. rewrite Hlead, HT, !bool_decide_true, Hsucc by done. cbn [andb].
  rewrite decide_False by lia. rewrite decide_True by lia. go. apply wp_setNextIndex; [lia|].
  destruct (decide (aer_ConflictTerm resp <> -1)) as [Hne|Hne]; go; [|by eexists].
  apply wp_getFirstLog; [apply Hfull|]. intros f _ Hf. cbn in Hf. rewrite Hf. go.
  destruct (findTerm_spec (logs rf) (aer_ConflictTerm resp) (ae_PrevLogIndex q)) as (r&->&Hr); [done|].
  go. destruct r as [k|]; go; [|by eexists].
  apply wp_setNextIndex; [cbn; rewrite length_insert; lia|]. cbn. rewrite list_insert_insert_eq.
  exists (k + 1). split; [|done]. destruct Hr as (Hk&Hkt&_). destruct (decide (k = ae_PrevLogIndex q)); [congruence|lia].
Qed.

(** The leader goes on leading with the same log. *)
Definition goes_on rf rf' : Prop :=
  state rf' = StateLeader /\ currentTerm rf' = currentTerm rf /\ logs rf' = logs rf /\ commitIndex rf <= commitIndex rf'.

(** An acknowledgement is noted, and what a majority has acknowledged is committed. *)
Lemma handle_success p q resp : 0 <= p < len (nextIndex rf) -> currentTerm rf = ae_Term q ->
  ae_PrevLogIndex q <= last_index (logs rf) -> aer_Success resp = true ->
  let ms := <[Z.to_nat p := ae_PrevLogIndex q + len (ae_Entries q)]> (matchIndex rf) in
  exists rf', handleAppendEntriesResponse p q resp rf = Some (tt, rf') /\ goes_on rf rf' /\ matchIndex rf' = ms /\
    forall v, majority ms v -> term_at (logs rf) v = Some (currentTerm rf) -> v <= commitIndex rf'.
Proof.
  intros Hp HT Hprev Hsucc ms. pose proof (wf_match_len _ Hwf). pose proof (wf_next_len _ Hwf).
  assert (wp (handleAppendEntriesResponse p q resp) rf (fun _ rf' => goes_on rf rf' /\ matchIndex rf' = ms /\
    forall v, majority ms v -> term_at (logs rf) v = Some (currentTerm rf) -> v <= commitIndex rf')) as Hx.
  2:{ apply wp_runs in Hx as ([]&rf'&?&?&?&?). by exists rf'. }
  apply wp_handleAppendEntriesResponse; try congruence; try lia; try naive_solver.
  - apply Hfull.
  - apply (wf_commit _ Hwf).
  - intros _ _ _ v Hv. fold ms in Hv. split.
    + intros Hno. split; [done|]. split; [done|]. intros w Hw Hwt. rewrite (majority_unique _ _ _ Hw Hv) in *. cbn. tauto.
    + intros Hlt Ht. split; [split_and!; [done..|cbn; lia]|]. split; [done|]. intros w Hw _.
      rewrite (majority_unique _ _ _ Hw Hv). done.
Qed.

Lemma handle_installed p q resp : 0 <= p < len (nextIndex rf) -> currentTerm rf = is_Term q ->
  is_LastIncludedIndex q = 0 -> isr_Term resp <= currentTerm rf ->
  handleInstallSnapshotResponse p q resp rf = Some (tt, progress p 0 1 rf).
Proof.
  intros Hp HT H0' Hle. pose proof (wf_match_len _ Hwf). pose proof (wf_next_len _ Hwf).
  apply wp_exact. apply wp_handleInstallSnapshotResponse; try congruence; try lia.
  - by intros [].
  - rewrite H0'. done.
Qed.
End leader.

Section follower.
Context rf (Hwf : wf rf) (Hfull : full (logs rf)).
Context (q : AppendEntriesRequest C) (Hterm : currentTerm rf <= ae_Term q) (Hprev : 0 <= ae_PrevLogIndex q)
  (Hent : consecutive (ae_PrevLogIndex q + 1) (ae_Entries q)).

(** The follower has the entry before those of the request: it takes them over. *)
Lemma append_accepts : term_at (logs rf) (ae_PrevLogIndex q) = Some (ae_PrevLogTerm q) ->
  let l := merged (logs rf) (ae_PrevLogIndex q) (ae_Entries q) in
  exists resp rf', AppendEntries q rf = Some (resp, rf') /\ aer_Success resp = true /\
    currentTerm rf' = ae_Term q /\ logs rf' = l /\ Z.min (ae_LeaderCommit q) (last_index l) <= commitIndex rf'.
Proof.
  intros Ht l.
  assert (wp (AppendEntries q) rf (fun resp rf' => aer_Success resp = true /\ currentTerm rf' = ae_Term q /\
    logs rf' = l /\ Z.min (ae_LeaderCommit q) (last_index l) <= commitIndex rf')) as Hx.
  2:{ apply wp_runs in Hx as (resp&rf'&?&?&?&?&?). by exists resp, rf'. }
  pose proof (full_first _ Hfull).
  apply wp_AppendEntries; [apply Hfull|done|lia|lia| | |].
  - intros _ Hlt _. unfold term_at in Ht. destruct (entry_at _ _) as [e|] eqn:E; [|done]. apply entry_at_Some in E. lia.
  - intros t r _ _ Ht' Hne. congruence.
  - intros _ _ _. split; [done|]. unfold commit_follower. case_decide; cbn.
    + split_and!; [by apply follow_leader_term|done|]. subst l. lia.
    + split_and!; [by apply follow_leader_term|done|]. cbn in *. subst l. lia.
Qed.

(** It has another entry there, or none: it refuses and says where to look. *)
Lemma append_refuses : 0 <= ae_PrevLogTerm q -> term_at (logs rf) (ae_PrevLogIndex q) <> Some (ae_PrevLogTerm q) ->
  exists resp rf', AppendEntries q rf = Some (resp, rf') /\ aer_Success resp = false /\ aer_Term resp = ae_Term q /\
    aer_ConflictIndex resp <= ae_PrevLogIndex q /\ aer_ConflictTerm resp <> ae_PrevLogTerm q /\
    currentTerm rf' = ae_Term q.
Proof.
  intros Hpos Ht.
  assert (wp (AppendEntries q) rf (fun resp rf' => aer_Success resp = false /\ aer_Term resp = ae_Term q /\
    aer_ConflictIndex resp <= ae_PrevLogIndex q /\ aer_ConflictTerm resp <> ae_PrevLogTerm q /\
    currentTerm rf' = ae_Term q)) as Hx.
  2:{ apply wp_runs in Hx as (resp&rf'&?&?&?&?&?&?). by exists resp, rf'. }
  pose proof (full_first _ Hfull). pose proof (follow_leader_term _ rf Hterm) as Hft.
  apply wp_AppendEntries; [apply Hfull|done|lia|lia| | |].
  - intros _ Hlt _. cbn. split_and!; [done..|lia|lia|done].
  - intros t r _ _ Ht' Hne Hr _ _. cbn. split_and!; [done..|lia|done|done].
  - intros _ _ ?. congruence.
Qed.
End follower.

Lemma install_ignored rf q : currentTerm rf <= is_Term q -> is_LastIncludedIndex q <= commitIndex rf ->
  exists resp rf', InstallSnapshot q rf = Some (resp, rf') /\ isr_Term resp <= is_Term q /\ currentTerm rf' = is_Term q.
Proof.
  intros HT Hi. assert (wp (InstallSnapshot q) rf (fun resp rf' => isr_Term resp <= is_Term q /\
    currentTerm rf' = is_Term q)) as Hx.
  2:{ apply wp_runs in Hx as (resp&rf'&?&?&?). by exists resp, rf'. }
  apply wp_InstallSnapshot; [lia| |lia]. intros _ _. split; [done|].
  unfold follow_snapshot, followed. repeat case_decide; cbn in *; lia.
Qed.

(** ** Catching up *)

(** What every peer of a reachable state satisfies. *)
Record sound (n : nat) (i : Z) rf : Prop := {
  sd_wf : wf rf;
  sd_full : full (logs rf);
  sd_me : me rf = i;
  sd_peers : peers rf = n;
  sd_range : 0 <= i < Z.of_nat n;
  sd_applied : 0 <= lastApplied rf;
  sd_terms k e : logs rf !! k = Some e -> 0 <= e_Term e <= currentTerm rf
}.

Lemma reachable_sound n s i rf : sys_reachable n s -> node s i = Some rf -> sound n i rf.
Proof.
  intros [g Hinv]%reachable_sys_inv Hi. pose proof (si_node _ _ _ Hinv _ _ Hi) as Hn.
  destruct (inv_node _ _ (si_cluster _ _ _ Hinv) _ _ Hi) as (?&?&?&_). split; try done; try apply Hn.
  intros k e Hk. split; [|by eapply ni_terms]. destruct (decide (k = 0)%nat) as [->|Hpos].
  - destruct (ni_full _ _ _ _ _ Hn) as [_ Hz]. rewrite Hz in Hk. by injection Hk as <-.
  - destruct (ni_origin _ _ _ _ _ Hn _ _ Hk) as (r&Hr&_); [lia|]. pose proof (li_term _ _ _ _ _ (si_led _ _ _ Hinv _ _ Hr)). lia.
Qed.

Lemma term_at_lookup L i t : full L -> 0 <= i -> term_at L i = Some t <-> exists e, L !! Z.to_nat i = Some e /\ e_Term e = t.
Proof.
  intros Hf Hi. unfold term_at. rewrite full_entry_at by done. destruct (L !! Z.to_nat i) as [e|]; cbn; naive_solver.
Qed.

(** A log that ends in an entry another log has, has all its entries in common with it. *)
Lemma matching_prefix n s i j rf rf' t : sys_reachable n s -> node s i = Some rf -> node s j = Some rf' ->
  term_at (logs rf) (last_index (logs rf)) = Some t -> term_at (logs rf') (last_index (logs rf)) = Some t ->
  logs rf `prefix_of` logs rf'.
Proof.
  intros Hr Hi Hj. pose proof (sd_full _ _ _ (reachable_sound _ _ _ _ Hr Hi)) as Hf.
  pose proof (sd_full _ _ _ (reachable_sound _ _ _ _ Hr Hj)) as Hf'. pose proof (full_length _ Hf).
  rewrite full_last by done. rewrite !term_at_lookup by (done || lia). intros (e&He&<-) (e'&He'&HT).
  pose proof Hr as [g Hinv]%reachable_sys_inv.
  rewrite <-(firstn_all2 (n := S (Z.to_nat (len (logs rf) - 1))) (logs rf)) by lia.
  apply take_prefix_lookup; [lia|]. intros h Hh. symmetry.
  pose proof (si_node _ _ _ Hinv _ _ Hi) as Hni. pose proof (si_node _ _ _ Hinv _ _ Hj) as Hnj.
  eapply (log_matching g); [done|done|apply Hni|apply Hnj|exact He|exact He'|done|done].
Qed.

(** After a round that ends with the follower [rfp'] and the leader [rf']. *)
Record caught_up (p : Z) rf rf' rfp' : Prop := {
  cu_goes_on : goes_on rf rf';
  cu_match : matchIndex rf' = <[Z.to_nat p := last_index (logs rf)]> (matchIndex rf);
  cu_commits v : majority (matchIndex rf') v -> term_at (logs rf) v = Some (currentTerm rf) -> v <= commitIndex rf';
  cu_term : currentTerm rfp' = currentTerm rf;
  cu_log : logs rf `prefix_of` logs rfp';
  cu_commit : Z.min (commitIndex rf) (last_index (logs rf)) <= commitIndex rfp'
}.

Section round.
Context (n : nat) Q (l p : Z) (Hl : l ∈ Q) (Hp : p ∈ Q) (Hne : p <> l).

Lemma round_matches s rf rfp nx : sys_reachable n s -> node s l = Some rf -> state rf = StateLeader ->
  node s p = Some rfp -> currentTerm rfp <= currentTerm rf -> nextIndex rf !! Z.to_nat p = Some nx -> 1 <= nx ->
  term_at (logs rfp) (nx - 1) = term_at (logs rf) (nx - 1) ->
  exists s' rf' rfp', rtc (acts_among Q) s s' /\ moved_two l p rf' rfp' s s' /\ caught_up p rf rf' rfp'.
Proof.
  intros Hr Hnl Hlead Hnp HT Hnx Hpos Ht. pose proof (reachable_sound _ _ _ _ Hr Hnl) as [Hwf Hf Hme Hpe _ _ _].
  pose proof (leader_pending _ _ _ _ Hr Hnl Hlead) as Hpend.
  pose proof (reachable_sound _ _ _ _ Hr Hnp) as [Hwfp Hfp _ _ Hrange _ _].
  pose proof (wf_next_len _ Hwf) as Hlen. pose proof (full_last _ Hf) as Hlast. pose proof (full_length _ Hf) as Hpos'.
  pose proof (wf_next _ Hwf Hlead) as Hle. rewrite Forall_lookup in Hle. specialize (Hle _ _ Hnx).
  destruct (replicate_append rf Hwf Hf Hlead p nx) as (t&Htl&Hrep); [lia|done|done|]. rewrite Htl in Ht.
  set (q := mkAppendEntriesRequest _ _ _ _ _ _ _) in Hrep.
  assert (consecutive (ae_PrevLogIndex q + 1) (ae_Entries q)) as Hcons.
  { cbn. replace (nx - 1 + 1) with (first_index (logs rf) + Z.of_nat (Z.to_nat nx)) by (rewrite full_first by done; lia).
    apply consecutive_drop, Hf. }
  destruct (append_accepts rfp Hfp q HT ltac:(cbn; lia) Hcons Ht) as (resp&rfp'&Happ&Hs&HT'&Hlog&Hc).
  assert (ae_PrevLogIndex q + len (ae_Entries q) = last_index (logs rf)) as Em.
  { cbn [ae_PrevLogIndex ae_Entries q]. rewrite length_drop, Hlast. lia. }
  assert (forall rf1, alike rf rf1 -> exists rf', handleAppendEntriesResponse p q resp rf1 = Some (tt, rf') /\ goes_on rf rf' /\
    matchIndex rf' = <[Z.to_nat p := last_index (logs rf)]> (matchIndex rf) /\
    forall v, majority (matchIndex rf') v -> term_at (logs rf) v = Some (currentTerm rf) -> v <= commitIndex rf') as Hh.
  { intros rf1 Ha. pose proof (alike_wf _ _ Ha Hwf) as Hwf1. destruct Ha as (hb&o&->).
    destruct (handle_success _ Hwf1 Hf Hlead p q resp) as (rf'&Hh&Hg&Hm&Hcm); [cbn; lia|done|cbn; lia|done|].
    exists rf'. rewrite Em in *. rewrite Hm. done. }
  destruct (round_append Q s l p rf rfp Hl Hp Hne Hnl Hnp Hme ltac:(by rewrite Hpe) Hlead Hpend q resp rfp' _ Hrep Happ Hh)
    as (s'&rf'&Hss&Hmv&Hg&Hm&Hcm).
  exists s', rf', rfp'. split; [done|]. split; [done|]. pose proof Hmv as (Hnl'&Hnp'&_). pose proof Hg as (_&_&Hlg&_).
  assert (first_index (logs rfp) <= ae_PrevLogIndex q <= last_index (logs rfp)) as Hpr.
  { unfold term_at in Ht. destruct (entry_at (logs rfp) _) eqn:E; [|done]. by apply entry_at_Some in E. }
  assert (last_index (logs rf) <= last_index (logs rfp')) as Hll.
  { rewrite Hlog. pose proof (merged_last (logs rfp) _ (ae_Entries q) Hpr). lia. }
  split; [done|done|done|by rewrite HT'| |].
  - rewrite <-Hlg. destruct (entry_at_is_Some (logs rf') (last_index (logs rf'))) as [e He];
      [rewrite Hlg; rewrite (full_first _ Hf); lia|].
    assert (term_at (logs rf') (last_index (logs rf')) = Some (e_Term e)) as Hte by (unfold term_at; by rewrite He).
    eapply (matching_prefix n s'); [by eapply among_reachable|done..|]. rewrite Hlog, Hlg in *.
    destruct (decide (nx - 1 = last_index (logs rf))) as [E|E].
    + rewrite <-E in *. etrans; [|etrans; [exact Ht|congruence]]. unfold term_at. f_equal. apply (merged_below _ _ _ Hpr). done.
    + replace (last_index (logs rf)) with (ae_PrevLogIndex q + 1 + Z.of_nat (Z.to_nat (last_index (logs rf) - nx)))
        by (cbn [ae_PrevLogIndex q]; lia).
      apply (merged_entries _ _ _ Hpr). cbn [ae_Entries q]. rewrite lookup_drop.
      rewrite full_entry_at in He by (done || lia). rewrite <-He. f_equal. lia.
  - rewrite <-Hlog in Hc. change (ae_LeaderCommit q) with (commitIndex rf) in Hc. lia.
Qed.

Lemma round_conflict s rf rfp nx : sys_reachable n s -> node s l = Some rf -> state rf = StateLeader ->
  node s p = Some rfp -> currentTerm rfp <= currentTerm rf -> nextIndex rf !! Z.to_nat p = Some nx -> 1 <= nx ->
  term_at (logs rfp) (nx - 1) <> term_at (logs rf) (nx - 1) ->
  exists s' rf' rfp' nx', rtc (acts_among Q) s s' /\ nx' < nx /\ currentTerm rfp' = currentTerm rf /\
    moved_two l p rf' rfp' s s' /\ alike (set_nextIndex (<[Z.to_nat p := nx']> (nextIndex rf)) rf) rf'.
Proof.
  intros Hr Hnl Hlead Hnp HT Hnx Hpos Ht. pose proof (reachable_sound _ _ _ _ Hr Hnl) as [Hwf Hf Hme Hpe _ _ Hterms].
  pose proof (leader_pending _ _ _ _ Hr Hnl Hlead) as Hpend.
  pose proof (reachable_sound _ _ _ _ Hr Hnp) as [Hwfp Hfp _ _ Hrange _ _]. pose proof (wf_next_len _ Hwf) as Hlen.
  pose proof (wf_next _ Hwf Hlead) as Hle. rewrite Forall_lookup in Hle. specialize (Hle _ _ Hnx).
  destruct (replicate_append rf Hwf Hf Hlead p nx) as (t&Htl&Hrep); [lia|done|done|]. rewrite Htl in Ht.
  assert (0 <= t) as Htpos.
  { rewrite term_at_lookup in Htl by (done || lia). destruct Htl as (e&He&<-). by eapply Hterms. }
  set (q := mkAppendEntriesRequest _ _ _ _ _ _ _) in Hrep.
  assert (consecutive (ae_PrevLogIndex q + 1) (ae_Entries q)) as Hcons.
  { cbn. replace (nx - 1 + 1) with (first_index (logs rf) + Z.of_nat (Z.to_nat nx)) by (rewrite full_first by done; lia).
    apply consecutive_drop, Hf. }
  destruct (append_refuses rfp Hfp q HT ltac:(cbn; lia) Hcons Htpos Ht) as (resp&rfp'&Happ&Hs&HT'&Hci&Hct&HT2).
  assert (forall rf1, alike rf rf1 -> exists rf', handleAppendEntriesResponse p q resp rf1 = Some (tt, rf') /\
    exists nx', nx' < nx /\ alike (set_nextIndex (<[Z.to_nat p := nx']> (nextIndex rf)) rf) rf') as Hh.
  { intros rf1 (hb&o&->). destruct (handle_conflict (set_out o (set_heartbeatTimer hb rf)) Hf Hlead p q resp) as (nx'&Hnx'&Hh);
      [cbn; lia|done|cbn; lia|done|done|done|cbn [logs set_out set_heartbeatTimer ae_PrevLogIndex q]; rewrite Htl; by intros [= ->]|].
    eexists. split; [exact Hh|]. exists nx'. split; [cbn in Hnx'; lia|]. by exists hb, o. }
  destruct (round_append Q s l p rf rfp Hl Hp Hne Hnl Hnp Hme ltac:(by rewrite Hpe) Hlead Hpend q resp rfp' _ Hrep Happ Hh)
    as (s'&rf'&Hss&Hmv&nx'&?&?).
  exists s', rf', rfp', nx'. by split_and!.
Qed.

Lemma round_zero s rf rfp nx : sys_reachable n s -> node s l = Some rf -> state rf = StateLeader ->
  node s p = Some rfp -> currentTerm rfp <= currentTerm rf -> nextIndex rf !! Z.to_nat p = Some nx -> nx < 1 ->
  exists s' rf' rfp', rtc (acts_among Q) s s' /\ currentTerm rfp' = currentTerm rf /\ moved_two l p rf' rfp' s s' /\
    alike (progress p 0 1 rf) rf'.
Proof.
  intros Hr Hnl Hlead Hnp HT Hnx Hpos. pose proof (reachable_sound _ _ _ _ Hr Hnl) as [Hwf Hf Hme Hpe _ _ _].
  pose proof (leader_pending _ _ _ _ Hr Hnl Hlead) as Hpend.
  pose proof (reachable_sound _ _ _ _ Hr Hnp) as [Hwfp Hfp _ _ Hrange _ _]. pose proof (wf_next_len _ Hwf) as Hlen.
  destruct (replicate_install rf Hf Hlead p nx) as (q&HTq&Hi&Hrep); [lia|done|done|].
  destruct (install_ignored rfp q) as (resp&rfp'&Happ&Hle&HT').
  { by rewrite HTq. }
  { rewrite Hi. pose proof (wf_commit _ Hwfp). rewrite (full_first _ Hfp) in *. lia. }
  assert (forall rf1, alike rf rf1 -> exists rf', handleInstallSnapshotResponse p q resp rf1 = Some (tt, rf') /\
    alike (progress p 0 1 rf) rf') as Hh.
  { intros rf1 Ha. pose proof (alike_wf _ _ Ha Hwf) as Hwf1. destruct Ha as (hb&o&->). eexists.
    split; [apply handle_installed; [done|done|cbn; lia|done|done|cbn; lia]|by exists hb, o]. }
  destruct (round_install Q s l p rf rfp Hl Hp Hne Hnl Hnp Hme ltac:(by rewrite Hpe) Hlead Hpend q resp rfp' _ Hrep Happ Hh)
    as (s'&rf'&?&?&?).
  exists s', rf', rfp'. split_and!; [done| |done|done]. by rewrite HT'.
Qed.

Lemma moved_two_trans rf1 rfp1 rf2 rfp2 s s1 s2 : moved_two l p rf1 rfp1 s s1 -> moved_two l p rf2 rfp2 s1 s2 ->
  moved_two l p rf2 rfp2 s s2.
Proof. intros (_&_&H1') (?&?&H2'). split_and!; [done..|]. intros i ? ?. rewrite H2' by done. auto. Qed.

Lemma caught_up_from rf rf1 rf' rfp' : state rf1 = state rf -> currentTerm rf1 = currentTerm rf -> logs rf1 = logs rf ->
  commitIndex rf1 = commitIndex rf ->
  (forall v, <[Z.to_nat p := v]> (matchIndex rf1) = <[Z.to_nat p := v]> (matchIndex rf)) ->
  caught_up p rf1 rf' rfp' -> caught_up p rf rf' rfp'.
Proof.
  intros Hs HT HL Hc Hm [(?&?&?&?) Hm' Hcm ? ? ?]. rewrite HT, HL, Hc, Hm in *. split; try done.
Qed.

Lemma catch_up_zero s rf rfp nx : sys_reachable n s -> node s l = Some rf -> state rf = StateLeader ->
  node s p = Some rfp -> currentTerm rfp <= currentTerm rf -> nextIndex rf !! Z.to_nat p = Some nx -> nx < 1 ->
  exists s' rf' rfp', rtc (acts_among Q) s s' /\ moved_two l p rf' rfp' s s' /\ caught_up p rf rf' rfp'.
Proof.
  intros Hr Hnl Hlead Hnp HT Hnx Hlt.
  destruct (round_zero s rf rfp nx) as (s1&rf1&rfp1&Hs1&HT1&Hm1&(hb&o&->)); try done.
  pose proof Hm1 as (Hnl1&Hnp1&_). set (rf1 := set_out o _) in *.
  pose proof (among_reachable _ _ _ _ Hr Hs1) as Hr1. pose proof (lookup_lt_Some _ _ _ Hnx) as Hlen.
  destruct (round_matches s1 rf1 rfp1 1) as (s2&rf2&rfp2&Hs2&Hm2&Hc2); try done; [by rewrite HT1| | |].
  { by apply list_lookup_insert_eq. }
  { pose proof (sd_full _ _ _ (reachable_sound _ _ _ _ Hr1 Hnl1)) as Hf.
    pose proof (sd_full _ _ _ (reachable_sound _ _ _ _ Hr1 Hnp1)) as Hfp.
    unfold term_at. rewrite !full_entry_at by done. destruct Hf as [_ Hz], Hfp as [_ Hzp].
    change (Z.to_nat (1 - 1)) with 0%nat. by rewrite Hz, Hzp. }
  exists s2, rf2, rfp2. split_and!; [by etrans|by eapply moved_two_trans|].
  eapply caught_up_from; [..|exact Hc2]; try done. intros v. cbn. apply list_insert_insert_eq.
Qed.

(** The leader brings the follower up to date in finitely many rounds: [nextIndex] goes down
    until the logs agree, and if it leaves the log, the snapshot request that goes out then
    sets it to 1. *)
Lemma catch_up s rf rfp : sys_reachable n s -> node s l = Some rf -> state rf = StateLeader ->
  node s p = Some rfp -> currentTerm rfp <= currentTerm rf ->
  exists s' rf' rfp', rtc (acts_among Q) s s' /\ moved_two l p rf' rfp' s s' /\ caught_up p rf rf' rfp'.
Proof.
  intros Hr Hnl Hlead Hnp HT. destruct (nextIndex rf !! Z.to_nat p) as [nx|] eqn:Hnx.
  2:{ apply lookup_ge_None in Hnx. pose proof (reachable_sound _ _ _ _ Hr Hnl) as [Hwf _ _ Hpe _ _ _].
      pose proof (sd_range _ _ _ (reachable_sound _ _ _ _ Hr Hnp)). pose proof (wf_next_len _ Hwf). lia. }
  revert s rf rfp Hr Hnl Hlead Hnp HT Hnx. induction (Z.lt_wf 0 nx) as [nx _ IH]; intros s rf rfp Hr Hnl Hlead Hnp HT Hnx.
  destruct (decide (1 <= nx)) as [Hpos|Hpos]; [|eapply catch_up_zero; try done; lia].
  destruct (decide (term_at (logs rfp) (nx - 1) = term_at (logs rf) (nx - 1))) as [E|E]; [by eapply round_matches|].
  destruct (round_conflict s rf rfp nx) as (s1&rf1&rfp1&nx1&Hs1&Hlt&HT1&Hm1&(hb&o&->)); try done.
  pose proof Hm1 as (Hnl1&Hnp1&_). set (rf1 := set_out o _) in *.
  pose proof (among_reachable _ _ _ _ Hr Hs1) as Hr1. pose proof (lookup_lt_Some _ _ _ Hnx) as Hlen.
  assert (nextIndex rf1 !! Z.to_nat p = Some nx1) as Hnx1 by (by apply list_lookup_insert_eq).
  assert (currentTerm rfp1 <= currentTerm rf1) as HT1' by (by rewrite HT1).
  assert (exists s' rf' rfp', rtc (acts_among Q) s1 s' /\ moved_two l p rf' rfp' s1 s' /\ caught_up p rf1 rf' rfp')
    as (s2&rf2&rfp2&Hs2&Hm2&Hc2).
  { destruct (decide (1 <= nx1)); [eapply (IH nx1); try done; lia|eapply catch_up_zero; try done; lia]. }
  exists s2, rf2, rfp2. split_and!; [by etrans|by eapply moved_two_trans|by eapply caught_up_from; [..|exact Hc2]].
Qed.
End round.

(** ** Committing *)

Lemma count_ge_positions v (ms : list Z) (K : list nat) : NoDup K ->
  (forall k, k ∈ K -> exists x, ms !! k = Some x /\ v <= x) -> len K <= count_ge v ms.
Proof.
  intros Hnd HK. unfold count_ge. set (f := fun k => default (v - 1) (ms !! k)).
  assert (ms = f <$> seq 0 (length ms)) as E.
  { apply list_eq. intros k. rewrite list_lookup_fmap. destruct (decide (k < length ms)%nat) as [Hk|Hk].
    - rewrite lookup_seq_lt by done. destruct (lookup_lt_is_Some_2 _ _ Hk) as [x Hx]. unfold f. cbn. by rewrite Hx.
    - rewrite lookup_seq_ge by lia. cbn. apply lookup_ge_None. lia. }
  assert (forall ks, length (filter (fun x => v <= x) (f <$> ks)) = length (filter (fun k => v <= f k) ks)) as Hlen.
  { induction ks as [|k ks IH]; [done|]. rewrite fmap_cons, !filter_cons. case_decide; cbn; by rewrite IH. }
  rewrite E, Hlen. apply inj_le, submseteq_length, NoDup_submseteq; [done|]. intros k Hk.
  destruct (HK k Hk) as (x&Hx&Hle). apply list_elem_of_filter. unfold f. rewrite Hx. split; [done|].
  apply elem_of_seq. apply lookup_lt_Some in Hx. lia.
Qed.

Lemma leader_majority_match n s l rf Q : sys_reachable n s -> node s l = Some rf -> state rf = StateLeader ->
  NoDup Q -> Z.of_nat n `quot` 2 < len Q ->
  (forall i, i ∈ Q -> 0 <= i /\ matchIndex rf !! Z.to_nat i = Some (last_index (logs rf))) ->
  majority (matchIndex rf) (last_index (logs rf)).
Proof.
  intros Hr Hn Hlead Hnd Hmaj HQ. pose proof (reachable_sound _ _ _ _ Hr Hn) as [Hwf Hf _ Hpe _ _ _].
  unfold majority. rewrite (wf_match_len _ Hwf), Hpe. split.
  - assert (len (Z.to_nat <$> Q) <= count_ge (last_index (logs rf)) (matchIndex rf)) as Hx.
    { apply count_ge_positions.
      - apply NoDup_fmap_2_strong; [|done]. intros x y Hx Hy E. pose proof (proj1 (HQ _ Hx)). pose proof (proj1 (HQ _ Hy)). lia.
      - intros k (i&->&Hi)%list_elem_of_fmap. eexists. split; [by apply HQ|done]. }
    rewrite length_fmap in Hx. lia.
  - intros w Hw. rewrite count_ge_none; [apply Z.quot_pos; lia|]. apply Forall_lookup. intros p m Hm.
    pose proof Hr as [g Hinv]%reachable_sys_inv. pose proof (si_node _ _ _ Hinv _ _ Hn) as Hni.
    destruct (ni_leader _ _ _ _ _ Hni Hlead) as (r&Hr'&_&El&Hms). rewrite full_last in Hw by done.
    pose proof (full_length _ Hf). destruct (Hms _ _ Hm) as [->|[Hpos Hack]]; [lia|].
    destruct (si_ack _ _ _ Hinv _ _ _ Hack) as (_&r'&_&Hr2&Hlt&_). rewrite Hr' in Hr2. injection Hr2 as <-.
    rewrite El in Hlt. lia.
Qed.

(** The other peers of [Q] are in no later term than [T]. *)
Definition followers Q (l T : Z) s : Prop :=
  forall i, i ∈ Q -> i <> l -> exists rf, node s i = Some rf /\ currentTerm rf <= T.

(** After the leader has brought the peers [ps] up to date. *)
Record passed Q (l : Z) (ps : list Z) s rf s' rf' : Prop := {
  pa_steps : rtc (acts_among Q) s s';
  pa_node : node s' l = Some rf';
  pa_goes_on : goes_on rf rf';
  pa_followers : followers Q l (currentTerm rf) s';
  pa_match i : i ∈ ps -> matchIndex rf' !! Z.to_nat i = Some (last_index (logs rf));
  pa_kept k : matchIndex rf !! k = Some (last_index (logs rf)) -> matchIndex rf' !! k = Some (last_index (logs rf));
  pa_done p : p ∈ ps -> exists rfp, node s' p = Some rfp /\ logs rf `prefix_of` logs rfp /\
    Z.min (commitIndex rf) (last_index (logs rf)) <= commitIndex rfp;
  pa_commit : ps <> [] -> term_at (logs rf) (last_index (logs rf)) = Some (currentTerm rf) ->
    (forall i, i ∈ Q -> matchIndex rf !! Z.to_nat i = Some (last_index (logs rf))) ->
    last_index (logs rf) <= commitIndex rf'
}.

Lemma goes_on_trans rf1 rf2 rf3 : goes_on rf1 rf2 -> goes_on rf2 rf3 -> goes_on rf1 rf3.
Proof. intros (?&?&?&?) (?&?&?&?). split_and!; [done|congruence|congruence|lia]. Qed.

Section pass.
Context (n : nat) Q (l : Z) (Hl : l ∈ Q) (Hnd : NoDup Q) (Hmaj : Z.of_nat n `quot` 2 < len Q).

Lemma pass ps s rf : (forall p, p ∈ ps -> p ∈ Q /\ p <> l) -> sys_reachable n s -> node s l = Some rf ->
  state rf = StateLeader -> followers Q l (currentTerm rf) s -> exists s' rf', passed Q l ps s rf s' rf'.
Proof.
  intros Hps Hr Hnl Hlead Hfo. induction ps as [|p ps IH].
  { exists s, rf. split; try done; by intros ? []%not_elem_of_nil. }
  destruct IH as (s1&rf1&[Hs1 Hn1 Hg1 Hf1 Hma1 Hk1 Hd1 Hc1]); [intros; apply Hps; by right|].
  destruct (Hps p) as [Hp Hne]; [by left|]. destruct (Hf1 p Hp Hne) as (rfp&Hnp&HTp).
  pose proof Hg1 as (Hlead1&HT1&HL1&Hci1). pose proof (among_reachable _ _ _ _ Hr Hs1) as Hr1.
  destruct (catch_up n Q l p Hl Hp Hne s1 rf1 rfp) as (s2&rf2&rfp2&Hs2&(Hn2&Hnp2&Ho2)&[Hg2 Hm2 Hcm2 HTp2 HLp2 Hcp2]); try done;
    [by rewrite HT1|].
  pose proof (among_reachable _ _ _ _ Hr1 Hs2) as Hr2. rewrite HL1 in *.
  assert (forall k, k < length (matchIndex rf1) -> matchIndex rf1 !! k = Some (last_index (logs rf)) \/ k = Z.to_nat p ->
    matchIndex rf2 !! k = Some (last_index (logs rf)))%nat as Hmm.
  { intros k Hk Hor. rewrite Hm2. destruct (decide (k = Z.to_nat p)) as [->|]; [by apply list_lookup_insert_eq|].
    rewrite list_lookup_insert_ne by done. by destruct Hor. }
  assert (Z.to_nat p < length (matchIndex rf1))%nat as Hlen.
  { pose proof (reachable_sound _ _ _ _ Hr1 Hn1) as [Hwf _ _ Hpe _ _ _].
    pose proof (sd_range _ _ _ (reachable_sound _ _ _ _ Hr1 Hnp)). rewrite (wf_match_len _ Hwf), Hpe. lia. }
  pose proof Hg2 as (Hlead2&HT2&HL2&Hci2).
  exists s2, rf2. split; [by etrans|done|by eapply goes_on_trans| | | | |].
  - intros i Hi Hil. destruct (decide (i = p)) as [->|]; [exists rfp2; split; [done|lia]|].
    destruct (Hf1 i Hi Hil) as (rfi&?&?). exists rfi. by rewrite Ho2.
  - intros i [->|Hi]%elem_of_cons; [by apply Hmm; [|right]|]. pose proof (Hma1 _ Hi) as Hx.
    apply Hmm; [by eapply lookup_lt_Some|by left].
  - intros k Hx%Hk1. apply Hmm; [by eapply lookup_lt_Some|by left].
  - intros i [->|Hi]%elem_of_cons; [exists rfp2; split_and!; [done..|lia]|].
    destruct (decide (i = p)) as [->|]; [exists rfp2; split_and!; [done..|lia]|].
    destruct (Hd1 i Hi) as (rfi&?&?&?). exists rfi. rewrite Ho2; [done|by apply Hps; right|done].
  - intros _ Ht HQ. apply Hcm2; [|by rewrite HT1]. rewrite <-HL1, <-HL2.
    eapply (leader_majority_match n s2 l rf2 Q); try done. intros i Hi. rewrite HL2, HL1. split.
    + destruct (decide (i = l)) as [->|Hil]; [apply (reachable_sound _ _ _ _ Hr Hnl)|].
      destruct (Hfo i Hi Hil) as (rfi&Hni&_). apply (reachable_sound _ _ _ _ Hr Hni).
    + pose proof (Hk1 _ (HQ _ Hi)) as Hx. apply Hmm; [by eapply lookup_lt_Some|by left].
Qed.

(** The leader takes a command. *)
Lemma can_start command s rf : sys_reachable n s -> node s l = Some rf -> state rf = StateLeader ->
  exists rf', acts_among Q s (set_node l rf' s) /\ state rf' = StateLeader /\ currentTerm rf' = currentTerm rf /\
    logs rf' = logs rf ++ [mkEntry C (last_index (logs rf) + 1) (currentTerm rf) (Some command)] /\
    matchIndex rf' !! Z.to_nat l = Some (last_index (logs rf) + 1).
Proof.
  intros Hr Hn Hlead. pose proof (reachable_sound _ _ _ _ Hr Hn) as [Hwf Hf Hme Hpe Hrange _ _].
  pose proof (wf_match_len _ Hwf). pose proof (wf_next_len _ Hwf).
  assert (wp (Start command) rf (fun _ rf' => rf' = set_out (out rf ++ (SignalReplicator <$> other_peers rf)) (appended command rf)))
    as (r&rf'&E&->)%wp_runs by (apply wp_Start; [apply Hf|lia|congruence|done|done]).
  eexists. split; [eapply among_node; [done|done|by eapply dead_Start|by eapply sys_start]|]. split_and!; [done..|].
  cbn. rewrite Hme. apply list_lookup_insert_eq. lia.
Qed.

(** The peers of [Q] can commit a command of a leader among them. *)
Lemma can_commit command s rf : (2 <= n)%nat -> sys_reachable n s -> node s l = Some rf -> state rf = StateLeader ->
  followers Q l (currentTerm rf) s ->
  exists s' rf' e, rtc (acts_among Q) s s' /\ node s' l = Some rf' /\ state rf' = StateLeader /\
    currentTerm rf' = currentTerm rf /\ e_Command e = Some command /\ e_Term e = currentTerm rf /\ 0 < e_Index e /\
    forall i, i ∈ Q -> exists rfi, node s' i = Some rfi /\ logs rfi !! Z.to_nat (e_Index e) = Some e /\
      e_Index e <= commitIndex rfi.
Proof.
  intros Hn2 Hr Hn Hlead Hfo. destruct (can_start command s rf Hr Hn Hlead) as (rf0&Hst&Hlead0&HT0&HL0&Hm0).
  set (e := mkEntry C _ _ _) in HL0. set (s0 := set_node l rf0 s) in *.
  pose proof (sd_full _ _ _ (reachable_sound _ _ _ _ Hr Hn)) as Hf. pose proof (full_length _ Hf) as Hlen.
  assert (rtc (acts_among Q) s s0) as Hs0 by (by apply rtc_once). pose proof (among_reachable _ _ _ _ Hr Hs0) as Hr0.
  assert (node s0 l = Some rf0) as Hn0 by apply node_set_node_eq.
  assert (last_index (logs rf0) = last_index (logs rf) + 1) as Hlast.
  { rewrite HL0, last_index_app; [done|]. intros E. rewrite E in Hlen. cbn in Hlen. lia. }
  assert (logs rf0 !! Z.to_nat (e_Index e) = Some e) as He.
  { cbn. rewrite HL0, full_last by done. replace (Z.to_nat _) with (length (logs rf)) by lia. by apply list_lookup_middle. }
  assert (term_at (logs rf0) (last_index (logs rf0)) = Some (currentTerm rf0)) as Ht.
  { rewrite term_at_lookup; [exists e; rewrite Hlast, HT0; done|apply (reachable_sound _ _ _ _ Hr0 Hn0)|].
    rewrite Hlast, full_last by done. lia. }
  assert (followers Q l (currentTerm rf0) s0) as Hfo0.
  { intros i Hi Hil. unfold s0. rewrite node_set_node_ne, HT0 by done. auto. }
  set (ps := filter (fun i => i <> l) Q).
  assert (forall p, p ∈ ps <-> p ∈ Q /\ p <> l) as Hps by (intros p; unfold ps; rewrite list_elem_of_filter; tauto).
  assert (ps <> []) as Hne.
  { intros E. assert (len Q <= 1) as Hx.
    { apply (inj_le _ 1), (submseteq_length Q [l]), NoDup_submseteq; [done|]. intros i Hi. apply list_elem_of_singleton.
      destruct (decide (i = l)); [done|]. assert (i ∈ ps) as Hin by (by apply Hps). rewrite E in Hin.
      by apply not_elem_of_nil in Hin. }
    pose proof (quot2_bounds (Z.of_nat n) ltac:(lia)). lia. }
  destruct (pass ps s0 rf0) as (s1&rf1&[Hs1 Hn1 Hg1 Hf1 Hma1 Hk1 Hd1 _]); try done; [by intros; apply Hps|].
  pose proof Hg1 as (Hlead1&HT1&HL1&_). pose proof (among_reachable _ _ _ _ Hr0 Hs1) as Hr1.
  destruct (pass ps s1 rf1) as (s2&rf2&[Hs2 Hn2' Hg2 Hf2 _ _ _ Hc2]); try done; [by intros; apply Hps|by rewrite HT1|].
  pose proof Hg2 as (Hlead2&HT2&HL2&_). pose proof (among_reachable _ _ _ _ Hr1 Hs2) as Hr2. rewrite HL1, HT1 in *.
  assert (last_index (logs rf0) <= commitIndex rf2) as Hcommit.
  { apply Hc2; [done|done|]. intros i Hi. destruct (decide (i = l)) as [->|]; [|by apply Hma1, Hps].
    apply Hk1. by rewrite Hm0, Hlast. }
  destruct (pass ps s2 rf2) as (s3&rf3&[Hs3 Hn3 Hg3 Hf3 _ _ Hd3 _]); try done; [by intros; apply Hps|by rewrite HT2|].
  pose proof Hg3 as (Hlead3&HT3&HL3&Hc3). rewrite HL2 in *.
  exists s3, rf3, e. split_and!; try done; [| |cbn; rewrite full_last by done; lia|].
  - etrans; [exact Hs0|]. etrans; [exact Hs1|]. by etrans.
  - congruence.
  - intros i Hi. destruct (decide (i = l)) as [->|].
    + exists rf3. rewrite HL3. split_and!; [done..|]. cbn. lia.
    + destruct (Hd3 i) as (rfi&?&Hp&?); [by apply Hps|]. exists rfi. split_and!; [done|by eapply prefix_lookup_Some|]. cbn. lia.
Qed.
End pass.

(** ** Applying *)

(** Only the applier of [p] has moved. *)
Definition only_applies (p : Z) rf rf' s s' : Prop :=
  node s' p = Some rf' /\ s_taken s' !! p = None /\ state rf' = state rf /\ currentTerm rf' = currentTerm rf /\
  logs rf' = logs rf /\ commitIndex rf' = commitIndex rf /\
  forall i, i <> p -> node s' i = node s i /\ s_taken s' !! i = s_taken s !! i.

Section apply.
Context (n : nat) Q (p : Z) (Hp : p ∈ Q).

Lemma among_applier s s' rf rf' : sys_step s s' -> s_requests s' = s_requests s -> s_installs s' = s_installs s ->
  node s p = Some rf -> node s' p = Some rf' -> same_dead rf rf' ->
  (forall i, i <> p -> node s' i = node s i /\ s_taken s' !! i = s_taken s !! i /\ s_sent s' !! i = s_sent s !! i) -> acts_among Q s s'.
Proof.
  intros Hs Hr Hi Hn Hn' Hd Ho. split; [done|]. rewrite Hr, Hi. split_and!; [|by left..|].
  - intros i Hq. apply Ho. by intros ->.
  - eapply same_dead_at; [done..|]. intros j Hj. by apply Ho.
Qed.

(** What was taken is sent. *)
Lemma can_drain es c s rf : node s p = Some rf -> s_taken s !! p = Some (es, c) ->
  exists s', rtc (acts_among Q) s s' /\ only_applies p rf (set_lastApplied (Max (lastApplied rf) c) rf) s s'.
Proof.
  revert s. induction es as [|e es IH]; intros s Hn Ht.
  - eexists. split.
    + eapply rtc_once, among_applier; [by eapply (sys_done _ p c rf)|done|done|done|apply node_set_node_eq|done|].
      intros i Hi. cbn. rewrite lookup_delete_ne by done. split; [|done]. by apply node_set_node_ne.
    + split_and!; try done; [apply node_set_node_eq|apply lookup_delete_eq|].
      intros i Hi. cbn. rewrite lookup_delete_ne by done. split; [|done]. by apply node_set_node_ne.
  - set (s1 := add_applied p e (set_taken (<[p := (es, c)]> (s_taken s)) s)).
    assert (acts_among Q s s1) as Hs1.
    { eapply among_applier; [by apply sys_send|done|done|done|exact Hn|done|]. intros i Hi. split; [done|]. cbn. by rewrite !lookup_insert_ne. }
    destruct (IH s1) as (s2&Hs2&Hn2&Ht2&Hst2&HT2&HL2&Hc2&Ho2); [done|by cbn; rewrite lookup_insert_eq|].
    exists s2. split; [by eapply rtc_l|]. split_and!; try done. intros i Hi. destruct (Ho2 i Hi) as [-> ->].
    split; [done|]. cbn. by rewrite lookup_insert_ne.
Qed.

Lemma only_applies_trans rf1 rf2 rf3 s1 s2 s3 : only_applies p rf1 rf2 s1 s2 -> only_applies p rf2 rf3 s2 s3 ->
  only_applies p rf1 rf3 s1 s3.
Proof.
  intros (_&_&?&?&?&?&Ho) (?&?&?&?&?&?&Ho'). split_and!; try done; try congruence.
  intros i Hi. destruct (Ho i Hi) as [<- <-]. by apply Ho'.
Qed.

(** A peer can apply everything it knows to be committed. *)
Lemma can_apply s rf : sys_reachable n s -> node s p = Some rf ->
  exists s' rf', rtc (acts_among Q) s s' /\ only_applies p rf rf' s s' /\ commitIndex rf <= lastApplied rf'.
Proof.
  intros Hr Hn.
  assert (exists s1 rf1, rtc (acts_among Q) s s1 /\ only_applies p rf rf1 s s1) as (s1&rf1&Hs1&Ho1).
  { destruct (s_taken s !! p) as [[es c]|] eqn:Ht; [|by exists s, rf; split].
    destruct (can_drain es c s rf Hn Ht) as (s1&?&?). eauto. }
  pose proof Ho1 as (Hn1&Ht1&_&_&_&Hc1&_). destruct (decide (commitIndex rf1 <= lastApplied rf1)) as [Hle|Hlt].
  { exists s1, rf1. split_and!; [done..|lia]. }
  pose proof (among_reachable _ _ _ _ Hr Hs1) as Hr1. pose proof (reachable_sound _ _ _ _ Hr1 Hn1) as [Hwf Hf _ _ _ Ha _].
  set (es := entries_between (logs rf1) (lastApplied rf1) (commitIndex rf1)).
  assert (applier_take rf1 = Some (Some (es, commitIndex rf1), rf1)) as Htake.
  { apply wp_exact, wp_applier_take; [apply Hf|apply (wf_commit _ Hwf)|rewrite full_first by done; lia|lia|done]. }
  set (s2 := set_taken (<[p := (es, commitIndex rf1)]> (s_taken s1)) (set_node p rf1 s1)).
  assert (acts_among Q s1 s2) as Hs2.
  { eapply among_applier; [by eapply sys_take|done|done|done|apply node_set_node_eq|done|]. intros i Hi. cbn. rewrite lookup_insert_ne by done.
    split; [by apply node_set_node_ne|done]. }
  destruct (can_drain es (commitIndex rf1) s2 rf1) as (s3&Hs3&Ho3); [apply node_set_node_eq|apply lookup_insert_eq|].
  exists s3, (set_lastApplied (Max (lastApplied rf1) (commitIndex rf1)) rf1).
  split_and!; [etrans; [exact Hs1|by eapply rtc_l]| |cbn [lastApplied set_lastApplied]; rewrite Max_max; lia].
  eapply only_applies_trans; [exact Ho1|]. destruct Ho3 as (?&?&?&?&?&?&Ho). split_and!; try done.
  intros i Hi. destruct (Ho i Hi) as [-> ->]. cbn. rewrite lookup_insert_ne by done. split; [by apply node_set_node_ne|done].
Qed.
End apply.

(** An entry below a peer's [lastApplied] was sent on its [applyCh]. *)
Lemma applied_sent n s i rf e : sys_reachable n s -> node s i = Some rf -> s_taken s !! i = None ->
  logs rf !! Z.to_nat (e_Index e) = Some e -> 0 < e_Index e <= commitIndex rf -> commitIndex rf <= lastApplied rf -> e ∈ sent s i.
Proof.
  intros Hr Hn Ht He Hi Hla. pose proof Hr as [[g Hinv] Ho]%reachable_order. pose proof (oi_upto _ Ho _ _ Hn) as Hu.
  unfold upto in Hu. rewrite Ht in Hu.
  destruct (lookup_lt_is_Some_2 (sent s i) (Z.to_nat (e_Index e - 1))) as [e' He']; [lia|].
  assert (e' = e) as <-; [|by eapply list_elem_of_lookup_2].
  eapply (committed_entry_unique n g s); [done| | |].
  - eapply (si_applied _ _ _ Hinv), (oi_sent _ Ho), list_elem_of_lookup_2. exact He'.
  - pose proof (si_node _ _ _ Hinv _ _ Hn) as Hni. destruct (ni_commit _ _ _ _ _ Hni) as [_ [?|(T0&k&r&Hc&_&Hk&Hr0&Et)]]; [lia|].
    exists T0, k, r. split_and!; [done|done|lia|lia|].
    rewrite <-(lookup_take_lt _ (S (Z.to_nat (commitIndex rf)))) by lia. rewrite <-Et, lookup_take_lt by lia. done.
  - rewrite (oi_numbered _ Ho i (Z.to_nat (e_Index e - 1)) e'); [lia|by apply lookup_app_l_Some].
Qed.

(** The same peer as far as its applier is not concerned. *)
Definition but_applied rf rf' : Prop :=
  state rf' = state rf /\ currentTerm rf' = currentTerm rf /\ logs rf' = logs rf /\ commitIndex rf' = commitIndex rf.

Lemma can_apply_all n Q (ps : list Z) s : (forall p, p ∈ ps -> p ∈ Q) -> (forall p, p ∈ ps -> is_Some (node s p)) -> sys_reachable n s ->
  exists s', rtc (acts_among Q) s s' /\
    (forall i rf, node s i = Some rf -> exists rf', node s' i = Some rf' /\ but_applied rf rf') /\
    forall p, p ∈ ps -> s_taken s' !! p = None /\ forall rf, node s' p = Some rf -> commitIndex rf <= lastApplied rf.
Proof.
  intros Hq Hex Hr. induction ps as [|p ps IH].
  { exists s. split_and!; [done| |by intros ? []%not_elem_of_nil]. intros i rf Hi. exists rf. split; [done|]. by split_and!. }
  destruct IH as (s1&Hs1&Hb1&Ha1); [intros; apply Hq; by right|intros; apply Hex; by right|].
  destruct (Hex p) as [rf0 Hn0]; [by left|]. destruct (Hb1 p rf0 Hn0) as (rf1&Hn1&_).
  pose proof (among_reachable _ _ _ _ Hr Hs1) as Hr1.
  destruct (can_apply n Q p ltac:(apply Hq; by left) s1 rf1 Hr1 Hn1) as (s2&rf2&Hs2&(Hn2&Ht2&Hst&HT&HL&Hc&Ho)&Hle).
  exists s2. split_and!; [by etrans| |].
  - intros i rf Hi. destruct (Hb1 i rf Hi) as (rf'&Hn'&(?&?&?&?)). destruct (decide (i = p)) as [->|Hne].
    + exists rf2. split; [done|]. rewrite Hn1 in Hn'. injection Hn' as <-. split_and!; congruence.
    + exists rf'. destruct (Ho i Hne) as [-> _]. by split_and!.
  - intros i Hi. destruct (decide (i = p)) as [->|Hne].
    + split; [done|]. rewrite Hn2. intros rf [= <-]. lia.
    + destruct (Ho i Hne) as [-> ->]. apply Ha1. apply elem_of_cons in Hi as [?|?]; done.
Qed.

(** ** Electing *)

Definition call_of (l p : Z) q : Call := mkCall l p q Sent true.

(** [l] is a candidate that has asked the peers [ps] and counted [v] votes. *)
Record campaign (l : Z) (ps : list Z) (v : Z) rf s : Prop := {
  ca_node : node s l = Some rf;
  ca_state : state rf = StateCandidate;
  ca_votes : c_votes (s_cluster s) !! (l, currentTerm rf) = Some v;
  ca_calls p : p ∈ ps -> call_of l p (vote_request rf) ∈ c_calls (s_cluster s)
}.

Section elect.
Context (n : nat) Q (l : Z) (Hl : l ∈ Q).

(** The election timer runs out and [ticker] starts an election. *)
Lemma can_campaign s rf : sys_reachable n s -> node s l = Some rf -> state rf <> StateLeader ->
  exists s' rf', rtc (acts_among Q) s s' /\ currentTerm rf' = currentTerm rf + 1 /\ logs rf' = logs rf /\
    campaign l (other_peers rf) 1 rf' s' /\ forall i, i <> l -> node s' i = node s i.
Proof.
  intros Hr Hn Hst. pose proof (reachable_sound _ _ _ _ Hr Hn) as [Hwf Hf Hme Hpe _ _ _].
  pose proof (follower_pending _ _ _ _ Hr Hn Hst) as Hpend.
  set (rf0 := set_electionTimer (Timer_expire (electionTimer rf)) rf). set (s0 := set_node l rf0 s).
  assert (acts_among Q s s0) as Hs0 by (by apply (among_quiet Q s l EvElectionExpire rf)).
  assert (node s0 l = Some rf0) as Hn0 by apply node_set_node_eq.
  set (news := (fun p => @GoSendRequestVote C p (vote_request (candidate rf0))) <$> other_peers rf0).
  set (rf1 := timer_reset (set_out (out rf0 ++ news) (saved (set_votedFor (me rf0) (candidate rf0))))).
  assert (ticker_election rf0 = Some (vote_request (candidate rf0), rf1)) as E.
  { apply wp_exact, wp_ticker_election; [apply Hf|done]. }
  eexists. exists rf1. split; [eapply rtc_l; [exact Hs0|]; apply rtc_once|split_and!; [done|done| |]].
  - split; [eapply (sys_timeout s0 l rf0); [done|by apply ticked_expire|exact E]|]. split_and!; [|by left..|].
    + intros i Hi. split; [|done]. apply lookup_insert_ne. by intros ->.
    + eapply (same_dead_at _ _ l rf0 rf1); [done|done|apply lookup_insert_eq|]. intros j Hj. by apply lookup_insert_ne.
  - split; [apply lookup_insert_eq|done|apply lookup_insert_eq|]. intros p Hp. apply elem_of_app. right.
    unfold spawned. change (out rf1) with (out rf0 ++ news). rewrite drop_app_length. unfold news.
    rewrite vote_calls_started. apply list_elem_of_fmap. by exists p.
  - intros i Hi. unfold node. cbn. by rewrite !lookup_insert_ne.
Qed.

(** After enough timeouts the candidate is in a later term than anyone in [Q]. *)
Lemma can_campaign_above T0 s rf : sys_reachable n s -> node s l = Some rf -> state rf <> StateLeader ->
  exists s' rf', rtc (acts_among Q) s s' /\ T0 < currentTerm rf' /\ logs rf' = logs rf /\
    campaign l (other_peers rf) 1 rf' s' /\ forall i, i <> l -> node s' i = node s i.
Proof.
  intros Hr Hn Hst. remember (Z.to_nat (T0 - currentTerm rf)) as d eqn:Hd. revert s rf Hr Hn Hst Hd.
  induction d as [|d IH]; intros s rf Hr Hn Hst Hd;
    destruct (can_campaign s rf Hr Hn Hst) as (s1&rf1&Hs1&HT&HL&Hc&Ho).
  - exists s1, rf1. split_and!; [done|lia|done..].
  - pose proof (ca_node _ _ _ _ _ Hc) as Hn1. pose proof (among_reachable _ _ _ _ Hr Hs1) as Hr1.
    assert (state rf1 <> StateLeader) as Hst1 by (by rewrite (ca_state _ _ _ _ _ Hc)).
    destruct (IH s1 rf1 Hr1 Hn1 Hst1 ltac:(lia)) as (s2&rf2&Hs2&HT2&HL2&Hc2&Ho2). exists s2, rf2.
    split_and!; [by etrans|done|congruence| |intros i Hi; by rewrite Ho2, Ho].
    replace (other_peers rf) with (other_peers rf1); [done|].
    pose proof (reachable_sound _ _ _ _ Hr Hn) as [_ _ Hme Hpe _ _ _].
    pose proof (reachable_sound _ _ _ _ Hr1 Hn1) as [_ _ Hme1 Hpe1 _ _ _].
    unfold other_peers. by rewrite Hme, Hpe, Hme1, Hpe1.
Qed.

Lemma vote_granted q rf : wf_logs (logs rf) -> currentTerm rf < rv_Term q ->
  up_to_date (rv_LastLogTerm q) (rv_LastLogIndex q) (logs rf) ->
  exists rf', RequestVote q rf = Some (mkRequestVoteResponse (rv_Term q) true, rf') /\ currentTerm rf' = rv_Term q.
Proof.
  intros Hwf HT Hup.
  assert (wp (RequestVote q) rf (fun r rf' => r = mkRequestVoteResponse (rv_Term q) true /\ currentTerm rf' = rv_Term q))
    as (r&rf'&E&->&?)%wp_runs; [|by exists rf'].
  apply wp_RequestVote; [done| |done|].
  - intros [?|[? _]]; lia.
  - intros _ _ _. split; [done|]. cbn. unfold at_term. rewrite decide_True by lia. done.
Qed.

(** A call stays in flight when another one is answered. *)
Lemma call_stays (calls : list Call) k c c' c1 : calls !! k = Some c -> c' ∈ calls -> c' <> c -> c' ∈ <[k := c1]> calls.
Proof.
  intros Hk [j Hj]%list_elem_of_lookup_1 Hne. apply list_elem_of_lookup_2 with j. rewrite list_lookup_insert_ne; [done|].
  intros ->. congruence.
Qed.

Lemma can_vote s rf p ps v rfp : sys_reachable n s -> campaign l (p :: ps) v rf s -> p ∈ Q -> p <> l -> p ∉ ps ->
  node s p = Some rfp -> currentTerm rfp < currentTerm rf ->
  up_to_date (last_term (logs rf)) (last_index (logs rf)) (logs rfp) ->
  exists s' rf' rfp', rtc (acts_among Q) s s' /\ moved_two l p rf' rfp' s s' /\ currentTerm rf' = currentTerm rf /\
    currentTerm rfp' = currentTerm rf /\
    (state rf' = StateLeader \/ rf' = rf /\ v + 1 <= Z.of_nat n `quot` 2 /\ campaign l ps (v + 1) rf s').
Proof.
  intros Hr [Hn Hst Hv Hcalls] Hp Hne Hps Hnp HT Hup. pose proof (reachable_sound _ _ _ _ Hr Hn) as [Hwf Hf Hme Hpe _ _ _].
  pose proof (reachable_sound _ _ _ _ Hr Hnp) as [_ Hfp _ _ _ _ _].
  pose proof (Hcalls p ltac:(by left)) as [k Hk]%list_elem_of_lookup_1. set (q := vote_request rf) in *.
  destruct (vote_granted q rfp) as (rfp'&Hvote&HTp); [apply Hfp|done|done|].
  set (resp := mkRequestVoteResponse (rv_Term q) true) in *.
  set (s1 := set_cluster (mkCluster _ (<[p := rfp']> (c_nodes (s_cluster s)))
    (<[k := set_status (Replied resp) (call_of l p q)]> (c_calls (s_cluster s))) (c_votes (s_cluster s))) s).
  assert (acts_among Q s s1) as Hs1.
  { split; [by apply (sys_vote s k (call_of l p q) rfp resp rfp')|]. split_and!; [|by left..|].
    - intros i Hi. split; [|done]. apply lookup_insert_ne. by intros ->.
    - eapply (same_dead_at _ _ p rfp rfp'); [done|by eapply dead_RequestVote|apply lookup_insert_eq|].
      intros j Hj. by apply lookup_insert_ne. }
  assert (node s1 l = Some rf) as Hn1 by (unfold node, s1; cbn; by rewrite lookup_insert_ne).
  set (c1 := set_status (Replied resp) (call_of l p q)).
  assert (c_calls (s_cluster s1) !! k = Some c1) as Hk1.
  { apply list_lookup_insert_eq. by eapply lookup_lt_Some. }
  assert (wp (electionReply q resp v) rf (fun w rf' => currentTerm rf' = currentTerm rf /\
    (state rf' = StateLeader \/ rf' = rf /\ w = v + 1 /\ v + 1 <= Z.of_nat n `quot` 2)))
    as (w&rf'&Hrep&HT'&Hor)%wp_runs.
  { apply wp_electionReply; [apply Hf|apply Hwf|apply Hwf|by intros []| | |done|done].
    - intros _ _ _ Hle. rewrite Hpe in Hle. auto.
    - intros _ _ _ _. cbn. auto. }
  exists (set_cluster (mkCluster _ (<[l := rf']> (c_nodes (s_cluster s1)))
    (<[k := set_status (Finished resp) c1]> (c_calls (s_cluster s1))) (<[(l, rv_Term q) := w]> (c_votes (s_cluster s1)))) s1), rf', rfp'.
  split_and!.
  - eapply rtc_l; [exact Hs1|]. apply rtc_once. split; [by apply (sys_vote_reply s1 k c1 resp v rf w rf')|].
    split_and!; [|by left..|].
    + intros i Hi. split; [|done]. apply lookup_insert_ne. by intros ->.
    + eapply (same_dead_at _ _ l rf rf'); [done|by eapply dead_electionReply|apply lookup_insert_eq|].
      intros j Hj. by apply lookup_insert_ne.
  - split_and!; [apply lookup_insert_eq| |].
    + unfold node. cbn. rewrite lookup_insert_ne by done. by rewrite lookup_insert_eq.
    + intros i Hi Hip. unfold node. cbn. by rewrite !lookup_insert_ne.
  - done.
  - done.
  - destruct Hor as [?|(->&->&?)]; [by left|right]. split_and!; [done..|]. split; [apply lookup_insert_eq|done|apply lookup_insert_eq|].
    intros p' Hp'. assert (p' <> p) as Hpp by (by intros ->). apply (call_stays _ k c1); [done| |by intros [= ->]].
    apply (call_stays _ k (call_of l p q)); [done|apply Hcalls; by right|by intros [= ->]].
Qed.

Lemma can_win ps v s rf : sys_reachable n s -> campaign l ps v rf s -> NoDup ps -> (forall p, p ∈ ps -> p ∈ Q /\ p <> l) ->
  v <= Z.of_nat n `quot` 2 < v + len ps -> followers Q l (currentTerm rf) s ->
  (forall p, p ∈ ps -> exists rfp, node s p = Some rfp /\ currentTerm rfp < currentTerm rf /\
     up_to_date (last_term (logs rf)) (last_index (logs rf)) (logs rfp)) ->
  exists s' rf', rtc (acts_among Q) s s' /\ node s' l = Some rf' /\ state rf' = StateLeader /\
    currentTerm rf' = currentTerm rf /\ followers Q l (currentTerm rf) s'.
Proof.
  revert v s. induction ps as [|p ps IH]; intros v s Hr Hc Hnd Hps Hv Hfo Hrest; [cbn in Hv; lia|].
  apply NoDup_cons in Hnd as [Hp Hnd]. destruct (Hps p) as [Hpq Hpl]; [by left|].
  destruct (Hrest p) as (rfp&Hnp&HTp&Hup); [by left|].
  destruct (can_vote s rf p ps v rfp) as (s1&rf1&rfp1&Hs1&(Hn1&Hnp1&Ho1)&HT1&HTp1&Hor); try done.
  assert (followers Q l (currentTerm rf) s1) as Hfo1.
  { intros i Hi Hil. destruct (decide (i = p)) as [->|]; [exists rfp1; split; [done|lia]|]. rewrite Ho1 by done. by apply Hfo. }
  destruct Hor as [Hlead|(->&Hle&Hc1)]; [by exists s1, rf1|].
  destruct (IH (v + 1) s1) as (s2&rf2&?&?&?&?&?); try done.
  - by eapply among_reachable.
  - intros p' ?. apply Hps. by right.
  - cbn in Hv. lia.
  - intros p' Hp'. rewrite Ho1; [apply Hrest; by right|apply Hps; by right|by intros ->].
  - exists s2, rf2. split_and!; [by etrans|done..].
Qed.
End elect.

Lemma campaign_mono l ps ps' v rf s : (forall p, p ∈ ps' -> p ∈ ps) -> campaign l ps v rf s -> campaign l ps' v rf s.
Proof. intros Hsub []. split; auto. Qed.

(** One of finitely many peers has a log no other is ahead of. *)
Lemma most_up_to_date Q s : Q <> [] -> (forall i, i ∈ Q -> is_Some (node s i)) ->
  exists l rf, l ∈ Q /\ node s l = Some rf /\ forall p rfp, p ∈ Q -> node s p = Some rfp ->
    up_to_date (last_term (logs rf)) (last_index (logs rf)) (logs rfp).
Proof.
  unfold up_to_date. induction Q as [|i Q IH]; intros Hne Hex; [done|]. destruct (Hex i) as [rfi Hi]; [by left|].
  destruct (decide (Q = [])) as [->|HQ].
  { exists i, rfi. split_and!; [by left|done|]. intros p rfp ->%list_elem_of_singleton Hp. rewrite Hi in Hp. injection Hp as <-. lia. }
  destruct IH as (l&rf&Hl&Hn&Hup); [done|intros; apply Hex; by right|].
  destruct (decide (up_to_date (last_term (logs rf)) (last_index (logs rf)) (logs rfi))) as [Hd|Hd]; unfold up_to_date in Hd.
  - exists l, rf. split_and!; [by right|done|]. intros p rfp [->|Hp]%elem_of_cons Hnp; [|by eapply Hup].
    rewrite Hi in Hnp. by injection Hnp as <-.
  - exists i, rfi. split_and!; [by left|done|]. intros p rfp [->|Hp]%elem_of_cons Hnp.
    + rewrite Hi in Hnp. injection Hnp as <-. lia.
    + specialize (Hup p rfp Hp Hnp). lia.
Qed.

Lemma term_bound Q s : exists T0, forall i rf, i ∈ Q -> node s i = Some rf -> currentTerm rf <= T0.
Proof.
  induction Q as [|i Q [T0 IH]]; [exists 0; by intros ? ? []%not_elem_of_nil|].
  exists (Z.max T0 (default 0 (currentTerm <$> node s i))). intros j rf [->|Hj]%elem_of_cons Hn.
  - rewrite Hn. cbn. lia.
  - specialize (IH _ _ Hj Hn). lia.
Qed.

(** Terms never decrease. *)
Lemma step_terms n (cs cs' : Cluster C) i rf : RaftElection.inv n cs -> RaftElection.step cs cs' -> c_nodes cs !! i = Some rf ->
  exists rf', c_nodes cs' !! i = Some rf' /\ currentTerm rf <= currentTerm rf'.
Proof.
  intros Hinv Hs Hi.
  assert (forall j rfj rfj' (nodes : gmap Z (Raft C)), c_nodes cs !! j = Some rfj -> currentTerm rfj <= currentTerm rfj' ->
    nodes = <[j := rfj']> (c_nodes cs) -> exists rf', nodes !! i = Some rf' /\ currentTerm rf <= currentTerm rf') as Hx.
  { intros j rfj rfj' nodes Hj Hle ->. destruct (decide (j = i)) as [->|Hne].
    - rewrite lookup_insert_eq. exists rfj'. split; [done|]. by simplify_eq.
    - rewrite lookup_insert_ne by done. eauto with lia. }
  destruct Hs as [j rfj q rf' Hj Hr|k c rfj resp rf' _ _ Hj Hr|k c resp v rfj v' rf' _ _ _ Hj _ Hr|j rfj ev rf' Hj Hl Hr|j rfj rf' Hj Hr].
  - eapply (Hx j rfj rf'); [done| |done]. destruct (ticker_election_effect _ _ _ Hr). lia.
  - eapply (Hx _ rfj rf'); [done| |done]. by destruct (RequestVote_effect _ _ _ _ Hr) as [[[? _] _ _ _] _].
  - eapply (Hx _ rfj rf'); [done| |done]. by destruct (electionReply_effect _ _ _ _ _ _ Hr) as [[? _] _].
  - eapply (Hx j rfj rf'); [done| |done]. by destruct (local_effect _ _ _ Hl Hr) as [[? _] _ _ _].
  - eapply (Hx j rfj rf'); [done| |done]. destruct (inv_node _ _ Hinv _ _ Hj) as (_&_&_&Hd).
    destruct (Make_effect _ _ Hd Hr). lia.
Qed.

Lemma steps_terms n s s' i rf : sys_reachable n s -> rtc sys_step s s' -> node s i = Some rf ->
  exists rf', node s' i = Some rf' /\ currentTerm rf <= currentTerm rf'.
Proof.
  intros [g Hg]%reachable_sys_inv Hs. pose proof (si_cluster _ _ _ Hg) as Hinv. clear g Hg. revert rf.
  induction Hs as [|s0 s1 s2 Hs _ IH]; intros rf Hi; [eauto with lia|].
  assert (exists rf1, node s1 i = Some rf1 /\ currentTerm rf <= currentTerm rf1) as (rf1&H1i&Hle).
  { destruct (sys_step_election _ _ Hs) as [Hst|E]; [by eapply step_terms|]. unfold node. rewrite E. eauto with lia. }
  destruct (IH (sys_step_cluster _ _ _ Hinv Hs) rf1 H1i) as (rf2&?&?). exists rf2. split; [done|lia].
Qed.

(** ** Stepping down

    The election timer of a leader is stopped: another peer has to take the lead from it. *)

Section demote.
Context (n : nat) Q.

Lemma vote_demotes q rf : wf_logs (logs rf) -> currentTerm rf < rv_Term q ->
  exists resp rf', RequestVote q rf = Some (resp, rf') /\ state rf' <> StateLeader.
Proof.
  intros Hwf HT. apply wp_runs, wp_RequestVote; [done| | |].
  - intros [?|[? _]]; lia.
  - intros _ _ _. cbn. unfold at_term. rewrite decide_True by lia. unfold followed. case_decide as E; cbn; congruence.
  - intros _ _ _. cbn. unfold at_term. rewrite decide_True by lia. unfold followed. case_decide as E; cbn; congruence.
Qed.

(** A peer that is not the leader asks for votes in a later term. *)
Lemma demote_by_vote s l p rf rfp : l ∈ Q -> p ∈ Q -> p <> l -> sys_reachable n s -> node s l = Some rf -> node s p = Some rfp ->
  state rfp <> StateLeader -> exists s' rf' rfp', rtc (acts_among Q) s s' /\ moved_two l p rf' rfp' s s' /\
    state rf' <> StateLeader /\ state rfp' <> StateLeader.
Proof.
  intros Hl Hp Hne Hr Hnl Hnp Hst. pose proof (reachable_sound _ _ _ _ Hr Hnl) as [_ Hf _ _ Hrange _ _].
  pose proof (reachable_sound _ _ _ _ Hr Hnp) as [_ _ Hme Hpe _ _ _].
  destruct (can_campaign_above n Q p Hp (currentTerm rf) s rfp Hr Hnp Hst) as (s1&rfp1&Hs1&HT&_&[Hnp1 Hst1 _ Hcalls]&Ho1).
  destruct (vote_demotes (vote_request rfp1) rf) as (resp&rf'&Hvote&Hdown); [apply Hf|done|].
  assert (l ∈ other_peers rfp) as Hlp by (apply in_other_peers; [by rewrite Hpe|congruence]).
  pose proof (Hcalls l Hlp) as [k Hk]%list_elem_of_lookup_1.
  assert (node s1 l = Some rf) as Hnl1 by (by rewrite Ho1).
  set (c := call_of p l (vote_request rfp1)) in *.
  set (s2 := set_cluster (mkCluster _ (<[l := rf']> (c_nodes (s_cluster s1))) (<[k := set_status (Replied resp) c]> (c_calls (s_cluster s1)))
    (c_votes (s_cluster s1))) s1).
  exists s2, rf', rfp1. split; [eapply rtc_r; [exact Hs1|]; split; [by eapply (sys_vote s1 k c rf resp rf')|]|].
  - split_and!; [|by left..|].
    + intros i Hi. split; [|done]. apply lookup_insert_ne. by intros ->.
    + eapply (same_dead_at _ _ l rf rf'); [done|by eapply dead_RequestVote|apply lookup_insert_eq|].
      intros j Hj. by apply lookup_insert_ne.
  - split; [|split; [done|by rewrite Hst1]]. split_and!; [apply lookup_insert_eq| |].
    + unfold node. cbn. by rewrite lookup_insert_ne.
    + intros i Hi Hi'. unfold node. cbn. rewrite lookup_insert_ne by done. by apply Ho1.
Qed.

(** A leader of a later term sends its next request. *)
Lemma demote_by_leader s l p rf rfp : l ∈ Q -> p ∈ Q -> p <> l -> sys_reachable n s -> node s l = Some rf -> node s p = Some rfp ->
  state rf = StateLeader -> currentTerm rfp < currentTerm rf ->
  exists s' rf' rfp', rtc (acts_among Q) s s' /\ moved_two l p rf' rfp' s s' /\ state rfp' <> StateLeader.
Proof.
  intros Hl Hp Hne Hr Hnl Hnp Hlead HT. pose proof (reachable_sound _ _ _ _ Hr Hnl) as [Hwf Hf Hme Hpe _ _ _].
  pose proof (reachable_sound _ _ _ _ Hr Hnp) as [_ Hfp _ _ Hrange _ _]. pose proof (leader_pending _ _ _ _ Hr Hnl Hlead) as Hpend.
  destruct (lookup_lt_is_Some_2 (nextIndex rf) (Z.to_nat p)) as [nx Hnx]; [rewrite (wf_next_len _ Hwf); lia|].
  destruct (decide (1 <= nx)) as [Hpos|Hpos].
  - destruct (replicate_append rf Hwf Hf Hlead p nx) as (t&Htl&Hrep); [lia|done|done|]. set (q := mkAppendEntriesRequest _ _ _ _ _ _ _) in Hrep.
    destruct (can_send Q s l p rf (SendAppendEntries q)) as (s1&rf1&Hs1&Hn1&_&Ho1&Hreq&_); try done; [by rewrite Hpe|].
    assert (wp (AppendEntries q) rfp (fun _ rfp' => state rfp' <> StateLeader)) as (resp&rfp'&Happ&Hdown)%wp_runs.
    { assert (forall T, state (follow_leader T rfp) <> StateLeader) as Hfl by (intros; raft_fields; congruence).
      apply wp_AppendEntries; [apply Hfp| |cbn; lia|..].
      - cbn. replace (nx - 1 + 1) with (first_index (logs rf) + Z.of_nat (Z.to_nat nx)) by (rewrite full_first by done; lia).
        apply consecutive_drop, Hf.
      - intros _ _. exact (Hfl _).
      - intros _ _ _. exact (Hfl _).
      - intros. exact (Hfl _).
      - intros _ _ _. unfold commit_follower. case_decide; exact (Hfl _). }
    set (m := mkSent l p q). exists (add_response m resp (set_node p rfp' s1)), rf1, rfp'.
    split; [eapply rtc_r; [exact Hs1|]|split; [split_and!; [by autorewrite with nodes..|]|done]].
    + apply (among_append Q s1 m rfp); [done|by apply Hreq|change (s_to m) with p; by rewrite Ho1|done].
    + intros i Hi Hi'. autorewrite with nodes. by apply Ho1.
  - destruct (replicate_install rf Hf Hlead p nx) as (q&HTq&_&Hrep); [lia|done|lia|].
    destruct (can_send Q s l p rf (SendInstallSnapshot q)) as (s1&rf1&Hs1&Hn1&_&Ho1&_&Hreq); try done; [by rewrite Hpe|].
    assert (wp (InstallSnapshot q) rfp (fun _ rfp' => state rfp' <> StateLeader)) as (resp&rfp'&Happ&Hdown)%wp_runs.
    { assert (forall T, state (follow_snapshot T rfp) <> StateLeader) as Hfl by (intros; raft_fields; congruence).
      apply wp_InstallSnapshot; [lia|..]; intros _ _; exact (Hfl _). }
    set (m := mkSent l p q). exists (add_installed m resp (set_node p rfp' s1)), rf1, rfp'.
    split; [eapply rtc_r; [exact Hs1|]|split; [split_and!; [by autorewrite with nodes..|]|done]].
    + apply (among_install Q s1 m rfp); [done|by apply Hreq|change (s_to m) with p; by rewrite Ho1|done].
    + intros i Hi Hi'. autorewrite with nodes. by apply Ho1.
Qed.

Lemma moved_two_sym (l p : Z) rf rfp s s' : moved_two l p rf rfp s s' -> moved_two p l rfp rf s s'.
Proof. intros (?&?&?). split_and!; auto. Qed.

Lemma leaders_differ s l p rf rfp : sys_reachable n s -> node s l = Some rf -> node s p = Some rfp -> p <> l ->
  state rf = StateLeader -> state rfp = StateLeader -> currentTerm rf <> currentTerm rfp.
Proof.
  intros [g Hg]%reachable_sys_inv Hnl Hnp Hne Hl Hp E. apply Hne. pose proof (si_cluster _ _ _ Hg) as Hinv.
  eapply (majority_once n (s_cluster s) p l (currentTerm rf)); [done|..]; apply leader_majority; try done; [exists rfp|exists rf];
    (split; [done|]); unfold GetState; by rewrite bool_decide_true, ?E.
Qed.

(** Of two peers, whatever their roles, none leads. *)
Lemma demote_two s l p rf rfp : l ∈ Q -> p ∈ Q -> p <> l -> sys_reachable n s -> node s l = Some rf -> node s p = Some rfp ->
  exists s' rf' rfp', rtc (acts_among Q) s s' /\ moved_two l p rf' rfp' s s' /\ state rf' <> StateLeader /\ state rfp' <> StateLeader.
Proof.
  assert (forall l p rf rfp, l ∈ Q -> p ∈ Q -> p <> l -> sys_reachable n s -> node s l = Some rf -> node s p = Some rfp ->
    state rf = StateLeader -> currentTerm rfp < currentTerm rf ->
    exists s' rf' rfp', rtc (acts_among Q) s s' /\ moved_two l p rf' rfp' s s' /\ state rf' <> StateLeader /\ state rfp' <> StateLeader) as Hlater.
  { intros l' p' rf' rfp' Hl Hp Hne Hr Hnl Hnp Hlead HT.
    destruct (demote_by_leader s l' p' rf' rfp') as (s1&rf1&rfp1&Hs1&Hm1&Hd1); try done.
    pose proof Hm1 as (Hn1&Hnp1&_). pose proof (among_reachable _ _ _ _ Hr Hs1) as Hr1.
    destruct (demote_by_vote s1 l' p' rf1 rfp1) as (s2&rf2&rfp2&Hs2&Hm2&?&?); try done.
    exists s2, rf2, rfp2. split_and!; [by etrans|by eapply moved_two_trans|done|done]. }
  intros Hl Hp Hne Hr Hnl Hnp.
  destruct (decide (state rfp = StateLeader)) as [Hlp|Hlp]; [|by eapply demote_by_vote].
  destruct (decide (state rf = StateLeader)) as [Hll|Hll].
  - pose proof (leaders_differ s l p rf rfp Hr Hnl Hnp Hne Hll Hlp). destruct (decide (currentTerm rfp < currentTerm rf)); [by eapply Hlater|].
    destruct (Hlater p l rfp rf) as (s1&rfp1&rf1&?&Hm&?&?); try done; [lia|]. exists s1, rf1, rfp1. split_and!; [done|by apply moved_two_sym|done|done].
  - destruct (demote_by_vote s p l rfp rf) as (s1&rfp1&rf1&?&Hm&?&?); try done. exists s1, rf1, rfp1.
    split_and!; [done|by apply moved_two_sym|done|done].
Qed.

(** None of the peers [ps] leads. *)
Lemma demote_all (ps : list Z) s : (forall p, p ∈ ps -> p ∈ Q /\ exists p', p' ∈ Q /\ p' <> p) -> (forall i, i ∈ Q -> is_Some (node s i)) ->
  sys_reachable n s -> exists s', rtc (acts_among Q) s s' /\ (forall i, i ∈ Q -> is_Some (node s' i)) /\
    forall i rf, i ∈ ps -> node s' i = Some rf -> state rf <> StateLeader.
Proof.
  intros Hps Hex Hr. induction ps as [|p ps IH].
  { exists s. split_and!; [done|done|]. by intros ? ? []%not_elem_of_nil. }
  destruct IH as (s1&Hs1&Hex1&Hd1); [intros; apply Hps; by right|]. destruct (Hps p) as [Hp (p'&Hp'&Hne)]; [by left|].
  pose proof (among_reachable _ _ _ _ Hr Hs1) as Hr1. destruct (Hex1 p Hp) as [rf Hn], (Hex1 p' Hp') as [rf' Hn'].
  destruct (demote_two s1 p p' rf rf') as (s2&rf2&rf2'&Hs2&(Hn2&Hn2'&Ho2)&Hst&Hst'); try done.
  exists s2. split_and!; [by etrans| |].
  - intros i Hi. destruct (decide (i = p)) as [->|]; [eauto|]. destruct (decide (i = p')) as [->|]; [eauto|]. rewrite Ho2; auto.
  - intros i rfi Hi Hni. destruct (decide (i = p)) as [->|]; [by simplify_eq|]. destruct (decide (i = p')) as [->|]; [by simplify_eq|].
    rewrite Ho2 in Hni by done. apply (Hd1 i rfi); [|done]. by apply elem_of_cons in Hi as [?|?].
Qed.
End demote.

Section majority.
Context (n : nat) Q (Hn : (2 <= n)%nat) (Hnd : NoDup Q) (Hmaj : Z.of_nat n `quot` 2 < len Q).

Lemma another p : p ∈ Q -> exists p', p' ∈ Q /\ p' <> p.
Proof.
  intros Hp. destruct (decide (Exists (fun i => i <> p) Q)) as [[p' [? ?]]%Exists_exists|Hno]; [by exists p'|].
  exfalso. pose proof (quot2_bounds (Z.of_nat n) ltac:(lia)). assert (len Q <= 1); [|lia].
  apply (inj_le _ 1), (submseteq_length Q [p]), NoDup_submseteq; [done|]. intros i Hi. apply list_elem_of_singleton.
  destruct (decide (i = p)); [done|]. exfalso. apply Hno, Exists_exists. eauto.
Qed.

(** The peers of [Q], none of them the leader, can elect one of them for a term above all
    they know of. *)
Lemma can_elect_followers s : sys_reachable n s -> (forall i, i ∈ Q -> is_Some (node s i)) ->
  (forall i rf, i ∈ Q -> node s i = Some rf -> state rf <> StateLeader) ->
  exists s' l rf, rtc (acts_among Q) s s' /\ l ∈ Q /\ node s' l = Some rf /\ state rf = StateLeader /\
    followers Q l (currentTerm rf) s' /\
    forall i rfi, i ∈ Q -> node s i = Some rfi -> currentTerm rfi < currentTerm rf.
Proof.
  intros Hr Hex Hno. pose proof (quot2_bounds (Z.of_nat n) ltac:(lia)) as Hhalf.
  destruct (most_up_to_date Q s) as (l&rf&Hl&Hnl&Hbest); [intros E; rewrite E in Hmaj; cbn in Hmaj; lia|done|].
  destruct (term_bound Q s) as [T0 HT0].
  destruct (can_campaign_above n Q l Hl T0 s rf Hr Hnl ltac:(by eapply Hno)) as (s1&rf1&Hs1&HT1&HL1&Hc1&Ho1).
  set (ps := filter (fun i => i <> l) Q).
  assert (forall p, p ∈ ps -> p ∈ Q /\ p <> l) as Hps by (intros p [? ?]%list_elem_of_filter; done).
  assert (Q ≡ₚ l :: ps) as Hperm.
  { apply NoDup_Permutation; [done| |].
    - apply NoDup_cons. split; [by intros [? ?]%Hps|by apply NoDup_filter].
    - intros i. rewrite elem_of_cons. unfold ps. rewrite list_elem_of_filter. destruct (decide (i = l)); naive_solver. }
  assert (forall p, p ∈ ps -> exists rfp, node s p = Some rfp /\ node s1 p = Some rfp) as Hnps.
  { intros p [Hp Hpl]%Hps. destruct (Hex p Hp) as [rfp Hnp]. exists rfp. by rewrite Ho1. }
  destruct (can_win n Q l Hl ps 1 s1 rf1) as (s2&rf2&Hs2&Hn2&Hlead&HT2&Hfo); try done.
  - by eapply among_reachable.
  - eapply campaign_mono; [|exact Hc1]. intros p Hp. destruct (Hnps p Hp) as (rfp&Hnp&_).
    pose proof (reachable_sound _ _ _ _ Hr Hnl) as [_ _ Hme Hpe _ _ _].
    pose proof (sd_range _ _ _ (reachable_sound _ _ _ _ Hr Hnp)).
    apply in_other_peers; [by rewrite Hpe|]. rewrite Hme. by apply Hps.
  - by apply NoDup_filter.
  - pose proof (Permutation_length Hperm) as Hlen. cbn in Hlen. lia.
  - intros i Hi Hil. destruct (Hex i Hi) as [rfi Hni]. exists rfi. rewrite Ho1 by done. split; [done|].
    specialize (HT0 _ _ Hi Hni). lia.
  - intros p Hp. destruct (Hnps p Hp) as (rfp&Hnp&Hnp1). exists rfp. split; [done|]. apply Hps in Hp as [Hp _].
    split; [specialize (HT0 _ _ Hp Hnp); lia|]. rewrite HL1. by eapply Hbest.
  - exists s2, l, rf2. split_and!; [by etrans|done|done|done|by rewrite HT2|].
    intros i rfi Hi Hni. rewrite HT2. specialize (HT0 _ _ Hi Hni). lia.
Qed.

Lemma can_elect s : sys_reachable n s -> (forall i, i ∈ Q -> is_Some (node s i)) ->
  exists s' l rf, rtc (acts_among Q) s s' /\ l ∈ Q /\ node s' l = Some rf /\ state rf = StateLeader /\
    followers Q l (currentTerm rf) s' /\
    forall i rfi, i ∈ Q -> node s i = Some rfi -> currentTerm rfi < currentTerm rf.
Proof.
  intros Hr Hex. destruct (demote_all n Q Q s) as (s1&Hs1&Hex1&Hno1); [|done|done|].
  { intros p Hp. split; [done|]. by apply another. }
  destruct (can_elect_followers s1) as (s2&l&rf&Hs2&Hl&Hnl&Hlead&Hfo&Hterms); [by eapply among_reachable|done|done|].
  exists s2, l, rf. split_and!; [by etrans|done..|]. intros i rfi Hi Hni.
  destruct (steps_terms n s s1 i rfi Hr (among_steps _ _ _ Hs1) Hni) as (rfi1&Hni1&?). specialize (Hterms i rfi1 Hi Hni1). lia.
Qed.
End majority.
End live.

Section theorems.
Context {C : Type} `{Gob Z} `{Gob (list (Entry C))} `{Rand} `{Alloc}.
Context `{!GobLaws Z} `{!GobLaws (list (Entry C))}.
Implicit Types (rf : Raft C) (s : System C).

(** Leaders are made by replies to [RequestVote] calls, and a peer alone makes none. *)
Lemma lone_step (cs cs' : Cluster C) : RaftElection.inv 1 cs -> RaftElection.step cs cs' ->
  (forall i rf, c_nodes cs !! i = Some rf -> state rf <> StateLeader) ->
  forall i rf, c_nodes cs' !! i = Some rf -> state rf <> StateLeader.
Proof.
  intros Hinv Hs Hno.
  assert (forall k c, c_calls cs !! k = Some c -> False) as Hcalls.
  { intros k c Hk. destruct (inv_call _ _ Hinv c) as (_&Hto&Hne&[v Hv]); [by eapply list_elem_of_lookup_2|].
    destruct (inv_election _ _ Hinv _ _ _ Hv) as [[rf Hn] _]. destruct (inv_node _ _ Hinv _ _ Hn) as (_&_&?&_). lia. }
  assert (forall i rf (nodes : gmap Z (Raft C)), state rf <> StateLeader ->
    nodes = <[i := rf]> (c_nodes cs) -> forall j rfj, nodes !! j = Some rfj -> state rfj <> StateLeader) as Hx.
  { intros i rf nodes Hst -> j rfj [[_ <-]|[_ ?]]%lookup_insert_Some; [done|by eapply Hno]. }
  destruct Hs as [i rf q rf' Hi Hr|k c ? ? ? Hk|k c ? ? ? ? ? Hk|i rf ev rf' Hi Hl Hr|i rf rf' Hi Hr].
  - eapply (Hx i rf'); [|done]. destruct (ticker_election_effect _ _ _ Hr). congruence.
  - by destruct (Hcalls k c).
  - by destruct (Hcalls k c).
  - eapply (Hx i rf'); [|done]. intros [Hst _]%(ve_leader _ _ (local_effect _ _ _ Hl Hr)). by eapply Hno.
  - eapply (Hx i rf'); [|done]. destruct (inv_node _ _ Hinv _ _ Hi) as (_&_&_&Hd). destruct (Make_effect _ _ Hd Hr). congruence.
Qed.

(** A cluster of one peer never has a leader: a candidate counts its votes when a reply
    arrives, and nobody replies to it. *)
Theorem lone_peer_never_leads s i rf : sys_reachable 1 s -> node s i = Some rf -> state rf <> StateLeader.
Proof.
  intros (s0&Hinit&Hs). revert i rf. pose proof (initial_inv _ _ (proj1 Hinit)) as Hinv.
  assert (forall i rf, node s0 i = Some rf -> state rf <> StateLeader) as Hno.
  { intros i rf Hi. destruct Hinit as [(_&_&Hn) _]. destruct (Hn _ _ Hi) as [_ HM].
    destruct (Make_spec 1 i MakePersister 0 (-1) [@zeroEntry C]) as (rf1&HM1&[]); [by left|apply wf_zero|].
    rewrite HM in HM1. injection HM1 as <-. by rewrite fresh_state. }
  clear Hinit. induction Hs as [|s0 s1 s2 Hs _ IH]; [done|]. apply IH.
  - by eapply sys_step_cluster.
  - destruct (sys_step_election _ _ Hs) as [Hst|E]; [by eapply lone_step|]. unfold node. by rewrite E.
Qed.

(** What the theorem states, for the developments on top of Raft. *)
Lemma majority_commits (n : nat) s (Q : list Z) (command : C) :
  (2 <= n)%nat -> sys_reachable n s -> NoDup Q -> Z.of_nat n `quot` 2 < len Q ->
  running Q s ->
  exists s' l rf e, rtc (step_among Q) s s' /\ l ∈ Q /\ node s' l = Some rf /\ state rf = StateLeader /\
    e_Command e = Some command /\ e_Term e = currentTerm rf /\
    (forall i rfi, i ∈ Q -> node s i = Some rfi -> currentTerm rfi < e_Term e) /\
    forall i, i ∈ Q -> e ∈ sent s' i.
Proof.
  intros Hn Hr Hnd Hmaj Hrun. assert (forall i, i ∈ Q -> is_Some (node s i)) as Hex.
  { intros i (rf&?&_)%Hrun. eauto. }
  destruct (can_elect n Q Hn Hnd Hmaj s Hr Hex) as (s1&l&rf1&Hs1&Hl&Hn1&Hlead1&Hfo1&HT1).
  pose proof (among_reachable _ _ _ _ Hr Hs1) as Hr1.
  destruct (can_commit n Q l Hl Hnd Hmaj command s1 rf1) as (s2&rf2&e&Hs2&Hn2&Hlead2&HT2&Hec&HeT&Hpos&Hall); try done.
  pose proof (among_reachable _ _ _ _ Hr1 Hs2) as Hr2.
  destruct (can_apply_all n Q Q s2) as (s3&Hs3&Hb3&Ha3); [done| |done|].
  { intros p Hp. destruct (Hall p Hp) as (rfp&?&_). eauto. }
  pose proof (among_reachable _ _ _ _ Hr2 Hs3) as Hr3.
  destruct (Hb3 l rf2 Hn2) as (rf3&Hn3&(Hst3&HT3&_)).
  exists s3, l, rf3, e. split_and!; [apply running_steps; [done|]; etrans; [exact Hs1|by etrans]|done|done|congruence|done|congruence| |].
  - intros i rfi Hi Hni. rewrite HeT. by eapply HT1.
  - intros i Hi. destruct (Hall i Hi) as (rfi&Hni&Hlog&Hci). destruct (Hb3 i rfi Hni) as (rfi'&Hni'&(_&_&HL&Hc)).
    destruct (Ha3 i Hi) as [Ht Hla]. eapply (applied_sent n s3 i rfi'); [done|done|done|by rewrite HL|lia|by apply Hla].
Qed.

(** C2: A majority can always make progress. From any reachable state of a cluster of at
    least two peers that do not compact their logs, whatever was lost, delayed or crashed
    before, and for any command, the peers of any majority [Q] that are running can, without
    a step of the others, elect one of them leader and all apply an entry with the command
    in its term, a term later than any they were in. Elections start only with the tick of
    an election timer that was armed and ran out, heartbeat rounds with that of a heartbeat
    timer. *)
Theorem majority_can_commit (n : nat) s (Q : list Z) (command : C) :
  (2 <= n)%nat -> sys_reachable n s -> NoDup Q -> Z.of_nat n `quot` 2 < len Q ->
  running Q s ->
  exists s' l rf e, rtc (step_among Q) s s' /\ l ∈ Q /\ node s' l = Some rf /\ state rf = StateLeader /\
    e_Command e = Some command /\ e_Term e = currentTerm rf /\
    (forall i rfi, i ∈ Q -> node s i = Some rfi -> currentTerm rfi < e_Term e) /\
    forall i, i ∈ Q -> e ∈ sent s' i.
Proof. apply majority_commits. Qed.
End theorems.
