(* ===== verification/RaftSafetyExample.v ===== *)
(** * A run of three peers that elects, replicates, commits and applies

    [act] is the steps of [RaftSystem] as a function, so that a run is evaluated; every
    action that succeeds is a step ([act_step]). The run below is the input at which
    the theorems of [RaftSafety] are instantiated. *)
From Stdlib Require Import Strings.Byte.
From S2P Require Import Prelude Labgob Persister RaftTypes RaftNode RaftLog RaftSpec RaftReplication RaftLeader RaftSnapshot RaftInv RaftProps RaftVotes RaftElection RaftSystem RaftSafety RaftApply RaftLive.
Import RaftProps.Example3.

Section exec.
Context {C : Type} `{Gob Z} `{Gob (list (Entry C))} `{Rand} `{Alloc}.
Implicit Types (rf : Raft C) (s : System C).

Inductive Act :=
  | AExpire (i : Z)
  | ATimeout (i : Z)
  | ABeat (i : Z)
  | AHeartbeat (i : Z)
  | AVote (k : nat)
  | AVoteReply (k : nat)
  | AReplicate (i peer : Z)
  | AAppend (k : nat)
  | AAppendReply (k : nat)
  | AStart (i : Z) (command : C)
  | ATake (i : Z)
  | ASend (i : Z).

(** A round for [peer] is waiting to run. *)
Definition waiting (peer : Z) (actions : list (Action C)) : bool :=
  existsb (fun a => match a with GoReplicateOneRound p => bool_decide (p = peer) | _ => false end) actions.

Lemma waiting_in peer actions : waiting peer actions = true -> GoReplicateOneRound peer ∈ actions.
Proof.
  unfold waiting. rewrite existsb_exists. intros (a&Ha&Hp). apply list_elem_of_In. destruct a; try done.
  by apply bool_decide_eq_true in Hp as ->.
Qed.

Definition act (a : Act) s : option (System C) :=
  let cl := s_cluster s in
  match a with
  | AExpire i => rf ← node s i; rf' ← run EvElectionExpire rf; Some (set_node i rf' s)
  | ATimeout i =>
      rf ← node s i;
      if ticked (electionTimer rf) then
        p ← ticker_election rf;
        Some (set_cluster (mkCluster _ (<[i := snd p]> (c_nodes cl)) (c_calls cl ++ vote_calls i (spawned rf (snd p)))
          (<[(i, currentTerm (snd p)) := 1]> (c_votes cl))) s)
      else None
  | ABeat i => rf ← node s i; rf' ← run EvHeartbeatExpire rf; Some (set_node i rf' s)
  | AHeartbeat i =>
      rf ← node s i;
      if ticked (heartbeatTimer rf) then rf' ← run EvHeartbeatTimeout rf; Some (set_node i rf' s) else None
  | AVote k =>
      c ← c_calls cl !! k;
      match c_status c with
      | Sent =>
          rf ← node s (c_to c); p ← RequestVote (c_request c) rf;
          Some (set_cluster (mkCluster _ (<[c_to c := snd p]> (c_nodes cl))
            (<[k := set_status (Replied (fst p)) c]> (c_calls cl)) (c_votes cl)) s)
      | _ => None
      end
  | AVoteReply k =>
      c ← c_calls cl !! k;
      match c_status c, c_live c with
      | Replied response, true =>
          rf ← node s (c_from c); v ← c_votes cl !! (c_from c, rv_Term (c_request c));
          p ← electionReply (c_request c) response v rf;
          Some (set_cluster (mkCluster _ (<[c_from c := snd p]> (c_nodes cl))
            (<[k := set_status (Finished response) c]> (c_calls cl))
            (<[(c_from c, rv_Term (c_request c)) := fst p]> (c_votes cl))) s)
      | _, _ => None
      end
  | AReplicate i peer =>
      rf ← node s i;
      if decide (0 <= peer < Z.of_nat (peers rf) /\ peer <> i /\ waiting peer (out rf) = true)
      then p ← goReplicateOneRound peer rf; Some (add_replication i peer (fst p) (set_node i (snd p) s))
      else None
  | AAppend k =>
      m ← s_requests s !! k; rf ← node s (s_to m); p ← AppendEntries (s_msg m) rf;
      Some (add_response m (fst p) (set_node (s_to m) (snd p) s))
  | AAppendReply k =>
      m ← s_responses s !! k; rf ← node s (s_from m);
      p ← handleAppendEntriesResponse (s_to m) (fst (s_msg m)) (snd (s_msg m)) rf;
      Some (set_node (s_from m) (snd p) s)
  | AStart i command => rf ← node s i; p ← Start command rf; Some (set_node i (snd p) s)
  | ATake i =>
      rf ← node s i;
      match s_taken s !! i, applier_take rf with
      | None, Some (Some (es, c), rf') => Some (set_taken (<[i := (es, c)]> (s_taken s)) (set_node i rf' s))
      | _, _ => None
      end
  | ASend i =>
      match s_taken s !! i with
      | Some (e :: es, c) => Some (add_applied i e (set_taken (<[i := (es, c)]> (s_taken s)) s))
      | _ => None
      end
  end.

Lemma act_step a s s' : act a s = Some s' -> sys_step s s'.
Proof.
  destruct a; cbn [act].
  - intros (rf&Hi&(rf'&Hr&[= <-])%bind_Some)%bind_Some. by eapply (sys_quiet _ _ EvElectionExpire).
  - intros (rf&Hi&Hrest)%bind_Some. destruct (ticked _) eqn:Ht; [|done].
    apply bind_Some in Hrest as ([]&Hp&[= <-]). by eapply sys_timeout.
  - intros (rf&Hi&(rf'&Hr&[= <-])%bind_Some)%bind_Some. by eapply (sys_quiet _ _ EvHeartbeatExpire).
  - intros (rf&Hi&Hrest)%bind_Some. destruct (ticked _) eqn:Ht; [|done].
    apply bind_Some in Hrest as (rf'&Hp&[= <-]). by eapply (sys_quiet _ _ EvHeartbeatTimeout).
  - intros (c&Hc&Hrest)%bind_Some. destruct (c_status c) eqn:Hs; try done.
    apply bind_Some in Hrest as (rf&Hi&([]&Hp&[= <-])%bind_Some). by eapply sys_vote.
  - intros (c&Hc&Hrest)%bind_Some. destruct (c_status c) eqn:Hs, (c_live c) eqn:Hl; try done.
    apply bind_Some in Hrest as (rf&Hi&(v&Hv&([]&Hp&[= <-])%bind_Some)%bind_Some). by eapply sys_vote_reply.
  - intros (rf&Hi&Hrest)%bind_Some. case_decide as Hd; [|done]. destruct Hd as (?&?&?%waiting_in).
    apply bind_Some in Hrest as ([]&Hp&[= <-]). by eapply sys_replicate.
  - intros (m&Hm&(rf&Hi&([]&Hp&[= <-])%bind_Some)%bind_Some)%bind_Some.
    eapply sys_append; [by eapply list_elem_of_lookup_2|done|done].
  - intros (m&Hm&(rf&Hi&([[] ]&Hp&[= <-])%bind_Some)%bind_Some)%bind_Some.
    eapply sys_append_reply; [by eapply list_elem_of_lookup_2|done|done].
  - intros (rf&Hi&([]&Hp&[= <-])%bind_Some)%bind_Some. by eapply sys_start.
  - intros (rf&Hi&Hrest)%bind_Some. destruct (s_taken s !! i) eqn:Ht; [done|].
    destruct (applier_take rf) as [[[[]|] ]|] eqn:Hp; try done. simplify_eq. by eapply sys_take.
  - destruct (s_taken s !! i) as [[[|e es] c]|] eqn:Ht; try done. intros [= <-]. by eapply sys_send.
Qed.

Fixpoint acts (l : list Act) s : option (System C) :=
  match l with
  | [] => Some s
  | a :: l => s' ← act a s; acts l s'
  end.

Lemma acts_rtc l s s' : acts l s = Some s' -> rtc sys_step s s'.
Proof.
  revert s; induction l as [|a l IH]; intros s; cbn [acts].
  - intros [= <-]. apply rtc_refl.
  - intros (t&Ht&Hl)%bind_Some. eapply rtc_l; [by eapply act_step|auto].
Qed.
End exec.

Module Example_run.
Definition start_ : System string :=
  mkSystem _ Example_election.cs0 [] [] [] [] ∅ [] ∅.

(** Peer 0 is elected with the vote of peer 1, appends a command, replicates it to
    peer 1, commits and applies it, and tells peer 1, which applies it too. *)
Definition script : list Act :=
  [AExpire 0; ATimeout 0; AVote 0; AVoteReply 0; AStart 0 "x"%string; AReplicate 0 1; AAppend 0;
   AAppendReply 0; ATake 0; ASend 0; ABeat 0; AHeartbeat 0; AReplicate 0 1; AAppend 1; ATake 1; ASend 1].
Definition final : System string := force start_ (acts script start_).
Definition entry : Entry string := mkEntry string 1 1 (Some "x"%string).
Definition peer_ (i : Z) : Raft string := force follower (node final i).

Lemma final_reachable : sys_reachable 3 final.
Proof.
  exists start_. split; [|apply (acts_rtc script); vm_compute; reflexivity].
  split_and!; try reflexivity. apply Example_election.cs0_initial.
Qed.
End Example_run.
Import Example_run.

Lemma final_applied : s_applied final = [(0, entry); (1, entry)].
Proof. vm_compute. reflexivity. Qed.
Lemma final_node i : 0 <= i < 3 -> node final i = Some (peer_ i).
Proof.
  intros Hi. assert (i = 0 \/ i = 1 \/ i = 2) as [-> | [-> | -> ] ] by lia; vm_compute; reflexivity.
Qed.
Lemma three_peers (a b c rf : Raft string) (i : Z) :
  ({[0 := a; 1 := b; 2 := c]} : gmap Z (Raft string)) !! i = Some rf -> 0 <= i < 3.
Proof.
  intros Hi. repeat (apply lookup_insert_Some in Hi as [[<- _]|[_ Hi]]; [lia|]).
  apply lookup_singleton_Some in Hi as [<- _]. lia.
Qed.
Lemma final_nodes i rf : node final i = Some rf -> 0 <= i < 3.
Proof.
  assert (c_nodes (s_cluster final) = {[0 := peer_ 0; 1 := peer_ 1; 2 := peer_ 2]}) as Hm
    by (vm_compute; reflexivity).
  unfold node. rewrite Hm. apply three_peers.
Qed.

Lemma state_machine_safety_witness : e_Index entry = 1 /\ entry = entry.
Proof.
  split; [reflexivity|].
  apply (state_machine_safety 3 final 0 1 entry entry).
  - apply final_reachable.
  - rewrite final_applied. constructor.
  - rewrite final_applied. constructor; constructor.
  - reflexivity.
Defined.

Lemma raft_log_matching_witness : logs (peer_ 0) !! 0%nat = logs (peer_ 1) !! 0%nat.
Proof.
  apply (raft_log_matching 3 final 0 1 (peer_ 0) (peer_ 1) 1 entry entry).
  - apply final_reachable.
  - apply final_node; lia.
  - apply final_node; lia.
  - vm_compute; reflexivity.
  - vm_compute; reflexivity.
  - reflexivity.
  - lia.
Defined.

Lemma leader_has_applied_witness : logs (peer_ 0) !! 1%nat = Some entry.
Proof.
  apply (leader_has_applied 3 final 0 (peer_ 0) 1 entry).
  - apply final_reachable.
  - apply final_node; lia.
  - vm_compute; reflexivity.
  - intros p rfp Hp. pose proof (final_nodes _ _ Hp) as Hr. rewrite (final_node p Hr) in Hp.
    apply Some_inj in Hp as <-. assert (p = 0 \/ p = 1 \/ p = 2) as [-> | [-> | -> ] ] by lia; vm_compute; discriminate.
  - rewrite final_applied. constructor; constructor.
Defined.

Lemma cluster_never_panics_witness :
  is_Some (ticker_election (peer_ 1)) /\ is_Some (applier_take (peer_ 1)) /\
  is_Some (goReplicateOneRound 2 (peer_ 1)) /\
  (forall m, m ∈ s_requests final -> s_to m = 1 -> is_Some (AppendEntries (s_msg m) (peer_ 1))).
Proof.
  assert (0 <= 2 < Z.of_nat 3) as H2 by lia.
  destruct (cluster_never_panics 3 final 1 (peer_ 1)) as (Hae&_&_&_&_&_&_&Hel&_&Hr&Hap&_).
  - apply final_reachable.
  - apply final_node; lia.
  - split; [exact Hel|]. split; [exact Hap|]. split; [exact (proj1 (Hr 2 H2))|exact Hae].
Defined.

Lemma peers_apply_one_sequence_witness : sent final 0 `prefix_of` sent final 1 \/ sent final 1 `prefix_of` sent final 0.
Proof. apply (peers_apply_one_sequence 3 final 0 1), final_reachable. Defined.

(** Without the leader, peers 1 and 2 can commit another command. *)
Lemma majority_can_commit_witness : exists (s' : System string) l rf e, rtc (step_among [1; 2]) final s' /\
  l ∈ [1; 2] /\ node s' l = Some rf /\ state rf = StateLeader /\ e_Command e = Some "y"%string /\ e_Term e = currentTerm rf /\
  (forall i rfi, i ∈ [1; 2] -> node final i = Some rfi -> currentTerm rfi < e_Term e) /\ forall i, i ∈ [1; 2] -> e ∈ sent s' i.
Proof.
  apply (majority_can_commit 3 final [1; 2] "y"%string).
  - lia.
  - apply final_reachable.
  - apply (bool_decide_unpack _). vm_compute. exact I.
  - vm_compute. reflexivity.
  - intros i Hi. exists (peer_ i). apply elem_of_cons in Hi as [-> | ->%list_elem_of_singleton]; split; vm_compute; reflexivity.
Defined.

(** A cluster of one peer, after a timeout. *)
Definition lone : System string := mkSystem _ (mkCluster _ {[0 := force follower (Make 1 0 MakePersister)]} [] ∅) [] [] [] [] ∅ [] ∅.
Definition lone_timed_out : System string := force lone (acts [AExpire 0; ATimeout 0] lone).
Lemma lone_candidate : state (force follower (node lone_timed_out 0)) <> StateLeader.
Proof.
  apply (lone_peer_never_leads lone_timed_out 0).
  - exists lone. split.
    + split; [|split_and!; reflexivity]. split; [reflexivity|]. split; [reflexivity|]. intros i rf Hi.
      cbn [s_cluster c_nodes lone] in Hi. apply lookup_singleton_Some in Hi as [<- <-]. split; [lia|]. vm_compute. reflexivity.
    + apply (acts_rtc [AExpire 0; ATimeout 0]). vm_compute. reflexivity.
  - vm_compute. reflexivity.
Defined.
