(* ===== verification/Notify.v ===== *)
(** * Notification channels

    The three servers wake a waiting RPC handler through a map from log indices to
    channels of capacity one ([notifyChans], with [getNotifyChan] and
    [removeOutdatedNotifyChan], the same code in kvraft, shardctrler and shardkv).
    [n_bufs] is the store of channel buffers; a channel is its position there, so
    that a handler keeps its reference after the map entry is gone. The applier sends
    while it holds the server's lock, so what matters is that a send never finds the
    buffer full: [notify_wf n a] says that the channels of indices above [a], those
    not applied yet, are empty. *)
From S2P Require Import Prelude.

Record Notify {R : Type} := mkNotify {
  n_chanOf : GoMap Z nat;
  n_bufs : list (list R)
}.
Arguments Notify : clear implicits.

Section ops.
Context {R : Type}.
Implicit Types (n : Notify R).

(** [make(map[int]chan *CommandResponse)]. *)
Definition no_chans : Notify R := mkNotify R (Some ∅) [].

(** [make(chan *CommandResponse, 1)]. *)
Definition make_chan : M (Notify R) nat :=
  let! n := get in
  do! modify (fun n => mkNotify R (n_chanOf n) (n_bufs n ++ [[]]));
  ret (length (n_bufs n)).

Definition get_chan (index : Z) : M (Notify R) nat :=
  let! n := get in
  do! (match map_get (n_chanOf n) index with
       | Some _ => ret tt
       | None =>
           let! ch := make_chan in
           let! m := lift (map_set (n_chanOf n) index ch) in
           modify (fun n => mkNotify R m (n_bufs n))
       end);
  let! n := get in
  lift (map_get (n_chanOf n) index).

Definition remove_chan (index : Z) : M (Notify R) unit :=
  modify (fun n => mkNotify R (map_delete (n_chanOf n) index) (n_bufs n)).

(** [ch <- response]: [false] when the buffer is full, that is when the sender
    blocks. *)
Definition chan_send (ch : nat) (response : R) : M (Notify R) bool :=
  let! n := get in
  let! buf := lift (n_bufs n !! ch) in
  match buf with
  | [] => do! modify (fun n => mkNotify R (n_chanOf n) (<[ch := [response]]> (n_bufs n))); ret true
  | _ :: _ => ret false
  end.

(** [<-ch]: [None] when there is nothing to receive yet. *)
Definition chan_receive (ch : nat) : M (Notify R) (option R) :=
  let! n := get in
  let! buf := lift (n_bufs n !! ch) in
  match buf with
  | [] => ret None
  | response :: rest =>
      do! modify (fun n => mkNotify R (n_chanOf n) (<[ch := rest]> (n_bufs n)));
      ret (Some response)
  end.

(** ** Invariant *)

(** The channel of an index, and a response waiting in it. *)
Definition chan_for n (index : Z) (ch : nat) : Prop := map_get (n_chanOf n) index = Some ch.
Definition pending n (index : Z) (response : R) : Prop :=
  exists ch, chan_for n index ch /\ n_bufs n !! ch = Some [response].

Record notify_wf n (applied : Z) : Prop := {
  nw_made : is_Some (n_chanOf n);
  nw_range i ch : chan_for n i ch -> (ch < length (n_bufs n))%nat;
  nw_inj i j ch : chan_for n i ch -> chan_for n j ch -> i = j;
  nw_empty i ch buf : chan_for n i ch -> n_bufs n !! ch = Some buf -> applied < i -> buf = []
}.

Lemma no_chans_wf a : notify_wf no_chans a.
Proof. split; [by eexists|..]; unfold chan_for; cbn; intros *; by rewrite lookup_empty. Qed.

Lemma notify_wf_applied n a a' : notify_wf n a -> a <= a' -> notify_wf n a'.
Proof. intros [] Hle. split; [done|done|done|]. intros. eapply nw_empty0; eauto. lia. Qed.

(** [get_chan] finds or makes the channel. *)
Lemma wp_get_chan index n a : notify_wf n a ->
  wp (get_chan index) n (fun ch n' => notify_wf n' a /\ chan_for n' index ch).
Proof.
  intros Hwf. pose proof Hwf as [[m Hm] Hr Hi He]. unfold chan_for in *. rewrite Hm in *. cbn in *.
  unfold get_chan. go. rewrite Hm. cbn. destruct (m !! index) as [ch|] eqn:E; go.
  - rewrite Hm. cbn. rewrite E. go. split; [done|]. unfold chan_for. by rewrite Hm.
  - unfold make_chan. go. cbn. rewrite lookup_insert_eq. go.
    split; [|unfold chan_for; cbn; by rewrite lookup_insert_eq].
    assert (Hold : forall j c, m !! j = Some c -> c <> length (n_bufs n)) by (intros j c Hj%Hr; lia).
    split; unfold chan_for; cbn; [by eexists|..].
    + intros j c [[<- <-]|[_ Hj%Hr]]%lookup_insert_Some; rewrite length_app; simpl; lia.
    + intros j k c [[<- <-]|[_ Hj]]%lookup_insert_Some [[<- E']|[_ Hk]]%lookup_insert_Some; try done.
      * by apply Hold in Hk.
      * subst. by apply Hold in Hj.
      * by eapply Hi.
    + intros j c buf [[<- <-]|[_ Hj]]%lookup_insert_Some Hb Hja.
      * rewrite list_lookup_middle in Hb by done. by simplify_eq.
      * rewrite lookup_app_l in Hb by (by eapply Hr). by eapply He.
Qed.

(** Replacing a buffer that no index above [a] uses, or by an empty one. *)
Lemma notify_wf_buffer n a ch buf :
  notify_wf n a -> (forall i, chan_for n i ch -> a < i -> buf = []) ->
  notify_wf (mkNotify R (n_chanOf n) (<[ch := buf]> (n_bufs n))) a.
Proof.
  intros [Hm Hr Hi He] Hb. split; [done|..].
  - intros i c Hc. cbn. rewrite length_insert. by eapply Hr.
  - intros i j c Hc Hd. by eapply Hi.
  - intros i c b Hc Hbb Ha. cbn in Hbb.
    apply list_lookup_insert_Some in Hbb as [(<- & <- & _)|[_ Hbb]]; [by eapply Hb|by eapply He].
Qed.

(** The send to a new index finds room, and leaves the response there. *)
Lemma wp_notify index response n a : notify_wf n a -> a < index ->
  wp (let! ch := get_chan index in chan_send ch response) n
    (fun sent n' => sent = true /\ notify_wf n' index /\ pending n' index response).
Proof.
  intros Hwf Hlt. go. eapply wp_mono; [by apply wp_get_chan|]. intros ch n' [Hwf' Hch].
  unfold chan_send. go.
  destruct (lookup_lt_is_Some_2 (n_bufs n') ch) as [buf Hbuf]; [by eapply nw_range|]. rewrite Hbuf. go.
  assert (buf = []) as -> by (by eapply nw_empty). go. split_and!; [done| |].
  - apply notify_wf_buffer; [eapply notify_wf_applied; [done|lia]|].
    intros i Hi Ha. assert (i = index) as -> by (by eapply nw_inj). lia.
  - exists ch. split; [done|]. cbn. apply list_lookup_insert_eq. by eapply lookup_lt_Some.
Qed.

Lemma wp_remove_chan index n a : notify_wf n a ->
  wp (remove_chan index) n (fun _ n' => notify_wf n' a).
Proof.
  intros [[m Hm] Hr Hi He]. unfold remove_chan. go. unfold chan_for in *. rewrite Hm in *. cbn in *.
  split; unfold chan_for; cbn; [by eexists|..].
  - intros j ch [_ Hj]%lookup_delete_Some. by eapply Hr.
  - intros j k ch [_ Hj]%lookup_delete_Some [_ Hk]%lookup_delete_Some. by eapply Hi.
  - intros j ch buf [_ Hj]%lookup_delete_Some. by eapply He.
Qed.

(** A handler receives what is in its channel, if anything. *)
Lemma wp_chan_receive ch n a : notify_wf n a -> (ch < length (n_bufs n))%nat ->
  wp (chan_receive ch) n (fun result n' => notify_wf n' a /\
    n_bufs n !! ch = Some (match result with
      | Some r => r :: default [] (n_bufs n' !! ch) | None => [] end)).
Proof.
  intros Hwf Hch. unfold chan_receive. go.
  destruct (lookup_lt_is_Some_2 _ _ Hch) as [buf Hbuf]. rewrite Hbuf. go.
  destruct buf as [|r rest]; go; [done|]. cbn. rewrite list_lookup_insert_eq by done. split; [|done].
  apply notify_wf_buffer; [done|]. intros i Hi Ha.
  by assert (r :: rest = []) as [=] by (by eapply nw_empty).
Qed.
End ops.
