(* ===== verification/KvStateMachine.v ===== *)
(** * kvraft/KVStateMachine.go and kvraft/common.go

    The interface [KVStateMachine] is a class; its contract [KVStateMachineSpec]
    says that an implementation behaves like a finite map. [MemoryKV] is the
    implementation of the repository. What the server does with a command is
    defined and proved against the interface. *)
From S2P Require Import Prelude.

(** ** common.go *)

Definition Err : Type := string.
Definition OK : Err := "OK"%string.
Definition ErrNoKey : Err := "ErrNoKey"%string.
Definition ErrWrongLeader : Err := "ErrWrongLeader"%string.
Definition ErrTimeout : Err := "ErrTimeout"%string.

Definition OperationOp : Type := string.
Definition OpPut : OperationOp := "OpPut"%string.
Definition OpAppend : OperationOp := "OpAppend"%string.
Definition OpGet : OperationOp := "OpGet"%string.

Record CommandRequest := mkCommandRequest {
  Key : string;
  Value : string;
  Op : OperationOp;
  ClientId : Z;
  CommandId : Z
}.

Record CommandResponse := mkCommandResponse {
  r_Err : Err;
  r_Value : string
}.

(** [Command] embeds a pointer to the request, which no one writes once it has
    been handed to Raft. *)
Record Command := mkCommand { c_CommandRequest : CommandRequest }.

(** [LastResponse] points to a response that is never written after it is made. *)
Record OperationContext := mkOperationContext {
  MaxAppliedCommandId : Z;
  LastResponse : CommandResponse
}.

#[export] Instance CommandRequest_eq_dec : EqDecision CommandRequest.
Proof. solve_decision. Defined.
#[export] Instance CommandResponse_eq_dec : EqDecision CommandResponse.
Proof. solve_decision. Defined.
#[export] Instance Command_eq_dec : EqDecision Command.
Proof. solve_decision. Defined.
#[export] Instance CommandRequest_countable : Countable CommandRequest.
Proof.
  refine (inj_countable' (fun r => (Key r, Value r, Op r, ClientId r, CommandId r))
            (fun '(k, v, o, c, i) => mkCommandRequest k v o c i) _). by intros [].
Defined.
#[export] Instance CommandResponse_countable : Countable CommandResponse.
Proof.
  refine (inj_countable' (fun r => (r_Err r, r_Value r))
            (fun '(e, v) => mkCommandResponse e v) _). by intros [].
Defined.
#[export] Instance Command_countable : Countable Command.
Proof. refine (inj_countable' c_CommandRequest mkCommand _). by intros []. Defined.
#[export] Instance OperationContext_eq_dec : EqDecision OperationContext.
Proof. solve_decision. Defined.
#[export] Instance OperationContext_countable : Countable OperationContext.
Proof.
  refine (inj_countable' (fun o => (MaxAppliedCommandId o, LastResponse o))
            (fun '(i, r) => mkOperationContext i r) _). by intros [].
Defined.

(** ** The interface *)

Class KVStateMachine (S : Type) := {
  Get : string -> S -> string * Err;
  Put : string -> string -> M S Err;
  Append : string -> string -> M S Err
}.

(** An implementation stands for a finite map from keys to values; [usable]
    excludes states that operations may panic in. *)
Class KVStateMachineSpec (S : Type) `{!KVStateMachine S} := {
  contents : S -> gmap string string;
  usable : S -> Prop;
  Get_spec k s : Get k s =
    match contents s !! k with Some v => (v, OK) | None => (""%string, ErrNoKey) end;
  Put_spec k v s : usable s ->
    wp (Put k v) s (fun e s' => e = OK /\ usable s' /\ contents s' = <[k := v]> (contents s));
  Append_spec k v s : usable s ->
    wp (Append k v) s (fun e s' => e = OK /\ usable s' /\
      contents s' = <[k := (default ""%string (contents s !! k) +:+ v)]> (contents s))
}.

(** ** MemoryKV *)

Record MemoryKV := mkMemoryKV { KV : GoMap string string }.

#[export] Instance MemoryKV_eq_dec : EqDecision MemoryKV.
Proof. solve_decision. Defined.
#[export] Instance MemoryKV_countable : Countable MemoryKV.
Proof. refine (inj_countable' KV mkMemoryKV _). by intros []. Defined.

Definition NewMemoryKV : MemoryKV := mkMemoryKV (Some ∅).

Definition MemoryKV_Get (key : string) (memoryKV : MemoryKV) : string * Err :=
  match map_get (KV memoryKV) key with
  | Some value => (value, OK)
  | None => (""%string, ErrNoKey)
  end.

Definition MemoryKV_Put (key value : string) : M MemoryKV Err :=
  let! memoryKV := get in
  let! m := lift (map_set (KV memoryKV) key value) in
  do! modify (fun _ => mkMemoryKV m);
  ret OK.

Definition MemoryKV_Append (key value : string) : M MemoryKV Err :=
  let! memoryKV := get in
  let old := default ""%string (map_get (KV memoryKV) key) in
  let! m := lift (map_set (KV memoryKV) key (old +:+ value)) in
  do! modify (fun _ => mkMemoryKV m);
  ret OK.

#[export] Instance MemoryKV_machine : KVStateMachine MemoryKV := {|
  Get := MemoryKV_Get; Put := MemoryKV_Put; Append := MemoryKV_Append |}.

#[export] Instance MemoryKV_spec : KVStateMachineSpec MemoryKV.
Proof.
  refine {| contents s := default ∅ (KV s); usable s := is_Some (KV s) |}.
  - intros k [[m|]]; [done|]. cbn. by rewrite lookup_empty.
  - intros k v [[m|]] [m' [=]]; subst. cbn. split; [done|]. by split; [eexists|].
  - intros k v [[m|]] [m' [=]]; subst. cbn. split; [done|]. by split; [eexists|].
Defined.

(** ** Applying a command *)

(** The specification: the map after the command and the answer to it. *)
Definition kv_spec (command : Command) (m : gmap string string)
  : gmap string string * CommandResponse :=
  let r := c_CommandRequest command in
  if decide (Op r = OpPut) then (<[Key r := Value r]> m, mkCommandResponse OK "")
  else if decide (Op r = OpAppend) then
    (<[Key r := (default ""%string (m !! Key r) +:+ Value r)]> m, mkCommandResponse OK "")
  else if decide (Op r = OpGet) then
    (m, match m !! Key r with
        | Some v => mkCommandResponse OK v
        | None => mkCommandResponse ErrNoKey "" end)
  else (m, mkCommandResponse "" "").

Section machine.
Context {S : Type} `{KVStateMachine S}.

(** The [switch] of [KVServer.applyLogToStateMachine]. *)
Definition applyLogToStateMachine (command : Command) : M S CommandResponse :=
  let r := c_CommandRequest command in
  if decide (Op r = OpPut) then
    let! err := Put (Key r) (Value r) in ret (mkCommandResponse err "")
  else if decide (Op r = OpAppend) then
    let! err := Append (Key r) (Value r) in ret (mkCommandResponse err "")
  else if decide (Op r = OpGet) then
    let! s := get in
    let '(value, err) := Get (Key r) s in
    ret (mkCommandResponse err value)
  else ret (mkCommandResponse "" "").

Context `{!KVStateMachineSpec S}.

(** Any implementation that meets the contract answers commands as the map does. *)
Lemma wp_applyLogToStateMachine command s : usable s ->
  wp (applyLogToStateMachine command) s (fun response s' => usable s' /\
    kv_spec command (contents s) = (contents s', response)).
Proof.
  intros Hu. unfold applyLogToStateMachine, kv_spec.
  destruct (decide (_ = OpPut)); [|destruct (decide (_ = OpAppend));
    [|destruct (decide (_ = OpGet))]]; go.
  - eapply wp_mono; [by apply Put_spec|]. intros err s' (-> & Hu' & Hc). go. by rewrite Hc.
  - eapply wp_mono; [by apply Append_spec|]. intros err s' (-> & Hu' & Hc). go. by rewrite Hc.
  - rewrite Get_spec. destruct (contents s !! _) eqn:E; go; by rewrite ?E.
  - done.
Qed.
End machine.
