(* ===== verification/KvServer.v ===== *)
(** * kvraft/server.go: the replicated key/value server

    A server owns a Raft peer [kv_rf], the state machine, the last operation of each
    client and the channels on which [Command] waits for [applier]. A handler or
    goroutine that releases [kv.mu] is split where it does; [applier_message] is one
    iteration of the loop of [applier]. *)
From Stdlib Require Import Strings.Byte.
From S2P Require Import Prelude Labgob Persister RaftTypes RaftNode Notify KvStateMachine.

Definition ExecuteTimeout : Z := 500.

Record KVServer := mkKVServer {
  kv_me : Z;
  kv_rf : Raft Command;
  kv_dead : bool;
  kv_maxraftstate : Z;
  kv_lastApplied : Z;
  kv_stateMachine : MemoryKV;
  kv_lastOperations : GoMap Z OperationContext;
  kv_notify : Notify CommandResponse
}.

Definition set_kv_me (v : Z) (x : KVServer) : KVServer :=
  mkKVServer v (kv_rf x) (kv_dead x) (kv_maxraftstate x) (kv_lastApplied x) (kv_stateMachine x) (kv_lastOperations x) (kv_notify x).
Definition set_kv_rf (v : Raft Command) (x : KVServer) : KVServer :=
  mkKVServer (kv_me x) v (kv_dead x) (kv_maxraftstate x) (kv_lastApplied x) (kv_stateMachine x) (kv_lastOperations x) (kv_notify x).
Definition set_kv_dead (v : bool) (x : KVServer) : KVServer :=
  mkKVServer (kv_me x) (kv_rf x) v (kv_maxraftstate x) (kv_lastApplied x) (kv_stateMachine x) (kv_lastOperations x) (kv_notify x).
Definition set_kv_maxraftstate (v : Z) (x : KVServer) : KVServer :=
  mkKVServer (kv_me x) (kv_rf x) (kv_dead x) v (kv_lastApplied x) (kv_stateMachine x) (kv_lastOperations x) (kv_notify x).
Definition set_kv_lastApplied (v : Z) (x : KVServer) : KVServer :=
  mkKVServer (kv_me x) (kv_rf x) (kv_dead x) (kv_maxraftstate x) v (kv_stateMachine x) (kv_lastOperations x) (kv_notify x).
Definition set_kv_stateMachine (v : MemoryKV) (x : KVServer) : KVServer :=
  mkKVServer (kv_me x) (kv_rf x) (kv_dead x) (kv_maxraftstate x) (kv_lastApplied x) v (kv_lastOperations x) (kv_notify x).
Definition set_kv_lastOperations (v : GoMap Z OperationContext) (x : KVServer) : KVServer :=
  mkKVServer (kv_me x) (kv_rf x) (kv_dead x) (kv_maxraftstate x) (kv_lastApplied x) (kv_stateMachine x) v (kv_notify x).
Definition set_kv_notify (v : Notify CommandResponse) (x : KVServer) : KVServer :=
  mkKVServer (kv_me x) (kv_rf x) (kv_dead x) (kv_maxraftstate x) (kv_lastApplied x) (kv_stateMachine x) (kv_lastOperations x) v.

Section KVServer.
Context `{Gob Z} `{Gob (list (Entry Command))} `{Rand} `{Alloc}.
Context `{Gob MemoryKV} `{Gob (gmap Z OperationContext)}.
Implicit Types (kv : KVServer).

(** A call of a method of [kv.rf], and of [kv.stateMachine]. *)
Definition on_rf {A} (m : M (Raft Command) A) : M KVServer A := fun kv =>
  match m (kv_rf kv) with
  | Some (a, rf) => Some (a, set_kv_rf rf kv)
  | None => None
  end.

Definition on_machine {A} (m : M MemoryKV A) : M KVServer A := fun kv =>
  match m (kv_stateMachine kv) with
  | Some (a, sm) => Some (a, set_kv_stateMachine sm kv)
  | None => None
  end.

(** ** Sessions *)

Definition isDuplicateRequest (clientId requestId : Z) (kv : KVServer) : bool :=
  match map_get (kv_lastOperations kv) clientId with
  | Some operationContext => bool_decide (requestId <= MaxAppliedCommandId operationContext)
  | None => false
  end.

(** [kv.lastOperations[clientId].LastResponse], dereferenced: a missing context is a
    nil pointer. *)
Definition lastResponse (clientId : Z) : M KVServer CommandResponse :=
  let! kv := get in
  lift (LastResponse <$> map_get (kv_lastOperations kv) clientId).

(** ** Notification channels *)

Definition on_notify {A} (m : M (Notify CommandResponse) A) : M KVServer A := fun kv =>
  match m (kv_notify kv) with
  | Some (a, n) => Some (a, set_kv_notify n kv)
  | None => None
  end.

Definition getNotifyChan (index : Z) : M KVServer nat := on_notify (get_chan index).

Definition removeOutdatedNotifyChan (index : Z) : M KVServer unit := on_notify (remove_chan index).

(** ** The Command RPC *)

(** Under the read lock: the answer to a repeated write. *)
Definition Command_check (request : CommandRequest) : M KVServer (option CommandResponse) :=
  let! kv := get in
  if negb (bool_decide (Op request = OpGet)) &&
     isDuplicateRequest (ClientId request) (CommandId request) kv then
    let! last := lastResponse (ClientId request) in
    ret (Some (mkCommandResponse (r_Err last) (r_Value last)))
  else ret None.

(** The call of [rf.Start]: the index to wait for, or the answer. *)
Definition Command_start (request : CommandRequest) : M KVServer (CommandResponse + Z) :=
  let! started := on_rf (Start (mkCommand request)) in
  let '(index, _, isLeader) := started in
  ret (if isLeader : bool then inr index else inl (mkCommandResponse ErrWrongLeader "")).

(** Under the lock: the channel to wait on is [getNotifyChan index]. The two cases
    of the [select]; [None] when the channel is empty. *)
Definition Command_result (ch : nat) : M KVServer (option CommandResponse) :=
  let! result := on_notify (chan_receive ch) in
  ret ((fun r => mkCommandResponse (r_Err r) (r_Value r)) <$> result).
Definition Command_timeout : CommandResponse := mkCommandResponse ErrTimeout "".

(** ** applier *)

Definition needSnapshot (kv : KVServer) : bool :=
  bool_decide (kv_maxraftstate kv <> -1) &&
  bool_decide (kv_maxraftstate kv <= GetRaftStateSize (kv_rf kv)).

(** What [takeSnapshot] writes: a nil map is sent like an empty one. *)
Definition encodeSnapshot (kv : KVServer) : list byte :=
  Encode (kv_stateMachine kv) ++ Encode (default ∅ (kv_lastOperations kv)).

Definition takeSnapshot (index : Z) : M KVServer unit :=
  let! kv := get in
  on_rf (RaftNode.Snapshot index (encodeSnapshot kv)).

(** A variable whose decoding fails keeps its zero value, a nil map. *)
Definition decodeSnapshot (snapshot : list byte) : MemoryKV * GoMap Z OperationContext :=
  match Decode snapshot with
  | Some (stateMachine, rest) =>
      match Decode rest with
      | Some (lastOperations, _) => (stateMachine, Some lastOperations)
      | None => (stateMachine, None)
      end
  | None => (mkMemoryKV None, None)
  end.

Definition restoreSnapshot (snapshot : list byte) : M KVServer unit :=
  if decide (len snapshot = 0) then ret tt else
  let '(stateMachine, lastOperations) := decodeSnapshot snapshot in
  modify (fun kv => set_kv_lastOperations lastOperations (set_kv_stateMachine stateMachine kv)).

(** The duplicate test, the call of the state machine and the session update. *)
Definition applier_execute (command : Command) : M KVServer CommandResponse :=
  let r := c_CommandRequest command in
  let! kv := get in
  if negb (bool_decide (Op r = OpGet)) && isDuplicateRequest (ClientId r) (CommandId r) kv then
    lastResponse (ClientId r)
  else
    let! response := on_machine (applyLogToStateMachine command) in
    if decide (Op r <> OpGet) then
      let! kv := get in
      let! m := lift (map_set (kv_lastOperations kv) (ClientId r)
                        (mkOperationContext (CommandId r) response)) in
      do! modify (set_kv_lastOperations m);
      ret response
    else ret response.

(** One message of [applyCh]; [false] when [applier] blocks on a full channel,
    holding the lock. *)
Definition applier_message (message : ApplyMsg Command) : M KVServer bool :=
  if CommandValid message then
    let! kv := get in
    if decide (CommandIndex message <= kv_lastApplied kv) then ret true else
    do! modify (set_kv_lastApplied (CommandIndex message));
    let! command := lift (am_Command message) in
    let! response := applier_execute command in
    let! kv := get in
    let '(term, isLeader) := GetState (kv_rf kv) in
    let! sent :=
      (if isLeader && bool_decide (CommandTerm message = term) then
         let! ch := getNotifyChan (CommandIndex message) in
         on_notify (chan_send ch response)
       else ret true) in
    if (sent : bool) then
      let! kv := get in
      do! (if needSnapshot kv then takeSnapshot (CommandIndex message) else ret tt);
      ret true
    else ret false
  else if SnapshotValid message then
    let! installed := on_rf (CondInstallSnapshot (SnapshotTerm message) (SnapshotIndex message)
                               (Snapshot_ message)) in
    do! (if (installed : bool) then
           do! restoreSnapshot (Snapshot_ message);
           modify (set_kv_lastApplied (SnapshotIndex message))
         else ret tt);
    ret true
  else panic.

(** ** Life cycle *)

Definition Kill : M KVServer unit :=
  do! modify (set_kv_dead true);
  on_rf RaftNode.Kill.

Definition killed (kv : KVServer) : bool := kv_dead kv.

Definition StartKVServer (servers : nat) (me : Z) (persister : Persister) (maxraftstate : Z)
  : option KVServer :=
  match Make servers me persister with
  | Some rf =>
      snd <$> restoreSnapshot (ReadSnapshot persister)
        (mkKVServer 0 rf false maxraftstate 0 NewMemoryKV (Some ∅) no_chans)
  | None => None
  end.
End KVServer.
