(* ===== verification/KvInv.v ===== *)
(** * Invariants of the key/value server

    [kv_wf] is well-formedness of a server: its Raft peer is well-formed, its maps
    have been made, it has applied only committed entries, and a notification channel
    holds a response only for an index already applied. The last part is why
    [applier], which sends with the server's lock held, never blocks. *)
From Stdlib Require Import Strings.Byte.
From S2P Require Import Prelude Labgob Persister RaftTypes RaftNode RaftLog RaftSpec RaftSnapshot RaftInv Notify KvStateMachine KvServer.

Section kv.
Context `{Gob Z} `{Gob (list (Entry Command))} `{Rand} `{Alloc}.
Context `{Gob MemoryKV} `{Gob (gmap Z OperationContext)}.
Context `{!GobLaws Z} `{!GobLaws (list (Entry Command))}.
Context `{!GobLaws MemoryKV} `{!GobLaws (gmap Z OperationContext)}.
Implicit Types (kv : KVServer).

Record kv_wf kv : Prop := {
  kw_rf : wf (kv_rf kv);
  kw_durable : durable (kv_rf kv);
  kw_applied : kv_lastApplied kv <= commitIndex (kv_rf kv);
  kw_machine : usable (kv_stateMachine kv);
  kw_sessions : is_Some (kv_lastOperations kv);
  kw_notify : notify_wf (kv_notify kv) (kv_lastApplied kv)
}.

(** A snapshot some server took. *)
Definition is_snapshot (snapshot : list byte) : Prop :=
  exists (sm : MemoryKV) (ops : gmap Z OperationContext), usable sm /\ snapshot = Encode sm ++ Encode ops.

Lemma wp_on_rf {A} (m : M (Raft Command) A) kv (Q : A -> KVServer -> Prop) :
  wp m (kv_rf kv) (fun a rf => Q a (set_kv_rf rf kv)) -> wp (on_rf m) kv Q.
Proof. unfold wp, on_rf. by destruct (m (kv_rf kv)) as [[a rf]|]. Qed.

Lemma wp_on_machine {A} (m : M MemoryKV A) kv (Q : A -> KVServer -> Prop) :
  wp m (kv_stateMachine kv) (fun a sm => Q a (set_kv_stateMachine sm kv)) ->
  wp (on_machine m) kv Q.
Proof. unfold wp, on_machine. by destruct (m (kv_stateMachine kv)) as [[a sm]|]. Qed.

Lemma wp_on_notify {A} (m : M (Notify CommandResponse) A) kv (Q : A -> KVServer -> Prop) :
  wp m (kv_notify kv) (fun a n => Q a (set_kv_notify n kv)) -> wp (on_notify m) kv Q.
Proof. unfold wp, on_notify. by destruct (m (kv_notify kv)) as [[a n]|]. Qed.

(** The server around a Raft peer that made progress. *)
Lemma kv_wf_rf kv rf : kv_wf kv -> good (kv_rf kv) rf -> kv_wf (set_kv_rf rf kv).
Proof. intros [] [(? & ? & _) ?]. split; cbn; try done. lia. Qed.

(** ** Executing a command *)

(** The state [applier] changes when it executes a command, as plain maps. *)
Definition session_state kv : gmap string string * gmap Z OperationContext :=
  (contents (kv_stateMachine kv), default ∅ (kv_lastOperations kv)).

(** The specification of exactly-once execution. *)
Definition session_spec (command : Command)
  (st : gmap string string * gmap Z OperationContext)
  : gmap string string * gmap Z OperationContext * CommandResponse :=
  let '(m, ops) := st in
  let r := c_CommandRequest command in
  let run := kv_spec command m in
  if decide (Op r = OpGet) then (fst run, ops, snd run)
  else match ops !! ClientId r with
       | Some ctx =>
           if decide (CommandId r <= MaxAppliedCommandId ctx) then (m, ops, LastResponse ctx)
           else (fst run, <[ClientId r := mkOperationContext (CommandId r) (snd run)]> ops, snd run)
       | None => (fst run, <[ClientId r := mkOperationContext (CommandId r) (snd run)]> ops, snd run)
       end.

Definition same_but_sessions kv kv' : Prop :=
  exists sm ops, kv' = set_kv_lastOperations (Some ops) (set_kv_stateMachine sm kv) /\ usable sm.

Lemma wp_applier_execute command kv :
  usable (kv_stateMachine kv) -> is_Some (kv_lastOperations kv) ->
  wp (applier_execute command) kv (fun response kv' => same_but_sessions kv kv' /\
    session_spec command (session_state kv) = (session_state kv', response)).
Proof.
  intros Hu [ops Hops].
  assert (Hmiss : forall Q : CommandResponse -> KVServer -> Prop,
    (forall sm resp, usable sm ->
      kv_spec command (contents (kv_stateMachine kv)) = (contents sm, resp) ->
      (Op (c_CommandRequest command) = OpGet ->
         Q resp (set_kv_stateMachine sm kv)) /\
      (Op (c_CommandRequest command) <> OpGet ->
         Q resp (set_kv_lastOperations (Some (<[ClientId (c_CommandRequest command) :=
           mkOperationContext (CommandId (c_CommandRequest command)) resp]> ops))
           (set_kv_stateMachine sm kv)))) ->
    wp (let! response := on_machine (applyLogToStateMachine command) in
        if decide (Op (c_CommandRequest command) <> OpGet) then
          let! kv := get in
          let! m := lift (map_set (kv_lastOperations kv) (ClientId (c_CommandRequest command))
                       (mkOperationContext (CommandId (c_CommandRequest command)) response)) in
          do! modify (set_kv_lastOperations m);
          ret response
        else ret response) kv Q).
  { intros Q HQ. go. apply wp_on_machine.
    eapply wp_mono; [by apply wp_applyLogToStateMachine|]. intros resp sm [Hsm Hspec].
    destruct (HQ sm resp Hsm Hspec) as [Hget Hput].
    destruct (decide _) as [Hne|Heq]; go.
    - cbn. rewrite Hops. cbn. go. by apply Hput.
    - apply Hget. by apply dec_stable. }
  unfold applier_execute. go. unfold isDuplicateRequest, session_spec, session_state.
  rewrite Hops. cbn [default from_option map_get id].
  destruct (kv_spec command (contents (kv_stateMachine kv))) as [m1 resp1].
  cbn [fst snd].
  destruct (decide (Op (c_CommandRequest command) = OpGet)) as [Hg|Hg].
  - rewrite bool_decide_eq_true_2 by done. cbn [negb andb]. apply Hmiss.
    intros sm resp Hsm [= -> ->]. split; [intros _|done]. split.
    + exists sm, ops. split; [|done]. rewrite <-Hops. by destruct kv.
    + cbn. by rewrite Hops.
  - rewrite bool_decide_eq_false_2 by done. cbn [negb andb].
    destruct (ops !! _) as [ctx|] eqn:Ectx; [case_bool_decide as Hle|].
    + rewrite decide_True by done. unfold lastResponse. go. rewrite Hops. cbn. rewrite Ectx. cbn. go.
      split; [exists (kv_stateMachine kv), ops; split; [rewrite <-Hops; by destruct kv|done]|].
      by rewrite Hops.
    + rewrite decide_False by done. apply Hmiss. intros sm resp Hsm [= -> ->].
      split; [done|intros _]. by split; [eexists _, _|].
    + apply Hmiss. intros sm resp Hsm [= -> ->].
      split; [done|intros _]. by split; [eexists _, _|].
Qed.

(** ** One message *)

(** What Raft promises about the messages of [applyCh]: commands are committed
    entries, snapshots were taken by a server. *)
Definition message_ok (message : ApplyMsg Command) kv : Prop :=
  if CommandValid message then
    is_Some (am_Command message) /\ CommandIndex message <= commitIndex (kv_rf kv)
  else SnapshotValid message = true /\ is_snapshot (Snapshot_ message).

(** [kv'] is [kv] after the new command of [message]. *)
Definition executed (message : ApplyMsg Command) kv kv' : Prop :=
  exists command response, am_Command message = Some command /\
    session_spec command (session_state kv) = (session_state kv', response) /\
    kv_lastApplied kv' = CommandIndex message /\
    commitIndex (kv_rf kv) <= commitIndex (kv_rf kv') /\
    (GetState (kv_rf kv) = (CommandTerm message, true) ->
       pending (kv_notify kv') (CommandIndex message) response).

Lemma wp_takeSnapshot index kv :
  kv_wf kv -> index <= commitIndex (kv_rf kv) ->
  wp (takeSnapshot index) kv (fun _ kv' => exists rf, kv' = set_kv_rf rf kv /\ good (kv_rf kv) rf).
Proof.
  intros Hwf Hle. unfold takeSnapshot. go. apply wp_on_rf.
  eapply wp_mono; [apply Snapshot_good; [apply Hwf|apply Hwf|done]|]. intros [] rf Hg. by exists rf.
Qed.

(** The send of [applier] finds room in the buffer. *)
Lemma wp_notify_handler (b : bool) index response kv a :
  notify_wf (kv_notify kv) a -> a < index ->
  wp (if b then let! ch := getNotifyChan index in on_notify (chan_send ch response)
      else ret true) kv
    (fun sent kv' => sent = true /\ exists n, kv' = set_kv_notify n kv /\ notify_wf n index /\
       (b = true -> pending n index response)).
Proof.
  intros Hn Hlt. destruct b; go.
  - unfold getNotifyChan. apply wp_on_notify.
    pose proof (wp_notify index response _ a Hn Hlt) as Hwp. unfold wp, bind in Hwp. unfold wp at 1.
    destruct (get_chan index (kv_notify kv)) as [[ch n]|]; [|done].
    apply wp_on_notify. cbn. unfold wp. destruct (chan_send ch response n) as [[sent n']|]; [|done].
    destruct Hwp as (-> & Hw & Hp). split; [done|]. exists n'. split_and!; [by destruct kv|done|done].
  - split; [done|]. exists (kv_notify kv). split_and!; [by destruct kv| |done].
    eapply notify_wf_applied; [done|lia].
Qed.

Lemma applier_command message kv :
  kv_wf kv -> message_ok message kv -> CommandValid message = true ->
  kv_lastApplied kv < CommandIndex message ->
  wp (applier_message message) kv (fun sent kv' =>
    sent = true /\ kv_wf kv' /\ executed message kv kv').
Proof.
  intros Hwf Hok Hv Hnew. unfold message_ok in Hok. rewrite Hv in Hok.
  destruct Hok as [[command Hcmd] Hci]. unfold applier_message. rewrite Hv. go.
  rewrite decide_False by lia. go. rewrite Hcmd. go.
  eapply wp_mono; [apply wp_applier_execute; cbn; apply Hwf|].
  intros response kv1 [(sm & ops & -> & Hu) Hspec]. go.
  unfold GetState. cbv beta iota. go.
  eapply wp_mono; [eapply wp_notify_handler; [apply (kw_notify _ Hwf)|done]|].
  intros sent kv2 (-> & n & -> & Hn & Hnot). go.
  set (kv2 := set_kv_notify _ _) in *.
  assert (Hwf2 : kv_wf kv2) by (destruct Hwf; split; cbn; eauto).
  assert (Hdone : forall rf, good (kv_rf kv2) rf ->
    true = true /\ kv_wf (set_kv_rf rf kv2) /\ executed message kv (set_kv_rf rf kv2)).
  { intros rf Hg. split; [done|]. split; [by apply kv_wf_rf|].
    exists command, response. split_and!; [done|done|done|apply Hg|].
    intros [= Ht Hl]. apply Hnot. cbn. by rewrite Ht, Hl, bool_decide_eq_true_2. }
  destruct (needSnapshot kv2); go.
  - eapply wp_mono; [by apply wp_takeSnapshot|]. intros [] kv3 (rf & -> & Hg). go. by apply Hdone.
  - assert (set_kv_rf (kv_rf kv2) kv2 = kv2) as E by (by destruct kv2). rewrite <-E. apply Hdone.
    split; [|lia]. split_and!; try apply Hwf2; [by apply vote_mono_refl|done].
Qed.

Lemma decode_snapshot_taken (sm : MemoryKV) (ops : gmap Z OperationContext) :
  decodeSnapshot (Encode sm ++ Encode ops) = (sm, Some ops).
Proof. unfold decodeSnapshot. by rewrite Decode_Encode, Decode_Encode_nil. Qed.

Lemma snapshot_nonempty (sm : MemoryKV) (ops : gmap Z OperationContext) : len (Encode sm ++ Encode ops) <> 0.
Proof. pose proof (Encode_nonempty sm). destruct (Encode sm); [done|]. simpl. lia. Qed.

Lemma wp_restoreSnapshot (sm : MemoryKV) (ops : gmap Z OperationContext) kv (Q : unit -> KVServer -> Prop) :
  Q tt (set_kv_lastOperations (Some ops) (set_kv_stateMachine sm kv)) ->
  wp (restoreSnapshot (Encode sm ++ Encode ops)) kv Q.
Proof.
  intros HQ. unfold restoreSnapshot. rewrite decide_False by apply snapshot_nonempty.
  rewrite decode_snapshot_taken. by go.
Qed.

Lemma applier_snapshot message kv :
  kv_wf kv -> message_ok message kv -> CommandValid message = false ->
  wp (applier_message message) kv (fun sent kv' => sent = true /\ kv_wf kv' /\
    (commitIndex (kv_rf kv) < SnapshotIndex message -> kv_lastApplied kv' = SnapshotIndex message /\
       forall (sm : MemoryKV) (ops : gmap Z OperationContext), Snapshot_ message = Encode sm ++ Encode ops ->
         session_state kv' = (contents sm, ops))).
Proof.
  intros Hwf Hok Hv. unfold message_ok in Hok. rewrite Hv in Hok.
  destruct Hok as [Hs (sm & ops & Hu & Hsnap)]. unfold applier_message. rewrite Hv, Hs. go.
  apply wp_on_rf. pose proof (kw_rf _ Hwf) as Hrf.
  pose proof (CondInstallSnapshot_good (SnapshotTerm message) (SnapshotIndex message)
    (Snapshot_ message) _ Hrf (kw_durable _ Hwf)) as Hgood.
  apply wp_runs in Hgood as (b & rf & Hrun & Hg). unfold wp at 1. rewrite Hrun.
  assert (Hb : if b then commitIndex (kv_rf kv) < SnapshotIndex message /\
                         SnapshotIndex message <= commitIndex rf
               else SnapshotIndex message <= commitIndex (kv_rf kv)).
  { assert (Hwp : wp (CondInstallSnapshot (SnapshotTerm message) (SnapshotIndex message)
      (Snapshot_ message)) (kv_rf kv) (fun b rf => if (b : bool)
        then commitIndex (kv_rf kv) < SnapshotIndex message /\ SnapshotIndex message <= commitIndex rf
        else SnapshotIndex message <= commitIndex (kv_rf kv))).
    { apply wp_CondInstallSnapshot; [apply Hrf|apply Hrf|done|]. intros Hlt. cbn. lia. }
    by eapply wp_run in Hwp; [|exact Hrun]. }
  pose proof (kv_wf_rf _ _ Hwf Hg) as Hwf'. pose proof (kw_applied _ Hwf) as Ha.
  destruct b; go.
  - rewrite Hsnap. apply wp_restoreSnapshot. go. split; [done|]. split.
    + destruct Hwf'. split; cbn; try done; try lia.
      eapply notify_wf_applied; [apply Hwf|lia].
    + intros _. split; [done|]. intros sm' ops' E.
      apply (f_equal decodeSnapshot) in E. rewrite !decode_snapshot_taken in E. by simplify_eq.
  - split_and!; [done|done|lia].
Qed.

(** Every message is handled: nothing panics and the lock is released. *)
Lemma wp_applier_message message kv :
  kv_wf kv -> message_ok message kv ->
  wp (applier_message message) kv (fun sent kv' => sent = true /\ kv_wf kv').
Proof.
  intros Hwf Hok. destruct (CommandValid message) eqn:Hv.
  - destruct (decide (kv_lastApplied kv < CommandIndex message)) as [Hlt|Hge].
    + eapply wp_mono; [by apply applier_command|]. intros ? ? (? & ? & _). done.
    + unfold applier_message. rewrite Hv. go. rewrite decide_True by lia. by go.
  - eapply wp_mono; [by apply applier_snapshot|]. intros ? ? (? & ? & _). done.
Qed.

(** ** Everything that happens in a server *)

(** The critical sections of a [Command] handler, a message for [applier], and what
    the goroutines of the Raft peer do. *)
Inductive KvEvent :=
  | KvCheck (request : CommandRequest)
  | KvStart (request : CommandRequest)
  | KvWait (index : Z)
  | KvReceive (ch : nat)
  | KvRelease (index : Z)
  | KvApply (message : ApplyMsg Command)
  | KvRaft (ev : Event Command)
  | KvKill.

Definition kv_after {A} (m : M KVServer A) kv : option KVServer := snd <$> m kv.

Definition kv_run (ev : KvEvent) kv : option KVServer :=
  match ev with
  | KvCheck request => kv_after (Command_check request) kv
  | KvStart request => kv_after (Command_start request) kv
  | KvWait index => kv_after (getNotifyChan index) kv
  | KvReceive ch => kv_after (Command_result ch) kv
  | KvRelease index => kv_after (removeOutdatedNotifyChan index) kv
  | KvApply message => kv_after (applier_message message) kv
  | KvRaft ev => (fun rf => set_kv_rf rf kv) <$> run ev (kv_rf kv)
  | KvKill => kv_after Kill kv
  end.

(** A handler receives on a channel it was given; the Raft peer is not restarted
    under the server. *)
Definition kv_ok (ev : KvEvent) kv : Prop :=
  match ev with
  | KvReceive ch => (ch < length (n_bufs (kv_notify kv)))%nat
  | KvApply message => message_ok message kv
  | KvRaft ev => ev <> EvRestart /\ ok ev (kv_rf kv)
  | _ => True
  end.

Lemma wp_kv_after {A} (m : M KVServer A) kv (P : KVServer -> Prop) :
  wp m kv (fun _ kv' => P kv') -> exists kv', kv_after m kv = Some kv' /\ P kv'.
Proof.
  intros (a & kv' & Hm & HP)%wp_runs. exists kv'. unfold kv_after. by rewrite Hm.
Qed.

Lemma wp_Command_check request kv :
  wp (Command_check request) kv (fun answer kv' => kv' = kv /\
    (Op request <> OpGet -> forall ctx, map_get (kv_lastOperations kv) (ClientId request) = Some ctx ->
       CommandId request <= MaxAppliedCommandId ctx -> answer = Some (LastResponse ctx)) /\
    (is_Some answer -> Op request <> OpGet /\
       isDuplicateRequest (ClientId request) (CommandId request) kv = true)).
Proof.
  unfold Command_check. go. unfold isDuplicateRequest.
  destruct (map_get _ _) as [ctx|] eqn:E; [|rewrite andb_false_r; go; split_and!; [done|done|]].
  2:{ intros [? [=]]. }
  destruct (decide (Op request = OpGet)) as [Hg|Hg].
  - rewrite bool_decide_eq_true_2 by done. cbn. go. split_and!; [done|done|]. intros [? [=]].
  - rewrite bool_decide_eq_false_2 by done. cbn [negb andb]. case_bool_decide as Hle.
    + unfold lastResponse. go. rewrite E. cbn. go. split_and!; [done| |done].
      intros _ ctx' [= <-] _. by destruct (LastResponse ctx).
    + go. split_and!; [done| |intros [? [=]]]. intros _ ctx' [= <-]. done.
Qed.

Lemma kv_wf_notify kv n :
  kv_wf kv -> notify_wf n (kv_lastApplied kv) -> kv_wf (set_kv_notify n kv).
Proof. intros [] Hn. by split. Qed.

Lemma kv_run_wf ev kv : kv_wf kv -> kv_ok ev kv -> exists kv', kv_run ev kv = Some kv' /\ kv_wf kv'.
Proof.
  intros Hwf Hok. destruct ev as [request|request|index|ch|index|message|ev|]; simpl kv_run.
  - apply wp_kv_after. eapply wp_mono; [apply wp_Command_check|]. by intros a kv' [-> _].
  - apply wp_kv_after. unfold Command_start. go. apply wp_on_rf.
    eapply wp_mono; [apply Start_good; apply Hwf|]. intros [[i t] l] rf Hg. go. by apply kv_wf_rf.
  - apply wp_kv_after, wp_on_notify. eapply wp_mono; [apply wp_get_chan, Hwf|].
    intros ch n [Hn _]. by apply kv_wf_notify.
  - apply wp_kv_after. unfold Command_result. go. apply wp_on_notify.
    eapply wp_mono; [apply wp_chan_receive; [apply Hwf|done]|]. intros r n [Hn _]. go.
    by apply kv_wf_notify.
  - apply wp_kv_after, wp_on_notify. eapply wp_mono; [apply wp_remove_chan, Hwf|].
    intros [] n Hn. by apply kv_wf_notify.
  - apply wp_kv_after. eapply wp_mono; [by apply wp_applier_message|]. by intros b kv' [_ ?].
  - destruct Hok as [Hne Hok]. destruct (run_good ev (kv_rf kv)) as (rf & -> & Hk & Hc); try apply Hwf; [done|].
    eexists. split; [done|]. apply kv_wf_rf; [done|]. split; auto.
  - apply wp_kv_after. unfold Kill. go. apply wp_on_rf.
    eapply wp_mono; [apply Kill_good; apply Hwf|]. intros [] rf Hg.
    apply (kv_wf_rf _ rf) in Hwf as []; [|done]. by split.
Qed.
End kv.
