(* ===== verification/KvProps.v ===== *)
(** * Properties of the key/value server

    Safety of every handler, exactly-once execution of a log with retries, and
    recovery from snapshots, with witnesses on a concrete server. *)
From Stdlib Require Import Strings.Byte.
From S2P Require Import Prelude Labgob Persister RaftTypes RaftNode RaftLog RaftSpec RaftSnapshot RaftInv RaftProps Notify KvStateMachine KvServer KvInv.

(** ** Logs with retries *)

Definition is_write (c : Command) : Prop := Op (c_CommandRequest c) <> OpGet.
#[export] Instance is_write_dec c : Decision (is_write c).
Proof. unfold is_write. apply _. Defined.

Definition same_command (c d : Command) : Prop :=
  ClientId (c_CommandRequest c) = ClientId (c_CommandRequest d) /\
  CommandId (c_CommandRequest c) = CommandId (c_CommandRequest d).
#[export] Instance same_command_dec c d : Decision (same_command c d).
Proof. unfold same_command. apply _. Defined.

(** A write of the same client with an identifier at least as large. *)
Definition supersedes (c d : Command) : Prop :=
  is_write d /\ ClientId (c_CommandRequest d) = ClientId (c_CommandRequest c) /\
  CommandId (c_CommandRequest c) <= CommandId (c_CommandRequest d).

#[export] Instance supersedes_dec c d : Decision (supersedes c d).
Proof. unfold supersedes. apply _. Defined.

(** [c] is a retry of a write in [pre]. *)
Definition retry_of (pre : list Command) (c : Command) : Prop :=
  Exists (fun d => is_write d /\ same_command c d) pre.
#[export] Instance retry_of_dec pre c : Decision (retry_of pre c).
Proof. unfold retry_of. apply _. Defined.

(** The writes of a log, each at its first occurrence. *)
Fixpoint first_writes (pre l : list Command) : list Command :=
  match l with
  | [] => []
  | c :: l' =>
      if decide (is_write c /\ ~ retry_of pre c) then c :: first_writes (pre ++ [c]) l'
      else first_writes (pre ++ [c]) l'
  end.

(** The writes of a log whose identifier is larger than those of all earlier writes of the
    client. *)
Fixpoint fresh_writes (pre l : list Command) : list Command :=
  match l with
  | [] => []
  | c :: l' =>
      if decide (is_write c /\ ~ Exists (supersedes c) pre) then c :: fresh_writes (pre ++ [c]) l'
      else fresh_writes (pre ++ [c]) l'
  end.

(** A client sends its next command only after the answer to the one before it: a
    write that comes after a later write of the same client is a retry. *)
Definition client_ordered (l : list Command) : Prop :=
  forall pre c post, l = pre ++ c :: post -> is_write c ->
    Exists (supersedes c) pre -> retry_of pre c.

(** Running commands on the bare map. *)
Definition kv_exec (l : list Command) (m : gmap string string) : gmap string string :=
  foldl (fun m c => fst (kv_spec c m)) m l.

Definition sessions_exec (l : list Command) st :=
  foldl (fun st c => fst (session_spec c st)) st l.

Lemma first_writes_snoc pre l c :
  first_writes pre (l ++ [c]) = first_writes pre l ++
    (if decide (is_write c /\ ~ retry_of (pre ++ l) c) then [c] else []).
Proof.
  revert pre. induction l as [|d l IH]; intros pre; simpl.
  - rewrite app_nil_r. done.
  - rewrite IH, <-app_assoc. simpl. by destruct (decide (is_write d /\ _)).
Qed.

Lemma fresh_writes_snoc pre l c :
  fresh_writes pre (l ++ [c]) = fresh_writes pre l ++
    (if decide (is_write c /\ ~ Exists (supersedes c) (pre ++ l)) then [c] else []).
Proof.
  revert pre. induction l as [|d l IH]; intros pre; simpl.
  - rewrite app_nil_r. done.
  - rewrite IH, <-app_assoc. simpl. by destruct (decide (is_write d /\ _)).
Qed.

Lemma fresh_writes_elem l c : c ∈ fresh_writes [] l -> is_write c /\ c ∈ l.
Proof.
  induction l as [|d l IH] using rev_ind; [by intros ?%elem_of_nil|]. rewrite fresh_writes_snoc, !elem_of_app.
  intros [?%IH|Hc]; [naive_solver|]. case_decide as Hd; [|by apply elem_of_nil in Hc].
  apply list_elem_of_singleton in Hc as ->. split; [apply Hd|]. right. by left.
Qed.

(** No command is among them twice. *)
Definition request_id (c : Command) : Z * Z := (ClientId (c_CommandRequest c), CommandId (c_CommandRequest c)).
Lemma fresh_writes_once l : NoDup (request_id <$> fresh_writes [] l).
Proof.
  induction l as [|c l IH] using rev_ind; [constructor|]. rewrite fresh_writes_snoc, fmap_app. apply NoDup_app.
  case_decide as Hc; [|split_and!; [done|by intros ? _ ?%elem_of_nil|constructor]].
  split_and!; [done| |apply NoDup_singleton]. intros x (d&->&[Hw Hd]%fresh_writes_elem)%list_elem_of_fmap Hx.
  apply list_elem_of_singleton in Hx. injection Hx as Hcl Hid. apply (proj2 Hc), Exists_exists. exists d.
  split; [done|]. split_and!; [done|done|lia].
Qed.

(** With the commands of each client in order, they are the first occurrences. *)
Lemma fresh_writes_ordered l : client_ordered l -> fresh_writes [] l = first_writes [] l.
Proof.
  induction l as [|c l IH] using rev_ind; intros Hord; [done|]. rewrite fresh_writes_snoc, first_writes_snoc. cbn [app]. f_equal.
  - apply IH. intros pre d post ->. apply (Hord pre d (post ++ [c])). by rewrite <-app_assoc.
  - assert (is_write c -> retry_of l c <-> Exists (supersedes c) l) as Hrs.
    { intros Hw. split; [|by apply (Hord l c [])]. intros Hr. eapply Exists_impl; [exact Hr|]. intros d (Hd & Hcl & Hid).
      split_and!; [done|done|lia]. }
    repeat case_decide; naive_solver.
Qed.

Lemma kv_exec_app l l' m : kv_exec (l ++ l') m = kv_exec l' (kv_exec l m).
Proof. apply foldl_app. Qed.

(** The session table after a log: for each client the largest identifier. *)
Definition table_of (l : list Command) (ops : gmap Z OperationContext) : Prop :=
  forall cl, match ops !! cl with
    | Some ctx => Exists (fun d => is_write d /\ ClientId (c_CommandRequest d) = cl /\
                                   CommandId (c_CommandRequest d) = MaxAppliedCommandId ctx) l /\
                  Forall (fun d => is_write d -> ClientId (c_CommandRequest d) = cl ->
                                   CommandId (c_CommandRequest d) <= MaxAppliedCommandId ctx) l
    | None => Forall (fun d => is_write d -> ClientId (c_CommandRequest d) <> cl) l
    end.

(** A get changes neither part of the state. *)
Lemma session_spec_get c m ops : ~ is_write c -> fst (session_spec c (m, ops)) = (m, ops).
Proof.
  intros Hw. unfold is_write in Hw. apply dec_stable in Hw. unfold session_spec, kv_spec.
  rewrite Hw. done.
Qed.

Lemma session_spec_write c m ops l :
  is_write c -> table_of l ops ->
  (Exists (supersedes c) l /\ fst (session_spec c (m, ops)) = (m, ops)) \/
  (~ Exists (supersedes c) l /\ exists resp, fst (session_spec c (m, ops)) =
     (fst (kv_spec c m), <[ClientId (c_CommandRequest c) :=
        mkOperationContext (CommandId (c_CommandRequest c)) resp]> ops)).
Proof.
  intros Hw Ht. unfold session_spec. rewrite decide_False by done.
  specialize (Ht (ClientId (c_CommandRequest c))).
  destruct (ops !! _) as [ctx|]; [destruct (decide _) as [Hle|Hgt]|].
  - left. split; [|done]. destruct Ht as [Hex _]. eapply Exists_impl; [exact Hex|].
    intros d (Hd & Hc & Hi). unfold supersedes. split_and!; [done|done|lia].
  - right. split; [|by eexists]. intros (d & Hd & Hdw & Hc & Hi)%Exists_exists.
    destruct Ht as [_ Hall]. rewrite Forall_forall in Hall. specialize (Hall d Hd Hdw Hc). lia.
  - right. split; [|by eexists]. intros (d & Hd & Hdw & Hc & _)%Exists_exists.
    rewrite Forall_forall in Ht. by apply (Ht d Hd Hdw).
Qed.

Lemma table_of_new l c ops resp :
  is_write c -> table_of l ops -> ~ Exists (supersedes c) l ->
  table_of (l ++ [c]) (<[ClientId (c_CommandRequest c) :=
    mkOperationContext (CommandId (c_CommandRequest c)) resp]> ops).
Proof.
  intros Hw Ht Hno cl. destruct (decide (ClientId (c_CommandRequest c) = cl)) as [<-|Hne].
  - rewrite lookup_insert_eq. cbn. rewrite Exists_app, Forall_app. split.
    + right. by constructor.
    + split; [|by repeat constructor]. apply Forall_forall. intros d Hd Hdw Hc.
      destruct (decide (CommandId (c_CommandRequest d) <= CommandId (c_CommandRequest c))); [done|].
      exfalso. apply Hno, Exists_exists. exists d. unfold supersedes. split_and!; [done|done|done|lia].
  - rewrite lookup_insert_ne by done. specialize (Ht cl). destruct (ops !! cl) as [ctx|].
    + rewrite Exists_app, Forall_app. destruct Ht as [? ?]. split_and!; [by left|done|].
      by repeat constructor.
    + apply Forall_app. split; [done|]. by repeat constructor.
Qed.

Lemma table_of_old l c ops :
  table_of l ops -> (is_write c -> Exists (supersedes c) l) -> table_of (l ++ [c]) ops.
Proof.
  intros Ht Hs cl. specialize (Ht cl). destruct (ops !! cl) as [ctx|].
  - destruct Ht as [Hex Hall]. rewrite Exists_app, Forall_app. split_and!; [by left|done|].
    repeat constructor. intros Hw <-.
    specialize (Hs Hw). apply Exists_exists in Hs as (d & Hd & Hdw & Hc & Hi).
    rewrite Forall_forall in Hall. specialize (Hall d Hd Hdw Hc). lia.
  - apply Forall_app. split; [done|]. repeat constructor. intros Hw <-.
    specialize (Hs Hw). apply Exists_exists in Hs as (d & Hd & Hdw & Hc & Hi).
    rewrite Forall_forall in Ht. by apply (Ht d Hd Hdw).
Qed.

(** With sessions, a log has the effect of its fresh writes. *)
Lemma sessions_exec_fresh l :
  exists ops, sessions_exec l (∅, ∅) = (kv_exec (fresh_writes [] l) ∅, ops) /\ table_of l ops.
Proof.
  induction l as [|c l (ops & Hex & Ht)] using rev_ind.
  - exists ∅. split; [done|]. intros cl. rewrite lookup_empty. constructor.
  - unfold sessions_exec. rewrite foldl_app. fold (sessions_exec l (∅, ∅)). rewrite Hex.
    rewrite fresh_writes_snoc, kv_exec_app. cbn [foldl app].
    destruct (decide (is_write c)) as [Hw|Hw].
    + destruct (session_spec_write c (kv_exec (fresh_writes [] l) ∅) ops l Hw Ht)
        as [[Hs ->]|(Hs & resp & ->)].
      * rewrite decide_False by tauto. exists ops. split; [done|]. by apply table_of_old.
      * rewrite decide_True by tauto. eexists. split; [reflexivity|]. by apply table_of_new.
    + rewrite session_spec_get by done. rewrite decide_False by tauto.
      exists ops. split; [done|]. by apply table_of_old.
Qed.

(** In order, a log with retries has the effect of its first writes. *)
Lemma sessions_exec_once l : client_ordered l ->
  exists ops, sessions_exec l (∅, ∅) = (kv_exec (first_writes [] l) ∅, ops) /\ table_of l ops.
Proof. intros Hord. rewrite <-(fresh_writes_ordered l Hord). apply sessions_exec_fresh. Qed.

(** ** Servers that apply a log *)
Section servers.
Context `{Gob Z} `{Gob (list (Entry Command))} `{Rand} `{Alloc}.
Context `{Gob MemoryKV} `{Gob (gmap Z OperationContext)}.
Context `{!GobLaws Z} `{!GobLaws (list (Entry Command))}.
Context `{!GobLaws MemoryKV} `{!GobLaws (gmap Z OperationContext)}.
Implicit Types (kv : KVServer).

(** The messages [applyCh] delivers for the entries from index [i] on. *)
Definition command_message (i : Z) (tc : Z * Command) : ApplyMsg Command :=
  applyMsg (mkEntry Command i (fst tc) (Some (snd tc))).
Fixpoint command_messages (i : Z) (l : list (Z * Command)) : list (ApplyMsg Command) :=
  match l with
  | [] => []
  | tc :: l' => command_message i tc :: command_messages (i + 1) l'
  end.

Lemma wp_apply_messages l kv :
  kv_wf kv -> kv_lastApplied kv + len l <= commitIndex (kv_rf kv) ->
  wp (forM (command_messages (kv_lastApplied kv + 1) l)
        (fun message => do! applier_message message; ret tt)) kv
    (fun _ kv' => kv_wf kv' /\ kv_lastApplied kv' = kv_lastApplied kv + len l /\
       session_state kv' = sessions_exec (snd <$> l) (session_state kv)).
Proof.
  revert kv. induction l as [|[t c] l IH]; intros kv Hwf Hc.
  - apply wp_ret. split_and!; [done|simpl; lia|done].
  - cbn [length] in *. cbn [command_messages forM]. go. eapply wp_mono.
    { apply applier_command; [done| |done|cbn; lia]. split; [by eexists|cbn; lia]. }
    intros sent kv1 (_ & Hwf1 & (cmd & resp & [= <-] & Hs & Hl & Hci & _)). go. cbn in Hl.
    rewrite <-Hl. eapply wp_mono; [apply IH; [done|lia]|].
    intros [] kv2 (Hwf2 & Hl2 & Hs2). split_and!; [done|lia|].
    rewrite Hs2. change (snd <$> (t, c) :: l) with (c :: (snd <$> l)).
    unfold sessions_exec. cbn [foldl]. by rewrite Hs.
Qed.

Lemma StartKVServer_fresh n id maxraftstate :
  0 <= id < Z.of_nat n ->
  exists kv, StartKVServer n id MakePersister maxraftstate = Some kv /\ kv_wf kv /\
    session_state kv = (∅, ∅).
Proof.
  intros Hid.
  destruct (Make_spec n id MakePersister 0 (-1) [@zeroEntry Command]) as (rf & Hm & Hf);
    [by left|apply wf_zero|].
  destruct (Make_initial n id rf Hid Hm) as [Hwf Hd].
  unfold StartKVServer. rewrite Hm. eexists. split; [reflexivity|]. split; [|done].
  split; cbn; [done|done| |by eexists|by eexists|apply no_chans_wf].
  pose proof (wf_first _ Hwf). pose proof (wf_commit _ Hwf). lia.
Qed.

(** C9: exactly-once semantics. A well-formed server whose map and session table are empty
    and that reads a committed log from [applyCh] handles every message without panic or
    deadlock, and its map is then the one obtained by executing, in order, exactly the
    writes whose command id is larger than those of all earlier writes of their client: no
    write twice, however often retries put it in the log, and no write of a log in which
    the first occurrences of each client's ids are in increasing order ([client_ordered])
    not at all: then every write once, at its first occurrence. That clerks fill the log in
    this order is not proved: it follows if a clerk sends its next command only when the one
    before has been applied, but a clerk can be answered with the reply of another command
    ([kv_reply_of_other_command]). *)
Theorem kv_exactly_once l kv :
  kv_wf kv -> session_state kv = (∅, ∅) ->
  kv_lastApplied kv + len l <= commitIndex (kv_rf kv) ->
  wp (forM (command_messages (kv_lastApplied kv + 1) l)
        (fun message => do! applier_message message; ret tt)) kv
    (fun _ kv' => contents (kv_stateMachine kv') = kv_exec (fresh_writes [] (snd <$> l)) ∅ /\
       NoDup (request_id <$> fresh_writes [] (snd <$> l)) /\
       (client_ordered (snd <$> l) ->
          contents (kv_stateMachine kv') = kv_exec (first_writes [] (snd <$> l)) ∅) /\
       kv_lastApplied kv' = kv_lastApplied kv + len l).
Proof.
  intros Hwf Hs Hc. eapply wp_mono; [by apply wp_apply_messages|].
  intros [] kv' (_ & Hl & Hst). rewrite Hs in Hst.
  destruct (sessions_exec_fresh (snd <$> l)) as (ops & Hex & _). rewrite Hex in Hst.
  unfold session_state in Hst. injection Hst as Hst _. split_and!; [done|apply fresh_writes_once| |done].
  intros Hord. by rewrite <-fresh_writes_ordered.
Qed.

(** No critical section of a key/value server panics, whatever the order in which
    handlers, [applier] and the Raft peer run, and each keeps the server well-formed. *)
Theorem kv_server_safe ev kv :
  kv_wf kv -> kv_ok ev kv -> exists kv', kv_run ev kv = Some kv' /\ kv_wf kv'.
Proof. apply kv_run_wf. Qed.

(** C22: [applier] handles a new command completely: it never blocks on the
    notification channel although it sends with the lock held, the map and the
    session table change as the exactly-once specification says, and the leader of
    the entry's term leaves the response where the waiting handler receives it. *)
Theorem applier_notifies message kv :
  kv_wf kv -> message_ok message kv -> CommandValid message = true ->
  kv_lastApplied kv < CommandIndex message ->
  wp (applier_message message) kv (fun sent kv' => sent = true /\ executed message kv kv').
Proof.
  intros Hwf Hok Hv Hnew. eapply wp_mono; [by apply applier_command|].
  intros sent kv' (Hs & _ & Hex). done.
Qed.

(** C21: a snapshot is a recovery point. A server that restarts on the persister left
    by [takeSnapshot] has the same map and session table, and its Raft peer resumes
    applying right after the snapshot's index with the rest of the log. *)
Theorem kv_snapshot_recovery index kv :
  kv_wf kv -> first_index (logs (kv_rf kv)) < index <= commitIndex (kv_rf kv) ->
  wp (takeSnapshot index) kv (fun _ kv' => exists kv'',
    StartKVServer (peers (kv_rf kv)) (me (kv_rf kv)) (persister (kv_rf kv'))
      (kv_maxraftstate kv) = Some kv'' /\
    session_state kv'' = session_state kv /\
    lastApplied (kv_rf kv'') = index /\
    (forall i, index < i -> entry_at (logs (kv_rf kv'')) i = entry_at (logs (kv_rf kv)) i) /\
    currentTerm (kv_rf kv'') = currentTerm (kv_rf kv) /\
    votedFor (kv_rf kv'') = votedFor (kv_rf kv)).
Proof.
  intros Hwf [Hlo Hhi]. pose proof (kw_rf _ Hwf) as Hrf. destruct (wf_commit _ Hrf) as [_ Hlast].
  unfold takeSnapshot. go. apply wp_on_rf.
  apply wp_Snapshot; [apply Hrf|lia|lia|]. intros t _ _. cbn [kv_rf set_kv_rf].
  set (rf1 := saved_with _ _).
  assert (Hw : wf_logs (logs rf1)) by (apply compact_wf; [apply Hrf|lia]).
  destruct (durable_Make (peers (kv_rf kv)) (me (kv_rf kv)) rf1 Hw (durable_saved_with _ _))
    as (rf2 & Hm & []).
  assert (Hsnap : ReadSnapshot (persister rf1) = encodeSnapshot kv).
  { unfold ReadSnapshot. rewrite clone_id. apply clone_id. }
  unfold StartKVServer. rewrite Hm, Hsnap. unfold encodeSnapshot, restoreSnapshot.
  rewrite decide_False by apply snapshot_nonempty. rewrite decode_snapshot_taken. eexists. split; [reflexivity|]. cbn.
  rewrite fresh_applied, fresh_logs, fresh_term, fresh_vote.
  split_and!; try done. intros i Hi. apply compact_entry; lia.
Qed.
End servers.

(** ** A server with a write, an append and a retry of the append in its log *)
Module Example_kv.
Import Example3.
Definition put : Command := mkCommand (mkCommandRequest "x" "a" OpPut 7 0).
Definition app : Command := mkCommand (mkCommandRequest "x" "b" OpAppend 7 1).
Definition log : list (Z * Command) := [(1, put); (1, app); (1, app)].
Definition rf : Raft Command :=
  saved (mkRaft 3 MakePersister 0 false StateLeader 1 0
    [zeroEntry; mkEntry _ 1 1 (Some put); mkEntry _ 2 1 (Some app); mkEntry _ 3 1 (Some app)]
    3 0 [4; 4; 4] [3; 3; 3] Stopped (Armed 125) 1 []).
Definition kv : KVServer := mkKVServer 0 rf false (-1) 0 NewMemoryKV (Some ∅) no_chans.

Lemma kv_ok0 : kv_wf kv.
Proof.
  split; cbn; [|apply durable_saved|lia|by eexists|by eexists|apply no_chans_wf].
  split; cbn; try done; try lia. intros _. repeat constructor; done.
Qed.

Lemma log_ordered : client_ordered (snd <$> log).
Proof.
  intros pre c post E Hw Hs. change (snd <$> log) with [put; app; app] in E.
  destruct pre as [|p0 pre]; simplify_eq/=; [by apply Exists_nil in Hs|].
  destruct pre as [|p1 pre]; simplify_eq/=.
  { apply Exists_cons in Hs as [(_ & _ & Hle)|Hs]; [cbn in Hle; lia|by apply Exists_nil in Hs]. }
  destruct pre as [|p2 pre]; simplify_eq/=.
  { right. left. by vm_compute. }
  destruct pre; simplify_eq/=.
Qed.
End Example_kv.
Import Example3 Example_kv.

Lemma kv_exactly_once_witness :
  wp (forM (command_messages 1 log) (fun message => do! applier_message message; ret tt)) kv
    (fun _ kv' => contents (kv_stateMachine kv') = {["x"%string := "ab"%string]} /\
       kv_lastApplied kv' = 3).
Proof.
  eapply wp_mono; [apply (kv_exactly_once log kv kv_ok0 eq_refl); cbn; lia|].
  intros [] kv' (_ & _ & Ho & Hl). split; [exact (Ho log_ordered)|exact Hl].
Defined.

Lemma kv_server_safe_witness : exists kv', kv_run (KvWait 1) kv = Some kv' /\ kv_wf kv'.
Proof. apply (kv_server_safe (KvWait 1) kv); [apply kv_ok0|exact I]. Defined.

Lemma applier_notifies_witness :
  wp (applier_message (command_message 1 (1, put))) kv (fun sent kv' => sent = true /\
    kv_lastApplied kv' = 1).
Proof.
  eapply wp_mono; [apply (applier_notifies (command_message 1 (1, put)) kv);
    [apply kv_ok0|split; [by eexists|cbn; lia]|reflexivity|cbn; lia]|].
  intros sent kv' (Hs & c & r & _ & _ & Hl & _). done.
Defined.

Lemma kv_snapshot_recovery_witness :
  wp (takeSnapshot 2) kv (fun _ kv' => exists kv'',
    StartKVServer 3 0 (persister (kv_rf kv')) (-1) = Some kv'' /\ lastApplied (kv_rf kv'') = 2).
Proof.
  eapply wp_mono; [apply (kv_snapshot_recovery 2 kv kv_ok0); cbn; lia|].
  intros [] kv' (kv'' & Hs & _ & Hl & _). exists kv''. done.
Defined.
