(* ===== verification/KvCluster.v ===== *)
(** * A replicated key/value service

    [KvSystem] puts a key/value server on every peer of a Raft cluster: the servers
    consume what their peers send on [applyCh], one message at a time, while clients'
    handlers and the protocol run on. Servers do not snapshot ([maxraftstate] is -1),
    as the cluster of [RaftSystem] does not. The invariant [kc_inv] says that a server's
    state is the specification run on the commands it has applied, and that these are the
    first entries of the one sequence all peers apply. What [RaftLive] shows of the peers is
    carried over to the servers ([kv_lift]): a majority of them can always serve a request. *)
From Stdlib Require Import Strings.Byte.
From S2P Require Import Prelude Labgob Persister RaftTypes RaftNode RaftLog RaftSpec RaftReplication RaftLeader RaftSnapshot RaftInv RaftProps RaftVotes RaftElection RaftSystem RaftHistory RaftPreserve RaftReplicate RaftAppend RaftSafety RaftApply RaftLive Notify KvStateMachine KvServer KvInv KvProps.

(** [ks_msg]: the message a server's [applier] has received and not handled yet. *)
Record KvSystem := mkKvSystem {
  ks_sys : System Command;
  ks_kv : gmap Z KVServer;
  ks_msg : gmap Z (Entry Command)
}.

Section cluster.
Context `{Gob Z} `{Gob (list (Entry Command))} `{Rand} `{Alloc}.
Context `{Gob MemoryKV} `{Gob (gmap Z OperationContext)}.
Context `{!GobLaws Z} `{!GobLaws (list (Entry Command))}.
Context `{!GobLaws MemoryKV} `{!GobLaws (gmap Z OperationContext)}.
Implicit Types (kv : KVServer) (k : KvSystem) (s : System Command).

(** A server points to its peer. *)
Definition sync s (kvs : gmap Z KVServer) : gmap Z KVServer :=
  map_imap (fun i kv => Some (match node s i with Some rf => set_kv_rf rf kv | None => kv end)) kvs.

(** The critical sections of a handler that do not call Raft; [Command_start] is the step
    [sys_start] of the peer. *)
Definition handler (ev : KvEvent) : Prop :=
  match ev with KvCheck _ | KvWait _ | KvReceive _ | KvRelease _ => True | _ => False end.

Inductive kv_step k : KvSystem -> Prop :=
  | ks_raft s' :
      sys_step (ks_sys k) s' -> s_sent s' = s_sent (ks_sys k) ->
      kv_step k (mkKvSystem s' (sync s' (ks_kv k)) (ks_msg k))
  | ks_send i e es c :
      s_taken (ks_sys k) !! i = Some (e :: es, c) -> ks_msg k !! i = None ->
      kv_step k (mkKvSystem
        (add_applied i e (set_taken (<[i := (es, c)]> (s_taken (ks_sys k))) (ks_sys k)))
        (ks_kv k) (<[i := e]> (ks_msg k)))
  | ks_apply i e kv kv' :
      ks_msg k !! i = Some e -> ks_kv k !! i = Some kv ->
      applier_message (applyMsg e) kv = Some (true, kv') ->
      kv_step k (mkKvSystem (ks_sys k) (<[i := kv']> (ks_kv k)) (delete i (ks_msg k)))
  | ks_handler i ev kv kv' :
      ks_kv k !! i = Some kv -> handler ev -> kv_ok ev kv -> kv_run ev kv = Some kv' ->
      kv_step k (mkKvSystem (ks_sys k) (<[i := kv']> (ks_kv k)) (ks_msg k))
  | ks_restart i rf kv' :
      node (ks_sys k) i = Some rf -> StartKVServer (peers rf) (me rf) (persister rf) (-1) = Some kv' ->
      kv_step k (mkKvSystem (forget i (set_cluster
          (mkCluster _ (<[i := kv_rf kv']> (c_nodes (s_cluster (ks_sys k))))
             (killed_with i <$> c_calls (s_cluster (ks_sys k))) (c_votes (s_cluster (ks_sys k)))) (ks_sys k)))
        (<[i := kv']> (ks_kv k)) (delete i (ks_msg k))).

Definition kv_initial (n : nat) k : Prop :=
  sys_initial n (ks_sys k) /\ ks_msg k = ∅ /\
  (forall i, is_Some (node (ks_sys k) i) -> is_Some (ks_kv k !! i)) /\
  forall i kv, ks_kv k !! i = Some kv -> 0 <= i < Z.of_nat n /\
    StartKVServer n i MakePersister (-1) = Some kv /\ node (ks_sys k) i = Some (kv_rf kv).

Definition kv_reachable (n : nat) k : Prop := exists k0, kv_initial n k0 /\ rtc kv_step k0 k.

(** ** What a server has applied *)

Definition commands (l : list (Entry Command)) : list Command := omap e_Command l.

(** What server [i] has handled of what its peer has sent. *)
Definition handled k (i : Z) : list (Entry Command) :=
  match ks_msg k !! i with
  | Some _ => take (length (sent (ks_sys k) i) - 1) (sent (ks_sys k) i)
  | None => sent (ks_sys k) i
  end.

Record server_inv k (i : Z) kv : Prop := {
  sv_rf : node (ks_sys k) i = Some (kv_rf kv);
  sv_max : kv_maxraftstate kv = -1;
  sv_machine : usable (kv_stateMachine kv);
  sv_sessions : is_Some (kv_lastOperations kv);
  sv_notify : notify_wf (kv_notify kv) (kv_lastApplied kv);
  sv_applied : kv_lastApplied kv = len (handled k i);
  sv_msg e : ks_msg k !! i = Some e -> sent (ks_sys k) i = handled k i ++ [e];
  sv_state : session_state kv = sessions_exec (commands (handled k i)) (∅, ∅)
}.

Record kc_inv (n : nat) k : Prop := {
  kc_sys : exists g, sys_inv n g (ks_sys k);
  kc_order : order_inv (ks_sys k);
  kc_server i kv : ks_kv k !! i = Some kv -> server_inv k i kv
}.

(** The server part alone: only [kv_rf] may differ. *)
Lemma server_inv_rf k k' i kv kv' rf : server_inv k i kv -> kv' = set_kv_rf rf kv ->
  node (ks_sys k') i = Some rf -> sent (ks_sys k') i = sent (ks_sys k) i -> ks_msg k' !! i = ks_msg k !! i ->
  server_inv k' i kv'.
Proof.
  intros Hs -> Hn Es Em. assert (handled k' i = handled k i) as Eh by (unfold handled; by rewrite Em, Es).
  destruct Hs as [Hrf Hmax Hma Hse Hno Hap Hmsg Hst].
  split; rewrite ?Eh, ?Es, ?Em; try done.
Qed.

(** Such a server is well-formed: it has applied only what is committed. *)
Lemma server_wf n k i kv : kc_inv n k -> ks_kv k !! i = Some kv -> kv_wf kv.
Proof.
  intros Hinv Hi. destruct (kc_server _ _ Hinv _ _ Hi) as [Hrf Hmax Hma Hse Hno Hap Hmsg Hst].
  destruct (kc_sys _ _ Hinv) as [g Hg]. pose proof (ni_wf _ _ _ _ _ (si_node _ _ _ Hg _ _ Hrf)) as Hwf.
  destruct (inv_node _ _ (si_cluster _ _ _ Hg) _ _ Hrf) as (_&_&_&Hd).
  split; try done. pose proof (oi_upto _ (kc_order _ _ Hinv) _ _ Hrf) as Hu. unfold upto in Hu.
  assert (len (handled k i) <= len (sent (ks_sys k) i)) as Hle.
  { unfold handled. destruct (ks_msg k !! i); [rewrite length_take; lia|done]. }
  destruct (s_taken (ks_sys k) !! i) as [[es c]|] eqn:Ht.
  - destruct (si_taken _ _ _ Hg _ _ _ Ht) as (_&rf0&Hrf0&Hc). rewrite Hrf in Hrf0. injection Hrf0 as <-. lia.
  - pose proof (wf_applied _ Hwf). lia.
Qed.

(** A message in flight is the next one, has a command and is committed. *)
Lemma server_message n k i kv e : kc_inv n k -> ks_kv k !! i = Some kv -> ks_msg k !! i = Some e ->
  e_Index e = kv_lastApplied kv + 1 /\ message_ok (applyMsg e) kv /\ kv_wf kv.
Proof.
  intros Hinv Hi He. pose proof (server_wf _ _ _ _ Hinv Hi) as Hwf.
  destruct (kc_server _ _ Hinv _ _ Hi) as [Hrf _ _ _ _ Hap Hmsg _]. specialize (Hmsg e He).
  assert (e_Index e = kv_lastApplied kv + 1) as Hix.
  { rewrite Hap. apply (oi_numbered _ (kc_order _ _ Hinv) i). rewrite Hmsg, <-app_assoc. by apply list_lookup_middle. }
  split_and!; [done| |done]. split; cbn.
  - pose proof (oi_commands _ (kc_order _ _ Hinv) i) as Hc. rewrite Hmsg, Forall_app, Forall_app in Hc.
    destruct Hc as [[_ Hc] _]. apply Forall_cons in Hc as [Hc _]. exact Hc.
  - destruct (kc_sys _ _ Hinv) as [g Hg]. pose proof (oi_upto _ (kc_order _ _ Hinv) _ _ Hrf) as Hu. unfold upto in Hu.
    apply (f_equal length) in Hmsg. rewrite length_app in Hmsg. cbn in Hmsg.
    destruct (s_taken (ks_sys k) !! i) as [[es c]|] eqn:Ht.
    + destruct (si_taken _ _ _ Hg _ _ _ Ht) as (_&rf0&Hrf0&Hc). rewrite Hrf in Hrf0. injection Hrf0 as <-. lia.
    + pose proof (wf_applied _ (kw_rf _ Hwf)). lia.
Qed.

(** ** Steps keep the invariant *)

(** What [applier] does to the parts of a server that do not belong to the service. *)
Definition without_snapshot kv kv' : Prop :=
  kv_maxraftstate kv' = kv_maxraftstate kv /\ (kv_maxraftstate kv = -1 -> kv_rf kv' = kv_rf kv).
#[local] Instance without_snapshot_preorder : PreOrder without_snapshot.
Proof.
  split; [by intros kv|]. intros kv1 kv2 kv3 [E1 R1] [E2 R2]. split; [congruence|].
  intros Hm. rewrite R2 by congruence. auto.
Qed.

Lemma moves_on_machine {A} (m : M MemoryKV A) : moves without_snapshot (on_machine m).
Proof. intros kv a kv'. unfold on_machine. destruct (m _) as [[? ?]|]; [|done]. by intros [= _ <-]. Qed.
Lemma moves_on_notify {A} (m : M (Notify CommandResponse) A) : moves without_snapshot (on_notify m).
Proof. intros kv a kv'. unfold on_notify. destruct (m _) as [[? ?]|]; [|done]. by intros [= _ <-]. Qed.
#[local] Hint Resolve moves_on_machine moves_on_notify : raft.

Lemma moves_snapshot index : moves without_snapshot
  (let! kv := get in do! (if needSnapshot kv then takeSnapshot index else ret tt); ret true).
Proof.
  apply moves_read. intros kv a kv'. unfold needSnapshot. destruct (decide (kv_maxraftstate kv = -1)) as [Hm|Hm].
  - rewrite bool_decide_eq_false_2 by tauto. by intros [= _ <-].
  - assert (moves without_snapshot (ret true : M KVServer bool)) by apply moves_ret, _.
    intros Hr. unfold bind at 1 in Hr.
    destruct ((if _ : bool then takeSnapshot index else ret tt) kv) as [[[] kv1]|] eqn:E; [|done]. injection Hr as _ <-.
    destruct (_ && _); [|by injection E as <-]. unfold takeSnapshot, bind, get, on_rf in E.
    destruct (RaftNode.Snapshot _ _ _) as [[[] rf]|]; [|done]. injection E as <-. by split.
Qed.
#[local] Hint Resolve moves_snapshot : raft.

Lemma applier_command_frame e kv b kv' : applier_message (applyMsg e) kv = Some (b, kv') ->
  kv_maxraftstate kv = -1 -> kv_maxraftstate kv' = -1 /\ kv_rf kv' = kv_rf kv.
Proof.
  intros Hr Hm. enough (moves without_snapshot (applier_message (applyMsg e))) as Hx.
  { destruct (Hx _ _ _ Hr) as [E1 E2]. split; [congruence|auto]. }
  unfold applier_message. cbn [applyMsg CommandValid]. moves.
Qed.

(** A handler only changes the channels. *)
Definition notify_only kv kv' : Prop := exists n, kv' = set_kv_notify n kv.
#[local] Instance notify_only_preorder : PreOrder notify_only.
Proof.
  split; [intros kv; exists (kv_notify kv); by destruct kv|]. intros kv1 kv2 kv3 [n ->] [n' ->]. by exists n'.
Qed.
Lemma notify_only_on_notify {A} (m : M (Notify CommandResponse) A) : moves notify_only (on_notify m).
Proof. intros kv a kv'. unfold on_notify. destruct (m _) as [[? n]|]; [|done]. intros [= _ <-]. by exists n. Qed.
#[local] Hint Resolve notify_only_on_notify : raft.

Lemma handler_notify ev kv kv' : handler ev -> kv_run ev kv = Some kv' -> notify_only kv kv'.
Proof.
  assert (forall A (m : M KVServer A), moves notify_only m -> kv_after m kv = Some kv' -> notify_only kv kv') as Hx.
  { intros A m Hm. unfold kv_after. destruct (m kv) as [[a kv1]|] eqn:E; [|done]. intros [= <-]. by eapply Hm. }
  destruct ev; try done; intros _; cbn [kv_run]; apply Hx; moves.
Qed.

Lemma sys_step_nodes s s' i : sys_step s s' -> is_Some (node s i) -> is_Some (node s' i).
Proof.
  intros Hs Hi. assert (forall j rf cl, c_nodes cl = <[j := rf]> (c_nodes (s_cluster s)) -> is_Some (c_nodes cl !! i)) as Hx.
  { intros j rf cl ->. apply lookup_insert_is_Some'. by right. }
  destruct Hs as [| | | |? ? ? [] ?| | | | | | | | |]; try by eapply Hx. done.
Qed.

Lemma lookup_sync s kvs i kv' : sync s kvs !! i = Some kv' -> exists kv, kvs !! i = Some kv /\
  kv' = match node s i with Some rf => set_kv_rf rf kv | None => kv end.
Proof. unfold sync. rewrite map_lookup_imap. intros (kv&Hkv&[= <-])%bind_Some. eauto. Qed.

Lemma kc_raft n k s' : kc_inv n k -> sys_step (ks_sys k) s' -> s_sent s' = s_sent (ks_sys k) ->
  kc_inv n (mkKvSystem s' (sync s' (ks_kv k)) (ks_msg k)).
Proof.
  intros Hinv Hs Es. destruct (kc_sys _ _ Hinv) as [g Hg]. split; cbn.
  - by eapply sys_step_inv.
  - eapply order_step; [exact Hg|apply Hinv|done].
  - intros i kv' (kv&Hkv&->)%lookup_sync. pose proof (kc_server _ _ Hinv _ _ Hkv) as Hsv.
    destruct (sys_step_nodes _ _ i Hs) as [rf Hrf]; [eexists; apply Hsv|]. rewrite Hrf.
    eapply server_inv_rf; [exact Hsv|reflexivity|exact Hrf| |done]. unfold sent. cbn. by rewrite Es.
Qed.

Lemma kc_send n k i e es c : kc_inv n k -> s_taken (ks_sys k) !! i = Some (e :: es, c) -> ks_msg k !! i = None ->
  kc_inv n (mkKvSystem (add_applied i e (set_taken (<[i := (es, c)]> (s_taken (ks_sys k))) (ks_sys k)))
    (ks_kv k) (<[i := e]> (ks_msg k))).
Proof.
  intros Hinv Ht Hm. destruct (kc_sys _ _ Hinv) as [g Hg]. set (k' := mkKvSystem _ _ _).
  assert (forall j, sent (ks_sys k') j = if decide (i = j) then sent (ks_sys k) i ++ [e] else sent (ks_sys k) j) as Es.
  { intros j. unfold sent. cbn. destruct (decide (i = j)) as [<-|].
    - by rewrite lookup_insert_eq.
    - by rewrite lookup_insert_ne. }
  assert (forall j, handled k' j = handled k j) as Eh.
  { intros j. unfold handled. rewrite Es. cbn. destruct (decide (i = j)) as [<-|].
    - rewrite lookup_insert_eq, Hm, length_app. cbn. by rewrite Nat.add_sub, take_app_length.
    - by rewrite lookup_insert_ne. }
  split.
  - exists g. by apply step_send_inv.
  - apply order_send; [apply Hinv| |done]. destruct (si_taken _ _ _ Hg _ _ _ Ht) as (_&rf&Hi&_). by eexists.
  - intros j kv Hj. cbn in Hj. destruct (kc_server _ _ Hinv _ _ Hj) as [Hrf Hmax Hma Hse Hno Hap Hmsg Hst].
    split; rewrite ?Eh; try done. intros x. cbn. rewrite Es. destruct (decide (i = j)) as [<-|Hne].
    + rewrite lookup_insert_eq. intros [= <-]. unfold handled. by rewrite Hm.
    + rewrite lookup_insert_ne by done. apply Hmsg.
Qed.

Lemma commands_snoc l (e : Entry Command) c : e_Command e = Some c -> commands (l ++ [e]) = commands l ++ [c].
Proof. intros He. unfold commands. rewrite omap_app. cbn. by rewrite He. Qed.

Lemma kc_apply n k i e kv kv' : kc_inv n k -> ks_msg k !! i = Some e -> ks_kv k !! i = Some kv ->
  applier_message (applyMsg e) kv = Some (true, kv') ->
  kc_inv n (mkKvSystem (ks_sys k) (<[i := kv']> (ks_kv k)) (delete i (ks_msg k))).
Proof.
  intros Hinv He Hkv Hr. destruct (server_message _ _ _ _ _ Hinv Hkv He) as (Hix&Hok&Hwf).
  destruct (kc_server _ _ Hinv _ _ Hkv) as [Hrf Hmax Hma Hse Hno Hap Hmsg Hst].
  destruct (applier_command_frame _ _ _ _ Hr Hmax) as [Hmax' Hrf'].
  eapply wp_run in Hr; [|apply applier_command; [exact Hwf|exact Hok|done|cbn; lia]].
  destruct Hr as (_&Hwf'&(cmd&resp&Hcmd&Hspec&Hla&_)). cbn in Hcmd, Hla.
  split; cbn; [apply Hinv|apply Hinv|]. intros j kvj. destruct (decide (i = j)) as [<-|Hne].
  - rewrite lookup_insert_eq. intros [= <-]. set (k' := mkKvSystem _ _ _).
    assert (handled k' i = handled k i ++ [e]) as Eh.
    { unfold handled at 1. cbn. rewrite lookup_delete_eq. by apply Hmsg. }
    split; rewrite ?Eh; try done; try apply Hwf'.
    + cbn. by rewrite Hrf'.
    + rewrite length_app. cbn. lia.
    + cbn. by rewrite lookup_delete_eq.
    + rewrite (commands_snoc _ _ _ Hcmd). unfold sessions_exec. rewrite foldl_app. cbn [foldl].
      fold (sessions_exec (commands (handled k i)) (∅, ∅)). rewrite <-Hst, Hspec. done.
  - rewrite lookup_insert_ne by done. intros Hj. destruct (kc_server _ _ Hinv _ _ Hj) as [? ? ? ? ? Hap' Hmsg' Hst'].
    set (k' := mkKvSystem _ _ _).
    assert (handled k' j = handled k j) as Eh by (unfold handled; cbn; by rewrite lookup_delete_ne).
    split; rewrite ?Eh; try done. cbn. rewrite lookup_delete_ne by done. apply Hmsg'.
Qed.

Lemma kc_handler n k i ev kv kv' : kc_inv n k -> ks_kv k !! i = Some kv -> handler ev -> kv_ok ev kv ->
  kv_run ev kv = Some kv' -> kc_inv n (mkKvSystem (ks_sys k) (<[i := kv']> (ks_kv k)) (ks_msg k)).
Proof.
  intros Hinv Hkv Hh Hok Hr. pose proof (server_wf _ _ _ _ Hinv Hkv) as Hwf.
  destruct (kv_run_wf ev kv Hwf Hok) as (kv1&Hr1&Hwf'). rewrite Hr in Hr1. injection Hr1 as <-.
  destruct (handler_notify _ _ _ Hh Hr) as [nt ->].
  split; cbn; [apply Hinv|apply Hinv|]. intros j kvj. rewrite lookup_insert_Some. intros [[<- <-]|[_ Hj]].
  - destruct (kc_server _ _ Hinv _ _ Hkv) as [? ? ? ? ? ? ? ?]. split; try done. apply Hwf'.
  - destruct (kc_server _ _ Hinv _ _ Hj) as [? ? ? ? ? ? ? ?]. by split.
Qed.

(** A server started on a persister without a snapshot. *)
Lemma StartKVServer_empty servers id ps maxraftstate kv : snapshot ps = [] ->
  StartKVServer servers id ps maxraftstate = Some kv -> exists rf, Make servers id ps = Some rf /\
    kv = mkKVServer 0 rf false maxraftstate 0 NewMemoryKV (Some ∅) no_chans.
Proof.
  intros Hs. unfold StartKVServer. destruct (Make servers id ps) as [rf|]; [|done].
  unfold ReadSnapshot. rewrite clone_id, Hs. intros [= <-]. eauto.
Qed.

Lemma fresh_server k i kv rf : kv = mkKVServer 0 rf false (-1) 0 NewMemoryKV (Some ∅) no_chans ->
  node (ks_sys k) i = Some rf -> sent (ks_sys k) i = [] -> ks_msg k !! i = None -> server_inv k i kv.
Proof.
  intros -> Hn Hs Hm. assert (handled k i = []) as Eh by (unfold handled; by rewrite Hm, Hs).
  split; rewrite ?Eh; try done; cbn; [by eexists|]. by rewrite Hm.
Qed.

Lemma kc_restart n k i rf kv' : kc_inv n k -> node (ks_sys k) i = Some rf ->
  StartKVServer (peers rf) (me rf) (persister rf) (-1) = Some kv' ->
  kc_inv n (mkKvSystem (forget i (set_cluster
      (mkCluster _ (<[i := kv_rf kv']> (c_nodes (s_cluster (ks_sys k))))
         (killed_with i <$> c_calls (s_cluster (ks_sys k))) (c_votes (s_cluster (ks_sys k)))) (ks_sys k)))
    (<[i := kv']> (ks_kv k)) (delete i (ks_msg k))).
Proof.
  intros Hinv Hi Hst. destruct (kc_sys _ _ Hinv) as [g Hg].
  destruct (oi_logs _ (kc_order _ _ Hinv) _ _ Hi) as [_ Hsn].
  destruct (StartKVServer_empty _ _ _ _ _ Hsn Hst) as (rf'&HM&->). cbn [kv_rf].
  assert (sys_step (ks_sys k) (forget i (set_cluster
      (mkCluster _ (<[i := rf']> (c_nodes (s_cluster (ks_sys k))))
         (killed_with i <$> c_calls (s_cluster (ks_sys k))) (c_votes (s_cluster (ks_sys k)))) (ks_sys k)))) as Hs.
  { by eapply sys_restart. }
  split; cbn; [by eapply sys_step_inv|eapply order_step; [exact Hg|apply Hinv|done]|].
  intros j kvj. destruct (decide (i = j)) as [<-|Hne].
  - rewrite lookup_insert_eq. intros [= <-]. eapply fresh_server; [reflexivity|..].
    + unfold node. cbn. by rewrite lookup_insert_eq.
    + unfold sent. cbn. by rewrite lookup_delete_eq.
    + cbn. by rewrite lookup_delete_eq.
  - rewrite lookup_insert_ne by done. intros Hj. pose proof (kc_server _ _ Hinv _ _ Hj) as Hsv.
    eapply server_inv_rf; [exact Hsv| |..].
    + instantiate (1 := kv_rf kvj). by destruct kvj.
    + unfold node. cbn. rewrite lookup_insert_ne by done. apply Hsv.
    + unfold sent. cbn. by rewrite lookup_delete_ne.
    + cbn. by rewrite lookup_delete_ne.
Qed.

Lemma kv_step_inv n k k' : kc_inv n k -> kv_step k k' -> kc_inv n k'.
Proof.
  intros Hinv Hs. destruct Hs;
    eauto using kc_raft, kc_send, kc_apply, kc_handler, kc_restart.
Qed.

Lemma kv_reachable_inv n k : kv_reachable n k -> kc_inv n k.
Proof.
  intros (k0&(Hsys&Hm&_&Hkv)&Hs). assert (kc_inv n k0) as Hinv.
  { split; [eexists; by apply initial_sys_inv|by eapply initial_order|]. intros i kv Hi.
    destruct (Hkv i kv Hi) as (_&Hst&Hn). destruct (StartKVServer_empty n i MakePersister _ _ eq_refl Hst) as (rf&HM&->).
    eapply fresh_server; [reflexivity|done| |by rewrite Hm].
    destruct Hsys as (_&_&_&_&_&_&_&E). unfold sent. by rewrite E. }
  clear -Hinv Hs H0 H1 GobLaws0 GobLaws1 GobLaws2 GobLaws3. induction Hs; [done|]. eauto using kv_step_inv.
Qed.

(** ** Agreement *)

Lemma handled_prefix k i : handled k i `prefix_of` sent (ks_sys k) i.
Proof. unfold handled. destruct (ks_msg k !! i); [eexists; by rewrite take_drop|done]. Qed.

Lemma handled_commands n k i : kc_inv n k -> length (commands (handled k i)) = length (handled k i).
Proof.
  intros Hinv. pose proof (oi_commands _ (kc_order _ _ Hinv) i) as [Hc _]%Forall_app.
  destruct (handled_prefix k i) as [x Ex]. rewrite Ex in Hc. apply Forall_app in Hc as [Hc _]. clear Ex.
  induction Hc as [|e l [c He] _ IH]; [done|]. cbn. rewrite He. cbn. by f_equal.
Qed.

Lemma handled_agree n k i j : kc_inv n k -> (length (handled k i) <= length (handled k j))%nat ->
  handled k i `prefix_of` handled k j.
Proof.
  intros Hinv Hle. destruct (kc_sys _ _ Hinv) as [g Hg].
  destruct (agree_prefix (handled k i) (handled k j)) as [?|[x Ex]]; [|done|].
  - intros m e e' He He'. eapply (sent_agree n g (ks_sys k) i j m); [done|apply Hinv|..];
      (eapply prefix_lookup_Some; [eassumption|apply handled_prefix]).
  - rewrite Ex in *. rewrite length_app in Hle. assert (x = []) as -> by (apply nil_length_inv; lia).
    by rewrite app_nil_r.
Qed.

(** Of lists each of which continues, or is continued by, every other, one continues all. *)
Lemma longest_of {A} (ls : list (list A)) : (forall x y, x ∈ ls -> y ∈ ls -> x `prefix_of` y \/ y `prefix_of` x) ->
  exists m, (m = [] \/ m ∈ ls) /\ forall x, x ∈ ls -> x `prefix_of` m.
Proof.
  induction ls as [|y ls IH]; intros Hc; [exists []; split; [by left|]; by intros ? []%not_elem_of_nil|].
  destruct IH as (m&Hm&Hall); [intros; apply Hc; by right|].
  assert (y `prefix_of` m \/ m `prefix_of` y) as [Hy|Hy].
  { destruct Hm as [->|Hm]; [right; apply prefix_nil|]. apply Hc; [by left|by right]. }
  - exists m. split; [destruct Hm; [by left|right; by right]|]. intros x [->|Hx]%elem_of_cons; auto.
  - exists y. split; [right; by left|]. intros x [->|Hx]%elem_of_cons; [done|]. etrans; [by apply Hall|done].
Qed.

(** What the peers have sent is one sequence of entries, numbered from 1. *)
Lemma one_sequence n k : kc_inv n k -> exists L : list (Entry Command),
  (forall m e, L !! m = Some e -> e_Index e = Z.of_nat m + 1) /\
  forall i, is_Some (ks_kv k !! i) -> sent (ks_sys k) i `prefix_of` L.
Proof.
  intros Hinv. destruct (kc_sys _ _ Hinv) as [g Hg]. set (ids := (map_to_list (ks_kv k)).*1).
  destruct (longest_of (sent (ks_sys k) <$> ids)) as (L&HL&Hall).
  { intros x y (i&->&_)%list_elem_of_fmap (j&->&_)%list_elem_of_fmap. apply agree_prefix. intros m e e'.
    eapply (sent_agree n g); [done|apply Hinv]. }
  exists L. split.
  - intros m e He. destruct HL as [->|(i&->&_)%list_elem_of_fmap]; [done|].
    apply (oi_numbered _ (kc_order _ _ Hinv) i). by apply lookup_app_l_Some.
  - intros i [kv Hkv]. apply Hall, list_elem_of_fmap_2, list_elem_of_fmap. exists (i, kv). split; [done|].
    by apply elem_of_map_to_list.
Qed.

(** An entry a server has handled is in the log of its peer, and committed. *)
Lemma handled_committed n k i kv e : kc_inv n k -> ks_kv k !! i = Some kv -> e ∈ handled k i ->
  logs (kv_rf kv) !! Z.to_nat (e_Index e) = Some e /\ 0 < e_Index e <= commitIndex (kv_rf kv).
Proof.
  intros Hinv Hi He. pose proof (server_wf _ _ _ _ Hinv Hi) as Hwf. pose proof (kc_server _ _ Hinv _ _ Hi) as Hs.
  destruct (kc_sys _ _ Hinv) as [g Hg]. pose proof (si_node _ _ _ Hg _ _ (sv_rf _ _ _ Hs)) as Hn.
  apply list_elem_of_lookup_1 in He as [m Hm]. pose proof (lookup_lt_Some _ _ _ Hm) as Hlt.
  assert (sent (ks_sys k) i !! m = Some e) as Hm' by (eapply prefix_lookup_Some; [exact Hm|apply handled_prefix]).
  assert (e_Index e = Z.of_nat m + 1) as Hx by (apply (oi_numbered _ (kc_order _ _ Hinv) i); by apply lookup_app_l_Some).
  assert (0 < e_Index e <= commitIndex (kv_rf kv)) as Hr.
  { pose proof (kw_applied _ Hwf). pose proof (sv_applied _ _ _ Hs). lia. }
  split; [|done]. pose proof (wf_commit _ (ni_wf _ _ _ _ _ Hn)) as [_ Hc]. pose proof (ni_full _ _ _ _ _ Hn) as Hf.
  rewrite (full_last _ Hf) in Hc. destruct (lookup_lt_is_Some_2 (logs (kv_rf kv)) (Z.to_nat (e_Index e))) as [e' He']; [lia|].
  rewrite He'. f_equal. eapply (committed_entry_unique n g (ks_sys k)); [done| | |].
  - eapply commit_safe_entry; [exact Hn| |exact He']. lia.
  - eapply (si_applied _ _ _ Hg), (oi_sent _ (kc_order _ _ Hinv)), list_elem_of_lookup_2. exact Hm'.
  - rewrite (full_index _ _ _ Hf He'). lia.
Qed.

(** C3: Replicas of the key/value service agree. In any execution of servers that do not
    snapshot ([maxraftstate] is -1) on a cluster of peers that do not compact their logs, with
    lost, delayed and reordered calls, crashes and restarts, there is one sequence [L] of
    entries, numbered from 1, such that every server has handled, since it was started, a
    prefix of [L]: entries its peer has in its log and knows to be committed. Its map and
    session table are those of the specification [sessions_exec] on exactly the commands of
    these entries; if the ids of every client first occur in order, its map is that of
    executing every write once. [applier] handles the next message without panic. *)
Theorem kv_replicas_agree n k : kv_reachable n k ->
  exists L : list (Entry Command), (forall m e, L !! m = Some e -> e_Index e = Z.of_nat m + 1) /\
  forall i kv, ks_kv k !! i = Some kv ->
    handled k i `prefix_of` sent (ks_sys k) i /\ sent (ks_sys k) i `prefix_of` L /\
    kv_lastApplied kv = len (handled k i) /\
    (forall e, e ∈ handled k i -> logs (kv_rf kv) !! Z.to_nat (e_Index e) = Some e /\
       0 < e_Index e <= commitIndex (kv_rf kv)) /\
    session_state kv = sessions_exec (commands (handled k i)) (∅, ∅) /\
    (client_ordered (commands (handled k i)) ->
       contents (kv_stateMachine kv) = kv_exec (first_writes [] (commands (handled k i))) ∅) /\
    (forall e, ks_msg k !! i = Some e -> exists kv1, applier_message (applyMsg e) kv = Some (true, kv1)).
Proof.
  intros Hinv%kv_reachable_inv. destruct (one_sequence n k Hinv) as (L&HL&Hsent). exists L. split; [done|].
  intros i kv Hi. pose proof (kc_server _ _ Hinv _ _ Hi) as Si. pose proof (sv_state _ _ _ Si) as Hst.
  split_and!; [apply handled_prefix|apply Hsent; eauto|apply Si|intros; by eapply handled_committed|done| |].
  - intros Hord. destruct (sessions_exec_once _ Hord) as (ops&Hex&_). rewrite Hex in Hst.
    unfold session_state in Hst. by injection Hst.
  - intros e He. destruct (server_message _ _ _ _ _ Hinv Hi He) as (Hix&Hok&Hwf).
    destruct (proj1 (wp_runs _ _ _) (wp_applier_message _ _ Hwf Hok)) as (b&kv1&Hr&->&_). eauto.
Qed.
End cluster.

(** ** A majority can serve *)

Section serve.
Context `{Gob Z} `{Gob (list (Entry Command))} `{Rand} `{Alloc}.
Context `{Gob MemoryKV} `{Gob (gmap Z OperationContext)}.
Context `{!GobLaws Z} `{!GobLaws (list (Entry Command))}.
Context `{!GobLaws MemoryKV} `{!GobLaws (gmap Z OperationContext)}.
Implicit Types (kv : KVServer) (k : KvSystem) (s : System Command) (Q : list Z).

(** A step in which the servers outside of [Q] and their peers do nothing. *)
Definition kv_step_among Q k k' : Prop :=
  kv_step k k' /\ (ks_sys k' = ks_sys k \/ step_among Q (ks_sys k) (ks_sys k')) /\
  forall i, i ∉ Q -> ks_kv k' !! i = ks_kv k !! i /\ ks_msg k' !! i = ks_msg k !! i.

(** Every peer has its server. *)
Definition all_served k : Prop := forall i, is_Some (node (ks_sys k) i) -> is_Some (ks_kv k !! i).

(** What the steps below keep. *)
Record serving (n : nat) k : Prop := {
  se_inv : kc_inv n k;
  se_all : all_served k
}.

Lemma serving_step n k k' : serving n k -> kv_step k k' -> all_served k' -> serving n k'.
Proof. intros [] Hs ?. split; [by eapply kv_step_inv|done]. Qed.

(** The server handles the message it has received. *)
Lemma can_handle n Q k i e : serving n k -> i ∈ Q -> ks_msg k !! i = Some e -> is_Some (node (ks_sys k) i) ->
  exists k', kv_step_among Q k k' /\ serving n k' /\ ks_sys k' = ks_sys k /\ ks_msg k' = delete i (ks_msg k).
Proof.
  intros [Hinv Hall] Hi He Hn. destruct (Hall i Hn) as [kv Hkv].
  destruct (server_message _ _ _ _ _ Hinv Hkv He) as (Hix&Hok&Hwf).
  destruct (proj1 (wp_runs _ _ _) (wp_applier_message _ _ Hwf Hok)) as (b&kv1&Hr&->&_).
  exists (mkKvSystem (ks_sys k) (<[i := kv1]> (ks_kv k)) (delete i (ks_msg k))).
  assert (kv_step k (mkKvSystem (ks_sys k) (<[i := kv1]> (ks_kv k)) (delete i (ks_msg k)))) as Hs by (by eapply ks_apply).
  split_and!; [|eapply serving_step; [by split|done|]|done..].
  - split; [done|]. split; [by left|]. intros j Hj. cbn. assert (i <> j) by (by intros ->).
    by rewrite lookup_insert_ne, lookup_delete_ne.
  - intros j Hj. cbn. apply lookup_insert_is_Some'. right. by apply Hall.
Qed.

(** The step leaves what the peers have sent alone, or it sends an entry, or it restarts a peer. *)
Lemma sys_step_sent s s' : sys_step s s' -> s_sent s' = s_sent s \/
  (exists i e es c, s_taken s !! i = Some (e :: es, c) /\
     s' = add_applied i e (set_taken (<[i := (es, c)]> (s_taken s)) s)) \/
  (exists i rf rf', node s i = Some rf /\ Make (peers rf) (me rf) (persister rf) = Some rf' /\
     s' = forget i (set_cluster (mkCluster _ (<[i := rf']> (c_nodes (s_cluster s)))
       (killed_with i <$> c_calls (s_cluster s)) (c_votes (s_cluster s))) s)).
Proof.
  destruct 1 as [| | |i rf rf' Hi HM|? ? ? [] ?| | | | | | | |i e es c Ht|]; try (by left).
  - right. right. eauto 10.
  - right. left. eauto 10.
Qed.

Lemma set_kv_rf_id kv : set_kv_rf (kv_rf kv) kv = kv.
Proof. by destruct kv. Qed.

Lemma all_served_sync k s' : all_served k -> (forall i, is_Some (node s' i) -> is_Some (node (ks_sys k) i)) ->
  all_served (mkKvSystem s' (sync s' (ks_kv k)) (ks_msg k)).
Proof.
  intros Hall Hn i Hi. cbn in *. unfold sync. rewrite map_lookup_imap. destruct (Hall i (Hn i Hi)) as [kv ->]. cbn. eauto.
Qed.

Lemma sys_step_nodes_inv s s' i : sys_step s s' -> is_Some (node s' i) -> is_Some (node s i).
Proof.
  intros Hs Hi. assert (forall j rf rf' (cl : Cluster Command), node s j = Some rf -> c_nodes cl = <[j := rf']> (c_nodes (s_cluster s)) ->
    is_Some (c_nodes cl !! i) -> is_Some (node s i)) as Hx.
  { intros j rf rf' cl Hj ->. rewrite lookup_insert_is_Some'. intros [<-|?]; [eauto|done]. }
  destruct Hs as [| | | |? ? ? [] ?| | | | | | | | |]; try (eapply Hx; [eassumption| |exact Hi]; reflexivity). done.
Qed.

(** A step of the peers is one of the servers, which handle a message that is in its way. *)
Lemma kv_lift n Q k s' : serving n k -> step_among Q (ks_sys k) s' ->
  exists k', rtc (kv_step_among Q) k k' /\ serving n k' /\ ks_sys k' = s'.
Proof.
  intros Hse Ha. pose proof Ha as [_ (Hs&Ho&_)].
  assert (s_sent s' = s_sent (ks_sys k) -> exists k', rtc (kv_step_among Q) k k' /\ serving n k' /\ ks_sys k' = s') as Hraft.
  { intros Es. exists (mkKvSystem s' (sync s' (ks_kv k)) (ks_msg k)).
    assert (kv_step k (mkKvSystem s' (sync s' (ks_kv k)) (ks_msg k))) as Hk by (by apply ks_raft).
    split_and!; [apply rtc_once; split; [done|]; split; [by right|]|eapply serving_step; [done|done|]|done].
    - intros i Hi. split; [|done]. cbn. unfold sync. rewrite map_lookup_imap. destruct (ks_kv k !! i) as [kv|] eqn:Hkv; [|done].
      cbn. destruct (Ho i Hi) as [-> _]. rewrite (sv_rf _ _ _ (kc_server _ _ (se_inv _ _ Hse) _ _ Hkv)). by rewrite set_kv_rf_id.
    - apply all_served_sync; [apply Hse|]. intros i. by eapply sys_step_nodes_inv. }
  destruct (sys_step_sent _ _ Hs) as [Es|[(i&e&es&c&Ht&->)|(i&rf&rf'&Hi&HM&->)]]; [by apply Hraft| |].
  - assert (i ∈ Q) as Hq.
    { destruct (decide (i ∈ Q)) as [|Hn]; [done|]. destruct (Ho i Hn) as (_&Et&_). cbn in Et. rewrite lookup_insert_eq, Ht in Et.
      injection Et as Et. by apply (f_equal length) in Et; cbn in Et; lia. }
    destruct (kc_sys _ _ (se_inv _ _ Hse)) as [g Hg]. destruct (si_taken _ _ _ Hg _ _ _ Ht) as (_&rf&Hn&_).
    assert (exists k1, rtc (kv_step_among Q) k k1 /\ serving n k1 /\ ks_sys k1 = ks_sys k /\ ks_msg k1 !! i = None)
      as (k1&Hk1&Hse1&Es1&Em1).
    { destruct (ks_msg k !! i) as [e'|] eqn:Em; [|by exists k].
      destruct (can_handle n Q k i e') as (k1&?&?&?&Em'); [done|done|done|eauto|]. exists k1.
      split_and!; [by apply rtc_once|done|done|]. rewrite Em'. apply lookup_delete_eq. }
    set (k2 := mkKvSystem (add_applied i e (set_taken (<[i := (es, c)]> (s_taken (ks_sys k1))) (ks_sys k1)))
      (ks_kv k1) (<[i := e]> (ks_msg k1))).
    assert (kv_step k1 k2) as Hk2 by (apply ks_send; [by rewrite Es1|done]).
    exists k2. split_and!; [eapply rtc_r; [exact Hk1|]|eapply serving_step; [exact Hse1|done|]|cbn; by rewrite Es1].
    + split; [done|]. split; [right; cbn; rewrite Es1; exact Ha|]. intros j Hj. split; [done|]. cbn.
      rewrite lookup_insert_ne; [done|]. by intros ->.
    + intros j Hj. apply (se_all _ _ Hse1). exact Hj.
  - destruct (decide (i ∈ Q)) as [Hq|Hq].
    2:{ apply Hraft. cbn. destruct (Ho i Hq) as (_&_&E). cbn in E. rewrite lookup_delete_eq in E. by apply delete_id. }
    set (kv' := mkKVServer 0 rf' false (-1) 0 NewMemoryKV (Some ∅) no_chans).
    assert (StartKVServer (peers rf) (me rf) (persister rf) (-1) = Some kv') as Hst.
    { destruct (oi_logs _ (kc_order _ _ (se_inv _ _ Hse)) _ _ Hi) as [_ Hsn]. unfold StartKVServer. rewrite HM.
      unfold ReadSnapshot. rewrite clone_id, Hsn. done. }
    eexists. assert (kv_step k _) as Hk by (by eapply (ks_restart k i rf kv')).
    split_and!; [apply rtc_once; split; [exact Hk|]; split; [right; exact Ha|]|eapply serving_step; [exact Hse|exact Hk|]|done].
    + intros j Hj. cbn. assert (i <> j) by (by intros ->). by rewrite lookup_insert_ne, lookup_delete_ne.
    + intros j Hj. cbn. apply lookup_insert_is_Some'. destruct (decide (i = j)); [by left|right]. apply (se_all _ _ Hse).
      unfold node in *. cbn in Hj. by rewrite lookup_insert_ne in Hj.
Qed.

Lemma kv_lift_steps n Q k s' : serving n k -> rtc (step_among Q) (ks_sys k) s' ->
  exists k', rtc (kv_step_among Q) k k' /\ serving n k' /\ ks_sys k' = s'.
Proof.
  intros Hse Hs. remember (ks_sys k) as s eqn:Es. revert k Hse Es. induction Hs as [|s s1 s2 Hs _ IH]; intros k Hse ->; [by exists k|].
  destruct (kv_lift n Q k s1 Hse Hs) as (k1&Hk1&Hse1&Es1). destruct (IH k1 Hse1 (eq_sym Es1)) as (k2&?&?&?).
  exists k2. split_and!; [by etrans|done|done].
Qed.

(** The servers [ps] handle what they have received. *)
Lemma can_handle_all n Q (ps : list Z) k : (forall i, i ∈ ps -> i ∈ Q /\ is_Some (node (ks_sys k) i)) -> serving n k ->
  exists k', rtc (kv_step_among Q) k k' /\ serving n k' /\ ks_sys k' = ks_sys k /\ forall i, i ∈ ps -> ks_msg k' !! i = None.
Proof.
  intros Hps Hse. induction ps as [|p ps IH]; [exists k; split_and!; try done; by intros ? []%not_elem_of_nil|].
  destruct IH as (k1&Hk1&Hse1&Es1&Hm1); [intros; apply Hps; by right|]. destruct (Hps p) as [Hp Hn]; [by left|].
  destruct (ks_msg k1 !! p) as [e|] eqn:Em.
  - destruct (can_handle n Q k1 p e) as (k2&Hk2&Hse2&Es2&Em2); [done|done|done|by rewrite Es1|].
    exists k2. split_and!; [by eapply rtc_r|done|congruence|]. intros i Hi. rewrite Em2.
    destruct (decide (p = i)) as [<-|]; [apply lookup_delete_eq|]. rewrite lookup_delete_ne by done.
    apply Hm1. apply elem_of_cons in Hi as [?|?]; [congruence|done].
  - exists k1. split_and!; try done. intros i [->|?]%elem_of_cons; auto.
Qed.

Lemma reachable_serving n k : kv_reachable n k -> serving n k.
Proof.
  intros Hr. split; [by apply kv_reachable_inv|]. destruct Hr as (k0&(_&_&Hall&_)&Hs).
  assert (all_served k0) as H0' by exact Hall. clear Hall. induction Hs as [|k0 k1 k2 Hk _ IH]; [done|]. apply IH. clear IH.
  assert (forall i kv (kvs : gmap Z KVServer), kvs = <[i := kv]> (ks_kv k0) -> forall j, is_Some (node (ks_sys k0) j) -> is_Some (kvs !! j)) as Hx.
  { intros i kv kvs -> j Hj. apply lookup_insert_is_Some'. right. by apply H0'. }
  destruct Hk as [s' Hst _| | | |i rf kv' Hi Hst].
  - apply all_served_sync; [done|]. intros i. by eapply sys_step_nodes_inv.
  - done.
  - intros j. by eapply Hx.
  - intros j. by eapply Hx.
  - intros j Hj. cbn. apply lookup_insert_is_Some'. destruct (decide (i = j)); [by left|right]. apply H0'.
    unfold node in *. cbn in Hj. by rewrite lookup_insert_ne in Hj.
Qed.

(** The peers of a service run as a cluster. *)
Lemma kv_step_sys n k k' : kc_inv n k -> kv_step k k' -> rtc sys_step (ks_sys k) (ks_sys k').
Proof.
  intros Hinv Hk. destruct Hk as [s' Hs _|i e es c Ht _| | |i rf kv' Hi Hst]; cbn; [by apply rtc_once| |done|done|].
  - by apply rtc_once, sys_send.
  - destruct (oi_logs _ (kc_order _ _ Hinv) _ _ Hi) as [_ Hsn].
    destruct (StartKVServer_empty _ _ _ _ _ Hsn Hst) as (rf'&HM&->). apply rtc_once. by eapply sys_restart.
Qed.

Lemma kv_sys_reachable n k : kv_reachable n k -> sys_reachable n (ks_sys k).
Proof.
  intros Hr. pose proof Hr as (k0&Hi&Hs). assert (kc_inv n k0) as Hinv by (apply kv_reachable_inv; by exists k0).
  exists (ks_sys k0). split; [apply Hi|]. clear Hr Hi. induction Hs as [|k0 k1 k2 Hk _ IH]; [done|].
  etrans; [by eapply kv_step_sys|]. apply IH. by eapply kv_step_inv.
Qed.

(** A server that has handled what it was sent has executed every entry of it. *)
Lemma handled_executed n k i e : serving n k -> is_Some (node (ks_sys k) i) -> ks_msg k !! i = None -> e ∈ sent (ks_sys k) i ->
  exists kv, ks_kv k !! i = Some kv /\ handled k i !! Z.to_nat (e_Index e - 1) = Some e /\
    kv_lastApplied kv = len (handled k i) /\ session_state kv = sessions_exec (commands (handled k i)) (∅, ∅).
Proof.
  intros [Hinv Hall] Hn Hm He. destruct (Hall i Hn) as [kv Hkv]. pose proof (kc_server _ _ Hinv _ _ Hkv) as Hsv.
  exists kv. split_and!; [done| |apply Hsv..]. apply list_elem_of_lookup_1 in He as [m Hx].
  assert (handled k i = sent (ks_sys k) i) as -> by (unfold handled; by rewrite Hm).
  rewrite (oi_numbered _ (kc_order _ _ Hinv) i m e) by (by apply lookup_app_l_Some).
  by replace (Z.to_nat _) with m by lia.
Qed.

(** C4: A majority of the servers can always serve. From any reachable state of a service of at
    least two servers that do not snapshot ([maxraftstate] is -1, peers do not compact their
    logs), and for any request, the servers of a running
    majority [Q] can, without a step of the others, get the command into the log, in a term
    later than any they were in, and execute it: each of them has then handled the entry [e] of
    the request at its index, and is in the state of the specification on the commands it has
    handled. Elections and rounds of the peers start when their timers run out. *)
Theorem kv_majority_can_serve n k Q (request : CommandRequest) :
  (2 <= n)%nat -> kv_reachable n k -> NoDup Q -> Z.of_nat n `quot` 2 < len Q -> running Q (ks_sys k) ->
  exists k' e, rtc (kv_step_among Q) k k' /\ e_Command e = Some (mkCommand request) /\
    (forall i rfi, i ∈ Q -> node (ks_sys k) i = Some rfi -> currentTerm rfi < e_Term e) /\
    forall i, i ∈ Q -> exists kv, ks_kv k' !! i = Some kv /\ handled k' i !! Z.to_nat (e_Index e - 1) = Some e /\
      kv_lastApplied kv = len (handled k' i) /\ session_state kv = sessions_exec (commands (handled k' i)) (∅, ∅).
Proof.
  intros Hn Hr Hnd Hmaj Hrun.
  destruct (majority_commits n (ks_sys k) Q (mkCommand request) Hn (kv_sys_reachable _ _ Hr) Hnd Hmaj Hrun)
    as (s1&_&_&e&Hs1&_&_&_&Hec&_&Hterm&Hsent).
  destruct (kv_lift_steps n Q k s1 (reachable_serving _ _ Hr) Hs1) as (k1&Hk1&Hse1&Es1).
  assert (forall i, i ∈ Q -> is_Some (node s1 i)) as Hnode.
  { intros i Hi. destruct (kc_order _ _ (se_inv _ _ Hse1)) as [_ _ Hs _ Hkn _ _ _]. rewrite Es1 in *. eapply Hkn, Hs, Hsent, Hi. }
  destruct (can_handle_all n Q Q k1) as (k2&Hk2&Hse2&Es2&Hm2); [|done|].
  { intros i Hi. split; [done|]. rewrite Es1. by apply Hnode. }
  exists k2, e. split_and!; [by etrans|done|done|]. intros i Hi.
  apply (handled_executed n k2 i e); [done|rewrite Es2, Es1; by apply Hnode|by apply Hm2|rewrite Es2, Es1; by apply Hsent].
Qed.
End serve.
