(* ===== verification/KvClusterExample.v ===== *)
(** * Executions of three key/value servers

    The run of [RaftSafetyExample] with the servers of [KvCluster] on top: a put is
    replicated, committed and applied by two servers. A second run, in which leaders change
    while a handler waits, gives a client the reply to another client's command. *)
From Stdlib Require Import Strings.Byte.
From S2P Require Import Prelude Labgob Persister RaftTypes RaftNode RaftLog RaftInv RaftProps RaftVotes RaftElection RaftSystem RaftSafety RaftApply RaftLive RaftSafetyExample Notify KvStateMachine KvServer KvInv KvProps KvCluster.
Import RaftProps.Example3.

Module Example_service.
Inductive KAct :=
  | KRaft (a : Act (C := Command))
  | KSend (i : Z)
  | KApply (i : Z)
  | KWait (i index : Z).

Definition kact (a : KAct) (k : KvSystem) : option KvSystem :=
  match a with
  | KRaft (ASend _) => None
  | KRaft a => s' ← act a (ks_sys k); Some (mkKvSystem s' (sync s' (ks_kv k)) (ks_msg k))
  | KSend i =>
      match s_taken (ks_sys k) !! i, ks_msg k !! i with
      | Some (e :: es, c), None => Some (mkKvSystem
          (add_applied i e (set_taken (<[i := (es, c)]> (s_taken (ks_sys k))) (ks_sys k)))
          (ks_kv k) (<[i := e]> (ks_msg k)))
      | _, _ => None
      end
  | KApply i =>
      e ← ks_msg k !! i; kv ← ks_kv k !! i;
      match applier_message (applyMsg e) kv with
      | Some (true, kv') => Some (mkKvSystem (ks_sys k) (<[i := kv']> (ks_kv k)) (delete i (ks_msg k)))
      | _ => None
      end
  | KWait i index =>
      kv ← ks_kv k !! i; kv' ← kv_run (KvWait index) kv;
      Some (mkKvSystem (ks_sys k) (<[i := kv']> (ks_kv k)) (ks_msg k))
  end.

Lemma act_sent (a : Act (C := Command)) s s' : act a s = Some s' -> match a with ASend _ => True | _ => s_sent s' = s_sent s end.
Proof.
  destruct a; cbn [act]; try done; intros Ha;
    repeat (match type of Ha with
      | mbind _ _ = _ => apply bind_Some in Ha as (?&?&Ha)
      | match ?x with _ => _ end = _ => destruct x
      end; try done); injection Ha as <-; try done.
  by match goal with |- context [add_replication _ _ (fst ?p) _] => destruct p as [[] ?] end.
Qed.

Lemma kact_step a k k' : kact a k = Some k' -> kv_step k k'.
Proof.
  destruct a as [a|i|i|i index]; cbn [kact].
  - intros Ha. assert (exists s', act a (ks_sys k) = Some s' /\ k' = mkKvSystem s' (sync s' (ks_kv k)) (ks_msg k) /\
      match a with ASend _ => False | _ => True end) as (s'&Hs'&->&Hn).
    { destruct a; try done; apply bind_Some in Ha as (s'&?&[= <-]); eauto. }
    apply ks_raft; [by eapply act_step|]. pose proof (act_sent _ _ _ Hs') as He. by destruct a.
  - destruct (s_taken (ks_sys k) !! i) as [[[|e es] c]|] eqn:E, (ks_msg k !! i) eqn:E'; try done.
    intros [= <-]. by eapply ks_send.
  - intros (e&He&(kv&Hkv&Ha)%bind_Some)%bind_Some. destruct (applier_message _ _) as [[[] kv']|] eqn:E; try done.
    injection Ha as <-. by eapply ks_apply.
  - intros (kv&Hkv&(kv'&Hr&[= <-])%bind_Some)%bind_Some. by eapply (ks_handler _ i (KvWait index)).
Qed.

Fixpoint kacts (l : list KAct) (k : KvSystem) : option KvSystem :=
  match l with
  | [] => Some k
  | a :: l => k' ← kact a k; kacts l k'
  end.

Lemma kacts_rtc l k k' : kacts l k = Some k' -> rtc kv_step k k'.
Proof.
  revert k; induction l as [|a l IH]; intros k; cbn [kacts].
  - intros [= <-]. apply rtc_refl.
  - intros (t&Ht&Hl)%bind_Some. eapply rtc_l; [by eapply kact_step|auto].
Qed.

Definition blank : Raft Command := mkRaft 3 MakePersister 0 false StateFollower 0 (-1) [zeroEntry] 0 0 [] [] Stopped Stopped 0 [].
Definition blank_server : KVServer := mkKVServer 0 blank false (-1) 0 NewMemoryKV (Some ∅) no_chans.
Definition server (i : Z) : KVServer := force blank_server (StartKVServer 3 i MakePersister (-1)).
Definition k0 : KvSystem := mkKvSystem
  (mkSystem _ (mkCluster _ {[0 := kv_rf (server 0); 1 := kv_rf (server 1); 2 := kv_rf (server 2)]} [] ∅)
     [] [] [] [] ∅ [] ∅)
  {[0 := server 0; 1 := server 1; 2 := server 2]} ∅.

Definition put : Command := mkCommand (mkCommandRequest "x" "1" OpPut 7 1).
Definition script : list KAct :=
  [KRaft (AExpire 0); KRaft (ATimeout 0); KRaft (AVote 0); KRaft (AVoteReply 0); KRaft (AStart 0 put);
   KRaft (AReplicate 0 1); KRaft (AAppend 0); KRaft (AAppendReply 0);
   KRaft (ATake 0); KSend 0; KApply 0].
Definition final : KvSystem := force k0 (kacts script k0).

Lemma k0_initial : kv_initial 3 k0.
Proof.
  assert (forall i x, ({[0 := kv_rf (server 0); 1 := kv_rf (server 1); 2 := kv_rf (server 2)]} : gmap Z (Raft Command)) !! i
    = Some x -> (i = 0 \/ i = 1 \/ i = 2) /\ x = kv_rf (server i)) as Hn.
  { intros i x Hi. repeat (apply lookup_insert_Some in Hi as [[<- <-]|[_ Hi]]; [auto|]).
    apply lookup_singleton_Some in Hi as [<- <-]. auto. }
  assert (forall i x, ks_kv k0 !! i = Some x -> (i = 0 \/ i = 1 \/ i = 2) /\ x = server i) as Hk.
  { intros i x Hi. cbn in Hi. repeat (apply lookup_insert_Some in Hi as [[<- <-]|[_ Hi]]; [auto|]).
    apply lookup_singleton_Some in Hi as [<- <-]. auto. }
  split_and!; try reflexivity.
  - unfold sys_initial, initial. split_and!; try reflexivity. intros i rf [Hi ->]%Hn. split; [lia|].
    destruct Hi as [-> | [-> | -> ] ]; vm_compute; reflexivity.
  - intros i [rf [Hi _]%Hn]. destruct Hi as [-> | [-> | -> ] ]; by eexists.
  - intros i kv [Hi ->]%Hk. split; [lia|]. destruct Hi as [-> | [-> | -> ] ]; split; vm_compute; reflexivity.
Qed.

Lemma service_reachable : kv_reachable 3 final.
Proof. exists k0. split; [apply k0_initial|]. apply (kacts_rtc script). vm_compute. reflexivity. Qed.
Definition final_server (i : Z) : KVServer := force blank_server (ks_kv final !! i).
End Example_service.
Import Example_service.

Lemma put_ordered : client_ordered [put].
Proof.
  intros pre c post E _ Hx. apply (f_equal length) in E. rewrite length_app in E. cbn in E.
  destruct pre; [by apply Exists_nil in Hx|cbn in E; lia].
Qed.

(** Server 1 has applied nothing yet, server 0 the put, and it has executed it. *)
Lemma kv_replicas_agree_witness : commands (handled final 0) = [put] /\ commands (handled final 1) = [] /\
  session_state (final_server 0) = sessions_exec [put] (∅, ∅) /\ session_state (final_server 1) = (∅, ∅) /\
  contents (kv_stateMachine (final_server 0)) = kv_exec (first_writes [] [put]) ∅.
Proof.
  assert (commands (handled final 0) = [put]) as E0 by (vm_compute; reflexivity).
  assert (commands (handled final 1) = []) as E1 by (vm_compute; reflexivity).
  destruct (kv_replicas_agree 3 final service_reachable) as (L&_&Hall).
  destruct (Hall 0 (final_server 0)) as (_&_&_&_&H0&Hc&_); [vm_compute; reflexivity|].
  destruct (Hall 1 (final_server 1)) as (_&_&_&_&H1&_); [vm_compute; reflexivity|].
  rewrite E0 in H0, Hc. rewrite E1 in H1. split; [exact E0|]. split; [exact E1|]. split; [exact H0|]. split; [exact H1|].
  apply Hc. apply put_ordered.
Defined.

(** Without the leader, servers 1 and 2 can serve a request. *)
Lemma kv_majority_can_serve_witness : exists k' e, rtc (kv_step_among [1; 2]) final k' /\
  e_Command e = Some (mkCommand (mkCommandRequest "y" "2" OpPut 7 1)) /\
  forall i, i ∈ [1; 2] -> exists kv, ks_kv k' !! i = Some kv /\ e_Index e <= kv_lastApplied kv.
Proof.
  destruct (kv_majority_can_serve 3 final [1; 2] (mkCommandRequest "y" "2" OpPut 7 1)) as (k'&e&Hs&He&_&Hall).
  - lia.
  - apply service_reachable.
  - apply (bool_decide_unpack _). vm_compute. exact I.
  - vm_compute. reflexivity.
  - intros i Hi. exists (kv_rf (final_server i)). apply elem_of_cons in Hi as [-> | ->%list_elem_of_singleton]; split; vm_compute; reflexivity.
  - exists k', e. split_and!; [exact Hs|exact He|]. intros i Hi. destruct (Hall i Hi) as (kv&Hkv&Hi'&Hl&_).
    exists kv. split; [exact Hkv|]. apply lookup_lt_Some in Hi'. lia.
Defined.

(** ** A reply for somebody else's command *)

Module Example_reply.
Definition write (key value : string) (client : Z) : Command := mkCommand (mkCommandRequest key value OpPut client 1).
Definition read : CommandRequest := mkCommandRequest "x" "" OpGet 4 1.

(** Server 0 leads term 1 and takes a put and is about to take the get. *)
Definition before : list KAct :=
  [KRaft (AExpire 0); KRaft (ATimeout 0); KRaft (AVote 0); KRaft (AVoteReply 0); KRaft (AStart 0 (write "z" "0" 1))].
(** Server 1 leads term 2 and its put replaces both entries of server 0; server 0 leads
    term 3, takes another put at the same index, commits and applies. *)
Definition after : list KAct :=
  [KRaft (AExpire 1); KRaft (ATimeout 1); KRaft (AVote 3); KRaft (AVoteReply 3); KRaft (AStart 1 (write "x" "1" 2));
   KRaft (AReplicate 1 0); KRaft (AAppend 0);
   KRaft (AExpire 0); KRaft (ATimeout 0); KRaft (AVote 5); KRaft (AVoteReply 5); KRaft (AStart 0 (write "y" "2" 3));
   KRaft (AReplicate 0 2); KRaft (AAppend 1); KRaft (AAppendReply 1);
   KRaft (ABeat 0); KRaft (AHeartbeat 0); KRaft (AReplicate 0 2); KRaft (AAppend 2); KRaft (AAppendReply 2);
   KRaft (ATake 0); KSend 0; KApply 0; KSend 0; KApply 0].

Definition asked : KvSystem := force k0 (kacts before k0).
Definition started : KvSystem := force k0 (kact (KRaft (AStart 0 (mkCommand read))) asked).
Definition waiting : KvSystem := force k0 (kact (KWait 0 2) started).
Definition answered : KvSystem := force k0 (kacts after waiting).

Lemma asked_reachable : kv_reachable 3 asked.
Proof. exists k0. split; [apply k0_initial|]. apply (kacts_rtc before). vm_compute. reflexivity. Qed.
Lemma starts : kv_step asked started.
Proof. apply (kact_step (KRaft (AStart 0 (mkCommand read)))). vm_compute. reflexivity. Qed.
Lemma waits : kv_step started waiting.
Proof. apply (kact_step (KWait 0 2)). vm_compute. reflexivity. Qed.
Lemma answers_later : rtc kv_step waiting answered.
Proof. apply (kacts_rtc after). vm_compute. reflexivity. Qed.
Lemma read_nowhere : forallb (fun p => bool_decide (Some (mkCommand read) ∉ e_Command <$> logs p.2)) (map_to_list (c_nodes (s_cluster (ks_sys answered)))) &&
  bool_decide (Some (mkCommand read) ∉ (fun p => e_Command p.2) <$> s_applied (ks_sys answered)) = true.
Proof. vm_compute. reflexivity. Qed.

Definition server_of (k : KvSystem) : KVServer := force blank_server (ks_kv k !! 0).
End Example_reply.
Import Example_reply.

(** C23: a client can get the reply to another client's command. The handler of a command
    waits for the log index [Start] returned and forgets the term. There is an execution of
    three servers in which the get of ["x"] is started at index 2 of server 0 and its handler
    waits on the channel of that index; then server 0 loses the entry to another leader, is
    elected again and takes another client's put at index 2; when it has applied it, the
    handler of the get receives the reply of the put, the value [""] without an error. No
    peer has the get in its log, none has applied it, and ["x"] has the value ["1"]. *)
Theorem kv_reply_of_other_command : exists asked started waiting answered kv0 kv1 kv2 kv3 ch,
  kv_reachable 3 asked /\ kv_step asked started /\ kv_step started waiting /\ rtc kv_step waiting answered /\
  ks_kv asked !! 0 = Some kv0 /\ Command_start (mkCommandRequest "x" "" OpGet 4 1) kv0 = Some (inr 2, kv1) /\ ks_kv started !! 0 = Some kv1 /\
  getNotifyChan 2 kv1 = Some (ch, kv2) /\ ks_kv waiting !! 0 = Some kv2 /\
  ks_kv answered !! 0 = Some kv3 /\ fst <$> Command_result ch kv3 = Some (Some (mkCommandResponse OK "")) /\
  (forall i rf e, node (ks_sys answered) i = Some rf -> e ∈ logs rf -> e_Command e <> Some (mkCommand (mkCommandRequest "x" "" OpGet 4 1))) /\
  (forall i e, (i, e) ∈ s_applied (ks_sys answered) -> e_Command e <> Some (mkCommand (mkCommandRequest "x" "" OpGet 4 1))) /\
  map_get (KV (kv_stateMachine kv3)) "x" = Some "1"%string.
Proof.
  exists asked, started, waiting, answered, (server_of asked), (server_of started), (server_of waiting), (server_of answered), 0%nat.
  pose proof read_nowhere as [Hl Ha]%andb_true_iff. rewrite forallb_Forall, Forall_forall in Hl. apply bool_decide_eq_true in Ha.
  split_and!; [exact asked_reachable|exact starts|exact waits|exact answers_later|vm_compute; reflexivity..| | |vm_compute; reflexivity].
  - intros i rf e Hn He E. specialize (Hl (i, rf) ltac:(by apply elem_of_map_to_list)). apply bool_decide_eq_true in Hl. apply Hl.
    unfold read. cbn [snd]. rewrite <-E. by apply list_elem_of_fmap_2.
  - intros i e He E. apply Ha. unfold read. rewrite <-E. apply list_elem_of_fmap. by exists (i, e).
Qed.
