(* ===== verification/Clerk.v ===== *)
(** * kvraft/client.go: the clerk

    A clerk repeats a request, going round the servers, until one of them answers
    other than [ErrWrongLeader] or [ErrTimeout]. The network is a parameter:
    [net k i r] is what the [k]-th call of the clerk, to server [i] with request [r],
    returns ([None] when [Call] returns false). The loop has fuel, since it need not
    end; the theorems say how much is enough. The clerk of shardctrler is the same
    code over other requests and reuses the loop. *)
From S2P Require Import Prelude KvStateMachine.

(** [crypto/rand.Int] draws from [[0,max)]. *)
Definition nrand (draw : Z -> Z) : Z := draw (Z.shiftl 1 62).

Record Clerk := mkClerk {
  ck_servers : nat;
  ck_leaderId : Z;
  ck_clientId : Z;
  ck_commandId : Z
}.

Definition set_ck_leaderId (v : Z) (ck : Clerk) : Clerk :=
  mkClerk (ck_servers ck) v (ck_clientId ck) (ck_commandId ck).
Definition set_ck_commandId (v : Z) (ck : Clerk) : Clerk :=
  mkClerk (ck_servers ck) (ck_leaderId ck) (ck_clientId ck) v.

Definition MakeClerk (draw : Z -> Z) (servers : nat) : Clerk := mkClerk servers 0 (nrand draw) 0.

Section loop.
Context {Req Resp : Type}.
Context (net : nat -> Z -> Req -> option Resp).
Context (retry : Resp -> bool).

(** The [for] loop of [Command]; the first result is [None] when the fuel runs out.
    [k] numbers the calls; the index [ck.servers[ck.leaderId]] panics out of range. *)
Fixpoint command_loop (fuel k : nat) (request : Req) : M Clerk (option Resp) :=
  match fuel with
  | O => ret None
  | S fuel =>
      let! ck := get in
      if decide (0 <= ck_leaderId ck < Z.of_nat (ck_servers ck)) then
        match net k (ck_leaderId ck) request with
        | Some response =>
            if retry response then
              do! modify (set_ck_leaderId (Z.rem (ck_leaderId ck + 1) (Z.of_nat (ck_servers ck))));
              command_loop fuel (S k) request
            else
              do! modify (set_ck_commandId (ck_commandId ck + 1));
              ret (Some response)
        | None =>
            do! modify (set_ck_leaderId (Z.rem (ck_leaderId ck + 1) (Z.of_nat (ck_servers ck))));
            command_loop fuel (S k) request
        end
      else panic
  end.

Definition wf_clerk (ck : Clerk) : Prop := 0 <= ck_leaderId ck < Z.of_nat (ck_servers ck).

(** The server the [j]-th call goes to. *)
Definition nth_server (ck : Clerk) (j : nat) : Z :=
  (ck_leaderId ck + Z.of_nat j) mod Z.of_nat (ck_servers ck).

(** The answer the clerk accepts at the [j]-th call, if it does. *)
Definition accepted (ck : Clerk) (k : nat) (request : Req) (j : nat) : option Resp :=
  match net (k + j) (nth_server ck j) request with
  | Some response => if retry response then None else Some response
  | None => None
  end.

Lemma nth_server_0 ck : wf_clerk ck -> nth_server ck 0 = ck_leaderId ck.
Proof. intros Hwf. unfold nth_server. rewrite Z.add_0_r. apply Z.mod_small. apply Hwf. Qed.

Definition moved (ck : Clerk) : Clerk :=
  set_ck_leaderId (Z.rem (ck_leaderId ck + 1) (Z.of_nat (ck_servers ck))) ck.

Lemma moved_spec ck : wf_clerk ck -> wf_clerk (moved ck) /\
  (forall j, nth_server (moved ck) j = nth_server ck (S j)).
Proof.
  intros Hwf. unfold wf_clerk in *. unfold moved, nth_server. cbn.
  rewrite Z.rem_mod_nonneg by lia. split; [apply Z.mod_pos_bound; lia|].
  intros j. rewrite Zplus_mod_idemp_l. f_equal. lia.
Qed.

Lemma command_loop_accept ck k request j response fuel :
  wf_clerk ck -> accepted ck k request j = Some response ->
  (forall i, (i < j)%nat -> accepted ck k request i = None) -> (j < fuel)%nat ->
  command_loop fuel k request ck =
    Some (Some response, set_ck_commandId (ck_commandId ck + 1) (set_ck_leaderId (nth_server ck j) ck)).
Proof.
  revert ck k fuel. induction j as [|j IH]; intros ck k fuel Hwf Hacc Hrej Hf.
  - destruct fuel as [|fuel]; [lia|]. simpl. unfold bind, get. cbn.
    rewrite decide_True by done. unfold accepted in Hacc.
    rewrite Nat.add_0_r, nth_server_0 in Hacc by done. rewrite nth_server_0 by done.
    destruct (net k _ _) as [r|]; [|done]. destruct (retry r); [done|]. simplify_eq.
    by destruct ck.
  - destruct fuel as [|fuel]; [lia|]. destruct (moved_spec ck Hwf) as [Hwf' Hn].
    assert (Hshift : forall i, accepted (moved ck) (S k) request i = accepted ck k request (S i)).
    { intros i. unfold accepted. rewrite Hn. by replace (S k + i)%nat with (k + S i)%nat by lia. }
    assert (Hgo : command_loop (S fuel) k request ck = command_loop fuel (S k) request (moved ck)).
    { simpl. unfold bind, get. cbn. rewrite decide_True by done.
      specialize (Hrej 0%nat ltac:(lia)). unfold accepted in Hrej.
      rewrite Nat.add_0_r, nth_server_0 in Hrej by done.
      destruct (net k _ _) as [r|]; [|done]. by destruct (retry r). }
    rewrite Hgo, (IH (moved ck)); [|done|by rewrite Hshift| |lia].
    + rewrite Hn. by destruct ck.
    + intros i Hi. rewrite Hshift. apply Hrej. lia.
Qed.

(** No call panics, however long the clerk goes on. *)
Lemma command_loop_safe ck k request fuel :
  wf_clerk ck -> wp (command_loop fuel k request) ck (fun _ ck' => wf_clerk ck').
Proof.
  revert ck k. induction fuel as [|fuel IH]; intros ck k Hwf; simpl; go; [done|].
  rewrite decide_True by done.
  assert (Hmove : wp (do! modify (set_ck_leaderId (Z.rem (ck_leaderId ck + 1) (Z.of_nat (ck_servers ck))));
    command_loop fuel (S k) request) ck (fun _ ck' => wf_clerk ck')).
  { go. apply IH. by apply moved_spec. }
  destruct (net k _ _) as [r|]; [destruct (retry r)|]; [exact Hmove| |exact Hmove]. by go.
Qed.
End loop.

(** ** The clerk of kvraft *)
Section kv.
Context (net : nat -> Z -> CommandRequest -> option CommandResponse).

Definition retry_response (response : CommandResponse) : bool :=
  bool_decide (r_Err response = ErrWrongLeader) || bool_decide (r_Err response = ErrTimeout).

Definition Command (fuel : nat) (request : CommandRequest) : M Clerk (option string) :=
  let! ck := get in
  let request := mkCommandRequest (Key request) (Value request) (Op request)
                   (ck_clientId ck) (ck_commandId ck) in
  let! response := command_loop net retry_response fuel 0 request in
  ret (r_Value <$> response).

Definition Get (fuel : nat) (key : string) : M Clerk (option string) :=
  Command fuel (mkCommandRequest key "" OpGet 0 0).
Definition Put (fuel : nat) (key value : string) : M Clerk (option string) :=
  Command fuel (mkCommandRequest key value OpPut 0 0).
Definition Append (fuel : nat) (key value : string) : M Clerk (option string) :=
  Command fuel (mkCommandRequest key value OpAppend 0 0).

(** The request the clerk sends, the same at every attempt. *)
Definition stamped (ck : Clerk) (request : CommandRequest) : CommandRequest :=
  mkCommandRequest (Key request) (Value request) (Op request) (ck_clientId ck) (ck_commandId ck).
End kv.

(** C36: a clerk goes round the servers with one and the same numbered request until
    one of them gives a final answer, returns that answer as soon as it comes, keeps
    the server that gave it as its leader and moves on to the next command number.
    It needs one unit of fuel per call and none of its calls panics. *)
Theorem clerk_returns_first_answer net ck request j response fuel :
  wf_clerk ck ->
  accepted net retry_response ck 0 (stamped ck request) j = Some response ->
  (forall i, (i < j)%nat -> accepted net retry_response ck 0 (stamped ck request) i = None) ->
  (j < fuel)%nat ->
  Command net fuel request ck =
    Some (Some (r_Value response),
          mkClerk (ck_servers ck) (nth_server ck j) (ck_clientId ck) (ck_commandId ck + 1)).
Proof.
  intros Hwf Hacc Hrej Hf. unfold Command, bind, get. fold (stamped ck request).
  by rewrite (command_loop_accept _ _ _ _ _ _ _ _ Hwf Hacc Hrej Hf).
Qed.

(** Three servers, of which the last is the leader. *)
Definition net3 (k : nat) (i : Z) (r : CommandRequest) : option CommandResponse :=
  if decide (i = 2) then Some (mkCommandResponse OK "v")
  else if decide (i = 1) then None else Some (mkCommandResponse ErrWrongLeader "").

Lemma clerk_returns_first_answer_witness :
  Get net3 5 "x" (mkClerk 3 0 77 4) = Some (Some "v"%string, mkClerk 3 2 77 5).
Proof.
  apply (clerk_returns_first_answer net3 (mkClerk 3 0 77 4) (mkCommandRequest "x" "" OpGet 0 0)
           2 (mkCommandResponse OK "v") 5); [unfold wf_clerk; cbn; lia|reflexivity| |lia].
  intros [|[|i]] Hi; [reflexivity|reflexivity|lia].
Defined.
