(* ===== verification/CtrlConfig.v ===== *)
(** * shardctrler/common.go and shardctrler/configStateMachine.go

    Configurations and the operations that produce new ones. [s2g] maps a group to
    the shards it controls. Every [range] over a map goes through [MapOrder]; the
    load-balancing loop of [Join] has fuel. *)
From S2P Require Import Prelude.

Definition NShards : Z := 10.

Record Config := mkConfig {
  Num : Z;
  Shards : list Z;
  Groups : gmap Z (list string)
}.

(** The array [Shards] has [NShards] elements, zero when not given. *)
Definition zeroShards : list Z := replicate (Z.to_nat NShards) 0.
Definition DefaultConfig : Config := mkConfig 0 zeroShards ∅.

Inductive Err := OK | ErrWrongLeader | ErrTimeout.
#[export] Instance Err_eq_dec : EqDecision Err.
Proof. solve_decision. Defined.

Abbreviation S2G := (gmap Z (list Z)).

(** [s2g[gid]]: a missing group has the nil slice. *)
Definition shards_of (s2g : S2G) (gid : Z) : list Z := default [] (s2g !! gid).

Section config.
Context `{MapOrder}.

(** The keys of a map, in the order of [range], then [sort.Ints]. *)
Definition sortedKeys (s2g : S2G) : list Z := merge_sort Z.le (fst <$> range s2g).

Definition GetGIDWithMaximumShards (s2g : S2G) : Z :=
  if bool_decide (is_Some (s2g !! 0)) && bool_decide (len (shards_of s2g 0) > 0) then 0 else
  fst (foldl (fun '(index, max) gid =>
         if decide (len (shards_of s2g gid) > max) then (gid, len (shards_of s2g gid))
         else (index, max)) (-1, -1) (sortedKeys s2g)).

Definition GetGIDWithMinimumShards (s2g : S2G) : Z :=
  fst (foldl (fun '(index, min) gid =>
         if decide (gid <> 0 /\ len (shards_of s2g gid) < min) then (gid, len (shards_of s2g gid))
         else (index, min)) (-1, NShards + 1) (sortedKeys s2g)).

Definition copyServers (servers : list string) : list string :=
  copy_into (replicate (length servers) ""%string) servers.

Definition deepCopy (groups : gmap Z (list string)) : gmap Z (list string) :=
  foldl (fun newGroups '(gid, servers) => <[gid := copyServers servers]> newGroups) ∅ (range groups).

(** [for shard, gid := range config.Shards] goes through the array in order. *)
Definition Group2Shards (config : Config) : S2G :=
  let s2g := foldl (fun s2g '(gid, _) => <[gid := []]> s2g) ∅ (range (Groups config)) in
  foldl (fun s2g '(shard, gid) => <[gid := shards_of s2g gid ++ [shard]]> s2g) s2g
    (zip (seqZ 0 (len (Shards config))) (Shards config)).

(** The loop of [Join]: [false] when the fuel runs out. *)
Fixpoint balance (fuel : nat) : M S2G bool :=
  match fuel with
  | O => ret false
  | S fuel =>
      let! s2g := get in
      let source := GetGIDWithMaximumShards s2g in
      let target := GetGIDWithMinimumShards s2g in
      if bool_decide (source <> 0) &&
         bool_decide (len (shards_of s2g source) - len (shards_of s2g target) <= 1)
      then ret true
      else
        let! first := lift (slice_get (shards_of s2g source) 0) in
        do! modify (fun s2g => <[target := shards_of s2g target ++ [first]]> s2g);
        let! s2g := get in
        let! rest := lift (slice_from (shards_of s2g source) 1) in
        do! modify (fun s2g => <[source := rest]> s2g);
        balance fuel
  end.

(** [newShards[shard] = gid] for every shard of every group. *)
Definition assignShards (s2g : S2G) : M (list Z) unit :=
  forM (range s2g) (fun '(gid, shards) =>
    forM shards (fun shard =>
      let! newShards := get in
      let! newShards := lift (slice_set newShards shard gid) in
      modify (fun _ => newShards))).

Record MemoryConfigStateMachine := mkMemoryConfigStateMachine { Configs : list Config }.

Definition NewMemoryConfigStateMachine : MemoryConfigStateMachine :=
  mkMemoryConfigStateMachine [DefaultConfig].

(** [lastConfig] and the copy of it under the next number. *)
Definition nextConfig : M MemoryConfigStateMachine Config :=
  let! cf := get in
  let! lastConfig := lift (slice_get (Configs cf) (len (Configs cf) - 1)) in
  ret (mkConfig (len (Configs cf)) (Shards lastConfig) (deepCopy (Groups lastConfig))).

Definition appendConfig (config : Config) : M MemoryConfigStateMachine Err :=
  do! modify (fun cf => mkMemoryConfigStateMachine (Configs cf ++ [config]));
  ret OK.

(** Groups that are not there yet are added. *)
Definition addGroups (groups newGroups : gmap Z (list string)) : gmap Z (list string) :=
  foldl (fun newGroups '(gid, servers) =>
    match newGroups !! gid with
    | Some _ => newGroups
    | None => <[gid := copyServers servers]> newGroups
    end) newGroups (range groups).

(** [None] when the loop has not ended within the fuel. *)
Definition Join (fuel : nat) (groups : gmap Z (list string)) : M MemoryConfigStateMachine (option Err) :=
  let! newConfig := nextConfig in
  let newConfig := mkConfig (Num newConfig) (Shards newConfig)
                     (addGroups groups (Groups newConfig)) in
  let! balanced := lift (balance fuel (Group2Shards newConfig)) in
  let '(done, s2g) := balanced in
  if (done : bool) then
    let! newShards := lift (snd <$> assignShards s2g zeroShards) in
    let! err := appendConfig (mkConfig (Num newConfig) newShards (Groups newConfig)) in
    ret (Some err)
  else ret None.

(** The loop over the groups that leave. *)
Definition removeGroup (st : gmap Z (list string) * S2G * list Z) (gid : Z)
  : gmap Z (list string) * S2G * list Z :=
  let '(groups, s2g, orphanShards) := st in
  let groups := (match groups !! gid with Some _ => delete gid groups | None => groups end) in
  match s2g !! gid with
  | Some shards => (groups, delete gid s2g, orphanShards ++ shards)
  | None => (groups, s2g, orphanShards)
  end.

Definition adoptShard (s2g : S2G) (shard : Z) : S2G :=
  let target := GetGIDWithMinimumShards s2g in
  <[target := shards_of s2g target ++ [shard]]> s2g.

Definition Leave (gids : list Z) : M MemoryConfigStateMachine Err :=
  let! newConfig := nextConfig in
  let '(groups, s2g, orphanShards) :=
    foldl removeGroup (Groups newConfig, Group2Shards newConfig, []) gids in
  let! newShards :=
    (if decide (size groups <> 0%nat) then
       lift (snd <$> assignShards (foldl adoptShard s2g orphanShards) zeroShards)
     else ret zeroShards) in
  appendConfig (mkConfig (Num newConfig) newShards groups).

Definition Move (shard gid : Z) : M MemoryConfigStateMachine Err :=
  let! newConfig := nextConfig in
  let! newShards := lift (slice_set (Shards newConfig) shard gid) in
  appendConfig (mkConfig (Num newConfig) newShards (Groups newConfig)).

Definition Query (num : Z) : M MemoryConfigStateMachine (Config * Err) :=
  let! cf := get in
  if decide (num < 0 \/ num >= len (Configs cf)) then
    let! config := lift (slice_get (Configs cf) (len (Configs cf) - 1)) in ret (config, OK)
  else
    let! config := lift (slice_get (Configs cf) num) in ret (config, OK).
End config.
