(* ===== verification/CtrlBalance.v ===== *)
(** * Shard assignments: partitions, extremal groups, load balancing

    An assignment [s2g] is a partition when the lists of its groups together hold
    every shard exactly once. The lemmas of this file say what the two selection
    functions return, that the balancing loop of [Join] ends with group sizes that
    differ by at most one, and that writing an assignment into the shard array does
    not depend on the order the map is traversed in. *)
From S2P Require Import Prelude CtrlConfig.

Definition all_shards (s2g : S2G) : list Z := concat (snd <$> map_to_list s2g).

Definition partition (s2g : S2G) : Prop := Permutation (all_shards s2g) (seqZ 0 NShards).

#[export] Instance concat_perm {A} : Proper (Permutation ==> Permutation) (@concat A).
Proof.
  induction 1 as [|x l l' _ IH|x y l|l1 l2 l3 _ IH1 _ IH2]; simpl; [done|by rewrite IH| |by etrans].
  by rewrite !app_assoc, (Permutation_app_comm x y).
Qed.

Lemma all_shards_insert s2g k l :
  Permutation (all_shards (<[k := l]> s2g)) (l ++ all_shards (delete k s2g)).
Proof.
  unfold all_shards. rewrite <-insert_delete_eq.
  by rewrite map_to_list_insert by (by rewrite lookup_delete_eq).
Qed.

Lemma all_shards_split s2g k :
  Permutation (all_shards s2g) (shards_of s2g k ++ all_shards (delete k s2g)).
Proof.
  unfold shards_of. destruct (s2g !! k) as [l|] eqn:E; simpl.
  - rewrite <-(insert_id s2g k l E) at 1. apply all_shards_insert.
  - by rewrite delete_id.
Qed.

Lemma elem_of_all_shards s2g x : x ∈ all_shards s2g <-> exists k, x ∈ shards_of s2g k.
Proof.
  unfold all_shards. rewrite list_elem_of_In, in_concat. split.
  - intros (l & Hl & Hx). apply list_elem_of_In, list_elem_of_fmap in Hl as ([k l'] & -> & Hkl).
    apply elem_of_map_to_list in Hkl. exists k. unfold shards_of. rewrite Hkl. by apply list_elem_of_In.
  - intros (k & Hx). unfold shards_of in Hx. destruct (s2g !! k) as [l|] eqn:E; [|by apply elem_of_nil in Hx].
    exists l. rewrite <-!list_elem_of_In. split; [|done]. apply list_elem_of_fmap.
    exists (k, l). by rewrite elem_of_map_to_list.
Qed.

Section partitions.
Implicit Types (s2g : S2G).

Lemma partition_NoDup s2g : partition s2g -> NoDup (all_shards s2g).
Proof. intros Hp. unfold partition in Hp. rewrite Hp. apply NoDup_seqZ. Qed.

Lemma partition_in s2g x : partition s2g -> (exists k, x ∈ shards_of s2g k) <-> 0 <= x < NShards.
Proof.
  intros Hp. unfold partition in Hp. rewrite <-elem_of_all_shards, Hp, elem_of_seqZ. lia.
Qed.

(** A shard belongs to one group. *)
Lemma partition_disjoint s2g k k' x :
  partition s2g -> x ∈ shards_of s2g k -> x ∈ shards_of s2g k' -> k = k'.
Proof.
  intros Hp Hk Hk'. destruct (decide (k = k')) as [|Hne]; [done|exfalso].
  apply partition_NoDup in Hp. rewrite (all_shards_split s2g k) in Hp.
  apply NoDup_app in Hp as (_ & Hd & _). apply (Hd x Hk).
  apply elem_of_all_shards. exists k'. unfold shards_of in *. by rewrite lookup_delete_ne.
Qed.

Lemma partition_group_NoDup s2g k : partition s2g -> NoDup (shards_of s2g k).
Proof.
  intros Hp%partition_NoDup. rewrite (all_shards_split s2g k) in Hp. by apply NoDup_app in Hp as [? _].
Qed.

Lemma partition_len s2g k : partition s2g -> 0 <= len (shards_of s2g k) <= NShards.
Proof.
  intros Hp. pose proof (Permutation_length Hp) as Hl.
  rewrite (all_shards_split s2g k), length_app, length_seqZ in Hl. unfold NShards in *. lia.
Qed.

(** Moving the first shard of one group to the end of another. *)
Definition moved_shard s2g (source target x : Z) (rest : list Z) : S2G :=
  <[source := rest]> (<[target := shards_of s2g target ++ [x]]> s2g).

Lemma moved_shard_of s2g source target x rest k : source <> target ->
  shards_of (moved_shard s2g source target x rest) k =
    if decide (k = source) then rest
    else if decide (k = target) then shards_of s2g target ++ [x] else shards_of s2g k.
Proof.
  intros Hne. unfold moved_shard, shards_of. destruct (decide (k = source)) as [->|Hs].
  { by rewrite lookup_insert_eq. }
  rewrite lookup_insert_ne by done. destruct (decide (k = target)) as [->|Ht].
  { by rewrite lookup_insert_eq. }
  by rewrite lookup_insert_ne.
Qed.

Lemma moved_shard_partition s2g source target x rest :
  source <> target -> shards_of s2g source = x :: rest -> partition s2g ->
  partition (moved_shard s2g source target x rest).
Proof.
  intros Hne Hs Hp. unfold partition in *. rewrite <-Hp. unfold moved_shard.
  rewrite all_shards_insert, delete_insert_ne, all_shards_insert by done.
  rewrite (all_shards_split s2g source), Hs, (all_shards_split (delete source s2g) target).
  unfold shards_of. rewrite lookup_delete_ne by done. solve_Permutation.
Qed.
End partitions.

(** ** The selection functions *)

(** The fold that keeps the first group of the largest size. *)
Lemma fold_max (f : Z -> Z) keys i0 m0 :
  let '(i, m) := foldl (fun '(index, max) gid =>
      if decide (f gid > max) then (gid, f gid) else (index, max)) (i0, m0) keys in
  m0 <= m /\ (forall g, g ∈ keys -> f g <= m) /\ ((i, m) = (i0, m0) \/ (i ∈ keys /\ m = f i)).
Proof.
  revert i0 m0. induction keys as [|k keys IH]; intros i0 m0; simpl.
  - split_and!; [lia| |by left]. intros g Hg. by apply elem_of_nil in Hg.
  - destruct (decide (f k > m0)) as [Hgt|Hle].
    + specialize (IH k (f k)). destruct (foldl _ _ _) as [i m]. destruct IH as (Hm & Hall & Hi).
      split_and!; [lia| |].
      * intros g [->|Hg]%elem_of_cons; [lia|auto].
      * right. destruct Hi as [[= -> ->]|[Hi ->]]; [split; [by left|done]|split; [by right|done]].
    + specialize (IH i0 m0). destruct (foldl _ _ _) as [i m]. destruct IH as (Hm & Hall & Hi).
      split_and!; [lia| |].
      * intros g [->|Hg]%elem_of_cons; [lia|auto].
      * destruct Hi as [?|[Hi ->]]; [by left|right; split; [by right|done]].
Qed.

(** The fold that keeps the first non-zero group of the smallest size. *)
Lemma fold_min (f : Z -> Z) keys i0 m0 :
  let '(i, m) := foldl (fun '(index, min) gid =>
      if decide (gid <> 0 /\ f gid < min) then (gid, f gid) else (index, min)) (i0, m0) keys in
  m <= m0 /\ (forall g, g ∈ keys -> g <> 0 -> m <= f g) /\
  ((i, m) = (i0, m0) \/ (i ∈ keys /\ i <> 0 /\ m = f i)).
Proof.
  revert i0 m0. induction keys as [|k keys IH]; intros i0 m0; simpl.
  - split_and!; [lia| |by left]. intros g Hg. by apply elem_of_nil in Hg.
  - destruct (decide (k <> 0 /\ f k < m0)) as [Hgt|Hle].
    + specialize (IH k (f k)). destruct (foldl _ _ _) as [i m]. destruct IH as (Hm & Hall & Hi).
      split_and!; [lia| |].
      * intros g [->|Hg]%elem_of_cons ?; [lia|auto].
      * right. destruct Hi as [[= -> ->]|(Hi & ? & ->)]; [split_and!; [by left|lia|done]|].
        split_and!; [by right|done|done].
    + specialize (IH i0 m0). destruct (foldl _ _ _) as [i m]. destruct IH as (Hm & Hall & Hi).
      split_and!; [lia| |].
      * intros g [->|Hg]%elem_of_cons ?; [lia|auto].
      * destruct Hi as [?|(Hi & ? & ->)]; [by left|right; split_and!; [by right|done|done]].
Qed.

(** Sorting makes the key order independent of the map order. *)
Lemma sortedKeys_unique (O1 O2 : MapOrder) `{!MapOrderLaws (H := O1)} `{!MapOrderLaws (H := O2)} s2g :
  sortedKeys (H := O1) s2g = sortedKeys (H := O2) s2g.
Proof.
  unfold sortedKeys. apply (StronglySorted_unique Z.le).
  - apply StronglySorted_merge_sort; apply _.
  - apply StronglySorted_merge_sort; apply _.
  - rewrite !merge_sort_Permutation. etrans; [apply (range_keys (H := O1))|].
    symmetry. apply (range_keys (H := O2)).
Qed.

Section balance.
Context `{MapOrderLaws}.
Implicit Types (s2g : S2G).

Lemma elem_of_sortedKeys s2g k : k ∈ sortedKeys s2g <-> is_Some (s2g !! k).
Proof.
  unfold sortedKeys. rewrite merge_sort_Permutation, range_keys, list_elem_of_fmap. split.
  - intros ([k' l] & -> & Hkl%elem_of_map_to_list). by exists l.
  - intros [l Hl]. exists (k, l). by rewrite elem_of_map_to_list.
Qed.

Lemma GetMax_spec s2g : partition s2g ->
  let source := GetGIDWithMaximumShards s2g in
  (source = 0 /\ shards_of s2g 0 <> []) \/
  (source <> 0 /\ shards_of s2g 0 = [] /\ is_Some (s2g !! source) /\ shards_of s2g source <> [] /\
   forall k, len (shards_of s2g k) <= len (shards_of s2g source)).
Proof.
  intros Hp. unfold GetGIDWithMaximumShards. cbv zeta.
  destruct (decide (shards_of s2g 0 = [])) as [Hz|Hz].
  2:{ left. split; [|done]. rewrite !bool_decide_eq_true_2; [done| |].
      - destruct (shards_of s2g 0); simpl; [done|lia].
      - unfold shards_of in Hz. by destruct (s2g !! 0). }
  right. rewrite Hz. rewrite (bool_decide_eq_false_2 (_ > 0)) by (simpl; lia). rewrite andb_false_r.
  pose proof (fold_max (fun g => len (shards_of s2g g)) (sortedKeys s2g) (-1) (-1)) as Hf.
  destruct (foldl _ _ _) as [i m]. simpl. destruct Hf as (Hm & Hall & Hi).
  assert (0 < m) as Hpos.
  { destruct (proj2 (partition_in s2g 0 Hp)) as [k Hk]; [unfold NShards; lia|].
    assert (Hk' : k ∈ sortedKeys s2g).
    { apply elem_of_sortedKeys. unfold shards_of in Hk.
      destruct (s2g !! k); [by eexists|by apply elem_of_nil in Hk]. }
    specialize (Hall k Hk'). destruct (shards_of s2g k); [by apply elem_of_nil in Hk|].
    simpl in Hall. lia. }
  assert (Hbig : forall k, len (shards_of s2g k) <= m).
  { intros k. destruct (s2g !! k) eqn:E; [apply Hall, elem_of_sortedKeys; by rewrite E|].
    unfold shards_of. rewrite E. simpl. lia. }
  destruct Hi as [[= -> ->]|[Hin ->]]; [lia|]. split_and!; [|done|by apply elem_of_sortedKeys| |done].
  - intros ->. rewrite Hz in Hpos. simpl in Hpos. lia.
  - intros E. rewrite E in Hpos. simpl in Hpos. lia.
Qed.

Lemma GetMin_spec s2g : (forall k, len (shards_of s2g k) <= NShards) ->
  (exists g, g <> 0 /\ is_Some (s2g !! g)) ->
  let target := GetGIDWithMinimumShards s2g in
  target <> 0 /\ is_Some (s2g !! target) /\
  forall k, k <> 0 -> is_Some (s2g !! k) -> len (shards_of s2g target) <= len (shards_of s2g k).
Proof.
  intros Hp (g & Hg & Hs). unfold GetGIDWithMinimumShards.
  pose proof (fold_min (fun g => len (shards_of s2g g)) (sortedKeys s2g) (-1) (NShards + 1)) as Hf.
  destruct (foldl _ _ _) as [i m]. simpl. destruct Hf as (Hm & Hall & Hi).
  destruct Hi as [[= -> ->]|(Hin & Hne & ->)].
  - specialize (Hall g ltac:(by apply elem_of_sortedKeys) Hg).
    specialize (Hp g). lia.
  - split_and!; [done|by apply elem_of_sortedKeys|].
    intros k Hk Hks. apply Hall; [by apply elem_of_sortedKeys|done].
Qed.

(** ** The balancing loop *)

(** What is left to do: a shard of the invalid group weighs more than any square
    can grow. *)
Definition weight (kl : Z * list Z) : Z :=
  if decide (fst kl = 0) then 20 * len (snd kl) else len (snd kl) * len (snd kl).
Definition total (kls : list (Z * list Z)) : Z := foldr (fun kl acc => weight kl + acc) 0 kls.
Definition work s2g : Z := total (map_to_list s2g).

#[export] Instance total_perm : Proper (Permutation ==> eq) total.
Proof. intros l l' Hp. unfold total. induction Hp; simpl; lia. Qed.

Lemma work_insert s2g k l : work (<[k := l]> s2g) = weight (k, l) + work (delete k s2g).
Proof.
  unfold work. rewrite <-insert_delete_eq.
  by rewrite map_to_list_insert by (by rewrite lookup_delete_eq).
Qed.

Lemma work_split s2g k l : s2g !! k = Some l -> work s2g = weight (k, l) + work (delete k s2g).
Proof. intros E. rewrite <-(insert_id s2g k l E) at 1. apply work_insert. Qed.

Lemma work_bound s2g : partition s2g -> 0 <= work s2g <= 200.
Proof.
  intros Hp.
  assert (Hlen : forall k l, (k, l) ∈ map_to_list s2g -> len l <= 10).
  { intros k l Hkl%elem_of_map_to_list. pose proof (partition_len s2g k Hp) as Hb.
    unfold shards_of in Hb. rewrite Hkl in Hb. apply Hb. }
  pose proof (Permutation_length Hp) as Hl. rewrite length_seqZ in Hl.
  unfold work, all_shards in *. assert (len (concat (snd <$> map_to_list s2g)) = 10) as Hl' by (unfold NShards in Hl; lia).
  clear Hl Hp. enough (0 <= total (map_to_list s2g) <= 20 * len (concat (snd <$> map_to_list s2g))) by lia.
  clear Hl'. induction (map_to_list s2g) as [|[k l] kls IH]; [simpl; lia|].
  change (total ((k, l) :: kls)) with (weight (k, l) + total kls).
  rewrite fmap_cons. simpl concat. rewrite length_app.
  pose proof (Hlen k l ltac:(by left)). destruct IH as [? ?]; [intros; eapply Hlen; by right|].
  unfold weight. simpl fst. simpl snd. destruct (decide (k = 0)); nia.
Qed.

Lemma work_moved s2g source target x rest :
  source <> target -> target <> 0 -> is_Some (s2g !! target) -> partition s2g ->
  shards_of s2g source = x :: rest ->
  source = 0 \/ len (shards_of s2g target) < len rest ->
  work (moved_shard s2g source target x rest) < work s2g.
Proof.
  intros Hne Ht [lt Elt] Hp Hs Hcase. pose proof (partition_len s2g target Hp) as Hlt.
  assert (s2g !! source = Some (x :: rest)) as Els.
  { unfold shards_of in Hs. destruct (s2g !! source); [by simplify_eq/=|done]. }
  assert (len lt < 10) as Hlt10.
  { pose proof (Permutation_length Hp) as Hl. rewrite length_seqZ in Hl.
    rewrite (all_shards_split s2g source), (all_shards_split (delete source s2g) target) in Hl.
    unfold shards_of in Hl. rewrite lookup_delete_ne, Els, Elt in Hl by done. simpl in Hl.
    rewrite !length_app in Hl. unfold NShards in Hl. lia. }
  unfold moved_shard. unfold shards_of in *. rewrite Elt in *. cbn [default from_option id] in *.
  rewrite work_insert, delete_insert_ne, work_insert by done.
  rewrite (work_split s2g source _ Els), (work_split (delete source s2g) target lt)
    by (by rewrite lookup_delete_ne).
  unfold weight. cbn [fst snd]. rewrite !(decide_False (P := target = 0)) by done.
  rewrite length_app. simpl length. destruct (decide (source = 0)) as [->|Hs0]; [nia|].
  destruct Hcase as [?|Hcase]; [done|]. nia.
Qed.

(** Sizes of the groups differ by at most one. *)
Definition balanced_s2g s2g : Prop := forall k k', k <> 0 -> k' <> 0 ->
  is_Some (s2g !! k) -> is_Some (s2g !! k') -> len (shards_of s2g k) <= len (shards_of s2g k') + 1.

Lemma dom_moved s2g source target x rest k :
  is_Some (s2g !! source) -> is_Some (s2g !! target) ->
  is_Some (moved_shard s2g source target x rest !! k) <-> is_Some (s2g !! k).
Proof.
  intros Hs Ht. unfold moved_shard. rewrite !lookup_insert_is_Some'. split; [|by auto].
  intros [<-|[<-|?]]; done.
Qed.

(** No group is ahead of an old group by more than one shard. *)
Definition settled (Old : Z -> Prop) s2g : Prop :=
  shards_of s2g 0 = [] /\
  forall o k, Old o -> is_Some (s2g !! o) -> k <> 0 -> is_Some (s2g !! k) ->
    len (shards_of s2g k) <= len (shards_of s2g o) + 1.

Definition keeps (Old : Z -> Prop) s2g s2g' : Prop :=
  forall g sh, Old g -> sh ∈ shards_of s2g' g -> sh ∈ shards_of s2g g.

Lemma settled_moved (Old : Z -> Prop) s2g source target x rest :
  settled Old s2g -> source <> 0 -> target <> 0 -> source <> target ->
  is_Some (s2g !! source) -> is_Some (s2g !! target) -> shards_of s2g source = x :: rest ->
  (forall k, len (shards_of s2g k) <= len (shards_of s2g source)) ->
  len (shards_of s2g target) < len rest ->
  settled Old (moved_shard s2g source target x rest) /\
  keeps Old s2g (moved_shard s2g source target x rest).
Proof.
  intros [Hz Hset] Hs0 Ht0 Hne Hss Hts Es Hbig Hlt. rewrite Es in Hbig. simpl length in Hbig.
  assert (Hold : ~ Old target).
  { intros Ho. specialize (Hset target source Ho Hts Hs0 Hss). rewrite Es in Hset. simpl in Hset. lia. }
  split; [split|].
  - rewrite moved_shard_of by done. by rewrite !decide_False.
  - intros o k Ho Hso Hk Hsk. rewrite dom_moved in Hso, Hsk by done.
    assert (o <> target) by congruence. rewrite !moved_shard_of by done.
    rewrite (decide_False (P := o = target)) by done.
    pose proof (Hset o k Ho Hso Hk Hsk) as Hok. pose proof (Hset o source Ho Hso Hs0 Hss) as Hos.
    pose proof (Hbig k) as Hbk. rewrite Es in Hos. simpl length in Hos.
    destruct (decide (k = source)) as [->|]; [|destruct (decide (k = target)) as [->|]];
      destruct (decide (o = source)) as [->|]; rewrite ?length_app, ?Es in *; simpl length in *; lia.
  - intros g sh Hg. rewrite moved_shard_of by done. rewrite (decide_False (P := g = target)) by congruence.
    destruct (decide (g = source)) as [->|]; [|done]. rewrite Es. by right.
Qed.

(** The loop ends, having given every shard to a group other than the invalid one
    and made the groups equal up to one shard. *)
Lemma balance_spec fuel s2g :
  partition s2g -> (exists g, g <> 0 /\ is_Some (s2g !! g)) -> work s2g < Z.of_nat fuel ->
  wp (balance fuel) s2g (fun finished s2g' => finished = true /\ partition s2g' /\
    (forall k, is_Some (s2g' !! k) <-> is_Some (s2g !! k)) /\
    shards_of s2g' 0 = [] /\ balanced_s2g s2g' /\
    forall Old, settled Old s2g -> keeps Old s2g s2g').
Proof.
  revert s2g. induction fuel as [|fuel IH]; intros s2g Hp Hg Hw.
  { pose proof (work_bound s2g Hp). lia. }
  simpl. go. set (source := GetGIDWithMaximumShards s2g). set (target := GetGIDWithMinimumShards s2g).
  destruct (GetMin_spec s2g) as (Ht0 & Hts & Hmin); [by intros k; apply partition_len|done|]. fold target in Ht0, Hts, Hmin.
  pose proof (GetMax_spec s2g Hp) as Hmax. cbv zeta in Hmax. fold source in Hmax.
  destruct (_ && _) eqn:Hstop; go.
  - apply andb_true_iff in Hstop as [Hs0%bool_decide_eq_true Hd%bool_decide_eq_true].
    destruct Hmax as [[? _]|(_ & Hz & _ & _ & Hbig)]; [done|].
    split_and!; [done|done|done|done| |by intros Old _ g sh]. intros k k' Hk Hk' _ Hks'.
    specialize (Hbig k). specialize (Hmin k' Hk' Hks'). lia.
  - assert (Hgo : shards_of s2g source <> [] /\ source <> target /\
      (source = 0 \/ len (shards_of s2g source) - len (shards_of s2g target) > 1)).
    { destruct Hmax as [[-> Hz]|(Hs0 & Hz & Hss & Hne & Hbig)]; [split_and!; [done|done|by left]|].
      rewrite bool_decide_eq_true_2 in Hstop by done. cbn in Hstop.
      apply bool_decide_eq_false in Hstop. split_and!; [done| |right; lia].
      intros E. rewrite E in Hstop. lia. }
    destruct Hgo as (Hne & Hst & Hcase).
    destruct (shards_of s2g source) as [|x rest] eqn:Es; [done|].
    apply (wp_lift _ _ _ x); [done|]. go.
    assert (Hs' : shards_of (<[target := shards_of s2g target ++ [x]]> s2g) source = x :: rest).
    { rewrite <-Es. unfold shards_of. by rewrite lookup_insert_ne by done. }
    rewrite Hs'. rewrite slice_from_Some by (simpl; lia). go.
    change (drop (Z.to_nat 1) (x :: rest)) with rest.
    assert (Hss : is_Some (s2g !! source)).
    { unfold shards_of in Es. by destruct (s2g !! source). }
    pose proof (work_moved s2g source target x rest Hst Ht0 Hts Hp Es) as Hdec.
    eapply wp_mono; [apply (IH (moved_shard s2g source target x rest))|].
    + by apply moved_shard_partition.
    + destruct Hg as (g & Hg0 & Hgs). exists g. by rewrite dom_moved.
    + simpl length in Hcase.
      assert (source = 0 \/ len (shards_of s2g target) < len rest) as Hc
        by (destruct Hcase; [by left|right; lia]).
      specialize (Hdec Hc). lia.
    + intros finished s2g' (Hf & Hp' & Hdom & Hz & Hb & Hkeep). split_and!; try done.
      * intros k. rewrite Hdom. by apply dom_moved.
      * intros Old Hset. destruct Hmax as [[Hs0 Hz0]|(Hs0 & _ & _ & _ & Hbig)];
          [by destruct Hset|].
        destruct (settled_moved Old s2g source target x rest) as [Hset' Hk']; try done.
        { intros k. rewrite Es. apply Hbig. }
        { destruct Hcase; [done|]. simpl length in *. lia. }
        intros g sh Hog Hsh. by apply Hk', (Hkeep Old).
Qed.
End balance.
