(* ===== verification/CtrlOps.v ===== *)
(** * The operations of the configuration state machine

    Each traversal of a map is shown equal to a definition that does not mention the
    order; then the effect of [Join], [Leave], [Move] and [Query] on the list of
    configurations. *)
From S2P Require Import Prelude CtrlConfig CtrlBalance.

(** ** Traversals *)

(** A nested loop is a loop over pairs. *)
Definition pairs_of {A B} (l : list (A * list B)) : list (A * B) :=
  l ≫= (fun '(x, ys) => (fun y => (x, y)) <$> ys).

Lemma forM_nested {S A B} (l : list (A * list B)) (f : A -> B -> M S unit) s :
  forM l (fun '(x, ys) => forM ys (f x)) s = forM (pairs_of l) (fun '(x, y) => f x y) s.
Proof.
  revert s. induction l as [|[x ys] l IH]; intros s; [done|].
  unfold pairs_of in *. rewrite bind_cons, forM_app. simpl. unfold bind.
  assert (E : forall s, forM ((fun y => (x, y)) <$> ys) (fun '(x, y) => f x y) s = forM ys (f x) s).
  { clear s. induction ys as [|y ys IHy]; intros s; [done|]. simpl. unfold bind.
    destruct (f x y s) as [[[] s']|]; [apply IHy|done]. }
  rewrite E. destruct (forM ys (f x) s) as [[[] s']|]; [apply IH|done].
Qed.

Lemma pairs_of_snd {A B} (l : list (A * list B)) : snd <$> pairs_of l = concat (snd <$> l).
Proof.
  induction l as [|[x ys] l IH]; [done|]. unfold pairs_of in *. rewrite bind_cons, fmap_app, IH.
  rewrite fmap_cons. simpl. f_equal. rewrite <-list_fmap_compose. by rewrite list_fmap_id.
Qed.

Lemma elem_of_pairs_of {A B} (l : list (A * list B)) x y :
  (x, y) ∈ pairs_of l <-> exists ys, (x, ys) ∈ l /\ y ∈ ys.
Proof.
  unfold pairs_of. rewrite list_elem_of_bind. split.
  - intros ([x' ys] & Hxy & Hl). apply list_elem_of_fmap in Hxy as (y' & [= -> ->] & Hy). eauto.
  - intros (ys & Hl & Hy). exists (x, ys). split; [|done]. apply list_elem_of_fmap. eauto.
Qed.

(** Writing pairs (group, shard) into the array. *)
Definition write_shard (p : Z * Z) : M (list Z) unit :=
  let! newShards := get in
  let! newShards := lift (slice_set newShards (snd p) (fst p)) in
  modify (fun _ => newShards).

Lemma write_shards_spec (ps : list (Z * Z)) (arr : list Z) :
  NoDup (snd <$> ps) -> Forall (fun p => 0 <= snd p < len arr) ps ->
  wp (forM ps write_shard) arr (fun _ arr' => length arr' = length arr /\
    (forall g sh, (g, sh) ∈ ps -> slice_get arr' sh = Some g) /\
    (forall sh, sh ∉ (snd <$> ps) -> slice_get arr' sh = slice_get arr sh)).
Proof.
  revert arr. induction ps as [|[g sh] ps IH]; intros arr Hnd Hr; simpl.
  { apply wp_ret. split_and!; [done| |done]. intros g sh Hin. by apply elem_of_nil in Hin. }
  rewrite fmap_cons in Hnd. apply NoDup_cons in Hnd as [Hnot Hnd]. simpl in Hnot.
  apply Forall_cons in Hr as [Hsh Hr]. simpl in Hsh.
  go. unfold write_shard. go. simpl. rewrite slice_set_Some by done. go.
  eapply wp_mono; [apply IH; [done|]|].
  { eapply Forall_impl; [exact Hr|]. intros p. rewrite length_insert. done. }
  intros [] arr' (Hl & Hin & Hout). rewrite length_insert in Hl. split_and!; [done| |].
  - intros g' sh' [[= -> ->]|Hp]%elem_of_cons; [|by apply Hin].
    rewrite Hout by done. rewrite slice_get_insert by done. by rewrite decide_True.
  - intros sh' Hn. apply not_elem_of_cons in Hn as [Hne Hn]. rewrite Hout by done.
    rewrite slice_get_insert by done. simpl in Hne. by rewrite decide_False by congruence.
Qed.

(** Arrays with the same elements are equal. *)
Lemma slice_ext {A} (l l' : list A) :
  length l = length l' -> (forall i, 0 <= i < len l -> slice_get l i = slice_get l' i) -> l = l'.
Proof.
  intros Hl Hi. apply list_eq_same_length with (n := length l); [done|done|].
  intros i x y Hlt Hx Hy. specialize (Hi (Z.of_nat i) ltac:(lia)).
  unfold slice_get in Hi. rewrite !decide_True, Nat2Z.id in Hi by lia. congruence.
Qed.

(** The array in which every shard has its group. *)
Definition assignment (s2g : S2G) (arr : list Z) : Prop :=
  length arr = Z.to_nat NShards /\
  forall g sh, sh ∈ shards_of s2g g <-> slice_get arr sh = Some g.

Lemma assignment_unique s2g arr arr' :
  partition s2g -> assignment s2g arr -> assignment s2g arr' -> arr = arr'.
Proof.
  intros Hp [Hl Ha] [Hl' Ha']. apply slice_ext; [congruence|]. intros i Hi.
  destruct (proj2 (partition_in s2g i Hp)) as [g Hg]; [rewrite Hl in Hi; unfold NShards in *; lia|].
  by rewrite (proj1 (Ha g i) Hg), (proj1 (Ha' g i) Hg).
Qed.

Section traversals.
Context `{MapOrderLaws}.

Lemma assignShards_spec s2g : partition s2g ->
  wp (assignShards s2g) zeroShards (fun _ arr => assignment s2g arr).
Proof.
  intros Hp. unfold wp, assignShards.
  rewrite (forM_nested (range s2g) (fun gid shard =>
      let! newShards := get in
      let! newShards := lift (slice_set newShards shard gid) in
      modify (fun _ => newShards))).
  assert (Hall : Permutation (snd <$> pairs_of (range s2g)) (all_shards s2g)).
  { rewrite pairs_of_snd. unfold all_shards. by rewrite (range_perm s2g). }
  assert (Hin : forall g sh, (g, sh) ∈ pairs_of (range s2g) <-> sh ∈ shards_of s2g g).
  { intros g sh. rewrite elem_of_pairs_of. unfold shards_of. split.
    - intros (l & Hl%elem_of_range & Hsh). by rewrite Hl.
    - destruct (s2g !! g) as [l|] eqn:E; [|by intros ?%elem_of_nil]. intros Hsh. exists l.
      by rewrite elem_of_range. }
  assert (Hrange : forall g sh, sh ∈ shards_of s2g g -> 0 <= sh < NShards).
  { intros g sh Hsh. apply (partition_in s2g sh Hp). eauto. }
  pose proof (write_shards_spec (pairs_of (range s2g)) zeroShards) as Hw. unfold wp in Hw.
  assert (E : forall ps s, forM ps (fun '(x, y) => let! newShards := get in
      let! newShards := lift (slice_set newShards y x) in
      modify (fun _ => newShards)) s = forM ps write_shard s).
  { clear. induction ps as [|[g sh] ps IH]; intros s; [done|]. simpl. unfold bind.
    destruct (write_shard (g, sh) s) as [[[] s']|] eqn:E; unfold write_shard in E; simpl in E;
      unfold bind in E; rewrite E; [apply IH|done]. }
  rewrite E. destruct (forM _ _ _) as [[[] arr]|].
  - destruct Hw as (Hl & Hpr & _).
    + rewrite Hall. by apply partition_NoDup.
    + apply Forall_forall. intros [g sh] Hgs%Hin%Hrange. done.
    + assert (length arr = Z.to_nat NShards) as Hl' by done. split; [done|].
      intros g sh. rewrite <-Hin. split; [apply Hpr|]. intros Hg.
      pose proof (slice_get_lt _ _ _ Hg) as Hlt.
      destruct (proj2 (partition_in s2g sh Hp)) as [g' Hg']; [rewrite Hl' in Hlt; unfold NShards in *; lia|].
      apply Hin in Hg'. pose proof (Hpr _ _ Hg') as E'. congruence.
  - apply Hw; [rewrite Hall; by apply partition_NoDup|].
    apply Forall_forall. intros [g sh] Hgs%Hin%Hrange. done.
Qed.

Lemma copyServers_id servers : copyServers servers = servers.
Proof. apply copy_into_replicate. Qed.

(** Inserting the entries of a traversal one by one. *)
Lemma foldl_insert_lookup {V} (kvs : list (Z * V)) (m : gmap Z V) k :
  NoDup (fst <$> kvs) ->
  foldl (fun m '(k, v) => <[k := v]> m) m kvs !! k =
    match (list_to_map kvs : gmap Z V) !! k with Some v => Some v | None => m !! k end.
Proof.
  revert m. induction kvs as [|[k' v'] kvs IH]; intros m Hnd; simpl; [by rewrite lookup_empty|].
  rewrite fmap_cons in Hnd. apply NoDup_cons in Hnd as [Hn Hnd]. rewrite IH by done. simpl in Hn.
  destruct (decide (k' = k)) as [->|Hne].
  - rewrite !lookup_insert_eq. by rewrite (not_elem_of_list_to_map_1 kvs k Hn).
  - by rewrite !lookup_insert_ne.
Qed.

Lemma NoDup_range {V} (m : gmap Z V) : NoDup (fst <$> range m).
Proof. rewrite range_keys. apply NoDup_fst_map_to_list. Qed.

Lemma list_to_map_range {V} (m : gmap Z V) : (list_to_map (range m) : gmap Z V) = m.
Proof.
  etrans; [|apply list_to_map_to_list]. apply list_to_map_proper; [apply NoDup_range|apply range_perm].
Qed.

Lemma foldl_pointwise {A B} (f g : A -> B -> A) a l :
  (forall a b, f a b = g a b) -> foldl f a l = foldl g a l.
Proof.
  intros Hfg. revert a. induction l as [|b l IH]; intros a; [done|]. simpl. by rewrite Hfg, IH.
Qed.

Lemma deepCopy_id groups : deepCopy groups = groups.
Proof.
  unfold deepCopy. apply map_eq. intros k.
  rewrite (foldl_pointwise _ (fun m '(k, v) => <[k := v]> m)).
  - rewrite foldl_insert_lookup by apply NoDup_range. rewrite list_to_map_range, lookup_empty.
    by destruct (groups !! k).
  - intros m [gid servers]. by rewrite copyServers_id.
Qed.

(** Groups already there win. *)
Lemma addGroups_union groups newGroups : addGroups groups newGroups = newGroups ∪ groups.
Proof.
  unfold addGroups. rewrite <-(list_to_map_range groups) at 2.
  pose proof (NoDup_range groups) as Hnd. revert newGroups Hnd.
  induction (range groups) as [|[k v] kvs IH]; intros m Hnd; simpl; [by rewrite map_union_empty|].
  rewrite fmap_cons in Hnd. apply NoDup_cons in Hnd as [_ Hnd].
  destruct (m !! k) as [v'|] eqn:E.
  - rewrite IH by done. apply map_eq. intros j. rewrite !lookup_union.
    destruct (decide (k = j)) as [->|Hne]; [|by rewrite lookup_insert_ne].
    rewrite E, lookup_insert_eq. by destruct ((list_to_map kvs : gmap _ _) !! j).
  - rewrite copyServers_id, IH by done. rewrite <-insert_union_l. by rewrite insert_union_r.
Qed.
End traversals.

(** ** Group2Shards *)

Definition add_shard (s2g : S2G) (p : Z * Z) : S2G :=
  <[snd p := shards_of s2g (snd p) ++ [fst p]]> s2g.

Lemma zip_seqZ_snoc (l : list Z) x :
  zip (seqZ 0 (len (l ++ [x]))) (l ++ [x]) = zip (seqZ 0 (len l)) l ++ [(len l, x)].
Proof.
  rewrite length_app, Nat2Z.inj_add, seqZ_app by lia. simpl. rewrite zip_with_app; [|by rewrite length_seqZ; lia].
  by rewrite Z.add_0_l.
Qed.

Lemma slice_get_snoc (l : list Z) x sh g :
  slice_get (l ++ [x]) sh = Some g <-> slice_get l sh = Some g \/ (sh = len l /\ g = x).
Proof.
  split.
  - intros Hg. pose proof (slice_get_lt _ _ _ Hg) as Hlt. rewrite length_app in Hlt. simpl in Hlt.
    destruct (decide (sh < len l)); [left; by rewrite slice_get_app_l in Hg|].
    right. assert (sh = len l) as -> by lia. split; [done|].
    rewrite slice_get_app_r, Z.sub_diag in Hg by lia. by injection Hg.
  - intros [Hg|[-> ->]].
    + rewrite slice_get_app_l; [done|]. apply slice_get_lt in Hg. lia.
    + by rewrite slice_get_app_r, Z.sub_diag by lia.
Qed.

Lemma add_shards_spec (s0 : S2G) (l : list Z) :
  (forall g, shards_of s0 g = []) ->
  let s2g := foldl add_shard s0 (zip (seqZ 0 (len l)) l) in
  (forall g sh, sh ∈ shards_of s2g g <-> slice_get l sh = Some g) /\
  Permutation (all_shards s2g) (seqZ 0 (len l)) /\
  (forall g, is_Some (s2g !! g) <-> is_Some (s0 !! g) \/ g ∈ l).
Proof.
  intros H0. cbv zeta. induction l as [|x l IH] using rev_ind.
  { simpl. split_and!.
    - intros g sh. rewrite H0. unfold slice_get. split; [intros Hin; by apply elem_of_nil in Hin|].
      case_decide; rewrite ?lookup_nil; intros [=].
    - destruct (all_shards s0) as [|y ys] eqn:E; [done|].
      assert (Hy : y ∈ all_shards s0) by (rewrite E; by left).
      apply elem_of_all_shards in Hy as [g Hg]. rewrite H0 in Hg. by apply elem_of_nil in Hg.
    - intros g. rewrite elem_of_nil. tauto. }
  rewrite zip_seqZ_snoc, foldl_app. cbn [foldl]. set (s2g := foldl add_shard s0 _) in *.
  destruct IH as (Hin & Hall & Hdom). unfold add_shard. cbn [fst snd]. split_and!.
  - intros g sh. rewrite slice_get_snoc, <-Hin. unfold shards_of at 1.
    destruct (decide (x = g)) as [->|Hne].
    + rewrite lookup_insert_eq. cbn. rewrite elem_of_app, list_elem_of_singleton. tauto.
    + rewrite lookup_insert_ne by done. fold (shards_of s2g g). split; [by left|].
      intros [?|[_ ->]]; done.
  - rewrite all_shards_insert, length_app, Nat2Z.inj_add, seqZ_app by lia. simpl.
    rewrite <-Hall, (all_shards_split s2g x). rewrite Z.add_0_l. solve_Permutation.
  - intros g. rewrite lookup_insert_is_Some', Hdom, elem_of_app, list_elem_of_singleton.
    intuition congruence.
Qed.

Section group2shards.
Context `{MapOrderLaws}.

Lemma foldl_empty_groups {V} (kvs : list (Z * V)) (s : S2G) g :
  foldl (fun s2g '(gid, _) => <[gid := []]> s2g) s kvs !! g =
    if decide (g ∈ fst <$> kvs) then Some [] else s !! g.
Proof.
  revert s. induction kvs as [|[k v] kvs IH]; intros s; [done|].
  cbn [foldl]. rewrite IH, fmap_cons. destruct (decide (g ∈ fst <$> kvs)) as [Hin|Hin].
  - by rewrite decide_True by (by right).
  - destruct (decide (k = g)) as [->|Hne].
    + rewrite lookup_insert_eq. by rewrite decide_True by (by left).
    + rewrite lookup_insert_ne by done. rewrite decide_False; [done|].
      intros [->|?]%elem_of_cons; done.
Qed.

(** The same without a map order. *)
Lemma Group2Shards_eq config :
  Group2Shards config = foldl add_shard ((fun _ => []) <$> Groups config)
    (zip (seqZ 0 (len (Shards config))) (Shards config)).
Proof.
  unfold Group2Shards. cbv zeta. rewrite (foldl_pointwise _ add_shard _ _); [|by intros ? []].
  f_equal. apply map_eq. intros g. rewrite foldl_empty_groups, lookup_fmap, lookup_empty.
  destruct (Groups config !! g) as [v|] eqn:E; cbn.
  - rewrite decide_True; [done|]. apply list_elem_of_fmap. exists (g, v). by rewrite elem_of_range.
  - rewrite decide_False; [done|]. intros ([g' v] & -> & Hv%elem_of_range)%list_elem_of_fmap. simpl in *.
    congruence.
Qed.

Lemma Group2Shards_spec config : length (Shards config) = Z.to_nat NShards ->
  let s2g := Group2Shards config in
  partition s2g /\ (forall g sh, sh ∈ shards_of s2g g <-> slice_get (Shards config) sh = Some g) /\
  (forall g, is_Some (s2g !! g) <-> is_Some (Groups config !! g) \/ g ∈ Shards config).
Proof.
  intros Hlen. cbv zeta. rewrite Group2Shards_eq.
  destruct (add_shards_spec ((fun _ => []) <$> Groups config) (Shards config)) as (Hin & Hall & Hdom).
  { intros g. unfold shards_of. rewrite lookup_fmap. by destruct (Groups config !! g). }
  split_and!; [|done|].
  - unfold partition. rewrite Hall, Hlen. done.
  - intros g. rewrite Hdom, lookup_fmap, fmap_is_Some. done.
Qed.
End group2shards.

(** ** Configurations *)

Definition owned (c : Config) (g : Z) : list Z :=
  filter (fun sh => slice_get (Shards c) sh = Some g) (seqZ 0 NShards).

(** Every shard belongs to a group of the configuration. *)
Definition assigned (c : Config) : Prop :=
  forall sh g, slice_get (Shards c) sh = Some g -> is_Some (Groups c !! g).

(** The groups have the same number of shards, up to one. *)
Definition balanced (c : Config) : Prop :=
  forall g g', is_Some (Groups c !! g) -> is_Some (Groups c !! g') ->
    len (owned c g) <= len (owned c g') + 1.

Record wf_config (c : Config) : Prop := {
  wc_len : length (Shards c) = Z.to_nat NShards;
  wc_zero : Groups c !! 0 = None
}.

Lemma owned_perm c s2g g :
  partition s2g -> assignment s2g (Shards c) -> Permutation (owned c g) (shards_of s2g g).
Proof.
  intros Hp [Hl Ha]. apply NoDup_Permutation.
  - apply NoDup_filter, NoDup_seqZ.
  - by apply partition_group_NoDup.
  - intros sh. unfold owned. rewrite list_elem_of_filter, elem_of_seqZ, Ha. split; [tauto|].
    intros Hg. split; [done|]. apply slice_get_lt in Hg. rewrite Hl in Hg. unfold NShards in *. lia.
Qed.

Lemma owned_len c s2g g :
  partition s2g -> assignment s2g (Shards c) -> len (owned c g) = len (shards_of s2g g).
Proof. intros Hp Ha. by rewrite (owned_perm c s2g g Hp Ha). Qed.

Lemma Group2Shards_assignment `{MapOrderLaws} c :
  wf_config c -> assignment (Group2Shards c) (Shards c).
Proof. intros [Hl _]. split; [done|]. by apply Group2Shards_spec. Qed.
