(* ===== verification/CtrlProps.v ===== *)
(** * Properties of the shard controller's configurations

    [Join] ends with a balanced assignment and moves shards only to the groups that
    join; [Leave] hands out only the shards of the groups that leave; configurations
    are numbered and never change once made; no operation depends on Go's map
    iteration order. *)
From S2P Require Import Prelude CtrlConfig CtrlBalance CtrlOps.

(** ** What each operation appends *)
Section ops.
Context `{MapOrderLaws}.
Implicit Types (cf : MemoryConfigStateMachine) (c : Config).

Lemma nextConfig_run cf c : last (Configs cf) = Some c ->
  nextConfig cf = Some (mkConfig (len (Configs cf)) (Shards c) (Groups c), cf).
Proof.
  intros Hl. unfold nextConfig, bind, get. rewrite last_lookup in Hl.
  assert (Hs : slice_get (Configs cf) (len (Configs cf) - 1) = Some c).
  { apply slice_get_Some. pose proof (lookup_lt_Some _ _ _ Hl). split; [lia|].
    rewrite <-Hl. f_equal. lia. }
  rewrite Hs. cbn. by rewrite deepCopy_id.
Qed.

Lemma assignShards_run s2g : partition s2g ->
  exists arr, assignShards s2g zeroShards = Some (tt, arr) /\ assignment s2g arr.
Proof. intros ([] & arr & Ha & Hs)%assignShards_spec%wp_runs. by exists arr. Qed.

(** The shard a group has in an assignment is one the array gives it. *)
Lemma assignment_get s2g arr sh g : assignment s2g arr -> slice_get arr sh = Some g -> sh ∈ shards_of s2g g.
Proof. intros [_ Ha] Hg. by apply Ha. Qed.

Lemma elem_of_Shards c sh g : slice_get (Shards c) sh = Some g -> g ∈ Shards c.
Proof. intros [_ Hg]%slice_get_Some. by apply list_elem_of_lookup_2 in Hg. Qed.

Lemma Shards_elem_of c g : g ∈ Shards c -> exists sh, slice_get (Shards c) sh = Some g.
Proof.
  intros [i Hi]%list_elem_of_lookup_1. exists (Z.of_nat i). apply slice_get_Some. rewrite Nat2Z.id. split; [lia|done].
Qed.

Lemma shards_of_Some (s2g : S2G) g sh : sh ∈ shards_of s2g g -> is_Some (s2g !! g).
Proof. unfold shards_of. destruct (s2g !! g); [by eexists|]. cbn. intros Hx. by apply elem_of_nil in Hx. Qed.

Lemma Join_run fuel groups cf c :
  last (Configs cf) = Some c -> wf_config c -> groups !! 0 = None -> Groups c ∪ groups <> ∅ ->
  (forall sh g, slice_get (Shards c) sh = Some g -> g = 0 \/ is_Some (Groups c !! g)) ->
  (200 < fuel)%nat ->
  exists c', Join fuel groups cf = Some (Some OK, mkMemoryConfigStateMachine (Configs cf ++ [c'])) /\
    Num c' = len (Configs cf) /\ Groups c' = Groups c ∪ groups /\ wf_config c' /\
    assigned c' /\ balanced c' /\
    (balanced c -> assigned c -> forall sh g, slice_get (Shards c') sh = Some g ->
       is_Some (Groups c !! g) -> slice_get (Shards c) sh = Some g).
Proof.
  intros Hlast [Hlen Hzero] Hg0 Hne Hown Hfuel.
  set (G := Groups c ∪ groups) in *.
  set (nc := mkConfig (len (Configs cf)) (Shards c) G).
  assert (Hwf : wf_config nc).
  { split; [done|]. cbn. unfold G. by rewrite lookup_union, Hzero, Hg0. }
  destruct (Group2Shards_spec nc Hlen) as (Hp & Hin & Hdom).
  assert (Hex : exists g, g <> 0 /\ is_Some (Group2Shards nc !! g)).
  { apply map_choose in Hne as (g & v & Hg). exists g. split.
    - intros ->. destruct Hwf as [_ Hz]. cbn in Hz. congruence.
    - apply Hdom. left. by exists v. }
  pose proof (balance_spec fuel _ Hp Hex) as Hb. pose proof (work_bound _ Hp) as Hwb.
  specialize (Hb ltac:(lia)). apply wp_runs in Hb as (b & s2g & Hrun & -> & Hp' & Hdom' & Hz & Hbal & Hkeep).
  destruct (assignShards_run s2g Hp') as (arr & Harr & Hass).
  set (c' := mkConfig (len (Configs cf)) arr G). exists c'.
  assert (Hmem : forall g, g <> 0 -> is_Some (s2g !! g) <-> is_Some (G !! g)).
  { intros g Hgz. rewrite Hdom', Hdom. cbn. split; [|by left]. intros [?|Hgs]; [done|].
    apply (Shards_elem_of c) in Hgs as [sh Hsh]. destruct (Hown sh g Hsh) as [?|[v Hv]]; [done|].
    unfold G. rewrite lookup_union, Hv. by destruct (groups !! g); eexists. }
  assert (HG0 : G !! 0 = None) by apply Hwf.
  split_and!; [|done|done|by split; [apply Hass|]| | |].
  - unfold Join, bind. rewrite (nextConfig_run cf c Hlast). cbn [Num Shards Groups].
    rewrite addGroups_union. fold G. fold nc. unfold lift. rewrite Hrun, Harr. done.
  - intros sh g Hg. pose proof (assignment_get _ _ _ _ Hass Hg) as Hsg.
    destruct (decide (g = 0)) as [->|Hgz]; [rewrite Hz in Hsg; by apply elem_of_nil in Hsg|].
    apply Hmem; [done|]. by eapply shards_of_Some.
  - intros g g' Hg Hg'. rewrite !(owned_len c' s2g) by done.
    assert (g <> 0 /\ g' <> 0) as [? ?] by (split; intros ->; cbn in *; destruct Hg, Hg'; congruence).
    apply Hbal; try done; by apply Hmem.
  - intros Hbc Hac sh g Hg [v Hv]. apply Hin.
    apply (Hkeep (fun g => is_Some (Groups c !! g))); [|by eexists|by eapply assignment_get].
    assert (Hs0 : forall k, ~ is_Some (Groups c !! k) -> shards_of (Group2Shards nc) k = []).
    { intros k Hk. destruct (shards_of (Group2Shards nc) k) as [|x l] eqn:E; [done|].
      exfalso. apply Hk, (Hac x), Hin. rewrite E. by left. }
    split; [apply Hs0; rewrite Hzero; by intros [? [=]]|].
    intros o k Ho _ Hk _. destruct (decide (is_Some (Groups c !! k))) as [Hkc|Hkc].
    + rewrite <-!(owned_len nc) by (done || by apply Group2Shards_assignment).
      apply (Hbc k o Hkc Ho).
    + rewrite (Hs0 k Hkc). simpl. lia.
Qed.

(** ** Leave *)

Lemma decide_elem_of_cons {V} (k gid : Z) gids (a b : V) :
  (if decide (k ∈ gid :: gids) then a else b) =
  (if decide (k ∈ gids) then a else if decide (k = gid) then a else b).
Proof.
  destruct (decide (k ∈ gids)); [by rewrite decide_True by (by right)|].
  destruct (decide (k = gid)) as [->|]; [by rewrite decide_True by (by left)|].
  rewrite decide_False; [done|]. by intros [->|?]%elem_of_cons.
Qed.

Lemma removeGroups_spec gids G (s2g : S2G) orphans :
  let '(G', s2g', orphans') := foldl removeGroup (G, s2g, orphans) gids in
  (forall k, G' !! k = if decide (k ∈ gids) then None else G !! k) /\
  (forall k, s2g' !! k = if decide (k ∈ gids) then None else s2g !! k) /\
  Permutation (all_shards s2g' ++ orphans') (all_shards s2g ++ orphans).
Proof.
  revert G s2g orphans. induction gids as [|gid gids IH]; intros G s2g orphans; [done|].
  cbn [foldl].
  set (st := removeGroup (G, s2g, orphans) gid).
  assert (Hst : (forall k, fst (fst st) !! k = if decide (k = gid) then None else G !! k) /\
    (forall k, snd (fst st) !! k = if decide (k = gid) then None else s2g !! k) /\
    Permutation (all_shards (snd (fst st)) ++ snd st) (all_shards s2g ++ orphans)).
  { unfold st, removeGroup.
    assert (HG : forall k, (match G !! gid with Some _ => delete gid G | None => G end) !! k =
      if decide (k = gid) then None else G !! k).
    { intros k. destruct (decide (k = gid)) as [->|Hne].
      - destruct (G !! gid) eqn:E; [by rewrite lookup_delete_eq|done].
      - destruct (G !! gid); [by rewrite lookup_delete_ne|done]. }
    destruct (s2g !! gid) as [l|] eqn:E; cbn [fst snd]; split_and!; try done.
    - intros k. destruct (decide (k = gid)) as [->|Hne]; [by rewrite lookup_delete_eq|].
      by rewrite lookup_delete_ne.
    - rewrite (all_shards_split s2g gid). unfold shards_of. rewrite E. cbn. solve_Permutation.
    - intros k. by destruct (decide (k = gid)) as [->|]. }
  destruct st as [[G1 s1] o1]. cbn [fst snd] in Hst. destruct Hst as (HG & Hs & Hperm).
  specialize (IH G1 s1 o1). destruct (foldl removeGroup _ gids) as [[G' s'] o'].
  destruct IH as (HG' & Hs' & Hperm'). split_and!; [| |by rewrite Hperm'].
  - intros k. by rewrite HG', HG, decide_elem_of_cons.
  - intros k. by rewrite Hs', Hs, decide_elem_of_cons.
Qed.

Lemma adoptShard_of (s2g : S2G) sh g : let target := GetGIDWithMinimumShards s2g in
  shards_of (adoptShard s2g sh) g =
    if decide (g = target) then shards_of s2g target ++ [sh] else shards_of s2g g.
Proof.
  cbv zeta. unfold adoptShard, shards_of at 1. destruct (decide (g = _)) as [->|Hne].
  - by rewrite lookup_insert_eq.
  - by rewrite lookup_insert_ne.
Qed.

Lemma adoptShard_all (s2g : S2G) sh :
  Permutation (all_shards (adoptShard s2g sh)) (all_shards s2g ++ [sh]).
Proof.
  unfold adoptShard. rewrite all_shards_insert, (all_shards_split s2g (GetGIDWithMinimumShards s2g)).
  solve_Permutation.
Qed.

Lemma adoptShards_all orphans (s2g : S2G) :
  Permutation (all_shards (foldl adoptShard s2g orphans)) (all_shards s2g ++ orphans).
Proof.
  revert s2g. induction orphans as [|x orphans IH]; intros s2g; cbn [foldl]; [by rewrite app_nil_r|].
  rewrite IH, adoptShard_all. by rewrite <-app_assoc.
Qed.

(** Orphans go to the smallest groups: nothing else moves and balance is kept. *)
Lemma adoptShards_spec orphans (s2g : S2G) :
  (exists g, g <> 0 /\ is_Some (s2g !! g)) -> len (all_shards s2g ++ orphans) <= NShards ->
  let s2g' := foldl adoptShard s2g orphans in
  (forall g, is_Some (s2g' !! g) <-> is_Some (s2g !! g)) /\
  (forall g sh, sh ∈ shards_of s2g g -> sh ∈ shards_of s2g' g) /\
  shards_of s2g' 0 = shards_of s2g 0 /\
  (balanced_s2g s2g -> balanced_s2g s2g').
Proof.
  cbv zeta. revert s2g. induction orphans as [|x orphans IH]; intros s2g Hex Hlen; cbn [foldl]; [done|].
  assert (Hsmall : forall k, len (shards_of s2g k) <= NShards).
  { intros k. rewrite (all_shards_split s2g k) in Hlen. rewrite !length_app in Hlen. lia. }
  destruct (GetMin_spec s2g Hsmall Hex) as (Ht0 & Hts & Hmin).
  set (target := GetGIDWithMinimumShards s2g) in *.
  assert (Hof : forall g, shards_of (adoptShard s2g x) g =
    if decide (g = target) then shards_of s2g target ++ [x] else shards_of s2g g)
    by apply adoptShard_of.
  assert (Hdom : forall g, is_Some (adoptShard s2g x !! g) <-> is_Some (s2g !! g)).
  { intros g. unfold adoptShard. fold target. rewrite lookup_insert_is_Some'.
    split; [intros [<-|?]; done|by right]. }
  destruct (IH (adoptShard s2g x)) as (Hd & Hk & Hz & Hb).
  - destruct Hex as (g & ? & ?). exists g. by rewrite Hdom.
  - rewrite adoptShard_all, <-app_assoc. exact Hlen.
  - split_and!.
    + intros g. by rewrite Hd, Hdom.
    + intros g sh Hsh. apply Hk. rewrite Hof. destruct (decide _) as [->|]; [|done].
      apply elem_of_app. by left.
    + rewrite Hz, Hof. by rewrite decide_False by done.
    + intros Hbal. apply Hb. intros k k' Hk0 Hk0' Hks Hks'. rewrite Hdom in Hks, Hks'. rewrite !Hof.
      pose proof (Hmin k' Hk0' Hks'). pose proof (Hbal k k' Hk0 Hk0' Hks Hks').
      destruct (decide (k = target)) as [->|]; destruct (decide (k' = target)) as [->|];
        rewrite ?length_app; simpl length; lia.
Qed.

Lemma Leave_run gids cf c :
  last (Configs cf) = Some c -> wf_config c -> assigned c ->
  (exists g, is_Some (Groups c !! g) /\ g ∉ gids) ->
  exists c', Leave gids cf = Some (OK, mkMemoryConfigStateMachine (Configs cf ++ [c'])) /\
    Num c' = len (Configs cf) /\ wf_config c' /\
    (forall g, Groups c' !! g = if decide (g ∈ gids) then None else Groups c !! g) /\
    assigned c' /\
    (forall sh g, slice_get (Shards c) sh = Some g -> g ∉ gids -> slice_get (Shards c') sh = Some g) /\
    (balanced c -> balanced c').
Proof.
  intros Hlast [Hlen Hzero] Hac (g0 & Hg0 & Hg0n).
  set (nc := mkConfig (len (Configs cf)) (Shards c) (Groups c)).
  destruct (Group2Shards_spec nc Hlen) as (Hp & Hin & Hdom).
  assert (Hass0 : assignment (Group2Shards nc) (Shards c)) by (by split).
  pose proof (removeGroups_spec gids (Groups c) (Group2Shards nc) []) as Hrm.
  destruct (foldl removeGroup _ gids) as [[G s1] orphans] eqn:Erm.
  destruct Hrm as (HG & Hs1 & Hperm). rewrite app_nil_r in Hperm.
  assert (Hnz : forall g, is_Some (Groups c !! g) -> g <> 0) by (intros g Hg ->; rewrite Hzero in Hg; by destruct Hg).
  assert (Hmem : forall g, is_Some (s1 !! g) <-> is_Some (G !! g)).
  { intros g. rewrite HG, Hs1. destruct (decide (g ∈ gids)); [done|]. rewrite Hdom. cbn.
    split; [|by left]. intros [?|Hgs]; [done|].
    apply (Shards_elem_of c) in Hgs as [sh Hsh]. by eapply Hac. }
  assert (Hg0G : is_Some (G !! g0)) by (rewrite HG, decide_False by done; exact Hg0).
  destruct (adoptShards_spec orphans s1) as (Hd & Hk & Hz & Hb).
  { exists g0. split; [by apply Hnz|by apply Hmem]. }
  { rewrite Hperm. unfold partition in Hp. rewrite Hp. by rewrite length_seqZ. }
  set (s2 := foldl adoptShard s1 orphans) in *.
  assert (Hp2 : partition s2).
  { unfold partition, s2. by rewrite adoptShards_all, Hperm. }
  destruct (assignShards_run s2 Hp2) as (arr & Harr & Hass).
  set (c' := mkConfig (len (Configs cf)) arr G). exists c'.
  assert (Hkeep : forall g sh, g ∉ gids -> slice_get (Shards c) sh = Some g -> sh ∈ shards_of s2 g).
  { intros g sh Hg Hsh. apply Hk. unfold shards_of. rewrite Hs1, decide_False by done.
    by apply (assignment_get _ _ _ _ Hass0). }
  split_and!; [|done| |done| | |].
  - unfold Leave, bind. rewrite (nextConfig_run cf c Hlast). cbn [Num Shards Groups]. fold nc.
    rewrite Erm. rewrite decide_True; [|by intros ->%map_size_empty_inv; destruct Hg0G].
    fold s2. unfold lift. rewrite Harr. done.
  - split; [apply Hass|]. cbn. rewrite HG, Hzero. by destruct (decide _).
  - intros sh g Hg. apply Hmem, Hd. eapply shards_of_Some. by eapply assignment_get.
  - intros sh g Hg Hn. apply Hass. by apply Hkeep.
  - intros Hbal g g' Hg Hg'. rewrite !(owned_len c' s2) by done.
    assert (forall g, is_Some (G !! g) -> g <> 0) as Hnz'.
    { intros g1 Hg1. rewrite HG in Hg1. destruct (decide (g1 ∈ gids)); [by destruct Hg1|]. by apply Hnz. }
    apply Hb; [|by apply Hnz'|by apply Hnz'|by apply Hd, Hmem|by apply Hd, Hmem].
    assert (Hsame : forall k, is_Some (s1 !! k) -> is_Some (Groups c !! k) /\ shards_of s1 k = shards_of (Group2Shards nc) k).
    { intros k Hks. pose proof (proj1 (Hmem k) Hks) as HGk. rewrite HG in HGk.
      unfold shards_of. rewrite Hs1. destruct (decide (k ∈ gids)); [by destruct HGk|]. done. }
    intros k k' _ _ [Hkc ->]%Hsame [Hkc' ->]%Hsame.
    rewrite <-!(owned_len nc) by done. by apply Hbal.
Qed.

(** When every group has left, no shard has an owner. *)
Lemma Leave_all_run gids cf c :
  last (Configs cf) = Some c -> (forall g, is_Some (Groups c !! g) -> g ∈ gids) ->
  exists c', Leave gids cf = Some (OK, mkMemoryConfigStateMachine (Configs cf ++ [c'])) /\
    Num c' = len (Configs cf) /\ Groups c' = ∅ /\ Shards c' = zeroShards.
Proof.
  intros Hlast Hall. set (nc := mkConfig (len (Configs cf)) (Shards c) (Groups c)).
  pose proof (removeGroups_spec gids (Groups c) (Group2Shards nc) []) as Hrm.
  destruct (foldl removeGroup _ gids) as [[G s1] orphans] eqn:Erm. destruct Hrm as (HG & _ & _).
  assert (G = ∅) as ->.
  { apply map_eq. intros g. rewrite HG, lookup_empty. destruct (decide _) as [|Hn]; [done|].
    destruct (Groups c !! g) eqn:E; [|done]. exfalso. apply Hn, Hall. by rewrite E. }
  exists (mkConfig (len (Configs cf)) zeroShards ∅). split_and!; [|done|done|done].
  unfold Leave, bind. rewrite (nextConfig_run cf c Hlast). cbn [Num Shards Groups]. fold nc.
  rewrite Erm. done.
Qed.
End ops.

(** ** Independence of the map order *)
Section order.
Context (O1 O2 : MapOrder) `{!MapOrderLaws (H := O1)} `{!MapOrderLaws (H := O2)}.

Lemma GetMax_order s2g :
  GetGIDWithMaximumShards (H := O1) s2g = GetGIDWithMaximumShards (H := O2) s2g.
Proof. unfold GetGIDWithMaximumShards. by rewrite (sortedKeys_unique O1 O2). Qed.

Lemma GetMin_order s2g :
  GetGIDWithMinimumShards (H := O1) s2g = GetGIDWithMinimumShards (H := O2) s2g.
Proof. unfold GetGIDWithMinimumShards. by rewrite (sortedKeys_unique O1 O2). Qed.

Lemma balance_order fuel s2g : balance (H := O1) fuel s2g = balance (H := O2) fuel s2g.
Proof.
  revert s2g. induction fuel as [|fuel IH]; intros s2g; [done|]. simpl. unfold bind, get.
  rewrite GetMax_order, GetMin_order. destruct (_ && _); [done|].
  destruct (lift _ s2g) as [[x s]|]; [|done]. cbn. destruct (lift _ _) as [[r s']|]; [|done]. cbn. apply IH.
Qed.

Lemma assignShards_order s2g : partition s2g ->
  assignShards (H := O1) s2g zeroShards = assignShards (H := O2) s2g zeroShards.
Proof.
  intros Hp. destruct (assignShards_run (H := O1) s2g Hp) as (a1 & -> & H1).
  destruct (assignShards_run (H := O2) s2g Hp) as (a2 & -> & H2).
  by rewrite (assignment_unique s2g a1 a2 Hp H1 H2).
Qed.

Lemma adoptShards_order orphans s2g :
  foldl (adoptShard (H := O1)) s2g orphans = foldl (adoptShard (H := O2)) s2g orphans.
Proof. apply foldl_pointwise. intros s x. unfold adoptShard. by rewrite GetMin_order. Qed.
End order.

(** Whatever the loop of [Join] returns is a partition. *)
Lemma balance_partition `{MapOrderLaws} fuel s2g b s2g' :
  partition s2g -> balance fuel s2g = Some (b, s2g') -> partition s2g'.
Proof.
  revert s2g. induction fuel as [|fuel IH]; intros s2g Hp; simpl; [by intros [= _ <-]|].
  unfold bind, get. set (source := GetGIDWithMaximumShards s2g).
  set (target := GetGIDWithMinimumShards s2g).
  destruct (_ && _) eqn:Hstop; [by intros [= _ <-]|].
  destruct (shards_of s2g source) as [|x rest] eqn:Es; [done|].
  assert (Hne : source <> target).
  { intros E. pose proof (GetMax_spec s2g Hp) as Hmax. cbv zeta in Hmax. fold source in Hmax.
    destruct Hmax as [[Hs0 _]|(Hs0 & _)].
    - unfold target, GetGIDWithMinimumShards in E. rewrite Hs0 in E.
      pose proof (fold_min (fun g => len (shards_of s2g g)) (sortedKeys s2g) (-1) (NShards + 1)) as Hf.
      destruct (foldl _ _ _) as [i m]. simpl in E. subst i.
      destruct Hf as (_ & _ & [[= ?]|(_ & ? & _)]); done.
    - rewrite bool_decide_eq_true_2 in Hstop by done. rewrite <-E, Es in Hstop. cbn in Hstop.
      apply bool_decide_eq_false in Hstop. lia. }
  assert (Hs' : shards_of (<[target := shards_of s2g target ++ [x]]> s2g) source = x :: rest).
  { rewrite <-Es. unfold shards_of. by rewrite lookup_insert_ne by done. }
  unfold lift, modify. change (slice_get (x :: rest) 0) with (Some x). cbn beta iota.
  rewrite Hs', slice_from_Some by (simpl; lia). apply IH. by apply (moved_shard_partition s2g source target x rest).
Qed.

Lemma operations_order (O1 O2 : MapOrder)
  `{!MapOrderLaws (H := O1)} `{!MapOrderLaws (H := O2)} cf :
  (forall c, c ∈ Configs cf -> length (Shards c) = Z.to_nat NShards) ->
  (forall fuel groups, Join (H := O1) fuel groups cf = Join (H := O2) fuel groups cf) /\
  (forall gids, Leave (H := O1) gids cf = Leave (H := O2) gids cf) /\
  (forall shard gid, Move (H := O1) shard gid cf = Move (H := O2) shard gid cf).
Proof.
  intros Hlen.
  assert (Hnext : nextConfig (H := O1) cf = nextConfig (H := O2) cf).
  { unfold nextConfig, bind, get, lift. destruct (slice_get _ _) as [c|]; [|done].
    by rewrite (deepCopy_id (H := O1)), (deepCopy_id (H := O2)). }
  assert (Hnew : forall c s, nextConfig (H := O2) cf = Some (c, s) -> length (Shards c) = Z.to_nat NShards).
  { intros c s. unfold nextConfig, bind, get, lift.
    destruct (slice_get _ _) as [c0|] eqn:E; [|done]. intros [= <- <-]. cbn.
    apply slice_get_Some in E as [_ E]. apply Hlen. by apply list_elem_of_lookup_2 in E. }
  assert (Hg2s : forall c, Group2Shards (H := O1) c = Group2Shards (H := O2) c).
  { intros c. by rewrite (Group2Shards_eq (H := O1)), (Group2Shards_eq (H := O2)). }
  split_and!.
  - intros fuel groups. unfold Join, bind. rewrite Hnext.
    destruct (nextConfig (H := O2) cf) as [[c s]|] eqn:En; [|done].
    rewrite (addGroups_union (H := O1)), (addGroups_union (H := O2)), Hg2s, (balance_order O1 O2).
    unfold lift. destruct (balance (H := O2) fuel _) as [[b s2g]|] eqn:Eb; [|done]. cbn beta iota.
    destruct b; [|done].
    rewrite (assignShards_order O1 O2); [done|]. eapply (balance_partition (H := O2)); [|exact Eb].
    apply (Group2Shards_spec (H := O2)). cbn. by eapply Hnew.
  - intros gids. unfold Leave, bind. rewrite Hnext.
    destruct (nextConfig (H := O2) cf) as [[c s]|] eqn:En; [|done]. rewrite Hg2s.
    pose proof (removeGroups_spec gids (Groups c) (Group2Shards (H := O2) c) []) as Hrm.
    destruct (foldl removeGroup _ gids) as [[G s1] orphans]. destruct Hrm as (_ & _ & Hperm).
    destruct (decide _); [|done]. rewrite (adoptShards_order O1 O2), (assignShards_order O1 O2); [done|].
    unfold partition. rewrite (adoptShards_all (H := O2)), Hperm, app_nil_r.
    apply (Group2Shards_spec (H := O2)). by eapply Hnew.
  - intros shard gid. unfold Move, bind. by rewrite Hnext.
Qed.

(** C20: replicas agree. Go may traverse a map in any order, and differently on every
    replica; the configurations [Join], [Leave] and [Move] produce do not depend on
    it. *)
Theorem config_order_independent (O1 O2 : MapOrder)
  `{!MapOrderLaws (H := O1)} `{!MapOrderLaws (H := O2)} cf :
  (forall c, c ∈ Configs cf -> length (Shards c) = Z.to_nat NShards) ->
  (forall fuel groups, Join (H := O1) fuel groups cf = Join (H := O2) fuel groups cf) /\
  (forall gids, Leave (H := O1) gids cf = Leave (H := O2) gids cf) /\
  (forall shard gid, Move (H := O1) shard gid cf = Move (H := O2) shard gid cf).
Proof. by apply operations_order. Qed.

(** ** Histories of operations *)
Section history.
Context `{MapOrderLaws}.

(** The loop ends even when there is no group to give shards to. *)
Lemma balance_total fuel s2g : partition s2g -> (201 < fuel)%nat ->
  wp (balance fuel) s2g (fun finished s2g' => finished = true /\ partition s2g').
Proof.
  intros Hp Hf.
  assert (Hwith : forall s f, partition s -> (exists g, g <> 0 /\ is_Some (s !! g)) -> (200 < f)%nat ->
    wp (balance f) s (fun finished s2g' => finished = true /\ partition s2g')).
  { intros s f Hps Hex Hlt. eapply wp_mono; [apply balance_spec; [done|done|]|].
    - pose proof (work_bound s Hps). lia.
    - intros b s' (-> & ? & _). done. }
  destruct (decide (Exists (fun g => g <> 0) (sortedKeys s2g))) as [Hex|Hex].
  { apply Hwith; [done| |lia]. apply Exists_exists in Hex as (g & Hg & Hgz).
    exists g. by rewrite <-elem_of_sortedKeys. }
  destruct fuel as [|fuel]; [lia|]. simpl. go.
  assert (Ht : GetGIDWithMinimumShards s2g = -1).
  { unfold GetGIDWithMinimumShards.
    pose proof (fold_min (fun g => len (shards_of s2g g)) (sortedKeys s2g) (-1) (NShards + 1)) as Hm.
    destruct (foldl _ _ _) as [i m]. destruct Hm as (_ & _ & [[= -> _]|(Hi & Hi0 & _)]); [done|].
    exfalso. apply Hex, Exists_exists. eauto. }
  destruct (GetMax_spec s2g Hp) as [[Hs Hz]|(Hs0 & _ & Hss & _)].
  2:{ exfalso. apply Hex, Exists_exists. eexists. split; [by apply elem_of_sortedKeys|done]. }
  rewrite Ht, Hs. rewrite (bool_decide_eq_false_2 (0 <> 0)) by tauto. cbn [andb].
  destruct (shards_of s2g 0) as [|x rest] eqn:Es; [done|].
  apply wp_bind, (wp_lift _ _ _ x); [done|]. go.
  assert (Hs' : shards_of (<[-1 := shards_of s2g (-1) ++ [x]]> s2g) 0 = x :: rest).
  { rewrite <-Es. unfold shards_of. by rewrite lookup_insert_ne by done. }
  rewrite Hs', slice_from_Some by (simpl; lia). go. change (drop (Z.to_nat 1) (x :: rest)) with rest.
  apply (Hwith (moved_shard s2g 0 (-1) x rest)); [by apply moved_shard_partition| |lia].
  exists (-1). split; [lia|]. unfold moved_shard. rewrite lookup_insert_ne, lookup_insert_eq by lia. by eexists.
Qed.

Inductive CtrlOp :=
  | CJoin (groups : gmap Z (list string))
  | CLeave (gids : list Z)
  | CMove (shard gid : Z)
  | CQuery (num : Z).

(** [None]: an index out of range, or a [Join] whose loop does not end within [fuel]. *)
Definition ctrl_step (fuel : nat) (op : CtrlOp) (cf : MemoryConfigStateMachine)
  : option MemoryConfigStateMachine :=
  match op with
  | CJoin groups => match Join fuel groups cf with Some (Some _, cf') => Some cf' | _ => None end
  | CLeave gids => snd <$> Leave gids cf
  | CMove shard gid => snd <$> Move shard gid cf
  | CQuery num => snd <$> Query num cf
  end.

(** How many configurations an operation makes. *)
Definition op_configs (op : CtrlOp) : nat := match op with CQuery _ => 0 | _ => 1 end.

Definition op_ok (op : CtrlOp) : Prop :=
  match op with CMove shard _ => 0 <= shard < NShards | _ => True end.

(** Configuration [i] has number [i] and an owner for each of the shards. *)
Definition numbered (cf : MemoryConfigStateMachine) : Prop :=
  Configs cf <> [] /\ forall i c, Configs cf !! i = Some c ->
    Num c = Z.of_nat i /\ length (Shards c) = Z.to_nat NShards.

Lemma numbered_snoc cf c : numbered cf -> Num c = len (Configs cf) ->
  length (Shards c) = Z.to_nat NShards ->
  numbered (mkMemoryConfigStateMachine (Configs cf ++ [c])).
Proof.
  intros [Hne Hn] Hnum Hlen. split; cbn; [by destruct (Configs cf)|].
  intros i d [[_ Hd]|[-> <-]]%lookup_snoc_Some; [by apply Hn|done].
Qed.

(** Every operation on a numbered history returns, and appends one configuration or
    none. *)
Lemma ctrl_step_run fuel op cf : numbered cf -> op_ok op -> (201 < fuel)%nat ->
  exists cs, ctrl_step fuel op cf = Some (mkMemoryConfigStateMachine (Configs cf ++ cs)) /\
    numbered (mkMemoryConfigStateMachine (Configs cf ++ cs)) /\
    length cs = op_configs op.
Proof.
  intros Hnum Hok Hf. destruct (last (Configs cf)) as [c|] eqn:Hlast.
  2:{ destruct Hnum as [Hne _]. by apply last_None in Hlast. }
  pose proof Hlast as Hl. rewrite last_lookup in Hl. destruct (proj2 Hnum _ _ Hl) as [_ Hlen].
  set (nc G := mkConfig (len (Configs cf)) (Shards c) G).
  assert (Hnc : forall G, partition (Group2Shards (nc G))) by (intros G; by apply Group2Shards_spec).
  assert (Hdone : forall arr G, length arr = Z.to_nat NShards -> exists cs,
    Some (mkMemoryConfigStateMachine (Configs cf ++ [mkConfig (len (Configs cf)) arr G])) =
    Some (mkMemoryConfigStateMachine (Configs cf ++ cs)) /\
    numbered (mkMemoryConfigStateMachine (Configs cf ++ cs)) /\ length cs = 1%nat).
  { intros arr G Ha. eexists. split; [reflexivity|]. split; [|done]. by apply numbered_snoc. }
  destruct op as [groups|gids|shard gid|num]; cbn [ctrl_step].
  - unfold Join, bind. rewrite (nextConfig_run cf c Hlast). cbn [Num Shards Groups].
    rewrite addGroups_union. fold (nc (Groups c ∪ groups)).
    pose proof (balance_total fuel _ (Hnc (Groups c ∪ groups)) Hf) as Hb.
    apply wp_runs in Hb as (b & s2g & Hrun & -> & Hp). unfold lift. rewrite Hrun.
    destruct (assignShards_run s2g Hp) as (arr & -> & Ha). apply Hdone. apply Ha.
  - unfold Leave, bind. rewrite (nextConfig_run cf c Hlast). cbn [Num Shards Groups].
    fold (nc (Groups c)).
    pose proof (removeGroups_spec gids (Groups c) (Group2Shards (nc (Groups c))) []) as Hrm.
    destruct (foldl removeGroup _ gids) as [[G s1] orphans]. destruct Hrm as (_ & _ & Hperm).
    destruct (decide _); [|by apply Hdone].
    destruct (assignShards_run (foldl adoptShard s1 orphans)) as (arr & Harr & Ha).
    { unfold partition. rewrite adoptShards_all, Hperm, app_nil_r. apply Hnc. }
    unfold lift. rewrite Harr. apply Hdone. apply Ha.
  - unfold Move, bind. rewrite (nextConfig_run cf c Hlast). cbn [Num Shards Groups]. cbn in Hok.
    rewrite slice_set_Some by (rewrite Hlen; unfold NShards in *; lia).
    apply Hdone. by rewrite length_insert.
  - exists []. rewrite app_nil_r. split_and!; [|by destruct cf|done].
    unfold Query, bind, get, lift.
    destruct (decide _) as [Hr|Hr].
    + destruct (slice_get_is_Some (Configs cf) (len (Configs cf) - 1)) as [d ->]; [|by destruct cf].
      pose proof (lookup_lt_Some _ _ _ Hl). lia.
    + destruct (slice_get_is_Some (Configs cf) num) as [d ->]; [lia|by destruct cf].
Qed.

Lemma Join_finishes fuel groups cf : numbered cf -> (201 < fuel)%nat ->
  exists cf', Join fuel groups cf = Some (Some OK, cf').
Proof.
  intros Hnum Hf. destruct (last (Configs cf)) as [c|] eqn:Hlast.
  2:{ destruct Hnum as [Hne _]. by apply last_None in Hlast. }
  pose proof Hlast as Hl. rewrite last_lookup in Hl. destruct (proj2 Hnum _ _ Hl) as [_ Hlen].
  unfold Join, bind. rewrite (nextConfig_run cf c Hlast). cbn [Num Shards Groups].
  rewrite addGroups_union. set (nc := mkConfig _ _ _).
  destruct (Group2Shards_spec nc Hlen) as [Hp _].
  apply (balance_total fuel) in Hp as (b & s2g & Hrun & -> & Hp')%wp_runs; [|done].
  unfold lift. rewrite Hrun. destruct (assignShards_run s2g Hp') as (arr & -> & _). by eexists.
Qed.

(** A sequence of operations. *)
Fixpoint ctrl_run (fuel : nat) (ops : list CtrlOp) (cf : MemoryConfigStateMachine)
  : option MemoryConfigStateMachine :=
  match ops with
  | [] => Some cf
  | op :: ops => match ctrl_step fuel op cf with Some cf' => ctrl_run fuel ops cf' | None => None end
  end.

Lemma ctrl_run_total fuel ops cf : numbered cf -> Forall op_ok ops -> (201 < fuel)%nat ->
  exists cs, ctrl_run fuel ops cf = Some (mkMemoryConfigStateMachine (Configs cf ++ cs)) /\
    numbered (mkMemoryConfigStateMachine (Configs cf ++ cs)) /\
    length cs = list_sum (op_configs <$> ops).
Proof.
  intros Hn Hok Hf. revert cf Hn. induction Hok as [|op ops Hop _ IH]; intros cf Hn.
  { exists []. rewrite app_nil_r. by destruct cf. }
  destruct (ctrl_step_run fuel op cf Hn Hop Hf) as (cs & Hs & Hn' & Hl). cbn [ctrl_run]. rewrite Hs.
  destruct (IH _ Hn') as (cs' & Hr & Hn'' & Hl'). cbn in *. exists (cs ++ cs').
  rewrite app_assoc, length_app, Hl, Hl'. done.
Qed.

Lemma numbered_new : numbered NewMemoryConfigStateMachine.
Proof. split; [done|]. intros [|[|i]] c [= <-]. done. Qed.

Lemma Query_run num cf : numbered cf ->
  let i := if decide (0 <= num < len (Configs cf)) then num else len (Configs cf) - 1 in
  exists c, Query num cf = Some (c, OK, cf) /\ Configs cf !! Z.to_nat i = Some c /\ Num c = i.
Proof.
  intros [Hne Hn].
  assert (Hget : forall i, 0 <= i < len (Configs cf) ->
    exists c, slice_get (Configs cf) i = Some c /\ Configs cf !! Z.to_nat i = Some c /\ Num c = i).
  { intros i Hi. destruct (slice_get_is_Some (Configs cf) i Hi) as [c Hc]. exists c. split; [done|].
    apply slice_get_Some in Hc as [_ Hc]. split; [done|]. apply Hn in Hc as [-> _]. lia. }
  assert (0 < len (Configs cf)) by (destruct (Configs cf); [done|simpl; lia]).
  unfold Query, bind, get, lift. destruct (decide (0 <= num < _)) as [Hr|Hr]; cbn zeta.
  - rewrite decide_False by lia. destruct (Hget num Hr) as (c & -> & Hc). by exists c.
  - rewrite decide_True by lia. destruct (Hget (len (Configs cf) - 1)) as (c & -> & Hc); [lia|].
    by exists c.
Qed.
End history.

Section theorems.
Context `{MapOrderLaws}.

(** C18: [Join] on a configuration whose shards belong to member groups or to group 0, when
    there is a group after it and none of the joining groups has number 0 (a first [Join]
    without groups gives every shard to group -1: [join_nothing_misassigns]): at most 201
    rounds of its balancing loop leave every shard with a member group, the groups equal up
    to one shard, and the new groups added to the old. If in addition the configuration
    was balanced and assigned (a [Move] may break both) a shard that changes hands goes to
    a group that joins. *)
Theorem join_balances fuel groups cf c :
  last (Configs cf) = Some c -> wf_config c -> groups !! 0 = None -> Groups c ∪ groups <> ∅ ->
  (forall sh g, slice_get (Shards c) sh = Some g -> g = 0 \/ is_Some (Groups c !! g)) ->
  (200 < fuel)%nat ->
  exists c', Join fuel groups cf = Some (Some OK, mkMemoryConfigStateMachine (Configs cf ++ [c'])) /\
    Num c' = len (Configs cf) /\ Groups c' = Groups c ∪ groups /\ wf_config c' /\
    assigned c' /\ balanced c' /\
    (balanced c -> assigned c -> forall sh g, slice_get (Shards c') sh = Some g ->
       is_Some (Groups c !! g) -> slice_get (Shards c) sh = Some g).
Proof. apply Join_run. Qed.


(** C32: the history of configurations. Whatever operations are applied to a new state
    machine, provided that each [Move] names one of the shards, each returns (the balancing
    loop of [Join] ends within 202 rounds: [ctrl_step] is [None] on a [Join] that does not)
    and each but [Query] appends exactly one configuration: those already made never
    change, configuration [i] has number [i], and [Query] returns the configuration at that
    position, or the latest. *)
Theorem config_history fuel ops ops' cf :
  Forall op_ok (ops ++ ops') -> (201 < fuel)%nat ->
  ctrl_run fuel ops NewMemoryConfigStateMachine = Some cf ->
  exists cf', ctrl_run fuel ops' cf = Some cf' /\ Configs cf `prefix_of` Configs cf' /\
    length (Configs cf') = (length (Configs cf) + list_sum (op_configs <$> ops'))%nat /\
    forall num, let i := if decide (0 <= num < len (Configs cf')) then num else len (Configs cf') - 1 in
      exists c, Query num cf' = Some (c, OK, cf') /\ Configs cf' !! Z.to_nat i = Some c /\ Num c = i.
Proof.
  intros [Hok Hok']%Forall_app Hf Hrun.
  destruct (ctrl_run_total fuel ops _ numbered_new Hok Hf) as (cs & Hr & Hn & _).
  rewrite Hrun in Hr. injection Hr as ->.
  destruct (ctrl_run_total fuel ops' _ Hn Hok' Hf) as (cs' & Hr' & Hn' & Hl). eexists. split; [exact Hr'|].
  split; [by eexists|]. split; [cbn [Configs]; rewrite length_app, Hl; done|]. intros num. by apply Query_run.
Qed.
End theorems.

(** [Join] with no groups, the first time, gives every shard to group -1, which
    does not exist: the minimum search finds no group and its initial index is used as
    one. The comment on [Config] says that shards without a group belong to group 0. *)
Theorem join_nothing_misassigns (O : MapOrder) `{!MapOrderLaws (H := O)} :
  exists cf, Join 202 ∅ NewMemoryConfigStateMachine = Some (Some OK, cf) /\
    (Shards <$> last (Configs cf)) = Some (replicate 10 (-1)) /\
    (Groups <$> last (Configs cf)) = Some ∅.
Proof.
  destruct (operations_order O list_order NewMemoryConfigStateMachine) as [HJ _].
  { intros c Hc. apply list_elem_of_singleton in Hc as ->. done. }
  rewrite HJ. eexists. split; [vm_compute; reflexivity|]. split; reflexivity.
Qed.

(** ** Witnesses *)
Module Example_ctrl.
#[export] Instance order : MapOrder := list_order.
#[export] Instance order_laws : MapOrderLaws := list_order_laws.
Definition groups12 : gmap Z (list string) := {[1 := ["a"%string]; 2 := ["b"%string]]}.
Definition cf1 : MemoryConfigStateMachine :=
  default NewMemoryConfigStateMachine (ctrl_run 202 [CJoin groups12] NewMemoryConfigStateMachine).
Definition c1 : Config := mkConfig 1 [1; 2; 1; 2; 1; 2; 1; 2; 1; 2] groups12.
Lemma cf1_eq : cf1 = mkMemoryConfigStateMachine [DefaultConfig; c1].
Proof. vm_compute. reflexivity. Qed.
Lemma c1_wf : wf_config c1 /\ assigned c1.
Proof.
  split; [by split|]. intros sh g [_ Hg]%slice_get_Some. apply list_elem_of_lookup_2 in Hg.
  cbn in Hg. set_unfold in Hg. unfold c1, groups12; cbn.
  destruct_or! Hg; subst; first [by exists ["a"%string]|by exists ["b"%string]].
Qed.
End Example_ctrl.
Import Example_ctrl.

Lemma config_order_independent_witness :
  Join (H := order) 202 groups12 NewMemoryConfigStateMachine =
  Join (H := reversed_order) 202 groups12 NewMemoryConfigStateMachine.
Proof.
  apply (config_order_independent order reversed_order NewMemoryConfigStateMachine).
  intros c Hc. apply list_elem_of_singleton in Hc as ->. reflexivity.
Defined.

Lemma join_balances_witness :
  exists c', Join 202 {[3 := ["c"%string]]} cf1 =
      Some (Some OK, mkMemoryConfigStateMachine (Configs cf1 ++ [c'])) /\ balanced c' /\ assigned c'.
Proof.
  destruct (join_balances 202 {[3 := ["c"%string]]} cf1 c1) as (c' & Hj & _ & _ & _ & Ha & Hb & _).
  - rewrite cf1_eq. reflexivity.
  - apply c1_wf.
  - reflexivity.
  - intros E. apply (f_equal (lookup 1)) in E. discriminate.
  - intros sh g Hg. right. by apply (proj2 c1_wf sh).
  - lia.
  - exists c'. split_and!; [exact Hj|exact Hb|exact Ha].
Defined.


Lemma config_history_witness :
  exists cf', ctrl_run 202 [CMove 3 2] cf1 = Some cf' /\ Configs cf1 `prefix_of` Configs cf'.
Proof.
  destruct (config_history 202 [CJoin groups12] [CMove 3 2] cf1) as (cf' & Hr & Hp & _).
  - repeat constructor; cbn; unfold NShards; lia.
  - lia.
  - vm_compute. reflexivity.
  - exists cf'. split; [exact Hr|exact Hp].
Defined.

Lemma join_nothing_misassigns_witness :
  exists cf, Join 202 ∅ NewMemoryConfigStateMachine = Some (Some OK, cf) /\
    (Shards <$> last (Configs cf)) = Some (replicate 10 (-1)).
Proof.
  destruct (join_nothing_misassigns list_order) as (cf & HJ & HS & _). exists cf. split; [exact HJ|exact HS].
Defined.
