(* ===== verification/CtrlServer.v ===== *)
(** * shardctrler/server.go and shardctrler/client.go

    The controller applies the operations of its Raft log to the configuration state
    machine, with the same sessions and notification channels as kvraft but without
    snapshots. The loop of [Join] takes the section variable [fuel]; running out of it
    is [None], and the theorems show that 202 rounds are enough. *)
From Stdlib Require Import Strings.Byte.
From S2P Require Import Prelude Labgob Persister RaftTypes RaftNode RaftLog RaftSpec RaftSnapshot RaftInv RaftProps Notify Clerk CtrlConfig CtrlBalance CtrlOps CtrlProps.

(** ** common.go *)

Definition OperationOp : Type := Z.
Definition OpJoin : OperationOp := 0.
Definition OpLeave : OperationOp := 1.
Definition OpMove : OperationOp := 2.
Definition OpQuery : OperationOp := 3.

Record CommandRequest := mkCommandRequest {
  r_Servers : gmap Z (list string);
  r_GIDs : list Z;
  r_Shard : Z;
  r_GID : Z;
  r_Num : Z;
  r_Op : OperationOp;
  r_ClientId : Z;
  r_CommandId : Z
}.

Record CommandResponse := mkCommandResponse {
  r_Err : Err;
  r_Config : Config
}.

Record Command := mkCommand { c_CommandRequest : CommandRequest }.

#[export] Instance CommandRequest_eq_dec : EqDecision CommandRequest.
Proof. solve_decision. Defined.
#[export] Instance CommandRequest_countable : Countable CommandRequest.
Proof.
  refine (inj_countable' (fun r => (r_Servers r, r_GIDs r, r_Shard r, r_GID r, r_Num r, r_Op r,
              r_ClientId r, r_CommandId r))
            (fun '(s, gs, sh, g, n, o, c, i) => mkCommandRequest s gs sh g n o c i) _). by intros [].
Defined.
#[export] Instance Command_eq_dec : EqDecision Command.
Proof. solve_decision. Defined.
#[export] Instance Command_countable : Countable Command.
Proof. refine (inj_countable' c_CommandRequest mkCommand _). by intros []. Defined.

Record OperationContext := mkOperationContext {
  MaxAppliedCommandId : Z;
  LastResponse : CommandResponse
}.

(** The zero [Config] of a response that carries none. *)
Definition zeroConfig : Config := mkConfig 0 zeroShards ∅.

Record ShardCtrler := mkShardCtrler {
  sc_dead : bool;
  sc_me : Z;
  sc_rf : Raft Command;
  sc_stateMachine : MemoryConfigStateMachine;
  sc_lastOperations : GoMap Z OperationContext;
  sc_notify : Notify CommandResponse
}.

Definition set_sc_dead (v : bool) (x : ShardCtrler) : ShardCtrler :=
  mkShardCtrler v (sc_me x) (sc_rf x) (sc_stateMachine x) (sc_lastOperations x) (sc_notify x).
Definition set_sc_me (v : Z) (x : ShardCtrler) : ShardCtrler :=
  mkShardCtrler (sc_dead x) v (sc_rf x) (sc_stateMachine x) (sc_lastOperations x) (sc_notify x).
Definition set_sc_rf (v : Raft Command) (x : ShardCtrler) : ShardCtrler :=
  mkShardCtrler (sc_dead x) (sc_me x) v (sc_stateMachine x) (sc_lastOperations x) (sc_notify x).
Definition set_sc_stateMachine (v : MemoryConfigStateMachine) (x : ShardCtrler) : ShardCtrler :=
  mkShardCtrler (sc_dead x) (sc_me x) (sc_rf x) v (sc_lastOperations x) (sc_notify x).
Definition set_sc_lastOperations (v : GoMap Z OperationContext) (x : ShardCtrler) : ShardCtrler :=
  mkShardCtrler (sc_dead x) (sc_me x) (sc_rf x) (sc_stateMachine x) v (sc_notify x).
Definition set_sc_notify (v : Notify CommandResponse) (x : ShardCtrler) : ShardCtrler :=
  mkShardCtrler (sc_dead x) (sc_me x) (sc_rf x) (sc_stateMachine x) (sc_lastOperations x) v.

Section ShardCtrler.
Context `{Gob Z} `{Gob (list (Entry Command))} `{Rand} `{Alloc} {O : MapOrder}.
Variable fuel : nat.
Implicit Types (sc : ShardCtrler).

Definition on_rf {A} (m : M (Raft Command) A) : M ShardCtrler A := fun sc =>
  match m (sc_rf sc) with
  | Some (a, rf) => Some (a, set_sc_rf rf sc)
  | None => None
  end.

Definition on_machine {A} (m : M MemoryConfigStateMachine A) : M ShardCtrler A := fun sc =>
  match m (sc_stateMachine sc) with
  | Some (a, sm) => Some (a, set_sc_stateMachine sm sc)
  | None => None
  end.

Definition on_notify {A} (m : M (Notify CommandResponse) A) : M ShardCtrler A := fun sc =>
  match m (sc_notify sc) with
  | Some (a, n) => Some (a, set_sc_notify n sc)
  | None => None
  end.

Definition isDuplicateRequest (clientId requestId : Z) (sc : ShardCtrler) : bool :=
  match map_get (sc_lastOperations sc) clientId with
  | Some operationContext => bool_decide (requestId <= MaxAppliedCommandId operationContext)
  | None => false
  end.

Definition lastResponse (clientId : Z) : M ShardCtrler CommandResponse :=
  let! sc := get in
  lift (LastResponse <$> map_get (sc_lastOperations sc) clientId).

Definition getNotifyChan (index : Z) : M ShardCtrler nat := on_notify (get_chan index).
Definition removeOutdatedNotifyChan (index : Z) : M ShardCtrler unit := on_notify (remove_chan index).

(** ** The Command RPC: under the read lock, the call of [rf.Start], the [select] *)

Definition Command_check (request : CommandRequest) : M ShardCtrler (option CommandResponse) :=
  let! sc := get in
  if negb (bool_decide (r_Op request = OpQuery)) &&
     isDuplicateRequest (r_ClientId request) (r_CommandId request) sc then
    let! last := lastResponse (r_ClientId request) in
    ret (Some (mkCommandResponse (r_Err last) (r_Config last)))
  else ret None.

Definition Command_start (request : CommandRequest) : M ShardCtrler (CommandResponse + Z) :=
  let! started := on_rf (Start (mkCommand request)) in
  let '(index, _, isLeader) := started in
  ret (if isLeader : bool then inr index else inl (mkCommandResponse ErrWrongLeader zeroConfig)).

Definition Command_result (ch : nat) : M ShardCtrler (option CommandResponse) :=
  let! result := on_notify (chan_receive ch) in
  ret ((fun r => mkCommandResponse (r_Err r) (r_Config r)) <$> result).
Definition Command_timeout : CommandResponse := mkCommandResponse ErrTimeout zeroConfig.

(** ** applier *)

Definition applyLogToStateMachine (command : Command) : M MemoryConfigStateMachine CommandResponse :=
  let r := c_CommandRequest command in
  if decide (r_Op r = OpJoin) then
    let! finished := Join fuel (r_Servers r) in
    let! err := lift finished in
    ret (mkCommandResponse err zeroConfig)
  else if decide (r_Op r = OpLeave) then
    let! err := Leave (r_GIDs r) in ret (mkCommandResponse err zeroConfig)
  else if decide (r_Op r = OpMove) then
    let! err := Move (r_Shard r) (r_GID r) in ret (mkCommandResponse err zeroConfig)
  else if decide (r_Op r = OpQuery) then
    let! answer := Query (r_Num r) in ret (mkCommandResponse (snd answer) (fst answer))
  else ret (mkCommandResponse OK zeroConfig).

Definition applier_execute (command : Command) : M ShardCtrler CommandResponse :=
  let r := c_CommandRequest command in
  let! sc := get in
  if negb (bool_decide (r_Op r = OpQuery)) && isDuplicateRequest (r_ClientId r) (r_CommandId r) sc then
    lastResponse (r_ClientId r)
  else
    let! response := on_machine (applyLogToStateMachine command) in
    if decide (r_Op r <> OpQuery) then
      let! sc := get in
      let! m := lift (map_set (sc_lastOperations sc) (r_ClientId r)
                        (mkOperationContext (r_CommandId r) response)) in
      do! modify (set_sc_lastOperations m);
      ret response
    else ret response.

(** One message; [false] when the send blocks. *)
Definition applier_message (message : ApplyMsg Command) : M ShardCtrler bool :=
  if CommandValid message then
    let! command := lift (am_Command message) in
    let! response := applier_execute command in
    let! sc := get in
    let '(term, isLeader) := GetState (sc_rf sc) in
    if isLeader && bool_decide (CommandTerm message = term) then
      let! ch := getNotifyChan (CommandIndex message) in
      on_notify (chan_send ch response)
    else ret true
  else panic.

(** ** Life cycle *)

Definition Kill : M ShardCtrler unit :=
  do! modify (set_sc_dead true);
  on_rf RaftNode.Kill.
Definition killed (sc : ShardCtrler) : bool := sc_dead sc.
Definition Raft_ (sc : ShardCtrler) : Raft Command := sc_rf sc.

Definition StartServer (servers : nat) (me : Z) (persister : Persister) : option ShardCtrler :=
  match Make servers me persister with
  | Some rf => Some (mkShardCtrler false 0 rf NewMemoryConfigStateMachine (Some ∅) no_chans)
  | None => None
  end.

(** ** client.go *)
Section client.
Variable net : nat -> Z -> CommandRequest -> option CommandResponse.

Definition retry_response (response : CommandResponse) : bool :=
  bool_decide (r_Err response = ErrWrongLeader) || bool_decide (r_Err response = ErrTimeout).

Definition stamped (ck : Clerk) (request : CommandRequest) : CommandRequest :=
  mkCommandRequest (r_Servers request) (r_GIDs request) (r_Shard request) (r_GID request)
    (r_Num request) (r_Op request) (ck_clientId ck) (ck_commandId ck).

Definition Clerk_Command (calls : nat) (request : CommandRequest) : M Clerk (option Config) :=
  let! ck := get in
  let! response := command_loop net retry_response calls 0 (stamped ck request) in
  ret (r_Config <$> response).

Definition Clerk_Query (calls : nat) (num : Z) : M Clerk (option Config) :=
  Clerk_Command calls (mkCommandRequest ∅ [] 0 0 num OpQuery 0 0).
Definition Clerk_Join (calls : nat) (servers : gmap Z (list string)) : M Clerk (option Config) :=
  Clerk_Command calls (mkCommandRequest servers [] 0 0 0 OpJoin 0 0).
Definition Clerk_Leave (calls : nat) (gids : list Z) : M Clerk (option Config) :=
  Clerk_Command calls (mkCommandRequest ∅ gids 0 0 0 OpLeave 0 0).
Definition Clerk_Move (calls : nat) (shard gid : Z) : M Clerk (option Config) :=
  Clerk_Command calls (mkCommandRequest ∅ [] shard gid 0 OpMove 0 0).
End client.
End ShardCtrler.

(** ** Invariant *)
Section inv.
Context `{Gob Z} `{Gob (list (Entry Command))} `{Rand} `{Alloc} {O : MapOrder} `{!MapOrderLaws}.
Context `{!GobLaws Z} `{!GobLaws (list (Entry Command))}.
Variable fuel : nat.
Hypothesis enough : (201 < fuel)%nat.
Implicit Types (sc : ShardCtrler).

(** The controller has applied the log up to [applied]. *)
Record sc_wf sc (applied : Z) : Prop := {
  sw_rf : wf (sc_rf sc);
  sw_durable : durable (sc_rf sc);
  sw_machine : numbered (sc_stateMachine sc);
  sw_sessions : is_Some (sc_lastOperations sc);
  sw_notify : notify_wf (sc_notify sc) applied
}.

(** The shard of a [Move] exists. *)
Definition command_ok (command : Command) : Prop :=
  r_Op (c_CommandRequest command) = OpMove -> 0 <= r_Shard (c_CommandRequest command) < NShards.

(** The operation a command stands for. *)
Definition op_of (command : Command) : option CtrlOp :=
  let r := c_CommandRequest command in
  if decide (r_Op r = OpJoin) then Some (CJoin (r_Servers r))
  else if decide (r_Op r = OpLeave) then Some (CLeave (r_GIDs r))
  else if decide (r_Op r = OpMove) then Some (CMove (r_Shard r) (r_GID r))
  else if decide (r_Op r = OpQuery) then Some (CQuery (r_Num r))
  else None.

(** The state machine after a command, by the history of operations. *)
Definition ctrl_exec (command : Command) (cf : MemoryConfigStateMachine)
  : option MemoryConfigStateMachine :=
  match op_of command with Some op => ctrl_step fuel op cf | None => Some cf end.

Lemma wp_applyLog command cf : numbered cf -> command_ok command ->
  wp (applyLogToStateMachine fuel command) cf (fun _ cf' =>
    ctrl_exec command cf = Some cf' /\ numbered cf').
Proof.
  intros Hn Hok. unfold applyLogToStateMachine, ctrl_exec, op_of, command_ok in *.
  set (r := c_CommandRequest command) in *.
  assert (Hrun : forall op, op_ok op -> exists cf', ctrl_step fuel op cf = Some cf' /\ numbered cf').
  { intros op Hop. destruct (ctrl_step_run fuel op cf Hn Hop enough) as (cs & -> & Hn' & _). by eexists. }
  destruct (decide (r_Op r = OpJoin)); [|destruct (decide (r_Op r = OpLeave));
    [|destruct (decide (r_Op r = OpMove)); [|destruct (decide (r_Op r = OpQuery))]]]; go; [..|done].
  - destruct (Hrun (CJoin (r_Servers r)) I) as (cf' & Hs & Hn').
    destruct (Join_finishes fuel (r_Servers r) cf Hn enough) as (cf1 & E).
    cbn in Hs. rewrite E in Hs. injection Hs as ->. unfold wp at 1. rewrite E. go.
    cbn. by rewrite E.
  - destruct (Hrun (CLeave (r_GIDs r)) I) as (cf' & Hs & Hn'). 
    apply fmap_Some in Hs as ([e1 cf1] & E & ->). unfold wp at 1. rewrite E. go. cbn [ctrl_step]. by rewrite E.
  - destruct (Hrun (CMove (r_Shard r) (r_GID r))) as (cf' & Hs & Hn'); [cbn; auto|].
    apply fmap_Some in Hs as ([e1 cf1] & E & ->). unfold wp at 1. rewrite E. go. cbn [ctrl_step]. by rewrite E.
  - destruct (Hrun (CQuery (r_Num r)) I) as (cf' & Hs & Hn'). 
    apply fmap_Some in Hs as ([e1 cf1] & E & ->). unfold wp at 1. rewrite E. go. cbn [ctrl_step]. by rewrite E.
Qed.

Lemma wp_sc_on_machine {A} (m : M MemoryConfigStateMachine A) sc (Q : A -> ShardCtrler -> Prop) :
  wp m (sc_stateMachine sc) (fun a sm => Q a (set_sc_stateMachine sm sc)) -> wp (on_machine m) sc Q.
Proof. unfold wp, on_machine. by destruct (m (sc_stateMachine sc)) as [[a sm]|]. Qed.

Lemma wp_sc_on_notify {A} (m : M (Notify CommandResponse) A) sc (Q : A -> ShardCtrler -> Prop) :
  wp m (sc_notify sc) (fun a n => Q a (set_sc_notify n sc)) -> wp (on_notify m) sc Q.
Proof. unfold wp, on_notify. by destruct (m (sc_notify sc)) as [[a n]|]. Qed.

(** A repeated write changes nothing; any other command is executed and, if it is a
    write, remembered. *)
Definition effect (command : Command) (response : CommandResponse) sc sc' : Prop :=
  let r := c_CommandRequest command in
  if decide (r_Op r <> OpQuery /\ isDuplicateRequest (r_ClientId r) (r_CommandId r) sc = true) then
    sc_stateMachine sc' = sc_stateMachine sc /\ sc_lastOperations sc' = sc_lastOperations sc /\
    (LastResponse <$> map_get (sc_lastOperations sc) (r_ClientId r)) = Some response
  else
    ctrl_exec command (sc_stateMachine sc) = Some (sc_stateMachine sc') /\
    (r_Op r <> OpQuery -> map_get (sc_lastOperations sc') (r_ClientId r) =
       Some (mkOperationContext (r_CommandId r) response)).

Lemma wp_sc_applier_execute command sc :
  numbered (sc_stateMachine sc) -> is_Some (sc_lastOperations sc) -> command_ok command ->
  wp (applier_execute fuel command) sc (fun response sc' =>
    numbered (sc_stateMachine sc') /\ is_Some (sc_lastOperations sc') /\
    (exists sm ops, sc' = set_sc_lastOperations ops (set_sc_stateMachine sm sc)) /\
    effect command response sc sc').
Proof.
  intros Hn [ops Hops] Hok. unfold applier_execute. go. set (r := c_CommandRequest command).
  destruct (negb _ && _) eqn:Hdup.
  - apply andb_true_iff in Hdup as [Hq%negb_true_iff%bool_decide_eq_false Hd].
    unfold lastResponse. go. pose proof Hd as Hd'. unfold isDuplicateRequest in Hd'.
    destruct (map_get _ _) as [ctx|] eqn:E; [|done]. cbn. go. split_and!; [done|by eexists| |].
    + exists (sc_stateMachine sc), (sc_lastOperations sc). by destruct sc.
    + unfold effect. rewrite decide_True by done. fold r. by rewrite E.
  - assert (Hnd : forall response sc', ctrl_exec command (sc_stateMachine sc) = Some (sc_stateMachine sc') /\
      (r_Op r <> OpQuery -> map_get (sc_lastOperations sc') (r_ClientId r) =
         Some (mkOperationContext (r_CommandId r) response)) -> effect command response sc sc').
    { intros response sc' Hx. unfold effect. rewrite decide_False; [done|].
      intros [Hq Hd]. fold r in Hq, Hd. rewrite Hd, bool_decide_eq_false_2 in Hdup by done. done. }
    go. apply wp_sc_on_machine. eapply wp_mono; [by apply wp_applyLog|]. intros response cf' [Hexec Hn'].
    destruct (decide _) as [Hq|Hq]; go.
    + cbn. rewrite Hops. cbn. go. split_and!; [done|by eexists|by eexists _, _|].
      apply Hnd. split; [done|]. intros _. cbn. by rewrite lookup_insert_eq.
    + split_and!; [done|by eexists| |by apply Hnd].
      exists cf', (sc_lastOperations sc). by destruct sc.
Qed.

Lemma applier_message_run message command sc a :
  sc_wf sc a -> CommandValid message = true -> am_Command message = Some command ->
  command_ok command -> a < CommandIndex message ->
  wp (applier_message fuel message) sc (fun sent sc' => sent = true /\
    sc_wf sc' (CommandIndex message) /\ exists response, effect command response sc sc' /\
    (GetState (sc_rf sc) = (CommandTerm message, true) ->
       pending (sc_notify sc') (CommandIndex message) response)).
Proof.
  intros [Hrf Hd Hn Hs Hnt] Hv Hc Hok Hlt. unfold applier_message. rewrite Hv, Hc. go.
  eapply wp_mono; [by apply wp_sc_applier_execute|].
  intros response sc1 (Hn1 & Hs1 & (sm & ops & ->) & Heff). go. unfold GetState. cbv beta iota.
  destruct (_ && _) eqn:Hl.
  - unfold getNotifyChan. go. apply wp_sc_on_notify.
    pose proof (wp_notify (CommandIndex message) response _ a Hnt Hlt) as Hwp.
    unfold wp, bind in Hwp. unfold wp at 1. cbn [sc_notify set_sc_lastOperations set_sc_stateMachine].
    destruct (get_chan _ (sc_notify sc)) as [[ch n]|]; [|done].
    apply wp_sc_on_notify. cbn [sc_notify set_sc_notify]. unfold wp.
    destruct (chan_send ch response n) as [[sent n']|]; [|done].
    destruct Hwp as (-> & Hw & Hp). split; [done|]. split; [by split|]. by exists response.
  - go. split; [done|]. split; [split; try done; eapply notify_wf_applied; [done|lia]|].
    exists response. split; [done|]. intros [= Ht Hlead]. cbn in Hl.
    rewrite Ht, Hlead, bool_decide_eq_true_2 in Hl by done. done.
Qed.

(** The controller's applier handles every command of the log in order: it does
    not panic, its send never blocks, a repeated write is not executed again, any
    other command has exactly the effect of its operation on the configurations, and
    the leader of the entry's term leaves the response for the waiting handler. *)
Theorem ctrl_applier_safe message command sc a :
  sc_wf sc a -> CommandValid message = true -> am_Command message = Some command ->
  command_ok command -> a < CommandIndex message ->
  wp (applier_message fuel message) sc (fun sent sc' => sent = true /\
    sc_wf sc' (CommandIndex message) /\ exists response, effect command response sc sc' /\
    (GetState (sc_rf sc) = (CommandTerm message, true) ->
       pending (sc_notify sc') (CommandIndex message) response)).
Proof. apply applier_message_run. Qed.
End inv.

(** ** Replicas *)
Section replicas.
Context (O1 O2 : MapOrder) `{!MapOrderLaws (H := O1)} `{!MapOrderLaws (H := O2)}.
Variable fuel : nat.
Hypothesis enough : (201 < fuel)%nat.

Lemma applyLog_order command cf : numbered cf ->
  applyLogToStateMachine (O := O1) fuel command cf = applyLogToStateMachine (O := O2) fuel command cf.
Proof.
  intros Hn. destruct (operations_order O1 O2 cf) as (HJ & HL & HM).
  { intros c [i Hi]%list_elem_of_lookup_1. by apply (proj2 Hn i c). }
  unfold applyLogToStateMachine, bind.
  repeat (destruct (decide _); [rewrite ?HJ, ?HL, ?HM; reflexivity|]). reflexivity.
Qed.

Definition same_state (sc1 sc2 : ShardCtrler) : Prop :=
  sc_stateMachine sc1 = sc_stateMachine sc2 /\ sc_lastOperations sc1 = sc_lastOperations sc2.

Lemma execute_agrees command sc1 sc2 :
  same_state sc1 sc2 -> numbered (sc_stateMachine sc1) ->
  is_Some (sc_lastOperations sc1) -> command_ok command ->
  exists r sc1' sc2', applier_execute (O := O1) fuel command sc1 = Some (r, sc1') /\
    applier_execute (O := O2) fuel command sc2 = Some (r, sc2') /\ same_state sc1' sc2' /\
    numbered (sc_stateMachine sc1') /\ is_Some (sc_lastOperations sc1').
Proof.
  intros [Hm Ho] Hn Hs Hok.
  pose proof (wp_sc_applier_execute (O := O1) fuel enough command sc1 Hn Hs Hok) as Hwp.
  apply wp_runs in Hwp as (r & sc1' & H1 & Hn1 & Hs1 & _).
  assert (exists sc2', applier_execute (O := O2) fuel command sc2 = Some (r, sc2') /\ same_state sc1' sc2')
    as (sc2' & H2 & Hsame); [|by exists r, sc1', sc2'].
  revert H1. unfold applier_execute, bind, get, isDuplicateRequest. rewrite <-Ho. destruct (_ && _).
  - unfold lastResponse, bind, get, lift. rewrite <-Ho.
    destruct (LastResponse <$> _); [|done]. intros [= <- <-]. by exists sc2.
  - unfold on_machine. rewrite <-Hm, (applyLog_order command (sc_stateMachine sc1) Hn).
    destruct (applyLogToStateMachine fuel command _) as [[x cf]|]; [|done].
    destruct (decide _); [|intros [= <- <-]; by eexists].
    unfold lift, modify, ret. cbn [sc_lastOperations set_sc_stateMachine]. rewrite <-Ho.
    destruct (map_set _ _ _); [|done]. intros [= <- <-]. by eexists.
Qed.

(** Replicas of the controller agree. Two controllers in the same state that
    execute the same commands end in the same state, although Go may traverse maps
    in a different order on each of them. *)
Theorem ctrl_replicas_agree commands sc1 sc2 :
  same_state sc1 sc2 -> numbered (sc_stateMachine sc1) -> is_Some (sc_lastOperations sc1) ->
  Forall command_ok commands ->
  exists sc1' sc2',
    forM commands (fun c => do! applier_execute (O := O1) fuel c; ret tt) sc1 = Some (tt, sc1') /\
    forM commands (fun c => do! applier_execute (O := O2) fuel c; ret tt) sc2 = Some (tt, sc2') /\
    same_state sc1' sc2'.
Proof.
  intros Hsame Hn Hs Hok. revert sc1 sc2 Hsame Hn Hs.
  induction Hok as [|c commands Hc _ IH]; intros sc1 sc2 Hsame Hn Hs; [by exists sc1, sc2|].
  destruct (execute_agrees c sc1 sc2 Hsame Hn Hs Hc) as (r & s1 & s2 & H1 & H2 & Hsame' & Hn' & Hs').
  destruct (IH s1 s2 Hsame' Hn' Hs') as (s1' & s2' & Hr1 & Hr2 & Hfin). exists s1', s2'.
  assert (Hx : forall (O : MapOrder) sc sc', applier_execute (O := O) fuel c sc = Some (r, sc') ->
    (do! applier_execute (O := O) fuel c; ret tt) sc = Some (tt, sc')).
  { intros O sc sc' E. by rewrite (bind_run _ _ _ _ _ E). }
  cbn [forM]. rewrite (bind_run _ _ _ _ _ (Hx O1 _ _ H1)), (bind_run _ _ _ _ _ (Hx O2 _ _ H2)).
  done.
Qed.
End replicas.

(** [Move] does not check its shard. A shard number outside the array panics the
    controller, and every replica that applies the entry. *)
Theorem move_out_of_range_panics `{MapOrder} shard gid cf :
  (forall c, c ∈ Configs cf -> length (Shards c) = Z.to_nat NShards) ->
  ~ 0 <= shard < NShards -> Move shard gid cf = None.
Proof.
  intros Hlen Hr. unfold Move, nextConfig, bind, get, lift.
  destruct (slice_get (Configs cf) _) as [c|] eqn:E; [|done]. cbn.
  apply slice_get_Some in E as [_ E]. apply list_elem_of_lookup_2 in E. apply Hlen in E.
  unfold slice_set. rewrite decide_False; [done|]. rewrite E. unfold NShards in *. lia.
Qed.

(** ** Witnesses *)
Module Example_ctrler.
Import Example3 Example_ctrl.
Definition rf : Raft Command :=
  saved (mkRaft 3 MakePersister 0 false StateLeader 1 0 [zeroEntry]
    0 0 [1; 1; 1] [0; 0; 0] Stopped (Armed 125) 1 []).
Definition sc : ShardCtrler := mkShardCtrler false 0 rf NewMemoryConfigStateMachine (Some ∅) no_chans.
Definition join : Command := mkCommand (mkCommandRequest groups12 [] 0 0 0 OpJoin 9 0).
Lemma sc_ok : sc_wf sc 0.
Proof.
  split; [|apply durable_saved|apply numbered_new|by eexists|apply no_chans_wf].
  split; cbn; try done; try lia. intros _. repeat constructor; done.
Qed.
End Example_ctrler.
Import Example3 Example_ctrl Example_ctrler.

Lemma ctrl_applier_safe_witness :
  wp (applier_message 202 (applyMsg (mkEntry Command 1 1 (Some join)))) sc
    (fun sent sc' => sent = true /\ sc_wf sc' 1).
Proof.
  eapply wp_mono; [apply (ctrl_applier_safe 202 ltac:(lia) (applyMsg (mkEntry Command 1 1 (Some join))) join sc 0);
    [apply sc_ok|reflexivity|reflexivity|by intros [=]|cbn; lia]|].
  intros sent sc' (Hs & Hw & _). done.
Defined.

Lemma ctrl_replicas_agree_witness :
  exists sc1 sc2, forM [join] (fun c => do! applier_execute (O := order) 202 c; ret tt) sc = Some (tt, sc1) /\
    forM [join] (fun c => do! applier_execute (O := list_order) 202 c; ret tt) sc = Some (tt, sc2) /\
    same_state sc1 sc2.
Proof.
  apply (ctrl_replicas_agree order list_order 202 ltac:(lia) [join] sc sc);
    [done|apply numbered_new|by eexists|repeat constructor; by intros [=]].
Defined.

Lemma move_out_of_range_panics_witness : Move 10 1 NewMemoryConfigStateMachine = None.
Proof.
  apply (move_out_of_range_panics 10 1 NewMemoryConfigStateMachine); [|unfold NShards; lia].
  intros c Hc. apply list_elem_of_singleton in Hc as ->. reflexivity.
Defined.
