(* ===== verification/ShardKv.v ===== *)
(** * shardkv: shards, the sharded server and its clerk

    [src/src/shardkv] is unfinished: [server.go] calls [applyLogToStateMachines],
    [updateShardStatus], [needSnapshot], [takeSnapshot] and [restoreSnapshot], which
    the repository does not define. They are variables of the section; what is there
    is modelled in full. A shard is reached through a pointer in the source; every
    shard has its own, so the map holds the shards themselves and a missing one is the
    nil pointer. *)
From Stdlib Require Import Strings.Byte.
From S2P Require Import Prelude Labgob Persister RaftTypes RaftNode Notify CtrlConfig.

(** ** common.go *)

Inductive Err := OK | ErrNoKey | ErrWrongGroup | ErrWrongLeader | ErrOutDated | ErrTimeout | ErrNotReady.
Inductive ShardStatus := Serving | Pulling | BePulling | GCing.
Inductive CommandType := Operation | Configuration | InsertShards | DeleteShards | EmptyEntry.
Inductive OperationOp := OpPut | OpAppend | OpGet.
#[export] Instance Err_eq_dec : EqDecision Err.
Proof. solve_decision. Defined.
#[export] Instance ShardStatus_eq_dec : EqDecision ShardStatus.
Proof. solve_decision. Defined.
#[export] Instance OperationOp_eq_dec : EqDecision OperationOp.
Proof. solve_decision. Defined.

Definition Err_String (err : Err) : string :=
  match err with
  | OK => "OK" | ErrNoKey => "ErrNoKey" | ErrWrongGroup => "ErrWrongGroup"
  | ErrWrongLeader => "ErrWrongLeader" | ErrOutDated => "ErrOutDated"
  | ErrTimeout => "ErrTimeout" | ErrNotReady => "ErrNotReady"
  end.
Definition ShardStatus_String (status : ShardStatus) : string :=
  match status with
  | Serving => "Serving" | Pulling => "Pulling" | BePulling => "BePulling" | GCing => "GCing"
  end.
Definition CommandType_String (op : CommandType) : string :=
  match op with
  | Operation => "Operation" | Configuration => "Configuration" | InsertShards => "InsertShards"
  | DeleteShards => "DeleteShards" | EmptyEntry => "EmptyEntry"
  end.
Definition OperationOp_String (op : OperationOp) : string :=
  match op with OpPut => "OpPut" | OpAppend => "OpAppend" | OpGet => "OpGet" end.

Record CommandRequest := mkCommandRequest {
  q_Key : string;
  q_Value : string;
  q_Op : OperationOp;
  q_ClientId : Z;
  q_CommandId : Z
}.

Record CommandResponse := mkCommandResponse {
  p_Err : Err;
  p_Value : string
}.

Record OperationContext := mkOperationContext {
  MaxAppliedCommandId : Z;
  LastResponse : CommandResponse
}.

Definition OperationContext_deepCopy (context : OperationContext) : OperationContext :=
  mkOperationContext (MaxAppliedCommandId context)
    (mkCommandResponse (p_Err (LastResponse context)) (p_Value (LastResponse context))).

Record ShardOperationRequest := mkShardOperationRequest {
  q_ConfigNum : Z;
  q_ShardIDs : list Z
}.

Record ShardOperationResponse := mkShardOperationResponse {
  s_Err : Err;
  s_ConfigNum : Z;
  s_Shards : gmap Z (gmap string string);
  s_LastOperations : gmap Z OperationContext
}.

(** [Data interface{}], by its dynamic type. *)
Inductive CommandData :=
  | DRequest (request : CommandRequest)
  | DConfig (config : Config)
  | DShards (response : ShardOperationResponse)
  | DShardIDs (request : ShardOperationRequest)
  | DNil.

Record Command := mkCommand { c_Op : CommandType; c_Data : CommandData }.

Definition NewOperationCommand (request : CommandRequest) : Command :=
  mkCommand Operation (DRequest request).
Definition NewConfigurationCommand (config : Config) : Command :=
  mkCommand Configuration (DConfig config).
Definition NewInsertShardsCommand (response : ShardOperationResponse) : Command :=
  mkCommand InsertShards (DShards response).
Definition NewDeleteShardsCommand (request : ShardOperationRequest) : Command :=
  mkCommand DeleteShards (DShardIDs request).
Definition NewEmptyEntryCommand : Command := mkCommand EmptyEntry DNil.

(** ** shard.go *)

Record Shard := mkShard { KV : GoMap string string; Status : ShardStatus }.

Definition NewShard : Shard := mkShard (Some ∅) Serving.

Definition Shard_Get (key : string) (shard : Shard) : string * Err :=
  match map_get (KV shard) key with
  | Some value => (value, OK)
  | None => (""%string, ErrNoKey)
  end.

Definition Shard_Put (key value : string) : M Shard Err :=
  let! shard := get in
  let! m := lift (map_set (KV shard) key value) in
  do! modify (fun shard => mkShard m (Status shard));
  ret OK.

Definition Shard_Append (key value : string) : M Shard Err :=
  let! shard := get in
  let old := default ""%string (map_get (KV shard) key) in
  let! m := lift (map_set (KV shard) key (old +:+ value)) in
  do! modify (fun shard => mkShard m (Status shard));
  ret OK.

Definition Shard_deepCopy `{MapOrder} (shard : Shard) : gmap string string :=
  foldl (fun newShard '(k, v) => <[k := v]> newShard) ∅ (range (default ∅ (KV shard))).

(** ** client.go: which shard is a key in *)

Definition key2shard (key : string) : Z :=
  let shard := match key with
               | String.String c _ => Z.of_nat (Ascii.nat_of_ascii c)
               | String.EmptyString => 0
               end in
  Z.rem shard NShards.

(** ** server.go *)

Record ShardKV := mkShardKV {
  kv_me : Z;
  kv_rf : Raft Command;
  kv_gid : Z;
  kv_maxRaftState : Z;
  kv_dead : bool;
  kv_lastApplied : Z;
  kv_lastConfig : Config;
  kv_currentConfig : Config;
  kv_stateMachine : GoMap Z Shard;
  kv_lastOperations : GoMap Z OperationContext;
  kv_notify : Notify CommandResponse
}.

Definition set_kv_me (v : Z) (x : ShardKV) : ShardKV :=
  mkShardKV v (kv_rf x) (kv_gid x) (kv_maxRaftState x) (kv_dead x) (kv_lastApplied x) (kv_lastConfig x) (kv_currentConfig x) (kv_stateMachine x) (kv_lastOperations x) (kv_notify x).
Definition set_kv_rf (v : Raft Command) (x : ShardKV) : ShardKV :=
  mkShardKV (kv_me x) v (kv_gid x) (kv_maxRaftState x) (kv_dead x) (kv_lastApplied x) (kv_lastConfig x) (kv_currentConfig x) (kv_stateMachine x) (kv_lastOperations x) (kv_notify x).
Definition set_kv_gid (v : Z) (x : ShardKV) : ShardKV :=
  mkShardKV (kv_me x) (kv_rf x) v (kv_maxRaftState x) (kv_dead x) (kv_lastApplied x) (kv_lastConfig x) (kv_currentConfig x) (kv_stateMachine x) (kv_lastOperations x) (kv_notify x).
Definition set_kv_maxRaftState (v : Z) (x : ShardKV) : ShardKV :=
  mkShardKV (kv_me x) (kv_rf x) (kv_gid x) v (kv_dead x) (kv_lastApplied x) (kv_lastConfig x) (kv_currentConfig x) (kv_stateMachine x) (kv_lastOperations x) (kv_notify x).
Definition set_kv_dead (v : bool) (x : ShardKV) : ShardKV :=
  mkShardKV (kv_me x) (kv_rf x) (kv_gid x) (kv_maxRaftState x) v (kv_lastApplied x) (kv_lastConfig x) (kv_currentConfig x) (kv_stateMachine x) (kv_lastOperations x) (kv_notify x).
Definition set_kv_lastApplied (v : Z) (x : ShardKV) : ShardKV :=
  mkShardKV (kv_me x) (kv_rf x) (kv_gid x) (kv_maxRaftState x) (kv_dead x) v (kv_lastConfig x) (kv_currentConfig x) (kv_stateMachine x) (kv_lastOperations x) (kv_notify x).
Definition set_kv_lastConfig (v : Config) (x : ShardKV) : ShardKV :=
  mkShardKV (kv_me x) (kv_rf x) (kv_gid x) (kv_maxRaftState x) (kv_dead x) (kv_lastApplied x) v (kv_currentConfig x) (kv_stateMachine x) (kv_lastOperations x) (kv_notify x).
Definition set_kv_currentConfig (v : Config) (x : ShardKV) : ShardKV :=
  mkShardKV (kv_me x) (kv_rf x) (kv_gid x) (kv_maxRaftState x) (kv_dead x) (kv_lastApplied x) (kv_lastConfig x) v (kv_stateMachine x) (kv_lastOperations x) (kv_notify x).
Definition set_kv_stateMachine (v : GoMap Z Shard) (x : ShardKV) : ShardKV :=
  mkShardKV (kv_me x) (kv_rf x) (kv_gid x) (kv_maxRaftState x) (kv_dead x) (kv_lastApplied x) (kv_lastConfig x) (kv_currentConfig x) v (kv_lastOperations x) (kv_notify x).
Definition set_kv_lastOperations (v : GoMap Z OperationContext) (x : ShardKV) : ShardKV :=
  mkShardKV (kv_me x) (kv_rf x) (kv_gid x) (kv_maxRaftState x) (kv_dead x) (kv_lastApplied x) (kv_lastConfig x) (kv_currentConfig x) (kv_stateMachine x) v (kv_notify x).
Definition set_kv_notify (v : Notify CommandResponse) (x : ShardKV) : ShardKV :=
  mkShardKV (kv_me x) (kv_rf x) (kv_gid x) (kv_maxRaftState x) (kv_dead x) (kv_lastApplied x) (kv_lastConfig x) (kv_currentConfig x) (kv_stateMachine x) (kv_lastOperations x) v.

Section ShardKV.
Context `{Gob Z} `{Gob (list (Entry Command))} `{Rand} `{Alloc} {O : MapOrder}.
Implicit Types (kv : ShardKV).

(** The functions the repository lacks. *)
Variable applyLogToStateMachines : CommandRequest -> Z -> M ShardKV CommandResponse.
Variable updateShardStatus : Config -> M ShardKV unit.
Variable needSnapshot : ShardKV -> bool.
Variable takeSnapshot : Z -> M ShardKV unit.
Variable restoreSnapshot : list byte -> M ShardKV unit.

Definition on_rf {A} (m : M (Raft Command) A) : M ShardKV A := fun kv =>
  match m (kv_rf kv) with
  | Some (a, rf) => Some (a, set_kv_rf rf kv)
  | None => None
  end.

Definition on_notify {A} (m : M (Notify CommandResponse) A) : M ShardKV A := fun kv =>
  match m (kv_notify kv) with
  | Some (a, n) => Some (a, set_kv_notify n kv)
  | None => None
  end.

Definition isDuplicateRequest (clientId commandId : Z) (kv : ShardKV) : bool :=
  match map_get (kv_lastOperations kv) clientId with
  | Some operationContext => bool_decide (commandId <= MaxAppliedCommandId operationContext)
  | None => false
  end.

Definition lastResponse (clientId : Z) : M ShardKV CommandResponse :=
  let! kv := get in
  lift (LastResponse <$> map_get (kv_lastOperations kv) clientId).

(** [&&] and [||] evaluate their second operand only when needed; a missing shard is a
    nil pointer. *)
Definition canServe (shardId : Z) (kv : ShardKV) : option bool :=
  match slice_get (Shards (kv_currentConfig kv)) shardId with
  | None => None
  | Some gid =>
      if decide (gid = kv_gid kv) then
        match map_get (kv_stateMachine kv) shardId with
        | None => None
        | Some shard => Some (bool_decide (Status shard = Serving) || bool_decide (Status shard = GCing))
        end
      else Some false
  end.

Definition getNotifyChan (index : Z) : M ShardKV nat := on_notify (get_chan index).
Definition removeOutdatedNotifyChan (index : Z) : M ShardKV unit := on_notify (remove_chan index).

(** Under the read lock: an answer, or the command to execute. *)
Definition Command_check (request : CommandRequest) : M ShardKV (CommandResponse + Command) :=
  let! kv := get in
  if negb (bool_decide (q_Op request = OpGet)) &&
     isDuplicateRequest (q_ClientId request) (q_CommandId request) kv then
    let! last := lastResponse (q_ClientId request) in
    ret (inl (mkCommandResponse (p_Err last) (p_Value last)))
  else
    let! serves := lift (canServe (key2shard (q_Key request)) kv) in
    if negb serves then ret (inl (mkCommandResponse ErrNoKey ""))
    else ret (inr (NewOperationCommand request)).

(** [Execute], split at the channel receive. *)
Definition Execute_start (command : Command) : M ShardKV (CommandResponse + nat) :=
  let! started := on_rf (Start command) in
  let '(index, _, isLeader) := started in
  if (isLeader : bool) then
    let! ch := getNotifyChan index in ret (inr ch)
  else ret (inl (mkCommandResponse ErrWrongLeader "")).
Definition Execute_result (ch : nat) : M ShardKV (option CommandResponse) :=
  let! result := on_notify (chan_receive ch) in
  ret ((fun r => mkCommandResponse (p_Err r) (p_Value r)) <$> result).
Definition Execute_timeout : CommandResponse := mkCommandResponse ErrTimeout "".

Definition applyOperation (operation : CommandRequest) : M ShardKV CommandResponse :=
  let shardId := key2shard (q_Key operation) in
  let! kv := get in
  let! serves := lift (canServe shardId kv) in
  if (serves : bool) then
    if negb (bool_decide (q_Op operation = OpGet)) &&
       isDuplicateRequest (q_ClientId operation) (q_CommandId operation) kv then
      lastResponse (q_ClientId operation)
    else
      let! response := applyLogToStateMachines operation shardId in
      if decide (q_Op operation <> OpGet) then
        let! kv := get in
        let! m := lift (map_set (kv_lastOperations kv) (q_ClientId operation)
                          (mkOperationContext (q_CommandId operation) response)) in
        do! modify (set_kv_lastOperations m);
        ret response
      else ret response
  else ret (mkCommandResponse ErrWrongGroup "").

Definition applyConfiguration (nextConfig : Config) : M ShardKV CommandResponse :=
  let! kv := get in
  if decide (Num nextConfig = Num (kv_currentConfig kv) + 1) then
    do! updateShardStatus nextConfig;
    do! modify (fun kv => set_kv_lastConfig (kv_currentConfig kv) kv);
    do! modify (set_kv_currentConfig nextConfig);
    ret (mkCommandResponse OK "")
  else ret (mkCommandResponse ErrOutDated "").

(** [kv.stateMachine[shardId]], dereferenced, and a write through it. *)
Definition getShard (shardId : Z) : M ShardKV Shard :=
  let! kv := get in lift (map_get (kv_stateMachine kv) shardId).
Definition setShard (shardId : Z) (shard : Shard) : M ShardKV unit :=
  let! kv := get in
  let! m := lift (map_set (kv_stateMachine kv) shardId shard) in
  modify (set_kv_stateMachine m).

(** [shard.KV[key] = value] for every pair of the data. *)
Definition insertData (data : gmap string string) (kvs : GoMap string string)
  : option (GoMap string string) :=
  foldl (fun acc '(k, v) => match acc with Some m => map_set m k v | None => None end)
    (Some kvs) (range data).

(** The loop over [shardsInfo.Shards], left at the first shard that is not [Pulling]. *)
Fixpoint insertShards (shards : list (Z * gmap string string)) : M ShardKV unit :=
  match shards with
  | [] => ret tt
  | (shardId, shardData) :: rest =>
      let! shard := getShard shardId in
      if decide (Status shard = Pulling) then
        let! kvs := lift (insertData shardData (KV shard)) in
        do! setShard shardId (mkShard kvs GCing);
        insertShards rest
      else ret tt
  end.

Definition mergeOperation (p : Z * OperationContext) : M ShardKV unit :=
  let '(clientId, operationContext) := p in
  let! kv := get in
  match map_get (kv_lastOperations kv) clientId with
  | Some lastOperation =>
      if decide (MaxAppliedCommandId lastOperation < MaxAppliedCommandId operationContext) then
        let! m := lift (map_set (kv_lastOperations kv) clientId operationContext) in
        modify (set_kv_lastOperations m)
      else ret tt
  | None =>
      let! m := lift (map_set (kv_lastOperations kv) clientId operationContext) in
      modify (set_kv_lastOperations m)
  end.

Definition applyInsertShards (shardsInfo : ShardOperationResponse) : M ShardKV CommandResponse :=
  let! kv := get in
  if decide (s_ConfigNum shardsInfo = Num (kv_currentConfig kv)) then
    do! insertShards (range (s_Shards shardsInfo));
    do! forM (range (s_LastOperations shardsInfo)) mergeOperation;
    ret (mkCommandResponse OK "")
  else ret (mkCommandResponse ErrOutDated "").

Fixpoint deleteShards (shardIds : list Z) : M ShardKV unit :=
  match shardIds with
  | [] => ret tt
  | shardId :: rest =>
      let! shard := getShard shardId in
      if decide (Status shard = GCing) then
        do! setShard shardId (mkShard (KV shard) Serving);
        deleteShards rest
      else if decide (Status shard = BePulling) then
        do! setShard shardId NewShard;
        deleteShards rest
      else ret tt
  end.

Definition applyDeleteShards (shardsInfo : ShardOperationRequest) : M ShardKV CommandResponse :=
  let! kv := get in
  if decide (q_ConfigNum shardsInfo = Num (kv_currentConfig kv)) then
    do! deleteShards (q_ShardIDs shardsInfo);
    ret (mkCommandResponse OK "")
  else ret (mkCommandResponse OK "").

Definition applyEmptyEntry : CommandResponse := mkCommandResponse OK "".

(** The [switch] of [applier]; a type assertion that fails panics. *)
Definition applyCommand (command : Command) : M ShardKV CommandResponse :=
  match c_Op command, c_Data command with
  | Operation, DRequest operation => applyOperation operation
  | Configuration, DConfig nextConfig => applyConfiguration nextConfig
  | InsertShards, DShards shardsInfo => applyInsertShards shardsInfo
  | DeleteShards, DShardIDs shardsInfo => applyDeleteShards shardsInfo
  | EmptyEntry, _ => ret applyEmptyEntry
  | _, _ => panic
  end.

Definition applier_message (message : ApplyMsg Command) : M ShardKV bool :=
  if CommandValid message then
    let! kv := get in
    if decide (CommandIndex message <= kv_lastApplied kv) then ret true else
    do! modify (set_kv_lastApplied (CommandIndex message));
    let! command := lift (am_Command message) in
    let! response := applyCommand command in
    let! kv := get in
    let '(term, isLeader) := GetState (kv_rf kv) in
    let! sent :=
      (if isLeader && bool_decide (CommandTerm message = term) then
         let! ch := getNotifyChan (CommandIndex message) in
         on_notify (chan_send ch response)
       else ret true) in
    if (sent : bool) then
      let! kv := get in
      do! (if needSnapshot kv then takeSnapshot (CommandIndex message) else ret tt);
      ret true
    else ret false
  else if SnapshotValid message then
    let! installed := on_rf (CondInstallSnapshot (SnapshotTerm message) (SnapshotIndex message)
                               (Snapshot_ message)) in
    do! (if (installed : bool) then
           do! restoreSnapshot (Snapshot_ message);
           modify (set_kv_lastApplied (CommandIndex message))
         else ret tt);
    ret true
  else panic.

Definition Kill : M ShardKV unit :=
  do! modify (set_kv_dead true);
  on_rf RaftNode.Kill.
Definition killed (kv : ShardKV) : bool := kv_dead kv.

(** [new(ShardKV)] leaves the maps nil and the configurations zero; no applier is
    started. *)
Definition StartServer (servers : nat) (me : Z) (persister : Persister) (maxraftstate gid : Z)
  : option ShardKV :=
  match Make servers me persister with
  | Some rf =>
      Some (mkShardKV me rf gid maxraftstate false 0 DefaultConfig DefaultConfig None None
              (mkNotify _ None []))
  | None => None
  end.
End ShardKV.

(** ** client.go: the clerk

    [net] answers the calls as in [Clerk]; [latest k] is what the [k]-th
    [ck.sm.Query(-1)] returns. *)
Record ShardClerk := mkShardClerk {
  sck_config : Config;
  sck_leaderIds : gmap Z Z;
  sck_clientId : Z;
  sck_commandId : Z
}.

Section client.
Variable net : nat -> string -> CommandRequest -> option CommandResponse.
Variable latest : nat -> Config.

Definition MakeClerk (draw : Z -> Z) : ShardClerk :=
  mkShardClerk (latest 0) ∅ (draw (Z.shiftl 1 62)) 0.

(** The inner loop, over the servers of one group: the answer, if one is accepted, and
    the number of calls made. One unit of fuel per call: one more than the number of
    servers is enough. *)
Fixpoint try_group (fuel k : nat) (request : CommandRequest) (servers : list string)
  (oldLeaderId newLeaderId : Z) : option (option string * nat) :=
  match fuel with
  | O => Some (None, k)
  | S fuel =>
      match slice_get servers newLeaderId with
      | None => None
      | Some server =>
          let next := Z.rem (newLeaderId + 1) (len servers) in
          let advance := if decide (next = oldLeaderId) then Some (None, S k)
                         else try_group fuel (S k) request servers oldLeaderId next in
          match net k server request with
          | Some response =>
              if decide (p_Err response = OK \/ p_Err response = ErrNoKey) then
                Some (Some (p_Value response), S k)
              else if decide (p_Err response = ErrWrongGroup) then Some (None, S k)
              else advance
          | None => advance
          end
      end
  end.

(** The outer loop; [None] in the result when the fuel runs out. [j] counts queries. *)
Fixpoint shard_command_loop (fuel j k : nat) (request : CommandRequest)
  : M ShardClerk (option string) :=
  match fuel with
  | O => ret None
  | S fuel =>
      let! ck := get in
      let! gid := lift (slice_get (Shards (sck_config ck)) (key2shard (q_Key request))) in
      let refresh (k : nat) : M ShardClerk (option string) :=
        do! modify (fun ck => mkShardClerk (latest (S j)) (sck_leaderIds ck) (sck_clientId ck)
                                (sck_commandId ck));
        shard_command_loop fuel (S j) k request in
      match Groups (sck_config ck) !! gid with
      | None => refresh k
      | Some servers =>
          do! modify (fun ck => match sck_leaderIds ck !! gid with
                | Some _ => ck
                | None => mkShardClerk (sck_config ck) (<[gid := 0]> (sck_leaderIds ck))
                            (sck_clientId ck) (sck_commandId ck) end);
          let! ck := get in
          let oldLeaderId := default 0 (sck_leaderIds ck !! gid) in
          let! tried := lift (try_group (S (length servers)) k request servers oldLeaderId oldLeaderId) in
          match tried with
          | (Some value, _) =>
              do! modify (fun ck => mkShardClerk (sck_config ck) (sck_leaderIds ck) (sck_clientId ck)
                                      (sck_commandId ck + 1));
              ret (Some value)
          | (None, k) => refresh k
          end
      end
  end.

Definition ShardClerk_Command (fuel : nat) (request : CommandRequest) : M ShardClerk (option string) :=
  let! ck := get in
  shard_command_loop fuel 0 0 (mkCommandRequest (q_Key request) (q_Value request) (q_Op request)
    (sck_clientId ck) (sck_commandId ck)).
Definition ShardClerk_Get (fuel : nat) (key : string) : M ShardClerk (option string) :=
  ShardClerk_Command fuel (mkCommandRequest key "" OpGet 0 0).
Definition ShardClerk_Put (fuel : nat) (key value : string) : M ShardClerk (option string) :=
  ShardClerk_Command fuel (mkCommandRequest key value OpPut 0 0).
Definition ShardClerk_Append (fuel : nat) (key value : string) : M ShardClerk (option string) :=
  ShardClerk_Command fuel (mkCommandRequest key value OpAppend 0 0).
End client.
