(* ===== verification/ShardKvProps.v ===== *)
(** * Properties of the sharded key/value service

    Handing over shards, the clerk's search for a leader, and what happens to a
    request that reaches a group which does not serve its shard. *)
From Stdlib Require Import Strings.Byte.
From S2P Require Import Prelude Labgob Persister RaftTypes RaftNode RaftLog RaftSpec RaftSnapshot RaftInv RaftProps Notify CtrlConfig CtrlOps ShardKv.

(** ** Handing over shards *)
Section insert.
Context {O : MapOrder} `{!MapOrderLaws}.
Implicit Types (kv : ShardKV).

(** Writing all pairs of a map into a non-nil map. *)
Lemma insertData_run data kvs : insertData data (Some kvs) = Some (Some (data ∪ kvs)).
Proof.
  unfold insertData.
  assert (Hgen : forall l (m : gmap string string), NoDup (fst <$> l) ->
    foldl (fun acc '(k, v) => match acc with Some m => map_set m k v | None => None end)
      (Some (Some m)) l = Some (Some (list_to_map l ∪ m))).
  { intros l. induction l as [|[k v] l IH]; intros m Hnd; cbn [foldl]; [by rewrite list_to_map_nil, map_empty_union|].
    rewrite fmap_cons in Hnd. apply NoDup_cons in Hnd as [Hk Hnd]. cbn [map_set]. rewrite IH by done.
    do 2 f_equal. cbn. rewrite <-insert_union_l. rewrite insert_union_r; [done|].
    by apply not_elem_of_list_to_map_1. }
  rewrite Hgen by (rewrite range_keys; apply NoDup_fst_map_to_list). do 3 f_equal.
  etrans; [|apply list_to_map_to_list]. apply list_to_map_proper; [|apply range_perm].
  rewrite range_keys. apply NoDup_fst_map_to_list.
Qed.

(** The shard after the data has arrived. *)
Definition received (data : gmap string string) (shard : Shard) : Shard :=
  mkShard (Some (data ∪ default ∅ (KV shard))) GCing.

Definition pulling (shard : Shard) : Prop := Status shard = Pulling /\ is_Some (KV shard).

Lemma wp_insertShards l kv m :
  kv_stateMachine kv = Some m -> NoDup (fst <$> l) ->
  Forall (fun p => exists shard, m !! fst p = Some shard /\ pulling shard) l ->
  wp (insertShards l) kv (fun _ kv' => exists m', kv' = set_kv_stateMachine (Some m') kv /\
    forall id, m' !! id = match (list_to_map l : gmap Z (gmap string string)) !! id with
                          | Some data => received data <$> m !! id | None => m !! id end).
Proof.
  revert kv m. induction l as [|[id data] l IH]; intros kv m Hm Hnd Hall; simpl.
  - go. exists m. split; [rewrite <-Hm; by destruct kv|]. intros id. by rewrite lookup_empty.
  - rewrite fmap_cons in Hnd. apply NoDup_cons in Hnd as [Hid Hnd]. simpl in Hid.
    apply Forall_cons in Hall as [(shard & Hs & Hp & [kvs Hkvs]) Hall]. simpl in Hs.
    go. unfold getShard. go. rewrite Hm. cbn. rewrite Hs. go. rewrite decide_True by done.
    rewrite Hkvs, insertData_run. go. unfold setShard. go. rewrite Hm. cbn. go.
    set (m1 := <[id := mkShard (Some (data ∪ kvs)) GCing]> m).
    eapply wp_mono; [apply (IH _ m1); [done|done|]|].
    { rewrite Forall_forall in Hall |- *. intros [id' data'] Hin.
      destruct (Hall _ Hin) as (sh & Hsh & Hpl). exists sh. simpl in *. split; [|done].
      unfold m1. rewrite lookup_insert_ne; [done|]. intros <-. apply Hid.
      apply list_elem_of_fmap. by exists (id, data'). }
    intros [] kv' (m' & -> & Hm'). exists m'. split; [done|]. intros j. rewrite Hm'. unfold m1.
    destruct (decide (id = j)) as [<-|Hne].
    + rewrite !lookup_insert_eq, (not_elem_of_list_to_map_1 l id Hid), Hs. cbn.
      unfold received. by rewrite Hkvs.
    + by rewrite !lookup_insert_ne.
Qed.

(** The session with the larger command number. *)
Definition newer (mine theirs : option OperationContext) : option OperationContext :=
  match mine, theirs with
  | Some a, Some b => if decide (MaxAppliedCommandId a < MaxAppliedCommandId b) then Some b else Some a
  | Some a, None => Some a
  | None, b => b
  end.

Lemma wp_mergeOperations l kv ops :
  kv_lastOperations kv = Some ops -> NoDup (fst <$> l) ->
  wp (forM l mergeOperation) kv (fun _ kv' => exists ops', kv' = set_kv_lastOperations (Some ops') kv /\
    forall c, ops' !! c = newer (ops !! c) ((list_to_map l : gmap Z OperationContext) !! c)).
Proof.
  revert kv ops. induction l as [|[c ctx] l IH]; intros kv ops Ho Hnd; simpl.
  - go. exists ops. split; [rewrite <-Ho; by destruct kv|]. intros c. rewrite lookup_empty.
    by destruct (ops !! c).
  - rewrite fmap_cons in Hnd. apply NoDup_cons in Hnd as [Hc Hnd]. simpl in Hc. go.
    eapply (wp_mono _ _ (fun _ kv1 => exists ops1, kv1 = set_kv_lastOperations (Some ops1) kv /\
      forall d, ops1 !! d = if decide (d = c) then newer (ops !! c) (Some ctx) else ops !! d)).
    { unfold mergeOperation. go. rewrite Ho. cbn. destruct (ops !! c) as [old|] eqn:E.
      - destruct (decide _) as [Hlt|Hge]; go.
        + eexists. split; [done|]. intros d. destruct (decide (d = c)) as [->|Hne].
          * rewrite lookup_insert_eq. cbn. by rewrite decide_True.
          * by rewrite lookup_insert_ne.
        + exists ops. split; [rewrite <-Ho; by destruct kv|]. intros d.
          destruct (decide (d = c)) as [->|]; [|done]. cbn. by rewrite decide_False.
      - go. eexists. split; [done|]. intros d. destruct (decide (d = c)) as [->|Hne].
        + by rewrite lookup_insert_eq.
        + by rewrite lookup_insert_ne. }
    intros [] kv1 (ops1 & -> & Hops1). eapply wp_mono; [by apply (IH _ ops1)|].
    intros [] kv2 (ops2 & -> & Hops2). exists ops2. split; [done|]. intros d. rewrite Hops2, Hops1.
    destruct (decide (d = c)) as [->|Hne].
    + rewrite lookup_insert_eq, (not_elem_of_list_to_map_1 l c Hc). by destruct (newer _ _).
    + by rewrite lookup_insert_ne.
Qed.

Lemma range_NoDup `{Countable K} {V} (m : gmap K V) : NoDup (fst <$> range m).
Proof. rewrite range_keys. apply NoDup_fst_map_to_list. Qed.

Lemma range_to_map `{Countable K} {V} (m : gmap K V) : (list_to_map (range m) : gmap K V) = m.
Proof.
  etrans; [|apply list_to_map_to_list]. apply list_to_map_proper; [apply range_NoDup|apply range_perm].
Qed.

(** C37: taking over shards. When every shard of the message is being pulled, the
    server gets exactly the data of the message on top of what it had, the shards
    become ready for garbage collection, no other shard changes, and each client's
    session is the newer of the two; none of this depends on the order Go traverses
    the maps in. *)
Theorem insert_shards_takes_over shardsInfo kv m ops :
  kv_stateMachine kv = Some m -> kv_lastOperations kv = Some ops ->
  s_ConfigNum shardsInfo = Num (kv_currentConfig kv) ->
  (forall id data, s_Shards shardsInfo !! id = Some data ->
     exists shard, m !! id = Some shard /\ pulling shard) ->
  wp (applyInsertShards shardsInfo) kv (fun response kv' => response = mkCommandResponse OK "" /\
    exists m' ops', kv' = set_kv_lastOperations (Some ops') (set_kv_stateMachine (Some m') kv) /\
      (forall id, m' !! id = match s_Shards shardsInfo !! id with
                             | Some data => received data <$> m !! id | None => m !! id end) /\
      (forall c, ops' !! c = newer (ops !! c) (s_LastOperations shardsInfo !! c))).
Proof.
  intros Hm Ho Hn Hall. unfold applyInsertShards. go. rewrite decide_True by done. go.
  eapply wp_mono; [apply (wp_insertShards _ kv m Hm); [apply range_NoDup|]|].
  { apply Forall_forall. intros [id data] Hin%elem_of_range. by apply (Hall id data). }
  intros [] kv1 (m' & -> & Hm'). go.
  eapply wp_mono; [apply (wp_mergeOperations _ _ ops); [done|apply range_NoDup]|].
  intros [] kv2 (ops' & -> & Hops'). go. split; [done|]. exists m', ops'. split; [done|].
  rewrite range_to_map in Hm'. rewrite range_to_map in Hops'. done.
Qed.
End insert.

(** ** Configurations *)

(** A server goes through configurations one at a time: applying a configuration
    entry either moves to the next number, keeping the previous configuration, or
    changes nothing. *)
Theorem configuration_steps_by_one (updateShardStatus : Config -> M ShardKV unit) nextConfig kv :
  (forall c kv, wp (updateShardStatus c) kv (fun _ kv' => kv_currentConfig kv' = kv_currentConfig kv)) ->
  wp (applyConfiguration updateShardStatus nextConfig) kv (fun response kv' =>
    (Num nextConfig = Num (kv_currentConfig kv) + 1 /\ p_Err response = OK /\
       kv_currentConfig kv' = nextConfig /\ kv_lastConfig kv' = kv_currentConfig kv) \/
    (Num nextConfig <> Num (kv_currentConfig kv) + 1 /\ p_Err response = ErrOutDated /\ kv' = kv)).
Proof.
  intros Hu. unfold applyConfiguration. go. destruct (decide _) as [Hn|Hn]; go; [|by right].
  eapply wp_mono; [apply Hu|]. intros [] kv1 Hc. go. left. cbn. split_and!; [done|done|done|exact Hc].
Qed.

(** ** The clerk *)
Section client.
Variable net : nat -> string -> CommandRequest -> option CommandResponse.
Variable latest : nat -> Config.

(** Asking the servers of a list one after the other. *)
Fixpoint scan (k : nat) (request : CommandRequest) (servers : list string) : option string * nat :=
  match servers with
  | [] => (None, k)
  | server :: servers =>
      match net k server request with
      | Some response =>
          if decide (p_Err response = OK \/ p_Err response = ErrNoKey) then (Some (p_Value response), S k)
          else if decide (p_Err response = ErrWrongGroup) then (None, S k)
          else scan (S k) request servers
      | None => scan (S k) request servers
      end
  end.

Lemma slice_get_rotated (servers : list string) o j :
  0 <= o < len servers -> 0 <= j < len servers ->
  slice_get servers ((o + j) mod len servers) =
  (drop (Z.to_nat o) servers ++ take (Z.to_nat o) servers) !! Z.to_nat j.
Proof.
  intros Ho Hj. unfold slice_get. rewrite decide_True by (apply Z.mod_pos_bound; lia).
  destruct (decide (o + j < len servers)) as [Hlt|Hge].
  - rewrite Z.mod_small by lia. rewrite lookup_app_l by (rewrite length_drop; lia).
    rewrite lookup_drop. f_equal. lia.
  - replace ((o + j) mod len servers) with (o + j - len servers).
    2:{ apply (Z.mod_unique _ _ 1); lia. }
    rewrite lookup_app_r by (rewrite length_drop; lia). rewrite length_drop.
    rewrite lookup_take_lt by lia. f_equal. lia.
Qed.

Lemma try_group_scan servers o request :
  0 <= o < len servers ->
  forall d j k fuel, 0 <= j < len servers -> d = Z.to_nat (len servers - j) -> (d <= fuel)%nat ->
  try_group net fuel k request servers o ((o + j) mod len servers) =
  Some (scan k request (drop (Z.to_nat j) (drop (Z.to_nat o) servers ++ take (Z.to_nat o) servers))).
Proof.
  intros Ho. set (rot := drop (Z.to_nat o) servers ++ take (Z.to_nat o) servers).
  assert (Hlen : length rot = length servers).
  { unfold rot. rewrite length_app, length_drop, length_take. lia. }
  induction d as [|d IH]; intros j k fuel Hj Hd Hf; [lia|].
  destruct fuel as [|fuel]; [lia|]. cbn [try_group].
  rewrite slice_get_rotated by done. fold rot.
  destruct (lookup_lt_is_Some_2 rot (Z.to_nat j)) as [server Hs]; [lia|].
  rewrite Hs, (drop_S _ _ _ Hs). cbn [scan].
  assert (Hadv : (if decide (Z.rem ((o + j) mod len servers + 1) (len servers) = o)
       then Some (None, S k)
       else try_group net fuel (S k) request servers o
              (Z.rem ((o + j) mod len servers + 1) (len servers))) =
     Some (scan (S k) request (drop (S (Z.to_nat j)) rot))).
  { pose proof (Z.mod_pos_bound (o + j) (len servers) ltac:(lia)) as Hb.
    rewrite Z.rem_mod_nonneg, Zplus_mod_idemp_l by lia.
    destruct (decide (j + 1 = len servers)) as [He|Hne].
    - replace (o + j + 1) with (o + 1 * len servers) by lia. rewrite Z_mod_plus_full, Z.mod_small by lia.
      rewrite decide_True by done. rewrite drop_ge by lia. done.
    - rewrite decide_False.
      + replace (o + j + 1) with (o + (j + 1)) by lia. rewrite (IH (j + 1)) by lia.
        do 3 f_equal. lia.
      + intros E. destruct (decide (o + j + 1 < len servers)).
        * rewrite Z.mod_small in E by lia. lia.
        * replace (o + j + 1) with (o + j + 1 - len servers + 1 * len servers) in E by lia.
          rewrite Z_mod_plus_full, Z.mod_small in E by lia. lia. }
  destruct (net k server request) as [response|]; [|exact Hadv].
  destruct (decide (p_Err response = OK \/ _)); [done|].
  destruct (decide (p_Err response = ErrWrongGroup)); [done|]. exact Hadv.
Qed.

(** Looking for the leader of a group. The inner loop of the clerk asks each server
    of the group at most once, from the last known leader on and around, stops at the
    first final answer, and always ends. *)
Theorem clerk_asks_each_server_once k request servers oldLeaderId :
  0 <= oldLeaderId < len servers ->
  try_group net (S (length servers)) k request servers oldLeaderId oldLeaderId =
  Some (scan k request (drop (Z.to_nat oldLeaderId) servers ++ take (Z.to_nat oldLeaderId) servers)).
Proof.
  intros Ho. pose proof (try_group_scan servers oldLeaderId request Ho (length servers) 0 k
    (S (length servers)) ltac:(lia) ltac:(lia) ltac:(lia)) as Hs.
  rewrite Z.add_0_r, Z.mod_small in Hs by lia. exact Hs.
Qed.

(** A first server that answers [ErrNoKey] ends the search. *)
Lemma clerk_accepts_nokey fuel ck request gid server servers :
  slice_get (Shards (sck_config ck)) (key2shard (q_Key request)) = Some gid ->
  Groups (sck_config ck) !! gid = Some (server :: servers) ->
  sck_leaderIds ck !! gid = None ->
  net 0 server (mkCommandRequest (q_Key request) (q_Value request) (q_Op request)
    (sck_clientId ck) (sck_commandId ck)) = Some (mkCommandResponse ErrNoKey "") ->
  exists ck', ShardClerk_Command net latest (S fuel) request ck = Some (Some ""%string, ck') /\
    sck_commandId ck' = sck_commandId ck + 1.
Proof.
  intros Hg Hs Hl Hn. unfold ShardClerk_Command, bind, get. cbn [shard_command_loop].
  unfold bind, get, lift. cbn [q_Key]. rewrite Hg, Hs. cbn [modify]. unfold modify. rewrite Hl.
  cbn [sck_leaderIds]. rewrite lookup_insert_eq. cbn [default from_option id].
  cbn [try_group]. change (slice_get (server :: servers) 0) with (Some server). cbn beta iota.
  rewrite Hn. cbn [p_Err]. rewrite decide_True by (by right). by eexists.
Qed.
End client.

(** C40: a write that is lost. A group that does not serve the shard of a request
    answers [ErrNoKey], and the clerk takes [ErrNoKey] for success: the put returns and
    the command number moves on although no server has it. ([ErrWrongGroup], which the
    clerk would retry, is what the code of [applyOperation] answers.) *)
Theorem wrong_group_put_is_lost net latest fuel ck key value gid server servers kv :
  let request := mkCommandRequest key value OpPut (sck_clientId ck) (sck_commandId ck) in
  slice_get (Shards (sck_config ck)) (key2shard key) = Some gid ->
  Groups (sck_config ck) !! gid = Some (server :: servers) ->
  sck_leaderIds ck !! gid = None ->
  isDuplicateRequest (sck_clientId ck) (sck_commandId ck) kv = false ->
  canServe (key2shard key) kv = Some false ->
  (forall r, net 0%nat server r =
     match Command_check r kv with Some (inl response, _) => Some response | _ => None end) ->
  Command_check request kv = Some (inl (mkCommandResponse ErrNoKey ""), kv) /\
  exists ck', ShardClerk_Put net latest (S fuel) key value ck = Some (Some ""%string, ck') /\
    sck_commandId ck' = sck_commandId ck + 1.
Proof.
  intros request Hg Hs Hl Hd Hc Hn.
  assert (Hcheck : Command_check request kv = Some (inl (mkCommandResponse ErrNoKey ""), kv)).
  { unfold Command_check, bind, get. cbn [q_Op q_ClientId q_CommandId q_Key request].
    rewrite Hd, andb_false_r. unfold lift. by rewrite Hc. }
  split; [done|].
  eapply (clerk_accepts_nokey net latest fuel ck (mkCommandRequest key value OpPut 0 0));
    [exact Hg|exact Hs|exact Hl|]. rewrite Hn. cbn [q_Key q_Value q_Op]. fold request.
  by rewrite Hcheck.
Qed.

(** Installing a snapshot resets the applied index. The server sets [lastApplied]
    from the message's [CommandIndex], which Raft leaves zero in snapshot messages, so
    entries the snapshot already contains would be accepted again. *)
Theorem snapshot_resets_lastApplied `{Gob Z} `{Gob (list (Entry Command))} `{Rand} `{Alloc} {O : MapOrder}
  applyLog updateShardStatus needSnapshot takeSnapshot restoreSnapshot data term index kv :
  (forall kv, wp (restoreSnapshot data) kv (fun _ kv' => True)) ->
  wf (kv_rf kv) -> commitIndex (kv_rf kv) < index ->
  wp (applier_message applyLog updateShardStatus needSnapshot takeSnapshot restoreSnapshot
        (mkApplyMsg Command false None 0 0 true data term index)) kv
    (fun _ kv' => kv_lastApplied kv' = 0).
Proof.
  intros Hr Hwf Hlt. unfold applier_message. cbn [CommandValid SnapshotValid]. go.
  assert (Hc : wp (CondInstallSnapshot term index data) (kv_rf kv) (fun b _ => b = true)).
  { apply wp_CondInstallSnapshot; [apply Hwf|apply Hwf|lia|done]. }
  apply wp_runs in Hc as (b & rf & Hrun & ->). unfold on_rf, wp at 1.
  cbn [SnapshotTerm SnapshotIndex Snapshot_]. rewrite Hrun. go.
  eapply wp_mono; [apply Hr|]. intros [] kv1 _. by go.
Qed.

(** ** Order of a traversal *)

Module Example_shardkv.
Import Example3.
(** The property below holds of any codec; this one writes nothing. *)
#[export] Instance no_gob : Gob (list (Entry Command)) := {| Encode _ := []; Decode _ := None |}.
Definition config : Config := mkConfig 1 (replicate 10 7) {[7 := ["s0"%string]]}.
Definition shards : gmap Z Shard := {[1 := mkShard (Some ∅) Pulling; 2 := mkShard (Some ∅) Serving]}.
Definition rf : Raft Command :=
  mkRaft 3 MakePersister 0 false StateLeader 1 0 [zeroEntry] 0 0 [1; 1; 1] [0; 0; 0]
    Stopped (Armed 125) 1 [].
Definition kv : ShardKV :=
  mkShardKV 0 rf 7 (-1) false 0 DefaultConfig config (Some shards) (Some ∅) no_chans.
Definition info : ShardOperationResponse :=
  mkShardOperationResponse OK 1 {[1 := {["k"%string := "v"%string]}; 2 := ∅]} ∅.
Definition info1 : ShardOperationResponse :=
  mkShardOperationResponse OK 1 {[1 := {["k"%string := "v"%string]}]} ∅.
Definition status_of (id : Z) (o : option (CommandResponse * ShardKV)) : option ShardStatus :=
  match o with Some (_, kv) => Status <$> map_get (kv_stateMachine kv) id | None => None end.
Lemma rf_wf : wf rf.
Proof. split; cbn; try done; try lia. intros _. repeat constructor; done. Qed.
End Example_shardkv.
Import Example_shardkv.

(** Replicas may diverge. The loop over the shards of an [InsertShards] entry stops
    at the first shard that is not being pulled, and Go visits the shards in any order:
    with one pulled and one served shard, two replicas that apply the same entry can end
    up with different states. *)
Theorem insert_shards_depends_on_order :
  exists (O1 O2 : MapOrder), MapOrderLaws (H := O1) /\ MapOrderLaws (H := O2) /\
    status_of 1 (applyInsertShards (O := O1) info kv) = Some GCing /\
    status_of 1 (applyInsertShards (O := O2) info kv) = Some Pulling.
Proof.
  exists reversed_order, list_order.
  split; [apply _|]. split; [apply _|]. split; vm_compute; reflexivity.
Qed.

(** ** Witnesses *)
Import Example3.

Lemma insert_shards_takes_over_witness :
  wp (applyInsertShards (O := list_order) info1) kv (fun response kv' => p_Err response = OK /\
    exists m', kv_stateMachine kv' = Some m' /\
      m' !! 1 = Some (mkShard (Some {["k"%string := "v"%string]}) GCing) /\ m' !! 2 = shards !! 2).
Proof.
  eapply wp_mono; [apply (insert_shards_takes_over (O := list_order) info1 kv shards ∅);
    [reflexivity|reflexivity|reflexivity|]|].
  - intros id data. cbn. intros [<- _]%lookup_singleton_Some.
    exists (mkShard (Some ∅) Pulling). split; [reflexivity|]. split; [reflexivity|by eexists].
  - intros response kv' (-> & m' & ops' & -> & Hm & _). split; [reflexivity|]. exists m'. split; [reflexivity|].
    split; [exact (Hm 1)|exact (Hm 2)].
Defined.

Lemma configuration_steps_by_one_witness :
  wp (applyConfiguration (fun _ => ret tt) (mkConfig 2 (replicate 10 7) ∅)) kv
    (fun response kv' => p_Err response = OK /\ Num (kv_currentConfig kv') = 2).
Proof.
  eapply wp_mono; [apply (configuration_steps_by_one (fun _ => ret tt) (mkConfig 2 (replicate 10 7) ∅) kv);
    intros c k; apply wp_ret; reflexivity|].
  intros response kv' [(_ & He & Hc & _)|(Hn & _)]; [by rewrite Hc|]. exfalso. apply Hn. reflexivity.
Defined.

Lemma clerk_asks_each_server_once_witness :
  try_group (fun _ s _ => if decide (s = "b"%string) then Some (mkCommandResponse OK "x") else None)
    3 0 (mkCommandRequest "k" "" OpGet 1 1) ["a"%string; "b"%string] 0 0 = Some (Some "x"%string, 2%nat).
Proof.
  etrans; [apply (clerk_asks_each_server_once _ 0 (mkCommandRequest "k" "" OpGet 1 1)
    ["a"%string; "b"%string] 0); cbn; lia|]. vm_compute. reflexivity.
Defined.

Definition kv_other : ShardKV :=
  mkShardKV 0 rf 8 (-1) false 0 DefaultConfig config (Some shards) (Some ∅) no_chans.

Lemma wrong_group_put_is_lost_witness :
  exists ck', ShardClerk_Put (fun _ _ r => match Command_check r kv_other with
      | Some (inl response, _) => Some response | _ => None end) (fun _ => config) 1 "k" "v"
      (mkShardClerk config ∅ 5 0) = Some (Some ""%string, ck') /\ sck_commandId ck' = 1.
Proof.
  apply (wrong_group_put_is_lost _ (fun _ => config) 0 (mkShardClerk config ∅ 5 0) "k" "v" 7 "s0" [] kv_other);
    try reflexivity.
Defined.

Lemma snapshot_resets_lastApplied_witness :
  wp (applier_message (O := list_order) (fun _ _ => panic) (fun _ => panic) (fun _ => false) (fun _ => panic)
        (fun _ => ret tt) (mkApplyMsg Command false None 0 0 true [] 1 5)) kv
    (fun _ kv' => kv_lastApplied kv' = 0).
Proof.
  apply (snapshot_resets_lastApplied (fun _ _ => panic) (fun _ => panic) (fun _ => false)
    (fun _ => panic) (fun _ => ret tt) [] 1 5 kv); [by intros k; apply wp_ret|apply rf_wf|cbn; lia].
Defined.
