(* ===== verification/MrCoordinator.v ===== *)
(** * mr/coordinator.go and mr/rpc.go: the MapReduce coordinator

    The coordinator hands out map tasks, then reduce tasks, and takes back a task
    whose worker has not reported within ten seconds. Its RPC handlers and the timer
    functions run under one lock and are steps of a transition system; workers may
    ask, report and be slow or dead in any way. [AssignedTime] is written and never
    read. *)
From S2P Require Import Prelude.

(** [m_timer] says that [timeoutTimer] has been set. *)
Record MapperTask := mkMapperTask {
  m_Index : Z;
  m_Assigned : bool;
  m_IsFinished : bool;
  m_Inputfile : string;
  m_ReducerCount : Z;
  m_timer : bool
}.

Record ReducerTask := mkReducerTask {
  r_Index : Z;
  r_Assigned : bool;
  r_IsFinished : bool;
  r_MapperCount : Z;
  r_timer : bool
}.

Record Coordinator := mkCoordinator {
  MapperFinished : bool;
  ReducerFinished : bool;
  Mappers : list MapperTask;
  Reducers : list ReducerTask
}.

Record FetchTaskResponse := mkFetchTaskResponse {
  f_AllFinished : bool;
  f_MapperTask : option MapperTask;
  f_ReducerTask : option ReducerTask
}.

Record UpdateTaskRequest := mkUpdateTaskRequest {
  u_MapperTask : option MapperTask;
  u_ReducerTask : option ReducerTask
}.

Definition set_Mappers (v : list MapperTask) (c : Coordinator) : Coordinator :=
  mkCoordinator (MapperFinished c) (ReducerFinished c) v (Reducers c).
Definition set_Reducers (v : list ReducerTask) (c : Coordinator) : Coordinator :=
  mkCoordinator (MapperFinished c) (ReducerFinished c) (Mappers c) v.
Definition set_MapperFinished (v : bool) (c : Coordinator) : Coordinator :=
  mkCoordinator v (ReducerFinished c) (Mappers c) (Reducers c).
Definition set_ReducerFinished (v : bool) (c : Coordinator) : Coordinator :=
  mkCoordinator (MapperFinished c) v (Mappers c) (Reducers c).

Definition makeMapTask (mapper : MapperTask) : MapperTask :=
  mkMapperTask (m_Index mapper) true (m_IsFinished mapper) (m_Inputfile mapper) (m_ReducerCount mapper) true.
Definition makeReduceTask (reducer : ReducerTask) : ReducerTask :=
  mkReducerTask (r_Index reducer) true (r_IsFinished reducer) (r_MapperCount reducer) true.

(** [timeoutTimer.Stop()] on a nil timer panics. *)
Definition finishMapper (mapper : MapperTask) : option MapperTask :=
  if m_timer mapper then
    Some (mkMapperTask (m_Index mapper) (m_Assigned mapper) true (m_Inputfile mapper)
            (m_ReducerCount mapper) true)
  else None.
Definition finishReducer (reducer : ReducerTask) : option ReducerTask :=
  if r_timer reducer then
    Some (mkReducerTask (r_Index reducer) (r_Assigned reducer) true (r_MapperCount reducer) true)
  else None.

(** The search for a free task: the first one is started, in place. *)
Fixpoint assignMapper (mappers : list MapperTask) : option (MapperTask * list MapperTask) :=
  match mappers with
  | [] => None
  | mapper :: rest =>
      if m_Assigned mapper || m_IsFinished mapper then
        match assignMapper rest with Some (t, rest') => Some (t, mapper :: rest') | None => None end
      else Some (makeMapTask mapper, makeMapTask mapper :: rest)
  end.
Fixpoint assignReducer (reducers : list ReducerTask) : option (ReducerTask * list ReducerTask) :=
  match reducers with
  | [] => None
  | reducer :: rest =>
      if r_Assigned reducer || r_IsFinished reducer then
        match assignReducer rest with Some (t, rest') => Some (t, reducer :: rest') | None => None end
      else Some (makeReduceTask reducer, makeReduceTask reducer :: rest)
  end.

Definition FetchTask : M Coordinator FetchTaskResponse :=
  let! c := get in
  if negb (MapperFinished c) then
    match assignMapper (Mappers c) with
    | Some (task, mappers) =>
        do! modify (set_Mappers mappers);
        ret (mkFetchTaskResponse false (Some task) None)
    | None => ret (mkFetchTaskResponse false None None)
    end
  else if negb (ReducerFinished c) then
    match assignReducer (Reducers c) with
    | Some (task, reducers) =>
        do! modify (set_Reducers reducers);
        ret (mkFetchTaskResponse false None (Some task))
    | None => ret (mkFetchTaskResponse false None None)
    end
  else ret (mkFetchTaskResponse true None None).

(** The timer functions. *)
Definition mapperTimeoutFun (index : Z) : M Coordinator unit :=
  let! c := get in
  let! mapper := lift (slice_get (Mappers c) index) in
  if negb (m_IsFinished mapper) then
    let! mappers := lift (slice_set (Mappers c) index
      (mkMapperTask (m_Index mapper) false (m_IsFinished mapper) (m_Inputfile mapper)
         (m_ReducerCount mapper) (m_timer mapper))) in
    modify (set_Mappers mappers)
  else ret tt.
Definition reducerTimeoutFun (index : Z) : M Coordinator unit :=
  let! c := get in
  let! reducer := lift (slice_get (Reducers c) index) in
  if negb (r_IsFinished reducer) then
    let! reducers := lift (slice_set (Reducers c) index
      (mkReducerTask (r_Index reducer) false (r_IsFinished reducer) (r_MapperCount reducer)
         (r_timer reducer))) in
    modify (set_Reducers reducers)
  else ret tt.

(** The loops of [UpdateTask]: the tasks afterwards and whether all are finished. *)
Fixpoint updateMappers (index : Z) (finished : bool) (mappers : list MapperTask)
  : option (list MapperTask * bool) :=
  match mappers with
  | [] => Some ([], finished)
  | mapper :: rest =>
      let updated := if bool_decide (m_Index mapper = index) && m_Assigned mapper &&
                        negb (m_IsFinished mapper)
                     then finishMapper mapper else Some mapper in
      match updated with
      | None => None
      | Some mapper =>
          match updateMappers index (finished && m_IsFinished mapper) rest with
          | Some (rest, finished) => Some (mapper :: rest, finished)
          | None => None
          end
      end
  end.
Fixpoint updateReducers (index : Z) (finished : bool) (reducers : list ReducerTask)
  : option (list ReducerTask * bool) :=
  match reducers with
  | [] => Some ([], finished)
  | reducer :: rest =>
      let updated := if bool_decide (r_Index reducer = index) && r_Assigned reducer &&
                        negb (r_IsFinished reducer)
                     then finishReducer reducer else Some reducer in
      match updated with
      | None => None
      | Some reducer =>
          match updateReducers index (finished && r_IsFinished reducer) rest with
          | Some (rest, finished) => Some (reducer :: rest, finished)
          | None => None
          end
      end
  end.

Definition UpdateTask (req : UpdateTaskRequest) : M Coordinator unit :=
  do! (match u_MapperTask req with
       | Some task =>
           let! c := get in
           let! updated := lift (updateMappers (m_Index task) true (Mappers c)) in
           do! modify (set_Mappers (fst updated));
           modify (set_MapperFinished (snd updated))
       | None => ret tt
       end);
  match u_ReducerTask req with
  | Some task =>
      let! c := get in
      let! updated := lift (updateReducers (r_Index task) true (Reducers c)) in
      do! modify (set_Reducers (fst updated));
      modify (set_ReducerFinished (snd updated))
  | None => ret tt
  end.

Definition Done (c : Coordinator) : bool := MapperFinished c && ReducerFinished c.

Definition MakeCoordinator (files : list string) (nReduce : nat) : Coordinator :=
  mkCoordinator false false
    (imap (fun i file => mkMapperTask (Z.of_nat i) false false file (Z.of_nat nReduce) false) files)
    ((fun i => mkReducerTask (Z.of_nat i) false false (len files) false) <$> seq 0 nReduce).

(** ** Steps *)

Inductive MrEvent :=
  | MrFetch
  | MrUpdate (req : UpdateTaskRequest)
  | MrMapTimeout (index : Z)
  | MrReduceTimeout (index : Z).

Definition mr_run (ev : MrEvent) (c : Coordinator) : option Coordinator :=
  match ev with
  | MrFetch => snd <$> FetchTask c
  | MrUpdate req => snd <$> UpdateTask req c
  | MrMapTimeout index => snd <$> mapperTimeoutFun index c
  | MrReduceTimeout index => snd <$> reducerTimeoutFun index c
  end.

(** Timers exist only for tasks; a worker may report anything at any time. *)
Definition mr_ok (ev : MrEvent) (c : Coordinator) : Prop :=
  match ev with
  | MrMapTimeout index => 0 <= index < len (Mappers c)
  | MrReduceTimeout index => 0 <= index < len (Reducers c)
  | MrUpdate _ | MrFetch => True
  end.
