(* ===== verification/MrProps.v ===== *)
(** * Properties of the MapReduce coordinator

    Safety under any behaviour of the workers: reduce tasks are handed out only when
    every map task has been reported, a finished task stays finished, and the job is
    done only when every task is. Progress: while the job is not done, a round of one
    worker finishes one more task. *)
From S2P Require Import Prelude MrCoordinator.

(** ** The loops over the tasks *)

Definition m_busy (m : MapperTask) : bool := m_Assigned m || m_IsFinished m.
Definition r_busy (r : ReducerTask) : bool := r_Assigned r || r_IsFinished r.

(** The first free task is started; [None] when there is none. *)
Lemma assignMapper_spec l :
  match assignMapper l with
  | Some (t, l') => exists i m, l !! i = Some m /\ m_busy m = false /\ t = makeMapTask m /\
      l' = <[i := t]> l /\ forall j m', (j < i)%nat -> l !! j = Some m' -> m_busy m' = true
  | None => Forall (fun m => m_busy m = true) l
  end.
Proof.
  induction l as [|m l IH]; simpl; [constructor|]. fold (m_busy m). destruct (m_busy m) eqn:Hb.
  - destruct (assignMapper l) as [[t l']|]; [|by constructor].
    destruct IH as (i & m' & Hi & Hf & Ht & -> & Hlt). exists (S i), m'. split_and!; try done.
    intros [|j] m'' Hj Hm; [by simplify_eq/=|]. eapply Hlt; [|exact Hm]. lia.
  - exists 0%nat, m. split_and!; try done. lia.
Qed.

Lemma assignReducer_spec l :
  match assignReducer l with
  | Some (t, l') => exists i r, l !! i = Some r /\ r_busy r = false /\ t = makeReduceTask r /\
      l' = <[i := t]> l /\ forall j r', (j < i)%nat -> l !! j = Some r' -> r_busy r' = true
  | None => Forall (fun r => r_busy r = true) l
  end.
Proof.
  induction l as [|r l IH]; simpl; [constructor|]. fold (r_busy r). destruct (r_busy r) eqn:Hb.
  - destruct (assignReducer l) as [[t l']|]; [|by constructor].
    destruct IH as (i & r' & Hi & Hf & Ht & -> & Hlt). exists (S i), r'. split_and!; try done.
    intros [|j] r'' Hj Hr; [by simplify_eq/=|]. eapply Hlt; [|exact Hr]. lia.
  - exists 0%nat, r. split_and!; try done. lia.
Qed.

(** A reported task is finished if it is out. *)
Definition reported_m (index : Z) (m : MapperTask) : MapperTask :=
  if bool_decide (m_Index m = index) && m_Assigned m && negb (m_IsFinished m)
  then mkMapperTask (m_Index m) (m_Assigned m) true (m_Inputfile m) (m_ReducerCount m) true else m.
Definition reported_r (index : Z) (r : ReducerTask) : ReducerTask :=
  if bool_decide (r_Index r = index) && r_Assigned r && negb (r_IsFinished r)
  then mkReducerTask (r_Index r) (r_Assigned r) true (r_MapperCount r) true else r.

Lemma updateMappers_run index b l : Forall (fun m => m_Assigned m = true -> m_timer m = true) l ->
  updateMappers index b l =
    Some (reported_m index <$> l, b && forallb m_IsFinished (reported_m index <$> l)).
Proof.
  intros Hall. revert b. induction Hall as [|m l Hm _ IH]; intros b; simpl; [by rewrite andb_true_r|].
  unfold reported_m at 1 3. unfold finishMapper. destruct (_ && negb _) eqn:Hc.
  - apply andb_true_iff in Hc as [[_ Ha]%andb_true_iff _]. rewrite (Hm Ha). cbn. rewrite IH.
    by rewrite andb_true_r.
  - rewrite IH. by rewrite andb_assoc.
Qed.

Lemma updateReducers_run index b l : Forall (fun r => r_Assigned r = true -> r_timer r = true) l ->
  updateReducers index b l =
    Some (reported_r index <$> l, b && forallb r_IsFinished (reported_r index <$> l)).
Proof.
  intros Hall. revert b. induction Hall as [|r l Hr _ IH]; intros b; simpl; [by rewrite andb_true_r|].
  unfold reported_r at 1 3. unfold finishReducer. destruct (_ && negb _) eqn:Hc.
  - apply andb_true_iff in Hc as [[_ Ha]%andb_true_iff _]. rewrite (Hr Ha). cbn. rewrite IH.
    by rewrite andb_true_r.
  - rewrite IH. by rewrite andb_assoc.
Qed.

(** ** The invariant *)

Definition wf_mapper (i : nat) (m : MapperTask) : Prop :=
  m_Index m = Z.of_nat i /\ (m_Assigned m = true -> m_timer m = true).
Definition wf_reducer (i : nat) (r : ReducerTask) : Prop :=
  r_Index r = Z.of_nat i /\ (r_Assigned r = true -> r_timer r = true).

Record mr_wf (c : Coordinator) : Prop := {
  mw_m i m : Mappers c !! i = Some m -> wf_mapper i m;
  mw_r i r : Reducers c !! i = Some r -> wf_reducer i r;
  mw_mdone : MapperFinished c = true -> Forall (fun m => m_IsFinished m = true) (Mappers c);
  mw_rdone : ReducerFinished c = true -> Forall (fun r => r_IsFinished r = true) (Reducers c);
  mw_order r : r ∈ Reducers c -> r_busy r = true -> MapperFinished c = true
}.

(** Tasks keep their input and what is finished stays finished. *)
Definition m_mono (m m' : MapperTask) : Prop :=
  m_Index m' = m_Index m /\ m_Inputfile m' = m_Inputfile m /\ m_ReducerCount m' = m_ReducerCount m /\
  (m_IsFinished m = true -> m_IsFinished m' = true).
Definition r_mono (r r' : ReducerTask) : Prop :=
  r_Index r' = r_Index r /\ r_MapperCount r' = r_MapperCount r /\
  (r_IsFinished r = true -> r_IsFinished r' = true).
Definition mr_mono (c c' : Coordinator) : Prop :=
  Forall2 m_mono (Mappers c) (Mappers c') /\ Forall2 r_mono (Reducers c) (Reducers c') /\
  (MapperFinished c = true -> MapperFinished c' = true).

Lemma Forall2_diag {A} (R : A -> A -> Prop) l : (forall x, R x x) -> Forall2 R l l.
Proof. intros HR. induction l; by constructor. Qed.

Lemma Forall2_update {A} (R : A -> A -> Prop) l i x y :
  (forall x, R x x) -> l !! i = Some x -> R x y -> Forall2 R l (<[i := y]> l).
Proof.
  intros HR. revert i. induction l as [|a l IH]; intros [|i] Hi Hxy; simplify_eq/=.
  - constructor; [done|by apply Forall2_diag].
  - constructor; auto.
Qed.

Lemma Forall2_fmap_diag {A} (R : A -> A -> Prop) (f : A -> A) l :
  (forall x, R x (f x)) -> Forall2 R l (f <$> l).
Proof. intros HR. induction l; by constructor. Qed.

Lemma m_mono_refl m : m_mono m m.
Proof. by split_and!. Qed.
Lemma r_mono_refl r : r_mono r r.
Proof. by split_and!. Qed.
Lemma mr_mono_refl c : mr_mono c c.
Proof. split_and!; [apply Forall2_diag, m_mono_refl|apply Forall2_diag, r_mono_refl|done]. Qed.

(** What is finished in one state is finished in a later one. *)
Lemma m_mono_finished l l' : Forall2 m_mono l l' ->
  Forall (fun m => m_IsFinished m = true) l -> Forall (fun m => m_IsFinished m = true) l'.
Proof.
  induction 1 as [|m m' l l' (_ & _ & _ & Hm) _ IH]; intros Hf; [constructor|].
  apply Forall_cons in Hf as [? ?]. constructor; auto.
Qed.
Lemma r_mono_finished l l' : Forall2 r_mono l l' ->
  Forall (fun r => r_IsFinished r = true) l -> Forall (fun r => r_IsFinished r = true) l'.
Proof.
  induction 1 as [|r r' l l' (_ & _ & Hr) _ IH]; intros Hf; [constructor|].
  apply Forall_cons in Hf as [? ?]. constructor; auto.
Qed.

(** ** Every step keeps the invariant *)

(** A change of map tasks only. *)
Lemma mr_wf_mappers c mappers :
  mr_wf c -> (forall i m, mappers !! i = Some m -> wf_mapper i m) -> Forall2 m_mono (Mappers c) mappers ->
  mr_wf (set_Mappers mappers c) /\ mr_mono c (set_Mappers mappers c).
Proof.
  intros [] Hm Hmono. split; [split; cbn; try done|].
  - intros Hf. eapply m_mono_finished; eauto.
  - split_and!; [done|apply Forall2_diag, r_mono_refl|done].
Qed.

(** A change of reduce tasks, when the map phase is over or no task is started. *)
Lemma mr_wf_reducers c reducers :
  mr_wf c -> (forall i r, reducers !! i = Some r -> wf_reducer i r) ->
  Forall2 r_mono (Reducers c) reducers ->
  (MapperFinished c = true \/ forall r, r ∈ reducers -> r_busy r = true -> exists r', r' ∈ Reducers c /\ r_busy r' = true) ->
  mr_wf (set_Reducers reducers c) /\ mr_mono c (set_Reducers reducers c).
Proof.
  intros [] Hr Hmono Hord. split; [split; cbn; try done|].
  - intros Hf. eapply r_mono_finished; eauto.
  - intros r Hin Hb. destruct Hord as [?|Hord]; [done|].
    destruct (Hord r Hin Hb) as (r' & ? & ?). eauto.
  - split_and!; [apply Forall2_diag, m_mono_refl|done|done].
Qed.

Lemma wf_mapper_insert c i m m' : mr_wf c -> Mappers c !! i = Some m -> wf_mapper i m' ->
  forall j x, <[i := m']> (Mappers c) !! j = Some x -> wf_mapper j x.
Proof.
  intros Hwf Hi Hm' j x [(<- & <- & _)|[_ Hj]]%list_lookup_insert_Some; [done|by apply (mw_m _ Hwf)].
Qed.
Lemma wf_reducer_insert c i r r' : mr_wf c -> Reducers c !! i = Some r -> wf_reducer i r' ->
  forall j x, <[i := r']> (Reducers c) !! j = Some x -> wf_reducer j x.
Proof.
  intros Hwf Hi Hr' j x [(<- & <- & _)|[_ Hj]]%list_lookup_insert_Some; [done|by apply (mw_r _ Hwf)].
Qed.

Lemma FetchTask_good c : mr_wf c ->
  wp FetchTask c (fun resp c' => mr_wf c' /\ mr_mono c c' /\
    (forall t, f_MapperTask resp = Some t -> MapperFinished c = false /\
       exists i m, Mappers c !! i = Some m /\ m_busy m = false /\ t = makeMapTask m /\
         c' = set_Mappers (<[i := t]> (Mappers c)) c) /\
    (forall t, f_ReducerTask resp = Some t -> MapperFinished c = true /\
       exists i r, Reducers c !! i = Some r /\ r_busy r = false /\ t = makeReduceTask r /\
         c' = set_Reducers (<[i := t]> (Reducers c)) c) /\
    (f_AllFinished resp = true <-> Done c = true)).
Proof.
  intros Hwf. unfold FetchTask, Done. go. destruct (MapperFinished c) eqn:Hmf; cbn [negb].
  - destruct (ReducerFinished c) eqn:Hrf; cbn [negb].
    + go. split_and!; try done. apply mr_mono_refl.
    + pose proof (assignReducer_spec (Reducers c)) as Ha.
      destruct (assignReducer (Reducers c)) as [[t rs]|]; go.
      2:{ split_and!; try done. apply mr_mono_refl. }
      destruct Ha as (i & r & Hi & Hb & -> & -> & _).
      destruct (mr_wf_reducers c (<[i := makeReduceTask r]> (Reducers c))) as [H1 H2]; try done.
      * eapply wf_reducer_insert; [done|done|]. destruct (mw_r _ Hwf i r Hi) as [? _]. by split.
      * eapply Forall2_update; [apply r_mono_refl|done|by split_and!].
      * by left.
      * split_and!; try done. intros t [= <-]. split; [done|]. by exists i, r.
  - pose proof (assignMapper_spec (Mappers c)) as Ha.
    destruct (assignMapper (Mappers c)) as [[t ms]|]; go.
    2:{ split_and!; try done. apply mr_mono_refl. }
    destruct Ha as (i & m & Hi & Hb & -> & -> & _).
    destruct (mr_wf_mappers c (<[i := makeMapTask m]> (Mappers c))) as [H1 H2]; try done.
    + eapply wf_mapper_insert; [done|done|]. destruct (mw_m _ Hwf i m Hi) as [? _]. by split.
    + eapply Forall2_update; [apply m_mono_refl|done|by split_and!].
    + split_and!; try done. intros t [= <-]. split; [done|]. by exists i, m.
Qed.

Lemma mapperTimeout_good index c : mr_wf c -> 0 <= index < len (Mappers c) ->
  wp (mapperTimeoutFun index) c (fun _ c' => mr_wf c' /\ mr_mono c c').
Proof.
  intros Hwf Hi. unfold mapperTimeoutFun. go.
  destruct (slice_get_is_Some (Mappers c) index Hi) as [m Hm]. rewrite Hm. go.
  destruct (m_IsFinished m) eqn:Hf; cbn [negb]; go; [split; [done|apply mr_mono_refl]|].
  rewrite slice_set_Some by done. go. apply slice_get_Some in Hm as [_ Hm].
  destruct (mw_m _ Hwf _ _ Hm) as [Hx _]. apply mr_wf_mappers; [done| |].
  - eapply wf_mapper_insert; [done|done|by split].
  - eapply Forall2_update; [apply m_mono_refl|done|]. split_and!; [done|done|done|]. cbn. congruence.
Qed.

Lemma reducerTimeout_good index c : mr_wf c -> 0 <= index < len (Reducers c) ->
  wp (reducerTimeoutFun index) c (fun _ c' => mr_wf c' /\ mr_mono c c').
Proof.
  intros Hwf Hi. unfold reducerTimeoutFun. go.
  destruct (slice_get_is_Some (Reducers c) index Hi) as [r Hr]. rewrite Hr. go.
  destruct (r_IsFinished r) eqn:Hf; cbn [negb]; go; [split; [done|apply mr_mono_refl]|].
  rewrite slice_set_Some by done. go. apply slice_get_Some in Hr as [_ Hr].
  destruct (mw_r _ Hwf _ _ Hr) as [Hx _]. apply mr_wf_reducers; [done| | |].
  - eapply wf_reducer_insert; [done|done|by split].
  - eapply Forall2_update; [apply r_mono_refl|done|]. split_and!; [done|done|]. cbn. congruence.
  - right. intros r' [j Hj]%list_elem_of_lookup_1 Hb.
    apply list_lookup_insert_Some in Hj as [(_ & <- & _)|[_ Hj]].
    + by unfold r_busy in Hb.
    + exists r'. by apply list_elem_of_lookup_2 in Hj.
Qed.

Lemma reported_m_mono index m : m_mono m (reported_m index m).
Proof. unfold reported_m. destruct (_ && negb _); by split_and!. Qed.
Lemma reported_r_mono index r : r_mono r (reported_r index r).
Proof. unfold reported_r. destruct (_ && negb _); by split_and!. Qed.

(** The first half of [UpdateTask]. *)
Lemma update_mappers_good index c : mr_wf c ->
  exists ms b, updateMappers index true (Mappers c) = Some (ms, b) /\
    ms = reported_m index <$> Mappers c /\ b = forallb m_IsFinished ms /\
    mr_wf (set_MapperFinished b (set_Mappers ms c)) /\
    mr_mono c (set_MapperFinished b (set_Mappers ms c)).
Proof.
  intros Hwf. eexists _, _. split; [apply updateMappers_run|].
  { apply Forall_lookup. intros i m Hm. by apply (mw_m _ Hwf i). }
  split; [done|]. split; [done|].
  assert (Hmono : Forall2 m_mono (Mappers c) (reported_m index <$> Mappers c))
    by apply Forall2_fmap_diag, reported_m_mono.
  destruct (mr_wf_mappers c (reported_m index <$> Mappers c) Hwf) as [H1 H2].
  { intros i m Hm. rewrite list_lookup_fmap in Hm. destruct (Mappers c !! i) as [m0|] eqn:E; [|done].
    cbn in Hm. injection Hm as <-. destruct (mw_m _ Hwf i m0 E) as [Hx Ht]. unfold reported_m.
    destruct (_ && negb _); by split. }
  { done. }
  assert (Hkeep : MapperFinished c = true -> forallb m_IsFinished (reported_m index <$> Mappers c) = true).
  { intros Hf. apply forallb_Forall. by apply (m_mono_finished _ _ Hmono), Hwf. }
  split.
  - destruct H1. split; cbn in *; try done.
    + intros Hb. by apply forallb_Forall.
    + intros r Hr Hb. apply Hkeep. eauto.
  - destruct H2 as (? & ? & _). split_and!; [done|done|]. cbn. exact Hkeep.
Qed.

Lemma update_reducers_good index c : mr_wf c ->
  exists rs b, updateReducers index true (Reducers c) = Some (rs, b) /\
    rs = reported_r index <$> Reducers c /\ b = forallb r_IsFinished rs /\
    mr_wf (set_ReducerFinished b (set_Reducers rs c)) /\
    mr_mono c (set_ReducerFinished b (set_Reducers rs c)).
Proof.
  intros Hwf. eexists _, _. split; [apply updateReducers_run|].
  { apply Forall_lookup. intros i r Hr. by apply (mw_r _ Hwf i). }
  split; [done|]. split; [done|].
  assert (Hmono : Forall2 r_mono (Reducers c) (reported_r index <$> Reducers c))
    by apply Forall2_fmap_diag, reported_r_mono.
  destruct (mr_wf_reducers c (reported_r index <$> Reducers c)) as [H1 H2]; [done| |done| |].
  { intros i r Hr. rewrite list_lookup_fmap in Hr. destruct (Reducers c !! i) as [r0|] eqn:E; [|done].
    cbn in Hr. injection Hr as <-. destruct (mw_r _ Hwf i r0 E) as [Hx Ht]. unfold reported_r.
    destruct (_ && negb _); by split. }
  { right. intros r (r0 & -> & Hr0)%list_elem_of_fmap Hb. exists r0. split; [done|].
    unfold reported_r, r_busy in *. destruct (_ && negb _) eqn:Hc; [|done].
    by apply andb_true_iff in Hc as [[_ ->]%andb_true_iff _]. }
  split.
  - destruct H1. split; cbn in *; try done. intros Hb. by apply forallb_Forall.
  - destruct H2 as (? & ? & ?). by split_and!.
Qed.

Lemma mr_mono_trans c1 c2 c3 : mr_mono c1 c2 -> mr_mono c2 c3 -> mr_mono c1 c3.
Proof.
  assert (Hm : forall l1 l2, Forall2 m_mono l1 l2 -> forall l3, Forall2 m_mono l2 l3 -> Forall2 m_mono l1 l3).
  { induction 1 as [|x y l1 l2 Hxy _ IH]; intros l3 H3; inversion H3 as [|? z ? l Hyz Hl]; subst; constructor; auto.
    unfold m_mono in *. intuition congruence. }
  assert (Hr : forall l1 l2, Forall2 r_mono l1 l2 -> forall l3, Forall2 r_mono l2 l3 -> Forall2 r_mono l1 l3).
  { induction 1 as [|x y l1 l2 Hxy _ IH]; intros l3 H3; inversion H3 as [|? z ? l Hyz Hl]; subst; constructor; auto.
    unfold r_mono in *. intuition congruence. }
  intros (? & ? & ?) (? & ? & ?). split_and!; [by eapply Hm|by eapply Hr|auto].
Qed.

Lemma UpdateTask_good req c : mr_wf c ->
  wp (UpdateTask req) c (fun _ c' => mr_wf c' /\ mr_mono c c').
Proof.
  intros Hwf. unfold UpdateTask. go.
  eapply (wp_mono _ _ (fun _ c1 => mr_wf c1 /\ mr_mono c c1)).
  - destruct (u_MapperTask req) as [t|]; go; [|split; [done|apply mr_mono_refl]].
    destruct (update_mappers_good (m_Index t) c Hwf) as (ms & b & -> & _ & _ & H1 & H2). by go.
  - intros [] c1 [Hwf1 Hm1]. destruct (u_ReducerTask req) as [t|]; go; [|done].
    destruct (update_reducers_good (r_Index t) c1 Hwf1) as (rs & b & -> & _ & _ & H1 & H2). go.
    split; [done|]. by eapply mr_mono_trans.
Qed.

Lemma mr_run_good ev c : mr_wf c -> mr_ok ev c ->
  exists c', mr_run ev c = Some c' /\ mr_wf c' /\ mr_mono c c'.
Proof.
  intros Hwf Hok.
  assert (Hlift : forall A (m : M Coordinator A), wp m c (fun _ c' => mr_wf c' /\ mr_mono c c') ->
    exists c', (snd <$> m c) = Some c' /\ mr_wf c' /\ mr_mono c c').
  { intros A m (a & c' & -> & H1 & H2)%wp_runs. by exists c'. }
  destruct ev; apply Hlift.
  - eapply wp_mono; [by apply FetchTask_good|]. intros r c' (? & ? & _). done.
  - by apply UpdateTask_good.
  - by apply mapperTimeout_good.
  - by apply reducerTimeout_good.
Qed.

(** ** Executions *)
Inductive mr_steps : Coordinator -> Coordinator -> Prop :=
  | mr_refl c : mr_steps c c
  | mr_event c ev c' c'' : mr_ok ev c -> mr_run ev c = Some c' -> mr_steps c' c'' -> mr_steps c c''.

Lemma MakeCoordinator_wf files n : mr_wf (MakeCoordinator files n).
Proof.
  split; cbn; try done.
  - intros i m Hm. rewrite list_lookup_imap in Hm. destruct (files !! i); [|done]. by injection Hm as <-.
  - intros i r Hr. rewrite list_lookup_fmap in Hr. destruct (seq 0 n !! i) as [k|] eqn:E; [|done].
    apply lookup_seq in E as [-> _]. by injection Hr as <-.
  - intros r (k & -> & _)%list_elem_of_fmap. done.
Qed.

Lemma mr_steps_good c c' : mr_steps c c' -> mr_wf c -> mr_wf c' /\ mr_mono c c'.
Proof.
  induction 1 as [c|c ev c' c'' Hok Hrun _ IH]; intros Hwf; [split; [done|apply mr_mono_refl]|].
  destruct (mr_run_good ev c Hwf Hok) as (c1 & Hr & Hwf1 & Hm1). rewrite Hrun in Hr. injection Hr as <-.
  destruct (IH Hwf1) as [Hwf2 Hm2]. split; [done|]. by eapply mr_mono_trans.
Qed.

(** ** A worker that serves tasks one after the other *)

Definition serve : M Coordinator unit :=
  let! resp := FetchTask in
  match f_MapperTask resp, f_ReducerTask resp with
  | Some t, _ => UpdateTask (mkUpdateTaskRequest (Some t) None)
  | None, Some t => UpdateTask (mkUpdateTaskRequest None (Some t))
  | None, None => ret tt
  end.

Definition left_m (l : list MapperTask) : nat := length (filter (fun m => m_IsFinished m = false) l).
Definition left_r (l : list ReducerTask) : nat := length (filter (fun r => r_IsFinished r = false) l).

(** No task is out, and the two flags say what they should. *)
Record idle (c : Coordinator) : Prop := {
  id_wf : mr_wf c;
  id_m m : m ∈ Mappers c -> m_Assigned m = true -> m_IsFinished m = true;
  id_r r : r ∈ Reducers c -> r_Assigned r = true -> r_IsFinished r = true;
  id_mf : MapperFinished c = forallb m_IsFinished (Mappers c);
  id_rf : ReducerFinished c = forallb r_IsFinished (Reducers c)
}.

Lemma left_m_0 l : left_m l = 0%nat <-> forallb m_IsFinished l = true.
Proof.
  unfold left_m. rewrite forallb_Forall, length_zero_iff_nil. induction l as [|m l IH]; [by split|].
  rewrite filter_cons, Forall_cons. destruct (decide _) as [E|E]; [rewrite E; naive_solver|].
  rewrite IH. destruct (m_IsFinished m); naive_solver.
Qed.
Lemma left_r_0 l : left_r l = 0%nat <-> forallb r_IsFinished l = true.
Proof.
  unfold left_r. rewrite forallb_Forall, length_zero_iff_nil. induction l as [|r l IH]; [by split|].
  rewrite filter_cons, Forall_cons. destruct (decide _) as [E|E]; [rewrite E; naive_solver|].
  rewrite IH. destruct (r_IsFinished r); naive_solver.
Qed.

Definition done_m (m : MapperTask) : MapperTask :=
  mkMapperTask (m_Index m) true true (m_Inputfile m) (m_ReducerCount m) true.
Definition done_r (r : ReducerTask) : ReducerTask :=
  mkReducerTask (r_Index r) true true (r_MapperCount r) true.

(** Reporting the task just started finishes that one. *)
Lemma reported_started_m (l : list MapperTask) (i : nat) (m : MapperTask) :
  (forall j x, l !! j = Some x -> wf_mapper j x) -> l !! i = Some m -> m_busy m = false ->
  reported_m (m_Index m) <$> <[i := makeMapTask m]> l = <[i := done_m m]> l.
Proof.
  intros Hwf Hi Hb. destruct (Hwf i m Hi) as [Hx _]. apply orb_false_iff in Hb as [Ha Hf].
  rewrite list_fmap_insert. f_equal.
  - unfold reported_m, makeMapTask, done_m. cbn. rewrite Hf. by rewrite bool_decide_eq_true_2.
  - rewrite <-(list_fmap_id l) at 2. apply list_fmap_ext. intros j x Hj. cbn. unfold reported_m.
    destruct (Hwf j x Hj) as [Hjx _]. destruct (decide (j = i)) as [->|Hne].
    + rewrite Hi in Hj. injection Hj as <-. by rewrite Ha, andb_false_r.
    + by rewrite bool_decide_eq_false_2 by lia.
Qed.
Lemma reported_started_r (l : list ReducerTask) (i : nat) (r : ReducerTask) :
  (forall j x, l !! j = Some x -> wf_reducer j x) -> l !! i = Some r -> r_busy r = false ->
  reported_r (r_Index r) <$> <[i := makeReduceTask r]> l = <[i := done_r r]> l.
Proof.
  intros Hwf Hi Hb. destruct (Hwf i r Hi) as [Hx _]. apply orb_false_iff in Hb as [Ha Hf].
  rewrite list_fmap_insert. f_equal.
  - unfold reported_r, makeReduceTask, done_r. cbn. rewrite Hf. by rewrite bool_decide_eq_true_2.
  - rewrite <-(list_fmap_id l) at 2. apply list_fmap_ext. intros j x Hj. cbn. unfold reported_r.
    destruct (Hwf j x Hj) as [Hjx _]. destruct (decide (j = i)) as [->|Hne].
    + rewrite Hi in Hj. injection Hj as <-. by rewrite Ha, andb_false_r.
    + by rewrite bool_decide_eq_false_2 by lia.
Qed.

Lemma left_m_done (l : list MapperTask) (i : nat) (m : MapperTask) : l !! i = Some m -> m_IsFinished m = false ->
  left_m l = S (left_m (<[i := done_m m]> l)).
Proof.
  intros Hi Hf. unfold left_m.
  pose proof (filter_insert_length (fun m => m_IsFinished m = false) l i m (done_m m) Hi) as E.
  rewrite decide_True, decide_False in E by done. lia.
Qed.
Lemma left_r_done (l : list ReducerTask) (i : nat) (r : ReducerTask) : l !! i = Some r -> r_IsFinished r = false ->
  left_r l = S (left_r (<[i := done_r r]> l)).
Proof.
  intros Hi Hf. unfold left_r.
  pose proof (filter_insert_length (fun r => r_IsFinished r = false) l i r (done_r r) Hi) as E.
  rewrite decide_True, decide_False in E by done. lia.
Qed.

Lemma elem_of_insert_cases {A} (l : list A) (i : nat) (x y : A) : y ∈ <[i := x]> l -> y = x \/ y ∈ l.
Proof.
  intros [j Hj]%list_elem_of_lookup_1. apply list_lookup_insert_Some in Hj as [(_ & <- & _)|[_ Hj]].
  - by left.
  - right. by apply list_elem_of_lookup_2 in Hj.
Qed.

(** One round finishes one task. *)
Lemma serve_progress c : idle c -> Done c = false ->
  wp serve c (fun _ c' => idle c' /\
    (left_m (Mappers c) + left_r (Reducers c) = S (left_m (Mappers c') + left_r (Reducers c')))%nat).
Proof.
  intros [Hwf Him Hir Hmf Hrf] Hnd. unfold serve, FetchTask. go.
  destruct (MapperFinished c) eqn:Hm; cbn [negb].
  - unfold Done in Hnd. rewrite Hm in Hnd. cbn in Hnd. rewrite Hnd. cbn [negb].
    pose proof (assignReducer_spec (Reducers c)) as Ha.
    destruct (assignReducer (Reducers c)) as [[t rs]|].
    2:{ exfalso. enough (forallb r_IsFinished (Reducers c) = true) by congruence.
        apply forallb_Forall, Forall_forall. intros r Hr. rewrite Forall_forall in Ha.
        specialize (Ha r Hr). apply orb_true_iff in Ha as [?|?]; auto. }
    destruct Ha as (i & r & Hi & Hb & -> & -> & _). go. cbn [f_MapperTask f_ReducerTask].
    pose proof Hb as Hb'. apply orb_false_iff in Hb' as [Hra Hrf0].
    destruct (mr_wf_reducers c (<[i := makeReduceTask r]> (Reducers c))) as [Hwf1 _]; try done.
    { eapply wf_reducer_insert; [done|done|]. destruct (mw_r _ Hwf i r Hi) as [? _]. by split. }
    { eapply Forall2_update; [apply r_mono_refl|done|by split_and!]. }
    { by left. }
    unfold UpdateTask. cbn [u_MapperTask u_ReducerTask]. go.
    destruct (update_reducers_good (r_Index (makeReduceTask r)) _ Hwf1)
      as (rs & b & Hrun & Ers & Eb & Hwf2 & _). rewrite Hrun. go.
    change (r_Index (makeReduceTask r)) with (r_Index r) in Ers. cbn [Reducers set_Reducers] in Ers. rewrite reported_started_r in Ers by (done || exact (mw_r _ Hwf)). subst rs.
    split.
    + split; [exact Hwf2| | | |]; cbn [fst snd]; cbn.
      * exact Him.
      * intros r' [->|Hr']%elem_of_insert_cases; [done|]. by apply Hir.
      * congruence.
      * exact Eb.
    + rewrite (left_r_done _ i r) by done. unfold left_m, left_r. cbn. lia.
  - pose proof (assignMapper_spec (Mappers c)) as Ha.
    destruct (assignMapper (Mappers c)) as [[t ms]|].
    2:{ exfalso. enough (forallb m_IsFinished (Mappers c) = true) by congruence.
        apply forallb_Forall, Forall_forall. intros m Hm'. rewrite Forall_forall in Ha.
        specialize (Ha m Hm'). apply orb_true_iff in Ha as [?|?]; auto. }
    destruct Ha as (i & m & Hi & Hb & -> & -> & _). go. cbn [f_MapperTask f_ReducerTask].
    pose proof Hb as Hb'. apply orb_false_iff in Hb' as [Hma Hmf0].
    destruct (mr_wf_mappers c (<[i := makeMapTask m]> (Mappers c))) as [Hwf1 _]; try done.
    { eapply wf_mapper_insert; [done|done|]. destruct (mw_m _ Hwf i m Hi) as [? _]. by split. }
    { eapply Forall2_update; [apply m_mono_refl|done|by split_and!]. }
    unfold UpdateTask. cbn [u_MapperTask u_ReducerTask]. go.
    destruct (update_mappers_good (m_Index (makeMapTask m)) _ Hwf1)
      as (ms & b & Hrun & Ems & Eb & Hwf2 & _). rewrite Hrun. go.
    change (m_Index (makeMapTask m)) with (m_Index m) in Ems. cbn [Mappers set_Mappers] in Ems. rewrite reported_started_m in Ems by (done || exact (mw_m _ Hwf)). subst ms.
    split.
    + split; [exact Hwf2| | | |]; cbn [fst snd]; cbn.
      * intros m' [->|Hm']%elem_of_insert_cases; [done|]. by apply Him.
      * exact Hir.
      * exact Eb.
      * done.
    + rewrite (left_m_done _ i m) by done. unfold left_m, left_r. cbn. lia.
Qed.

(** A round in which the timer fires before the report: the report is ignored, and nothing
    is finished or out. *)
Definition serve_late : M Coordinator unit :=
  let! resp := FetchTask in
  match f_MapperTask resp, f_ReducerTask resp with
  | Some t, _ => do! mapperTimeoutFun (m_Index t); UpdateTask (mkUpdateTaskRequest (Some t) None)
  | None, Some t => do! reducerTimeoutFun (r_Index t); UpdateTask (mkUpdateTaskRequest None (Some t))
  | None, None => ret tt
  end.

Definition late_m (m : MapperTask) : MapperTask :=
  mkMapperTask (m_Index m) false (m_IsFinished m) (m_Inputfile m) (m_ReducerCount m) true.
Definition late_r (r : ReducerTask) : ReducerTask :=
  mkReducerTask (r_Index r) false (r_IsFinished r) (r_MapperCount r) true.

Lemma late_report_m (l : list MapperTask) (i : nat) (m : MapperTask) :
  (forall j x, l !! j = Some x -> wf_mapper j x) -> l !! i = Some m ->
  reported_m (m_Index m) <$> <[i := late_m m]> l = <[i := late_m m]> l.
Proof.
  intros Hwf Hi. destruct (Hwf i m Hi) as [Hx _]. rewrite <-(list_fmap_id (<[i := late_m m]> l)) at 2.
  apply list_fmap_ext. intros j x Hj. cbn. unfold reported_m.
  apply list_lookup_insert_Some in Hj as [(<-&<-&_)|[Hne Hj]]; [cbn; by rewrite andb_false_r|].
  destruct (Hwf j x Hj) as [Hjx _]. by rewrite bool_decide_eq_false_2 by lia.
Qed.
Lemma late_report_r (l : list ReducerTask) (i : nat) (r : ReducerTask) :
  (forall j x, l !! j = Some x -> wf_reducer j x) -> l !! i = Some r ->
  reported_r (r_Index r) <$> <[i := late_r r]> l = <[i := late_r r]> l.
Proof.
  intros Hwf Hi. destruct (Hwf i r Hi) as [Hx _]. rewrite <-(list_fmap_id (<[i := late_r r]> l)) at 2.
  apply list_fmap_ext. intros j x Hj. cbn. unfold reported_r.
  apply list_lookup_insert_Some in Hj as [(<-&<-&_)|[Hne Hj]]; [cbn; by rewrite andb_false_r|].
  destruct (Hwf j x Hj) as [Hjx _]. by rewrite bool_decide_eq_false_2 by lia.
Qed.

Lemma left_m_late (l : list MapperTask) (i : nat) (m : MapperTask) : l !! i = Some m ->
  left_m (<[i := late_m m]> l) = left_m l.
Proof.
  intros Hi. unfold left_m. pose proof (filter_insert_length (fun m => m_IsFinished m = false) l i m (late_m m) Hi) as E.
  cbn in E. repeat case_decide; congruence || lia.
Qed.
Lemma left_r_late (l : list ReducerTask) (i : nat) (r : ReducerTask) : l !! i = Some r ->
  left_r (<[i := late_r r]> l) = left_r l.
Proof.
  intros Hi. unfold left_r. pose proof (filter_insert_length (fun r => r_IsFinished r = false) l i r (late_r r) Hi) as E.
  cbn in E. repeat case_decide; congruence || lia.
Qed.

Definition same_left (c c' : Coordinator) : Prop :=
  left_m (Mappers c') = left_m (Mappers c) /\ left_r (Reducers c') = left_r (Reducers c).

Lemma late_map_round c i m : idle c -> Mappers c !! i = Some m -> m_busy m = false ->
  wp (do! mapperTimeoutFun (m_Index m); UpdateTask (mkUpdateTaskRequest (Some (makeMapTask m)) None))
    (set_Mappers (<[i := makeMapTask m]> (Mappers c)) c) (fun _ c' => idle c' /\ same_left c c').
Proof.
  intros [Hwf Him Hir Hmf Hrf] Hi Hb. apply orb_false_iff in Hb as [Ha Hf]. destruct (mw_m _ Hwf i m Hi) as [Hx _].
  pose proof (lookup_lt_Some _ _ _ Hi) as Hlt. unfold mapperTimeoutFun. go. cbn [Mappers set_Mappers].
  rewrite Hx. rewrite (proj2 (slice_get_Some _ (Z.of_nat i) (makeMapTask m))).
  2:{ split; [lia|]. rewrite Nat2Z.id. by apply list_lookup_insert_eq. }
  go. cbn [makeMapTask m_IsFinished]. rewrite Hf. cbn [negb]. rewrite slice_set_Some by (rewrite length_insert; lia). go.
  rewrite Nat2Z.id, list_insert_insert_eq. cbn [m_Index m_Inputfile m_ReducerCount m_timer makeMapTask].
  assert (late_m m = mkMapperTask (m_Index m) false false (m_Inputfile m) (m_ReducerCount m) true) as Hlate
    by (unfold late_m; by rewrite Hf).
  rewrite <-Hlate.
  destruct (mr_wf_mappers c (<[i := late_m m]> (Mappers c))) as [Hwf1 _]; try done.
  { eapply wf_mapper_insert; [done|done|by split]. }
  { eapply Forall2_update; [apply m_mono_refl|done|by split_and!]. }
  unfold UpdateTask. cbn [u_MapperTask u_ReducerTask m_Index]. go.
  destruct (update_mappers_good (m_Index m) _ Hwf1) as (ms & b & Hrun & Ems & Eb & Hwf2 & _).
  change (set_Mappers (<[i := late_m m]> (Mappers c)) (set_Mappers _ c)) with (set_Mappers (<[i := late_m m]> (Mappers c)) c).
  change (m_Index (makeMapTask m)) with (m_Index m). rewrite Hrun. go. cbn [Mappers set_Mappers] in Ems. rewrite late_report_m in Ems by (done || exact (mw_m _ Hwf)). subst ms.
  split; [split; [exact Hwf2| | | |]; cbn [fst snd]; cbn; try done|].
  - intros m' [->|Hm']%elem_of_insert_cases; [done|]. by apply Him.
  - split; [|done]. cbn. by apply left_m_late.
Qed.
Lemma late_reduce_round c i r : idle c -> Reducers c !! i = Some r -> r_busy r = false ->
  wp (do! reducerTimeoutFun (r_Index r); UpdateTask (mkUpdateTaskRequest None (Some (makeReduceTask r))))
    (set_Reducers (<[i := makeReduceTask r]> (Reducers c)) c) (fun _ c' => idle c' /\ same_left c c').
Proof.
  intros [Hwf Him Hir Hmf Hrf] Hi Hb. apply orb_false_iff in Hb as [Ha Hf]. destruct (mw_r _ Hwf i r Hi) as [Hx _].
  pose proof (lookup_lt_Some _ _ _ Hi) as Hlt. unfold reducerTimeoutFun. go. cbn [Reducers set_Reducers].
  rewrite Hx. rewrite (proj2 (slice_get_Some _ (Z.of_nat i) (makeReduceTask r))).
  2:{ split; [lia|]. rewrite Nat2Z.id. by apply list_lookup_insert_eq. }
  go. cbn [makeReduceTask r_IsFinished]. rewrite Hf. cbn [negb]. rewrite slice_set_Some by (rewrite length_insert; lia). go.
  rewrite Nat2Z.id, list_insert_insert_eq. cbn [r_Index r_MapperCount r_timer makeReduceTask].
  assert (late_r r = mkReducerTask (r_Index r) false false (r_MapperCount r) true) as Hlate
    by (unfold late_r; by rewrite Hf).
  rewrite <-Hlate.
  destruct (mr_wf_reducers c (<[i := late_r r]> (Reducers c))) as [Hwf1 _]; try done.
  { eapply wf_reducer_insert; [done|done|by split]. }
  { eapply Forall2_update; [apply r_mono_refl|done|by split_and!]. }
  { right. intros r' [->|Hr']%elem_of_insert_cases Hb'; [exfalso; cbn in Hb'; unfold r_busy in Hb'; cbn in Hb'; congruence|by exists r']. }
  unfold UpdateTask. cbn [u_MapperTask u_ReducerTask r_Index]. go.
  destruct (update_reducers_good (r_Index r) _ Hwf1) as (rs & b & Hrun & Ers & Eb & Hwf2 & _).
  change (set_Reducers (<[i := late_r r]> (Reducers c)) (set_Reducers _ c)) with (set_Reducers (<[i := late_r r]> (Reducers c)) c).
  change (r_Index (makeReduceTask r)) with (r_Index r). rewrite Hrun. go. cbn [Reducers set_Reducers] in Ers. rewrite late_report_r in Ers by (done || exact (mw_r _ Hwf)). subst rs.
  split; [split; [exact Hwf2| | | |]; cbn [fst snd]; cbn; try done|].
  - intros r' [->|Hr']%elem_of_insert_cases; [done|]. by apply Hir.
  - split; [done|]. cbn. by apply left_r_late.
Qed.

Lemma serve_late_idle c : idle c -> wp serve_late c (fun _ c' => idle c' /\ same_left c c').
Proof.
  intros Hid. unfold serve_late, FetchTask. go. destruct (MapperFinished c) eqn:Hm; cbn [negb].
  - destruct (ReducerFinished c); cbn [negb]; [by go|]. pose proof (assignReducer_spec (Reducers c)) as Ha.
    destruct (assignReducer (Reducers c)) as [[t rs]|]; go; [|done]. cbn [f_MapperTask f_ReducerTask].
    destruct Ha as (i & r & Hi & Hb & -> & -> & _). by apply (late_reduce_round c i r).
  - pose proof (assignMapper_spec (Mappers c)) as Ha.
    destruct (assignMapper (Mappers c)) as [[t ms]|]; go; [|done]. cbn [f_MapperTask f_ReducerTask].
    destruct Ha as (i & m & Hi & Hb & -> & -> & _). by apply (late_map_round c i m).
Qed.

Lemma filter_all_length {A} (P : A -> Prop) `{!forall x, Decision (P x)} l :
  Forall P l -> length (filter P l) = length l.
Proof. induction 1; [done|]. rewrite filter_cons_True by done. simpl. congruence. Qed.

Lemma init_idle names n : names <> [] -> (0 < n)%nat -> idle (MakeCoordinator names n).
Proof.
  intros Hf Hn. split; cbn; [apply MakeCoordinator_wf| | | |].
  - intros m [i Hi]%list_elem_of_lookup_1. rewrite list_lookup_imap in Hi.
    destruct (names !! i); [|done]. by injection Hi as <-.
  - intros r (k & -> & _)%list_elem_of_fmap. done.
  - by destruct names.
  - destruct n; [lia|done].
Qed.
Lemma init_left names n :
  (left_m (Mappers (MakeCoordinator names n)) + left_r (Reducers (MakeCoordinator names n)) =
   length names + n)%nat.
Proof.
  cbn. unfold left_m, left_r. rewrite !filter_all_length.
  - by rewrite length_imap, length_fmap, length_seq.
  - apply Forall_forall. intros r (k & -> & _)%list_elem_of_fmap. done.
  - apply Forall_forall. intros m [i Hi]%list_elem_of_lookup_1. rewrite list_lookup_imap in Hi.
    destruct (names !! i); [|done]. by injection Hi as <-.
Qed.

(** Reduce after map. In any execution, whatever the workers do and however often
    tasks time out, a reduce task is handed out only when every map task is finished,
    a map task only while one is unfinished, and the workers are told that all is
    finished only when the job is done, every task included. *)
Theorem mr_reduce_after_map files nReduce c resp c' :
  mr_steps (MakeCoordinator files nReduce) c -> FetchTask c = Some (resp, c') ->
  (is_Some (f_ReducerTask resp) -> Forall (fun m => m_IsFinished m = true) (Mappers c)) /\
  (f_AllFinished resp = true -> Forall (fun m => m_IsFinished m = true) (Mappers c) /\
     Forall (fun r => r_IsFinished r = true) (Reducers c)) /\
  (forall t, f_MapperTask resp = Some t -> exists m, m ∈ Mappers c /\ m_IsFinished m = false /\
     m_Assigned m = false /\ m_Inputfile t = m_Inputfile m /\ m_Index t = m_Index m).
Proof.
  intros Hs Hf. destruct (mr_steps_good _ _ Hs (MakeCoordinator_wf _ _)) as [Hwf _].
  pose proof (FetchTask_good c Hwf) as Hg. eapply wp_run in Hg; [|exact Hf].
  destruct Hg as (_ & _ & Hm & Hr & Hall). split_and!.
  - intros [t Ht]. destruct (Hr t Ht) as [Hmf _]. by apply Hwf.
  - intros Ha. apply Hall in Ha. apply andb_true_iff in Ha as [? ?]. split; by apply Hwf.
  - intros t Ht. destruct (Hm t Ht) as (_ & i & m & Hi & Hb & -> & _). exists m.
    apply orb_false_iff in Hb as [? ?]. split_and!; try done. by apply list_elem_of_lookup_2 in Hi.
Qed.

(** No handler of the coordinator panics, in any execution; tasks keep their
    inputs, finished tasks stay finished and the map phase, once over, stays over. *)
Theorem mr_safe files nReduce c ev :
  mr_steps (MakeCoordinator files nReduce) c -> mr_ok ev c ->
  exists c', mr_run ev c = Some c' /\ mr_mono c c'.
Proof.
  intros Hs Hok. destruct (mr_steps_good _ _ Hs (MakeCoordinator_wf _ _)) as [Hwf _].
  destruct (mr_run_good ev c Hwf Hok) as (c' & Hr & _ & Hm). by exists c'.
Qed.

(** Without input files the job never starts. The map phase is declared over only
    by a report of a map task, of which there is none, so the coordinator never hands
    out anything and never finishes. *)
Theorem mr_no_files_hangs nReduce c :
  rtc (fun c c' => exists ev, mr_ok ev c /\ (forall req, ev = MrUpdate req -> u_MapperTask req = None) /\
         mr_run ev c = Some c') (MakeCoordinator [] nReduce) c ->
  Done c = false /\ (fst <$> FetchTask c) = Some (mkFetchTaskResponse false None None).
Proof.
  intros Hr. assert (Hmf : MapperFinished c = false /\ Mappers c = []).
  { remember (MakeCoordinator [] nReduce) as c0 eqn:E0.
    assert (H0 : MapperFinished c0 = false /\ Mappers c0 = []) by (by subst). clear E0.
    induction Hr as [c|c1 c2 c3 (ev & Hok & Hu & Hrun) _ IH]; [done|]. apply IH. clear IH.
    destruct H0 as [Hm Hl]. destruct ev as [|req|i|i]; cbn in Hrun.
    - unfold FetchTask, bind, get in Hrun. rewrite Hm, Hl in Hrun. cbn in Hrun. by injection Hrun as <-.
    - specialize (Hu req eq_refl). unfold UpdateTask, bind, ret, get, lift, modify in Hrun.
      rewrite Hu in Hrun. destruct (u_ReducerTask req) as [t|]; [|by injection Hrun as <-].
      destruct (updateReducers _ _ _); [|done]. cbn in Hrun. by injection Hrun as <-.
    - cbn in Hok. rewrite Hl in Hok. simpl in Hok. lia.
    - unfold reducerTimeoutFun, bind, get, lift in Hrun.
      destruct (slice_get (Reducers c1) i) as [r|]; [|done]. destruct (negb _).
      + destruct (slice_set _ _ _); [|done]. cbn in Hrun. by injection Hrun as <-.
      + cbn in Hrun. by injection Hrun as <-. }
  destruct Hmf as [Hm Hl]. split; [unfold Done; by rewrite Hm|].
  unfold FetchTask, bind, get. rewrite Hm, Hl. done.
Qed.

(** ** Witnesses *)

Lemma mr_reduce_after_map_witness :
  exists resp c', FetchTask (MakeCoordinator ["a"; "b"] 1) = Some (resp, c') /\
    (is_Some (f_ReducerTask resp) ->
       Forall (fun m => m_IsFinished m = true) (Mappers (MakeCoordinator ["a"; "b"] 1))).
Proof.
  eexists _, _. split; [reflexivity|].
  exact (proj1 (mr_reduce_after_map ["a"; "b"] 1 _ _ _ (mr_refl _) eq_refl)).
Defined.

Lemma mr_safe_witness :
  exists c', mr_run (MrMapTimeout 1) (MakeCoordinator ["a"; "b"] 1) = Some c' /\
    mr_mono (MakeCoordinator ["a"; "b"] 1) c'.
Proof. apply (mr_safe ["a"; "b"] 1); [apply mr_refl|cbn; lia]. Defined.

Lemma mr_no_files_hangs_witness : exists c,
  mr_run MrFetch (MakeCoordinator [] 2) = Some c /\ Done c = false.
Proof.
  exists (MakeCoordinator [] 2). split; [reflexivity|].
  apply (mr_no_files_hangs 2). apply rtc_refl.
Defined.
