(* ===== verification/MapReduce.v ===== *)
(** * mr/worker.go and main/mrsequential.go: the MapReduce worker

    The data path of the worker: a map task reads its input file, runs the
    application's map function, splits the pairs by [ihash] and writes one
    intermediate file per reduce task; a reduce task reads its intermediate files,
    sorts the pairs, runs the reduce function on every group of equal keys and
    writes one output file. [mrsequential_main] is the sequential program with the
    same purpose.

    The file system is a map from names to contents; a missing input is the
    [log.Fatalf] that ends the process and is [None]. [encoding/json] is an interface
    ([Json]) with what the worker relies on, as is [sort.Sort] ([SortByKey]): it sorts,
    and leaves the order of equal keys open. *)
From stdpp Require Import pretty.
From Stdlib Require Import Ascii.
From S2P Require Import Prelude MrCoordinator.

Record KeyValue := mkKeyValue { Key : string; Value : string }.
#[export] Instance KeyValue_eq_dec : EqDecision KeyValue.
Proof. solve_decision. Defined.

(** ** ihash: 32-bit FNV-1a without its sign bit *)

Definition byte_Z (c : ascii) : Z := Z.of_N (N_of_ascii c).

(** [hash/fnv]: [hash ^= byte; hash *= prime32], in [uint32]. *)
Fixpoint fnv32a (hash : Z) (data : string) : Z :=
  match data with
  | EmptyString => hash
  | String c data => fnv32a ((Z.lxor hash (byte_Z c) * 16777619) mod 2 ^ 32) data
  end.
Definition ihash (key : string) : Z := Z.land (fnv32a 2166136261 key) 0x7fffffff.

(** ** The interfaces to the standard library *)

(** A JSON encoder on a stream: what [Encode] writes, [Decode] reads back, for the
    pairs of valid strings. *)
Class Json := {
  json_Encode : KeyValue -> string;
  json_Decode : string -> option (KeyValue * string);
  json_valid : KeyValue -> Prop
}.
Class JsonLaws `{Json} := {
  json_roundtrip : forall kv rest, json_valid kv ->
    json_Decode (json_Encode kv +:+ rest) = Some (kv, rest);
  json_eof : json_Decode "" = None;
  json_consumes : forall s kv rest, json_Decode s = Some (kv, rest) ->
    (String.length rest < String.length s)%nat
}.

(** [a[i].Key < a[j].Key] is the order of bytes. *)
Definition key_le (a b : KeyValue) : Prop := String.le (Key a) (Key b).
#[export] Instance key_le_dec : RelDecision key_le.
Proof. intros a b. unfold key_le. apply _. Defined.

Class SortByKey := sort_ByKey : list KeyValue -> list KeyValue.
Class SortByKeyLaws `{SortByKey} := {
  sort_ByKey_perm : forall kvs, Permutation (sort_ByKey kvs) kvs;
  sort_ByKey_sorted : forall kvs, StronglySorted key_le (sort_ByKey kvs)
}.

(** ** Files *)

Abbreviation Files := (gmap string string).

Definition os_ReadAll (name : string) : M Files string :=
  let! fs := get in lift (fs !! name).
Definition os_Create (name content : string) : M Files unit := modify (insert name content).
Definition os_Rename (old new : string) : M Files unit :=
  modify (fun fs => match fs !! old with Some c => <[new := c]> (delete old fs) | None => fs end).

Definition intermediate_name (i j : Z) : string := "mr-" +:+ pretty i +:+ "-" +:+ pretty j.
Definition output_name (i : Z) : string := "mr-out-" +:+ pretty i.

Section worker.
Context `{Json, SortByKey}.
Variables (mapf : string -> string -> list KeyValue) (reducef : string -> list string -> string).

(** ** Map tasks *)

(** The loop that adds every pair to the bucket of its key. *)
Fixpoint shuffle (ReducerCount : Z) (kva : list KeyValue) (reducerKvArr : list (list KeyValue))
  : option (list (list KeyValue)) :=
  match kva with
  | [] => Some reducerKvArr
  | kv :: kva =>
      if decide (ReducerCount = 0) then None
      else
        let reduceNum := Z.rem (ihash (Key kv)) ReducerCount in
        match slice_get reducerKvArr reduceNum with
        | None => None
        | Some kvs =>
            match slice_set reducerKvArr reduceNum (kvs ++ [kv]) with
            | None => None
            | Some reducerKvArr => shuffle ReducerCount kva reducerKvArr
            end
        end
  end.

(** Up to the loop that writes the files. *)
Definition doMapperTask_map (mapper : MapperTask) : M Files (list (list KeyValue)) :=
  let! content := os_ReadAll (m_Inputfile mapper) in
  let kva := mapf (m_Inputfile mapper) content in
  if decide (m_ReducerCount mapper < 0) then panic
  else lift (shuffle (m_ReducerCount mapper) kva (replicate (Z.to_nat (m_ReducerCount mapper)) [])).

(** One round of that loop. *)
Definition encode_all (kvs : list KeyValue) : string :=
  foldr (fun kv s => json_Encode kv +:+ s) "" kvs.
Definition doMapperTask_write (mapper : MapperTask) (i : Z) (kvs : list KeyValue) : M Files unit :=
  let kvs := sort_ByKey kvs in
  let filename := intermediate_name (m_Index mapper) i in
  do! os_Create (filename +:+ ".tmp") (encode_all kvs);
  os_Rename (filename +:+ ".tmp") filename.

Definition doMapperTask (mapper : MapperTask) : M Files unit :=
  let! reducerKvArr := doMapperTask_map mapper in
  forM (imap (fun i kvs => (Z.of_nat i, kvs)) reducerKvArr) (fun '(i, kvs) => doMapperTask_write mapper i kvs).

(** ** Reduce tasks *)

(** The decoding loop, until the first error; each round consumes input, so the length
    of the stream bounds the rounds. *)
Fixpoint decode_loop (fuel : nat) (dec : string) (kvs : list KeyValue) : list KeyValue :=
  match fuel with
  | O => kvs
  | S fuel =>
      match json_Decode dec with
      | None => kvs
      | Some (kv, dec) => decode_loop fuel dec (kvs ++ [kv])
      end
  end.
Definition decode_all (content : string) (kvs : list KeyValue) : list KeyValue :=
  decode_loop (S (String.length content)) content kvs.

Fixpoint read_intermediate (index : Z) (todo : list nat) (kvs : list KeyValue) : M Files (list KeyValue) :=
  match todo with
  | [] => ret kvs
  | i :: todo =>
      let! content := os_ReadAll (intermediate_name (Z.of_nat i) index) in
      read_intermediate index todo (decode_all content kvs)
  end.

(** [for j < len(kvs) && kvs[j].Key == kvs[i].Key { j++ }] *)
Fixpoint group_end (fuel : nat) (kvs : list KeyValue) (i j : nat) : nat :=
  match fuel with
  | O => j
  | S fuel =>
      match kvs !! j, kvs !! i with
      | Some kj, Some ki => if decide (Key kj = Key ki) then group_end fuel kvs i (S j) else j
      | _, _ => j
      end
  end.

Definition reduce_line (key output : string) : string := key +:+ " " +:+ output +:+ String "010"%char "".

(** [for i < len(kvs) { ... i = j }]; [out] is what has been printed. *)
Fixpoint reduce_loop (fuel : nat) (kvs : list KeyValue) (i : nat) (out : string) : string :=
  match fuel with
  | O => out
  | S fuel =>
      match kvs !! i with
      | None => out
      | Some ki =>
          let j := group_end (length kvs) kvs i (S i) in
          let values := Value <$> take (j - i) (drop i kvs) in
          let output := reducef (Key ki) values in
          reduce_loop fuel kvs j (out +:+ reduce_line (Key ki) output)
      end
  end.

Definition doReducerTask (reducer : ReducerTask) : M Files unit :=
  let! kvs := read_intermediate (r_Index reducer) (seq 0 (Z.to_nat (r_MapperCount reducer))) [] in
  let kvs := sort_ByKey kvs in
  let ofileName := output_name (r_Index reducer) in
  do! os_Create (ofileName +:+ ".tmp") (reduce_loop (length kvs) kvs 0 "");
  os_Rename (ofileName +:+ ".tmp") ofileName.

(** ** The sequential program *)

Fixpoint sequential_map (files : list string) (intermediate : list KeyValue) : M Files (list KeyValue) :=
  match files with
  | [] => ret intermediate
  | filename :: files =>
      let! content := os_ReadAll filename in
      sequential_map files (intermediate ++ mapf filename content)
  end.

Definition mrsequential_main (files : list string) : M Files unit :=
  let! intermediate := sequential_map files [] in
  let intermediate := sort_ByKey intermediate in
  os_Create "mr-out-0" (reduce_loop (length intermediate) intermediate 0 "").

(** ** The worker's loop: fetch a task, do it, report it *)

Definition on_coordinator {A} (m : M Coordinator A) : M (Coordinator * Files) A :=
  fun '(c, fs) => match m c with Some (a, c) => Some (a, (c, fs)) | None => None end.
Definition on_files {A} (m : M Files A) : M (Coordinator * Files) A :=
  fun '(c, fs) => match m fs with Some (a, fs) => Some (a, (c, fs)) | None => None end.

Definition CallFetchTask : M (Coordinator * Files) FetchTaskResponse := on_coordinator FetchTask.
Definition CallUpdateTaskForMapper (mapper : MapperTask) : M (Coordinator * Files) unit :=
  on_coordinator (UpdateTask (mkUpdateTaskRequest (Some mapper) None)).
Definition CallUpdateTaskForReducer (reducer : ReducerTask) : M (Coordinator * Files) unit :=
  on_coordinator (UpdateTask (mkUpdateTaskRequest None (Some reducer))).

(** Rounds of the loop, one per element of [rounds]: [true] if the coordinator's timer for
    the task of the round, 10 s after the task was handed out, fires before the worker
    reports the task, [false] if the worker reports in time (which stops the timer). The
    result is [true] when the worker has returned within these rounds. *)
Fixpoint Worker (rounds : list bool) : M (Coordinator * Files) bool :=
  match rounds with
  | [] => ret false
  | late :: rounds =>
      let! resp := CallFetchTask in
      if f_AllFinished resp then ret true
      else
        do! (match f_MapperTask resp with
             | Some mapper =>
                 do! on_files (doMapperTask mapper);
                 do! (if (late : bool) then on_coordinator (mapperTimeoutFun (m_Index mapper)) else ret tt);
                 CallUpdateTaskForMapper mapper
             | None => ret tt
             end);
        do! (match f_ReducerTask resp with
             | Some reducer =>
                 do! on_files (doReducerTask reducer);
                 do! (if late then on_coordinator (reducerTimeoutFun (r_Index reducer)) else ret tt);
                 CallUpdateTaskForReducer reducer
             | None => ret tt
             end);
        Worker rounds
  end.
End worker.
