(* ===== verification/MapReduceData.v ===== *)
(** * The data path of MapReduce

    What the loops of the worker compute: the buckets of a map task, the pairs read
    back from an intermediate file, and the lines of a reduce task, against reference
    definitions ([values_of], [lines]) that mention neither buckets nor sorting. *)
From stdpp Require Import sorting.
From S2P Require Import Prelude MrCoordinator MapReduce.

Lemma string_app_assoc (s1 s2 s3 : string) : (s1 +:+ s2) +:+ s3 = s1 +:+ s2 +:+ s3.
Proof. induction s1 as [|c s1 IH]; [done|]. exact (f_equal (String c) IH). Qed.
Lemma string_app_nil (s : string) : s +:+ "" = s.
Proof. induction s as [|c s IH]; [done|]. exact (f_equal (String c) IH). Qed.
Lemma string_length_app s t : String.length (s +:+ t) = (String.length s + String.length t)%nat.
Proof. induction s as [|c s IH]; [done|]. exact (f_equal S IH). Qed.

Definition concat_string (l : list string) : string := foldr String.append "" l.

Lemma concat_string_app l1 l2 : concat_string (l1 ++ l2) = concat_string l1 +:+ concat_string l2.
Proof.
  unfold concat_string. induction l1 as [|s l1 IH]; [done|]. cbn [foldr app]. by rewrite IH, string_app_assoc.
Qed.

(** ** Buckets *)

Lemma ihash_bounds key : 0 <= ihash key < 2 ^ 31.
Proof.
  unfold ihash. change 0x7fffffff with (Z.ones 31). rewrite Z.land_ones by lia.
  apply Z.mod_pos_bound. lia.
Qed.

(** The reduce task of a key, of [n]. *)
Definition bucket (n : nat) (kv : KeyValue) : nat := Z.to_nat (ihash (Key kv) `mod` Z.of_nat n).

Lemma bucket_lt n kv : (0 < n)%nat -> (bucket n kv < n)%nat.
Proof.
  intros Hn. unfold bucket.
  pose proof (Z.mod_pos_bound (ihash (Key kv)) (Z.of_nat n) ltac:(lia)). lia.
Qed.

Definition in_bucket (n j : nat) (kvs : list KeyValue) : list KeyValue :=
  filter (fun kv => bucket n kv = j) kvs.

Lemma shuffle_run n kva arr : (0 < n)%nat -> length arr = n ->
  shuffle (Z.of_nat n) kva arr = Some (imap (fun j kvs => kvs ++ in_bucket n j kva) arr).
Proof.
  intros Hn. revert arr. induction kva as [|kv kva IH]; intros arr Hlen; simpl.
  - f_equal. apply list_eq. intros j. rewrite list_lookup_imap. destruct (arr !! j); [|done].
    cbn. by rewrite app_nil_r.
  - rewrite decide_False by lia. pose proof (ihash_bounds (Key kv)) as Hb.
    assert (Hq : Z.rem (ihash (Key kv)) (Z.of_nat n) = Z.of_nat (bucket n kv)).
    { unfold bucket. rewrite Z.rem_mod_nonneg by lia.
      pose proof (Z.mod_pos_bound (ihash (Key kv)) (Z.of_nat n) ltac:(lia)). lia. }
    pose proof (bucket_lt n kv Hn) as Hlt. rewrite Hq.
    destruct (slice_get_is_Some arr (Z.of_nat (bucket n kv)) ltac:(lia)) as [kvs Hk]. rewrite Hk.
    rewrite slice_set_Some by lia. rewrite Nat2Z.id. apply slice_get_Some in Hk as [_ Hk].
    rewrite Nat2Z.id in Hk. rewrite IH by (by rewrite length_insert). f_equal. apply list_eq. intros j.
    rewrite !list_lookup_imap. destruct (decide (j = bucket n kv)) as [->|Hne].
    + rewrite list_lookup_insert_eq by lia. rewrite Hk.
      change (Some ((kvs ++ [kv]) ++ in_bucket n (bucket n kv) kva) =
              Some (kvs ++ in_bucket n (bucket n kv) (kv :: kva))).
      unfold in_bucket. rewrite filter_cons_True by done. by rewrite <-app_assoc.
    + rewrite list_lookup_insert_ne by done. destruct (arr !! j) as [l|]; [|done].
      change (Some (l ++ in_bucket n j kva) = Some (l ++ in_bucket n j (kv :: kva))).
      unfold in_bucket. by rewrite filter_cons_False by done.
Qed.

Lemma shuffle_buckets n kva : (0 < n)%nat ->
  shuffle (Z.of_nat n) kva (replicate n []) = Some ((fun j => in_bucket n j kva) <$> seq 0 n).
Proof.
  intros Hn. rewrite shuffle_run by (done || apply length_replicate). f_equal. apply list_eq. intros j.
  rewrite list_lookup_imap, list_lookup_fmap. destruct (decide (j < n)%nat) as [Hj|Hj].
  - rewrite lookup_replicate_2, lookup_seq_lt by done. done.
  - rewrite !lookup_ge_None_2; [done| |]; rewrite ?length_seq, ?length_replicate; lia.
Qed.

(** ** Intermediate files *)
Section json.
Context `{JsonLaws}.

Lemma decode_encode_all kvs fuel acc : Forall json_valid kvs ->
  (length kvs < fuel)%nat -> decode_loop fuel (encode_all kvs) acc = acc ++ kvs.
Proof.
  intros Hv. revert fuel acc. induction Hv as [|kv kvs Hkv _ IH]; intros [|fuel] acc Hf; cbn in Hf; try lia.
  - cbn. by rewrite json_eof, app_nil_r.
  - cbn. rewrite json_roundtrip by done. rewrite IH by lia. by rewrite <-app_assoc.
Qed.

Lemma encode_all_length kvs : Forall json_valid kvs -> (length kvs <= String.length (encode_all kvs))%nat.
Proof.
  induction 1 as [|kv kvs Hkv _ IH]; [cbn; lia|]. cbn [encode_all foldr length].
  pose proof (json_consumes _ _ _ (json_roundtrip kv (encode_all kvs) Hkv)).
  unfold encode_all in *. lia.
Qed.

Lemma decode_all_encode kvs acc : Forall json_valid kvs -> decode_all (encode_all kvs) acc = acc ++ kvs.
Proof.
  intros Hv. apply decode_encode_all; [done|]. pose proof (encode_all_length kvs Hv). lia.
Qed.
End json.

(** ** Groups of equal keys *)

Definition values_of (k : string) (kvs : list KeyValue) : list string :=
  Value <$> filter (fun kv => Key kv = k) kvs.

Lemma values_of_perm k kvs kvs' : kvs ≡ₚ kvs' -> values_of k kvs ≡ₚ values_of k kvs'.
Proof. intros Hp. unfold values_of. by rewrite Hp. Qed.

(** The values of a key are in the bucket of the key. *)
Lemma values_of_bucket n j k kvs v :
  bucket n (mkKeyValue k v) = j -> values_of k (in_bucket n j kvs) = values_of k kvs.
Proof.
  intros Hj. unfold values_of, in_bucket. f_equal. rewrite list_filter_filter_l; [done|].
  intros kv Hkv. unfold bucket in *. by rewrite Hkv.
Qed.

Section reduce.
Variable reducef : string -> list string -> string.

(** What the output should be: one line per key, on all the values of the key. *)
Definition lines (kvs : list KeyValue) : list string :=
  (fun k => reduce_line k (reducef k (values_of k kvs))) <$> remove_dups (Key <$> kvs).

Fixpoint run_len (k : string) (kvs : list KeyValue) : nat :=
  match kvs with
  | kv :: kvs => if decide (Key kv = k) then S (run_len k kvs) else O
  | [] => O
  end.

Lemma group_end_run fuel kvs i j ki rest :
  kvs !! i = Some ki -> drop j kvs = rest -> (length rest <= fuel)%nat ->
  group_end fuel kvs i j = (j + run_len (Key ki) rest)%nat.
Proof.
  intros Hi. revert j rest. induction fuel as [|fuel IH]; intros j rest Hd Hf.
  - destruct rest; [|cbn in Hf; lia]. cbn. lia.
  - destruct rest as [|kv rest]; cbn.
    + rewrite lookup_ge_None_2; [lia|]. apply drop_ge_2 in Hd || idtac.
      assert (length (drop j kvs) = 0%nat) by (by rewrite Hd). rewrite length_drop in *. lia.
    + assert (Hj : kvs !! j = Some kv).
      { rewrite <-(Nat.add_0_r j), <-lookup_drop, Hd. done. }
      rewrite Hj, Hi. case_decide; [|lia]. cbn in Hf.
      rewrite (IH (S j) rest); [lia| |lia]. replace (S j) with (j + 1)%nat by lia. by rewrite <-drop_drop, Hd.
Qed.

(** In a sorted list the first run of a key holds all its pairs. *)
Lemma sorted_run kv kvs : StronglySorted key_le (kv :: kvs) ->
  Forall (fun x => Key x = Key kv) (take (run_len (Key kv) kvs) kvs) /\
  Forall (fun x => Key x <> Key kv) (drop (run_len (Key kv) kvs) kvs).
Proof.
  intros [Hs Hle]%StronglySorted_inv. induction kvs as [|x kvs IH]; [by split; constructor|].
  apply Forall_cons in Hle as [Hx Hle]. apply StronglySorted_inv in Hs as [Hs Hxle]. cbn.
  case_decide as E.
  - destruct (IH Hs Hle) as [H1 H2]. split; [|exact H2]. by constructor.
  - split; [constructor|]. constructor; [done|]. eapply Forall_impl; [exact Hxle|].
    intros y Hxy Hy. apply E. apply (anti_symm String.le); [|done]. by rewrite <-Hy.
Qed.

Lemma values_of_all k kvs : Forall (fun x => Key x = k) kvs -> values_of k kvs = Value <$> kvs.
Proof.
  intros Hall. unfold values_of. f_equal. induction Hall; [done|]. rewrite filter_cons_True by done. congruence.
Qed.
Lemma values_of_none k kvs : Forall (fun x => Key x <> k) kvs -> values_of k kvs = [].
Proof.
  intros Hall. unfold values_of. induction Hall; [done|]. by rewrite filter_cons_False by done.
Qed.
Lemma values_of_app k kvs kvs' : values_of k (kvs ++ kvs') = values_of k kvs ++ values_of k kvs'.
Proof. unfold values_of. by rewrite filter_app, fmap_app. Qed.

Lemma remove_dups_run k (run rest : list string) :
  Forall (eq k) run -> k ∉ rest -> remove_dups (k :: run ++ rest) = k :: remove_dups rest.
Proof.
  intros Hrun Hk. induction Hrun as [|x run <- _ IH]; cbn [app].
  - cbn [remove_dups]. by case_decide.
  - transitivity (remove_dups (k :: run ++ rest)); [|exact IH].
    set (l := k :: run ++ rest). cbn [remove_dups]. case_decide; [done|]. set_solver.
Qed.

Lemma lines_run kv kvs : StronglySorted key_le (kv :: kvs) ->
  let run := take (run_len (Key kv) kvs) kvs in
  let rest := drop (run_len (Key kv) kvs) kvs in
  lines (kv :: kvs) =
    reduce_line (Key kv) (reducef (Key kv) (Value <$> kv :: run)) :: lines rest.
Proof.
  intros Hs run rest. destruct (sorted_run kv kvs Hs) as [Hrun Hrest]. fold run rest in Hrun, Hrest.
  assert (E : kv :: kvs = (kv :: run) ++ rest) by (unfold run, rest; cbn; by rewrite take_drop).
  rewrite E. unfold lines at 1. rewrite fmap_app, fmap_cons. cbn [app]. rewrite remove_dups_run.
  - rewrite fmap_cons. change (kv :: run ++ rest) with ((kv :: run) ++ rest). f_equal.
    + rewrite values_of_app, (values_of_none _ rest), app_nil_r, values_of_all; [done| |done]. by constructor.
    + apply list_fmap_ext. intros i k Hk. f_equal. f_equal. rewrite values_of_app.
      rewrite (values_of_none _ (kv :: run)); [done|].
      apply list_elem_of_lookup_2, elem_of_remove_dups, list_elem_of_fmap in Hk as (x & -> & Hx).
      rewrite Forall_forall in Hrest. specialize (Hrest x Hx).
      constructor; [congruence|]. eapply Forall_impl; [exact Hrun|]. intros y ->. congruence.
  - apply Forall_fmap. eapply Forall_impl; [exact Hrun|]. by intros x Hx.
  - rewrite list_elem_of_fmap. intros (x & Hx & Hin). rewrite Forall_forall in Hrest. by apply (Hrest x Hin).
Qed.

Lemma StronglySorted_drop {A} (R : A -> A -> Prop) n l : StronglySorted R l -> StronglySorted R (drop n l).
Proof.
  revert n. induction l as [|x l IH]; intros [|n] Hs; try done. apply StronglySorted_inv in Hs as [Hs _].
  by apply IH.
Qed.

(** The index loop prints the reference lines of a sorted list. *)
Lemma reduce_loop_run fuel kvs i out rest :
  StronglySorted key_le rest -> drop i kvs = rest -> (length rest <= fuel)%nat ->
  reduce_loop reducef fuel kvs i out = out +:+ concat_string (lines rest).
Proof.
  revert i out rest. induction fuel as [|fuel IH]; intros i out rest Hs Hd Hf.
  { destruct rest; [|cbn in Hf; lia]. cbn. by rewrite string_app_nil. }
  assert (Hi : kvs !! i = head rest).
  { rewrite <-(Nat.add_0_r i), <-lookup_drop, Hd. by destruct rest. }
  cbn [reduce_loop]. rewrite Hi. destruct rest as [|kv rest]; cbn [head]; [cbn; by rewrite string_app_nil|].
  assert (Hd' : drop (S i) kvs = rest).
  { replace (S i) with (i + 1)%nat by lia. by rewrite <-drop_drop, Hd. }
  assert (Hle : (length rest <= length kvs)%nat) by (rewrite <-Hd', length_drop; lia).
  rewrite (group_end_run _ _ _ _ kv rest Hi Hd' Hle), Hd.
  rewrite (IH _ _ (drop (run_len (Key kv) rest) rest)).
  - rewrite lines_run by done. cbn [concat_string foldr]. rewrite string_app_assoc. do 4 f_equal.
    replace (S i + run_len (Key kv) rest - i)%nat with (S (run_len (Key kv) rest)) by lia. done.
  - apply StronglySorted_drop. by apply StronglySorted_inv in Hs as [? _].
  - by rewrite <-drop_drop, Hd'.
  - rewrite length_drop. cbn in Hf. lia.
Qed.

Lemma reduce_loop_lines kvs : StronglySorted key_le kvs ->
  reduce_loop reducef (length kvs) kvs 0 "" = concat_string (lines kvs).
Proof. intros Hs. by apply (reduce_loop_run (length kvs) kvs 0 "" kvs). Qed.

Lemma fmap_bind {A B C} (g : B -> C) (h : A -> list B) l :
  g <$> (l ≫= h) = (l ≫= fun x => g <$> h x).
Proof. induction l as [|x l IH]; [done|]. cbn. by rewrite fmap_app, <-IH. Qed.

(** *** Lines of permuted and of split pairs *)

Lemma keys_perm kvs kvs' : kvs ≡ₚ kvs' -> remove_dups (Key <$> kvs) ≡ₚ remove_dups (Key <$> kvs').
Proof.
  intros Hp. apply NoDup_Permutation; [apply NoDup_remove_dups..|]. intros k.
  rewrite !elem_of_remove_dups. by rewrite Hp.
Qed.

Lemma lines_perm kvs kvs' :
  (forall k vs vs', vs ≡ₚ vs' -> reducef k vs = reducef k vs') ->
  kvs ≡ₚ kvs' -> lines kvs ≡ₚ lines kvs'.
Proof.
  intros Hred Hp. unfold lines. rewrite (keys_perm _ _ Hp). erewrite list_fmap_ext; [done|].
  intros i k _. cbn. f_equal. by apply Hred, values_of_perm.
Qed.

(** The lines of all pairs are the lines of the buckets together. *)
Lemma lines_buckets n kvs : (0 < n)%nat ->
  lines kvs ≡ₚ (seq 0 n ≫= fun j => lines (in_bucket n j kvs)).
Proof.
  intros Hn. set (f := fun k => reduce_line k (reducef k (values_of k kvs))).
  set (keys := fun j => remove_dups (Key <$> in_bucket n j kvs)).
  assert (Hkey : forall j k, k ∈ keys j <-> bucket n (mkKeyValue k "") = j /\ k ∈ Key <$> kvs).
  { intros j k. unfold keys. rewrite elem_of_remove_dups, !list_elem_of_fmap. unfold in_bucket. split.
    - intros (kv & -> & [Hb Hin]%list_elem_of_filter). split; [exact Hb|]. by exists kv.
    - intros (Hb & kv & -> & Hin). exists kv. split; [done|]. by apply list_elem_of_filter. }
  assert (E : (seq 0 n ≫= fun j => lines (in_bucket n j kvs)) = f <$> (seq 0 n ≫= keys)).
  { rewrite fmap_bind. apply list_bind_ext; [|done]. intros j. unfold lines, f. cbn.
    apply list_fmap_ext. intros i' k Hk. f_equal. f_equal.
    apply list_elem_of_lookup_2, Hkey in Hk as [Hb _]. by eapply values_of_bucket. }
  rewrite E. unfold lines. fold f. apply fmap_Permutation.
  apply NoDup_Permutation; [apply NoDup_remove_dups| |].
  - apply NoDup_bind; [|intros; apply NoDup_remove_dups|apply NoDup_seq].
    intros j1 j2 k _ _ [<- _]%Hkey [<- _]%Hkey. done.
  - intros k. rewrite elem_of_remove_dups, list_elem_of_bind. split.
    + intros Hk. exists (bucket n (mkKeyValue k "")). rewrite Hkey. split; [done|].
      apply elem_of_seq. pose proof (bucket_lt n (mkKeyValue k "") Hn). lia.
    + intros (j & Hk & _). by apply Hkey in Hk as [_ ?].
Qed.
End reduce.
