(* ===== verification/Names.v ===== *)
(** * Decimal numbers in names

    File and server names are made of fixed words, dashes and decimal numbers
    ([strconv.Itoa], [%d]: stdpp's [pretty]); a name determines its numbers. *)
From stdpp Require Import pretty.
From Stdlib Require Import Ascii.
From S2P Require Import Prelude.

Fixpoint all_chars (P : ascii -> Prop) (s : string) : Prop :=
  match s with EmptyString => True | String c s => P c /\ all_chars P s end.

Lemma all_chars_app P s1 s2 : all_chars P (s1 +:+ s2) <-> all_chars P s1 /\ all_chars P s2.
Proof.
  induction s1 as [|c s1 IH]; [cbn; tauto|].
  change (String c s1 +:+ s2) with (String c (s1 +:+ s2)). cbn. rewrite IH. tauto.
Qed.

(** Decimal numbers have neither dashes nor dots. *)
Definition plain (c : ascii) : Prop := c <> "-"%char /\ c <> "."%char /\ c <> "o"%char.

Lemma pretty_char_plain x : plain (pretty_N_char x).
Proof. unfold pretty_N_char, plain. repeat case_match; done. Qed.

Lemma pretty_go_plain x s : all_chars plain s -> all_chars plain (pretty_N_go x s).
Proof.
  revert s. induction (N.lt_wf_0 x) as [x _ IH]; intros s Hs.
  assert (x = 0 \/ 0 < x)%N as [->|Hx] by lia; [by rewrite pretty_N_go_0|].
  rewrite pretty_N_go_step by done. apply IH; [by apply N.div_lt|]. split; [apply pretty_char_plain|done].
Qed.

Lemma pretty_plain n : all_chars plain (pretty (Z.of_nat n)).
Proof.
  assert (HN : forall x : N, all_chars plain (pretty x)).
  { intros x. unfold pretty, pretty_N. case_decide; [|by apply pretty_go_plain].
    split; [|done]. unfold plain. by split_and!. }
  destruct n as [|n]; [|apply (HN (N.pos (Pos.of_succ_nat n)))]. split; [|done]. unfold plain. by split_and!.
Qed.

Lemma pretty_nonempty n s : pretty (Z.of_nat n) <> "" /\ pretty (Z.of_nat n) <> String "o" s.
Proof.
  pose proof (pretty_plain n) as Hp. split.
  - destruct n as [|n]; [done|]. change (pretty (N.pos (Pos.of_succ_nat n)) <> "").
    unfold pretty, pretty_N. rewrite decide_False by done. rewrite pretty_N_go_step by lia. intros E.
    assert (Hlen : forall x s, (String.length s <= String.length (pretty_N_go x s))%nat).
    { intros x. induction (N.lt_wf_0 x) as [x _ IH]. intros s'.
      assert (x = 0 \/ 0 < x)%N as [->|Hx] by lia; [by rewrite pretty_N_go_0|].
      rewrite pretty_N_go_step by done. etrans; [|by apply IH, N.div_lt]. cbn. lia. }
    pose proof (Hlen (N.pos (Pos.of_succ_nat n) `div` 10)%N
      (String (pretty_N_char (N.pos (Pos.of_succ_nat n) `mod` 10)) "")) as Hl.
    rewrite E in Hl. cbn in Hl. lia.
  - intros E. rewrite E in Hp. destruct Hp as [(_ & _ & Ho) _]. done.
Qed.

(** A dash-free prefix is determined by the first dash. *)
Lemma split_dash s1 s2 t1 t2 : all_chars plain s1 -> all_chars plain s2 ->
  s1 +:+ String "-" t1 = s2 +:+ String "-" t2 -> s1 = s2 /\ t1 = t2.
Proof.
  revert s2. induction s1 as [|c s1 IH]; intros [|d s2] H1 H2 E.
  - by injection E.
  - change (String "-" t1 = String d (s2 +:+ String "-" t2)) in E. injection E as <- _. by destruct H2 as [[]].
  - change (String c (s1 +:+ String "-" t1) = String "-" t2) in E. injection E as -> _. by destruct H1 as [[]].
  - change (String c (s1 +:+ String "-" t1) = String d (s2 +:+ String "-" t2)) in E. injection E as -> E.
    destruct H1 as [_ H1], H2 as [_ H2]. destruct (IH s2 H1 H2 E) as [-> ->]. done.
Qed.
