(* ===== verification/MrJob.v ===== *)
(** * A MapReduce job: coordinator, workers and files together

    Any number of workers run the loop of [Worker] against one coordinator and one file
    system. They are interleaved task by task (a map task file by file), start and die
    at any moment, and any task may time out at any moment and be given to another
    worker, also when the first one is only slow. Writing one file with its rename is
    one step. *)
From stdpp Require Import pretty.
From Stdlib Require Import Ascii.
From S2P Require Import Prelude MrCoordinator MrProps MapReduce MapReduceData Names.

(** ** The names of the files

    [mr-X-Y], [mr-out-Y] and their [.tmp] files are pairwise different, so the files of
    different tasks do not clash. *)

Definition mid (i j : nat) : string := intermediate_name (Z.of_nat i) (Z.of_nat j).
Definition out (r : nat) : string := output_name (Z.of_nat r).

Lemma mid_inj i j i' j' : mid i j = mid i' j' -> i = i' /\ j = j'.
Proof.
  unfold mid, intermediate_name. intros E%(inj (String.append "mr-")).
  apply split_dash in E as [E1 E2]; [|apply pretty_plain..].
  apply (inj pretty) in E1, E2. lia.
Qed.

Lemma out_inj r r' : out r = out r' -> r = r'.
Proof. unfold out, output_name. intros E%(inj (String.append "mr-out-"))%(inj pretty). lia. Qed.

Lemma mid_ne_out i j r : mid i j <> out r.
Proof.
  unfold mid, out, intermediate_name, output_name. intros E.
  change ("mr-out-" +:+ pretty (Z.of_nat r)) with ("mr-" +:+ (String "o" ("ut-" +:+ pretty (Z.of_nat r)))) in E.
  apply (inj (String.append "mr-")) in E. pose proof (pretty_nonempty i "") as [Hne _].
  pose proof (pretty_plain i) as Hp. destruct (pretty (Z.of_nat i)) as [|c s]; [done|].
  change (String c (s +:+ String "-" (pretty (Z.of_nat j))) = String "o" ("ut-" +:+ pretty (Z.of_nat r))) in E.
  injection E as -> _. destruct Hp as [(_ & _ & Ho) _]. done.
Qed.

(** *** Temporary names *)

Definition dotless (s : string) : Prop := all_chars (fun c => c <> "."%char) s.

Lemma pretty_dotless n : dotless (pretty (Z.of_nat n)).
Proof.
  pose proof (pretty_plain n) as Hp. unfold dotless. revert Hp. generalize (pretty (Z.of_nat n)).
  intros s. induction s as [|c s IH]; [done|]. intros [(_ & Hc & _) Hs]. split; auto.
Qed.

Lemma mid_dotless i j : dotless (mid i j).
Proof.
  unfold mid, intermediate_name, dotless. rewrite !all_chars_app.
  split_and!; [cbn; by split_and!|apply pretty_dotless|cbn; by split_and!|apply pretty_dotless].
Qed.
Lemma out_dotless r : dotless (out r).
Proof.
  unfold out, output_name, dotless. rewrite all_chars_app. split; [cbn; by split_and!|apply pretty_dotless].
Qed.

Lemma tmp_ne s s' : dotless s' -> s +:+ ".tmp" <> s'.
Proof.
  intros Hd <-. unfold dotless in Hd. rewrite all_chars_app in Hd. destruct Hd as [_ [Hd _]]. done.
Qed.

(** Files that are not of the job. *)
Definition foreign (f : string) : bool := negb (String.prefix "mr-" f).

Lemma prefix_app s t : String.prefix s (s +:+ t) = true.
Proof.
  induction s as [|c s IH]; [by destruct t|]. change (String c s +:+ t) with (String c (s +:+ t)).
  cbn. destruct (Ascii.ascii_dec c c); [done|congruence].
Qed.

Lemma foreign_ne f i j r : foreign f = true ->
  f <> mid i j /\ f <> mid i j +:+ ".tmp" /\ f <> out r /\ f <> out r +:+ ".tmp".
Proof.
  unfold foreign. intros Hf. apply negb_true_iff in Hf.
  assert (Hpre : forall t, f <> "mr-" +:+ t) by (intros t ->; by rewrite prefix_app in Hf).
  unfold mid, out, intermediate_name, output_name. rewrite !string_app_assoc.
  split_and!; try apply Hpre; intros ->; eapply (Hpre ("out-" +:+ _)); reflexivity.
Qed.

(** ** Workers and steps *)

Inductive WorkerState :=
  | Idle
  | MapTask (t : MapperTask)
  | MapWriting (t : MapperTask) (reducerKvArr : list (list KeyValue)) (i : nat)
  | ReduceTask (t : ReducerTask)
  | ReduceWritten (t : ReducerTask)
  | Exited.

Record World := mkWorld {
  coord : Coordinator;
  files : Files;
  workers : list WorkerState
}.

(** What a worker does with the answer of [FetchTask]. *)
Definition next_state (resp : FetchTaskResponse) : WorkerState :=
  if f_AllFinished resp then Exited
  else match f_MapperTask resp, f_ReducerTask resp with
       | Some t, _ => MapTask t
       | None, Some t => ReduceTask t
       | None, None => Idle
       end.

(** The effect of creating a temporary file and renaming it. *)
Definition written (name content : string) (fs : Files) : Files :=
  <[name := content]> (delete (name +:+ ".tmp") (<[name +:+ ".tmp" := content]> fs)).

Lemma create_rename name content fs :
  (do! os_Create (name +:+ ".tmp") content; os_Rename (name +:+ ".tmp") name) fs =
    Some (tt, written name content fs).
Proof. unfold os_Create, os_Rename, bind, modify. cbn. by rewrite lookup_insert_eq. Qed.

Lemma written_eq name content fs : written name content fs !! name = Some content.
Proof. unfold written. by rewrite lookup_insert_eq. Qed.
Lemma written_ne name content fs f : f <> name -> f <> name +:+ ".tmp" ->
  written name content fs !! f = fs !! f.
Proof. intros H1 H2. unfold written. by rewrite lookup_insert_ne, lookup_delete_ne, lookup_insert_ne. Qed.

(** ** Which steps of the coordinator finish tasks *)

Definition same_finished (c c' : Coordinator) : Prop :=
  m_IsFinished <$> Mappers c' = m_IsFinished <$> Mappers c /\
  r_IsFinished <$> Reducers c' = r_IsFinished <$> Reducers c.

Lemma fmap_insert_same {A B} (f : A -> B) (l : list A) (i : nat) x y :
  l !! i = Some x -> f y = f x -> f <$> <[i := y]> l = f <$> l.
Proof.
  intros Hi E. rewrite list_fmap_insert, E. apply list_insert_id. by rewrite list_lookup_fmap, Hi.
Qed.

Lemma FetchTask_finished c resp c' : FetchTask c = Some (resp, c') -> same_finished c c'.
Proof.
  unfold FetchTask, bind, get, ret, modify. pose proof (assignMapper_spec (Mappers c)) as Hm.
  pose proof (assignReducer_spec (Reducers c)) as Hr.
  destruct (negb (MapperFinished c)); [|destruct (negb (ReducerFinished c))].
  - destruct (assignMapper _) as [[t l]|]; intros [= _ <-]; [|by split].
    destruct Hm as (i & m & Hi & _ & -> & -> & _). split; [|done]. by eapply fmap_insert_same.
  - destruct (assignReducer _) as [[t l]|]; intros [= _ <-]; [|by split].
    destruct Hr as (i & m & Hi & _ & -> & -> & _). split; [done|]. by eapply fmap_insert_same.
  - intros [= _ <-]. by split.
Qed.

Lemma mapperTimeout_finished index c c' : mapperTimeoutFun index c = Some (tt, c') -> same_finished c c'.
Proof.
  unfold mapperTimeoutFun, bind, get, lift, modify, ret.
  destruct (slice_get (Mappers c) index) as [m|] eqn:E; [|done]. destruct (negb _); [|by intros [= <-]].
  rewrite slice_set_Some by (by eapply slice_get_lt). intros [= <-].
  apply slice_get_Some in E as [_ E]. split; [|done]. by eapply fmap_insert_same.
Qed.
Lemma reducerTimeout_finished index c c' : reducerTimeoutFun index c = Some (tt, c') -> same_finished c c'.
Proof.
  unfold reducerTimeoutFun, bind, get, lift, modify, ret.
  destruct (slice_get (Reducers c) index) as [r|] eqn:E; [|done]. destruct (negb _); [|by intros [= <-]].
  rewrite slice_set_Some by (by eapply slice_get_lt). intros [= <-].
  apply slice_get_Some in E as [_ E]. split; [done|]. by eapply fmap_insert_same.
Qed.

(** A finished task was finished before or is the one reported. *)
Lemma report_map_finished t c c' i m : mr_wf c ->
  UpdateTask (mkUpdateTaskRequest (Some t) None) c = Some (tt, c') ->
  Reducers c' = Reducers c /\
  (Mappers c' !! i = Some m -> m_IsFinished m = true ->
   (exists m0, Mappers c !! i = Some m0 /\ m_IsFinished m0 = true) \/ m_Index t = Z.of_nat i).
Proof.
  intros Hwf. unfold UpdateTask. cbn [u_MapperTask u_ReducerTask].
  destruct (update_mappers_good (m_Index t) c Hwf) as (ms & b & Hrun & -> & _ & _).
  unfold bind, get, lift, modify, ret. rewrite Hrun. intros [= <-]. split; [done|]. cbn [Mappers set_MapperFinished set_Mappers].
  rewrite list_lookup_fmap. destruct (Mappers c !! i) as [m0|] eqn:E; [|done]. intros [= <-] Hf.
  unfold reported_m in Hf. destruct (_ && negb _) eqn:Hc.
  - right. apply andb_true_iff in Hc as [[Hc%bool_decide_eq_true _]%andb_true_iff _].
    destruct (mw_m _ Hwf i m0 E). congruence.
  - left. by exists m0.
Qed.
Lemma report_reduce_finished t c c' i r : mr_wf c ->
  UpdateTask (mkUpdateTaskRequest None (Some t)) c = Some (tt, c') ->
  Mappers c' = Mappers c /\
  (Reducers c' !! i = Some r -> r_IsFinished r = true ->
   (exists r0, Reducers c !! i = Some r0 /\ r_IsFinished r0 = true) \/ r_Index t = Z.of_nat i).
Proof.
  intros Hwf. unfold UpdateTask. cbn [u_MapperTask u_ReducerTask].
  destruct (update_reducers_good (r_Index t) c Hwf) as (rs & b & Hrun & -> & _ & _).
  unfold bind, get, lift, modify, ret. rewrite Hrun. intros [= <-]. split; [done|]. cbn [Reducers set_ReducerFinished set_Reducers].
  rewrite list_lookup_fmap. destruct (Reducers c !! i) as [r0|] eqn:E; [|done]. intros [= <-] Hf.
  unfold reported_r in Hf. destruct (_ && negb _) eqn:Hc.
  - right. apply andb_true_iff in Hc as [[Hc%bool_decide_eq_true _]%andb_true_iff _].
    destruct (mw_r _ Hwf i r0 E). congruence.
  - left. by exists r0.
Qed.

Section job.
Context {J : Json} {JL : JsonLaws} {SB : SortByKey} {SBL : SortByKeyLaws}.
Variables (mapf : string -> string -> list KeyValue) (reducef : string -> list string -> string).

Inductive world_step (w : World) : World -> Prop :=
  | ws_fetch k resp c :
      workers w !! k = Some Idle -> FetchTask (coord w) = Some (resp, c) ->
      world_step w (mkWorld c (files w) (<[k := next_state resp]> (workers w)))
  | ws_map k t :
      workers w !! k = Some (MapTask t) ->
      world_step w (mkWorld (coord w) (files w)
        (<[k := match doMapperTask_map mapf t (files w) with
                | Some (arr, _) => MapWriting t arr 0 | None => Exited end]> (workers w)))
  | ws_write k t arr i kvs fs :
      workers w !! k = Some (MapWriting t arr i) -> arr !! i = Some kvs ->
      doMapperTask_write t (Z.of_nat i) kvs (files w) = Some (tt, fs) ->
      world_step w (mkWorld (coord w) fs (<[k := MapWriting t arr (S i)]> (workers w)))
  | ws_report_map k t arr c :
      workers w !! k = Some (MapWriting t arr (length arr)) ->
      UpdateTask (mkUpdateTaskRequest (Some t) None) (coord w) = Some (tt, c) ->
      world_step w (mkWorld c (files w) (<[k := Idle]> (workers w)))
  | ws_reduce k t :
      workers w !! k = Some (ReduceTask t) ->
      world_step w
        match doReducerTask reducef t (files w) with
        | Some (_, fs) => mkWorld (coord w) fs (<[k := ReduceWritten t]> (workers w))
        | None => mkWorld (coord w) (files w) (<[k := Exited]> (workers w))
        end
  | ws_report_reduce k t c :
      workers w !! k = Some (ReduceWritten t) ->
      UpdateTask (mkUpdateTaskRequest None (Some t)) (coord w) = Some (tt, c) ->
      world_step w (mkWorld c (files w) (<[k := Idle]> (workers w)))
  | ws_map_timeout index c :
      0 <= index < len (Mappers (coord w)) -> mapperTimeoutFun index (coord w) = Some (tt, c) ->
      world_step w (mkWorld c (files w) (workers w))
  | ws_reduce_timeout index c :
      0 <= index < len (Reducers (coord w)) -> reducerTimeoutFun index (coord w) = Some (tt, c) ->
      world_step w (mkWorld c (files w) (workers w))
  | ws_crash k :
      world_step w (mkWorld (coord w) (files w) (<[k := Exited]> (workers w)))
  | ws_start : world_step w (mkWorld (coord w) (files w) (workers w ++ [Idle])).

(** ** What the files should hold *)
Variables (names : list string) (n : nat) (fs0 : Files).

Definition kva (i : nat) : list KeyValue :=
  match names !! i with Some f => mapf f (default "" (fs0 !! f)) | None => [] end.
Definition Mid (i j : nat) : string := encode_all (sort_ByKey (in_bucket n j (kva i))).
Definition read_pairs (j : nat) : list KeyValue :=
  seq 0 (length names) ≫= fun i => sort_ByKey (in_bucket n j (kva i)).
Definition Out (r : nat) : string := concat_string (lines reducef (sort_ByKey (read_pairs r))).

Hypotheses (Hn : (0 < n)%nat)
  (Hfiles : forall f, f ∈ names -> is_Some (fs0 !! f) /\ foreign f = true)
  (Hvalid : forall i, Forall json_valid (kva i)).

Definition map_task (i : nat) (t : MapperTask) : Prop :=
  (i < length names)%nat /\ m_Index t = Z.of_nat i /\ names !! i = Some (m_Inputfile t) /\
  m_ReducerCount t = Z.of_nat n.
Definition reduce_task (r : nat) (t : ReducerTask) : Prop :=
  (r < n)%nat /\ r_Index t = Z.of_nat r /\ r_MapperCount t = Z.of_nat (length names).

Definition worker_ok (c : Coordinator) (fs : Files) (s : WorkerState) : Prop :=
  match s with
  | Idle | Exited => True
  | MapTask t => exists i, map_task i t
  | MapWriting t arr k => exists i, map_task i t /\ arr = (fun j => in_bucket n j (kva i)) <$> seq 0 n /\
      forall j, (j < k)%nat -> (j < n)%nat -> fs !! mid i j = Some (Mid i j)
  | ReduceTask t => MapperFinished c = true /\ exists r, reduce_task r t
  | ReduceWritten t => exists r, reduce_task r t /\ fs !! out r = Some (Out r)
  end.

Record job_inv (w : World) : Prop := {
  ji_wf : mr_wf (coord w);
  ji_tasks : mr_mono (MakeCoordinator names n) (coord w);
  ji_in f : f ∈ names -> files w !! f = fs0 !! f;
  ji_mid i m : Mappers (coord w) !! i = Some m -> m_IsFinished m = true ->
    forall j, (j < n)%nat -> files w !! mid i j = Some (Mid i j);
  ji_out i r : Reducers (coord w) !! i = Some r -> r_IsFinished r = true ->
    files w !! out i = Some (Out i);
  ji_workers k s : workers w !! k = Some s -> worker_ok (coord w) (files w) s
}.

(** *** Tasks *)

Lemma job_mapper c i m : mr_mono (MakeCoordinator names n) c -> Mappers c !! i = Some m -> map_task i m.
Proof.
  intros (Hm & _ & _) Hi. destruct (Forall2_lookup_r _ _ _ _ _ Hm Hi) as (m0 & H0 & H1 & H2 & H3 & _).
  cbn in H0. rewrite list_lookup_imap in H0. destruct (names !! i) as [f|] eqn:E; [|done].
  injection H0 as <-. cbn in *. split_and!; [by apply lookup_lt_Some in E|done|congruence|done].
Qed.
Lemma job_reducer c i r : mr_mono (MakeCoordinator names n) c -> Reducers c !! i = Some r -> reduce_task i r.
Proof.
  intros (_ & Hr & _) Hi. destruct (Forall2_lookup_r _ _ _ _ _ Hr Hi) as (r0 & H0 & H1 & H2 & _).
  cbn in H0. rewrite list_lookup_fmap in H0. destruct (seq 0 n !! i) as [j|] eqn:E; [|done].
  injection H0 as <-. apply lookup_seq in E as [-> ?]. cbn in *. by split_and!.
Qed.
Lemma job_mappers_length c : mr_mono (MakeCoordinator names n) c -> length (Mappers c) = length names.
Proof. intros (Hm & _ & _). apply Forall2_length in Hm. rewrite <-Hm. cbn. by rewrite length_imap. Qed.
Lemma job_reducers_length c : mr_mono (MakeCoordinator names n) c -> length (Reducers c) = n.
Proof. intros (_ & Hr & _). apply Forall2_length in Hr. rewrite <-Hr. cbn. by rewrite length_fmap, length_seq. Qed.

(** *** Changes of the files *)

(** Files that are right stay right. *)
Definition fs_ext (fs fs' : Files) : Prop :=
  (forall f, f ∈ names -> fs' !! f = fs !! f) /\
  (forall i j, fs !! mid i j = Some (Mid i j) -> fs' !! mid i j = Some (Mid i j)) /\
  (forall r, fs !! out r = Some (Out r) -> fs' !! out r = Some (Out r)).

Lemma fs_ext_refl fs : fs_ext fs fs.
Proof. by split_and!. Qed.

Lemma fs_ext_mid i j fs : fs_ext fs (written (mid i j) (Mid i j) fs).
Proof.
  split_and!.
  - intros f Hf. destruct (Hfiles f Hf) as [_ Hfor]. destruct (foreign_ne f i j 0 Hfor) as (? & ? & _).
    by apply written_ne.
  - intros i' j' Hm. destruct (decide (mid i' j' = mid i j)) as [E|Hne].
    + rewrite E. destruct (mid_inj _ _ _ _ E) as [-> ->]. apply written_eq.
    + rewrite written_ne; [done|done|]. apply not_eq_sym, tmp_ne, mid_dotless.
  - intros r Hr. rewrite written_ne; [done|apply not_eq_sym, mid_ne_out|]. apply not_eq_sym, tmp_ne, out_dotless.
Qed.
Lemma fs_ext_out r fs : fs_ext fs (written (out r) (Out r) fs).
Proof.
  split_and!.
  - intros f Hf. destruct (Hfiles f Hf) as [_ Hfor]. destruct (foreign_ne f 0 0 r Hfor) as (_ & _ & ? & ?).
    by apply written_ne.
  - intros i j Hm. rewrite written_ne; [done|apply mid_ne_out|]. apply not_eq_sym, tmp_ne, mid_dotless.
  - intros r' Hr. destruct (decide (out r' = out r)) as [E|Hne].
    + rewrite E. rewrite (out_inj _ _ E). apply written_eq.
    + rewrite written_ne; [done|done|]. apply not_eq_sym, tmp_ne, out_dotless.
Qed.

Lemma worker_ok_mono c c' fs fs' s :
  (MapperFinished c = true -> MapperFinished c' = true) -> fs_ext fs fs' ->
  worker_ok c fs s -> worker_ok c' fs' s.
Proof.
  intros Hc (_ & Hm & Ho). destruct s; cbn; try done.
  - intros (k & Ht & Ha & Hj). exists k. split_and!; auto.
  - intros [? ?]. auto.
  - intros (r & Ht & Hr). exists r. auto.
Qed.

(** *** The tasks compute what they should *)

Lemma doMapperTask_map_run w i t : job_inv w -> map_task i t ->
  doMapperTask_map mapf t (files w) = Some ((fun j => in_bucket n j (kva i)) <$> seq 0 n, files w).
Proof.
  intros Hinv (_ & _ & Hf & Hc). unfold doMapperTask_map, os_ReadAll, bind, get, lift.
  assert (Hin : m_Inputfile t ∈ names) by (by apply list_elem_of_lookup_2 in Hf).
  rewrite (ji_in _ Hinv _ Hin). destruct (Hfiles _ Hin) as [[content Hcont] _]. rewrite Hcont, Hc.
  rewrite decide_False by lia. rewrite Nat2Z.id, shuffle_buckets by done.
  unfold kva. rewrite Hf, Hcont. done.
Qed.

Lemma doMapperTask_write_run i t j fs : map_task i t ->
  doMapperTask_write t (Z.of_nat j) (in_bucket n j (kva i)) fs = Some (tt, written (mid i j) (Mid i j) fs).
Proof.
  intros (_ & Hi & _). unfold doMapperTask_write. rewrite Hi. apply create_rename.
Qed.

Lemma valid_bucket i j : Forall json_valid (sort_ByKey (in_bucket n j (kva i))).
Proof.
  rewrite (sort_ByKey_perm (in_bucket n j (kva i))). pose proof (Hvalid i) as Hv.
  rewrite Forall_forall in *. intros kv [_ Hkv]%list_elem_of_filter. auto.
Qed.

Lemma read_intermediate_run r todo acc fs :
  (forall i, i ∈ todo -> fs !! mid i r = Some (Mid i r)) ->
  read_intermediate (Z.of_nat r) todo acc fs =
    Some (acc ++ (todo ≫= fun i => sort_ByKey (in_bucket n r (kva i))), fs).
Proof.
  revert acc. induction todo as [|i todo IH]; intros acc Hall.
  { cbn. unfold ret. by rewrite app_nil_r. }
  cbn [read_intermediate]. unfold bind at 1, os_ReadAll, bind, get, lift.
  fold (mid i r). rewrite (Hall i) by set_solver. unfold Mid.
  rewrite decode_all_encode by apply valid_bucket. rewrite IH by set_solver. cbn. by rewrite <-app_assoc.
Qed.

Lemma doReducerTask_run w r t : job_inv w -> MapperFinished (coord w) = true -> reduce_task r t ->
  doReducerTask reducef t (files w) = Some (tt, written (out r) (Out r) (files w)).
Proof.
  intros Hinv Hm (Hr & Hi & Hc). unfold doReducerTask. rewrite Hi, Hc, Nat2Z.id.
  unfold bind at 1. rewrite read_intermediate_run.
  - cbn [app]. fold (read_pairs r). rewrite reduce_loop_lines by apply sort_ByKey_sorted. apply create_rename.
  - intros i [_ Hlt]%elem_of_seq. destruct (lookup_lt_is_Some_2 (Mappers (coord w)) i) as [m Em].
    { rewrite job_mappers_length by apply Hinv. done. }
    apply (ji_mid _ Hinv i m Em); [|done]. pose proof (mw_mdone _ (ji_wf _ Hinv) Hm) as Hall.
    rewrite Forall_lookup in Hall. by eapply Hall.
Qed.

(** ** The invariant is kept *)

Lemma job_inv_next w c fs ws :
  job_inv w -> mr_wf c -> mr_mono (coord w) c -> fs_ext (files w) fs ->
  (forall i m, Mappers c !! i = Some m -> m_IsFinished m = true ->
     (exists m0, Mappers (coord w) !! i = Some m0 /\ m_IsFinished m0 = true) \/
     forall j, (j < n)%nat -> fs !! mid i j = Some (Mid i j)) ->
  (forall i r, Reducers c !! i = Some r -> r_IsFinished r = true ->
     (exists r0, Reducers (coord w) !! i = Some r0 /\ r_IsFinished r0 = true) \/
     fs !! out i = Some (Out i)) ->
  (forall k s, ws !! k = Some s -> workers w !! k = Some s \/ worker_ok c fs s) ->
  job_inv (mkWorld c fs ws).
Proof.
  intros Hinv Hwf Hmono Hfs Hm Hr Hws. pose proof Hfs as (Hin & Hmid & Hout). split; cbn.
  - done.
  - eapply mr_mono_trans; [apply Hinv|done].
  - intros f Hf. rewrite Hin by done. by apply Hinv.
  - intros i m Hi Hfin j Hj. destruct (Hm i m Hi Hfin) as [(m0 & H1 & H2)|Hx]; [|auto].
    apply Hmid. by apply (ji_mid _ Hinv i m0).
  - intros i r Hi Hfin. destruct (Hr i r Hi Hfin) as [(r0 & H1 & H2)|Hx]; [|done].
    apply Hout. by apply (ji_out _ Hinv i r0).
  - intros k s Hk. destruct (Hws k s Hk) as [Hold|Hok]; [|done].
    eapply worker_ok_mono; [apply Hmono|exact Hfs|]. by apply (ji_workers _ Hinv k).
Qed.

(** A step that finishes no task. *)
Lemma job_inv_same w c fs ws :
  job_inv w -> mr_wf c -> mr_mono (coord w) c -> same_finished (coord w) c -> fs_ext (files w) fs ->
  (forall k s, ws !! k = Some s -> workers w !! k = Some s \/ worker_ok c fs s) ->
  job_inv (mkWorld c fs ws).
Proof.
  intros Hinv Hwf Hmono [Hm Hr] Hfs Hws. apply (job_inv_next w); try done.
  - intros i m Hi Hf. left. apply (f_equal (fun l => l !! i)) in Hm. rewrite !list_lookup_fmap, Hi in Hm.
    destruct (Mappers (coord w) !! i) as [m0|]; [|done]. injection Hm as Hm. exists m0. split; congruence.
  - intros i r Hi Hf. left. apply (f_equal (fun l => l !! i)) in Hr. rewrite !list_lookup_fmap, Hi in Hr.
    destruct (Reducers (coord w) !! i) as [r0|]; [|done]. injection Hr as Hr. exists r0. split; congruence.
Qed.

Lemma workers_insert (ws : list WorkerState) k s0 (P : WorkerState -> Prop) :
  P s0 -> forall k' s, <[k := s0]> ws !! k' = Some s -> ws !! k' = Some s \/ P s.
Proof.
  intros Hp k' s [(-> & <- & _)|[_ Hk]]%list_lookup_insert_Some; [by right|by left].
Qed.

Lemma fetched_ok w resp c : job_inv w -> FetchTask (coord w) = Some (resp, c) ->
  mr_wf c /\ mr_mono (coord w) c /\ worker_ok c (files w) (next_state resp).
Proof.
  intros Hinv Hf. pose proof (FetchTask_good (coord w) (ji_wf _ Hinv)) as Hg.
  eapply wp_run in Hg; [|exact Hf]. destruct Hg as (Hwf & Hmono & Hm & Hr & _). split_and!; [done|done|].
  unfold next_state. destruct (f_AllFinished resp); [done|].
  destruct (f_MapperTask resp) as [t|] eqn:Et; [|destruct (f_ReducerTask resp) as [t|] eqn:Er; [|done]].
  - destruct (Hm t eq_refl) as (_ & i & m & Hi & _ & -> & _). exists i.
    apply (job_mapper _ i m (ji_tasks _ Hinv) Hi).
  - destruct (Hr t eq_refl) as (Hmf & i & r & Hi & _ & -> & ->). split; [exact Hmf|]. exists i.
    apply (job_reducer _ i r (ji_tasks _ Hinv) Hi).
Qed.

Lemma job_inv_report_map w k t arr c : job_inv w ->
  workers w !! k = Some (MapWriting t arr (length arr)) ->
  UpdateTask (mkUpdateTaskRequest (Some t) None) (coord w) = Some (tt, c) ->
  job_inv (mkWorld c (files w) (<[k := Idle]> (workers w))).
Proof.
  intros Hinv Hk Hu. pose proof (ji_wf _ Hinv) as Hwf.
  destruct (ji_workers _ Hinv _ _ Hk) as (m & Ht & Harr & Hdone).
  pose proof (UpdateTask_good (mkUpdateTaskRequest (Some t) None) (coord w) Hwf) as Hg.
  eapply wp_run in Hg; [|exact Hu]. destruct Hg as [Hwf' Hmono].
  apply (job_inv_next w); try done; [| |by apply workers_insert].
  - intros i mt Hi Hfin. destruct (report_map_finished t _ _ i mt Hwf Hu) as [_ Hrep].
    destruct (Hrep Hi Hfin) as [Hold|Hidx]; [by left|right]. destruct Ht as (_ & Hti & _).
    assert (i = m) as -> by lia. intros j Hj. apply Hdone; [|done]. subst arr. by rewrite length_fmap, length_seq.
  - intros i r Hi Hfin. left.
    destruct (report_map_finished t _ _ i t Hwf Hu) as [Er _]. rewrite Er in Hi. by exists r.
Qed.

Lemma job_inv_report_reduce w k t c : job_inv w ->
  workers w !! k = Some (ReduceWritten t) ->
  UpdateTask (mkUpdateTaskRequest None (Some t)) (coord w) = Some (tt, c) ->
  job_inv (mkWorld c (files w) (<[k := Idle]> (workers w))).
Proof.
  intros Hinv Hk Hu. pose proof (ji_wf _ Hinv) as Hwf.
  destruct (ji_workers _ Hinv _ _ Hk) as (r & Ht & Hr).
  pose proof (UpdateTask_good (mkUpdateTaskRequest None (Some t)) (coord w) Hwf) as Hg.
  eapply wp_run in Hg; [|exact Hu]. destruct Hg as [Hwf' Hmono].
  apply (job_inv_next w); try done; [| |by apply workers_insert].
  - intros i m Hi Hfin. left.
    destruct (report_reduce_finished t _ _ i t Hwf Hu) as [Em _]. rewrite Em in Hi. by exists m.
  - intros i rt Hi Hfin. destruct (report_reduce_finished t _ _ i rt Hwf Hu) as [_ Hrep].
    destruct (Hrep Hi Hfin) as [Hold|Hidx]; [by left|right]. destruct Ht as (_ & Hti & _).
    by assert (i = r) as -> by lia.
Qed.

Lemma world_step_inv w w' : job_inv w -> world_step w w' -> job_inv w'.
Proof.
  intros Hinv Hstep. pose proof (ji_wf _ Hinv) as Hwf. pose proof (mr_mono_refl (coord w)) as Hrefl.
  destruct Hstep as [k resp c Hk Hf|k t Hk|k t arr i kvs fs Hk Hi Hw|k t arr c Hk Hu|k t Hk|k t c Hk Hu
    |index c Hi Ht|index c Hi Ht|k|].
  - destruct (fetched_ok w resp c Hinv Hf) as (Hwf' & Hm & Hok).
    apply (job_inv_same w); try done; [by eapply FetchTask_finished|].
    by apply workers_insert.
  - destruct (ji_workers _ Hinv _ _ Hk) as [i Ht]. rewrite (doMapperTask_map_run w i t Hinv Ht).
    apply (job_inv_same w); try done. apply workers_insert. exists i.
    split_and!; [done|done|lia].
  - destruct (ji_workers _ Hinv _ _ Hk) as (m & Ht & -> & Hdone). rewrite list_lookup_fmap in Hi.
    destruct (seq 0 n !! i) as [j|] eqn:Ej; [|done]. apply lookup_seq in Ej as [-> Hlt]. injection Hi as <-.
    cbn [Nat.add] in Hw. rewrite (doMapperTask_write_run m t i (files w) Ht) in Hw. injection Hw as <-.
    apply (job_inv_same w); try done; [apply fs_ext_mid|]. apply workers_insert. exists m.
    split_and!; [done|done|]. intros j Hj Hjn. destruct (decide (j = i)) as [->|Hne]; [apply written_eq|].
    destruct (fs_ext_mid m i (files w)) as (_ & Hmid & _). apply Hmid, Hdone; [lia|done].
  - by eapply job_inv_report_map.
  - destruct (ji_workers _ Hinv _ _ Hk) as (Hm & r & Ht). rewrite (doReducerTask_run w r t Hinv Hm Ht).
    apply (job_inv_same w); try done; [apply fs_ext_out|]. apply workers_insert. exists r.
    split; [done|apply written_eq].
  - by eapply job_inv_report_reduce.
  - pose proof (mapperTimeout_good index _ Hwf Hi) as Hg. eapply wp_run in Hg; [|exact Ht].
    destruct Hg as [Hwf' Hmono].
    apply (job_inv_same w); try done; [by eapply mapperTimeout_finished|intros; by left].
  - pose proof (reducerTimeout_good index _ Hwf Hi) as Hg. eapply wp_run in Hg; [|exact Ht].
    destruct Hg as [Hwf' Hmono].
    apply (job_inv_same w); try done; [by eapply reducerTimeout_finished|intros; by left].
  - apply (job_inv_same w); try done; [by apply workers_insert].
  - apply (job_inv_same w); try done. intros k s [Hk|[_ Hk]]%lookup_app_Some; [by left|].
    right. apply list_lookup_singleton_Some in Hk as [_ <-]. done.
Qed.

Lemma job_init_inv : job_inv (mkWorld (MakeCoordinator names n) fs0 []).
Proof.
  split; cbn; try done; [apply MakeCoordinator_wf|apply mr_mono_refl| |].
  - intros i m Hi. rewrite list_lookup_imap in Hi. destruct (names !! i); [|done]. by injection Hi as <-.
  - intros i r Hi. rewrite list_lookup_fmap in Hi. destruct (seq 0 n !! i); [|done]. by injection Hi as <-.
Qed.

Lemma world_steps_inv w w' : job_inv w -> rtc world_step w w' -> job_inv w'.
Proof. intros Hinv Hs. induction Hs; [done|]. eauto using world_step_inv. Qed.

Lemma job_done_outputs w r : job_inv w -> Done (coord w) = true -> (r < n)%nat ->
  files w !! out r = Some (Out r).
Proof.
  intros Hinv [_ Hd]%andb_true_iff Hr.
  destruct (lookup_lt_is_Some_2 (Reducers (coord w)) r) as [t Ht].
  { by rewrite job_reducers_length by apply Hinv. }
  apply (ji_out _ Hinv r t Ht). pose proof (mw_rdone _ (ji_wf _ Hinv) Hd) as Hall.
  rewrite Forall_lookup in Hall. by eapply Hall.
Qed.

(** ** The output against the sequential program *)

(** All pairs the map function yields. *)
Definition all_pairs : list KeyValue := names ≫= fun f => mapf f (default "" (fs0 !! f)).

Lemma all_pairs_kva : all_pairs = seq 0 (length names) ≫= kva.
Proof.
  unfold all_pairs, kva. clear Hfiles Hvalid. generalize dependent n. intros _ _.
  induction names as [|f l IH] using rev_ind; [done|].
  rewrite length_app, bind_app, IH, seq_app, bind_app. f_equal.
  - apply Forall_bind_ext. apply Forall_forall. intros i [_ Hi]%elem_of_seq. by rewrite lookup_app_l.
  - cbn. rewrite lookup_app_r by done. by rewrite Nat.sub_diag.
Qed.

Lemma bind_perm {A B} (f g : A -> list B) l : (forall x, f x ≡ₚ g x) -> (l ≫= f) ≡ₚ (l ≫= g).
Proof. intros Hfg. induction l as [|x l IH]; [done|]. cbn. by rewrite Hfg, IH. Qed.

Lemma filter_bind {A B} (P : B -> Prop) `{!forall x, Decision (P x)} (f : A -> list B) l :
  filter P (l ≫= f) = (l ≫= fun x => filter P (f x)).
Proof. induction l as [|x l IH]; [done|]. cbn. by rewrite filter_app, <-IH. Qed.

Lemma read_pairs_perm r : read_pairs r ≡ₚ in_bucket n r all_pairs.
Proof.
  rewrite all_pairs_kva. unfold read_pairs, in_bucket. rewrite filter_bind.
  apply bind_perm. intros i. apply sort_ByKey_perm.
Qed.

Hypothesis Hred : forall k vs vs', vs ≡ₚ vs' -> reducef k vs = reducef k vs'.

Lemma outputs_lines : (seq 0 n ≫= fun r => lines reducef (sort_ByKey (read_pairs r))) ≡ₚ lines reducef all_pairs.
Proof.
  rewrite (lines_buckets reducef n all_pairs) by done. apply bind_perm. intros r.
  apply lines_perm; [done|]. by rewrite sort_ByKey_perm, read_pairs_perm.
Qed.

Lemma sequential_map_run l acc fs : (forall f, f ∈ l -> fs !! f = fs0 !! f /\ is_Some (fs0 !! f)) ->
  sequential_map mapf l acc fs = Some (acc ++ (l ≫= fun f => mapf f (default "" (fs0 !! f))), fs).
Proof.
  revert acc. induction l as [|f l IH]; intros acc Hl; cbn.
  - unfold ret. by rewrite app_nil_r.
  - unfold bind, os_ReadAll, bind, get, lift. destruct (Hl f) as [E [c Hc]]; [set_solver|].
    rewrite E, Hc. rewrite IH by set_solver. cbn. by rewrite <-app_assoc.
Qed.

Lemma sequential_run :
  mrsequential_main mapf reducef names fs0 =
    Some (tt, <["mr-out-0" := concat_string (lines reducef (sort_ByKey all_pairs))]> fs0).
Proof.
  unfold mrsequential_main, bind. rewrite sequential_map_run.
  - cbn [app]. fold all_pairs. rewrite reduce_loop_lines by apply sort_ByKey_sorted. done.
  - intros f Hf. split; [done|]. by apply Hfiles.
Qed.
End job.
