(* ===== verification/MrJobProps.v ===== *)
(** * MapReduce end to end

    When a job of [MrJob] is done its files hold what the sequential program computes
    ([done_right_output]); a single worker alone completes the job, however often the
    coordinator's timers fire before its reports ([worker_completes_job]). *)
From S2P Require Import Prelude MrCoordinator MrProps MapReduce MapReduceData MrJob.

(** ** The loop of one worker as steps of the job *)
Section worker.
Context {J : Json} {JL : JsonLaws} {SB : SortByKey} {SBL : SortByKeyLaws}.
Variables (mapf : string -> string -> list KeyValue) (reducef : string -> list string -> string).
Variables (names : list string) (n : nat) (fs0 : Files).
Hypotheses (Hn : (0 < n)%nat)
  (Hfiles : forall f, f ∈ names -> is_Some (fs0 !! f) /\ foreign f = true)
  (Hvalid : forall i, Forall json_valid (kva mapf names fs0 i)).

Abbreviation inv := (job_inv mapf reducef names n fs0).
Abbreviation steps := (rtc (world_step mapf reducef)).
Abbreviation alone c fs s := (mkWorld c fs [s]).

(** The writing loop of a map task. *)
Lemma writing_steps i t c fs j k :
  inv (alone c fs (MapWriting t ((fun j => in_bucket n j (kva mapf names fs0 i)) <$> seq 0 n) j)) ->
  map_task names n i t -> (j + k = n)%nat ->
  exists fs',
    forM (imap (fun p kvs => (Z.of_nat (j + p), kvs)) ((fun j => in_bucket n j (kva mapf names fs0 i)) <$> seq j k))
      (fun '(p, kvs) => doMapperTask_write t p kvs) fs = Some (tt, fs') /\
    steps (alone c fs (MapWriting t ((fun j => in_bucket n j (kva mapf names fs0 i)) <$> seq 0 n) j))
          (alone c fs' (MapWriting t ((fun j => in_bucket n j (kva mapf names fs0 i)) <$> seq 0 n) n)).
Proof.
  intros Hinv Ht. revert j fs Hinv. induction k as [|k IH]; intros j fs Hinv Hjk.
  - exists fs. split; [done|]. by assert (j = n) as -> by lia.
  - assert (Hstep : world_step mapf reducef
      (alone c fs (MapWriting t ((fun j => in_bucket n j (kva mapf names fs0 i)) <$> seq 0 n) j))
      (alone c (written (mid i j) (Mid mapf names n fs0 i j) fs)
         (MapWriting t ((fun j => in_bucket n j (kva mapf names fs0 i)) <$> seq 0 n) (S j)))).
    { eapply (ws_write mapf reducef (alone c fs _) 0); [done| |by apply doMapperTask_write_run].
      rewrite list_lookup_fmap, lookup_seq_lt by lia. done. }
    destruct (IH (S j) (written (mid i j) (Mid mapf names n fs0 i j) fs)) as (fs' & Hrun & Hs).
    + by eapply world_step_inv.
    + lia.
    + exists fs'. split; [|by eapply rtc_l]. cbn [seq fmap list_fmap imap forM]. rewrite Nat.add_0_r.
      unfold bind. rewrite (doMapperTask_write_run mapf names n fs0 i t j fs Ht). rewrite <-Hrun. f_equal.
      apply imap_ext. intros p kvs _. cbn. by rewrite Nat.add_succ_r.
Qed.

(** A timer that fires or not before a report. *)
Lemma map_timer late t i c c' fs s : inv (alone c fs s) -> map_task names n i t ->
  (if late : bool then mapperTimeoutFun (m_Index t) else ret tt) c = Some (tt, c') -> inv (alone c' fs s).
Proof.
  intros Hinv (Hi & Hx & _) Ht. destruct late; [|by injection Ht as <-].
  eapply world_step_inv; [done|done|done|exact Hinv|]. apply (ws_map_timeout mapf reducef (alone c fs s) (m_Index t)); [|done].
  cbn [coord]. rewrite (job_mappers_length names n) by exact (ji_tasks _ _ _ _ _ _ Hinv). lia.
Qed.
Lemma reduce_timer late t r c c' fs s : inv (alone c fs s) -> reduce_task names n r t ->
  (if late : bool then reducerTimeoutFun (r_Index t) else ret tt) c = Some (tt, c') -> inv (alone c' fs s).
Proof.
  intros Hinv (Hi & Hx & _) Ht. destruct late; [|by injection Ht as <-].
  eapply world_step_inv; [done|done|done|exact Hinv|]. apply (ws_reduce_timeout mapf reducef (alone c fs s) (r_Index t)); [|done].
  cbn [coord]. rewrite (job_reducers_length names n) by exact (ji_tasks _ _ _ _ _ _ Hinv). lia.
Qed.

(** What a round does to the coordinator. *)
Definition serve_round (late : bool) : M Coordinator unit := if late then serve_late else serve.

(** One round of the loop, when the job is not done: one round for the coordinator, and
    steps of the job for all. *)
Lemma worker_round c fs c' late rounds :
  inv (alone c fs Idle) -> Done c = false -> serve_round late c = Some (tt, c') ->
  exists fs', Worker mapf reducef (late :: rounds) (c, fs) = Worker mapf reducef rounds (c', fs') /\
    inv (alone c' fs' Idle).
Proof.
  intros Hinv Hd Hserve.
  assert (Hserve' : (let! resp := FetchTask in
    match f_MapperTask resp, f_ReducerTask resp with
    | Some t, _ => do! (if late : bool then mapperTimeoutFun (m_Index t) else ret tt); UpdateTask (mkUpdateTaskRequest (Some t) None)
    | None, Some t => do! (if late then reducerTimeoutFun (r_Index t) else ret tt); UpdateTask (mkUpdateTaskRequest None (Some t))
    | None, None => ret tt
    end) c = Some (tt, c')) by (by destruct late).
  clear Hserve. rename Hserve' into Hserve. unfold bind at 1 in Hserve.
  destruct (FetchTask c) as [[resp c1]|] eqn:Hf; [|done].
  pose proof (FetchTask_good c (ji_wf _ _ _ _ _ _ Hinv)) as Hg. eapply wp_run in Hg; [|exact Hf].
  destruct Hg as (_ & _ & Hm & Hr & Hall).
  assert (Hnf : f_AllFinished resp = false).
  { destruct (f_AllFinished resp); [|done]. rewrite (proj1 Hall eq_refl) in Hd. done. }
  assert (Hinv1 : inv (alone c1 fs (next_state resp))).
  { eapply world_step_inv; [done|done|done|exact Hinv|]. by apply (ws_fetch mapf reducef (alone c fs Idle) 0). }
  unfold next_state in Hinv1. rewrite Hnf in Hinv1. cbn [Worker]. unfold CallFetchTask, on_coordinator, bind at 1.
  rewrite Hf, Hnf. destruct (f_MapperTask resp) as [t|] eqn:Et.
  - assert (f_ReducerTask resp = None) as ->.
    { destruct (f_ReducerTask resp) as [t'|]; [|done].
      destruct (Hm t eq_refl) as [? _], (Hr t' eq_refl) as [? _]. congruence. }
    destruct (ji_workers _ _ _ _ _ _ Hinv1 0 _ eq_refl) as [i Ht].
    pose proof (doMapperTask_map_run mapf reducef names n fs0 Hn Hfiles _ i t Hinv1 Ht) as Hmap. cbn in Hmap.
    assert (Hinv2 : inv (alone c1 fs (MapWriting t ((fun j => in_bucket n j (kva mapf names fs0 i)) <$> seq 0 n) 0))).
    { eapply world_step_inv; [done|done|done|exact Hinv1|].
      pose proof (ws_map mapf reducef (alone c1 fs (MapTask t)) 0 t eq_refl) as Hs. cbn in Hs. by rewrite Hmap in Hs. }
    destruct (writing_steps i t c1 fs 0 n Hinv2 Ht eq_refl) as (fs' & Hrun & Hs).
    assert (Hinv3 := world_steps_inv _ _ _ _ _ Hn Hfiles Hvalid _ _ Hinv2 Hs).
    assert (Htask : doMapperTask mapf t fs = Some (tt, fs')).
    { unfold doMapperTask, bind. rewrite Hmap. exact Hrun. }
    unfold bind in Hserve.
    destruct ((if late then mapperTimeoutFun (m_Index t) else ret tt) c1) as [[[] c2]|] eqn:Htimer; [|done].
    pose proof (map_timer late t i c1 c2 fs' _ Hinv3 Ht Htimer) as Hinv4.
    exists fs'. split.
    + unfold bind, on_files, CallUpdateTaskForMapper, on_coordinator. rewrite Htask.
      destruct late; [by rewrite Htimer, Hserve|]. injection Htimer as <-. unfold ret at 1. by rewrite Hserve.
    + eapply world_step_inv; [done|done|done|exact Hinv4|]. eapply (ws_report_map mapf reducef (alone c2 fs' _) 0 t
        ((fun j => in_bucket n j (kva mapf names fs0 i)) <$> seq 0 n)); [|exact Hserve].
      cbn. by rewrite length_fmap, length_seq.
  - destruct (f_ReducerTask resp) as [t|] eqn:Er.
    + destruct (ji_workers _ _ _ _ _ _ Hinv1 0 _ eq_refl) as (Hmf & r & Ht).
      pose proof (doReducerTask_run mapf reducef names n fs0 Hn Hfiles Hvalid _ r t Hinv1 Hmf Ht) as Htask. cbn in Htask.
      unfold bind in Hserve.
      destruct ((if late then reducerTimeoutFun (r_Index t) else ret tt) c1) as [[[] c2]|] eqn:Htimer; [|done].
      eexists. split.
      * unfold bind, on_files, CallUpdateTaskForReducer, on_coordinator. unfold ret at 1. rewrite Htask.
        destruct late; [by rewrite Htimer, Hserve|]. injection Htimer as <-. unfold ret at 1. by rewrite Hserve.
      * assert (Hinv2 : inv (alone c1 (written (out r) (Out mapf reducef names n fs0 r) fs) (ReduceWritten t))).
        { eapply world_step_inv; [done|done|done|exact Hinv1|].
          pose proof (ws_reduce mapf reducef (alone c1 fs (ReduceTask t)) 0 t eq_refl) as Hs. cbn in Hs.
          by rewrite Htask in Hs. }
        pose proof (reduce_timer late t r c1 c2 _ _ Hinv2 Ht Htimer) as Hinv3.
        eapply world_step_inv; [done|done|done|exact Hinv3|]. by eapply (ws_report_reduce mapf reducef (alone c2 _ _) 0).
    + exists fs. unfold ret in Hserve. injection Hserve as <-. by split.
Qed.

(** Rounds in which the worker reports in time. *)
Definition in_time (rounds : list bool) : nat := length (filter (fun late => late = false) rounds).
Lemma in_time_cons late rounds : in_time (late :: rounds) = ((if late then 0 else 1) + in_time rounds)%nat.
Proof. unfold in_time. rewrite filter_cons. by destruct late. Qed.

Lemma worker_runs rounds c fs :
  inv (alone c fs Idle) -> idle c -> (left_m (Mappers c) + left_r (Reducers c) < in_time rounds)%nat ->
  exists c' fs', Worker mapf reducef rounds (c, fs) = Some (true, (c', fs')) /\
    inv (alone c' fs' Idle) /\ Done c' = true.
Proof.
  revert c fs. induction rounds as [|late rounds IH]; intros c fs Hinv Hid Hk; [cbn in Hk; lia|].
  destruct (Done c) eqn:Hd.
  - exists c, fs. split; [|done]. cbn. unfold CallFetchTask, on_coordinator, bind, FetchTask, bind, get.
    apply andb_true_iff in Hd as [-> ->]. done.
  - assert (exists c1, serve_round late c = Some (tt, c1) /\ idle c1 /\
      (left_m (Mappers c1) + left_r (Reducers c1) < in_time rounds)%nat) as (c1 & Hserve & Hid1 & Hleft).
    { rewrite in_time_cons in Hk. destruct late; cbn [serve_round].
      - destruct (proj1 (wp_runs _ _ _) (serve_late_idle c Hid)) as ([] & c1 & Hserve & Hid1 & Hl1 & Hl2).
        exists c1. split_and!; [done|done|lia].
      - destruct (proj1 (wp_runs _ _ _) (serve_progress c Hid Hd)) as ([] & c1 & Hserve & Hid1 & Hleft).
        exists c1. split_and!; [done|done|lia]. }
    destruct (worker_round c fs c1 late rounds Hinv Hd Hserve) as (fs1 & -> & Hinv1). by apply IH.
Qed.
End worker.

Section theorems.
Context {J : Json} {JL : JsonLaws} {SB : SortByKey} {SBL : SortByKeyLaws}.
Variables (mapf : string -> string -> list KeyValue) (reducef : string -> list string -> string).

(** The inputs of a job: files that exist, are not files of the job itself, and whose
    pairs survive JSON. *)
Definition job_input (names : list string) (fs0 : Files) : Prop :=
  (forall f, f ∈ names -> is_Some (fs0 !! f) /\ foreign f = true) /\
  (forall i, Forall json_valid (kva mapf names fs0 i)).

(** A reduce function that does not depend on the order of the values. *)
Definition order_insensitive : Prop := forall k vs vs', vs ≡ₚ vs' -> reducef k vs = reducef k vs'.

(** The output files of the job hold, together, the lines of the sequential program,
    and these are one line per key, on all values of the key. *)
Definition right_output (names : list string) (n : nat) (fs0 fs : Files) : Prop :=
  exists (outs : nat -> list string) (sequential : list string) fs',
    (forall r, (r < n)%nat -> fs !! output_name (Z.of_nat r) = Some (concat_string (outs r))) /\
    mrsequential_main mapf reducef names fs0 = Some (tt, fs') /\
    fs' !! "mr-out-0" = Some (concat_string sequential) /\
    (seq 0 n ≫= outs) ≡ₚ lines reducef (all_pairs mapf names fs0) /\
    sequential ≡ₚ lines reducef (all_pairs mapf names fs0).

Lemma done_right_output names n fs0 w : (0 < n)%nat -> job_input names fs0 -> order_insensitive ->
  job_inv mapf reducef names n fs0 w -> Done (coord w) = true -> right_output names n fs0 (files w).
Proof.
  intros Hn [Hf Hv] Hred Hinv Hd.
  exists (fun r => lines reducef (sort_ByKey (read_pairs mapf names n fs0 r))),
    (lines reducef (sort_ByKey (all_pairs mapf names fs0))). eexists. split_and!.
  - intros r Hr. by apply (job_done_outputs mapf reducef names n fs0 w r).
  - by apply (sequential_run mapf reducef names n fs0).
  - by rewrite lookup_insert_eq.
  - by apply outputs_lines.
  - apply lines_perm; [done|]. apply sort_ByKey_perm.
Qed.

(** C26: total correctness of one worker, for a job with at least one input file and one
    reduce task, input files that exist and whose pairs survive JSON, and a reduce function
    that does not depend on the order of the values. Alone with the coordinator, [Worker]
    does not fail and, whichever rounds its tasks take more than 10 s in (the coordinator
    then takes the task back, ignores the report and hands the task out again), returns
    when it has had one round in time per task and one more, with the job done and the
    output right. *)
Theorem worker_completes_job names n fs0 rounds :
  names <> [] -> (0 < n)%nat -> job_input names fs0 -> order_insensitive ->
  (length names + n < in_time rounds)%nat ->
  exists c fs, Worker mapf reducef rounds (MakeCoordinator names n, fs0) = Some (true, (c, fs)) /\
    Done c = true /\ right_output names n fs0 fs.
Proof.
  intros Hne Hn Hin Hred Hrounds. pose proof Hin as [Hf Hv].
  destruct (worker_runs mapf reducef names n fs0 Hn Hf Hv rounds (MakeCoordinator names n) fs0)
    as (c & fs & Hrun & Hinv & Hd).
  - eapply world_step_inv; [done|done|done| |exact (ws_start mapf reducef (mkWorld (MakeCoordinator names n) fs0 []))].
    by apply job_init_inv.
  - by apply init_idle.
  - by rewrite init_left.
  - exists c, fs. split_and!; [done|done|]. by apply (done_right_output names n fs0 (mkWorld c fs [Idle])).
Qed.
End theorems.
