(* ===== verification/MrApps.v ===== *)
(** * mrapps/wc.go and mrapps/indexer.go, and instances of the worker's interfaces

    The two applications as map and reduce functions, for text of ASCII characters
    (where [unicode.IsLetter] is [A]-[Z] and [a]-[z]); what their output lines say; and
    a JSON codec and a sort that satisfy the interfaces of the worker, so that whole
    jobs evaluate. *)
From stdpp Require Import sorting pretty.
From Stdlib Require Import Ascii.
From S2P Require Import Prelude MrCoordinator MrProps MapReduce MapReduceData Names MrJob MrJobProps.

(** ** strings.FieldsFunc *)

Definition isLetter (c : ascii) : bool :=
  let n := byte_Z c in
  bool_decide (65 <= n <= 90) || bool_decide (97 <= n <= 122).

Fixpoint FieldsFunc (f : ascii -> bool) (s word : string) : list string :=
  match s with
  | EmptyString => if decide (word = "") then [] else [word]
  | String c s =>
      if f c then (if decide (word = "") then FieldsFunc f s "" else word :: FieldsFunc f s "")
      else FieldsFunc f s (word +:+ String c "")
  end.
Definition words (contents : string) : list string := FieldsFunc (fun r => negb (isLetter r)) contents "".

(** The words of a text are its maximal runs of letters, in order. *)
Inductive split_words (letter : ascii -> bool) : string -> list string -> Prop :=
  | sw_nil : split_words letter "" []
  | sw_gap c s ws : letter c = false -> split_words letter s ws -> split_words letter (String c s) ws
  | sw_last w : w <> "" -> all_chars (fun c => letter c = true) w -> split_words letter w [w]
  | sw_word w c s ws : w <> "" -> all_chars (fun c => letter c = true) w -> letter c = false ->
      split_words letter s ws -> split_words letter (w +:+ String c s) (w :: ws).

Lemma FieldsFunc_split letter s word : all_chars (fun c => letter c = true) word ->
  split_words letter (word +:+ s) (FieldsFunc (fun r => negb (letter r)) s word).
Proof.
  revert word. induction s as [|c s IH]; intros word Hw; cbn.
  - rewrite string_app_nil. case_decide; [subst; constructor|by constructor].
  - destruct (letter c) eqn:Hc; cbn.
    + change (word +:+ String c s) with (word +:+ (String c "" +:+ s)). rewrite <-string_app_assoc.
      apply IH. rewrite all_chars_app. by cbn.
    + case_decide as E.
      * subst. apply sw_gap; [done|]. by apply (IH "").
      * apply sw_word; try done. by apply (IH "").
Qed.

(** ** wc *)
Module Wc.
Definition Map (filename contents : string) : list KeyValue :=
  (fun w => mkKeyValue w "1") <$> words contents.
Definition Reduce (key : string) (values : list string) : string := pretty (length values).
End Wc.

(** ** indexer *)
Module Indexer.
(** [for w := range m]: the words in an order Go leaves open. *)
Definition word_set (value : string) : gmap string bool :=
  foldl (fun m w => <[w := true]> m) ∅ (words value).
Definition Map `{MapOrder} (document value : string) : list KeyValue :=
  (fun '(w, _) => mkKeyValue w document) <$> range (word_set value).
Definition sort_Strings (values : list string) : list string := merge_sort String.le values.
Definition Reduce (key : string) (values : list string) : string :=
  let values := sort_Strings values in
  pretty (length values) +:+ " " +:+ String.concat "," values.
End Indexer.

(** Neither reduce function depends on the order of its values. *)
Lemma wc_order_insensitive : order_insensitive Wc.Reduce.
Proof. intros k vs vs' Hp. unfold Wc.Reduce. by rewrite Hp. Qed.

Lemma sort_Strings_perm vs vs' : vs ≡ₚ vs' -> Indexer.sort_Strings vs = Indexer.sort_Strings vs'.
Proof.
  intros Hp. unfold Indexer.sort_Strings. apply (StronglySorted_unique String.le).
  - by apply (StronglySorted_merge_sort String.le).
  - by apply (StronglySorted_merge_sort String.le).
  - by rewrite !merge_sort_Permutation.
Qed.
Lemma indexer_order_insensitive : order_insensitive Indexer.Reduce.
Proof. intros k vs vs' Hp. unfold Indexer.Reduce. by rewrite (sort_Strings_perm vs vs' Hp). Qed.

(** *** What the lines say *)

(** The words of all inputs. *)
Definition all_words (names : list string) (fs0 : Files) : list string :=
  names ≫= fun f => words (default "" (fs0 !! f)).

Lemma wc_pairs names fs0 :
  all_pairs Wc.Map names fs0 = (fun w => mkKeyValue w "1") <$> all_words names fs0.
Proof.
  unfold all_pairs, all_words, Wc.Map. symmetry. apply fmap_bind.
Qed.

Lemma filter_fmap_length_under {A B} (f : A -> B) (P : B -> Prop) `{!forall x, Decision (P x)} l :
  length (filter P (f <$> l)) = length (filter (fun x => P (f x)) l).
Proof.
  induction l as [|x l IH]; [done|]. rewrite fmap_cons, !filter_cons. case_decide; cbn; congruence.
Qed.

Lemma word_set_spec value w : is_Some (Indexer.word_set value !! w) <-> w ∈ words value.
Proof.
  unfold Indexer.word_set.
  assert (Hgen : forall l (m : gmap string bool),
    is_Some (foldl (fun m w => <[w := true]> m) m l !! w) <-> is_Some (m !! w) \/ w ∈ l).
  { induction l as [|x l IH]; intros m; cbn; [set_solver|].
    rewrite IH. destruct (decide (x = w)) as [->|Hne].
    - rewrite lookup_insert_eq. split; [set_solver|]. intros _. left. by eexists.
    - rewrite lookup_insert_ne by done. set_solver. }
  rewrite Hgen. rewrite lookup_empty. split; [intros [[? [=]]|?]|]; auto.
Qed.

Lemma NoDup_filter_eq {A} `{EqDecision A} (l : list A) x :
  NoDup l -> length (filter (fun y => y = x) l) = if decide (x ∈ l) then 1%nat else 0%nat.
Proof.
  induction 1 as [|y l Hy _ IH]; [case_decide; [set_solver|done]|]. rewrite filter_cons.
  destruct (decide (y = x)) as [->|Hne].
  - cbn. rewrite IH. rewrite decide_False by done. by rewrite decide_True by set_solver.
  - rewrite IH. repeat case_decide; try done; set_solver.
Qed.

Lemma indexer_values `{MapOrderLaws} w f value :
  values_of w (Indexer.Map f value) = if decide (w ∈ words value) then [f] else [].
Proof.
  assert (Hall : Forall (fun v => v = f) (values_of w (Indexer.Map f value))).
  { apply Forall_forall. unfold values_of, Indexer.Map.
    intros v (kv & -> & [_ Hin]%list_elem_of_filter)%list_elem_of_fmap.
    apply list_elem_of_fmap in Hin as ([k b] & -> & _). done. }
  assert (Hlen : length (values_of w (Indexer.Map f value)) = if decide (w ∈ words value) then 1%nat else 0%nat).
  { unfold values_of, Indexer.Map. rewrite length_fmap, filter_fmap_length_under.
    rewrite <-(length_fmap fst).
    transitivity (length (filter (fun y => y = w) (fst <$> range (Indexer.word_set value)))).
    - rewrite filter_fmap_length_under, length_fmap. f_equal. apply list_filter_iff. intros [k b]. done.
    - rewrite NoDup_filter_eq.
      + assert (Hiff : w ∈ fst <$> range (Indexer.word_set value) <-> w ∈ words value).
        { rewrite <-word_set_spec, list_elem_of_fmap. split.
          - intros ([k b] & -> & Hin%elem_of_range). by exists b.
          - intros [b Hb%elem_of_range]. by exists (w, b). }
        repeat case_decide; tauto.
      + rewrite range_keys. apply NoDup_fst_map_to_list. }
  destruct (decide _) as [Hw|Hw].
  - destruct (values_of w _) as [|v [|]]; try done. apply Forall_cons in Hall as [-> _]. done.
  - by destruct (values_of w _).
Qed.

Lemma indexer_all_values `{MapOrderLaws} w names fs0 :
  values_of w (all_pairs Indexer.Map names fs0) =
    filter (fun f => w ∈ words (default "" (fs0 !! f))) names.
Proof.
  unfold all_pairs. induction names as [|f l IH]; [done|].
  rewrite bind_cons, values_of_app, indexer_values, IH, filter_cons. by case_decide.
Qed.

(** Word count. The text is cut into its maximal runs of letters, and the output
    has, for every word that occurs in the inputs, exactly one line, with the number
    of its occurrences in all inputs. *)
Theorem wc_counts_words names fs0 :
  (forall f, split_words isLetter f (words f)) /\
  lines Wc.Reduce (all_pairs Wc.Map names fs0) =
    (fun w => reduce_line w (pretty (length (filter (fun x => x = w) (all_words names fs0)))))
      <$> remove_dups (all_words names fs0).
Proof.
  split; [intros f; by apply (FieldsFunc_split isLetter f "")|].
  unfold lines. rewrite wc_pairs, <-list_fmap_compose. unfold compose. cbn [Key]. rewrite list_fmap_id.
  apply list_fmap_ext. intros i w _. unfold Wc.Reduce, values_of. by rewrite length_fmap, filter_fmap_length_under.
Qed.

(** The inverted index. Whatever order Go ranges over its maps in, the output has
    one line per word that occurs in some document, with the number of documents that
    contain the word and their names in sorted order. *)
Theorem indexer_lists_documents `{MapOrderLaws} names fs0 w :
  let documents := filter (fun f => w ∈ words (default "" (fs0 !! f))) names in
  Indexer.Reduce w (values_of w (all_pairs Indexer.Map names fs0)) =
    pretty (length documents) +:+ " " +:+ String.concat "," (merge_sort String.le documents) /\
  (w ∈ Key <$> all_pairs Indexer.Map names fs0 <-> documents <> []).
Proof.
  cbn. rewrite indexer_all_values. split.
  - unfold Indexer.Reduce, Indexer.sort_Strings. by rewrite merge_sort_Permutation at 1.
  - rewrite <-indexer_all_values. rewrite list_elem_of_fmap. unfold values_of. split.
    + intros (kv & -> & Hin) E. apply fmap_nil_inv in E.
      assert (Hf : kv ∈ filter (fun x => Key x = Key kv) (all_pairs Indexer.Map names fs0))
        by (by apply list_elem_of_filter). rewrite E in Hf. set_solver.
    + intros Hne. destruct (filter _ _) as [|kv l] eqn:E; [done|].
      assert (Hf : kv ∈ filter (fun x => Key x = w) (all_pairs Indexer.Map names fs0)) by (rewrite E; set_solver).
      apply list_elem_of_filter in Hf as [<- Hin]. by exists kv.
Qed.

(** ** encoding/json on pairs of ASCII strings

    The encoder escapes the quote, the backslash, control characters and the three
    HTML characters; the newline that ends a value is taken with it. *)
Module AsciiJson.
Definition quote : ascii := "034"%char.
Definition backslash : ascii := "092"%char.
Definition newline : ascii := "010"%char.

Definition hex (n : N) : ascii := if (n <? 10)%N then ascii_of_N (48 + n) else ascii_of_N (87 + n).
Definition unhex (c : ascii) : option N :=
  let n := N_of_ascii c in
  if (48 <=? n)%N && (n <=? 57)%N then Some (n - 48)%N
  else if (97 <=? n)%N && (n <=? 102)%N then Some (n - 87)%N else None.

Definition escape (c : ascii) : string :=
  let n := N_of_ascii c in
  if bool_decide (c = quote) then String backslash (String quote "")
  else if bool_decide (c = backslash) then String backslash (String backslash "")
  else if bool_decide (c = newline) then String backslash "n"
  else if bool_decide (c = "013"%char) then String backslash "r"
  else if bool_decide (c = "009"%char) then String backslash "t"
  else if (n <? 32)%N || bool_decide (c = "<"%char) || bool_decide (c = ">"%char) || bool_decide (c = "&"%char)
  then String backslash (String "u" (String "0" (String "0" (String (hex (n / 16)) (String (hex (n mod 16)) "")))))
  else String c "".

Fixpoint escape_all (s : string) : string :=
  match s with EmptyString => "" | String c s => escape c +:+ escape_all s end.

(** The body of a string literal, up to its closing quote. *)
Fixpoint body (s : string) : option (string * string) :=
  match s with
  | EmptyString => None
  | String c s =>
      if bool_decide (c = quote) then Some ("", s)
      else if bool_decide (c = backslash) then
        match s with
        | String e s =>
            if bool_decide (e = "u"%char) then
              match s with
              | String _ (String _ (String h (String l s))) =>
                  match unhex h, unhex l, body s with
                  | Some h, Some l, Some (t, rest) => Some (String (ascii_of_N (16 * h + l)) t, rest)
                  | _, _, _ => None
                  end
              | _ => None
              end
            else
              let e := if bool_decide (e = "n"%char) then newline
                       else if bool_decide (e = "r"%char) then "013"%char
                       else if bool_decide (e = "t"%char) then "009"%char else e in
              match body s with Some (t, rest) => Some (String e t, rest) | None => None end
        | EmptyString => None
        end
      else match body s with Some (t, rest) => Some (String c t, rest) | None => None end
  end.

Fixpoint expect (lit s : string) : option string :=
  match lit, s with
  | EmptyString, _ => Some s
  | String c lit, String d s => if bool_decide (c = d) then expect lit s else None
  | String _ _, EmptyString => None
  end.

Definition head_lit : string := String "{" (String quote ("Key" +:+ String quote (String ":" (String quote "")))).
Definition mid_lit : string := String "," (String quote ("Value" +:+ String quote (String ":" (String quote "")))).
Definition tail_lit : string := String "}" (String newline "").

Definition encode (kv : KeyValue) : string :=
  head_lit +:+ escape_all (Key kv) +:+ String quote (mid_lit +:+ escape_all (Value kv) +:+ String quote tail_lit).
Definition decode (s : string) : option (KeyValue * string) :=
  match expect head_lit s with
  | Some s =>
      match body s with
      | Some (key, s) =>
          match expect mid_lit s with
          | Some s =>
              match body s with
              | Some (value, s) =>
                  match expect tail_lit s with
                  | Some rest => Some (mkKeyValue key value, rest) | None => None end
              | None => None
              end
          | None => None
          end
      | None => None
      end
  | None => None
  end.

Definition is_ascii (s : string) : Prop := all_chars (fun c => (N_of_ascii c < 128)%N) s.

Lemma body_escape c s : (N_of_ascii c < 128)%N ->
  body (escape c +:+ s) = match body s with Some (t, rest) => Some (String c t, rest) | None => None end.
Proof.
  destruct c as [b0 b1 b2 b3 b4 b5 b6 b7].
  destruct b0, b1, b2, b3, b4, b5, b6, b7; intros Hlt; try (vm_compute in Hlt; discriminate Hlt); reflexivity.
Qed.

Lemma body_escape_all s rest : is_ascii s ->
  body (escape_all s +:+ String quote rest) = Some (s, rest).
Proof.
  induction s as [|c s IH]; [done|]. intros [Hc Hs]. cbn [escape_all].
  rewrite string_app_assoc, body_escape, IH by done. done.
Qed.

Lemma expect_app lit s : expect lit (lit +:+ s) = Some s.
Proof.
  induction lit as [|c lit IH]; [done|]. change (String c lit +:+ s) with (String c (lit +:+ s)).
  cbn [expect]. by rewrite bool_decide_eq_true_2.
Qed.

Lemma expect_length lit s rest : expect lit s = Some rest ->
  (String.length rest + String.length lit <= String.length s)%nat.
Proof.
  revert s. induction lit as [|c lit IH]; intros s E.
  - destruct s; injection E as <-; cbn; lia.
  - destruct s as [|d s]; [done|]. cbn in E. case_bool_decide; [|done]. apply IH in E. cbn. lia.
Qed.

Lemma body_length s t rest : body s = Some (t, rest) -> (String.length rest <= String.length s)%nat.
Proof.
  assert (Hgen : forall n s t rest, (String.length s <= n)%nat -> body s = Some (t, rest) ->
    (String.length rest <= String.length s)%nat); [|by eapply Hgen].
  clear. induction n as [|n IH]; intros [|c s] t rest Hn; cbn in Hn; try done; try lia.
  cbn [body]. case_bool_decide; [intros [= <- <-]; cbn; lia|]. case_bool_decide.
  - destruct s as [|e s]; [done|]. cbn in Hn. case_bool_decide.
    + destruct s as [|a [|b [|h [|l s]]]]; try done. cbn in Hn.
      destruct (unhex h), (unhex l), (body s) as [[t' r]|] eqn:E; try done.
      intros [= <- <-]. apply IH in E; [|lia]. cbn. lia.
    + destruct (body s) as [[t' r]|] eqn:E; [|done]. intros [= <- <-]. apply IH in E; [|lia]. cbn. lia.
  - destruct (body s) as [[t' r]|] eqn:E; [|done]. intros [= <- <-]. apply IH in E; [|lia]. cbn. lia.
Qed.

#[export] Instance json : Json := {|
  json_Encode := encode; json_Decode := decode;
  json_valid kv := is_ascii (Key kv) /\ is_ascii (Value kv)
|}.
#[export] Instance json_laws : JsonLaws.
Proof.
  split; cbn.
  - intros [k v] rest [Hk Hv]. unfold encode, decode. cbn in Hk, Hv. cbn [Key Value].
    rewrite !string_app_assoc, expect_app.
    change (String quote (mid_lit +:+ escape_all v +:+ String quote tail_lit) +:+ rest)
      with (String quote ((mid_lit +:+ escape_all v +:+ String quote tail_lit) +:+ rest)).
    rewrite body_escape_all by done. rewrite !string_app_assoc, expect_app.
    change (String quote tail_lit +:+ rest) with (String quote (tail_lit +:+ rest)).
    rewrite body_escape_all by done. by rewrite expect_app.
  - done.
  - intros s kv rest. unfold decode. destruct (expect head_lit s) as [s1|] eqn:E1; [|done].
    destruct (body s1) as [[k s2]|] eqn:E2; [|done]. destruct (expect mid_lit s2) as [s3|] eqn:E3; [|done].
    destruct (body s3) as [[v s4]|] eqn:E4; [|done]. destruct (expect tail_lit s4) as [s5|] eqn:E5; [|done].
    intros [= <- <-]. apply expect_length in E1, E3, E5. apply body_length in E2, E4.
    change (String.length head_lit) with 8%nat in E1. change (String.length mid_lit) with 10%nat in E3. lia.
Qed.
End AsciiJson.
#[export] Existing Instances AsciiJson.json AsciiJson.json_laws.

(** ** A sort *)
#[export] Instance key_le_total : Total key_le.
Proof. intros a b. apply (total String.le). Qed.
#[export] Instance key_le_trans : Transitive key_le.
Proof. intros a b c. apply (transitivity (R := String.le)). Qed.

#[export] Instance merge_ByKey : SortByKey := merge_sort key_le.
#[export] Instance merge_ByKey_laws : SortByKeyLaws.
Proof.
  split; intros kvs; [apply merge_sort_Permutation|by apply (StronglySorted_merge_sort key_le)].
Qed.

(** ** Witnesses: word count of one file *)
Module Example_wc.
Definition names : list string := ["t"].
Definition fs0 : Files := {["t" := "a b, a"]}.

Lemma input : job_input Wc.Map names fs0.
Proof.
  split.
  - intros f Hf. apply list_elem_of_singleton in Hf as ->. split; [by eexists|done].
  - intros [|i]; [|by destruct i]. vm_compute. repeat constructor.
Qed.
End Example_wc.

Lemma worker_completes_job_witness :
  exists c fs, Worker Wc.Map Wc.Reduce [true; false; true; false; false] (MakeCoordinator Example_wc.names 1, Example_wc.fs0) =
      Some (true, (c, fs)) /\
    Done c = true /\ right_output Wc.Map Wc.Reduce Example_wc.names 1 Example_wc.fs0 fs.
Proof.
  apply (worker_completes_job Wc.Map Wc.Reduce Example_wc.names 1 Example_wc.fs0);
    [done|lia|apply Example_wc.input|apply wc_order_insensitive|vm_compute; lia].
Defined.

Lemma indexer_lists_documents_witness :
  Indexer.Reduce "a" (values_of "a" (all_pairs (Indexer.Map (H := list_order)) Example_wc.names Example_wc.fs0)) =
    "1 t".
Proof.
  rewrite (proj1 (indexer_lists_documents (H := list_order) Example_wc.names Example_wc.fs0 "a")).
  vm_compute. reflexivity.
Defined.

(** The run of [Worker] on the example, to the end. *)
Example wc_run : (fun '(b, (_, fs)) => (b, fs !! "mr-out-0")) <$>
    Worker Wc.Map Wc.Reduce [false; true; false; false] (MakeCoordinator Example_wc.names 1, Example_wc.fs0) =
  Some (true, Some (reduce_line "a" "2" +:+ reduce_line "b" "1")).
Proof. vm_compute. reflexivity. Qed.
