(* ===== verification/MrFine.v ===== *)
(** * MapReduce workers write by write

    [MrJob] takes writing a file with its rename as one step. Here a worker creates the
    temporary file, writes to it piece by piece through its descriptor, and renames it, and
    may die in between or be interleaved with others. A directory maps names to inodes; a
    descriptor is an inode and an offset, and goes on working when the file is renamed or
    truncated by somebody else. Reading the input files of a task is one step. An
    application may end its process or answer ([None] or [Some]), depending on what it
    draws ([D]). [exclusive_step] are the steps after which no two workers have one
    temporary file open, [prompt_step] those in which only tasks of dead workers time out;
    [MrFineProps] proves what they lead to, [MrPlugins] shows what happens otherwise. *)
From Stdlib Require Import Ascii.
From S2P Require Import Prelude MrCoordinator MrProps MapReduce MapReduceData Names MrJob MrJobProps.

(** ** The file system *)

Record FS := mkFS { dir : gmap string nat; inodes : list string }.

Definition read_fs (fs : FS) : Files := omap (fun ino => inodes fs !! ino) (dir fs).
Definition fs_of (l : list (string * string)) : FS :=
  mkFS (list_to_map (imap (fun i p => (p.1, i)) l)) (snd <$> l).

Fixpoint zeros (n : nat) : string := match n with O => "" | S n => String "000"%char (zeros n) end.

(** Writing at an offset, which may be behind the end. *)
Definition write_at (off : nat) (s old : string) : string :=
  String.substring 0 off old +:+ zeros (off - String.length old) +:+ s +:+
  String.substring (off + String.length s) (String.length old - (off + String.length s)) old.

(** [os.Create] truncates a file that exists. *)
Definition Create (name : string) (fs : FS) : nat * FS :=
  match dir fs !! name with
  | Some ino => (ino, mkFS (dir fs) (<[ino := ""]> (inodes fs)))
  | None => (length (inodes fs), mkFS (<[name := length (inodes fs)]> (dir fs)) (inodes fs ++ [""]))
  end.
Definition Write (ino off : nat) (s : string) (fs : FS) : FS := mkFS (dir fs) (alter (write_at off s) ino (inodes fs)).
(** The workers ignore the error when [old] is not there. *)
Definition Rename (old new : string) (fs : FS) : FS :=
  match dir fs !! old with
  | Some ino => mkFS (<[new := ino]> (delete old (dir fs))) (inodes fs)
  | None => fs
  end.

(** ** Workers *)

(** [At s]: between two files. In a file: its descriptor, and what is left to write. *)
Inductive FineState :=
  | At (s : WorkerState)
  | MapFile (t : MapperTask) (arr : list (list KeyValue)) (i : nat) (ino off : nat) (todo : list KeyValue)
  | ReduceFile (t : ReducerTask) (kvs : list KeyValue) (i : nat) (ino off : nat).

Record FineWorld := mkFine {
  f_coord : Coordinator;
  f_fs : FS;
  f_workers : list FineState
}.

Inductive FineEvent (D : Type) :=
  | Run (k : nat) (d : D)
  | Kill (k : nat)
  | Launch
  | MapTimeout (index : Z)
  | ReduceTimeout (index : Z).
Arguments Run {D} k d.
Arguments Kill {D} k.
Arguments Launch {D}.
Arguments MapTimeout {D} index.
Arguments ReduceTimeout {D} index.

(** The task a worker is on. *)
Inductive Held := HeldMap (index : Z) | HeldReduce (index : Z).
Definition holds (s : FineState) : option Held :=
  match s with
  | At (MapTask t) | At (MapWriting t _ _) | MapFile t _ _ _ _ _ => Some (HeldMap (m_Index t))
  | At (ReduceTask t) | At (ReduceWritten t) | ReduceFile t _ _ _ _ => Some (HeldReduce (r_Index t))
  | At Idle | At Exited => None
  end.

(** The temporary file a worker has open. *)
Definition map_tmp (t : MapperTask) (i : nat) : string := intermediate_name (m_Index t) (Z.of_nat i) +:+ ".tmp".
Definition reduce_tmp (t : ReducerTask) : string := output_name (r_Index t) +:+ ".tmp".
Definition temp_of (s : FineState) : option string :=
  match s with
  | At _ => None
  | MapFile t _ i _ _ _ => Some (map_tmp t i)
  | ReduceFile t _ _ _ _ => Some (reduce_tmp t)
  end.

(** No two workers have the same temporary file open. *)
Definition exclusive (w : FineWorld) : Prop := NoDup (omap temp_of (f_workers w)).

Section fine.
Context {J : Json} {JL : JsonLaws} {SB : SortByKey} {SBL : SortByKeyLaws} {D : Type}.
Variables (mapf : D -> string -> string -> option (list KeyValue)) (reducef : D -> string -> list string -> option string).

(** From the call of [mapf] to the file loop. *)
Definition fine_map (d : D) (t : MapperTask) (fs : FS) : FineState :=
  match read_fs fs !! m_Inputfile t with
  | None => At Exited
  | Some content =>
      match mapf d (m_Inputfile t) content with
      | None => At Exited
      | Some kva =>
          match doMapperTask_map (fun _ _ => kva) t (read_fs fs) with
          | Some (arr, _) => At (MapWriting t arr 0)
          | None => At Exited
          end
      end
  end.

(** The next thing worker [k] does. *)
Definition worker_exec (d : D) (k : nat) (w : FineWorld) : option FineWorld :=
  let put c fs s := Some (mkFine c fs (<[k := s]> (f_workers w))) in
  let fs := f_fs w in
  match f_workers w !! k with
  | None | Some (At Exited) => None
  | Some (At Idle) =>
      match FetchTask (f_coord w) with Some (resp, c) => put c fs (At (next_state resp)) | None => None end
  | Some (At (MapTask t)) => put (f_coord w) fs (fine_map d t fs)
  | Some (At (MapWriting t arr i)) =>
      match arr !! i with
      | Some kvs => let '(ino, fs) := Create (map_tmp t i) fs in put (f_coord w) fs (MapFile t arr i ino 0 (sort_ByKey kvs))
      | None =>
          match UpdateTask (mkUpdateTaskRequest (Some t) None) (f_coord w) with
          | Some (_, c) => put c fs (At Idle) | None => None end
      end
  | Some (MapFile t arr i ino off []) =>
      put (f_coord w) (Rename (map_tmp t i) (intermediate_name (m_Index t) (Z.of_nat i)) fs) (At (MapWriting t arr (S i)))
  | Some (MapFile t arr i ino off (kv :: todo)) =>
      let s := json_Encode kv in
      put (f_coord w) (Write ino off s fs) (MapFile t arr i ino (off + String.length s) todo)
  | Some (At (ReduceTask t)) =>
      match read_intermediate (r_Index t) (seq 0 (Z.to_nat (r_MapperCount t))) [] (read_fs fs) with
      | None => put (f_coord w) fs (At Exited)
      | Some (kvs, _) =>
          let '(ino, fs) := Create (reduce_tmp t) fs in
          put (f_coord w) fs (ReduceFile t (sort_ByKey kvs) 0 ino 0)
      end
  | Some (ReduceFile t kvs i ino off) =>
      match kvs !! i with
      | None => put (f_coord w) (Rename (reduce_tmp t) (output_name (r_Index t)) fs) (At (ReduceWritten t))
      | Some ki =>
          let j := group_end (length kvs) kvs i (S i) in
          match reducef d (Key ki) (Value <$> take (j - i) (drop i kvs)) with
          | None => put (f_coord w) fs (At Exited)
          | Some output =>
              let s := reduce_line (Key ki) output in
              put (f_coord w) (Write ino off s fs) (ReduceFile t kvs j ino (off + String.length s))
          end
      end
  | Some (At (ReduceWritten t)) =>
      match UpdateTask (mkUpdateTaskRequest None (Some t)) (f_coord w) with
      | Some (_, c) => put c fs (At Idle) | None => None end
  end.

Definition fine_exec (ev : FineEvent D) (w : FineWorld) : option FineWorld :=
  match ev with
  | Run k d => worker_exec d k w
  | Kill k => Some (mkFine (f_coord w) (f_fs w) (<[k := At Exited]> (f_workers w)))
  | Launch => Some (mkFine (f_coord w) (f_fs w) (f_workers w ++ [At Idle]))
  | MapTimeout index =>
      match mapperTimeoutFun index (f_coord w) with Some (_, c) => Some (mkFine c (f_fs w) (f_workers w)) | None => None end
  | ReduceTimeout index =>
      match reducerTimeoutFun index (f_coord w) with Some (_, c) => Some (mkFine c (f_fs w) (f_workers w)) | None => None end
  end.

(** Only the tasks of dead workers time out. *)
Definition prompt (ev : FineEvent D) (w : FineWorld) : Prop :=
  match ev with
  | MapTimeout index => forall s, s ∈ f_workers w -> holds s <> Some (HeldMap index)
  | ReduceTimeout index => forall s, s ∈ f_workers w -> holds s <> Some (HeldReduce index)
  | _ => True
  end.
Definition prompt_step (w w' : FineWorld) : Prop := exists ev, prompt ev w /\ fine_exec ev w = Some w'.

(** Any task may time out, also that of a worker that is only slow. *)
Definition exclusive_step (w w' : FineWorld) : Prop := exclusive w' /\ exists ev, fine_exec ev w = Some w'.

Fixpoint fine_run (evs : list (FineEvent D)) (w : FineWorld) : option FineWorld :=
  match evs with
  | [] => Some w
  | ev :: evs => match fine_exec ev w with Some w => fine_run evs w | None => None end
  end.
End fine.
