(* ===== verification/MrFineProps.v ===== *)
(** * Jobs whose workers write piece by piece

    As long as no two workers have one temporary file open, a job of [MrFine] refines a job of
    [MrJob]: the descriptor of a worker is behind its own temporary file, which holds what it
    has written so far, and nobody else touches that file ([sim_steps]). So the output is
    right when the job is done ([mapreduce_refines_sequential]). Jobs in which only tasks of
    dead workers time out are such ([prompt_exclusive]); and whatever has happened in one, a
    worker that does not die finishes it, once the coordinator has given up on the dead ones
    ([job_survives_crashes]). *)
From S2P Require Import Prelude MrCoordinator MrProps MapReduce MapReduceData Names MrJob MrJobProps MrFine.

(** ** Strings *)

Lemma substring_all s : String.substring 0 (String.length s) s = s.
Proof. induction s as [|c s IH]; [done|]. cbn. by rewrite IH. Qed.
Lemma substring_nothing k s : String.substring k 0 s = "".
Proof. revert k. induction s as [|c s IH]; intros [|k]; cbn; auto. Qed.

Lemma write_at_end s old : write_at (String.length old) s old = old +:+ s.
Proof.
  unfold write_at. rewrite substring_all, Nat.sub_diag. replace (_ - (_ + _))%nat with 0%nat by lia.
  rewrite substring_nothing, string_app_nil. done.
Qed.

(** ** The file system *)

Record fs_ok (fs : FS) : Prop := {
  fo_bound f ino : dir fs !! f = Some ino -> (ino < length (inodes fs))%nat;
  fo_inj f f' ino : dir fs !! f = Some ino -> dir fs !! f' = Some ino -> f = f'
}.

(** An operation that leaves all names but those of [P] alone. *)
Record touches (P : string -> Prop) (fs fs' : FS) : Prop := {
  to_ok : fs_ok fs';
  to_dir f : ~ P f -> dir fs' !! f = dir fs !! f;
  to_inode f ino : ~ P f -> dir fs !! f = Some ino -> inodes fs' !! ino = inodes fs !! ino
}.

Lemma lookup_read_fs fs f : read_fs fs !! f = ino ← dir fs !! f; inodes fs !! ino.
Proof. unfold read_fs. by rewrite lookup_omap. Qed.

Lemma touches_read P fs fs' f : touches P fs fs' -> ~ P f -> read_fs fs' !! f = read_fs fs !! f.
Proof.
  intros Ht Hf. rewrite !lookup_read_fs, (to_dir _ _ _ Ht) by done. destruct (dir fs !! f) as [ino|] eqn:E; [|done].
  cbn. by eapply (to_inode _ _ _ Ht).
Qed.

Lemma Create_touches name fs : fs_ok fs -> match Create name fs with
  | (ino, fs') => touches (eq name) fs fs' /\ dir fs' !! name = Some ino /\ inodes fs' !! ino = Some "" end.
Proof.
  intros [Hb Hi]. unfold Create. destruct (dir fs !! name) as [ino|] eqn:E; (split; [split|]); cbn.
  - split; cbn; [intros f i Hf; rewrite length_insert; eauto|eauto].
  - done.
  - intros f i Hf Hd. apply list_lookup_insert_ne. intros ->. apply Hf. by eapply Hi.
  - split; [done|]. apply list_lookup_insert_eq. eauto.
  - split; cbn.
    + intros f i Hf. rewrite length_app. cbn. apply lookup_insert_Some in Hf as [[_ <-]|[_ Hf]]; [lia|]. apply Hb in Hf. lia.
    + intros f f' i Hf Hf'. apply lookup_insert_Some in Hf as [[<- <-]|[Hn Hf]], Hf' as [[<- Ei]|[Hn' Hf']]; [done| | |eauto].
      * apply Hb in Hf'. lia.
      * apply Hb in Hf. lia.
  - intros f Hf. by apply lookup_insert_ne.
  - intros f i Hf Hd. apply lookup_app_l. eauto.
  - rewrite lookup_insert_eq. split; [done|]. by apply list_lookup_middle.
Qed.

Lemma Write_touches name ino s old fs : fs_ok fs -> dir fs !! name = Some ino -> inodes fs !! ino = Some old ->
  touches (eq name) fs (Write ino (String.length old) s fs) /\ inodes (Write ino (String.length old) s fs) !! ino = Some (old +:+ s).
Proof.
  intros [Hb Hi] Hd Ho. split; [split|]; cbn.
  - split; cbn; [|eauto]. intros f i Hf. rewrite length_alter. eauto.
  - done.
  - intros f i Hf Hfi. apply list_lookup_alter_ne. intros ->. apply Hf. by eapply Hi.
  - by rewrite list_lookup_alter_eq, Ho, <-write_at_end.
Qed.

Lemma Rename_touches old new ino content fs : fs_ok fs -> old <> new -> dir fs !! old = Some ino -> inodes fs !! ino = Some content ->
  touches (fun f => f = old \/ f = new) fs (Rename old new fs) /\ read_fs (Rename old new fs) !! new = Some content.
Proof.
  intros [Hb Hi] Hne Hd Hc. unfold Rename. rewrite Hd. split; [split|].
  - split; cbn.
    + intros f i [[_ <-]|[_ [_ Hf]%lookup_delete_Some]]%lookup_insert_Some; eauto.
    + intros f f' i Hf Hf'.
      apply lookup_insert_Some in Hf as [[<- <-]|[Hn [Hx Hf]%lookup_delete_Some]], Hf' as [[<- Ei]|[Hn' [Hx' Hf']%lookup_delete_Some]]; [done| | |eauto].
      * destruct Hx'. by eapply Hi.
      * subst i. destruct Hx. by eapply Hi.
  - intros f Hf. cbn. rewrite lookup_insert_ne, lookup_delete_ne by naive_solver. done.
  - done.
  - rewrite lookup_read_fs. cbn. by rewrite lookup_insert_eq.
Qed.

(** ** The workers *)

Lemma group_end_ge fuel kvs i j : (j <= group_end fuel kvs i j)%nat.
Proof.
  revert j. induction fuel as [|fuel IH]; intros j; cbn; [done|]. destruct (kvs !! j), (kvs !! i); try done.
  case_decide; [|done]. specialize (IH (S j)). lia.
Qed.

(** Temporary files of the job. *)
Definition temp (f : string) : Prop := (exists i j, f = mid i j +:+ ".tmp") \/ exists r, f = out r +:+ ".tmp".

Lemma temp_foreign f : foreign f = true -> ~ temp f.
Proof.
  intros Hf [(i&j&->)|(r&->)].
  - destruct (foreign_ne _ i j 0 Hf) as (_&Hn&_). done.
  - destruct (foreign_ne _ 0 0 r Hf) as (_&_&_&Hn). done.
Qed.
Lemma temp_mid i j : ~ temp (mid i j).
Proof. intros [(i'&j'&E)|(r&E)]; symmetry in E; by apply tmp_ne in E; [|apply mid_dotless]. Qed.
Lemma temp_out r : ~ temp (out r).
Proof. intros [(i'&j'&E)|(r'&E)]; symmetry in E; by apply tmp_ne in E; [|apply out_dotless]. Qed.

Lemma append_inj_l (s s' t : string) : s +:+ t = s' +:+ t -> s = s'.
Proof.
  revert s'. induction s as [|c s IH]; intros [|d s'] E; [done| | |].
  - exfalso. apply (f_equal String.length) in E. change (String.length t = S (String.length (s' +:+ t))) in E. rewrite string_length_app in E. lia.
  - exfalso. apply (f_equal String.length) in E. change (S (String.length (s +:+ t)) = String.length t) in E. rewrite string_length_app in E. lia.
  - change (String c (s +:+ t) = String d (s' +:+ t)) in E. injection E as <- E. f_equal. by apply IH.
Qed.

(** What a worker of [MrJob] is doing. *)
Definition coarse (s : FineState) : WorkerState :=
  match s with
  | At s => s
  | MapFile t arr i _ _ _ => MapWriting t arr i
  | ReduceFile t _ _ _ _ => ReduceTask t
  end.

Lemma omap_NoDup_lookup {A B} (f : A -> option B) l (i j : nat) x y z : NoDup (omap f l) ->
  l !! i = Some x -> l !! j = Some y -> f x = Some z -> f y = Some z -> i = j.
Proof.
  revert i j. induction l as [|a l IH]; intros i j Hnd Hi Hj Hx Hy; [done|].
  assert (Hin : forall k v, l !! k = Some v -> f v = Some z -> z ∈ omap f l).
  { intros k v Hk Hv. apply list_elem_of_omap. exists v. split; [by eapply list_elem_of_lookup_2|done]. }
  cbn in Hnd. destruct i as [|i], j as [|j]; cbn in Hi, Hj; simplify_eq; [done| | |].
  - rewrite Hx in Hnd. apply NoDup_cons in Hnd as [Hn _]. by destruct Hn; eapply Hin.
  - rewrite Hy in Hnd. apply NoDup_cons in Hnd as [Hn _]. by destruct Hn; eapply Hin.
  - f_equal. eapply IH; [|done..]. destruct (f a); [by apply NoDup_cons in Hnd as [_ ?]|done].
Qed.
Lemma omap_NoDup_intro {A B} (f : A -> option B) l :
  (forall i j x y z, l !! i = Some x -> l !! j = Some y -> f x = Some z -> f y = Some z -> i = j) -> NoDup (omap f l).
Proof.
  induction l as [|a l IH]; intros Hx; cbn; [constructor|].
  assert (NoDup (omap f l)) as Hnd.
  { apply IH. intros i j x y z Hi Hj Hfx Hfy. by injection (Hx (S i) (S j) x y z Hi Hj Hfx Hfy). }
  destruct (f a) as [z|] eqn:E; [|done]. apply NoDup_cons. split; [|done].
  intros (y&[k Hk]%list_elem_of_lookup_1&Hy)%list_elem_of_omap. by specialize (Hx 0%nat (S k) a y z eq_refl Hk E Hy).
Qed.

(** A task the coordinator thinks somebody is on. *)
Definition assigned (c : Coordinator) (h : Held) : Prop :=
  match h with
  | HeldMap index => exists m, Mappers c !! Z.to_nat index = Some m /\ m_Assigned m = true
  | HeldReduce index => exists r, Reducers c !! Z.to_nat index = Some r /\ r_Assigned r = true
  end.

Definition natural (h : Held) : Prop := match h with HeldMap index | HeldReduce index => 0 <= index end.

(** ** What the coordinator does to assignments *)

Lemma lookup_fmap_Some {A B} (f : A -> B) (l : list A) (i : nat) x : l !! i = Some x -> (f <$> l) !! i = Some (f x).
Proof. intros E. by rewrite list_lookup_fmap, E. Qed.

Lemma report_map_assigned t c c' h : mr_wf c -> UpdateTask (mkUpdateTaskRequest (Some t) None) c = Some (tt, c') -> assigned c h -> assigned c' h.
Proof.
  intros Hwf. unfold UpdateTask. cbn [u_MapperTask u_ReducerTask].
  destruct (update_mappers_good (m_Index t) c Hwf) as (ms & b & Hrun & -> & _ & _).
  unfold bind, get, lift, modify, ret. rewrite Hrun. intros [= <-]. destruct h as [i|i]; cbn; [|done].
  intros (m&Hm&Ha). exists (reported_m (m_Index t) m). split; [by apply lookup_fmap_Some|]. unfold reported_m. by destruct (_ && negb _).
Qed.
Lemma report_reduce_assigned t c c' h : mr_wf c -> UpdateTask (mkUpdateTaskRequest None (Some t)) c = Some (tt, c') -> assigned c h -> assigned c' h.
Proof.
  intros Hwf. unfold UpdateTask. cbn [u_MapperTask u_ReducerTask].
  destruct (update_reducers_good (r_Index t) c Hwf) as (rs & b & Hrun & -> & _ & _).
  unfold bind, get, lift, modify, ret. rewrite Hrun. intros [= <-]. destruct h as [i|i]; cbn; [done|].
  intros (m&Hm&Ha). exists (reported_r (r_Index t) m). split; [by apply lookup_fmap_Some|]. unfold reported_r. by destruct (_ && negb _).
Qed.

Lemma map_timeout_assigned index c c' h : mapperTimeoutFun index c = Some (tt, c') -> 0 <= index -> h <> HeldMap index ->
  (forall i, h = HeldMap i -> 0 <= i) -> assigned c h -> assigned c' h.
Proof.
  intros Hrun Hpos Hne Hh. revert Hrun. unfold mapperTimeoutFun, bind, get, lift, modify, ret.
  destruct (slice_get (Mappers c) index) as [m|] eqn:E; [|done]. destruct (negb _); [|by intros [= <-]].
  rewrite slice_set_Some by (by eapply slice_get_lt). intros [= <-]. destruct h as [i|i]; cbn; [|done].
  intros (m'&Hm&Ha). exists m'. rewrite list_lookup_insert_ne; [done|]. specialize (Hh i eq_refl). intros Ei. apply Hne. f_equal. lia.
Qed.
Lemma reduce_timeout_assigned index c c' h : reducerTimeoutFun index c = Some (tt, c') -> 0 <= index -> h <> HeldReduce index ->
  (forall i, h = HeldReduce i -> 0 <= i) -> assigned c h -> assigned c' h.
Proof.
  intros Hrun Hpos Hne Hh. revert Hrun. unfold reducerTimeoutFun, bind, get, lift, modify, ret.
  destruct (slice_get (Reducers c) index) as [m|] eqn:E; [|done]. destruct (negb _); [|by intros [= <-]].
  rewrite slice_set_Some by (by eapply slice_get_lt). intros [= <-]. destruct h as [i|i]; cbn; [done|].
  intros (m'&Hm&Ha). exists m'. rewrite list_lookup_insert_ne; [done|]. specialize (Hh i eq_refl). intros Ei. apply Hne. f_equal. lia.
Qed.

Lemma map_timeout_index index c c' : mapperTimeoutFun index c = Some (tt, c') -> 0 <= index < len (Mappers c).
Proof. unfold mapperTimeoutFun, bind, get, lift. destruct (slice_get (Mappers c) index) eqn:E; [|done]. intros _. by eapply slice_get_lt. Qed.
Lemma reduce_timeout_index index c c' : reducerTimeoutFun index c = Some (tt, c') -> 0 <= index < len (Reducers c).
Proof. unfold reducerTimeoutFun, bind, get, lift. destruct (slice_get (Reducers c) index) eqn:E; [|done]. intros _. by eapply slice_get_lt. Qed.

(** The task handed out is new, and now assigned. *)
Lemma fetch_assigned c resp c' : mr_wf c -> FetchTask c = Some (resp, c') ->
  (forall h, assigned c h -> assigned c' h) /\
  forall h, holds (At (next_state resp)) = Some h -> natural h /\ assigned c' h /\ ~ assigned c h.
Proof.
  intros Hwf Hf. pose proof (FetchTask_good c Hwf) as Hg. eapply wp_run in Hg; [|exact Hf]. destruct Hg as (Hwf'&_&Hm&Hr&_).
  split.
  - intros h Ha. revert Hf. unfold FetchTask, bind, get, ret, modify. pose proof (assignMapper_spec (Mappers c)) as Hsm.
    pose proof (assignReducer_spec (Reducers c)) as Hsr. destruct (negb (MapperFinished c)); [|destruct (negb (ReducerFinished c))].
    + destruct (assignMapper _) as [[t l]|]; intros [= _ <-]; [|done]. destruct Hsm as (i&m&Hi&Hb&->&->&_). destruct h as [x|x]; [|done].
      destruct Ha as (m'&Hm'&Ha). cbn. destruct (decide (i = Z.to_nat x)) as [->|Hne]; [|exists m'; by rewrite list_lookup_insert_ne].
      exists (makeMapTask m). split; [|done]. apply list_lookup_insert_eq. by eapply lookup_lt_Some.
    + destruct (assignReducer _) as [[t l]|]; intros [= _ <-]; [|done]. destruct Hsr as (i&m&Hi&Hb&->&->&_). destruct h as [x|x]; [done|].
      destruct Ha as (m'&Hm'&Ha). cbn. destruct (decide (i = Z.to_nat x)) as [->|Hne]; [|exists m'; by rewrite list_lookup_insert_ne].
      exists (makeReduceTask m). split; [|done]. apply list_lookup_insert_eq. by eapply lookup_lt_Some.
    + by intros [= _ <-].
  - intros h Hh. unfold next_state in Hh. destruct (f_AllFinished resp); [done|].
    destruct (f_MapperTask resp) as [t|] eqn:Et; [|destruct (f_ReducerTask resp) as [t|] eqn:Er; [|done]].
    + destruct (Hm t eq_refl) as (_&i&m&Hi&Hb&->&->). destruct (mw_m _ Hwf i m Hi) as [Hx _]. cbn in Hh. rewrite Hx in Hh. injection Hh as <-. split; [cbn; lia|]. cbn.
      rewrite Nat2Z.id. split; [exists (makeMapTask m); split; [apply list_lookup_insert_eq; by eapply lookup_lt_Some|done]|].
      intros (m'&Hm'&Ha). rewrite Hi in Hm'. injection Hm' as <-. unfold m_busy in Hb. by rewrite Ha in Hb.
    + destruct (Hr t eq_refl) as (_&i&m&Hi&Hb&->&->). destruct (mw_r _ Hwf i m Hi) as [Hx _]. cbn in Hh. rewrite Hx in Hh. injection Hh as <-. split; [cbn; lia|]. cbn.
      rewrite Nat2Z.id. split; [exists (makeReduceTask m); split; [apply list_lookup_insert_eq; by eapply lookup_lt_Some|done]|].
      intros (m'&Hm'&Ha). rewrite Hi in Hm'. injection Hm' as <-. unfold r_busy in Hb. by rewrite Ha in Hb.
Qed.

Section refinement.
Context {J : Json} {JL : JsonLaws} {SB : SortByKey} {SBL : SortByKeyLaws} {D : Type}.
Variables (mapf : D -> string -> string -> option (list KeyValue)) (reducef : D -> string -> list string -> option string).
(** The functions of an application that never ends its process, with the same answers. *)
Variables (mapf0 : string -> string -> list KeyValue) (reducef0 : string -> list string -> string).
Hypotheses (Hmapf : forall d f c kva, mapf d f c = Some kva -> kva = mapf0 f c)
  (Hreducef : forall d k vs o, reducef d k vs = Some o -> o = reducef0 k vs).
Variables (names : list string) (n : nat) (fs0 : Files).
Hypotheses (Hn : (0 < n)%nat)
  (Hfiles : forall f, f ∈ names -> is_Some (fs0 !! f) /\ foreign f = true)
  (Hvalid : forall i, Forall json_valid (kva mapf0 names fs0 i)).

Abbreviation inv := (job_inv mapf0 reducef0 names n fs0).
Abbreviation step := (world_step mapf0 reducef0).

(** What is in the file a worker is writing. *)
Definition writing_ok (fs : FS) (s : FineState) : Prop :=
  match s with
  | At (MapWriting _ arr i) => (i <= length arr)%nat
  | At _ => True
  | MapFile t arr i ino off todo => exists kvs pre, arr !! i = Some kvs /\ sort_ByKey kvs = pre ++ todo /\
      dir fs !! map_tmp t i = Some ino /\ inodes fs !! ino = Some (encode_all pre) /\ off = String.length (encode_all pre)
  | ReduceFile t kvs i ino off => kvs = sort_ByKey (read_pairs mapf0 names n fs0 (Z.to_nat (r_Index t))) /\
      dir fs !! reduce_tmp t = Some ino /\ exists fuel o, inodes fs !! ino = Some o /\ off = String.length o /\
        (length kvs <= i + fuel)%nat /\ reduce_loop reducef0 fuel kvs i o = concat_string (lines reducef0 kvs)
  end.

Record fine_inv (F : FineWorld) (W : World) : Prop := {
  fi_coord : f_coord F = coord W;
  fi_workers : workers W = coarse <$> f_workers F;
  fi_fs : fs_ok (f_fs F);
  fi_files f : ~ temp f -> read_fs (f_fs F) !! f = files W !! f;
  fi_writing k s : f_workers F !! k = Some s -> writing_ok (f_fs F) s
}.

Lemma writing_frame P fs fs' s : touches P fs fs' -> (forall f, temp_of s = Some f -> ~ P f) -> writing_ok fs s -> writing_ok fs' s.
Proof.
  intros Ht Hs. destruct s as [s|t arr i ino off todo|t kvs i ino off]; cbn; [done| |].
  - intros (kvs&pre&?&?&Hd&Hc&?). exists kvs, pre. pose proof (Hs _ eq_refl) as Hp.
    rewrite (to_dir _ _ _ Ht), (to_inode _ _ _ Ht _ _ Hp Hd) by done. done.
  - intros (?&Hd&fuel&o&Hc&?&?). pose proof (Hs _ eq_refl) as Hp. split; [done|].
    rewrite (to_dir _ _ _ Ht) by done. split; [done|]. exists fuel, o. by rewrite (to_inode _ _ _ Ht _ _ Hp Hd).
Qed.

(** One worker goes from [s0] to [s]. *)
Lemma fine_next F W k s0 s c fs fs' : fine_inv F W -> f_workers F !! k = Some s0 -> fs_ok fs ->
  (forall f, ~ temp f -> read_fs fs !! f = fs' !! f) ->
  (forall k' s', k' <> k -> f_workers F !! k' = Some s' -> writing_ok fs s') -> writing_ok fs s ->
  fine_inv (mkFine c fs (<[k := s]> (f_workers F))) (mkWorld c fs' (<[k := coarse s]> (workers W))).
Proof.
  intros [Hco Hwo Hfs Hfi Hwr] Hk Hok Hread Hother Hnew. split; cbn; try done.
  - by rewrite Hwo, list_fmap_insert.
  - intros k' s' [(<-&<-&_)|[Hne Hk']]%list_lookup_insert_Some; [done|]. by apply (Hother k').
Qed.

(** A step of a worker on its own files. *)
Lemma fine_local F W k s0 s P fs fs' : fine_inv F W -> f_workers F !! k = Some s0 -> touches P (f_fs F) fs ->
  (forall f, ~ temp f -> read_fs fs !! f = fs' !! f) ->
  (forall k' s' f, k' <> k -> f_workers F !! k' = Some s' -> temp_of s' = Some f -> ~ P f) ->
  writing_ok fs s ->
  fine_inv (mkFine (f_coord F) fs (<[k := s]> (f_workers F))) (mkWorld (coord W) fs' (<[k := coarse s]> (workers W))).
Proof.
  intros Hinv Hk Ht Hread Hother Hnew. rewrite <-(fi_coord _ _ Hinv). apply (fine_next F W k s0); try done.
  - apply Ht.
  - intros k' s' Hne Hk'. eapply writing_frame; [exact Ht|eauto|by eapply fi_writing].
Qed.

(** *** Names *)

(** Tasks have the numbers of tasks. *)
Lemma held_index F W k s : fine_inv F W -> inv W -> f_workers F !! k = Some s ->
  match holds s with
  | Some (HeldMap index) => exists i, index = Z.of_nat i
  | Some (HeldReduce index) => exists r, index = Z.of_nat r
  | None => True
  end.
Proof.
  intros Hf Hj Hk. assert (workers W !! k = Some (coarse s)) as Hw by (rewrite (fi_workers _ _ Hf); by apply lookup_fmap_Some).
  apply (ji_workers _ _ _ _ _ _ Hj) in Hw.
  destruct s as [[|t|t arr i|t|t|]|t arr i ino off todo|t kvs i ino off]; cbn in *; try done.
  - destruct Hw as (i&_&Hi&_). by exists i.
  - destruct Hw as (i'&(_&Hi&_)&_). by exists i'.
  - destruct Hw as (_&r&_&Hi&_). by exists r.
  - destruct Hw as (r&(_&Hi&_)&_). by exists r.
  - destruct Hw as (i'&(_&Hi&_)&_). by exists i'.
  - destruct Hw as (_&r&_&Hi&_). by exists r.
Qed.

Lemma temp_of_temp F W k s f : fine_inv F W -> inv W -> f_workers F !! k = Some s -> temp_of s = Some f -> temp f.
Proof.
  intros Hf Hj Hk Hs. pose proof (held_index F W k s Hf Hj Hk) as Hi.
  destruct s as [s|t arr i ino off todo|t kvs i ino off]; cbn in Hs, Hi; [done| |]; injection Hs as <-; destruct Hi as [m E].
  - left. exists m, i. unfold map_tmp. by rewrite E.
  - right. exists m. unfold reduce_tmp. by rewrite E.
Qed.

(** Nobody else has the file open that a worker opens, or has open. *)
Lemma opens_alone F c fs k s k' s' tmp : exclusive (mkFine c fs (<[k := s]> (f_workers F))) -> is_Some (f_workers F !! k) ->
  temp_of s = Some tmp -> f_workers F !! k' = Some s' -> k' <> k -> temp_of s' <> Some tmp.
Proof.
  intros Hex Hk Hs Hk' Hne Hs'. apply Hne. eapply (omap_NoDup_lookup temp_of); [exact Hex|..]; cbn.
  - by rewrite list_lookup_insert_ne by done.
  - apply list_lookup_insert_eq. by apply lookup_lt_is_Some.
  - done.
  - done.
Qed.
Lemma open_alone F k s k' s' tmp : exclusive F -> f_workers F !! k = Some s -> temp_of s = Some tmp ->
  f_workers F !! k' = Some s' -> k' <> k -> temp_of s' <> Some tmp.
Proof. intros Hex Hk Hs Hk' Hne Hs'. apply Hne. by eapply (omap_NoDup_lookup temp_of (f_workers F)). Qed.

(** *** Each step *)

Lemma coarse_lookup F W k s : fine_inv F W -> f_workers F !! k = Some s -> workers W !! k = Some (coarse s).
Proof. intros Hf Hk. rewrite (fi_workers _ _ Hf). by apply lookup_fmap_Some. Qed.

(** A worker writes to its own temporary file, and nothing happens in [MrJob]. *)
Lemma fine_stutter F W k s0 s tmp fs : fine_inv F W -> inv W -> f_workers F !! k = Some s0 ->
  exclusive (mkFine (f_coord F) fs (<[k := s]> (f_workers F))) ->
  temp_of s = Some tmp -> temp tmp -> touches (eq tmp) (f_fs F) fs -> writing_ok fs s -> coarse s = coarse s0 ->
  fine_inv (mkFine (f_coord F) fs (<[k := s]> (f_workers F))) W.
Proof.
  intros Hf Hj Hk Hex Hopen Htmp Ht Hw Hc.
  assert (W = mkWorld (coord W) (files W) (<[k := coarse s]> (workers W))) as ->.
  { rewrite Hc, list_insert_id by (by eapply coarse_lookup). by destruct W. }
  eapply (fine_local F W k s0); [done|done|exact Ht| | |done].
  - intros f Hf'. rewrite (touches_read _ _ _ _ Ht) by (by intros <-). by apply Hf.
  - intros k' s' f Hne Hk' Hs' <-. by eapply (opens_alone F (f_coord F) fs k s k' s').
Qed.

(** A worker changes nothing but what it is on. *)
Lemma touches_refl (P : string -> Prop) fs : fs_ok fs -> touches P fs fs.
Proof. intros Hok. by split. Qed.

Lemma fine_moves F W k s0 s : fine_inv F W -> f_workers F !! k = Some s0 ->
  writing_ok (f_fs F) s ->
  fine_inv (mkFine (f_coord F) (f_fs F) (<[k := s]> (f_workers F))) (mkWorld (coord W) (files W) (<[k := coarse s]> (workers W))).
Proof.
  intros Hf Hk Hw. eapply (fine_local F W k s0 s (fun _ => False)); [done|done|apply touches_refl, Hf|apply Hf|by intros ? ? ? _ _ _ []|done].
Qed.

(** A worker ends. *)
Lemma sim_kill F W k : fine_inv F W ->
  exists W', rtc step W W' /\ fine_inv (mkFine (f_coord F) (f_fs F) (<[k := At Exited]> (f_workers F))) W'.
Proof.
  intros Hf. exists (mkWorld (coord W) (files W) (<[k := Exited]> (workers W))). split; [apply rtc_once, ws_crash|].
  destruct (f_workers F !! k) as [s0|] eqn:Hk; [by eapply (fine_moves F W k s0 (At Exited))|].
  rewrite (fi_workers _ _ Hf), !list_insert_ge by (rewrite ?length_fmap; apply lookup_ge_None in Hk; lia). rewrite <-(fi_workers _ _ Hf).
  by destruct F, W.
Qed.

Lemma sim_fetch F W k resp c : fine_inv F W -> inv W -> f_workers F !! k = Some (At Idle) -> FetchTask (f_coord F) = Some (resp, c) ->
  exists W', rtc step W W' /\ fine_inv (mkFine c (f_fs F) (<[k := At (next_state resp)]> (f_workers F))) W'.
Proof.
  intros Hf Hj Hk Hfetch. pose proof (coarse_lookup F W k _ Hf Hk) as Hw. rewrite (fi_coord _ _ Hf) in Hfetch.
  eexists. split; [apply rtc_once; by eapply ws_fetch|].
  eapply (fine_next F W k (At Idle) (At (next_state resp))); [done|done|apply Hf|apply Hf| |unfold next_state; by repeat case_match].
  intros k' s' Hne Hk'. by eapply (fi_writing _ _ Hf).
Qed.

Lemma sim_map F W k d t : fine_inv F W -> inv W -> f_workers F !! k = Some (At (MapTask t)) ->
  exists W', rtc step W W' /\ fine_inv (mkFine (f_coord F) (f_fs F) (<[k := fine_map mapf d t (f_fs F)]> (f_workers F))) W'.
Proof.
  intros Hf Hj Hk. pose proof (coarse_lookup F W k _ Hf Hk) as Hw. destruct (ji_workers _ _ _ _ _ _ Hj _ _ Hw) as [i Ht].
  pose proof (doMapperTask_map_run mapf0 reducef0 names n fs0 Hn Hfiles W i t Hj Ht) as Hrun. pose proof Ht as (_&_&Hin&Hc).
  apply list_elem_of_lookup_2 in Hin. destruct (Hfiles _ Hin) as [_ Hfor]. unfold fine_map.
  rewrite (fi_files _ _ Hf) by (by apply temp_foreign). destruct (files W !! m_Inputfile t) as [content|] eqn:E; [|by apply sim_kill].
  destruct (mapf d (m_Inputfile t) content) as [kva'|] eqn:Em; [|by apply sim_kill]. apply Hmapf in Em as ->.
  assert (doMapperTask_map (fun _ _ => mapf0 (m_Inputfile t) content) t (read_fs (f_fs F)) =
    Some ((fun j => in_bucket n j (kva mapf0 names fs0 i)) <$> seq 0 n, read_fs (f_fs F))) as ->.
  { revert Hrun. unfold doMapperTask_map, os_ReadAll, bind, get, lift. rewrite (fi_files _ _ Hf) by (by apply temp_foreign). rewrite E.
    destruct (decide _); [done|]. destruct (shuffle _ _ _); [|done]. by intros [= ->]. }
  eexists. split; [apply rtc_once; exact (ws_map mapf0 reducef0 W k t Hw)|]. rewrite Hrun.
  eapply (fine_moves F W k (At (MapTask t)) (At (MapWriting t _ 0))); [done|done|cbn; lia].
Qed.

Lemma map_tmp_temp t (i i' : nat) : m_Index t = Z.of_nat i -> temp (map_tmp t i').
Proof. intros E. left. exists i, i'. unfold map_tmp. by rewrite E. Qed.
Lemma reduce_tmp_temp t (r : nat) : r_Index t = Z.of_nat r -> temp (reduce_tmp t).
Proof. intros E. right. exists r. unfold reduce_tmp. by rewrite E. Qed.

Lemma sim_map_create F W k t arr i kvs ino fs : fine_inv F W -> inv W -> f_workers F !! k = Some (At (MapWriting t arr i)) ->
  arr !! i = Some kvs -> Create (map_tmp t i) (f_fs F) = (ino, fs) ->
  let F' := mkFine (f_coord F) fs (<[k := MapFile t arr i ino 0 (sort_ByKey kvs)]> (f_workers F)) in
  exclusive F' -> fine_inv F' W.
Proof.
  intros Hf Hj Hk Hi Hcr F' Hex. pose proof (Create_touches (map_tmp t i) (f_fs F) (fi_fs _ _ Hf)) as Hx. rewrite Hcr in Hx. destruct Hx as (Ht&Hd&Hc).
  destruct (held_index F W k _ Hf Hj Hk) as [m Hm].
  eapply (fine_stutter F W k (At (MapWriting t arr i)) _ (map_tmp t i)); try done.
  - by eapply map_tmp_temp.
  - exists kvs, []. done.
Qed.

Lemma encode_all_app kvs kvs' : encode_all (kvs ++ kvs') = encode_all kvs +:+ encode_all kvs'.
Proof. unfold encode_all. induction kvs as [|kv kvs IH]; [done|]. cbn [app foldr]. by rewrite IH, string_app_assoc. Qed.

Lemma sim_map_write F W k t arr i ino off kv todo : fine_inv F W -> inv W -> f_workers F !! k = Some (MapFile t arr i ino off (kv :: todo)) ->
  let F' := mkFine (f_coord F) (Write ino off (json_Encode kv) (f_fs F))
    (<[k := MapFile t arr i ino (off + String.length (json_Encode kv)) todo]> (f_workers F)) in
  exclusive F' -> fine_inv F' W.
Proof.
  intros Hf Hj Hk F' Hex. destruct (fi_writing _ _ Hf k _ Hk) as (kvs&pre&Hi&Hs&Hd&Hc&->). destruct (held_index F W k _ Hf Hj Hk) as [m Hm].
  destruct (Write_touches (map_tmp t i) ino (json_Encode kv) _ _ (fi_fs _ _ Hf) Hd Hc) as [Ht Hw].
  eapply (fine_stutter F W k _ _ (map_tmp t i)); [done|done|exact Hk|exact Hex|done|by eapply map_tmp_temp|exact Ht| |done].
  exists kvs, (pre ++ [kv]). rewrite <-app_assoc, encode_all_app. split_and!; [done|done|done| |].
  - rewrite Hw. cbn. by rewrite string_app_nil.
  - cbn. by rewrite string_app_nil, string_length_app.
Qed.

Lemma sim_map_rename F W k t arr i ino off : fine_inv F W -> inv W -> exclusive F -> f_workers F !! k = Some (MapFile t arr i ino off []) ->
  exists W', rtc step W W' /\
    fine_inv (mkFine (f_coord F) (Rename (map_tmp t i) (intermediate_name (m_Index t) (Z.of_nat i)) (f_fs F))
      (<[k := At (MapWriting t arr (S i))]> (f_workers F))) W'.
Proof.
  intros Hf Hj Hex Hk. pose proof (coarse_lookup F W k _ Hf Hk) as Hw. destruct (fi_writing _ _ Hf k _ Hk) as (kvs&pre&Hi&Hs&Hd&Hc&_).
  rewrite app_nil_r in Hs. subst pre. destruct (held_index F W k _ Hf Hj Hk) as [m Hm]. fold (mid m i) in Hd |- *.
  assert (Htm : map_tmp t i = mid m i +:+ ".tmp") by (unfold map_tmp; by rewrite Hm). rewrite Hm.
  destruct (Rename_touches (map_tmp t i) (mid m i) ino _ _ (fi_fs _ _ Hf) ltac:(rewrite Htm; apply tmp_ne, mid_dotless) Hd Hc) as [Ht Hr].
  eexists. split; [apply rtc_once; eapply (ws_write mapf0 reducef0 W k t arr i kvs); [exact Hw|done|]|].
  { unfold doMapperTask_write. apply create_rename. }
  eapply (fine_local F W k _ (At (MapWriting t arr (S i))) _ _ _ Hf Hk Ht); [| |by apply lookup_lt_Some in Hi].
  - intros f Hnf. rewrite Hm. fold (mid m i). destruct (decide (f = mid m i)) as [->|Hne]; [by rewrite Hr, written_eq|].
    assert (f <> mid m i +:+ ".tmp") by (intros ->; apply Hnf; left; by exists m, i).
    rewrite written_ne by done. rewrite (touches_read _ _ _ _ Ht); [by apply Hf|]. rewrite Htm. by intros [?|?].
  - intros k' s' f Hne Hk' Hs' [->| ->]; [by eapply (open_alone F k _ k' s')|].
    pose proof (temp_of_temp F W k' s' _ Hf Hj Hk' Hs') as Hx. by apply temp_mid in Hx.
Qed.

Lemma sim_report_map F W k t arr c : fine_inv F W -> inv W -> f_workers F !! k = Some (At (MapWriting t arr (length arr))) ->
  UpdateTask (mkUpdateTaskRequest (Some t) None) (f_coord F) = Some (tt, c) ->
  exists W', rtc step W W' /\ fine_inv (mkFine c (f_fs F) (<[k := At Idle]> (f_workers F))) W'.
Proof.
  intros Hf Hj Hk Hu. pose proof (coarse_lookup F W k _ Hf Hk) as Hw. rewrite (fi_coord _ _ Hf) in Hu.
  eexists. split; [apply rtc_once; by eapply ws_report_map|]. eapply (fine_next F W k _ (At Idle)); [done|exact Hk|apply Hf|apply Hf| |done].
  intros k' s' Hne Hk'. by eapply (fi_writing _ _ Hf).
Qed.
Lemma sim_report_reduce F W k t c : fine_inv F W -> inv W -> f_workers F !! k = Some (At (ReduceWritten t)) ->
  UpdateTask (mkUpdateTaskRequest None (Some t)) (f_coord F) = Some (tt, c) ->
  exists W', rtc step W W' /\ fine_inv (mkFine c (f_fs F) (<[k := At Idle]> (f_workers F))) W'.
Proof.
  intros Hf Hj Hk Hu. pose proof (coarse_lookup F W k _ Hf Hk) as Hw. rewrite (fi_coord _ _ Hf) in Hu.
  eexists. split; [apply rtc_once; by eapply ws_report_reduce|]. eapply (fine_next F W k _ (At Idle)); [done|exact Hk|apply Hf|apply Hf| |done].
  intros k' s' Hne Hk'. by eapply (fi_writing _ _ Hf).
Qed.

(** Once the map phase is over the intermediate files are all there. *)
Lemma mids_there F W r i : fine_inv F W -> inv W -> MapperFinished (coord W) = true -> (r < n)%nat -> (i < length names)%nat ->
  read_fs (f_fs F) !! mid i r = Some (Mid mapf0 names n fs0 i r).
Proof.
  intros Hf Hj Hmf Hr Hi. rewrite (fi_files _ _ Hf) by apply temp_mid.
  destruct (lookup_lt_is_Some_2 (Mappers (coord W)) i) as [m Hm]; [by rewrite (job_mappers_length names n) by apply Hj|].
  apply (ji_mid _ _ _ _ _ _ Hj i m Hm); [|done]. pose proof (mw_mdone _ (ji_wf _ _ _ _ _ _ Hj) Hmf) as Hall.
  rewrite Forall_lookup in Hall. by eapply Hall.
Qed.

Lemma sim_reduce_open F W k t kvs fs' ino fs : fine_inv F W -> inv W -> f_workers F !! k = Some (At (ReduceTask t)) ->
  read_intermediate (r_Index t) (seq 0 (Z.to_nat (r_MapperCount t))) [] (read_fs (f_fs F)) = Some (kvs, fs') ->
  Create (reduce_tmp t) (f_fs F) = (ino, fs) ->
  let F' := mkFine (f_coord F) fs (<[k := ReduceFile t (sort_ByKey kvs) 0 ino 0]> (f_workers F)) in
  exclusive F' -> fine_inv F' W.
Proof.
  intros Hf Hj Hk Hread Hcr F' Hex. pose proof (coarse_lookup F W k _ Hf Hk) as Hw.
  destruct (ji_workers _ _ _ _ _ _ Hj _ _ Hw) as (Hmf&r&Hr&Hi&Hmc).
  rewrite Hi, Hmc, Nat2Z.id, (read_intermediate_run mapf0 names n fs0 Hn Hfiles Hvalid) in Hread.
  2:{ intros i [_ Hlt]%elem_of_seq. by apply (mids_there F W). }
  injection Hread as <- _. cbn [app] in F', Hex. fold (read_pairs mapf0 names n fs0 r) in F', Hex.
  pose proof (Create_touches (reduce_tmp t) (f_fs F) (fi_fs _ _ Hf)) as Hx. rewrite Hcr in Hx. destruct Hx as (Ht&Hd&Hc).
  eapply (fine_stutter F W k _ _ (reduce_tmp t)); [done|done|exact Hk|exact Hex|done|by eapply reduce_tmp_temp|exact Ht| |done].
  cbn. rewrite Hi, Nat2Z.id. split; [done|]. split; [done|]. eexists _, "". split_and!; [done|done| |].
  2:{ apply reduce_loop_lines. apply sort_ByKey_sorted. }
  lia.
Qed.

Lemma sim_reduce_line F W k t kvs i ino off ki d output :
  let j := group_end (length kvs) kvs i (S i) in
  fine_inv F W -> inv W -> f_workers F !! k = Some (ReduceFile t kvs i ino off) -> kvs !! i = Some ki ->
  reducef d (Key ki) (Value <$> take (j - i) (drop i kvs)) = Some output ->
  let F' := mkFine (f_coord F) (Write ino off (reduce_line (Key ki) output) (f_fs F))
    (<[k := ReduceFile t kvs j ino (off + String.length (reduce_line (Key ki) output))]> (f_workers F)) in
  exclusive F' -> fine_inv F' W.
Proof.
  intros j Hf Hj Hk Hki Hout F' Hex. apply Hreducef in Hout. destruct (held_index F W k _ Hf Hj Hk) as [r Hr].
  destruct (fi_writing _ _ Hf k _ Hk) as (Hkvs&Hd&fuel&o&Hc&->&Hlen&Hloop).
  destruct (Write_touches (reduce_tmp t) ino (reduce_line (Key ki) output) _ _ (fi_fs _ _ Hf) Hd Hc) as [Ht Hw].
  eapply (fine_stutter F W k _ _ (reduce_tmp t)); [done|done|exact Hk|exact Hex|done|by eapply reduce_tmp_temp|exact Ht| |done].
  pose proof (lookup_lt_Some _ _ _ Hki) as Hlt. destruct fuel as [|fuel]; [lia|]. cbn [reduce_loop] in Hloop. rewrite Hki in Hloop.
  split; [exact Hkvs|]. split; [exact Hd|]. exists fuel, (o +:+ reduce_line (Key ki) output). split_and!; [done|by rewrite string_length_app| |].
  - pose proof (group_end_ge (length kvs) kvs i (S i)) as Hge. change (group_end (length kvs) kvs i (S i)) with j in Hge. lia.
  - rewrite Hout. exact Hloop.
Qed.

Lemma sim_reduce_rename F W k t kvs i ino off : fine_inv F W -> inv W -> exclusive F -> f_workers F !! k = Some (ReduceFile t kvs i ino off) -> kvs !! i = None ->
  exists W', rtc step W W' /\
    fine_inv (mkFine (f_coord F) (Rename (reduce_tmp t) (output_name (r_Index t)) (f_fs F)) (<[k := At (ReduceWritten t)]> (f_workers F))) W'.
Proof.
  intros Hf Hj Hex Hk Hend. pose proof (coarse_lookup F W k _ Hf Hk) as Hw. destruct (fi_writing _ _ Hf k _ Hk) as (Hkvs&Hd&fuel&o&Hc&_&_&Hloop).
  destruct (ji_workers _ _ _ _ _ _ Hj _ _ Hw) as (Hmf&r&Hr).
  pose proof (doReducerTask_run mapf0 reducef0 names n fs0 Hn Hfiles Hvalid W r t Hj Hmf Hr) as Hrun. pose proof Hr as (_&Hi&_).
  assert (o = Out mapf0 reducef0 names n fs0 r) as ->.
  { unfold Out. rewrite Hi, Nat2Z.id in Hkvs. rewrite <-Hkvs, <-Hloop. destruct fuel; cbn; [done|by rewrite Hend]. }
  assert (Htm : reduce_tmp t = out r +:+ ".tmp") by (unfold reduce_tmp; by rewrite Hi). rewrite Hi. fold (out r).
  destruct (Rename_touches (reduce_tmp t) (out r) ino _ _ (fi_fs _ _ Hf) ltac:(rewrite Htm; apply tmp_ne, out_dotless) Hd Hc) as [Ht Hrd].
  eexists. split; [apply rtc_once; exact (ws_reduce mapf0 reducef0 W k t Hw)|]. rewrite Hrun.
  eapply (fine_local F W k _ (At (ReduceWritten t)) _ _ _ Hf Hk Ht); [| |done].
  - intros f Hnf. destruct (decide (f = out r)) as [->|Hne]; [by rewrite Hrd, written_eq|].
    assert (f <> out r +:+ ".tmp") by (intros ->; apply Hnf; right; by exists r).
    rewrite written_ne by done. rewrite (touches_read _ _ _ _ Ht); [by apply Hf|]. rewrite Htm. by intros [?|?].
  - intros k' s' f Hne Hk' Hs' [->| ->]; [by eapply (open_alone F k _ k' s')|].
    pose proof (temp_of_temp F W k' s' _ Hf Hj Hk' Hs') as Hx. by apply temp_out in Hx.
Qed.

(** Timeouts change assignments only. *)
Lemma fine_coord F W c : fine_inv F W -> fine_inv (mkFine c (f_fs F) (f_workers F)) (mkWorld c (files W) (workers W)).
Proof. intros []. by split. Qed.

Lemma sim_map_timeout F W index c : fine_inv F W -> mapperTimeoutFun index (f_coord F) = Some (tt, c) ->
  exists W', rtc step W W' /\ fine_inv (mkFine c (f_fs F) (f_workers F)) W'.
Proof.
  intros Hf Ht. rewrite (fi_coord _ _ Hf) in Ht.
  assert (Hx : 0 <= index < len (Mappers (coord W))) by (by eapply map_timeout_index).
  eexists. split; [apply rtc_once; by eapply ws_map_timeout|]. by apply fine_coord.
Qed.
Lemma sim_reduce_timeout F W index c : fine_inv F W -> reducerTimeoutFun index (f_coord F) = Some (tt, c) ->
  exists W', rtc step W W' /\ fine_inv (mkFine c (f_fs F) (f_workers F)) W'.
Proof.
  intros Hf Ht. rewrite (fi_coord _ _ Hf) in Ht.
  assert (Hx : 0 <= index < len (Reducers (coord W))) by (by eapply reduce_timeout_index).
  eexists. split; [apply rtc_once; by eapply ws_reduce_timeout|]. by apply fine_coord.
Qed.

Lemma sim_launch F W : fine_inv F W ->
  exists W', rtc step W W' /\ fine_inv (mkFine (f_coord F) (f_fs F) (f_workers F ++ [At Idle])) W'.
Proof.
  intros Hf. eexists. split; [apply rtc_once, ws_start|]. pose proof Hf as [Hco Hwo Hfs Hfi Hwr].
  split; cbn; try done.
  - by rewrite Hwo, fmap_app.
  - intros k s [Hk|[_ Hk]]%lookup_app_Some; [by eapply Hwr|]. by apply list_lookup_singleton_Some in Hk as [_ <-].
Qed.

Lemma sim_worker F W k d F' : fine_inv F W -> inv W -> exclusive F -> exclusive F' ->
  worker_exec mapf reducef d k F = Some F' -> exists W', rtc step W W' /\ fine_inv F' W'.
Proof.
  intros Hf Hj Hex Hex'. unfold worker_exec.
  destruct (f_workers F !! k) as [[[|t|t arr i|t|t|]|t arr i ino off [|kv todo]|t kvs i ino off]|] eqn:Hk; [..|done]; try done.
  - destruct (FetchTask (f_coord F)) as [[resp c]|] eqn:E; [|done]. intros [= <-]. by apply sim_fetch.
  - intros [= <-]. by apply sim_map.
  - destruct (arr !! i) as [kvs|] eqn:Hi.
    + destruct (Create (map_tmp t i) (f_fs F)) as [ino fs] eqn:E. intros [= <-]. exists W. split; [done|]. by eapply sim_map_create.
    + destruct (UpdateTask _ _) as [[[] c]|] eqn:E; [|done]. intros [= <-]. eapply sim_report_map; [done|done| |exact E].
      pose proof (fi_writing _ _ Hf k _ Hk) as Hle. cbn in Hle. rewrite Hk. apply lookup_ge_None in Hi. by assert (i = length arr) as -> by lia.
  - destruct (read_intermediate _ _ _ _) as [[kvs fs']|] eqn:E; [|intros [= <-]; by apply sim_kill].
    destruct (Create (reduce_tmp t) (f_fs F)) as [ino fs] eqn:Ec. intros [= <-]. exists W. split; [done|]. by eapply sim_reduce_open.
  - destruct (UpdateTask _ _) as [[[] c]|] eqn:E; [|done]. intros [= <-]. by eapply sim_report_reduce.
  - intros [= <-]. by eapply sim_map_rename.
  - intros [= <-]. exists W. split; [done|]. by eapply sim_map_write.
  - destruct (kvs !! i) as [ki|] eqn:Hi; [|intros [= <-]; by eapply sim_reduce_rename].
    destruct (reducef _ _ _) as [output|] eqn:E; [|intros [= <-]; by apply sim_kill].
    intros [= <-]. exists W. split; [done|]. by eapply sim_reduce_line.
Qed.

Lemma sim_step F W F' : fine_inv F W -> inv W -> exclusive F -> exclusive_step mapf reducef F F' ->
  exists W', rtc step W W' /\ fine_inv F' W'.
Proof.
  intros Hf Hj Hex (Hex'&ev&Hx). destruct ev as [k d|k| |index|index]; cbn [fine_exec] in Hx.
  - by eapply sim_worker.
  - injection Hx as <-. by apply sim_kill.
  - injection Hx as <-. by apply sim_launch.
  - destruct (mapperTimeoutFun index (f_coord F)) as [[[] c]|] eqn:E; [|done]. injection Hx as <-. by eapply sim_map_timeout.
  - destruct (reducerTimeoutFun index (f_coord F)) as [[[] c]|] eqn:E; [|done]. injection Hx as <-. by eapply sim_reduce_timeout.
Qed.

Lemma sim_steps F W F' : fine_inv F W -> inv W -> exclusive F -> rtc (exclusive_step mapf reducef) F F' ->
  exists W', rtc step W W' /\ fine_inv F' W' /\ inv W'.
Proof.
  intros Hf Hj Hex Hs. revert W Hf Hj Hex. induction Hs as [F|F F1 F' H1 _ IH]; intros W Hf Hj Hex; [by exists W|].
  destruct (sim_step F W F1 Hf Hj Hex H1) as (W1&Hs1&Hf1).
  destruct (IH W1 Hf1) as (W'&Hs'&?&?); [by eapply world_steps_inv|apply H1|].
  exists W'. split; [by etrans|done].
Qed.

Lemma fine_init fs : fs_ok fs -> read_fs fs = fs0 -> fine_inv (mkFine (MakeCoordinator names n) fs []) (mkWorld (MakeCoordinator names n) fs0 []).
Proof. intros Hok <-. split; try done. Qed.
End refinement.

(** ** Only tasks of dead workers time out *)

(** No two workers are on one task, and the coordinator knows of each. *)
Record held_inv (F : FineWorld) : Prop := {
  he_alone k k' s s' h : f_workers F !! k = Some s -> f_workers F !! k' = Some s' ->
    holds s = Some h -> holds s' = Some h -> k = k';
  he_assigned k s h : f_workers F !! k = Some s -> holds s = Some h -> natural h /\ assigned (f_coord F) h
}.

(** The name of a temporary file tells the task. *)
Lemma temp_of_holds s s' h h' f : temp_of s = Some f -> temp_of s' = Some f -> holds s = Some h -> holds s' = Some h' ->
  natural h -> natural h' -> h = h'.
Proof.
  intros Hs Hs' Hh Hh' Hn Hn'.
  destruct s as [s|t arr i ino off todo|t kvs i ino off]; [done| |]; apply (inj Some) in Hs as <-; injection Hh as <-;
    (destruct s' as [s'|t' arr' i' ino' off' todo'|t' kvs' i' ino' off']; [done| |]); apply (inj Some) in Hs' as E; injection Hh' as <-;
    cbn in Hn, Hn'; unfold map_tmp, reduce_tmp in E; apply append_inj_l in E.
  - rewrite <-(Z2Nat.id (m_Index t)), <-(Z2Nat.id (m_Index t')) in E |- * by done. apply mid_inj in E as [-> _]. done.
  - rewrite <-(Z2Nat.id (m_Index t)), <-(Z2Nat.id (r_Index t')) in E by done. symmetry in E. by apply mid_ne_out in E.
  - rewrite <-(Z2Nat.id (r_Index t)), <-(Z2Nat.id (m_Index t')) in E by done. by apply mid_ne_out in E.
  - rewrite <-(Z2Nat.id (r_Index t)), <-(Z2Nat.id (r_Index t')) in E |- * by done. apply out_inj in E as ->. done.
Qed.

Lemma temp_of_held s f : temp_of s = Some f -> is_Some (holds s).
Proof. destruct s; [done|by eexists..]. Qed.

Lemma held_exclusive F : held_inv F -> exclusive F.
Proof.
  intros [Hal Has]. apply omap_NoDup_intro. intros k k' s s' f Hk Hk' Hs Hs'.
  destruct (temp_of_held s f Hs) as [h Hh], (temp_of_held s' f Hs') as [h' Hh'].
  destruct (Has k s h Hk Hh) as [Hn _], (Has k' s' h' Hk' Hh') as [Hn' _].
  rewrite (temp_of_holds s s' h h' f) in Hh by done. by eapply Hal.
Qed.

(** One worker goes from [s0] to [s], the coordinator to [c]. *)
Lemma held_next F k s0 s c fs : held_inv F -> f_workers F !! k = Some s0 ->
  (forall h, assigned (f_coord F) h -> assigned c h) ->
  (forall h, holds s = Some h -> holds s0 = Some h \/ natural h /\ assigned c h /\ ~ assigned (f_coord F) h) ->
  held_inv (mkFine c fs (<[k := s]> (f_workers F))).
Proof.
  intros [Hal Has] Hk Hc Hs.
  assert (Hno : forall k' s' h, k <> k' -> f_workers F !! k' = Some s' -> holds s' = Some h -> holds s <> Some h).
  { intros k' s' h Hne Hk' Hh' [Hh|(_&_&Hn)]%Hs; [apply Hne; by eapply Hal|]. apply Hn. by eapply Has. }
  split; cbn.
  - intros k1 k2 s1 s2 h H1 H2 Hh1 Hh2.
    apply list_lookup_insert_Some in H1 as [(<-&<-&_)|[Hne1 H1]], H2 as [(<-&<-&_)|[Hne2 H2]]; [done| | |by eapply Hal].
    + by destruct (Hno k2 s2 h).
    + by destruct (Hno k1 s1 h).
  - intros k' s' h [(<-&<-&_)|[Hne Hk']]%list_lookup_insert_Some Hh.
    + destruct (Hs h Hh) as [Hh0|(?&?&_)]; [|done]. destruct (Has k s0 h Hk Hh0). auto.
    + destruct (Has k' s' h Hk' Hh). auto.
Qed.

Section prompt.
Context {J : Json} {JL : JsonLaws} {SB : SortByKey} {SBL : SortByKeyLaws} {D : Type}.
Variables (mapf : D -> string -> string -> option (list KeyValue)) (reducef : D -> string -> list string -> option string).

Lemma fine_map_holds d t fs h : holds (fine_map mapf d t fs) = Some h -> h = HeldMap (m_Index t).
Proof. unfold fine_map. repeat case_match; try done. by intros [= <-]. Qed.

Lemma held_worker F k d F' : held_inv F -> mr_wf (f_coord F) -> worker_exec mapf reducef d k F = Some F' -> held_inv F'.
Proof.
  intros Hh Hwf. unfold worker_exec.
  destruct (f_workers F !! k) as [[[|t|t arr i|t|t|]|t arr i ino off [|kv todo]|t kvs i ino off]|] eqn:Hk; [..|done]; try done.
  - destruct (FetchTask (f_coord F)) as [[resp c]|] eqn:E; [|done]. intros [= <-].
    destruct (fetch_assigned _ _ _ Hwf E) as [Hold Hnew]. eapply held_next; [done|exact Hk|done|auto].
  - intros [= <-]. eapply held_next; [done|exact Hk|done|]. intros h ->%fine_map_holds. by left.
  - destruct (arr !! i) as [kvs|].
    + destruct (Create _ _). intros [= <-]. eapply held_next; [done|exact Hk|done|by left].
    + destruct (UpdateTask _ _) as [[[] c]|] eqn:E; [|done]. intros [= <-].
      eapply held_next; [done|exact Hk|by intros h; eapply report_map_assigned|done].
  - destruct (read_intermediate _ _ _ _) as [[kvs fs']|].
    + destruct (Create _ _). intros [= <-]. eapply held_next; [done|exact Hk|done|by left].
    + intros [= <-]. by eapply held_next.
  - destruct (UpdateTask _ _) as [[[] c]|] eqn:E; [|done]. intros [= <-].
    eapply held_next; [done|exact Hk|by intros h; eapply report_reduce_assigned|done].
  - intros [= <-]. eapply held_next; [done|exact Hk|done|by left].
  - intros [= <-]. eapply held_next; [done|exact Hk|done|by left].
  - destruct (kvs !! i); [destruct (reducef _ _ _)|]; intros [= <-]; eapply held_next; try done; by left.
Qed.

Lemma held_step F F' : held_inv F -> mr_wf (f_coord F) -> prompt_step mapf reducef F F' -> held_inv F'.
Proof.
  intros Hh Hwf ([k d|k| |index|index]&Hp&Hx); cbn [prompt fine_exec] in Hp, Hx.
  - by eapply held_worker.
  - injection Hx as <-. destruct (f_workers F !! k) as [s0|] eqn:Hk; [by eapply held_next|].
    rewrite list_insert_ge by (by apply lookup_ge_None). by destruct F.
  - injection Hx as <-. destruct Hh as [Hal Has].
    assert (Hl : forall k s h, (f_workers F ++ [At Idle]) !! k = Some s -> holds s = Some h -> f_workers F !! k = Some s).
    { intros k s h [?|[_ Hk]]%lookup_app_Some Hh; [done|]. by apply list_lookup_singleton_Some in Hk as [_ <-]. }
    split; cbn; eauto.
  - destruct (mapperTimeoutFun index (f_coord F)) as [[[] c]|] eqn:E; [|done]. injection Hx as <-. destruct Hh as [Hal Has].
    pose proof (map_timeout_index _ _ _ E) as Hi. split; cbn; [done|]. intros k s h Hk Hh. destruct (Has k s h Hk Hh) as [Hn Ha]. split; [done|].
    eapply map_timeout_assigned; [exact E|lia| |by intros i ->|done]. intros ->. exact (Hp s (list_elem_of_lookup_2 _ _ _ Hk) Hh).
  - destruct (reducerTimeoutFun index (f_coord F)) as [[[] c]|] eqn:E; [|done]. injection Hx as <-. destruct Hh as [Hal Has].
    pose proof (reduce_timeout_index _ _ _ E) as Hi. split; cbn; [done|]. intros k s h Hk Hh. destruct (Has k s h Hk Hh) as [Hn Ha]. split; [done|].
    eapply reduce_timeout_assigned; [exact E|lia| |by intros i ->|done]. intros ->. exact (Hp s (list_elem_of_lookup_2 _ _ _ Hk) Hh).
Qed.

(** In such jobs no two workers ever have one file open. *)
Lemma prompt_exclusive F F' : held_inv F -> mr_wf (f_coord F) -> prompt_step mapf reducef F F' -> exclusive_step mapf reducef F F'.
Proof. intros Hh Hwf Hs. split; [by eapply held_exclusive, held_step|]. destruct Hs as (ev&_&Hx). by exists ev. Qed.
End prompt.

(** ** The flags of the coordinator *)

(** [MapperFinished] and [ReducerFinished] say whether all tasks are finished. *)
Definition flags_ok (c : Coordinator) : Prop :=
  MapperFinished c = forallb m_IsFinished (Mappers c) /\ ReducerFinished c = forallb r_IsFinished (Reducers c).

Lemma forallb_fmap {A} (f : A -> bool) l : forallb f l = forallb id (f <$> l).
Proof. induction l as [|x l IH]; [done|]. cbn. by rewrite IH. Qed.

Lemma flags_same c c' : flags_ok c -> same_finished c c' -> MapperFinished c' = MapperFinished c -> ReducerFinished c' = ReducerFinished c -> flags_ok c'.
Proof.
  intros [Hm Hr] [Em Er] E1 E2. split.
  - by rewrite E1, Hm, !(forallb_fmap m_IsFinished), Em.
  - by rewrite E2, Hr, !(forallb_fmap r_IsFinished), Er.
Qed.

Lemma fetch_flags c resp c' : flags_ok c -> FetchTask c = Some (resp, c') -> flags_ok c'.
Proof.
  intros Hf Hr. eapply flags_same; [done|by eapply FetchTask_finished| |]; revert Hr; unfold FetchTask, bind, get, modify, ret;
    (destruct (negb (MapperFinished c)); [destruct (assignMapper _) as [[? ?]|]|destruct (negb (ReducerFinished c)); [destruct (assignReducer _) as [[? ?]|]|]]); by intros [= _ <-].
Qed.
Lemma report_flags req c c' : mr_wf c -> flags_ok c -> UpdateTask req c = Some (tt, c') ->
  u_MapperTask req = None \/ u_ReducerTask req = None -> flags_ok c'.
Proof.
  intros Hwf [Hm Hr] Hu Hor. revert Hu. destruct req as [[t|] [t'|]]; unfold UpdateTask; cbn [u_MapperTask u_ReducerTask] in *.
  - by destruct Hor.
  - destruct (update_mappers_good (m_Index t) c Hwf) as (ms&b&Hrun&_&->&_). unfold bind, get, lift, modify, ret. rewrite Hrun. by intros [= <-].
  - destruct (update_reducers_good (r_Index t') c Hwf) as (rs&b&Hrun&_&->&_). unfold bind, get, lift, modify, ret. rewrite Hrun. by intros [= <-].
  - unfold bind, ret. by intros [= <-].
Qed.
Lemma map_timeout_flags index c c' : flags_ok c -> mapperTimeoutFun index c = Some (tt, c') -> flags_ok c'.
Proof.
  intros Hf Hr. eapply flags_same; [done|by eapply mapperTimeout_finished| |]; revert Hr; unfold mapperTimeoutFun, bind, get, lift, modify, ret;
    (destruct (slice_get _ _); [|done]); (destruct (negb _); [destruct (slice_set _ _ _); [|done]|]); by intros [= <-].
Qed.
Lemma reduce_timeout_flags index c c' : flags_ok c -> reducerTimeoutFun index c = Some (tt, c') -> flags_ok c'.
Proof.
  intros Hf Hr. eapply flags_same; [done|by eapply reducerTimeout_finished| |]; revert Hr; unfold reducerTimeoutFun, bind, get, lift, modify, ret;
    (destruct (slice_get _ _); [|done]); (destruct (negb _); [destruct (slice_set _ _ _); [|done]|]); by intros [= <-].
Qed.

(** ** Giving up on workers *)

Lemma map_timeout_run c (i : nat) : (i < length (Mappers c))%nat -> exists c', mapperTimeoutFun (Z.of_nat i) c = Some (tt, c') /\
  Reducers c' = Reducers c /\ length (Mappers c') = length (Mappers c) /\
  forall j m, Mappers c' !! j = Some m -> if decide (j = i) then m_Assigned m = true -> m_IsFinished m = true else Mappers c !! j = Some m.
Proof.
  intros Hi. destruct (lookup_lt_is_Some_2 _ _ Hi) as [m Hm]. unfold mapperTimeoutFun, bind, get, lift, modify, ret.
  rewrite (proj2 (slice_get_Some _ (Z.of_nat i) m)) by (rewrite Nat2Z.id; split; [lia|done]). destruct (m_IsFinished m) eqn:Hf; cbn [negb].
  - exists c. split_and!; [done..|]. intros j m' Hj. case_decide; [|done]. subst. congruence.
  - rewrite slice_set_Some by lia. eexists. split; [done|]. cbn. rewrite length_insert. split_and!; [done|done|].
    intros j m' Hj. rewrite Nat2Z.id in Hj. case_decide as E.
    + subst. rewrite list_lookup_insert_eq in Hj by done. by injection Hj as <-.
    + by rewrite list_lookup_insert_ne in Hj.
Qed.
Lemma reduce_timeout_run c (i : nat) : (i < length (Reducers c))%nat -> exists c', reducerTimeoutFun (Z.of_nat i) c = Some (tt, c') /\
  Mappers c' = Mappers c /\ length (Reducers c') = length (Reducers c) /\
  forall j r, Reducers c' !! j = Some r -> if decide (j = i) then r_Assigned r = true -> r_IsFinished r = true else Reducers c !! j = Some r.
Proof.
  intros Hi. destruct (lookup_lt_is_Some_2 _ _ Hi) as [m Hm]. unfold reducerTimeoutFun, bind, get, lift, modify, ret.
  rewrite (proj2 (slice_get_Some _ (Z.of_nat i) m)) by (rewrite Nat2Z.id; split; [lia|done]). destruct (r_IsFinished m) eqn:Hf; cbn [negb].
  - exists c. split_and!; [done..|]. intros j m' Hj. case_decide; [|done]. subst. congruence.
  - rewrite slice_set_Some by lia. eexists. split; [done|]. cbn. rewrite length_insert. split_and!; [done|done|].
    intros j m' Hj. rewrite Nat2Z.id in Hj. case_decide as E.
    + subst. rewrite list_lookup_insert_eq in Hj by done. by injection Hj as <-.
    + by rewrite list_lookup_insert_ne in Hj.
Qed.

Section live.
Context {J : Json} {JL : JsonLaws} {SB : SortByKey} {SBL : SortByKeyLaws} {D : Type}.
Variables (mapf : D -> string -> string -> option (list KeyValue)) (reducef : D -> string -> list string -> option string).
Variables (mapf0 : string -> string -> list KeyValue) (reducef0 : string -> list string -> string).
Hypotheses (Hmapf : forall d f c kva, mapf d f c = Some kva -> kva = mapf0 f c)
  (Hreducef : forall d k vs o, reducef d k vs = Some o -> o = reducef0 k vs)
  (Hmap_answers : forall f c, exists d, is_Some (mapf d f c)) (Hreduce_answers : forall k vs, exists d, is_Some (reducef d k vs)).
Variables (names : list string) (n : nat) (fs0 : Files).
Hypotheses (Hn : (0 < n)%nat)
  (Hfiles : forall f, f ∈ names -> is_Some (fs0 !! f) /\ foreign f = true)
  (Hvalid : forall i, Forall json_valid (kva mapf0 names fs0 i)).

Abbreviation inv := (job_inv mapf0 reducef0 names n fs0).
Abbreviation finv := (fine_inv mapf0 reducef0 names n fs0).
Abbreviation psteps := (rtc (prompt_step mapf reducef)).

(** What holds in every reachable state. *)
Definition live (F : FineWorld) : Prop := flags_ok (f_coord F) /\ held_inv F /\ exists W, finv F W /\ inv W.

Lemma live_wf F : live F -> mr_wf (f_coord F).
Proof. intros (_&_&W&Hf&Hj). rewrite (fi_coord _ _ _ _ _ _ _ Hf). apply Hj. Qed.

Lemma worker_flags F k d F' : live F -> worker_exec mapf reducef d k F = Some F' -> flags_ok (f_coord F').
Proof.
  intros Hl. pose proof (live_wf F Hl) as Hwf. destruct Hl as [Hfl _]. unfold worker_exec.
  destruct (f_workers F !! k) as [[[|t|t arr i|t|t|]|t arr i ino off [|kv todo]|t kvs i ino off]|]; [..|done]; try done.
  - destruct (FetchTask (f_coord F)) as [[resp c]|] eqn:E; [|done]. intros [= <-]. by eapply fetch_flags.
  - by intros [= <-].
  - destruct (arr !! i).
    + destruct (Create _ _). by intros [= <-].
    + destruct (UpdateTask _ _) as [[[] c]|] eqn:E; [|done]. intros [= <-]. eapply report_flags; [exact Hwf|done|exact E|by right].
  - destruct (read_intermediate _ _ _ _) as [[kvs fs']|]; [destruct (Create _ _)|]; by intros [= <-].
  - destruct (UpdateTask _ _) as [[[] c]|] eqn:E; [|done]. intros [= <-]. eapply report_flags; [exact Hwf|done|exact E|by left].
  - by intros [= <-].
  - by intros [= <-].
  - destruct (kvs !! i); [destruct (reducef _ _ _)|]; by intros [= <-].
Qed.

Lemma live_step F F' : live F -> prompt_step mapf reducef F F' -> live F'.
Proof.
  intros Hl Hs. pose proof (live_wf F Hl) as Hwf. split; [|split].
  - destruct Hs as ([k d|k| |index|index]&_&Hx); cbn [fine_exec] in Hx; pose proof Hl as [Hfl _].
    + by eapply worker_flags.
    + by injection Hx as <-.
    + by injection Hx as <-.
    + destruct (mapperTimeoutFun _ _) as [[[] c]|] eqn:E; [|done]. injection Hx as <-. by eapply map_timeout_flags.
    + destruct (reducerTimeoutFun _ _) as [[[] c]|] eqn:E; [|done]. injection Hx as <-. by eapply reduce_timeout_flags.
  - destruct Hl as (_&Hh&_). by eapply held_step.
  - destruct Hl as (_&Hh&W&Hf&Hj).
    destruct (sim_step mapf reducef mapf0 reducef0 Hmapf Hreducef names n fs0 Hn Hfiles Hvalid F W F' Hf Hj) as (W'&Hs'&Hf').
    { by apply held_exclusive. }
    { by apply prompt_exclusive. }
    exists W'. split; [done|]. by eapply world_steps_inv.
Qed.
Lemma live_steps F F' : live F -> psteps F F' -> live F'.
Proof. intros Hl Hs. induction Hs; eauto using live_step. Qed.

(** Every worker can be stopped. *)
Lemma stop_all F : exists F', psteps F F' /\ f_coord F' = f_coord F /\ forall s, s ∈ f_workers F' -> s = At Exited.
Proof.
  assert (Hj : forall j, exists F', psteps F F' /\ f_coord F' = f_coord F /\ length (f_workers F') = length (f_workers F) /\
    forall k s, (k < j)%nat -> f_workers F' !! k = Some s -> s = At Exited).
  { induction j as [|j (F'&Hs&Hc&Hl&Hk)]; [exists F; split_and!; [done..|lia]|].
    exists (mkFine (f_coord F') (f_fs F') (<[j := At Exited]> (f_workers F'))). split_and!; [|done|by cbn; rewrite length_insert|].
    - eapply rtc_r; [exact Hs|]. by exists (Kill j).
    - cbn. intros k s Hlt [(_&<-&_)|[? Hx]]%list_lookup_insert_Some; [done|]. apply (Hk k); [lia|done]. }
  destruct (Hj (length (f_workers F))) as (F'&Hs&Hc&Hl&Hk). exists F'. split_and!; [done|done|].
  intros s [k Hx]%list_elem_of_lookup_1. apply (Hk k); [|done]. rewrite <-Hl. by eapply lookup_lt_Some.
Qed.

(** The tasks of stopped workers can be given to others. *)
Lemma take_back F : (forall s, s ∈ f_workers F -> s = At Exited) -> exists F', psteps F F' /\ f_workers F' = f_workers F /\
  (forall m, m ∈ Mappers (f_coord F') -> m_Assigned m = true -> m_IsFinished m = true) /\
  forall r, r ∈ Reducers (f_coord F') -> r_Assigned r = true -> r_IsFinished r = true.
Proof.
  intros Hex. assert (Hnone : forall s h, s ∈ f_workers F -> holds s <> Some h) by (by intros s h ->%Hex).
  assert (Hm : forall j, (j <= length (Mappers (f_coord F)))%nat -> exists F', psteps F F' /\ f_workers F' = f_workers F /\
    length (Mappers (f_coord F')) = length (Mappers (f_coord F)) /\
    forall i m, (i < j)%nat -> Mappers (f_coord F') !! i = Some m -> m_Assigned m = true -> m_IsFinished m = true).
  { induction j as [|j IH]; intros Hj; [exists F; split_and!; [done..|lia]|]. destruct IH as (F'&Hs&Hw&Hl&Hk); [lia|].
    destruct (map_timeout_run (f_coord F') j) as (c&Hc&_&Hl'&Hx); [lia|].
    exists (mkFine c (f_fs F') (f_workers F')). split_and!; [|done|cbn; congruence|].
    - eapply rtc_r; [exact Hs|]. exists (MapTimeout (Z.of_nat j)). split; [cbn; rewrite Hw; eauto|]. cbn [fine_exec]. by rewrite Hc.
    - intros i m Hi Hm. specialize (Hx i m Hm). case_decide; [done|]. apply (Hk i); [lia|done]. }
  destruct (Hm (length (Mappers (f_coord F)))) as (F1&Hs1&Hw1&Hl1&Hk1); [done|].
  assert (Hr : forall j, (j <= length (Reducers (f_coord F1)))%nat -> exists F', psteps F1 F' /\ f_workers F' = f_workers F1 /\
    Mappers (f_coord F') = Mappers (f_coord F1) /\ length (Reducers (f_coord F')) = length (Reducers (f_coord F1)) /\
    forall i r, (i < j)%nat -> Reducers (f_coord F') !! i = Some r -> r_Assigned r = true -> r_IsFinished r = true).
  { induction j as [|j IH]; intros Hj; [exists F1; split_and!; [done..|lia]|]. destruct IH as (F'&Hs&Hw&HM&Hl&Hk); [lia|].
    destruct (reduce_timeout_run (f_coord F') j) as (c&Hc&HM'&Hl'&Hx); [lia|].
    exists (mkFine c (f_fs F') (f_workers F')). split_and!; [|done|cbn; congruence|cbn; congruence|].
    - eapply rtc_r; [exact Hs|]. exists (ReduceTimeout (Z.of_nat j)). split; [cbn; rewrite Hw, Hw1; eauto|]. cbn [fine_exec]. by rewrite Hc.
    - intros i m Hi Hm'. specialize (Hx i m Hm'). case_decide; [done|]. apply (Hk i); [lia|done]. }
  destruct (Hr (length (Reducers (f_coord F1)))) as (F2&Hs2&Hw2&HM2&Hl2&Hk2); [done|].
  exists F2. split_and!; [by etrans|congruence| |].
  - intros m [i Hi]%list_elem_of_lookup_1. rewrite HM2 in Hi. apply (Hk1 i); [|done]. rewrite <-Hl1. by eapply lookup_lt_Some.
  - intros r [i Hi]%list_elem_of_lookup_1. apply (Hk2 i); [|done]. rewrite <-Hl2. by eapply lookup_lt_Some.
Qed.

(** ** One worker that does not die *)

Lemma runs k d F F' : worker_exec mapf reducef d k F = Some F' -> prompt_step mapf reducef F F'.
Proof. intros Hx. by exists (Run k d). Qed.

Lemma some_draw : exists d : D, True.
Proof. destruct (Hmap_answers "" "") as [d _]. by exists d. Qed.

(** [F] leads to a state with the same coordinator where worker [k] is at [s]. *)
Definition leads (k : nat) (F : FineWorld) (s : WorkerState) : Prop :=
  exists F', psteps F F' /\ f_coord F' = f_coord F /\ f_workers F' !! k = Some (At s).
Lemma leads_step k d F F1 s : worker_exec mapf reducef d k F = Some F1 -> f_coord F1 = f_coord F -> leads k F1 s -> leads k F s.
Proof.
  intros Hx Hc (F'&Hs&Hc'&Hk). exists F'. split_and!; [|congruence|done]. eapply rtc_l; [by eapply runs|done].
Qed.

Lemma finish_file F k t arr i ino off todo : f_workers F !! k = Some (MapFile t arr i ino off todo) -> leads k F (MapWriting t arr (S i)).
Proof.
  revert F off. destruct some_draw as [d _]. induction todo as [|kv todo IH]; intros F off Hk.
  - eexists. split_and!; [apply rtc_once, (runs k d); unfold worker_exec; by rewrite Hk|done|]. cbn. apply list_lookup_insert_eq. by eapply lookup_lt_Some.
  - eapply (leads_step k d); [unfold worker_exec; by rewrite Hk|done|]. eapply IH. cbn. apply list_lookup_insert_eq. by eapply lookup_lt_Some.
Qed.

Lemma finish_files k t arr j F i : f_workers F !! k = Some (At (MapWriting t arr i)) -> (i + j = length arr)%nat -> leads k F (MapWriting t arr (length arr)).
Proof.
  revert F i. destruct some_draw as [d _]. induction j as [|j IH]; intros F i Hk Hij.
  { exists F. split_and!; [done..|]. by rewrite Hk, <-Hij, Nat.add_0_r. }
  destruct (lookup_lt_is_Some_2 arr i) as [kvs Hi]; [lia|]. destruct (Create (map_tmp t i) (f_fs F)) as [ino fs] eqn:E.
  eapply (leads_step k d F (mkFine (f_coord F) fs (<[k := MapFile t arr i ino 0 (sort_ByKey kvs)]> (f_workers F)))); [|done|].
  { unfold worker_exec. by rewrite Hk, Hi, E. }
  destruct (finish_file (mkFine (f_coord F) fs (<[k := MapFile t arr i ino 0 (sort_ByKey kvs)]> (f_workers F))) k t arr i ino 0 (sort_ByKey kvs)) as (F2&Hs2&Hc2&Hk2).
  { cbn. apply list_lookup_insert_eq. by eapply lookup_lt_Some. }
  destruct (IH F2 (S i) Hk2) as (F3&Hs3&Hc3&Hk3); [lia|]. exists F3. split_and!; [by etrans|congruence|done].
Qed.

Lemma finish_lines k t kvs ino j F i off : f_workers F !! k = Some (ReduceFile t kvs i ino off) -> (length kvs - i <= j)%nat -> leads k F (ReduceWritten t).
Proof.
  revert F i off. destruct some_draw as [d0 _]. induction j as [|j IH]; intros F i off Hk Hij; destruct (kvs !! i) as [ki|] eqn:Hi.
  1: apply lookup_lt_Some in Hi; lia.
  1,3: eexists; split_and!; [apply rtc_once, (runs k d0); unfold worker_exec; by rewrite Hk, Hi|done|]; cbn; apply list_lookup_insert_eq; by eapply lookup_lt_Some.
  destruct (Hreduce_answers (Key ki) (Value <$> take (group_end (length kvs) kvs i (S i) - i) (drop i kvs))) as (d&output&Ho).
  eapply (leads_step k d); [unfold worker_exec; rewrite Hk; cbv zeta; by rewrite Hi, Ho|done|]. eapply IH; [cbn; apply list_lookup_insert_eq; by eapply lookup_lt_Some|].
  pose proof (group_end_ge (length kvs) kvs i (S i)). lia.
Qed.

(** One task: fetched, done and reported. *)
Lemma fine_round F k : live F -> idle (f_coord F) -> Done (f_coord F) = false -> f_workers F !! k = Some (At Idle) ->
  exists F', psteps F F' /\ f_workers F' !! k = Some (At Idle) /\ serve (f_coord F) = Some (tt, f_coord F').
Proof.
  intros Hl Hid Hnd Hk. destruct some_draw as [d0 _]. pose proof (serve_progress _ Hid Hnd) as ([]&c'&Hserve&_)%wp_runs. rewrite Hserve.
  unfold serve, bind in Hserve. destruct (FetchTask (f_coord F)) as [[resp c]|] eqn:Hf; [|done].
  pose proof (FetchTask_good _ (live_wf F Hl)) as Hg. eapply wp_run in Hg; [|exact Hf]. destruct Hg as (_&_&_&_&Hall).
  assert (Hfin : f_AllFinished resp = false) by (destruct (f_AllFinished resp); [|done]; by rewrite (proj1 Hall eq_refl) in Hnd).
  set (F1 := mkFine c (f_fs F) (<[k := At (next_state resp)]> (f_workers F))).
  assert (Hs1 : prompt_step mapf reducef F F1) by (apply (runs k d0); unfold worker_exec; by rewrite Hk, Hf).
  assert (Hk1 : f_workers F1 !! k = Some (At (next_state resp))) by (cbn; apply list_lookup_insert_eq; by eapply lookup_lt_Some).
  pose proof (live_step F F1 Hl Hs1) as (_&_&W&Hfi&Hj).
  pose proof (coarse_lookup mapf0 reducef0 names n fs0 F1 W k _ Hfi Hk1) as Hw. apply (ji_workers _ _ _ _ _ _ Hj) in Hw. cbn [coarse] in Hw.
  assert (Hrep : forall s req, leads k F1 s -> (forall F2 c2, f_workers F2 !! k = Some (At s) -> UpdateTask req (f_coord F2) = Some (tt, c2) ->
      worker_exec mapf reducef d0 k F2 = Some (mkFine c2 (f_fs F2) (<[k := At Idle]> (f_workers F2)))) -> UpdateTask req c = Some (tt, c') ->
      exists F', psteps F F' /\ f_workers F' !! k = Some (At Idle) /\ Some (tt, c') = Some (tt, f_coord F')).
  { intros s req (F2&Hs2&Hc2&Hk2) Hx Hu. eexists. split_and!.
    - eapply rtc_l; [exact Hs1|]. eapply rtc_r; [exact Hs2|]. apply (runs k d0), Hx; [done|]. rewrite Hc2. exact Hu.
    - cbn. apply list_lookup_insert_eq. by eapply lookup_lt_Some.
    - done. }
  unfold next_state in Hk1, Hw. rewrite Hfin in Hk1, Hw.
  destruct (f_MapperTask resp) as [t|] eqn:Et; [|destruct (f_ReducerTask resp) as [t|] eqn:Er].
  - destruct Hw as [i Ht]. pose proof Ht as (_&_&Hin&_). apply list_elem_of_lookup_2 in Hin. destruct (Hfiles _ Hin) as [[content Hcont] Hfor].
    assert (Hrd : read_fs (f_fs F1) !! m_Inputfile t = Some content).
    { rewrite (fi_files _ _ _ _ _ _ _ Hfi) by (by apply temp_foreign). by rewrite (ji_in _ _ _ _ _ _ Hj _ Hin). }
    destruct (Hmap_answers (m_Inputfile t) content) as (d&kva'&Hm).
    assert (exists arr, fine_map mapf d t (f_fs F1) = At (MapWriting t arr 0)) as [arr Harr].
    { unfold fine_map. rewrite Hrd, Hm. unfold doMapperTask_map, os_ReadAll, bind, get, lift. rewrite Hrd. destruct Ht as (_&_&_&Hc).
      rewrite Hc, decide_False by lia. rewrite Nat2Z.id, shuffle_buckets by done. by eexists. }
    apply (Hrep (MapWriting t arr (length arr)) (mkUpdateTaskRequest (Some t) None)); [|intros F2 c2 Hk2 Hu|exact Hserve].
    + eapply (leads_step k d); [unfold worker_exec; rewrite Hk1, Harr; reflexivity|done|].
      apply (finish_files k t arr (length arr) _ 0); [|done]. cbn. apply list_lookup_insert_eq. by eapply lookup_lt_Some.
    + unfold worker_exec. rewrite Hk2, lookup_ge_None_2 by done. by rewrite Hu.
  - destruct Hw as (Hmf&r&Hr&Hi&Hmc). apply (Hrep (ReduceWritten t) (mkUpdateTaskRequest None (Some t))); [|intros F2 c2 Hk2 Hu|exact Hserve].
    + destruct (Create (reduce_tmp t) (f_fs F1)) as [ino fs] eqn:Ec.
      pose proof (read_intermediate_run mapf0 names n fs0 Hn Hfiles Hvalid r (seq 0 (length names)) [] (read_fs (f_fs F1))) as Hread.
      eapply (leads_step k d0); [unfold worker_exec; rewrite Hk1, Hi, Hmc, Nat2Z.id, Hread; [by rewrite Ec|]|done|].
      * intros i [_ Hlt]%elem_of_seq. by apply (mids_there mapf0 reducef0 names n fs0 F1 W).
      * eapply (finish_lines k t _ ino); [|reflexivity]. cbn. apply list_lookup_insert_eq. by eapply lookup_lt_Some.
    + unfold worker_exec. by rewrite Hk2, Hu.
  - injection Hserve as <-. exists F1. split_and!; [by apply rtc_once|done|done].
Qed.

Lemma worker_finishes j F k : live F -> idle (f_coord F) -> (left_m (Mappers (f_coord F)) + left_r (Reducers (f_coord F)) = j)%nat ->
  f_workers F !! k = Some (At Idle) -> exists F', psteps F F' /\ Done (f_coord F') = true.
Proof.
  revert F. induction j as [|j IH]; intros F Hl Hid Hj Hk; destruct (Done (f_coord F)) eqn:Hd; try (exists F; split; [apply rtc_refl|done]).
  - destruct (proj1 (wp_runs _ _ _) (serve_progress _ Hid Hd)) as ([]&c1&_&_&Hleft). lia.
  - destruct (fine_round F k Hl Hid Hd Hk) as (F1&Hs1&Hk1&Hserve).
    destruct (proj1 (wp_runs _ _ _) (serve_progress _ Hid Hd)) as ([]&c1&Hserve'&Hid1&Hleft). rewrite Hserve in Hserve'. injection Hserve' as <-.
    destruct (IH F1) as (F'&Hs'&Hd'); [by eapply live_steps|done|lia|done|]. exists F'. split; [by etrans|done].
Qed.

Lemma live_completes F : live F -> exists F', psteps F F' /\ Done (f_coord F') = true.
Proof.
  intros Hl. destruct (stop_all F) as (F1&Hs1&_&Hex). destruct (take_back F1 Hex) as (F2&Hs2&Hw2&Hm&Hr).
  set (F3 := mkFine (f_coord F2) (f_fs F2) (f_workers F2 ++ [At Idle])).
  assert (Hs3 : prompt_step mapf reducef F2 F3) by (by exists Launch).
  assert (Hs : psteps F F3) by (etrans; [exact Hs1|]; eapply rtc_r; [exact Hs2|done]).
  assert (Hl3 : live F3) by (by eapply live_steps). pose proof Hl3 as [[Hfm Hfr] _].
  destruct (worker_finishes (left_m (Mappers (f_coord F3)) + left_r (Reducers (f_coord F3))) F3 (length (f_workers F2)) Hl3) as (F4&Hs4&Hd); [|reflexivity|by apply list_lookup_middle|].
  - split; try done. exact (live_wf F3 Hl3).
  - exists F4. split; [by etrans|done].
Qed.
End live.

(** ** Jobs with workers that die *)

Section theorems.
Context {J : Json} {JL : JsonLaws} {SB : SortByKey} {SBL : SortByKeyLaws} {D : Type}.
Variables (mapf : D -> string -> string -> option (list KeyValue)) (reducef : D -> string -> list string -> option string).
Variables (mapf0 : string -> string -> list KeyValue) (reducef0 : string -> list string -> string).

(** The application may end the process at a call, does not always, and answers what
    [mapf0] and [reducef0] do when it answers. *)
Record crashes_only : Prop := {
  co_map d f c kva : mapf d f c = Some kva -> kva = mapf0 f c;
  co_reduce d k vs o : reducef d k vs = Some o -> o = reducef0 k vs;
  co_map_answers f c : exists d, is_Some (mapf d f c);
  co_reduce_answers k vs : exists d, is_Some (reducef d k vs)
}.

Lemma fine_right_output names n fs F W : (0 < n)%nat -> job_input mapf0 names (read_fs fs) -> order_insensitive reducef0 ->
  fine_inv mapf0 reducef0 names n (read_fs fs) F W -> job_inv mapf0 reducef0 names n (read_fs fs) W ->
  Done (f_coord F) = true -> right_output mapf0 reducef0 names n (read_fs fs) (read_fs (f_fs F)).
Proof.
  intros Hn Hin Hred HF HW Hd. rewrite (fi_coord _ _ _ _ _ _ _ HF) in Hd.
  destruct (done_right_output mapf0 reducef0 names n (read_fs fs) W Hn Hin Hred HW Hd) as (outs&sequential&fs'&Ho&Hrest).
  exists outs, sequential, fs'. split; [|exact Hrest]. intros r Hlt. rewrite <-(Ho r Hlt). apply (fi_files _ _ _ _ _ _ _ HF), (temp_out r).
Qed.

Lemma exclusive_right_output names n fs F :
  (forall d f c kva, mapf d f c = Some kva -> kva = mapf0 f c) -> (forall d k vs o, reducef d k vs = Some o -> o = reducef0 k vs) ->
  (0 < n)%nat -> fs_ok fs -> job_input mapf0 names (read_fs fs) -> order_insensitive reducef0 ->
  rtc (exclusive_step mapf reducef) (mkFine (MakeCoordinator names n) fs []) F ->
  Done (f_coord F) = true -> right_output mapf0 reducef0 names n (read_fs fs) (read_fs (f_fs F)).
Proof.
  intros Hm Hr Hn Hok Hin Hred Hs Hd. pose proof Hin as [Hf Hv].
  destruct (sim_steps mapf reducef mapf0 reducef0 Hm Hr names n (read_fs fs) Hn Hf Hv
    (mkFine (MakeCoordinator names n) fs []) (mkWorld (MakeCoordinator names n) (read_fs fs) []) F) as (W&_&HF&HW);
    [by apply fine_init|by apply job_init_inv|by constructor|done|]. by eapply fine_right_output.
Qed.


(** C27: a job survives crashing applications. The workers write their files piece by piece
    and may die at any point, in the middle of a file or inside a call of the application;
    files they have left behind are truncated and written again. As long as the coordinator
    takes back only tasks of workers that are dead, (1) when it reports the job done the
    output files hold together exactly the lines the sequential program prints with the
    application that does not crash; (2) from every state reached the job can be
    completed. *)
Theorem job_survives_crashes names n fs F :
  crashes_only -> names <> [] -> (0 < n)%nat -> fs_ok fs -> job_input mapf0 names (read_fs fs) -> order_insensitive reducef0 ->
  rtc (prompt_step mapf reducef) (mkFine (MakeCoordinator names n) fs []) F ->
  (Done (f_coord F) = true -> right_output mapf0 reducef0 names n (read_fs fs) (read_fs (f_fs F))) /\
  exists F', rtc (prompt_step mapf reducef) F F' /\ Done (f_coord F') = true.
Proof.
  intros [Hm Hr Hma Hra] Hne Hn Hok Hin Hred Hs. pose proof Hin as [Hf Hv].
  assert (Hl : live mapf0 reducef0 names n (read_fs fs) (mkFine (MakeCoordinator names n) fs [])).
  { destruct (init_idle names n Hne Hn) as [_ _ _ ? ?]. split; [done|]. split; [by split|].
    eexists. split; [by apply fine_init|by apply job_init_inv]. }
  pose proof (live_steps mapf reducef mapf0 reducef0 Hm Hr names n (read_fs fs) Hn Hf Hv _ F Hl Hs) as HlF. split.
  - intros Hd. destruct HlF as (_&_&W&HF&HW). by eapply fine_right_output.
  - by eapply (live_completes mapf reducef mapf0 reducef0 Hm Hr Hma Hra names n (read_fs fs) Hn Hf Hv).
Qed.
End theorems.
