(* ===== verification/MrPlugins.v ===== *)
(** * mrapps: the applications that test the workers

    [crash] and [nocrash], [early_exit], [jobcount], [mtiming] and [rtiming]. Random numbers,
    process identifiers, the directory, the clock and the live processes are arguments; a
    delay is part of the result or splits an operation in two; [None] is the end of the
    process. What [crash] does to a job follows from [MrFineProps]; the counts of [jobcount]
    and of [nparallel] are what they should be. *)
From stdpp Require Import sorting pretty.
From Stdlib Require Import Ascii.
From S2P Require Import Prelude MrCoordinator MrProps MapReduce MapReduceData Names MrJob MrJobProps MrApps MrFine MrFineProps.

(** ** crash and nocrash *)

(** The numbers drawn from 1000 and from 10000. *)
Record Draws := mkDraws { rr : Z; ms : Z }.

Definition crash_map (filename contents : string) : list KeyValue :=
  [mkKeyValue "a" filename; mkKeyValue "b" (pretty (Z.of_nat (String.length filename)));
   mkKeyValue "c" (pretty (Z.of_nat (String.length contents))); mkKeyValue "d" "xyzzy"].
Definition crash_reduce (key : string) (values : list string) : string :=
  String.concat " " (Indexer.sort_Strings values).

Module Crash.
(** The milliseconds slept. *)
Definition maybeCrash (d : Draws) : option Z :=
  if decide (rr d < 330) then None
  else if decide (rr d < 660) then Some (ms d)
  else Some 0.
Definition Map (d : Draws) (filename contents : string) : option (list KeyValue) :=
  match maybeCrash d with Some _ => Some (crash_map filename contents) | None => None end.
Definition Reduce (d : Draws) (key : string) (values : list string) : option string :=
  match maybeCrash d with Some _ => Some (crash_reduce key values) | None => None end.
End Crash.

Module Nocrash.
(** [if false && ...] *)
Definition maybeCrash (d : Draws) : option unit := if false && bool_decide (rr d < 500) then None else Some tt.
Definition Map (d : Draws) (filename contents : string) : option (list KeyValue) :=
  match maybeCrash d with Some _ => Some (crash_map filename contents) | None => None end.
Definition Reduce (d : Draws) (key : string) (values : list string) : option string :=
  match maybeCrash d with Some _ => Some (crash_reduce key values) | None => None end.
End Nocrash.

Lemma crash_order_insensitive : order_insensitive crash_reduce.
Proof. intros k vs vs' Hp. unfold crash_reduce. by rewrite (sort_Strings_perm vs vs' Hp). Qed.

(** [crash] ends the process or answers what [nocrash] does; [nocrash] always answers. *)
Lemma nocrash_answers d f c k vs : Nocrash.Map d f c = Some (crash_map f c) /\ Nocrash.Reduce d k vs = Some (crash_reduce k vs).
Proof. done. Qed.
Lemma crash_crashes_only : crashes_only Crash.Map Crash.Reduce crash_map crash_reduce.
Proof.
  split.
  - intros d f c kva. unfold Crash.Map. destruct (Crash.maybeCrash d); [|done]. by intros [= <-].
  - intros d k vs o. unfold Crash.Reduce. destruct (Crash.maybeCrash d); [|done]. by intros [= <-].
  - intros f c. exists (mkDraws 999 0). by eexists.
  - intros k vs. exists (mkDraws 999 0). by eexists.
Qed.

(** ** A job of crash *)

Module Example_crash.
Definition names : list string := ["t"].
Definition fs : FS := fs_of [("t", "abc")].

Lemma fs_is_ok : fs_ok fs.
Proof.
  split.
  - intros f ino Hf. assert (f = "t" /\ ino = 0%nat) as [-> ->]; [|cbn; lia].
    change (({["t" := 0%nat]} : gmap string nat) !! f = Some ino) in Hf. by apply lookup_singleton_Some in Hf as [<- <-].
  - intros f f' ino Hf Hf'. change (({["t" := 0%nat]} : gmap string nat) !! f = Some ino) in Hf.
    change (({["t" := 0%nat]} : gmap string nat) !! f' = Some ino) in Hf'.
    apply lookup_singleton_Some in Hf as [<- _], Hf' as [<- _]. done.
Qed.

Lemma crash_input : job_input crash_map names (read_fs fs).
Proof.
  split.
  - intros f Hf. apply list_elem_of_singleton in Hf as ->. split; [by eexists|done].
  - intros [|i]; [|by destruct i]. vm_compute. repeat constructor.
Qed.

Definition go (k : nat) : FineEvent Draws := Run k (mkDraws 999 0).
Definition die (k : nat) : FineEvent Draws := Run k (mkDraws 0 0).
Definition start : FineWorld := mkFine (MakeCoordinator names 1) fs [].
Definition run (evs : list (FineEvent Draws)) : option FineWorld := fine_run Crash.Map Crash.Reduce evs start.

(** Worker 0 maps; the application ends it in the middle of its reduce task; the task times
    out and worker 1 does it. *)
Definition recovery : list (FineEvent Draws) :=
  [Launch; go 0; go 0; go 0; go 0; go 0; go 0; go 0; go 0; go 0; go 0; go 0; go 0; go 0; die 0;
   ReduceTimeout 0; Launch; go 1; go 1; go 1; go 1; go 1; go 1; go 1; go 1].

(** Worker 0 is slow. The map task times out when it has written its file, and worker 1
    starts the task again; the report of worker 0 counts. The reduce task times out while
    worker 0 has its output open, and worker 1 is given the task too; when worker 0 has
    renamed the file worker 1 creates it again, and worker 0 reports while worker 1 is
    writing. *)
Definition overlap : list (FineEvent Draws) :=
  [Launch; go 0; go 0; go 0; go 0; go 0; go 0; go 0; go 0; MapTimeout 0; Launch; go 1; go 1; go 1; go 0;
   go 0; go 0; go 0; go 0; go 1; go 1; go 1; go 1; go 1; go 1; ReduceTimeout 0; go 1; go 0; go 0; go 0;
   go 1; go 1; go 0].

(** Worker 0 writes its output slowly; the task times out and worker 1 creates the same
    temporary file again before the application ends it; then worker 0 renames it. *)
Definition slow : list (FineEvent Draws) :=
  [Launch; go 0; go 0; go 0; go 0; go 0; go 0; go 0; go 0; go 0; go 0; go 0; go 0; go 0; go 0; go 0;
   ReduceTimeout 0; Launch; go 1; go 1; die 1; go 0; go 0].

Definition summary (w : FineWorld) : bool * list FineState * option string :=
  (Done (f_coord w), f_workers w, read_fs (f_fs w) !! "mr-out-0").
Definition out_lines : string := reduce_line "a" "t" +:+ reduce_line "b" "1" +:+ reduce_line "c" "3" +:+ reduce_line "d" "xyzzy".

Lemma recovery_runs : summary <$> run recovery = Some (true, [At Exited; At Idle], Some out_lines).
Proof. vm_compute. reflexivity. Qed.
Lemma slow_runs : summary <$> run slow = Some (true, [At Idle; At Exited], Some "").
Proof. vm_compute. reflexivity. Qed.

(** Along the first run only the task of a dead worker times out. *)
Definition promptb (ev : FineEvent Draws) (w : FineWorld) : bool :=
  match ev with
  | MapTimeout index => forallb (fun s => match holds s with Some (HeldMap i) => bool_decide (i <> index) | _ => true end) (f_workers w)
  | ReduceTimeout index => forallb (fun s => match holds s with Some (HeldReduce i) => bool_decide (i <> index) | _ => true end) (f_workers w)
  | _ => true
  end.
Fixpoint prompt_run (evs : list (FineEvent Draws)) (w : FineWorld) : option FineWorld :=
  match evs with
  | [] => Some w
  | ev :: evs =>
      if promptb ev w then match fine_exec Crash.Map Crash.Reduce ev w with Some w => prompt_run evs w | None => None end else None
  end.
Lemma promptb_prompt ev w : promptb ev w = true -> prompt ev w.
Proof.
  destruct ev as [k d|k| |index|index]; cbn; try done; intros Hall%forallb_Forall s Hs E;
    rewrite Forall_forall in Hall; specialize (Hall s Hs); cbn in Hall; rewrite E in Hall; by apply bool_decide_eq_true in Hall.
Qed.
Lemma prompt_run_steps evs w w' : prompt_run evs w = Some w' -> rtc (prompt_step Crash.Map Crash.Reduce) w w'.
Proof.
  revert w. induction evs as [|ev evs IH]; intros w; cbn [prompt_run]; [intros [= <-]; apply rtc_refl|].
  destruct (promptb ev w) eqn:Hp; [|done]. destruct (fine_exec _ _ ev w) as [w1|] eqn:E; [|done]. intros Hr.
  eapply rtc_l; [exists ev; split; [by apply promptb_prompt|exact E]|by apply IH].
Qed.
Lemma recovery_prompt : summary <$> prompt_run recovery start = Some (true, [At Exited; At Idle], Some out_lines).
Proof. vm_compute. reflexivity. Qed.
End Example_crash.

(** Along a run no two workers have one file open. *)
Module Example_overlap.
Import Example_crash.
#[local] Instance exclusive_dec w : Decision (exclusive w).
Proof. unfold exclusive. apply _. Defined.
Fixpoint exclusive_run (evs : list (FineEvent Draws)) (w : FineWorld) : option FineWorld :=
  match evs with
  | [] => Some w
  | ev :: evs =>
      match fine_exec Crash.Map Crash.Reduce ev w with
      | Some w => if decide (exclusive w) then exclusive_run evs w else None
      | None => None
      end
  end.
Lemma exclusive_run_steps evs w w' : exclusive_run evs w = Some w' -> rtc (exclusive_step Crash.Map Crash.Reduce) w w'.
Proof.
  revert w. induction evs as [|ev evs IH]; intros w; cbn [exclusive_run]; [intros [= <-]; apply rtc_refl|].
  destruct (fine_exec _ _ ev w) as [w1|] eqn:E; [|done]. destruct (decide _) as [Hex|]; [|done]. intros Hr.
  eapply rtc_l; [split; [exact Hex|by exists ev]|by apply IH].
Qed.

(** In the run [overlap] tasks time out whose workers are alive; worker 1 is still writing
    when the job is done. *)
Lemma overlap_runs : (fun w => (Done (f_coord w), temp_of <$> f_workers w, read_fs (f_fs w) !! "mr-out-0")) <$>
  exclusive_run overlap start = Some (true, [None; Some "mr-out-0.tmp"], Some out_lines).
Proof. vm_compute. reflexivity. Qed.
Lemma slow_not_exclusive : exclusive_run slow start = None.
Proof. vm_compute. reflexivity. Qed.
End Example_overlap.


(** The job in which worker 0 is ended in the middle of its output. *)
Lemma job_survives_crashes_witness : exists F,
  Example_crash.prompt_run Example_crash.recovery Example_crash.start = Some F /\
  right_output crash_map crash_reduce Example_crash.names 1 (read_fs Example_crash.fs) (read_fs (f_fs F)).
Proof.
  pose proof Example_crash.recovery_prompt as Hr.
  destruct (Example_crash.prompt_run Example_crash.recovery Example_crash.start) as [F|] eqn:E; [|discriminate Hr].
  exists F. split; [reflexivity|].
  apply (job_survives_crashes Crash.Map Crash.Reduce crash_map crash_reduce Example_crash.names 1 Example_crash.fs F
    crash_crashes_only ltac:(discriminate) ltac:(lia) Example_crash.fs_is_ok Example_crash.crash_input crash_order_insensitive
    (Example_crash.prompt_run_steps _ _ _ E)).
  cbn in Hr. injection Hr as Hd _ _. exact Hd.
Defined.

Lemma concat_empty l : concat_string l = "" -> Forall (fun s => s = "") l.
Proof.
  induction l as [|s l IH]; [constructor|]. change (s +:+ concat_string l = "" -> Forall (fun s => s = "") (s :: l)).
  intros E. destruct s; [|done]. constructor; [done|by apply IH].
Qed.

(** C28: a worker that is slow, not dead, can lose the output of the job. All workers on a
    reduce task write to one temporary file. There is an execution of [crash] on one input
    with one reduce task in which worker 0 has written all lines, the task times out and
    worker 1 truncates the file and is ended by the application, and worker 0 renames the
    file and reports: the coordinator says the job is done, nobody is at work any more, and
    [mr-out-0] is empty where the sequential program prints a line for each of the keys. *)
Theorem slow_worker_loses_output : exists evs F,
  fine_run Crash.Map Crash.Reduce evs (mkFine (MakeCoordinator ["t"] 1) (fs_of [("t", "abc")]) []) = Some F /\
  Done (f_coord F) = true /\ f_workers F = [At Idle; At Exited] /\ read_fs (f_fs F) !! "mr-out-0" = Some "" /\
  ~ right_output crash_map crash_reduce ["t"] 1 (read_fs (fs_of [("t", "abc")])) (read_fs (f_fs F)).
Proof.
  pose proof Example_crash.slow_runs as Hr. exists Example_crash.slow. unfold Example_crash.run, Example_crash.start in Hr.
  destruct (fine_run _ _ _ _) as [F|] eqn:E; [|done]. exists F. injection Hr as Hd Hw Ho. split_and!; [done..|].
  intros (outs&sequential&fs'&Hall&_&_&Hp&_). specialize (Hall 0%nat ltac:(lia)).
  change (output_name (Z.of_nat 0)) with "mr-out-0" in Hall. rewrite Ho in Hall. injection Hall as Hall. symmetry in Hall. apply concat_empty in Hall.
  cbn in Hp. rewrite app_nil_r in Hp. rewrite Hp in Hall. revert Hall. unfold lines. vm_compute. intros Hall. apply Forall_inv in Hall. discriminate Hall.
Qed.

(** ** early_exit *)

Module EarlyExit.
Definition strings_Contains (s substr : string) : bool := bool_decide (is_Some (String.index 0 substr s)).
Definition Map (filename contents : string) : list KeyValue := [mkKeyValue filename "1"].
(** The answer and the seconds slept before it. *)
Definition Reduce (key : string) (values : list string) : string * Z :=
  (pretty (Z.of_nat (length values)), if strings_Contains key "sherlock" || strings_Contains key "tom" then 3 else 0).
End EarlyExit.

(** ** jobcount *)

Module Jobcount.
(** [count] is a variable of the process. *)
Definition file (me count : Z) : string := "mr-worker-jobcount-" +:+ pretty me +:+ "-" +:+ pretty count.
Definition Map (me : Z) (filename contents : string) : M (Z * Files) (list KeyValue) :=
  let! s := get in
  let f := file me s.1 in
  do! modify (fun s => (s.1 + 1, s.2));
  do! modify (fun s => (s.1, <[f := "x"]> s.2));
  ret [mkKeyValue "a" "x"].
Definition counted (f : string) : bool := String.prefix "mr-worker-jobcount" f.
Definition Reduce (key : string) (values : list string) (fs : Files) : string :=
  pretty (Z.of_nat (length (filter (fun f => counted f = true) (map_to_list fs).*1))).

(** The processes in [calls] call [Map] in turn, each with its own [count]. *)
Fixpoint maps (calls : list nat) (counts : gmap nat Z) (fs : Files) : option (gmap nat Z * Files) :=
  match calls with
  | [] => Some (counts, fs)
  | p :: calls =>
      match Map (Z.of_nat p) "" "" (default 0 (counts !! p), fs) with
      | Some (_, (c, fs)) => maps calls (<[p := c]> counts) fs
      | None => None
      end
  end.

(** The files there are those of earlier calls. *)
Definition only_counted (counts : gmap nat Z) (fs : Files) : Prop :=
  forall f, counted f = true -> is_Some (fs !! f) -> exists p c : nat, f = file (Z.of_nat p) (Z.of_nat c) /\ Z.of_nat c < default 0 (counts !! p).
Definition nonnegative (counts : gmap nat Z) : Prop := forall p c, counts !! p = Some c -> 0 <= c.

Lemma file_inj p c p' c' : file (Z.of_nat p) (Z.of_nat c) = file (Z.of_nat p') (Z.of_nat c') -> p = p' /\ c = c'.
Proof.
  unfold file. intros E%(inj (String.append "mr-worker-jobcount-")). apply split_dash in E as [E1 E2]; [|apply pretty_plain..].
  apply (inj pretty) in E1, E2. lia.
Qed.
Lemma file_counted p c : counted (file p c) = true.
Proof.
  unfold counted, file. change ("mr-worker-jobcount-" +:+ pretty p +:+ "-" +:+ pretty c)
    with ("mr-worker-jobcount" +:+ (String "-" (pretty p +:+ "-" +:+ pretty c))). apply prefix_app.
Qed.

Definition count_files (fs : Files) : nat := length (filter (fun f => counted f = true) (map_to_list fs).*1).
Lemma count_files_insert f v fs : counted f = true -> fs !! f = None -> count_files (<[f := v]> fs) = S (count_files fs).
Proof.
  intros Hc Hf. unfold count_files. rewrite map_to_list_insert by done. rewrite fmap_cons, filter_cons_True by done. done.
Qed.

Lemma maps_count calls : forall counts fs, only_counted counts fs -> nonnegative counts ->
  exists counts' fs', maps calls counts fs = Some (counts', fs') /\ count_files fs' = (length calls + count_files fs)%nat.
Proof.
  induction calls as [|p calls IH]; intros counts fs Ho Hnn; [by exists counts, fs|].
  cbn [maps Map get bind modify ret fst snd]. unfold Map, get, bind, modify, ret. cbn [fst snd].
  assert (Hc : 0 <= default 0 (counts !! p)) by (destruct (counts !! p) eqn:E; cbn; [by eapply Hnn|lia]).
  set (c := default 0 (counts !! p)) in *. set (f := file (Z.of_nat p) c).
  assert (Ef : f = file (Z.of_nat p) (Z.of_nat (Z.to_nat c))) by (unfold f; by rewrite Z2Nat.id).
  assert (Hf : fs !! f = None).
  { apply eq_None_not_Some. intros Hs. destruct (Ho f (file_counted _ _) Hs) as (p'&c'&E&Hlt). rewrite Ef in E. apply file_inj in E as [<- <-]. fold c in Hlt. lia. }
  destruct (IH (<[p := c + 1]> counts) (<[f := "x"]> fs)) as (counts'&fs'&Hr&Hn).
  - intros g Hg Hs. destruct (decide (g = f)) as [->|Hne].
    + exists p, (Z.to_nat c). split; [done|]. rewrite lookup_insert_eq. cbn. lia.
    + rewrite lookup_insert_ne in Hs by done. destruct (Ho g Hg Hs) as (p'&c'&->&Hlt). exists p', c'. split; [done|].
      destruct (decide (p = p')) as [<-|Hp]; [rewrite lookup_insert_eq; cbn; fold c in Hlt; lia|by rewrite lookup_insert_ne].
  - intros p' c' [[_ <-]|[_ ?]]%lookup_insert_Some; [lia|by eapply Hnn].
  - exists counts', fs'. split; [exact Hr|]. rewrite Hn, (count_files_insert f); [cbn; lia|apply file_counted|done].
Qed.

(** Starting from a directory without its files, however the calls of [Map] are spread over
    processes, [Reduce] prints how many there were: a map task done twice shows. *)
Theorem jobcount_counts calls fs key values : (forall f, counted f = true -> fs !! f = None) ->
  exists counts' fs', maps calls ∅ fs = Some (counts', fs') /\ Reduce key values fs' = pretty (Z.of_nat (length calls)).
Proof.
  intros Hfs. destruct (maps_count calls ∅ fs) as (counts'&fs'&Hr&Hn).
  - intros f Hc [v Hv]. by rewrite Hfs in Hv.
  - by intros p c.
  - exists counts', fs'. split; [done|]. unfold Reduce. fold (count_files fs'). rewrite Hn. replace (count_files fs) with 0%nat; [by rewrite Nat.add_0_r|].
    unfold count_files. destruct (filter _ _) as [|f l] eqn:E; [done|]. assert (Hin : f ∈ f :: l) by set_solver. rewrite <-E in Hin.
    apply list_elem_of_filter in Hin as [Hc Hin]. apply list_elem_of_fmap in Hin as ([g v]&->&Hg%elem_of_map_to_list). cbn in Hc. by rewrite Hfs in Hg.
Qed.
End Jobcount.

(** ** mtiming and rtiming *)

(** [fmt.Sscanf] with [%d] behind a fixed text: spaces, a sign and at least one digit;
    what follows is left over. Numbers of more than 63 bits are an error. *)
Definition is_digit (c : ascii) : bool := (48 <=? N_of_ascii c)%N && (N_of_ascii c <=? 57)%N.
Definition digit (c : ascii) : Z := Z.of_N (N_of_ascii c) - 48.
Fixpoint scan_digits (s : string) (seen : bool) (acc : Z) : option Z :=
  match s with
  | EmptyString => if seen then Some acc else None
  | String c s =>
      if is_digit c then scan_digits s true (10 * acc + digit c)
      else if seen then Some acc else None
  end.
Definition scan_int (s : string) : option Z :=
  let signed := match s with
                | String "-" s => Z.opp <$> scan_digits s false 0
                | String "+" s => scan_digits s false 0
                | _ => scan_digits s false 0
                end in
  match signed with
  | Some x => if decide (- 2 ^ 63 <= x < 2 ^ 63) then Some x else None
  | None => None
  end.
Fixpoint skip_space (s : string) : string :=
  match s with
  | String c s' => if bool_decide (c ∈ [" "%char; "009"%char; "011"%char; "012"%char; "013"%char]) then skip_space s' else s
  | EmptyString => s
  end.
Definition Sscanf_d (text name : string) : option Z :=
  match AsciiJson.expect text name with
  | Some rest => scan_int (skip_space rest)
  | None => None
  end.

(** What [%d] prints, [%d] reads. *)
Lemma digit_char (y : N) : (y < 10)%N -> is_digit (pretty_N_char y) = true /\ digit (pretty_N_char y) = Z.of_N y.
Proof.
  intros Hy. assert (Hc : forall k : nat, (k < 10)%nat -> is_digit (pretty_N_char (N.of_nat k)) = true /\ digit (pretty_N_char (N.of_nat k)) = Z.of_nat k).
  { intros k Hk. do 10 (destruct k as [|k]; [done|]). lia. }
  specialize (Hc (N.to_nat y) ltac:(lia)). rewrite N2Nat.id in Hc. by rewrite N_nat_Z in Hc.
Qed.

Lemma scan_pretty_go x : (0 < x)%N -> forall s,
  (exists c t, pretty_N_go x s = String c t /\ is_digit c = true) /\
  scan_digits (pretty_N_go x s) false 0 = scan_digits s true (Z.of_N x).
Proof.
  induction (N.lt_wf_0 x) as [x _ IH]. intros Hx s. rewrite pretty_N_go_step by done.
  destruct (digit_char (x `mod` 10)) as [Hd Hv]; [by apply N.mod_lt|]. pose proof (N.div_mod x 10 ltac:(done)) as Hdm.
  destruct (N.eq_0_gt_0_cases (x `div` 10)) as [E|E].
  - rewrite E, pretty_N_go_0. split; [by eexists _, _|]. cbn [scan_digits]. rewrite Hd, Hv. f_equal. lia.
  - destruct (IH (x `div` 10)%N (N.div_lt x 10 Hx ltac:(done)) E (String (pretty_N_char (x `mod` 10)) s)) as [Hex Hscan].
    split; [exact Hex|]. rewrite Hscan. cbn [scan_digits]. rewrite Hd, Hv. f_equal. lia.
Qed.

Lemma digit_plain c : is_digit c = true ->
  bool_decide (c ∈ [" "%char; "009"%char; "011"%char; "012"%char; "013"%char]) = false /\ c <> "-"%char /\ c <> "+"%char.
Proof.
  intros Hd. split_and!; [apply bool_decide_eq_false; intros Hin|intros ->; discriminate Hd..].
  repeat (apply elem_of_cons in Hin as [->|Hin]; [discriminate Hd|]). by apply elem_of_nil in Hin.
Qed.
Lemma scan_int_digits c s : is_digit c = true -> scan_int (String c s) =
  match scan_digits (String c s) false 0 with Some x => if decide (- 2 ^ 63 <= x < 2 ^ 63) then Some x else None | None => None end.
Proof.
  intros (_&Hm&Hp)%digit_plain. unfold scan_int.
  destruct c as [b0 b1 b2 b3 b4 b5 b6 b7]. destruct b0, b1, b2, b3, b4, b5, b6, b7; try reflexivity; done.
Qed.

Lemma Sscanf_pretty text p : 0 < p < 2 ^ 63 -> Sscanf_d text (text +:+ pretty p) = Some p.
Proof.
  intros Hp. unfold Sscanf_d. rewrite AsciiJson.expect_app. destruct p as [|p|p]; [lia| |lia].
  change (pretty (Z.pos p)) with (pretty_N_go (N.pos p) ""). destruct (scan_pretty_go (N.pos p) ltac:(done) "") as [(c&t&E&Hd) Hs].
  rewrite E in Hs |- *. cbn [skip_space]. rewrite (proj1 (digit_plain c Hd)), (scan_int_digits c t Hd), Hs. cbn [scan_digits].
  by rewrite decide_True by lia.
Qed.

Module Timing.
Record Sys := mkSys { sys_dir : Files; sys_alive : gset Z }.

Definition worker_file (phase : string) (pid : Z) : string := "mr-worker-" +:+ phase +:+ "-" +:+ pretty pid.
(** One name of the directory; [syscall.Kill(xpid, 0)] succeeds for a process that is there. *)
Definition counts_as (phase : string) (alive : gset Z) (name : string) : bool :=
  match Sscanf_d ("mr-worker-" +:+ phase +:+ "-") name with
  | Some xpid => bool_decide (xpid ∈ alive)
  | None => false
  end.
(** Up to [time.Sleep], in a directory of at most a million files. *)
Definition nparallel_enter (phase : string) (pid : Z) : M Sys Z :=
  do! modify (fun s => mkSys (<[worker_file phase pid := "x"]> (sys_dir s)) (sys_alive s));
  let! s := get in
  ret (Z.of_nat (length (filter (fun name => counts_as phase (sys_alive s) name = true) (map_to_list (sys_dir s)).*1))).
(** And from there on; [os.Remove] of a missing file is an error. *)
Definition nparallel_leave (phase : string) (pid : Z) : M Sys unit :=
  let! s := get in
  match sys_dir s !! worker_file phase pid with
  | Some _ => modify (fun s => mkSys (delete (worker_file phase pid) (sys_dir s)) (sys_alive s))
  | None => panic
  end.

(** [rtiming] has a copy of its own. *)
Definition rtiming_enter : Z -> M Sys Z := nparallel_enter "reduce".
Definition rtiming_leave : Z -> M Sys unit := nparallel_leave "reduce".

(** The two applications, given what [nparallel] returned; [ts] is the formatted time. *)
Definition mtiming_Map (pid : Z) (ts : string) (n : Z) (filename contents : string) : list KeyValue :=
  [mkKeyValue ("times-" +:+ pretty pid) ts; mkKeyValue ("parallel-" +:+ pretty pid) (pretty n)].
Definition mtiming_Reduce (key : string) (values : list string) : string := String.concat " " (Indexer.sort_Strings values).
Definition rtiming_Map (filename contents : string) : list KeyValue :=
  (fun k => mkKeyValue k "1") <$> ["a"; "b"; "c"; "d"; "e"; "f"; "g"; "h"; "i"; "j"].
Definition rtiming_Reduce (n : Z) (key : string) (values : list string) : string := pretty n.

(** *** Processes that come, go and die *)

Section processes.
Variable phase : string.

Record TState := mkTState { t_sys : Sys; t_inside : gset Z; t_used : gset Z }.

Inductive TStep (s : TState) : TState -> Prop :=
  | ts_start p : 0 < p < 2 ^ 22 -> p ∉ t_used s ->
      TStep s (mkTState (mkSys (sys_dir (t_sys s)) ({[p]} ∪ sys_alive (t_sys s))) (t_inside s) ({[p]} ∪ t_used s))
  | ts_enter p n sys : p ∈ sys_alive (t_sys s) -> p ∈ t_used s -> p ∉ t_inside s -> nparallel_enter phase p (t_sys s) = Some (n, sys) ->
      TStep s (mkTState sys ({[p]} ∪ t_inside s) (t_used s))
  | ts_leave p sys : p ∈ t_inside s -> nparallel_leave phase p (t_sys s) = Some (tt, sys) ->
      TStep s (mkTState sys (t_inside s ∖ {[p]}) (t_used s))
  | ts_die p : TStep s (mkTState (mkSys (sys_dir (t_sys s)) (sys_alive (t_sys s) ∖ {[p]})) (t_inside s ∖ {[p]}) (t_used s)).

Definition start (dir : Files) : TState := mkTState (mkSys dir ∅) ∅ ∅.

(** The files of the phase are those of processes inside and of some that died there. *)
Record t_ok (s : TState) : Prop := {
  tk_pids p : p ∈ t_used s -> 0 < p < 2 ^ 22;
  tk_alive p : p ∈ sys_alive (t_sys s) -> p ∈ t_used s;
  tk_inside p : p ∈ t_inside s -> p ∈ sys_alive (t_sys s) /\ is_Some (sys_dir (t_sys s) !! worker_file phase p);
  tk_files f : is_Some (sys_dir (t_sys s) !! f) -> Sscanf_d ("mr-worker-" +:+ phase +:+ "-") f = None \/
    exists p, f = worker_file phase p /\ p ∈ t_used s /\ (p ∈ sys_alive (t_sys s) -> p ∈ t_inside s)
}.

Lemma worker_file_text p : worker_file phase p = ("mr-worker-" +:+ phase +:+ "-") +:+ pretty p.
Proof. unfold worker_file. by rewrite !string_app_assoc. Qed.
Lemma worker_file_scan p : 0 < p < 2 ^ 22 -> Sscanf_d ("mr-worker-" +:+ phase +:+ "-") (worker_file phase p) = Some p.
Proof. intros Hp. rewrite worker_file_text. apply Sscanf_pretty. lia. Qed.
Lemma worker_file_inj p p' : worker_file phase p = worker_file phase p' -> p = p'.
Proof. rewrite !worker_file_text. intros E%(inj (String.append _)). by apply (inj pretty) in E. Qed.

(** A process enters. *)
Lemma enter_ok s p : t_ok s -> p ∈ sys_alive (t_sys s) -> p ∈ t_used s -> exists n sys,
  nparallel_enter phase p (t_sys s) = Some (n, sys) /\ n = Z.of_nat (size ({[p]} ∪ t_inside s)) /\
  t_ok (mkTState sys ({[p]} ∪ t_inside s) (t_used s)).
Proof.
  intros [Hpid Hal Hin Hfi] Ha Hu. set (dir := <[worker_file phase p := "x"]> (sys_dir (t_sys s))).
  assert (Hok : t_ok (mkTState (mkSys dir (sys_alive (t_sys s))) ({[p]} ∪ t_inside s) (t_used s))).
  { split; cbn; [done|done| |].
    - intros q [->%elem_of_singleton|Hq]%elem_of_union; [split; [done|]; unfold dir; by rewrite lookup_insert_eq|].
      destruct (Hin q Hq). split; [done|]. unfold dir. apply lookup_insert_is_Some'. by right.
    - intros f Hf. destruct (decide (f = worker_file phase p)) as [->|Hne]; [right; exists p; split_and!; [done|done|set_solver]|].
      unfold dir in Hf. rewrite lookup_insert_ne in Hf by done. destruct (Hfi f Hf) as [?|(q&->&?&Hq)]; [by left|]. right. exists q. split_and!; [done|done|set_solver]. }
  eexists _, _. split; [reflexivity|]. split; [|exact Hok]. fold dir. f_equal. cbn [sys_alive sys_dir].
  change (size ({[p]} ∪ t_inside s)) with (length (elements ({[p]} ∪ t_inside s))).
  rewrite <-(length_fmap (worker_file phase)). apply Permutation_length, NoDup_Permutation.
  - apply NoDup_filter, NoDup_fst_map_to_list.
  - apply NoDup_fmap_2_strong; [|apply NoDup_elements]. intros x y _ _. apply worker_file_inj.
  - intros f. rewrite list_elem_of_filter, !list_elem_of_fmap. destruct Hok as [_ Hal' Hin' Hfi']. cbn in *. split.
    + intros [Hc ([g v]&->&Hg%elem_of_map_to_list)]. cbn in *.
      destruct (Hfi' g) as [E|(q&->&Hq&Hqi)]; [by eexists|unfold counts_as in Hc; by rewrite E in Hc|].
      exists q. split; [done|]. apply elem_of_elements, Hqi. unfold counts_as in Hc. rewrite worker_file_scan in Hc by auto. by apply bool_decide_eq_true in Hc.
    + intros (q&->&Hq%elem_of_elements). destruct (Hin' q Hq) as [Hqa [v Hv]]. split.
      * unfold counts_as. rewrite worker_file_scan by auto. by apply bool_decide_eq_true.
      * exists (worker_file phase q, v). split; [done|]. by apply elem_of_map_to_list.
Qed.

Lemma step_ok s s' : t_ok s -> TStep s s' -> t_ok s'.
Proof.
  intros Hok Hs. pose proof Hok as [Hpid Hal Hin Hfi]. destruct Hs as [p Hp Hnew|p n sys Ha Hu _ He|p sys Hp He|p].
  - split; cbn; [set_solver|set_solver| |].
    + intros q Hq. destruct (Hin q Hq). split; [set_solver|done].
    + intros f Hf. destruct (Hfi f Hf) as [?|(q&->&?&?)]; [by left|]. right. exists q. set_solver.
  - destruct (enter_ok s p Hok Ha Hu) as (n'&sys'&He'&_&Hok'). rewrite He in He'. by injection He' as <- <-.
  - unfold nparallel_leave, bind, get, modify in He. destruct (sys_dir (t_sys s) !! worker_file phase p); [|done]. injection He as <-. split; cbn; [done|done| |].
    + intros q [Hq Hne]%elem_of_difference. destruct (Hin q Hq). split; [done|]. rewrite lookup_delete_ne; [done|]. intros E%worker_file_inj. set_solver.
    + intros f [v Hf]. apply lookup_delete_Some in Hf as [Hne Hf]. destruct (Hfi f) as [?|(q&->&?&?)]; [by eexists|by left|]. right. exists q. set_solver.
  - split; cbn; [done|set_solver| |].
    + intros q [Hq Hne]%elem_of_difference. destruct (Hin q Hq). split; [set_solver|done].
    + intros f Hf. destruct (Hfi f Hf) as [?|(q&->&?&?)]; [by left|]. right. exists q. set_solver.
Qed.

(** The number a worker reports is the number of workers at the same place at the same
    time, itself included: leftover files of dead processes do not count, as long as
    process identifiers are not used again; and a worker that leaves finds its file. *)
Theorem nparallel_counts dir s p : (forall f, is_Some (dir !! f) -> Sscanf_d ("mr-worker-" +:+ phase +:+ "-") f = None) ->
  rtc TStep (start dir) s -> p ∈ sys_alive (t_sys s) ->
  (exists sys, nparallel_enter phase p (t_sys s) = Some (Z.of_nat (size ({[p]} ∪ t_inside s)), sys)) /\
  (p ∈ t_inside s -> is_Some (nparallel_leave phase p (t_sys s))).
Proof.
  intros Hd Hs Ha. assert (Hok : t_ok s).
  { assert (H0 : t_ok (start dir)) by (split; cbn; [set_solver..|]; intros f Hf; left; by apply Hd).
    clear Ha. induction Hs; [done|]. eauto using step_ok. }
  split.
  - destruct (enter_ok s p Hok Ha (tk_alive _ Hok p Ha)) as (n&sys&He&->&_). by exists sys.
  - intros Hp. destruct (tk_inside _ Hok p Hp) as [_ [v Hv]]. unfold nparallel_leave, bind, get. rewrite Hv. by eexists.
Qed.
End processes.

(** Two workers: the second to enter counts both; the file of a dead one is ignored. *)
Example two_workers :
  (fun p => p.1) <$> (do! nparallel_enter "map" 7; nparallel_enter "map" 12) (mkSys {["mr-worker-map-9" := "x"]} {[7; 12]}) = Some 2.
Proof. vm_compute. reflexivity. Qed.
End Timing.
