(* ===== verification/Drivers.v ===== *)
(** * main: the programs

    The entry points of [src/src/main]: what they do with their arguments before the work
    starts. An [Outcome] is how a process ends early (a usage message and exit status 1,
    [log.Fatalf], a panic) or what it goes on with. The [plugin] package is an interface
    ([Plugin]); of strconv the functions used are modelled. The packages [lockservice],
    [pbservice], [viewservice] and [diskv] are not in the repository: their programs go on
    with the call they make. *)
From stdpp Require Import pretty.
From Stdlib Require Import Ascii.
From S2P Require Import Prelude MrCoordinator MrProps MapReduce MapReduceData Names MrJob MrJobProps MrApps MrFine MrFineProps MrPlugins.

Inductive Outcome {A : Type} :=
  | UsageExit
  | LogFatal (message : string)
  | Panics
  | Proceeds (a : A).
Arguments Outcome : clear implicits.

Definition obind {A B} (o : Outcome A) (f : A -> Outcome B) : Outcome B :=
  match o with
  | UsageExit => UsageExit
  | LogFatal m => LogFatal m
  | Panics => Panics
  | Proceeds a => f a
  end.

(** [os.Args[i]]. *)
Definition arg (args : list string) (i : nat) : Outcome string :=
  match args !! i with Some a => Proceeds a | None => Panics end.

(** ** MapReduce *)

(** What [Lookup] returns, by its type. *)
Inductive Symbol :=
  | MapSymbol (mapf : string -> string -> list KeyValue)
  | ReduceSymbol (reducef : string -> list string -> string)
  | OtherSymbol.

(** [plugin.Open] and [Lookup]; [None] is an error. *)
Class Plugin := plugin_Open : string -> option (string -> option Symbol).

Section mapreduce.
Context `{Plugin} {J : Json} {SB : SortByKey}.

Definition loadPlugin (filename : string)
  : Outcome ((string -> string -> list KeyValue) * (string -> list string -> string)) :=
  match plugin_Open filename with
  | None => LogFatal ("cannot load plugin " +:+ filename)
  | Some p =>
      match p "Map" with
      | None => LogFatal ("cannot find Map in " +:+ filename)
      | Some (MapSymbol mapf) =>
          match p "Reduce" with
          | None => LogFatal ("cannot find Reduce in " +:+ filename)
          | Some (ReduceSymbol reducef) => Proceeds (mapf, reducef)
          | Some _ => Panics
          end
      | Some _ => Panics
      end
  end.

(** mrsequential.go *)
Definition mrsequential (args : list string) (fs : Files) : Outcome (option (unit * Files)) :=
  if decide (length args < 3)%nat then UsageExit else
  obind (arg args 1) (fun filename =>
  obind (loadPlugin filename) (fun '(mapf, reducef) =>
  Proceeds (mrsequential_main mapf reducef (drop 2 args) fs))).

(** mrworker.go has the same [loadPlugin]; it goes on with [mr.Worker(mapf, reducef)]. *)
Definition mrworker_loadPlugin (filename : string) := loadPlugin filename.
Definition mrworker (args : list string)
  : Outcome ((string -> string -> list KeyValue) * (string -> list string -> string)) :=
  if decide (length args <> 2)%nat then UsageExit else
  obind (arg args 1) mrworker_loadPlugin.

(** mrcoordinator.go: the coordinator it makes, and the loop that polls it; [polls] are the
    states of the coordinator at the calls of [Done], the result the state at the last. *)
Definition mrcoordinator (args : list string) : Outcome Coordinator :=
  if decide (length args < 2)%nat then UsageExit else Proceeds (MakeCoordinator (drop 1 args) 10).
Fixpoint await_Done (polls : list Coordinator) : option Coordinator :=
  match polls with
  | [] => None
  | m :: polls => if Done m then Some m else await_Done polls
  end.
End mapreduce.

(** ** strconv *)

Inductive NumError := ErrSyntax | ErrRange.

Definition digit (c : ascii) : option Z :=
  let d := Z.of_N (N_of_ascii c) - 48 in
  if decide (0 <= d <= 9) then Some d else None.

(** [ParseUint(s, 10, 64)] from [n] on, with the error that stops it. *)
Fixpoint ParseUint_loop (n : Z) (s : string) : Z + NumError :=
  match s with
  | EmptyString => inl n
  | String c s =>
      match digit c with
      | None => inr ErrSyntax
      | Some d =>
          if decide (n >= (2 ^ 64 - 1) `quot` 10 + 1) then inr ErrRange
          else if decide (n * 10 + d > 2 ^ 64 - 1) then inr ErrRange
          else ParseUint_loop (n * 10 + d) s
      end
  end.
Definition ParseUint (s : string) : Z + NumError :=
  match s with EmptyString => inr ErrSyntax | _ => ParseUint_loop 0 s end.

(** The value [ParseInt(s, 10, 64)] returns, the error being ignored: 0 for what is not a
    number, the nearest 64-bit number for one that is too large. *)
Definition ParseInt (s : string) : Z :=
  let '(neg, s) := match s with
    | String c rest => if decide (c = "+"%char) then (false, rest) else if decide (c = "-"%char) then (true, rest) else (false, s)
    | EmptyString => (false, s)
    end in
  match ParseUint s with
  | inr ErrSyntax => 0
  | r =>
      let un := match r with inl n => n | inr _ => 2 ^ 64 - 1 end in
      if neg : bool then (if decide (un > 2 ^ 63) then - 2 ^ 63 else - un)
      else (if decide (un >= 2 ^ 63) then 2 ^ 63 - 1 else un)
  end.
Definition Atoi (s : string) : Z := ParseInt s.

Definition ParseBool (s : string) : bool :=
  bool_decide (s ∈ ["1"; "t"; "T"; "true"; "TRUE"; "True"]).

(** ** diskvd.go *)

Record Diskvd := mkDiskvd {
  d_gid : Z;
  d_masters : list string;
  d_replicas : list string;
  d_me : Z;
  d_unreliable : bool;
  d_dir : string;
  d_restart : bool
}.

Definition diskvd_init : Diskvd := mkDiskvd (-1) [] [] (-1) false "" false.

(** The loop over pairs of arguments; [None] is [usage()]. A single last argument is not
    looked at. *)
Fixpoint diskvd_loop (args : list string) (d : Diskvd) : option Diskvd :=
  match args with
  | a0 :: a1 :: args =>
      let '(mkDiskvd gid masters replicas me unreliable dir restart) := d in
      if decide (a0 = "-g") then diskvd_loop args (mkDiskvd (ParseInt a1) masters replicas me unreliable dir restart)
      else if decide (a0 = "-m") then diskvd_loop args (mkDiskvd gid (masters ++ [a1]) replicas me unreliable dir restart)
      else if decide (a0 = "-s") then diskvd_loop args (mkDiskvd gid masters (replicas ++ [a1]) me unreliable dir restart)
      else if decide (a0 = "-i") then diskvd_loop args (mkDiskvd gid masters replicas (Atoi a1) unreliable dir restart)
      else if decide (a0 = "-u") then diskvd_loop args (mkDiskvd gid masters replicas me (ParseBool a1) dir restart)
      else if decide (a0 = "-d") then diskvd_loop args (mkDiskvd gid masters replicas me unreliable a1 restart)
      else if decide (a0 = "-r") then diskvd_loop args (mkDiskvd gid masters replicas me unreliable dir (ParseBool a1))
      else None
  | _ => Some d
  end.

(** It goes on with [diskv.StartServer] on these values. *)
Definition diskvd (args : list string) : Outcome Diskvd :=
  match diskvd_loop (drop 1 args) diskvd_init with
  | None => UsageExit
  | Some d =>
      if bool_decide (d_gid d < 0) || bool_decide (d_me d < 0) || bool_decide (len (d_masters d) < 1) ||
         bool_decide (d_me d >= len (d_replicas d)) || bool_decide (d_dir d = "")
      then UsageExit else Proceeds d
  end.

(** ** The lock and primary/backup programs *)

Inductive ServiceCall :=
  | lock_Lock (primary backup lockname : string)
  | lock_Unlock (primary backup lockname : string)
  | lock_StartServer (primary backup : string) (am_primary : bool)
  | pb_Get (viewport key : string)
  | pb_Put (viewport key value : string)
  | pb_StartServer (viewport myport : string)
  | view_StartServer (port : string).

Definition lockc (args : list string) : Outcome ServiceCall :=
  match args with
  | [_; a1; a2; a3; a4] =>
      if decide (a1 = "-l") then Proceeds (lock_Lock a2 a3 a4)
      else if decide (a1 = "-u") then Proceeds (lock_Unlock a2 a3 a4)
      else UsageExit
  | _ => UsageExit
  end.

Definition lockd (args : list string) : Outcome ServiceCall :=
  match args with
  | [_; a1; a2; a3] =>
      if decide (a1 = "-p") then Proceeds (lock_StartServer a2 a3 true)
      else if decide (a1 = "-b") then Proceeds (lock_StartServer a2 a3 false)
      else UsageExit
  | _ => UsageExit
  end.

Definition pbc (args : list string) : Outcome ServiceCall :=
  match args with
  | [_; a1; a2] => Proceeds (pb_Get a1 a2)
  | [_; a1; a2; a3] => Proceeds (pb_Put a1 a2 a3)
  | _ => UsageExit
  end.

Definition pbd (args : list string) : Outcome ServiceCall :=
  match args with [_; a1; a2] => Proceeds (pb_StartServer a1 a2) | _ => UsageExit end.

Definition viewd (args : list string) : Outcome ServiceCall :=
  match args with [_; a1] => Proceeds (view_StartServer a1) | _ => UsageExit end.

(** ** The MapReduce programs together *)

Section programs.
Context `{Plugin} {J : Json} {JL : JsonLaws} {SB : SortByKey} {SBL : SortByKeyLaws}.

(** No coordinator is made for a job without input files, which would never end. *)
Lemma mrcoordinator_files args c : mrcoordinator args = Proceeds c ->
  exists files, files <> [] /\ c = MakeCoordinator files 10.
Proof.
  unfold mrcoordinator. case_decide as Hl; [done|]. intros [= <-]. exists (drop 1 args). split; [|done].
  intros E. apply (f_equal length) in E. rewrite length_drop in E. cbn in E. lia.
Qed.

Lemma await_Done_done polls c : await_Done polls = Some c -> c ∈ polls /\ Done c = true.
Proof.
  induction polls as [|m polls IH]; [done|]. cbn. destruct (Done m) eqn:E.
  - intros [= <-]. split; [by left|done].
  - intros [? ?]%IH. split; [by right|done].
Qed.

(** The MapReduce programs agree. Started on the same plugin and input files, mrworker runs
    the functions of the plugin, mrcoordinator makes a coordinator, and when its loop ends,
    whatever workers came and went as long as no two had one temporary file open at the same
    time, the lines of [mr-out-0] to [mr-out-9] are up to their order the lines mrsequential
    writes to [mr-out-0]. *)
Theorem programs_agree (pc pw ps plugin : string) names mapf reducef fs :
  loadPlugin plugin = Proceeds (mapf, reducef) -> names <> [] ->
  fs_ok fs -> job_input mapf names (read_fs fs) -> order_insensitive reducef ->
  mrworker [pw; plugin] = Proceeds (mapf, reducef) /\
  exists c, mrcoordinator (pc :: names) = Proceeds c /\
    forall w polls, rtc (exclusive_step (fun _ : unit => fun f s => Some (mapf f s)) (fun _ k vs => Some (reducef k vs)))
        (mkFine c fs []) w -> await_Done polls = Some (f_coord w) ->
      exists outs sequential fs',
        (forall r, (r < 10)%nat -> read_fs (f_fs w) !! output_name (Z.of_nat r) = Some (concat_string (outs r))) /\
        mrsequential (ps :: plugin :: names) (read_fs fs) = Proceeds (Some (tt, fs')) /\
        fs' !! "mr-out-0" = Some (concat_string sequential) /\ (seq 0 10 ≫= outs) ≡ₚ sequential.
Proof.
  intros Hp Hne Hok Hin Hred. split; [exact Hp|]. exists (MakeCoordinator names 10). split.
  { unfold mrcoordinator. rewrite decide_False; [done|]. destruct names; [done|cbn; lia]. }
  intros w polls Hs [_ Hd]%await_Done_done.
  destruct (exclusive_right_output (fun _ : unit => fun f s => Some (mapf f s)) (fun _ k vs => Some (reducef k vs))
    mapf reducef names 10 fs w) as (outs&sequential&fs'&Ho&Hr&Hm&H1&H2);
    [by intros ? ? ? ? [= <-]|by intros ? ? ? ? [= <-]|lia|done|done|done|done|done|].
  exists outs, sequential, fs'. split_and!; [done| |done|by rewrite H1, H2].
  unfold mrsequential. rewrite decide_False by (destruct names; [done|cbn; lia]). cbn [arg lookup list_lookup obind].
  change (arg (ps :: plugin :: names) 1) with (Proceeds plugin). cbn [obind]. rewrite Hp. cbn [obind].
  change (drop 2 (ps :: plugin :: names)) with names. by rewrite Hr.
Qed.
End programs.

(** ** Numbers that are printed are read back *)

Lemma digit_pretty x : (x < 10)%N -> digit (pretty_N_char x) = Some (Z.of_N x).
Proof.
  intros Hx. assert (x = 0 \/ x = 1 \/ x = 2 \/ x = 3 \/ x = 4 \/ x = 5 \/ x = 6 \/ x = 7 \/ x = 8 \/ x = 9)%N as Hc by lia.
  destruct_or! Hc; subst; reflexivity.
Qed.

Lemma ParseUint_loop_pretty x s : Z.of_N x < 2 ^ 64 ->
  ParseUint_loop 0 (pretty_N_go x s) = ParseUint_loop (Z.of_N x) s.
Proof.
  revert s. induction (N.lt_wf_0 x) as [x _ IH]; intros s Hx.
  assert (x = 0 \/ 0 < x)%N as [->|Hpos] by lia; [by rewrite pretty_N_go_0|].
  pose proof (N.div_mod x 10 ltac:(lia)) as Hdm. pose proof (N.mod_lt x 10 ltac:(lia)) as Hm.
  pose proof (N.div_lt x 10 Hpos ltac:(lia)) as Hlt. rewrite pretty_N_go_step by done. rewrite IH; [|done|lia]. cbn [ParseUint_loop].
  rewrite digit_pretty by done. change ((2 ^ 64 - 1) `quot` 10 + 1) with 1844674407370955162.
  change (2 ^ 64 - 1) with 18446744073709551615. change (2 ^ 64) with 18446744073709551616 in Hx.
  generalize dependent (x `mod` 10)%N. generalize dependent (x `div` 10)%N. intros q Hlt r -> Hr.
  rewrite decide_False by lia. rewrite decide_False by lia. f_equal. lia.
Qed.

Lemma ParseUint_pretty (x : N) : Z.of_N x < 2 ^ 64 -> ParseUint_loop 0 (pretty x) = inl (Z.of_N x) /\ pretty x <> "".
Proof.
  intros Hx. unfold pretty, pretty_N. case_decide as H0; [by subst|]. rewrite ParseUint_loop_pretty by done. split; [done|].
  intros E. pose proof (ParseUint_loop_pretty x "" Hx) as Hl. rewrite E in Hl. cbn in Hl. injection Hl. lia.
Qed.

Lemma pretty_Z_N z : 0 <= z -> pretty z = pretty (Z.to_N z).
Proof. destruct z; [done..|lia]. Qed.

Lemma ParseInt_pretty z : 0 <= z < 2 ^ 63 -> ParseInt (pretty z) = z.
Proof.
  intros Hz. rewrite pretty_Z_N by lia.
  assert (Z.of_N (Z.to_N z) < 2 ^ 64) as Hlt by (change (2 ^ 64) with (2 * 2 ^ 63); lia).
  destruct (ParseUint_pretty _ Hlt) as [Hl Hne]. destruct (pretty (Z.to_N z)) as [|c s]; [done|].
  unfold ParseInt. assert (c <> "+"%char /\ c <> "-"%char) as [Hp Hm].
  { split; intros ->; cbn in Hl; discriminate Hl. }
  rewrite !decide_False by done. cbn [ParseUint]. rewrite Hl. rewrite Z2N.id in * by lia. by rewrite decide_False by lia.
Qed.

Lemma ParseInt_range s : - 2 ^ 63 <= ParseInt s < 2 ^ 63.
Proof.
  assert (forall t n r, 0 <= n < 2 ^ 64 -> ParseUint_loop n t = inl r -> 0 <= r < 2 ^ 64) as Hl.
  { induction t as [|c t IH]; intros n r Hn; cbn [ParseUint_loop]; [by intros [= <-]|].
    destruct (digit c) as [d|] eqn:Ed; [|done]. case_decide; [done|]. case_decide; [done|]. apply IH.
    unfold digit in Ed. case_decide; [|done]. injection Ed as <-. lia. }
  assert (forall t r, ParseUint t = inl r -> 0 <= r < 2 ^ 64) as Hu.
  { intros [|c t] r; [done|]. apply Hl. lia. }
  unfold ParseInt. destruct (match s with EmptyString => _ | _ => _ end) as [neg s'].
  destruct (ParseUint s') as [r|[]] eqn:E; [specialize (Hu _ _ E)|lia|]; destruct neg; case_decide; lia.
Qed.

(** ** The arguments of diskvd *)

(** What the program checks before it starts a server, and the range of its numbers. *)
Record diskvd_ok (d : Diskvd) : Prop := {
  dk_gid : 0 <= d_gid d < 2 ^ 63;
  dk_me : 0 <= d_me d < len (d_replicas d);
  dk_int : d_me d < 2 ^ 63;
  dk_masters : d_masters d <> [];
  dk_dir : d_dir d <> ""
}.

Definition flag (name value : string) : list string := [name; value].
Definition show_bool (b : bool) : string := if b then "true" else "false".

(** A command line for a configuration. *)
Definition diskvd_args (d : Diskvd) : list string :=
  flag "-g" (pretty (d_gid d)) ++ (d_masters d ≫= flag "-m") ++ (d_replicas d ≫= flag "-s") ++
  flag "-i" (pretty (d_me d)) ++ flag "-u" (show_bool (d_unreliable d)) ++ flag "-d" (d_dir d) ++
  flag "-r" (show_bool (d_restart d)).

Lemma diskvd_loop_masters ms rest gid ms0 rs me u dir r :
  diskvd_loop ((ms ≫= flag "-m") ++ rest) (mkDiskvd gid ms0 rs me u dir r) =
  diskvd_loop rest (mkDiskvd gid (ms0 ++ ms) rs me u dir r).
Proof.
  revert ms0. induction ms as [|m ms IH]; intros ms0; [by rewrite app_nil_r|].
  transitivity (diskvd_loop ((ms ≫= flag "-m") ++ rest) (mkDiskvd gid (ms0 ++ [m]) rs me u dir r)); [reflexivity|].
  by rewrite IH, <-app_assoc.
Qed.
Lemma diskvd_loop_replicas rs rest gid ms rs0 me u dir r :
  diskvd_loop ((rs ≫= flag "-s") ++ rest) (mkDiskvd gid ms rs0 me u dir r) =
  diskvd_loop rest (mkDiskvd gid ms (rs0 ++ rs) me u dir r).
Proof.
  revert rs0. induction rs as [|m rs IH]; intros rs0; [by rewrite app_nil_r|].
  transitivity (diskvd_loop ((rs ≫= flag "-s") ++ rest) (mkDiskvd gid ms (rs0 ++ [m]) me u dir r)); [reflexivity|].
  by rewrite IH, <-app_assoc.
Qed.

Lemma ParseBool_show b : ParseBool (show_bool b) = b.
Proof. by destruct b. Qed.

(** Numbers that were read are 64-bit numbers. *)
Lemma diskvd_loop_range args d d' : diskvd_loop args d = Some d' ->
  d_gid d < 2 ^ 63 /\ d_me d < 2 ^ 63 -> d_gid d' < 2 ^ 63 /\ d_me d' < 2 ^ 63.
Proof.
  revert d. induction args as [args IH] using (induction_ltof1 _ (@length string)). unfold ltof in IH.
  destruct args as [|a0 [|a1 args]]; [by intros d [= <-]|by intros d [= <-]|]. intros [].
  cbn [diskvd_loop]. cbn [d_gid d_me]. pose proof (ParseInt_range a1).
  repeat case_decide; try done; intros Hl Hr; eapply (IH args); try exact Hl; cbn [length d_gid d_me]; unfold Atoi; lia.
Qed.

Lemma diskvd_loop_args d : 0 <= d_gid d < 2 ^ 63 -> 0 <= d_me d < 2 ^ 63 -> diskvd_loop (diskvd_args d) diskvd_init = Some d.
Proof.
  destruct d as [gid ms rs me u dir r]. cbn [d_gid d_me]. intros Hg Hm. unfold diskvd_args.
  cbn [d_gid d_masters d_replicas d_me d_unreliable d_dir d_restart].
  transitivity (diskvd_loop ((ms ≫= flag "-m") ++ (rs ≫= flag "-s") ++ flag "-i" (pretty me) ++ flag "-u" (show_bool u) ++
    flag "-d" dir ++ flag "-r" (show_bool r)) (mkDiskvd (ParseInt (pretty gid)) [] [] (-1) false "" false)); [reflexivity|].
  rewrite diskvd_loop_masters, diskvd_loop_replicas, !app_nil_l.
  transitivity (Some (mkDiskvd (ParseInt (pretty gid)) ms rs (Atoi (pretty me)) (ParseBool (show_bool u)) dir
    (ParseBool (show_bool r)))); [reflexivity|].
  unfold Atoi. by rewrite !ParseInt_pretty, !ParseBool_show.
Qed.

(** Diskvd and its command line: a server is started only on a configuration that passes the
    checks, its numbers being 64-bit numbers whatever the arguments were; and for each such
    configuration there is a command line from which exactly it is read back. *)
Theorem diskvd_roundtrip program :
  (forall args d, diskvd (program :: args) = Proceeds d -> diskvd_ok d) /\
  (forall d, diskvd_ok d -> diskvd (program :: diskvd_args d) = Proceeds d).
Proof.
  split.
  - intros args d. unfold diskvd. change (drop 1 (program :: args)) with args. destruct (diskvd_loop args diskvd_init) as [d0|] eqn:E; [|done].
    apply diskvd_loop_range in E as [Hg Hm]; [|cbn; lia]. destruct (_ || _) eqn:Hb; [done|]. intros [= <-].
    rewrite !orb_false_iff, !bool_decide_eq_false in Hb. destruct Hb as ((((?&?)&Hms)&?)&?).
    split; [lia|lia|lia| |done]. intros E. rewrite E in Hms. cbn in Hms. lia.
  - intros d [Hg Hm Hi Hms Hd]. unfold diskvd. change (drop 1 (program :: diskvd_args d)) with (diskvd_args d). rewrite diskvd_loop_args by lia.
    assert (1 <= len (d_masters d)) by (destruct (d_masters d); [done|cbn; lia]).
    rewrite !bool_decide_false by (done || lia). done.
Qed.

Module Example_diskvd.
Definition config : Diskvd := mkDiskvd 100 ["m0"; "m1"] ["s0"; "s1"; "s2"] 2 true "/tmp/d" false.
Lemma diskvd_roundtrip_witness : diskvd ("diskvd" :: diskvd_args config) = Proceeds config.
Proof. apply (proj2 (diskvd_roundtrip "diskvd")). split; try discriminate; vm_compute; split; (discriminate || reflexivity). Defined.
End Example_diskvd.

(** A directory with the word count plugin. *)
Module Example_programs.
Import MrApps.Example_wc.
#[local] Instance wc_plugin : Plugin := fun filename =>
  if decide (filename = "wc.so") then
    Some (fun name => if decide (name = "Map") then Some (MapSymbol Wc.Map)
                      else if decide (name = "Reduce") then Some (ReduceSymbol Wc.Reduce) else None)
  else None.

Lemma fs_input : job_input Wc.Map names (read_fs Example_crash.fs).
Proof.
  split.
  - intros f Hf. apply list_elem_of_singleton in Hf as ->. split; [by eexists|done].
  - intros [|i]; [|by destruct i]. vm_compute. repeat constructor.
Qed.

Lemma programs_agree_witness : exists c, mrcoordinator ("mrcoordinator" :: names) = Proceeds c /\
  forall w polls, rtc (exclusive_step (fun _ : unit => fun f s => Some (Wc.Map f s)) (fun _ k vs => Some (Wc.Reduce k vs)))
      (mkFine c Example_crash.fs []) w -> await_Done polls = Some (f_coord w) ->
    exists fs', mrsequential ("mrsequential" :: "wc.so" :: names) (read_fs Example_crash.fs) = Proceeds (Some (tt, fs')).
Proof.
  edestruct (programs_agree "mrcoordinator" "mrworker" "mrsequential" "wc.so" names Wc.Map Wc.Reduce Example_crash.fs) as (_&c&Hc&Hw).
  - reflexivity.
  - discriminate.
  - apply Example_crash.fs_is_ok.
  - apply fs_input.
  - apply wc_order_insensitive.
  - exists c. split; [exact Hc|]. intros w polls Hs Hp. destruct (Hw w polls Hs Hp) as (_&_&fs'&_&Hm&_). exists fs'. exact Hm.
Defined.
End Example_programs.
