(* ===== verification/Porcupine.v ===== *)
(** * porcupine: the linearizability checker

    [src/src/porcupine]: bitsets, histories, the doubly linked list of entries with
    [lift] and [unlift], and the search of [checkSingle]. Nodes live in a heap and are
    pointed to by their number; a nil dereference, a bad index and a failed type
    assertion are [None]. *)
From stdpp Require Import sorting.
From S2P Require Import Prelude.

(** ** bitset.go *)
Module Bitset.
Abbreviation bitset := (list Z).

Definition newBitset (bits : Z) : bitset :=
  let extra := if decide (bits mod 64 <> 0) then 1 else 0 in
  let chunks := bits / 64 + extra in
  replicate (Z.to_nat chunks) 0.
Definition clone (b : bitset) : bitset := copy_into (replicate (length b) 0) b.
Definition bitsetIndex (pos : Z) : Z * Z := (pos / 64, pos mod 64).
Definition set (b : bitset) (pos : Z) : option bitset :=
  let '(major, minor) := bitsetIndex pos in
  match slice_get b major with
  | Some w => slice_set b major (Z.lor w (Z.shiftl 1 minor))
  | None => None
  end.
Definition clear (b : bitset) (pos : Z) : option bitset :=
  let '(major, minor) := bitsetIndex pos in
  match slice_get b major with
  | Some w => slice_set b major (Z.ldiff w (Z.shiftl 1 minor))
  | None => None
  end.
Definition get (b : bitset) (pos : Z) : option bool :=
  let '(major, minor) := bitsetIndex pos in
  match slice_get b major with
  | Some w => Some (negb (bool_decide (Z.land w (Z.shiftl 1 minor) = 0)))
  | None => None
  end.
(** [bits.OnesCount64] *)
Definition OnesCount64 (v : Z) : Z :=
  foldr (fun i n => Z.b2z (Z.testbit v (Z.of_nat i)) + n) 0 (seq 0 64).
Definition popcnt (b : bitset) : Z := foldl (fun total v => total + OnesCount64 v) 0 b.
Definition hash (b : bitset) : Z := foldl Z.lxor (popcnt b mod 2 ^ 64) b.
Fixpoint equals_from (b b2 : bitset) : bool :=
  match b, b2 with
  | v :: b, v2 :: b2 => if decide (v <> v2) then false else equals_from b b2
  | _, _ => true
  end.
Definition equals (b b2 : bitset) : bool :=
  if decide (length b <> length b2) then false else equals_from b b2.
End Bitset.

(** ** model.go *)

Record Operation (I O : Type) := mkOperation {
  ClientId : Z; op_Input : I; Call : Z; op_Output : O; Return : Z
}.
Arguments mkOperation {I O}.
Arguments ClientId {I O}.
Arguments op_Input {I O}.
Arguments Call {I O}.
Arguments op_Output {I O}.
Arguments Return {I O}.

(** [EventKind] and [entryKind]: [false] is a call, [true] a return. *)
Inductive Kind := CallEvent | ReturnEvent.
#[export] Instance Kind_eq_dec : EqDecision Kind.
Proof. solve_decision. Defined.

(** The [interface{}] of a history: an input or an output. *)
Definition Value (I O : Type) : Type := (I + O)%type.

Record Event (I O : Type) := mkEvent { ev_ClientId : Z; ev_Kind : Kind; ev_Value : Value I O; ev_Id : Z }.
Arguments mkEvent {I O}.
Arguments ev_ClientId {I O}.
Arguments ev_Kind {I O}.
Arguments ev_Value {I O}.
Arguments ev_Id {I O}.

Record Model (I O S : Type) := mkModel {
  Partition : option (list (Operation I O) -> list (list (Operation I O)));
  PartitionEvent : option (list (Event I O) -> list (list (Event I O)));
  Init : S;
  Step : S -> I -> O -> bool * S;
  Equal : option (S -> S -> bool);
  DescribeOperation : option (I -> O -> string);
  DescribeState : option (S -> string)
}.
Arguments mkModel {I O S}.
Arguments Partition {I O S}.
Arguments PartitionEvent {I O S}.
Arguments Init {I O S}.
Arguments Step {I O S}.
Arguments Equal {I O S}.
Arguments DescribeOperation {I O S}.
Arguments DescribeState {I O S}.

Inductive CheckResult := Unknown | Ok | Illegal.

Definition NoPartition {I O} (history : list (Operation I O)) : list (list (Operation I O)) := [history].
Definition NoPartitionEvent {I O} (history : list (Event I O)) : list (list (Event I O)) := [history].
(** The verb [%v] of [fmt.Sprintf], on any value. *)
Class Sprint := sprint : forall {A : Type}, A -> string.
Definition DefaultDescribeOperation `{Sprint} {I O} (input : I) (output : O) : string :=
  sprint input +:+ " -> " +:+ sprint output.
Definition DefaultDescribeState `{Sprint} {S} (state : S) : string := sprint state.
Definition ShallowEqual {S} `{EqDecision S} (state1 state2 : S) : bool := bool_decide (state1 = state2).

(** ** checker.go *)

Record entry (I O : Type) := mkEntry {
  e_kind : Kind; e_value : Value I O; e_id : Z; e_time : Z; e_clientId : Z
}.
Arguments mkEntry {I O}.
Arguments e_kind {I O}.
Arguments e_value {I O}.
Arguments e_id {I O}.
Arguments e_time {I O}.
Arguments e_clientId {I O}.

(** [sort.Sort(byTime(entries))]: sorted, and the order of equal entries open. *)
Definition Less {I O} (a b : entry I O) : bool :=
  if decide (e_time a <> e_time b) then bool_decide (e_time a < e_time b)
  else bool_decide (e_kind a = CallEvent) && bool_decide (e_kind b = ReturnEvent).
Class SortByTime := sort_byTime : forall {I O}, list (entry I O) -> list (entry I O).
Class SortByTimeLaws `{SortByTime} := {
  sort_byTime_perm : forall {I O} (l : list (entry I O)), sort_byTime l ≡ₚ l;
  sort_byTime_sorted : forall {I O} (l : list (entry I O)),
    StronglySorted (fun a b => Less b a = false) (sort_byTime l)
}.

Fixpoint makeEntries_loop {I O} (history : list (Operation I O)) (id : Z) : list (entry I O) :=
  match history with
  | [] => []
  | elem :: history =>
      mkEntry CallEvent (inl (op_Input elem)) id (Call elem) (ClientId elem) ::
      mkEntry ReturnEvent (inr (op_Output elem)) id (Return elem) (ClientId elem) ::
      makeEntries_loop history (id + 1)
  end.
Definition makeEntries `{SortByTime} {I O} (history : list (Operation I O)) : list (entry I O) :=
  sort_byTime (makeEntries_loop history 0).

Fixpoint renumber_loop {I O} (events : list (Event I O)) (m : gmap Z Z) (id : Z) : list (Event I O) :=
  match events with
  | [] => []
  | v :: events =>
      match m !! ev_Id v with
      | Some r => mkEvent (ev_ClientId v) (ev_Kind v) (ev_Value v) r :: renumber_loop events m id
      | None => mkEvent (ev_ClientId v) (ev_Kind v) (ev_Value v) id ::
                renumber_loop events (<[ev_Id v := id]> m) (id + 1)
      end
  end.
Definition renumber {I O} (events : list (Event I O)) : list (Event I O) := renumber_loop events ∅ 0.

Definition convertEntries {I O} (events : list (Event I O)) : list (entry I O) :=
  imap (fun i elem =>
    let kind := match ev_Kind elem with ReturnEvent => ReturnEvent | CallEvent => CallEvent end in
    mkEntry kind (ev_Value elem) (ev_Id elem) (Z.of_nat i) (ev_ClientId elem)) events.

(** *** The linked list *)

(** The head node has no value. *)
Record node (I O : Type) := mkNode {
  n_value : option (Value I O);
  n_match : option nat;
  n_id : Z;
  n_next : option nat;
  n_prev : option nat
}.
Arguments mkNode {I O}.
Arguments n_value {I O}.
Arguments n_match {I O}.
Arguments n_id {I O}.
Arguments n_next {I O}.
Arguments n_prev {I O}.

Section heap.
Context {I O : Type}.
Abbreviation Heap := (list (node I O)).

Definition alloc (n : node I O) (h : Heap) : nat * Heap := (length h, h ++ [n]).
(** Reading and writing a field through a pointer; [deref] is [.] on a pointer field. *)
Definition load {A} (f : node I O -> A) (p : nat) : M Heap A :=
  let! h := get in let! n := lift (h !! p) in ret (f n).
Definition deref (p : option nat) : M Heap nat := lift p.
Definition store_next (p : nat) (q : option nat) : M Heap unit :=
  let! h := get in
  let! n := lift (h !! p) in
  modify (insert p (mkNode (n_value n) (n_match n) (n_id n) q (n_prev n))).
Definition store_prev (p : nat) (q : option nat) : M Heap unit :=
  let! h := get in
  let! n := lift (h !! p) in
  modify (insert p (mkNode (n_value n) (n_match n) (n_id n) (n_next n) q)).

Definition insertBefore (n : nat) (mark : option nat) : M Heap unit :=
  match mark with
  | None => ret tt
  | Some mark =>
      let! beforeMark := load n_prev mark in
      do! store_prev mark (Some n);
      do! store_next n (Some mark);
      match beforeMark with
      | None => ret tt
      | Some beforeMark =>
          do! store_prev n (Some beforeMark);
          store_next beforeMark (Some n)
      end
  end.

(** Entries are visited from the last to the first; [match] of a call is the return
    seen before. *)
Fixpoint makeLinkedEntries_loop (rev_entries : list (entry I O)) (mtch : gmap Z nat) (root : option nat)
  : M Heap (option nat) :=
  match rev_entries with
  | [] => ret root
  | elem :: rest =>
      let m := match e_kind elem with ReturnEvent => None | CallEvent => mtch !! e_id elem end in
      let! h := get in
      let '(p, h) := alloc (mkNode (Some (e_value elem)) m (e_id elem) None None) h in
      do! modify (fun _ => h);
      do! insertBefore p root;
      let mtch := match e_kind elem with ReturnEvent => <[e_id elem := p]> mtch | CallEvent => mtch end in
      makeLinkedEntries_loop rest mtch (Some p)
  end.
Definition makeLinkedEntries (entries : list (entry I O)) : M Heap (option nat) :=
  makeLinkedEntries_loop (rev entries) ∅ None.

(** [length(n)]: the nodes from [n] on; [fuel] bounds the walk. *)
Fixpoint list_length (fuel : nat) (h : Heap) (n : option nat) : Z :=
  match fuel, n with
  | S fuel, Some p => match h !! p with Some x => 1 + list_length fuel h (n_next x) | None => 1 end
  | _, _ => 0
  end.

Definition lift_entry (e : nat) : M Heap unit :=
  let! prev := load n_prev e in
  let! prev := deref prev in
  let! next := load n_next e in
  do! store_next prev next;
  let! next := load n_next e in
  let! next := deref next in
  let! prev := load n_prev e in
  do! store_prev next prev;
  let! mtch := load n_match e in
  let! mtch := deref mtch in
  let! prev := load n_prev mtch in
  let! prev := deref prev in
  let! next := load n_next mtch in
  do! store_next prev next;
  let! next := load n_next mtch in
  match next with
  | None => ret tt
  | Some next =>
      let! prev := load n_prev mtch in
      store_prev next prev
  end.

Definition unlift_entry (e : nat) : M Heap unit :=
  let! mtch := load n_match e in
  let! mtch := deref mtch in
  let! prev := load n_prev mtch in
  let! prev := deref prev in
  do! store_next prev (Some mtch);
  let! next := load n_next mtch in
  do! (match next with
       | None => ret tt
       | Some next => store_prev next (Some mtch)
       end);
  let! prev := load n_prev e in
  let! prev := deref prev in
  do! store_next prev (Some e);
  let! next := load n_next e in
  let! next := deref next in
  store_prev next (Some e).
End heap.

(** *** The search *)
Section check.
Context {I O S : Type} (model : Model I O S).
Import Bitset.

Record cacheEntry := mkCacheEntry { c_linearized : bitset; c_state : S }.

(** [model.Equal], filled in by [fillDefault]. *)
Variable equal : S -> S -> bool.

Definition cacheContains (cache : gmap Z (list cacheEntry)) (entry : cacheEntry) : bool :=
  existsb (fun elem => equals (c_linearized entry) (c_linearized elem) && equal (c_state entry) (c_state elem))
    (default [] (cache !! hash (c_linearized entry))).

Record callsEntry := mkCallsEntry { ce_entry : nat; ce_state : S }.

(** The local variables of [checkSingle]; [cs_calls] grows at its end. [cs_seqs] are the
    sequences made for [longest]; a pointer to one is its position. *)
Record Search := mkSearch {
  cs_heap : list (node I O);
  cs_entry : option nat;
  cs_linearized : bitset;
  cs_cache : gmap Z (list cacheEntry);
  cs_calls : list callsEntry;
  cs_longest : list (option nat);
  cs_seqs : list (list Z);
  cs_state : S
}.

(** [v.entry.id] *)
Definition ids_of (h : list (node I O)) (calls : list callsEntry) : option (list Z) :=
  mapM (fun v => n_id <$> h !! ce_entry v) calls.

(** The update of [longest] before backtracking: [seq] is the last of [seqs]. It is made
    only when a pointer to it is stored; otherwise nothing refers to it. *)
Fixpoint longest_loop (seqs : list (list Z)) (seq : nat) (callsLen : Z) (ids : list Z) (longest : list (option nat))
  : option (list (option nat)) :=
  match ids with
  | [] => Some longest
  | id :: ids =>
      match slice_get longest id with
      | None => None
      | Some l =>
          match (match l with
                 | None => Some true
                 | Some l => (fun s => bool_decide (callsLen > len s)) <$> seqs !! l
                 end) with
          | Some true =>
              match slice_set longest id (Some seq) with
              | Some longest => longest_loop seqs seq callsLen ids longest
              | None => None
              end
          | Some false => longest_loop seqs seq callsLen ids longest
          | None => None
          end
      end
  end.

Inductive Outcome := Continue (st : Search) | Finished (ok : bool) (longest : list (option nat)) (seqs : list (list Z)).

(** A call entry: try it as the next operation. *)
Definition try_call (st : Search) (headEntry e : nat) (n : node I O) (matching : nat) : option Outcome :=
  match cs_heap st !! matching with
  | None => None
  | Some m =>
      match n_value n, n_value m with
      | Some (inl input), Some (inr output) =>
          let '(ok, newState) := Step model (cs_state st) input output in
          let skip := Some (Continue (mkSearch (cs_heap st) (n_next n) (cs_linearized st) (cs_cache st)
                                        (cs_calls st) (cs_longest st) (cs_seqs st) (cs_state st))) in
          if ok then
            match set (clone (cs_linearized st)) (n_id n) with
            | None => None
            | Some newLinearized =>
                let newCacheEntry := mkCacheEntry newLinearized newState in
                if negb (cacheContains (cs_cache st) newCacheEntry) then
                  let hash := hash newLinearized in
                  let cache := <[hash := default [] (cs_cache st !! hash) ++ [newCacheEntry]]> (cs_cache st) in
                  let calls := cs_calls st ++ [mkCallsEntry e (cs_state st)] in
                  match set (cs_linearized st) (n_id n), lift_entry e (cs_heap st) with
                  | Some linearized, Some (_, h) =>
                      match h !! headEntry with
                      | Some hd => Some (Continue (mkSearch h (n_next hd) linearized cache calls
                                                     (cs_longest st) (cs_seqs st) newState))
                      | None => None
                      end
                  | _, _ => None
                  end
                else skip
            end
          else skip
      | _, _ => None
      end
  end.

(** A return entry: take back the last call. *)
Definition backtrack (computePartial : bool) (st : Search) : option Outcome :=
  match last (cs_calls st) with
  | None => Some (Finished false (cs_longest st) (cs_seqs st))
  | Some callsTop =>
      let updated := if computePartial
                     then match ids_of (cs_heap st) (cs_calls st) with
                          | Some ids =>
                              let seqs := cs_seqs st ++ [ids] in
                              (fun longest => (longest, seqs)) <$>
                                longest_loop seqs (length (cs_seqs st)) (len (cs_calls st)) ids (cs_longest st)
                          | None => None
                          end
                     else Some (cs_longest st, cs_seqs st) in
      let entry := ce_entry callsTop in
      match updated, cs_heap st !! entry with
      | Some (longest, seqs), Some n =>
          match clear (cs_linearized st) (n_id n), unlift_entry entry (cs_heap st) with
          | Some linearized, Some (_, h) =>
              match h !! entry with
              | Some n => Some (Continue (mkSearch h (n_next n) linearized (cs_cache st)
                                            (take (length (cs_calls st) - 1) (cs_calls st)) longest seqs
                                            (ce_state callsTop)))
              | None => None
              end
          | _, _ => None
          end
      | _, _ => None
      end
  end.

(** One round of the loop; [kill] is the value of the flag when it is read. *)
Definition search_step (computePartial kill : bool) (headEntry : nat) (n : Z) (st : Search) : option Outcome :=
  match cs_heap st !! headEntry with
  | None => None
  | Some hd =>
      match n_next hd with
      | None =>
          match ids_of (cs_heap st) (cs_calls st) with
          | Some ids => Some (Finished true (replicate (Z.to_nat n) (Some (length (cs_seqs st)))) (cs_seqs st ++ [ids]))
          | None => None
          end
      | Some _ =>
          if kill then Some (Finished false (cs_longest st) (cs_seqs st))
          else
            match cs_entry st with
            | None => None
            | Some e =>
                match cs_heap st !! e with
                | None => None
                | Some x =>
                    match n_match x with
                    | Some matching => try_call st headEntry e x matching
                    | None => backtrack computePartial st
                    end
                end
            end
      end
  end.

(** The loop; the outer [None] is a panic, [Some None] is the fuel used up. [kill] is
    what the reads of the flag return, one per round. *)
Fixpoint search_loop (fuel : nat) (computePartial : bool) (kill : nat -> bool) (headEntry : nat) (n : Z) (st : Search)
  : option (option (bool * list (option nat) * list (list Z))) :=
  match fuel with
  | Datatypes.O => Some None
  | Datatypes.S fuel =>
      match search_step computePartial (kill fuel) headEntry n st with
      | None => None
      | Some (Finished ok longest seqs) => Some (Some (ok, longest, seqs))
      | Some (Continue st) => search_loop fuel computePartial kill headEntry n st
      end
  end.

(** Up to the loop: the number of operations, the head and the variables. *)
Definition search_init (history : list (entry I O)) : option (Z * nat * Search) :=
  match makeLinkedEntries history [] with
  | None => None
  | Some (entry, h) =>
      let n := list_length (length h) h entry / 2 in
      let '(headEntry, h) := alloc (mkNode None None (-1) None None) h in
      match insertBefore headEntry entry h with
      | None => None
      | Some (_, h) =>
          Some (n, headEntry,
            mkSearch h entry (newBitset n) ∅ [] (replicate (Z.to_nat n) None) [] (Init model))
      end
  end.

Definition checkSingle (fuel : nat) (history : list (entry I O)) (computePartial : bool) (kill : nat -> bool)
  : option (option (bool * list (option nat) * list (list Z))) :=
  match search_init history with
  | None => None
  | Some (n, headEntry, st) => search_loop fuel computePartial kill headEntry n st
  end.
End check.

(** *** Partitions *)

(** What a verbose check returns besides its answer: the entries of the partitions, and
    for each partition the sequences [longest] points to. *)
Record linearizationInfo (I O : Type) := mkLinearizationInfo {
  li_history : list (list (entry I O));
  li_partialLinearizations : list (list (list Z))
}.
Arguments mkLinearizationInfo {I O}.
Arguments li_history {I O}.
Arguments li_partialLinearizations {I O}.

Section parallel.
Context {I O S : Type} `{EqDecision S} `{SortByTime} `{MapOrder} `{Sprint}.

(** [fillDefault]: the partition functions, the equality and the descriptions used. *)
Definition default_Partition (model : Model I O S) : list (Operation I O) -> list (list (Operation I O)) :=
  default NoPartition (Partition model).
Definition default_PartitionEvent (model : Model I O S) : list (Event I O) -> list (list (Event I O)) :=
  default NoPartitionEvent (PartitionEvent model).
Definition default_Equal (model : Model I O S) : S -> S -> bool := default ShallowEqual (Equal model).
Definition default_DescribeOperation (model : Model I O S) : I -> O -> string :=
  default DefaultDescribeOperation (DescribeOperation model).
Definition default_DescribeState (model : Model I O S) : S -> string := default DefaultDescribeState (DescribeState model).

(** The [select] loop over what arrives: the result of a goroutine, or the timeout
    ([None]). It blocks when nothing arrives any more. Besides [ok] and [timedOut] it
    leaves [count], the number of results received. *)
Fixpoint receive_loop (computeInfo : bool) (total : Z) (arrivals : list (option bool)) (ok : bool) (count : Z)
  : option (bool * bool * Z) :=
  match arrivals with
  | [] => None
  | Some result :: arrivals =>
      let count := count + 1 in
      let ok := ok && result in
      if negb ok && negb computeInfo then Some (ok, false, count)
      else if decide (count >= total) then Some (ok, false, count)
      else receive_loop computeInfo total arrivals ok count
  | None :: _ => Some (ok, true, count)
  end.

(** [order] is the order of arrival: the goroutine of a partition, by its index, or the
    timeout. The flag [kill] is set only when the loop is left, so what arrives was
    computed without it. *)
Definition arrived (model : Model I O S) (fuel : nat) (history : list (list (entry I O))) (computeInfo : bool)
    (o : option nat) : option (option bool) :=
  match o with
  | None => Some None
  | Some i =>
      match history !! i with
      | Some subhistory =>
          match checkSingle model (default_Equal model) fuel subhistory computeInfo (fun _ => false) with
          | Some (Some (ok, _, _)) => Some (Some ok)
          | _ => None
          end
      | None => None
      end
  end.

(** The pointers of [longest] as a set, and copies of what they point to. *)
Definition longest_set (longest : list (option nat)) : gmap nat unit :=
  foldl (fun (set : gmap nat unit) v => match v with Some v => <[v := tt]> set | None => set end) ∅ longest.
Definition partials_of (longest : list (option nat)) (seqs : list (list Z)) : option (list (list Z)) :=
  mapM (fun k => (fun arr => copy_into (replicate (length arr) 0) arr) <$> seqs !! k) (fst <$> range (longest_set longest)).

(** The sequences of a partition. The goroutines whose results were received read a flag
    that was not set; what each of the others read is [late]. *)
Definition partition_partials (model : Model I O S) (fuel : nat) (received : list (option nat)) (late : nat -> nat -> bool)
    (i : nat) (subhistory : list (entry I O)) : option (list (list Z)) :=
  let kill := if decide (Some i ∈ received) then fun _ => false else late i in
  match checkSingle model (default_Equal model) fuel subhistory true kill with
  | Some (Some (_, longest, seqs)) => partials_of longest seqs
  | _ => None
  end.

Definition checkParallel (model : Model I O S) (fuel : nat) (history : list (list (entry I O)))
    (computeInfo : bool) (order : list (option nat)) (late : nat -> nat -> bool) : option (CheckResult * linearizationInfo I O) :=
  match mapM (arrived model fuel history computeInfo) order with
  | None => None
  | Some arrivals =>
      match receive_loop computeInfo (len history) arrivals true 0 with
      | None => None
      | Some (ok, timedOut, count) =>
          let result := if negb ok then Illegal else if (timedOut : bool) then Unknown else Ok in
          if computeInfo then
            (fun partialLinearizations => (result, mkLinearizationInfo history partialLinearizations)) <$>
              mapM (fun '(i, subhistory) => partition_partials model fuel (take (Z.to_nat count) order) late i subhistory)
                (zip (seq 0 (length history)) history)
          else Some (result, mkLinearizationInfo [] [])
      end
  end.

Definition checkEvents (model : Model I O S) (fuel : nat) (history : list (Event I O)) (verbose : bool)
    (order : list (option nat)) (late : nat -> nat -> bool) : option (CheckResult * linearizationInfo I O) :=
  let partitions := default_PartitionEvent model history in
  let l := (fun subhistory => convertEntries (renumber subhistory)) <$> partitions in
  checkParallel model fuel l verbose order late.

Definition checkOperations (model : Model I O S) (fuel : nat) (history : list (Operation I O)) (verbose : bool)
    (order : list (option nat)) (late : nat -> nat -> bool) : option (CheckResult * linearizationInfo I O) :=
  let partitions := default_Partition model history in
  let l := makeEntries <$> partitions in
  checkParallel model fuel l verbose order late.

(** porcupine.go. [order] has a [None] only where there is a timeout. *)
Definition CheckOperations (model : Model I O S) (fuel : nat) (history : list (Operation I O))
    (order : list (option nat)) (late : nat -> nat -> bool) : option bool :=
  (fun '(res, _) => match res with Ok => true | _ => false end) <$> checkOperations model fuel history false order late.
Definition CheckOperationsTimeout (model : Model I O S) (fuel : nat) (history : list (Operation I O))
    (order : list (option nat)) (late : nat -> nat -> bool) : option CheckResult :=
  fst <$> checkOperations model fuel history false order late.
Definition CheckOperationsVerbose (model : Model I O S) (fuel : nat) (history : list (Operation I O))
    (order : list (option nat)) (late : nat -> nat -> bool) : option (CheckResult * linearizationInfo I O) :=
  checkOperations model fuel history true order late.
Definition CheckEvents (model : Model I O S) (fuel : nat) (history : list (Event I O))
    (order : list (option nat)) (late : nat -> nat -> bool) : option bool :=
  (fun '(res, _) => match res with Ok => true | _ => false end) <$> checkEvents model fuel history false order late.
Definition CheckEventsTimeout (model : Model I O S) (fuel : nat) (history : list (Event I O))
    (order : list (option nat)) (late : nat -> nat -> bool) : option CheckResult :=
  fst <$> checkEvents model fuel history false order late.
Definition CheckEventsVerbose (model : Model I O S) (fuel : nat) (history : list (Event I O))
    (order : list (option nat)) (late : nat -> nat -> bool) : option (CheckResult * linearizationInfo I O) :=
  checkEvents model fuel history true order late.
End parallel.

(** ** models/kv.go *)
Record KvInput := mkKvInput { kv_Op : Z; kv_Key : string; kv_Value : string }.
Record KvOutput := mkKvOutput { out_Value : string }.

Definition kv_Partition `{MapOrder} (history : list (Operation KvInput KvOutput)) : list (list (Operation KvInput KvOutput)) :=
  let m := foldl (fun (m : gmap string (list (Operation KvInput KvOutput))) v =>
             let key := kv_Key (op_Input v) in <[key := default [] (m !! key) ++ [v]]> m) ∅ history in
  let keys := fst <$> range m in
  let keys := merge_sort String.le keys in
  (fun k => default [] (m !! k)) <$> keys.

Definition kv_Step (state : string) (inp : KvInput) (out : KvOutput) : bool * string :=
  if decide (kv_Op inp = 0) then (bool_decide (out_Value out = state), state)
  else if decide (kv_Op inp = 1) then (true, kv_Value inp)
  else (true, (state +:+ kv_Value inp)).

(** [%s] is the string itself. *)
Definition kv_DescribeOperation (inp : KvInput) (out : KvOutput) : string :=
  if decide (kv_Op inp = 0) then "get('" +:+ kv_Key inp +:+ "') -> '" +:+ out_Value out +:+ "'"
  else if decide (kv_Op inp = 1) then "put('" +:+ kv_Key inp +:+ "', '" +:+ kv_Value inp +:+ "')"
  else if decide (kv_Op inp = 2) then "append('" +:+ kv_Key inp +:+ "', '" +:+ kv_Value inp +:+ "')"
  else "<invalid>".

Definition KvModel `{MapOrder} : Model KvInput KvOutput string :=
  mkModel (Some kv_Partition) None "" kv_Step None (Some kv_DescribeOperation) None.
