(* ===== verification/PorcupineHeap.v ===== *)
(** * The doubly linked list of the checker

    [dll h hd L]: from the head [hd], the nodes of [L] are linked in order. [lift_entry]
    takes a call and its return out of the list and [unlift_entry] undoes exactly that,
    down to the last pointer. *)
From S2P Require Import Prelude Porcupine.

Section heap.
Context {In Out : Type}.
Abbreviation Heap := (list (node In Out)).
Implicit Types (h : Heap) (p q x : nat) (L A B C : list nat).

Definition nxt h p : option (option nat) := n_next <$> h !! p.
Definition prv h p : option (option nat) := n_prev <$> h !! p.

Definition upd_next p (v : option nat) h : Heap :=
  alter (fun n => mkNode (n_value n) (n_match n) (n_id n) v (n_prev n)) p h.
Definition upd_prev p (v : option nat) h : Heap :=
  alter (fun n => mkNode (n_value n) (n_match n) (n_id n) (n_next n) v) p h.

(** *** Updates *)

Lemma nxt_upd_next p v h q : nxt (upd_next p v h) q = if decide (p = q) then (fun _ => v) <$> nxt h q else nxt h q.
Proof.
  unfold nxt, upd_next. case_decide; subst; [|by rewrite list_lookup_alter_ne].
  rewrite list_lookup_alter_eq. by destruct (h !! q).
Qed.
Lemma prv_upd_next p v h q : prv (upd_next p v h) q = prv h q.
Proof.
  unfold prv, upd_next. destruct (decide (p = q)) as [->|]; [|by rewrite list_lookup_alter_ne].
  rewrite list_lookup_alter_eq. by destruct (h !! q).
Qed.
Lemma prv_upd_prev p v h q : prv (upd_prev p v h) q = if decide (p = q) then (fun _ => v) <$> prv h q else prv h q.
Proof.
  unfold prv, upd_prev. case_decide; subst; [|by rewrite list_lookup_alter_ne].
  rewrite list_lookup_alter_eq. by destruct (h !! q).
Qed.
Lemma nxt_upd_prev p v h q : nxt (upd_prev p v h) q = nxt h q.
Proof.
  unfold nxt, upd_prev. destruct (decide (p = q)) as [->|]; [|by rewrite list_lookup_alter_ne].
  rewrite list_lookup_alter_eq. by destruct (h !! q).
Qed.

Lemma upd_next_id p v h : nxt h p = Some v -> upd_next p v h = h.
Proof.
  intros E. apply list_eq. intros q. unfold upd_next. destruct (decide (p = q)) as [->|]; [|by rewrite list_lookup_alter_ne].
  rewrite list_lookup_alter_eq. unfold nxt in E. destruct (h !! q) as [n|]; [|done]. injection E as <-. by destruct n.
Qed.
Lemma upd_prev_id p v h : prv h p = Some v -> upd_prev p v h = h.
Proof.
  intros E. apply list_eq. intros q. unfold upd_prev. destruct (decide (p = q)) as [->|]; [|by rewrite list_lookup_alter_ne].
  rewrite list_lookup_alter_eq. unfold prv in E. destruct (h !! q) as [n|]; [|done]. injection E as <-. by destruct n.
Qed.
Lemma upd_next_twice p v w h : upd_next p v (upd_next p w h) = upd_next p v h.
Proof.
  apply list_eq. intros q. unfold upd_next. destruct (decide (p = q)) as [->|]; [|by rewrite !list_lookup_alter_ne].
  rewrite !list_lookup_alter_eq. by destruct (h !! q).
Qed.
Lemma upd_prev_twice p v w h : upd_prev p v (upd_prev p w h) = upd_prev p v h.
Proof.
  apply list_eq. intros q. unfold upd_prev. destruct (decide (p = q)) as [->|]; [|by rewrite !list_lookup_alter_ne].
  rewrite !list_lookup_alter_eq. by destruct (h !! q).
Qed.
Lemma upd_comm p v q w h : upd_next p v (upd_prev q w h) = upd_prev q w (upd_next p v h).
Proof.
  apply list_eq. intros x. unfold upd_next, upd_prev.
  destruct (decide (p = x)) as [->|Hp], (decide (q = x)) as [->|Hq];
    repeat (rewrite list_lookup_alter_eq || rewrite list_lookup_alter_ne by done); by destruct (h !! x).
Qed.

(** What the list operations do not touch. *)
Definition same_static h h' : Prop :=
  length h' = length h /\
  forall p n, h !! p = Some n -> exists n', h' !! p = Some n' /\
    n_value n' = n_value n /\ n_match n' = n_match n /\ n_id n' = n_id n.

Lemma same_static_refl h : same_static h h.
Proof. split; [done|]. eauto 6. Qed.
Lemma same_static_trans h1 h2 h3 : same_static h1 h2 -> same_static h2 h3 -> same_static h1 h3.
Proof.
  intros [L1 H1] [L2 H2]. split; [congruence|]. intros p n Hp. destruct (H1 p n Hp) as (n2 & Hp2 & ? & ? & ?).
  destruct (H2 p n2 Hp2) as (n3 & ? & ? & ? & ?). exists n3. split_and!; congruence.
Qed.
Lemma upd_next_static p v h : same_static h (upd_next p v h).
Proof.
  split; [apply length_alter|]. intros q n Hq. unfold upd_next. destruct (decide (p = q)) as [->|].
  - rewrite list_lookup_alter_eq, Hq. eexists. split; [done|]. done.
  - rewrite list_lookup_alter_ne, Hq by done. eauto 6.
Qed.
Lemma upd_prev_static p v h : same_static h (upd_prev p v h).
Proof.
  split; [apply length_alter|]. intros q n Hq. unfold upd_prev. destruct (decide (p = q)) as [->|].
  - rewrite list_lookup_alter_eq, Hq. eexists. split; [done|]. done.
  - rewrite list_lookup_alter_ne, Hq by done. eauto 6.
Qed.

(** *** The operations of the code as updates *)

Lemma insert_alter_at {X} (l : list X) (f : X -> X) (i : nat) (y : X) : l !! i = Some y -> <[i := f y]> l = alter f i l.
Proof.
  intros Hi. apply list_eq. intros j. destruct (decide (i = j)) as [->|].
  - rewrite list_lookup_alter_eq, Hi. apply list_lookup_insert_eq. by apply lookup_lt_Some in Hi.
  - by rewrite list_lookup_alter_ne, list_lookup_insert_ne.
Qed.

Lemma store_next_run p v h : is_Some (h !! p) -> store_next p v h = Some (tt, upd_next p v h).
Proof.
  intros [n Hn]. unfold store_next, bind, get, lift, modify. rewrite Hn. do 2 f_equal.
  exact (insert_alter_at h (fun n => mkNode (n_value n) (n_match n) (n_id n) v (n_prev n)) p n Hn).
Qed.
Lemma store_prev_run p v h : is_Some (h !! p) -> store_prev p v h = Some (tt, upd_prev p v h).
Proof.
  intros [n Hn]. unfold store_prev, bind, get, lift, modify. rewrite Hn. do 2 f_equal.
  exact (insert_alter_at h (fun n => mkNode (n_value n) (n_match n) (n_id n) (n_next n) v) p n Hn).
Qed.
Lemma load_next_run p v h : nxt h p = Some v -> load n_next p h = Some (v, h).
Proof. unfold load, bind, get, lift, nxt, ret. destruct (h !! p); [|done]. by intros [= <-]. Qed.
Lemma load_prev_run p v h : prv h p = Some v -> load n_prev p h = Some (v, h).
Proof. unfold load, bind, get, lift, prv, ret. destruct (h !! p); [|done]. by intros [= <-]. Qed.
Lemma load_match_run p h m : n_match <$> h !! p = Some m -> load n_match p h = Some (m, h).
Proof. unfold load, bind, get, lift, ret. destruct (h !! p); [|done]. by intros [= <-]. Qed.

Lemma nxt_is_Some h p v : nxt h p = Some v -> is_Some (h !! p).
Proof. unfold nxt. destruct (h !! p); [by eexists|done]. Qed.
Lemma prv_is_Some h p v : prv h p = Some v -> is_Some (h !! p).
Proof. unfold prv. destruct (h !! p); [by eexists|done]. Qed.

(** *** Linked lists *)

Fixpoint dll h (p : nat) (L : list nat) : Prop :=
  match L with
  | [] => nxt h p = Some None
  | q :: L => nxt h p = Some (Some q) /\ prv h q = Some (Some p) /\ dll h q L
  end.

(** The node before the rest of a list that starts with [A]. *)
Definition before (hd : nat) (A : list nat) : nat := default hd (last A).

Lemma before_cons p q A : before p (q :: A) = before q A.
Proof. unfold before. destruct A as [|a A] using rev_ind; [done|]. by rewrite app_comm_cons, !last_snoc. Qed.

Lemma before_in p A : before p A ∈ p :: A.
Proof.
  unfold before. destruct A as [|a A] using rev_ind; [set_solver|]. rewrite last_snoc. cbn. set_solver.
Qed.

Lemma dll_ext h h' p L :
  (forall q, q ∈ p :: L -> nxt h' q = nxt h q) -> (forall q, q ∈ L -> prv h' q = prv h q) ->
  dll h p L -> dll h' p L.
Proof.
  revert p. induction L as [|q L IH]; intros p Hn Hp; cbn.
  - rewrite (Hn p); [done|set_solver].
  - intros (H1 & H2 & H3). rewrite (Hn p), (Hp q) by set_solver. split_and!; [done|done|].
    apply IH; [set_solver|set_solver|done].
Qed.

(** The neighbours of a node. *)
Lemma dll_at h hd A x B : dll h hd (A ++ x :: B) ->
  nxt h (before hd A) = Some (Some x) /\ prv h x = Some (Some (before hd A)) /\ nxt h x = Some (head B) /\
  match B with y :: _ => prv h y = Some (Some x) | [] => True end.
Proof.
  revert hd. induction A as [|a A IH]; intros hd; cbn [app dll].
  - unfold before. cbn. destruct B as [|y B]; cbn; [tauto|]. tauto.
  - intros (_ & _ & Hd). rewrite before_cons. by apply IH.
Qed.

(** [p.next = q; if q != nil { q.prev = p }] and its inverse. *)
Definition unlink p (q : option nat) h : Heap :=
  let h := upd_next p q h in
  match q with Some q => upd_prev q (Some p) h | None => h end.
Definition relink x p (q : option nat) h : Heap :=
  let h := upd_next p (Some x) h in
  match q with Some q => upd_prev q (Some x) h | None => h end.

Lemma relink_unlink x p (q : option nat) h :
  nxt h p = Some (Some x) -> match q with Some q => prv h q = Some (Some x) | None => True end ->
  relink x p q (unlink p q h) = h.
Proof.
  intros Hn Hp. unfold relink, unlink. destruct q as [q|].
  - rewrite upd_comm, upd_next_twice, upd_prev_twice, (upd_next_id p (Some x) h Hn). by apply upd_prev_id.
  - rewrite upd_next_twice. by apply upd_next_id.
Qed.

Lemma unlink_static p (q : option nat) h : same_static h (unlink p q h).
Proof.
  unfold unlink. destruct q as [q|]; [|apply upd_next_static].
  eapply same_static_trans; [apply upd_next_static|apply upd_prev_static].
Qed.

(** Nodes other than the two neighbours keep their pointers. *)
Lemma nxt_unlink p (q : option nat) h (y : nat) : p <> y -> nxt (unlink p q h) y = nxt h y.
Proof.
  intros Hne. unfold unlink. destruct q; rewrite ?nxt_upd_prev, nxt_upd_next; by rewrite decide_False.
Qed.
Lemma prv_unlink p (q : option nat) h (y : nat) : q <> Some y -> prv (unlink p q h) y = prv h y.
Proof.
  intros Hne. unfold unlink. destruct q as [q|]; rewrite ?prv_upd_prev, ?prv_upd_next; [|done].
  rewrite decide_False by congruence. done.
Qed.

Lemma unlink_dll h hd A x B : NoDup (hd :: A ++ x :: B) -> dll h hd (A ++ x :: B) ->
  dll (unlink (before hd A) (head B) h) hd (A ++ B).
Proof.
  revert hd. induction A as [|a A IH]; intros hd Hnd; cbn [app dll].
  - unfold before. cbn [default last]. intros (H1 & H2 & H3). cbn [app] in Hnd.
    destruct B as [|y B]; cbn [head dll] in *.
    + unfold unlink. rewrite nxt_upd_next, decide_True by done. by rewrite H1.
    + destruct H3 as (H3 & H4 & H5). apply NoDup_cons in Hnd as [Hhd Hnd].
      apply NoDup_cons in Hnd as [Hx Hnd]. apply NoDup_cons in Hnd as [Hy Hnd].
      split_and!.
      * unfold unlink. rewrite nxt_upd_prev, nxt_upd_next, decide_True by done. by rewrite H1.
      * unfold unlink. rewrite prv_upd_prev, decide_True by done. rewrite prv_upd_next. by rewrite H4.
      * eapply dll_ext; [| |exact H5].
        -- intros q Hq. apply nxt_unlink. set_solver.
        -- intros q Hq. apply prv_unlink. set_solver.
  - intros (H1 & H2 & H3). rewrite before_cons. cbn [app] in Hnd. apply NoDup_cons in Hnd as [Hhd Hnd].
    pose proof (before_in a A) as Hb. split_and!.
    + rewrite nxt_unlink; [done|]. intros E. rewrite E in Hb. set_solver.
    + rewrite prv_unlink; [done|]. intros E. apply NoDup_cons in Hnd as [Ha _]. apply Ha.
      destruct B as [|y B]; [done|]. injection E as ->. set_solver.
    + by apply IH.
Qed.

Lemma before_fresh hd A x B : NoDup (hd :: A ++ x :: B) -> before hd A <> x.
Proof.
  intros Hnd E. pose proof (before_in hd A) as Hb. rewrite E in Hb.
  change (hd :: A ++ x :: B) with ((hd :: A) ++ x :: B) in Hnd. apply NoDup_app in Hnd as (_ & Hd & _).
  apply (Hd x Hb). set_solver.
Qed.
Lemma head_fresh hd A x B : NoDup (hd :: A ++ x :: B) -> head B <> Some x.
Proof.
  intros Hnd E. change (hd :: A ++ x :: B) with ((hd :: A) ++ x :: B) in Hnd.
  apply NoDup_app in Hnd as (_ & _ & Hnd). apply NoDup_cons in Hnd as [Hx _].
  destruct B as [|y B]; [done|]. injection E as ->. set_solver.
Qed.

(** The two halves of [lift] and of [unlift]. *)
Lemma unlink_call_run {X} h hd A x y B (k : M Heap X) : NoDup (hd :: A ++ x :: y :: B) -> dll h hd (A ++ x :: y :: B) ->
  (let! prev := load n_prev x in let! prev := deref prev in let! next := load n_next x in
   do! store_next prev next;
   let! next := load n_next x in let! next := deref next in let! prev := load n_prev x in
   do! store_prev next prev; k) h = k (unlink (before hd A) (Some y) h).
Proof.
  intros Hnd Hd. destruct (dll_at h hd A x (y :: B) Hd) as (Hp & Hx & Hn & Hy). cbn [head] in Hn.
  pose proof (before_fresh hd A x _ Hnd) as Hne.
  unfold bind at 1. rewrite (load_prev_run _ _ _ Hx). unfold bind at 1, deref, lift.
  unfold bind at 1. rewrite (load_next_run _ _ _ Hn). unfold bind at 1.
  rewrite store_next_run by (by eapply nxt_is_Some).
  unfold bind at 1. rewrite (load_next_run x (Some y)) by (by rewrite nxt_upd_next, decide_False).
  unfold bind at 1, deref, lift. unfold bind at 1.
  rewrite (load_prev_run x (Some (before hd A))) by (by rewrite prv_upd_next).
  unfold bind at 1. rewrite store_prev_run by (eapply prv_is_Some; by rewrite prv_upd_next). done.
Qed.

Lemma unlink_return_run h hd A x B : NoDup (hd :: A ++ x :: B) -> dll h hd (A ++ x :: B) ->
  (let! prev := load n_prev x in let! prev := deref prev in let! next := load n_next x in
   do! store_next prev next;
   let! next := load n_next x in
   match next with
   | None => ret tt
   | Some next => let! prev := load n_prev x in store_prev next prev
   end) h = Some (tt, unlink (before hd A) (head B) h).
Proof.
  intros Hnd Hd. destruct (dll_at h hd A x B Hd) as (Hp & Hx & Hn & Hy).
  pose proof (before_fresh hd A x _ Hnd) as Hne.
  unfold bind at 1. rewrite (load_prev_run _ _ _ Hx). unfold bind at 1, deref, lift.
  unfold bind at 1. rewrite (load_next_run _ _ _ Hn). unfold bind at 1.
  rewrite store_next_run by (by eapply nxt_is_Some).
  unfold bind at 1. rewrite (load_next_run x (head B)) by (by rewrite nxt_upd_next, decide_False).
  destruct B as [|y B]; [done|]. cbn [head].
  unfold bind at 1. rewrite (load_prev_run x (Some (before hd A))) by (by rewrite prv_upd_next).
  rewrite store_prev_run by (eapply prv_is_Some; by rewrite prv_upd_next). done.
Qed.

Lemma lift_run h hd A e B m C :
  NoDup (hd :: A ++ e :: B ++ m :: C) -> dll h hd (A ++ e :: B ++ m :: C) -> n_match <$> h !! e = Some (Some m) ->
  exists h', lift_entry e h = Some (tt, h') /\ dll h' hd (A ++ B ++ C) /\ same_static h h' /\
    unlift_entry e h' = Some (tt, h).
Proof.
  intros Hnd Hd Hm. set (h1 := unlink (before hd A) (head (B ++ m :: C)) h).
  set (h2 := unlink (before hd (A ++ B)) (head C) h1).
  assert (Hd1 : dll h1 hd ((A ++ B) ++ m :: C)) by (rewrite <-app_assoc; by eapply unlink_dll).
  assert (Hnd1 : NoDup (hd :: (A ++ B) ++ m :: C)).
  { rewrite <-app_assoc. eapply sublist_NoDup; [exact Hnd|]. apply sublist_skip, sublist_app; [done|].
    by constructor. }
  assert (Hd2 : dll h2 hd (A ++ B ++ C)) by (rewrite app_assoc; by eapply unlink_dll).
  assert (Hs1 : same_static h h1) by apply unlink_static.
  assert (Hs2 : same_static h1 h2) by apply unlink_static.
  assert (Hm1 : n_match <$> h1 !! e = Some (Some m)).
  { destruct (h !! e) as [n|] eqn:E; [|done]. destruct Hs1 as [_ Hs1].
    destruct (Hs1 e n E) as (n' & -> & _ & Hn' & _). cbn in *. congruence. }
  assert (Hm2 : n_match <$> h2 !! e = Some (Some m)).
  { destruct (h1 !! e) as [n|] eqn:E; [|done]. destruct Hs2 as [_ Hs2].
    destruct (Hs2 e n E) as (n' & -> & _ & Hn' & _). cbn in *. congruence. }
  exists h2. split_and!; [|done|by eapply same_static_trans|].
  - unfold lift_entry. destruct (B ++ m :: C) as [|y R] eqn:ER; [by destruct B|].
    rewrite (unlink_call_run h hd A e y R) by done.
    assert (unlink (before hd A) (Some y) h = h1) as -> by reflexivity.
    unfold bind at 1. rewrite (load_match_run _ _ _ Hm1). unfold bind at 1, deref, lift.
    by apply (unlink_return_run h1 hd (A ++ B) m C).
  - destruct (dll_at h1 hd (A ++ B) m C Hd1) as (Hp1 & Hx1 & Hn1 & Hy1).
    destruct (dll_at h hd A e (B ++ m :: C) Hd) as (Hp & Hx & Hn & Hy).
    pose proof (before_fresh _ _ _ _ Hnd1) as Hf1. pose proof (head_fresh _ _ _ _ Hnd1) as Hg1.
    pose proof (before_fresh _ _ _ _ Hnd) as Hf. pose proof (head_fresh _ _ _ _ Hnd) as Hg.
    unfold unlift_entry. unfold bind at 1. rewrite (load_match_run _ _ _ Hm2). unfold bind at 1, deref, lift.
    unfold bind at 1. rewrite (load_prev_run m (Some (before hd (A ++ B))))
      by (unfold h2; by rewrite prv_unlink).
    unfold bind at 1, deref, lift. unfold bind at 1.
    rewrite store_next_run.
    2:{ apply (nxt_is_Some h2 _ (head C)). unfold h2, unlink.
        destruct (head C); rewrite ?nxt_upd_prev, nxt_upd_next, decide_True by done; by rewrite Hp1. }
    unfold bind at 1. rewrite (load_next_run m (head C))
      by (rewrite nxt_upd_next, decide_False by done; unfold h2; by rewrite nxt_unlink).
    assert (Hre : relink m (before hd (A ++ B)) (head C) h2 = h1).
    { apply relink_unlink; [done|]. by destruct C. }
    assert (Hrest : forall X (k : M Heap X),
      (do! (match head C with None => ret tt | Some next => store_prev next (Some m) end); k)
        (upd_next (before hd (A ++ B)) (Some m) h2) = k h1).
    { intros X k. rewrite <-Hre. unfold relink, bind. destruct C as [|y C]; [done|]. cbn [head].
      rewrite store_prev_run; [done|]. eapply prv_is_Some. rewrite prv_upd_next. unfold h2, unlink. cbn [head].
      rewrite prv_upd_prev, decide_True by done. rewrite prv_upd_next, Hy1. done. }
    rewrite Hrest. clear Hrest.
    unfold bind at 1. rewrite (load_prev_run e (Some (before hd A))) by (unfold h1; by rewrite prv_unlink).
    unfold bind at 1, deref, lift. unfold bind at 1. rewrite store_next_run.
    2:{ apply (nxt_is_Some h1 _ (head (B ++ m :: C))). unfold h1, unlink.
        destruct (head (B ++ m :: C)); rewrite ?nxt_upd_prev, nxt_upd_next, decide_True by done; by rewrite Hp. }
    unfold bind at 1. rewrite (load_next_run e (head (B ++ m :: C)))
      by (rewrite nxt_upd_next, decide_False by done; unfold h1; by rewrite nxt_unlink).
    assert (Hre1 : relink e (before hd A) (head (B ++ m :: C)) h1 = h).
    { apply relink_unlink; [done|]. by destruct (B ++ m :: C). }
    destruct (B ++ m :: C) as [|y R] eqn:ER; [by destruct B|]. cbn [head] in *. unfold bind, deref, lift.
    rewrite store_prev_run.
    + do 2 f_equal. exact Hre1.
    + eapply prv_is_Some. rewrite prv_upd_next. unfold h1, unlink. rewrite prv_upd_prev, decide_True by done.
      rewrite prv_upd_next, Hy. done.
Qed.
End heap.
