(* ===== verification/PorcupineBits.v ===== *)
(** * The bitset of the checker represents a set

    [bits n b s]: the words of [b] hold exactly the members of [s] below [n]. A set has one
    representation, so [equals] decides equality of sets, and [set], [clear] and [get] are
    insertion, removal and membership, in range. *)
From S2P Require Import Prelude Porcupine.
Import Bitset.

Definition chunks (n : Z) : nat := length (newBitset n).

Lemma chunks_bound n i : 0 <= i < n -> 0 <= i / 64 < Z.of_nat (chunks n).
Proof.
  intros Hi. unfold chunks, newBitset. rewrite length_replicate.
  pose proof (Z.div_pos i 64 ltac:(lia) ltac:(lia)). pose proof (Z.div_mod n 64 ltac:(lia)).
  pose proof (Z.mod_pos_bound n 64 ltac:(lia)). split; [lia|].
  assert (i / 64 <= (n - 1) / 64) by (apply Z.div_le_mono; lia).
  case_decide as Hm.
  - rewrite Z2Nat.id by (pose proof (Z.div_pos n 64 ltac:(lia) ltac:(lia)); lia).
    assert ((n - 1) / 64 <= n / 64) by (apply Z.div_le_mono; lia). lia.
  - rewrite Z2Nat.id by (pose proof (Z.div_pos n 64 ltac:(lia) ltac:(lia)); lia).
    assert (n = 64 * (n / 64)) by lia. assert ((n - 1) / 64 < n / 64); [|lia].
    apply Z.div_lt_upper_bound; lia.
Qed.

Definition bits (n : Z) (b : bitset) (s : gset Z) : Prop :=
  length b = chunks n /\
  forall k w, b !! k = Some w -> forall j, 0 <= j ->
    Z.testbit w j = bool_decide (j < 64 /\ 64 * Z.of_nat k + j ∈ s).

Lemma bits_new n : bits n (newBitset n) ∅.
Proof.
  split; [done|]. intros k w Hw j Hj. unfold newBitset in Hw. apply lookup_replicate in Hw as [-> _].
  rewrite Z.bits_0. symmetry. apply bool_decide_eq_false. set_solver.
Qed.

(** A set has one representation. *)
Lemma bits_unique n b b' s : bits n b s -> bits n b' s -> b = b'.
Proof.
  intros [Hl Hb] [Hl' Hb']. apply list_eq. intros k.
  destruct (b !! k) as [w|] eqn:E, (b' !! k) as [w'|] eqn:E'.
  - f_equal. apply Z.bits_inj'. intros j Hj. by rewrite (Hb k w E j Hj), (Hb' k w' E' j Hj).
  - apply lookup_lt_Some in E. apply lookup_ge_None in E'. lia.
  - apply lookup_lt_Some in E'. apply lookup_ge_None in E. lia.
  - done.
Qed.

Definition below (n : Z) (s : gset Z) : Prop := forall i, i ∈ s -> 0 <= i < n.

Lemma split64 (k : nat) (j i : Z) : 0 <= j < 64 -> 0 <= i ->
  64 * Z.of_nat k + j = i <-> Z.of_nat k = i / 64 /\ j = i mod 64.
Proof.
  intros Hj Hi. pose proof (Z.div_mod i 64 ltac:(lia)). pose proof (Z.mod_pos_bound i 64 ltac:(lia)).
  lia.
Qed.

Lemma word_lookup n (b : bitset) s i : bits n b s -> 0 <= i < n ->
  exists w, slice_get b (i / 64) = Some w /\ b !! Z.to_nat (i / 64) = Some w.
Proof.
  intros [Hl _] Hi. pose proof (chunks_bound n i Hi) as Hc.
  destruct (slice_get_is_Some b (i / 64)) as [w Hw]; [lia|]. exists w. split; [done|].
  by apply slice_get_Some in Hw as [_ ?].
Qed.

(** An update of one bit of one word. *)
Lemma bits_update n b s s' i w w' : bits n b s -> 0 <= i < n -> b !! Z.to_nat (i / 64) = Some w ->
  (forall j, 0 <= j -> Z.testbit w' j = if decide (j = i mod 64) then bool_decide (i ∈ s') else Z.testbit w j) ->
  (forall x, x <> i -> x ∈ s' <-> x ∈ s) ->
  bits n (<[Z.to_nat (i / 64) := w']> b) s'.
Proof.
  intros Hbits Hi Hw Hw' Hs. pose proof Hbits as [Hl Hb].
  pose proof (Z.div_pos i 64 ltac:(lia) ltac:(lia)) as Hd. pose proof (Z.mod_pos_bound i 64 ltac:(lia)) as Hm.
  split; [by rewrite length_insert|]. intros k v [(<- & <- & _)|[Hne Hk]]%list_lookup_insert_Some j Hj.
  - rewrite (Hw' j Hj). destruct (decide (j = i mod 64)) as [E|E].
    + assert (64 * Z.of_nat (Z.to_nat (i / 64)) + j = i) as -> by (apply split64; lia).
      apply bool_decide_ext. split; [intros; split; [lia|done]|tauto].
    + rewrite (Hb _ w Hw j Hj). apply bool_decide_ext. split; intros [? ?]; (split; [done|]);
        (apply Hs; [|done]); intros E'; pose proof (Z.div_mod i 64 ltac:(lia)); lia.
  - rewrite (Hb k v Hk j Hj). apply bool_decide_ext. split; intros [? ?]; (split; [done|]);
      (apply Hs; [|done]); intros E'; pose proof (Z.div_mod i 64 ltac:(lia)); lia.
Qed.

Lemma set_run n b s i : bits n b s -> 0 <= i < n -> exists b', set b i = Some b' /\ bits n b' (s ∪ {[i]}).
Proof.
  intros Hb Hi. destruct (word_lookup n b s i Hb Hi) as (w & Hg & Hw). pose proof (chunks_bound n i Hi) as Hc.
  pose proof Hb as [Hl _]. unfold set, bitsetIndex. rewrite Hg, slice_set_Some by lia.
  eexists. split; [done|]. eapply bits_update; [done|done|done| |set_solver].
  intros j Hj. rewrite Z.lor_spec, Z.shiftl_spec by lia. destruct (decide (j = i mod 64)) as [E|E].
  - subst. rewrite Z.sub_diag. rewrite orb_true_r. symmetry. apply bool_decide_eq_true. set_solver.
  - destruct (Z.testbit 1 (j - i mod 64)) eqn:Et; [|by rewrite orb_false_r].
    exfalso. destruct (Z.lt_trichotomy (j - i mod 64) 0) as [Hlt|[?|Hgt]]; [|lia|].
    + by rewrite Z.testbit_neg_r in Et.
    + change 1 with (2 ^ 0) in Et. rewrite Z.pow2_bits_false in Et by lia. done.
Qed.

Lemma clear_run n b s i : bits n b s -> 0 <= i < n -> exists b', clear b i = Some b' /\ bits n b' (s ∖ {[i]}).
Proof.
  intros Hb Hi. destruct (word_lookup n b s i Hb Hi) as (w & Hg & Hw). pose proof (chunks_bound n i Hi) as Hc.
  pose proof Hb as [Hl _]. unfold clear, bitsetIndex. rewrite Hg, slice_set_Some by lia.
  eexists. split; [done|]. eapply bits_update; [done|done|done| |set_solver].
  intros j Hj. rewrite Z.ldiff_spec, Z.shiftl_spec by lia. destruct (decide (j = i mod 64)) as [E|E].
  - subst. rewrite Z.sub_diag. cbn [Z.testbit negb]. rewrite andb_false_r. symmetry. apply bool_decide_eq_false. set_solver.
  - destruct (Z.testbit 1 (j - i mod 64)) eqn:Et; [|by rewrite andb_true_r].
    exfalso. destruct (Z.lt_trichotomy (j - i mod 64) 0) as [Hlt|[?|Hgt]]; [|lia|].
    + by rewrite Z.testbit_neg_r in Et.
    + change 1 with (2 ^ 0) in Et. rewrite Z.pow2_bits_false in Et by lia. done.
Qed.

Lemma get_run n b s i : bits n b s -> 0 <= i < n -> get b i = Some (bool_decide (i ∈ s)).
Proof.
  intros Hb Hi. destruct (word_lookup n b s i Hb Hi) as (w & Hg & Hw). pose proof Hb as [_ Hbits].
  pose proof (Z.mod_pos_bound i 64 ltac:(lia)) as Hm. unfold get, bitsetIndex. rewrite Hg. f_equal.
  assert (Ht : Z.testbit w (i mod 64) = bool_decide (i ∈ s)).
  { rewrite (Hbits _ w Hw) by lia. apply bool_decide_ext.
    assert (64 * Z.of_nat (Z.to_nat (i / 64)) + i mod 64 = i) as ->.
    { apply split64; try lia. pose proof (Z.div_pos i 64 ltac:(lia) ltac:(lia)). lia. }
    split; [tauto|]. intros. split; [lia|done]. }
  rewrite <-Ht, Z.shiftl_1_l. destruct (Z.testbit w (i mod 64)) eqn:E.
  - rewrite bool_decide_eq_false_2; [done|]. intros E0. apply (f_equal (fun z => Z.testbit z (i mod 64))) in E0.
    rewrite Z.land_spec, E, Z.pow2_bits_true, Z.bits_0 in E0 by lia. done.
  - rewrite bool_decide_eq_true_2; [done|]. apply Z.bits_inj'. intros j Hj. rewrite Z.land_spec, Z.bits_0.
    destruct (decide (j = i mod 64)) as [->|Hne]; [by rewrite E|].
    rewrite Z.pow2_bits_false by lia. by rewrite andb_false_r.
Qed.

Lemma bitset_clone_id b : clone b = b.
Proof. apply copy_into_replicate. Qed.

Lemma equals_spec b b' : equals b b' = true <-> b = b'.
Proof.
  unfold equals. case_decide as Hl; [split; [done|congruence]|].
  revert b' Hl. induction b as [|v b IH]; intros [|v' b'] Hl; try done. cbn in Hl |- *. case_decide as E.
  - split; [done|congruence].
  - rewrite IH by lia. subst. split; congruence.
Qed.

(** The bitset is a set of operations. For every [n], the empty bitset of [n] bits
    represents the empty set, [set], [clear] and [get] do not leave the slice for a
    position below [n] and are insertion, removal and membership, and two bitsets are
    [equals] exactly when they represent the same set. *)
Theorem bitset_refines_set n b s i :
  bits n b s -> 0 <= i < n ->
  bits n (newBitset n) ∅ /\
  (exists b', set (clone b) i = Some b' /\ bits n b' (s ∪ {[i]})) /\
  (exists b', clear b i = Some b' /\ bits n b' (s ∖ {[i]})) /\
  get b i = Some (bool_decide (i ∈ s)) /\
  (forall b', bits n b' s -> equals b b' = true).
Proof.
  intros Hb Hi. split_and!.
  - apply bits_new.
  - rewrite bitset_clone_id. by apply set_run.
  - by apply clear_run.
  - by eapply get_run.
  - intros b' Hb'. apply equals_spec. by eapply bits_unique.
Qed.

Lemma bitset_refines_set_witness :
  exists b', set (clone (newBitset 70)) 65 = Some b' /\ bits 70 b' (∅ ∪ {[65]}).
Proof.
  apply (proj1 (proj2 (bitset_refines_set 70 (newBitset 70) ∅ 65 (bits_new 70) ltac:(lia)))).
Defined.
