(* ===== verification/PorcupineSearch.v ===== *)
(** * The search of the checker

    Over a list of entries whose calls know their returns, [completes S s σ] says that the
    operations outside the set [S] can be taken one after the other in the order [σ] from
    state [s], each time one whose call comes before every return that is left. The loop of
    [checkSingle] keeps an invariant ([Inv]): the calls taken so far form a path of such
    choices, every choice skipped so far and every configuration in the cache that is not on
    the path is dead. So it decides whether the whole history completes, and a measure on
    its variables bounds its rounds. *)
From S2P Require Import Prelude Porcupine PorcupineHeap PorcupineBits.
Import Bitset.

Lemma split_unique {A} (l1 r1 l2 r2 : list A) x :
  NoDup (l1 ++ x :: r1) -> l1 ++ x :: r1 = l2 ++ x :: r2 -> l1 = l2 /\ r1 = r2.
Proof.
  revert l2. induction l1 as [|y l1 IH]; intros [|z l2] Hnd E; cbn in *.
  - by injection E.
  - injection E as <- ->. apply NoDup_cons in Hnd as [Hx _]. set_solver.
  - injection E as -> <-. apply NoDup_cons in Hnd as [Hx _]. set_solver.
  - injection E as <- E. apply NoDup_cons in Hnd as [_ Hnd]. by destruct (IH l2 Hnd E) as [-> ->].
Qed.

Lemma filter_all {A} (P : A -> Prop) `{!forall x, Decision (P x)} (l : list A) : (forall x, x ∈ l -> P x) -> filter P l = l.
Proof.
  induction l as [|x l IH]; intros Hl; [done|]. rewrite filter_cons_True by set_solver. f_equal. set_solver.
Qed.

Lemma filter_sub {A} (P : A -> Prop) `{!forall x, Decision (P x)} (l : list A) : sublist (filter P l) l.
Proof.
  induction l as [|x l IH]; [done|]. rewrite filter_cons. case_decide; by constructor.
Qed.

Lemma rev_fmap_rev {A B} (f : A -> B) (l : list A) : rev (f <$> rev l) = f <$> l.
Proof. induction l as [|x l IH]; [done|]. cbn. rewrite fmap_app, rev_app_distr, IH. done. Qed.

Section search.
Context {In Out St : Type} (model : Model In Out St) (equal : St -> St -> bool).
Hypothesis Hequal : forall s s', equal s s' = true <-> s = s'.
Variables (n : Z) (h0 : list (node In Out)) (hd : nat) (L0 : list nat).

Definition mt (p : nat) : option nat := h0 !! p ≫= n_match.
Definition idp (p : nat) : Z := match h0 !! p with Some x => n_id x | None => 0 end.
Definition valp (p : nat) : option (Value In Out) := h0 !! p ≫= n_value.

Hypotheses (Hn : 0 <= n) (Hdll : dll h0 hd L0) (Hnd : NoDup (hd :: L0))
  (Hin : forall p, p ∈ L0 -> is_Some (h0 !! p) /\ 0 <= idp p < n)
  (Hcall : forall e m, e ∈ L0 -> mt e = Some m -> exists A B C, L0 = A ++ e :: B ++ m :: C /\
     mt m = None /\ idp m = idp e /\ (forall p, p ∈ A ++ B ++ C -> idp p <> idp e) /\
     exists input output, valp e = Some (inl input) /\ valp m = Some (inr output)).

(** ** Choices *)

Definition tries (s : St) (e : nat) : option St :=
  match mt e with
  | Some m =>
      match valp e, valp m with
      | Some (inl input), Some (inr output) =>
          let '(ok, s') := Step model s input output in if ok then Some s' else None
      | _, _ => None
      end
  | None => None
  end.

Definition live (S : gset Z) : list nat := filter (fun p => idp p ∉ S) L0.

Inductive completes : gset Z -> St -> list Z -> Prop :=
  | c_nil S s : live S = [] -> completes S s []
  | c_cons S s e A R s' σ :
      live S = A ++ e :: R -> Forall (fun p => is_Some (mt p)) A -> tries s e = Some s' ->
      completes (S ∪ {[idp e]}) s' σ -> completes S s (idp e :: σ).

Definition dead (S : gset Z) (s : St) : Prop := forall σ, ~ completes S s σ.
Definition exhausted (S : gset Z) (s : St) (A : list nat) : Prop :=
  forall e s', e ∈ A -> tries s e = Some s' -> dead (S ∪ {[idp e]}) s'.

Lemma live_NoDup S : NoDup (hd :: live S).
Proof. eapply sublist_NoDup; [exact Hnd|]. apply sublist_skip, filter_sub. Qed.
Lemma live_in S p : p ∈ live S <-> idp p ∉ S /\ p ∈ L0.
Proof. unfold live. by rewrite list_elem_of_filter. Qed.

Lemma tries_call s e s' : tries s e = Some s' -> exists m, mt e = Some m.
Proof. unfold tries. destruct (mt e) as [m|]; [by exists m|done]. Qed.

(** Taking an operation removes its two entries. *)
Lemma live_call S e m : e ∈ live S -> mt e = Some m -> exists A B C,
  live S = A ++ e :: B ++ m :: C /\ live (S ∪ {[idp e]}) = A ++ B ++ C.
Proof.
  intros [HeS He]%live_in Hm. destruct (Hcall e m He Hm) as (A & B & C & E & _ & Hid & Hother & _).
  exists (filter (fun p => idp p ∉ S) A), (filter (fun p => idp p ∉ S) B), (filter (fun p => idp p ∉ S) C).
  unfold live. rewrite E. rewrite !filter_app, !filter_cons, !filter_app, !filter_cons, Hid.
  rewrite !decide_True by done. rewrite !decide_False by set_solver. split; [done|].
  assert (Hf : forall l : list nat, (forall p, p ∈ l -> idp p <> idp e) ->
    filter (fun p => idp p ∉ S ∪ {[idp e]}) l = filter (fun p => idp p ∉ S) l).
  { intros l Hl. apply filter_ext_in. intros p Hp. specialize (Hl p Hp). set_solver. }
  rewrite !Hf by (intros p Hp; apply Hother; set_solver). done.
Qed.

(** A non-empty live list has a return that is not in its first calls. *)
Lemma live_return S A R : live S = A ++ R -> Forall (fun p => is_Some (mt p)) A -> live S <> [] -> R <> [].
Proof.
  intros E HA Hne ->. rewrite app_nil_r in E. destruct A as [|e A]; [congruence|].
  rewrite E in Hne. assert (He : e ∈ live S) by (rewrite E; set_solver).
  pose proof HA as HA'. apply Forall_cons in HA' as [[m Hm] _].
  destruct (live_call S e m He Hm) as (A1 & B & C & E1 & _).
  assert (Hml : m ∈ live S) by (rewrite E1; set_solver).
  destruct (Hcall e m) as (_ & _ & _ & _ & Hmn & _); [by apply live_in in He as [_ ?]|done|].
  rewrite Forall_forall in HA. rewrite E in Hml. destruct (HA m Hml) as [? ?]. congruence.
Qed.

(** The next operation is called before the first return that is left. *)
Lemma choice_before S A p R A' e R' : live S = A ++ p :: R -> mt p = None ->
  live S = A' ++ e :: R' -> Forall (fun p => is_Some (mt p)) A' -> is_Some (mt e) -> e ∈ A.
Proof.
  intros E Hp E' HA' [m Hm]. rewrite E in E'. destruct (List.app_eq_app _ _ _ _ E') as [k [[E1 E2]|[E1 E2]]].
  - destruct k as [|x k]; cbn in E2; injection E2 as -> _; [congruence|]. rewrite E1. set_solver.
  - destruct k as [|x k]; cbn in E2; injection E2 as Ex _; [congruence|]. rewrite E1, <-Ex in HA'.
    rewrite Forall_forall in HA'. destruct (HA' p) as [? ?]; [set_solver|congruence].
Qed.

(** With all choices exhausted, a configuration is dead. *)
Lemma exhausted_dead S s A p R : live S = A ++ p :: R -> mt p = None -> exhausted S s A -> dead S s.
Proof.
  intros E Hp Hex σ Hc. destruct Hc as [S s E'|S s e A' R' s' σ E' HA' Ht Hc]; [rewrite E' in E; by destruct A|].
  assert (e ∈ A) as HeA by (eapply choice_before; eauto; by destruct (tries_call s e s' Ht) as [m ->]).
  exact (Hex e s' HeA Ht σ Hc).
Qed.

(** ** Paths: operations taken one after the other *)

Inductive path : gset Z -> St -> list Z -> gset Z -> St -> Prop :=
  | p_nil S s : path S s [] S s
  | p_cons S s e A R s' σ S2 s2 :
      live S = A ++ e :: R -> Forall (fun p => is_Some (mt p)) A -> tries s e = Some s' ->
      path (S ∪ {[idp e]}) s' σ S2 s2 -> path S s (idp e :: σ) S2 s2.

Lemma path_app S s σ S1 s1 σ' S2 s2 : path S s σ S1 s1 -> path S1 s1 σ' S2 s2 -> path S s (σ ++ σ') S2 s2.
Proof. intros Hp Hp'. induction Hp; [done|]. cbn. by eapply p_cons; eauto. Qed.

(** ** Frames: the calls taken, with the heap and the configurations on the way *)

Inductive frames : list (callsEntry (S := St)) -> list (node In Out) -> list (gset Z * St) -> Prop :=
  | f_nil : frames [] h0 [(∅, Init model)]
  | f_push cs h S s rest e A R s' h' :
      frames cs h ((S, s) :: rest) -> live S = A ++ e :: R -> Forall (fun p => is_Some (mt p)) A ->
      tries s e = Some s' -> exhausted S s A ->
      lift_entry e h = Some (tt, h') -> unlift_entry e h' = Some (tt, h) ->
      dll h' hd (live (S ∪ {[idp e]})) -> same_static h0 h' ->
      frames (mkCallsEntry e s :: cs) h' ((S ∪ {[idp e]}, s') :: (S, s) :: rest).

(** The configurations the search can meet, by depth: a finite list. *)
Fixpoint conf (k : nat) : list (bitset * St) :=
  match k with
  | O => [(newBitset n, Init model)]
  | Datatypes.S k =>
      conf k ≫= fun '(b, s) => L0 ≫= fun e =>
        match tries s e, set b (idp e) with Some s', Some b' => [(b', s')] | _, _ => [] end
  end.

Record frame_facts (cs : list (callsEntry (S := St))) (h : list (node In Out)) (S : gset Z) (s : St)
    (rest : list (gset Z * St)) : Prop := {
  ff_dll : dll h hd (live S);
  ff_static : same_static h0 h;
  ff_below : below n S;
  ff_size : size S = length cs;
  ff_rest S' s' : (S', s') ∈ rest -> (size S' < size S)%nat;
  ff_conf : exists b, bits n b S /\ (b, s) ∈ conf (length cs);
  ff_complete σ : completes S s σ -> completes ∅ (Init model) (rev ((fun c => idp (ce_entry c)) <$> cs) ++ σ);
  ff_calls c : c ∈ cs -> ce_entry c ∈ L0;
  ff_path : path ∅ (Init model) (rev ((fun c => idp (ce_entry c)) <$> cs)) S s;
  ff_ids i : i ∈ S <-> i ∈ (fun c => idp (ce_entry c)) <$> cs
}.

Lemma frames_facts cs h S s rest : frames cs h ((S, s) :: rest) -> frame_facts cs h S s rest.
Proof.
  remember ((S, s) :: rest) as cfgs eqn:E. intros Hf. revert S s rest E.
  induction Hf as [|cs h S s rest e A R s' h' Hf IH El HA Ht Hex Hl Hu Hd Hst]; intros S0 s0 rest0 E; simplify_eq.
  - split; [| |set_solver| |set_solver| |done|set_solver|constructor|set_solver].
    + unfold live. rewrite filter_all; [done|]. set_solver.
    + apply same_static_refl.
    + done.
    + exists (newBitset n). split; [apply bits_new|]. set_solver.
  - specialize (IH S s rest eq_refl). destruct IH.
    assert (He : e ∈ live S) by (rewrite El; set_solver). apply live_in in He as [HeS HeL].
    destruct (Hin e HeL) as [_ Hid]. split; try done.
    + intros i [?| ->%elem_of_singleton]%elem_of_union; [by apply ff_below0|done].
    + rewrite size_union by set_solver. rewrite size_singleton. cbn. lia.
    + intros S' s'' [[= -> ->]|Hr]%elem_of_cons; rewrite size_union, size_singleton by set_solver; [lia|].
      apply ff_rest0 in Hr. lia.
    + destruct ff_conf0 as (b & Hb & Hc). destruct (set_run n b S (idp e) Hb Hid) as (b' & Hset & Hb').
      exists b'. split; [done|]. cbn [length conf]. apply list_elem_of_bind. exists (b, s). split; [|done].
      apply list_elem_of_bind. exists e. rewrite Ht, Hset. split; [set_solver|done].
    + intros σ Hσ. cbn [fmap list_fmap rev ce_entry]. rewrite <-app_assoc. apply ff_complete0. cbn.
      by eapply c_cons.
    + intros c [->|Hc]%elem_of_cons; [done|by apply ff_calls0].
    + cbn [fmap list_fmap rev ce_entry]. eapply path_app; [exact ff_path0|]. eapply p_cons; [done..|constructor].
    + intros i. cbn. rewrite elem_of_cons, elem_of_union, elem_of_singleton, (ff_ids0 i). tauto.
Qed.

(** ** The cache *)

Definition cached (cache : gmap Z (list (cacheEntry (S := St)))) (b : bitset) (s : St) : Prop :=
  mkCacheEntry b s ∈ default [] (cache !! hash b).

Lemma cacheContains_spec cache b s : cacheContains equal cache (mkCacheEntry b s) = true <-> cached cache b s.
Proof.
  unfold cacheContains, cached. rewrite existsb_exists. cbn [c_linearized c_state]. split.
  - intros ([b' s'] & Hin' & [E1%equals_spec E2%Hequal]%andb_true_iff). cbn in *. subst. by apply list_elem_of_In.
  - intros Hc. exists (mkCacheEntry b s). split; [by apply list_elem_of_In|]. cbn.
    apply andb_true_iff. split; [by apply equals_spec|by apply Hequal].
Qed.

Lemma cached_insert cache b s b' s' :
  cached (<[hash b := default [] (cache !! hash b) ++ [mkCacheEntry b s]]> cache) b' s' <->
  cached cache b' s' \/ (b' = b /\ s' = s).
Proof.
  unfold cached. destruct (decide (hash b' = hash b)) as [E|Hne].
  - rewrite E, lookup_insert_eq. cbn. rewrite elem_of_app, list_elem_of_singleton. split.
    + intros [?|[= -> ->]]; auto.
    + intros [?|[-> ->]]; auto.
  - rewrite lookup_insert_ne by done. split; [auto|]. intros [?|[-> ->]]; [done|congruence].
Qed.

(** Cached configurations are on the path or dead. *)
Definition cache_ok cache (cfgs : list (gset Z * St)) : Prop :=
  forall b s, cached cache b s -> exists S, bits n b S /\ below n S /\ ((S, s) ∈ cfgs \/ dead S s).

Lemma bits_inj b S S' : bits n b S -> below n S -> bits n b S' -> below n S' -> S = S'.
Proof.
  intros Hb Hs Hb' Hs'. apply set_eq. intros i. split; intros Hi.
  - pose proof (get_run n b S i Hb (Hs i Hi)) as E. rewrite (get_run n b S' i Hb' (Hs i Hi)) in E.
    injection E as E. rewrite (bool_decide_eq_true_2 (i ∈ S)) in E by done. by apply bool_decide_eq_true in E.
  - pose proof (get_run n b S i Hb (Hs' i Hi)) as E. rewrite (get_run n b S' i Hb' (Hs' i Hi)) in E.
    injection E as E. rewrite (bool_decide_eq_true_2 (i ∈ S')) in E by done. symmetry in E.
    by apply bool_decide_eq_true in E.
Qed.

(** ** What is reported *)

(** The sequences [longest] points to. *)
Definition reads (seqs : list (list Z)) (longest : list (option nat)) : list (option (list Z)) :=
  (fun p => p ≫= (fun k => seqs !! k)) <$> longest.

(** Every sequence is a path that contains the operation it is reported for. *)
Definition reported (seqs : list (list Z)) (longest : list (option nat)) : Prop :=
  forall i k, longest !! i = Some (Some k) -> exists σ S s, seqs !! k = Some σ /\ Z.of_nat i ∈ σ /\
    path ∅ (Init model) σ S s.

(** At least as good as before. *)
Definition improves (seqs : list (list Z)) (longest longest' : list (option nat)) : Prop :=
  forall i k σ, longest !! i = Some (Some k) -> seqs !! k = Some σ ->
    exists k' σ', longest' !! i = Some (Some k') /\ seqs !! k' = Some σ' /\ (length σ <= length σ')%nat.

Lemma improves_refl seqs longest : improves seqs longest longest.
Proof. intros i k σ Hi Hk. exists k, σ. done. Qed.
Lemma improves_trans seqs l1 l2 l3 : improves seqs l1 l2 -> improves seqs l2 l3 -> improves seqs l1 l3.
Proof.
  intros H12 H23 i k σ Hi Hk. destruct (H12 i k σ Hi Hk) as (k' & σ' & Hi' & Hk' & Hle).
  destruct (H23 i k' σ' Hi' Hk') as (k2 & σ2 & ? & ? & ?). exists k2, σ2. split_and!; [done|done|lia].
Qed.

(** Pointers that point somewhere. *)
Definition valid (seqs : list (list Z)) (longest : list (option nat)) : Prop :=
  forall i k, longest !! i = Some (Some k) -> is_Some (seqs !! k).

Record updated (seqs : list (list Z)) (seq : nat) (callsLen : Z) (ids : list Z) (longest longest' : list (option nat)) : Prop := {
  up_len : length longest' = length longest;
  up_from i : longest' !! i = longest !! i \/ (Z.of_nat i ∈ ids /\ longest' !! i = Some (Some seq));
  up_improves : improves seqs longest longest';
  up_enough i : i ∈ ids -> exists k σ, longest' !! Z.to_nat i = Some (Some k) /\ seqs !! k = Some σ /\ callsLen <= len σ
}.

(** One assignment of the loop. *)
Lemma updated_one seqs seq σ0 callsLen id longest l : seqs !! seq = Some σ0 -> len σ0 = callsLen -> valid seqs longest ->
  0 <= id < n -> longest !! Z.to_nat id = Some l ->
  match l with None => True | Some k => exists σ, seqs !! k = Some σ /\ callsLen > len σ end ->
  updated seqs seq callsLen [id] longest (<[Z.to_nat id := Some seq]> longest).
Proof.
  intros Hseq Hlen Hval Hid Hl Hbet. pose proof (lookup_lt_Some _ _ _ Hl) as Hlt. split.
  - apply length_insert.
  - intros i. destruct (decide (i = Z.to_nat id)) as [->|Hne]; [right|left; by rewrite list_lookup_insert_ne].
    rewrite list_lookup_insert_eq, Z2Nat.id by lia. set_solver.
  - intros i k σ Hi Hk. destruct (decide (i = Z.to_nat id)) as [->|Hne]; [|exists k, σ; by rewrite list_lookup_insert_ne].
    exists seq, σ0. rewrite list_lookup_insert_eq by done. split_and!; [done|done|].
    rewrite Hi in Hl. injection Hl as <-. destruct Hbet as (σ' & Hσ' & ?). rewrite Hk in Hσ'. injection Hσ' as <-. lia.
  - intros i ->%list_elem_of_singleton. exists seq, σ0. rewrite list_lookup_insert_eq by done. split_and!; [done|done|lia].
Qed.

Lemma longest_loop_run seqs seq σ0 callsLen ids longest : seqs !! seq = Some σ0 -> len σ0 = callsLen ->
  length longest = Z.to_nat n -> (forall i, i ∈ ids -> 0 <= i < n) -> valid seqs longest ->
  exists longest', longest_loop seqs seq callsLen ids longest = Some longest' /\ updated seqs seq callsLen ids longest longest'.
Proof.
  intros Hseq Hlen0. revert longest. induction ids as [|id ids IH]; intros longest Hl Hids Hval.
  { exists longest. split; [done|]. split; [done|by left|apply improves_refl|set_solver]. }
  cbn [longest_loop]. pose proof (Hids id ltac:(set_solver)) as Hid.
  destruct (lookup_range longest (Z.to_nat id)) as (l & Hlk & Hsl); [lia|]. rewrite Z2Nat.id in Hsl by lia. rewrite Hsl.
  assert (Hstep : forall l1, updated seqs seq callsLen [id] longest l1 -> valid seqs l1 ->
    exists longest', longest_loop seqs seq callsLen ids l1 = Some longest' /\ updated seqs seq callsLen (id :: ids) longest longest').
  { intros l1 [U1 U2 U3 U4] Hv1. destruct (IH l1) as (l2 & Hr & [V1 V2 V3 V4]); [congruence|set_solver|done|].
    exists l2. split; [done|]. split; [congruence| |by eapply improves_trans|].
    - intros i. destruct (V2 i) as [->|[? ->]]; [|right; set_solver]. destruct (U2 i) as [->|[? ->]]; [by left|right; set_solver].
    - intros i [->|Hi]%elem_of_cons; [|by apply V4]. destruct (U4 id ltac:(set_solver)) as (k & σ & Hk & Hσ & Hle).
      destruct (V3 _ _ _ Hk Hσ) as (k' & σ' & ? & ? & ?). exists k', σ'. split_and!; [done|done|lia]. }
  assert (Hset : match l with None => True | Some k => exists σ, seqs !! k = Some σ /\ callsLen > len σ end ->
    exists longest', match slice_set longest id (Some seq) with Some l1 => longest_loop seqs seq callsLen ids l1 | None => None end = Some longest' /\
      updated seqs seq callsLen (id :: ids) longest longest').
  { intros Hbet. rewrite slice_set_Some by lia. apply Hstep; [by eapply updated_one|].
    intros i k [(_ & [= <-] & _)|[_ Hi]]%list_lookup_insert_Some; [by eexists|by eapply Hval]. }
  destruct l as [k|]; [|by apply Hset]. destruct (Hval _ _ Hlk) as [σ Hσ]. rewrite Hσ. cbn [fmap option_fmap option_map].
  case_bool_decide as Hgt; [apply Hset; by exists σ|]. apply Hstep; [|done].
  split; [done|by left|apply improves_refl|]. intros i ->%list_elem_of_singleton. exists k, σ. split_and!; [done|done|lia].
Qed.

Lemma reported_valid seqs longest : reported seqs longest -> valid seqs longest.
Proof. intros Hr i k Hi. destruct (Hr i k Hi) as (σ & _ & _ & -> & _). by eexists. Qed.

(** ** The invariant of the loop *)

Record Inv (st : Search (I := In) (O := Out) (S := St)) (S : gset Z) (rest : list (gset Z * St)) (A R : list nat) : Prop := {
  i_frames : frames (rev (cs_calls st)) (cs_heap st) ((S, cs_state st) :: rest);
  i_bits : bits n (cs_linearized st) S;
  i_live : live S = A ++ R;
  i_entry : cs_entry st = head R;
  i_calls : Forall (fun p => is_Some (mt p)) A;
  i_exhausted : exhausted S (cs_state st) A;
  i_cache : cache_ok (cs_cache st) ((S, cs_state st) :: rest);
  i_longest : length (cs_longest st) = Z.to_nat n;
  i_reported : reported (cs_seqs st) (cs_longest st)
}.

Lemma static_lookup h p : same_static h0 h -> p ∈ L0 -> exists x, h !! p = Some x /\
  n_match x = mt p /\ n_id x = idp p /\ n_value x = valp p.
Proof.
  intros [_ Hs] Hp. destruct (Hin p Hp) as [[x0 Hx0] _]. destruct (Hs p x0 Hx0) as (x & Hx & Hv & Hm & Hi).
  exists x. unfold mt, idp, valp. rewrite Hx0. cbn. split_and!; congruence.
Qed.

(** The universe of configurations and how many of them are not cached. *)
Definition universe : list (bitset * St) := seq 0 (Datatypes.S (Z.to_nat n)) ≫= conf.
Definition uncached cache : nat :=
  length (filter (fun '(b, s) => cacheContains equal cache (mkCacheEntry b s) = false) universe).

Lemma filter_length_le {A} (P Q : A -> Prop) `{!forall x, Decision (P x)} `{!forall x, Decision (Q x)} (l : list A) :
  (forall x, Q x -> P x) -> (length (filter Q l) <= length (filter P l))%nat.
Proof.
  intros HPQ. induction l as [|x l IH]; [done|]. rewrite !filter_cons. repeat case_decide; cbn; try lia.
  exfalso. auto.
Qed.
Lemma filter_length_lt {A} (P Q : A -> Prop) `{!forall x, Decision (P x)} `{!forall x, Decision (Q x)} (l : list A) y :
  (forall x, Q x -> P x) -> y ∈ l -> P y -> ~ Q y -> (length (filter Q l) < length (filter P l))%nat.
Proof.
  intros HPQ Hy HP HQ. apply list_elem_of_split in Hy as (l1 & l2 & ->).
  rewrite !filter_app, !length_app, (filter_cons_True P) by done. rewrite (filter_cons_False Q) by done. cbn.
  pose proof (filter_length_le P Q l1 HPQ). pose proof (filter_length_le P Q l2 HPQ). lia.
Qed.

Lemma uncached_insert cache b s : (b, s) ∈ universe -> ~ cached cache b s ->
  (uncached (<[hash b := default [] (cache !! hash b) ++ [mkCacheEntry b s]]> cache) < uncached cache)%nat.
Proof.
  intros Hu Hc. apply (filter_length_lt _ _ _ (b, s)); [|done| |].
  - intros [b' s'] Hf. apply not_true_iff_false. intros Ht%cacheContains_spec. apply not_true_iff_false in Hf.
    apply Hf, cacheContains_spec, cached_insert. by left.
  - apply not_true_iff_false. by intros ?%cacheContains_spec.
  - apply not_false_iff_true, cacheContains_spec, cached_insert. by right.
Qed.

(** The measure: uncached configurations, then calls, then entries to go. *)
Definition measure (st : Search (I := In) (O := Out) (S := St)) (R : list nat) : nat :=
  ((uncached (cs_cache st) * Datatypes.S (Z.to_nat n) + length (cs_calls st)) * Datatypes.S (length L0) + length R)%nat.

Lemma live_length S : (length (live S) <= length L0)%nat.
Proof. apply sublist_length, filter_sub. Qed.

Lemma below_size S : below n S -> (size S <= Z.to_nat n)%nat.
Proof.
  intros Hb. assert (Hsub : S ⊆ list_to_set (seqZ 0 n)).
  { intros i Hi. apply elem_of_list_to_set, elem_of_seqZ. specialize (Hb i Hi). lia. }
  apply subseteq_size in Hsub. rewrite size_list_to_set in Hsub by apply NoDup_seqZ. by rewrite length_seqZ in Hsub.
Qed.

(** ** The rounds *)

(** The variables after an entry is skipped and after it is taken. *)
Definition skipped (st : Search (I := In) (O := Out) (S := St)) (x : node In Out) : Search :=
  mkSearch (cs_heap st) (n_next x) (cs_linearized st) (cs_cache st) (cs_calls st) (cs_longest st) (cs_seqs st) (cs_state st).
Definition pushed (st : Search (I := In) (O := Out) (S := St)) (h : list (node In Out)) (x : node In Out) b e s' : Search :=
  mkSearch h (n_next x) b (<[hash b := default [] (cs_cache st !! hash b) ++ [mkCacheEntry b s']]> (cs_cache st))
    (cs_calls st ++ [mkCallsEntry e (cs_state st)]) (cs_longest st) (cs_seqs st) s'.

(** A choice that fails or is cached is dead, and the cursor moves on. *)
Lemma Inv_skip st S rest A e R x :
  Inv st S rest A (e :: R) -> is_Some (mt e) -> cs_heap st !! e = Some x ->
  (forall s', tries (cs_state st) e = Some s' -> dead (S ∪ {[idp e]}) s') ->
  let st' := skipped st x in
  Inv st' S rest (A ++ [e]) R /\ (measure st' R < measure st (e :: R))%nat.
Proof.
  intros [] He Hx Hd st'. split; [|unfold measure; cbn; lia].
  pose proof (frames_facts _ _ _ _ _ i_frames0) as [Hdll' _ _ _ _ _ _ _ _ _].
  split; try done; cbn.
  - by rewrite <-app_assoc.
  - rewrite i_live0 in Hdll'. destruct (dll_at _ _ _ _ _ Hdll') as (_ & _ & Hnx & _).
    unfold nxt in Hnx. rewrite Hx in Hnx. cbn in Hnx. by injection Hnx as ->.
  - apply Forall_app. split; [done|]. by constructor.
  - intros e' s' [?| ->%list_elem_of_singleton]%elem_of_app Ht; [by eapply i_exhausted0|by apply Hd].
Qed.

(** A choice that is taken. *)
Lemma Inv_push st S rest A e R m s' :
  Inv st S rest A (e :: R) -> mt e = Some m -> tries (cs_state st) e = Some s' ->
  exists b h x, set (cs_linearized st) (idp e) = Some b /\ lift_entry e (cs_heap st) = Some (tt, h) /\
    h !! hd = Some x /\
    (~ cached (cs_cache st) b s' ->
     let st' := pushed st h x b e s' in
     Inv st' (S ∪ {[idp e]}) ((S, cs_state st) :: rest) [] (live (S ∪ {[idp e]})) /\
     (measure st' (live (S ∪ {[idp e]})) < measure st (e :: R))%nat) /\
    (cached (cs_cache st) b s' -> dead (S ∪ {[idp e]}) s').
Proof.
  intros Hinv Hm Ht. pose proof Hinv as [Hf Hb Hl He HA Hex Hc Hlg Hrp].
  pose proof (frames_facts _ _ _ _ _ Hf) as Hff. pose proof Hff as [Hd Hst Hbel Hsz Hrest Hconf _ _ _ _].
  assert (Hel : e ∈ live S) by (rewrite Hl; set_solver). pose proof (proj1 (live_in S e) Hel) as [HeS HeL].
  destruct (Hin e HeL) as [_ Hid]. destruct (set_run n _ S (idp e) Hb Hid) as (b & Hset & Hb').
  destruct (live_call S e m Hel Hm) as (A1 & B & C & E1 & E2).
  destruct (static_lookup (cs_heap st) e Hst HeL) as (xe & Hxe & Hme & _ & _).
  pose proof (live_NoDup S) as Hnd'. rewrite E1 in Hnd', Hd.
  destruct (lift_run (cs_heap st) hd A1 e B m C Hnd' Hd) as (h & Hlift & Hd' & Hst' & Hun).
  { rewrite Hxe. cbn. congruence. }
  rewrite <-E2 in Hd'.
  assert (Hst2 : same_static h0 h) by (by eapply same_static_trans).
  assert (Hnx : nxt h hd = Some (head (live (S ∪ {[idp e]})))).
  { destruct (live (S ∪ {[idp e]})); cbn in Hd' |- *; [done|]. by destruct Hd' as [? _]. }
  unfold nxt in Hnx. destruct (h !! hd) as [x|] eqn:Ex; [|done]. injection Hnx as Hnx.
  assert (Hfp : frames (mkCallsEntry e (cs_state st) :: rev (cs_calls st)) h
                  ((S ∪ {[idp e]}, s') :: (S, cs_state st) :: rest)).
  { by eapply (f_push _ _ _ _ _ e A R). }
  pose proof (frames_facts _ _ _ _ _ Hfp) as [_ _ Hbel' Hsz' Hrest' Hconf' _ _ _ _].
  exists b, h, x. split_and!; try done.
  - intros Hnc st'. set (cache := cs_cache st'). split.
    + split; try done; cbn.
      * by rewrite rev_app_distr.
      * intros e0 s0 Hin0. set_solver.
      * intros b0 s0 [Hc0|[-> ->]]%cached_insert; [|exists (S ∪ {[idp e]}); set_solver].
        destruct (Hc b0 s0 Hc0) as (S0 & ? & ? & [?|?]); exists S0; split_and!; try done; [left|by right]. set_solver.
    + destruct Hconf' as (b1 & Hb1 & Hin1). rewrite (bits_unique n b1 b _ Hb1 Hb') in Hin1.
      assert (Hu : (b, s') ∈ universe).
      { apply list_elem_of_bind. eexists. split; [exact Hin1|]. apply elem_of_seq.
        pose proof (below_size _ Hbel'). cbn [length] in Hsz' |- *. lia. }
      pose proof (uncached_insert _ b s' Hu Hnc) as Hlt. pose proof (live_length (S ∪ {[idp e]})) as Hll.
      pose proof (below_size _ Hbel') as Hbs. rewrite Hsz' in Hbs. cbn [length] in Hbs. rewrite length_rev in Hbs.
      unfold measure. fold cache. change (cs_calls st') with (cs_calls st ++ [mkCallsEntry e (cs_state st)]). rewrite length_app. cbn [length].
      change (uncached cache < uncached (cs_cache st))%nat in Hlt.
      assert (uncached cache * Datatypes.S (Z.to_nat n) + (length (cs_calls st) + 1) + 1 <=
              uncached (cs_cache st) * Datatypes.S (Z.to_nat n) + length (cs_calls st))%nat by nia.
      nia.
  - intros Hca. destruct (Hc b s' Hca) as (S0 & Hb0 & Hbel0 & [Hon|?]).
    + rewrite (bits_inj b S0 _ Hb0 Hbel0 Hb' Hbel') in Hon.
      apply elem_of_cons in Hon as [[= E _]|Hon]; [set_solver|]. apply Hrest in Hon.
      rewrite size_union, size_singleton in Hon by set_solver. lia.
    + by rewrite <-(bits_inj b S0 _ Hb0 Hbel0 Hb' Hbel').
Qed.

Lemma ids_of_run h (calls : list (callsEntry (S := St))) : same_static h0 h -> (forall c, c ∈ calls -> ce_entry c ∈ L0) ->
  ids_of h calls = Some ((fun c => idp (ce_entry c)) <$> calls).
Proof.
  intros Hst. unfold ids_of. induction calls as [|c calls IH]; intros Hc; [done|].
  destruct (static_lookup h (ce_entry c) Hst (Hc c ltac:(set_solver))) as (x & Hx & _ & Hi & _).
  cbn. rewrite Hx. cbn. rewrite IH by set_solver. cbn. by rewrite Hi.
Qed.

(** The update of [longest] in a state whose calls make up [S]. *)
Definition recorded (computePartial : bool) (st st' : Search (I := In) (O := Out) (S := St)) (S : gset Z) : Prop :=
  if computePartial then exists ids, cs_seqs st' = cs_seqs st ++ [ids] /\ (forall i, i ∈ ids <-> i ∈ S) /\
    length ids = size S /\
    updated (cs_seqs st') (length (cs_seqs st)) (Z.of_nat (size S)) ids (cs_longest st) (cs_longest st')
  else cs_seqs st' = cs_seqs st /\ cs_longest st' = cs_longest st.

Lemma reported_more seqs longest σ : reported seqs longest -> reported (seqs ++ [σ]) longest.
Proof.
  intros Hr i k Hi. destruct (Hr i k Hi) as (σ' & S & s & Hk & Hin' & Hp). exists σ', S, s.
  split_and!; [by apply lookup_app_l_Some|done|done].
Qed.

(** The calls of a state, as the loop over [longest] sees them. *)
Lemma calls_ids st S rest : frames (rev (cs_calls st)) (cs_heap st) ((S, cs_state st) :: rest) ->
  ids_of (cs_heap st) (cs_calls st) = Some ((fun c => idp (ce_entry c)) <$> cs_calls st) /\
  path ∅ (Init model) ((fun c => idp (ce_entry c)) <$> cs_calls st) S (cs_state st) /\
  (forall i, i ∈ (fun c => idp (ce_entry c)) <$> cs_calls st <-> i ∈ S) /\
  length (cs_calls st) = size S.
Proof.
  intros Hf. pose proof (frames_facts _ _ _ _ _ Hf) as [_ Hst _ Hsz _ _ _ Hcs Hp Hids]. split_and!.
  - apply ids_of_run; [done|]. intros c Hc. apply Hcs. by rewrite list_elem_of_In, <-in_rev, <-list_elem_of_In.
  - by rewrite rev_fmap_rev in Hp.
  - intros i. rewrite Hids. by rewrite <-(Permutation_rev (cs_calls st)).
  - by rewrite Hsz, length_rev.
Qed.

Lemma record_run (computePartial : bool) st S rest : frames (rev (cs_calls st)) (cs_heap st) ((S, cs_state st) :: rest) -> below n S ->
  length (cs_longest st) = Z.to_nat n -> reported (cs_seqs st) (cs_longest st) -> exists (longest : list (option nat)) (seqs : list (list Z)),
  (if computePartial
   then match ids_of (cs_heap st) (cs_calls st) with
        | Some ids => let seqs := cs_seqs st ++ [ids] in
            (fun longest => (longest, seqs)) <$> longest_loop seqs (length (cs_seqs st)) (len (cs_calls st)) ids (cs_longest st)
        | None => None end
   else Some (cs_longest st, cs_seqs st)) = Some (longest, seqs) /\
  length longest = Z.to_nat n /\ reported seqs longest /\
  forall h e b c calls s, recorded computePartial st (mkSearch h e b c calls longest seqs s) S.
Proof.
  intros Hf Hbel Hlg Hrp. destruct computePartial; [|by exists (cs_longest st), (cs_seqs st)].
  destruct (calls_ids st S rest Hf) as (-> & Hp & Hids & Hlen). set (ids := (fun c => idp (ce_entry c)) <$> cs_calls st) in *.
  assert (length ids = size S) as Hli by (unfold ids; by rewrite length_fmap).
  assert (valid (cs_seqs st ++ [ids]) (cs_longest st)) as Hval by (by apply reported_valid, reported_more).
  destruct (longest_loop_run (cs_seqs st ++ [ids]) (length (cs_seqs st)) ids (len (cs_calls st)) ids (cs_longest st))
    as (longest & Hrun & Hup); [by apply list_lookup_middle|congruence|done|intros i Hi; by apply Hbel, Hids|done|].
  cbn zeta. rewrite Hrun. exists longest, (cs_seqs st ++ [ids]). split_and!; [done|by rewrite (up_len _ _ _ _ _ _ Hup)| |].
  - intros i k Hi. destruct (up_from _ _ _ _ _ _ Hup i) as [E|[Hin' E]]; rewrite E in Hi; [by eapply (reported_more _ _ ids Hrp)|].
    injection Hi as <-. exists ids, S, (cs_state st). split_and!; [by apply list_lookup_middle|done|done].
  - intros. exists ids. cbn. rewrite <-Hlen. split_and!; try done; congruence.
Qed.

(** Nothing is left to try: back to the configuration before, or the end. *)
Lemma backtrack_shape computePartial st S rest A p R : Inv st S rest A (p :: R) -> mt p = None ->
  (backtrack computePartial st = Some (Finished false (cs_longest st) (cs_seqs st)) /\ S = ∅ /\ cs_state st = Init model /\ rest = []) \/
  exists st' e s0 S0 rest0 A0 R0, backtrack computePartial st = Some (Continue st') /\
    rest = (S0, s0) :: rest0 /\ S = S0 ∪ {[idp e]} /\ live S0 = A0 ++ e :: R0 /\ tries s0 e = Some (cs_state st) /\
    cs_calls st = cs_calls st' ++ [mkCallsEntry e s0] /\ cs_cache st' = cs_cache st /\ cs_state st' = s0 /\
    recorded computePartial st st' S /\
    Inv st' S0 rest0 (A0 ++ [e]) R0 /\ (measure st' R0 < measure st (p :: R))%nat.
Proof.
  intros [Hf Hb Hl He HA Hex Hc Hlg Hrp] Hp. pose proof (exhausted_dead S _ A p R Hl Hp Hex) as Hdead.
  pose proof (frames_facts _ _ _ _ _ Hf) as [_ Hst Hbel _ _ _ _ _ _ _]. unfold backtrack. cbv zeta.
  destruct (record_run computePartial st S rest Hf Hbel Hlg Hrp) as (longest & seqs & Hrun & Hlen & Hrp' & Hrec).
  cbv zeta in Hrun. rewrite Hrun. destruct (cs_calls st) as [|c calls] eqn:Ecalls using rev_ind.
  { left. cbn in Hf |- *. inversion Hf; subst. done. }
  right. rewrite last_snoc. rewrite rev_app_distr in Hf. cbn [rev app] in Hf.
  inversion Hf as [|cs h S0 s0 rest0 e A0 R0 s' h' Hf0 El0 HA0 Ht0 Hex0 Hlift Hun Hd' Hst']; subst. cbn [ce_entry ce_state].
  pose proof (frames_facts _ _ _ _ _ Hf0) as [Hd0 Hst0 Hbel0 _ Hrest0 _ _ _ _ _].
  assert (Hel : e ∈ live S0) by (rewrite El0; set_solver). apply live_in in Hel as [HeS HeL].
  destruct (Hin e HeL) as [_ Hid].
  destruct (static_lookup (cs_heap st) e Hst HeL) as (xe & -> & _ & -> & _).
  destruct (clear_run n _ _ (idp e) Hb Hid) as (b & -> & Hb'). rewrite Hun.
  destruct (static_lookup h e Hst0 HeL) as (x0 & Hx0 & _). rewrite Hx0.
  assert (ES : (S0 ∪ {[idp e]}) ∖ {[idp e]} = S0) by set_solver. rewrite ES in Hb'.
  assert (Ecut : take (length (calls ++ [mkCallsEntry e s0]) - 1) (calls ++ [mkCallsEntry e s0]) = calls).
  { rewrite length_app. cbn. rewrite Nat.add_sub. apply take_app_length. }
  rewrite Ecut. eexists _, e, s0, S0, rest0, A0, R0. split_and!; try done.
  - split; try done; cbn.
    + by rewrite <-app_assoc.
    + rewrite El0 in Hd0. destruct (dll_at _ _ _ _ _ Hd0) as (_ & _ & Hnx & _).
      unfold nxt in Hnx. rewrite Hx0 in Hnx. cbn in Hnx. by injection Hnx as ->.
    + apply Forall_app. split; [done|]. constructor; [|done]. by destruct (tries_call _ _ _ Ht0) as [m ->].
    + intros e' s1 [?| ->%list_elem_of_singleton]%elem_of_app Ht; [by eapply Hex0|]. rewrite Ht0 in Ht.
      by injection Ht as <-.
    + intros b0 s1 Hca. destruct (Hc b0 s1 Hca) as (S1 & ? & ? & Hor). exists S1. split_and!; [done|done|].
      destruct Hor as [[[= -> ->]|?]%elem_of_cons|?]; [by right|by left|by right].
  - unfold measure. cbn [cs_cache cs_calls]. rewrite Ecalls, length_app. cbn [length].
    assert (length R0 <= length L0)%nat.
    { pose proof (live_length S0) as Hll. rewrite El0, length_app in Hll. cbn in Hll. lia. }
    nia.
Qed.

(** What one round does. *)
Inductive round (computePartial : bool) (st : Search (I := In) (O := Out) (S := St)) (S : gset Z) (rest : list (gset Z * St))
    (A R : list nat) : option Outcome -> Prop :=
  | r_found ids : live S = [] -> completes ∅ (Init model) ids ->
      round computePartial st S rest A R
        (Some (Finished true (replicate (Z.to_nat n) (Some (length (cs_seqs st)))) (cs_seqs st ++ [ids])))
  | r_skip e R' x : R = e :: R' ->
      (forall s', tries (cs_state st) e = Some s' ->
         exists b, bits n b (S ∪ {[idp e]}) /\ below n (S ∪ {[idp e]}) /\ cached (cs_cache st) b s') ->
      Inv (skipped st x) S rest (A ++ [e]) R' -> (measure (skipped st x) R' < measure st R)%nat ->
      round computePartial st S rest A R (Some (Continue (skipped st x)))
  | r_push e R' s' b h x (S' := S ∪ {[idp e]}) : R = e :: R' -> live S = A ++ e :: R' -> bits n b S' ->
      tries (cs_state st) e = Some s' ->
      Inv (pushed st h x b e s') S' ((S, cs_state st) :: rest) [] (live S') ->
      (measure (pushed st h x b e s') (live S') < measure st R)%nat ->
      round computePartial st S rest A R (Some (Continue (pushed st h x b e s')))
  | r_back p R' : R = p :: R' -> mt p = None -> round computePartial st S rest A R (backtrack computePartial st).

Lemma search_step_round computePartial st S rest A R : Inv st S rest A R ->
  round computePartial st S rest A R (search_step model equal computePartial false hd n st).
Proof.
  intros Hinv. pose proof Hinv as [Hf Hb Hl He HA Hex Hc Hlg Hrp].
  pose proof (frames_facts _ _ _ _ _ Hf) as [Hd Hst Hbel _ _ _ Hcomp Hcs _ _]. unfold search_step.
  assert (Hnx : nxt (cs_heap st) hd = Some (head (live S))).
  { destruct (live S); cbn in Hd |- *; [done|]. by destruct Hd as [? _]. }
  unfold nxt in Hnx. destruct (cs_heap st !! hd) as [x|]; [|done]. injection Hnx as ->.
  destruct (live S) as [|p0 L] eqn:El; cbn [head].
  { destruct (calls_ids st S rest Hf) as (-> & _). apply r_found; [done|].
    specialize (Hcomp [] ltac:(by constructor)). rewrite app_nil_r in Hcomp. by rewrite rev_fmap_rev in Hcomp. }
  destruct R as [|e R]; [exfalso; eapply (live_return S A []); [congruence|done|congruence|done]|].
  rewrite He. cbn [head]. rewrite <-El in Hl.
  assert (Hel : e ∈ live S) by (rewrite Hl; set_solver). apply live_in in Hel as [HeS HeL].
  destruct (static_lookup (cs_heap st) e Hst HeL) as (xe & Hxe & Hme & Hide & Hve). rewrite Hxe, Hme.
  destruct (mt e) as [m|] eqn:Hm; [|by eapply r_back].
  destruct (Hcall e m HeL Hm) as (A1 & B1 & C1 & EL & _ & _ & _ & input & output & Hv1 & Hv2).
  assert (HmL : m ∈ L0) by (rewrite EL; set_solver).
  destruct (static_lookup (cs_heap st) m Hst HmL) as (xm & Hxm & _ & _ & Hvm).
  unfold try_call. rewrite Hxm, Hve, Hvm, Hv1, Hv2, Hide, bitset_clone_id.
  assert (Htry : tries (cs_state st) e =
    let '(ok, s') := Step model (cs_state st) input output in if ok then Some s' else None).
  { unfold tries. by rewrite Hm, Hv1, Hv2. }
  destruct (Step model (cs_state st) input output) as [[] s'].
  2:{ destruct (Inv_skip st S rest A e R xe Hinv) as [Hi Hlt]; [by rewrite Hm|done| |].
      - intros s1 Hs1. by rewrite Htry in Hs1.
      - eapply (r_skip _ _ _ _ _ _ e R xe); [done| |done|done]. intros s1 Hs1. by rewrite Htry in Hs1. }
  destruct (Hin e HeL) as [_ Hid]. destruct (set_run n _ S (idp e) Hb Hid) as (b' & Hset' & Hb').
  destruct (Inv_push st S rest A e R m s' Hinv Hm Htry) as (b & h & y & Hset & -> & -> & Hmiss & Hhit).
  rewrite Hset in Hset' |- *. injection Hset' as <-.
  destruct (cacheContains equal (cs_cache st) (mkCacheEntry b s')) eqn:Hcc; cbn [negb].
  - apply cacheContains_spec in Hcc.
    destruct (Inv_skip st S rest A e R xe Hinv) as [Hi Hlt]; [by rewrite Hm|done| |].
    + intros s1 Hs1. rewrite Htry in Hs1. injection Hs1 as <-. by apply Hhit.
    + eapply (r_skip _ _ _ _ _ _ e R xe); [done| |done|done]. intros s1 Hs1. rewrite Htry in Hs1. injection Hs1 as <-.
      exists b. split_and!; [done| |done]. intros i [?| ->%elem_of_singleton]%elem_of_union; [by apply Hbel|done].
  - destruct Hmiss as [Hi Hlt].
    + intros Hca%cacheContains_spec. congruence.
    + by eapply (r_push _ _ _ _ _ _ e R s' b h y).
Qed.

(** The answer of the search. *)
Definition answer (ok : bool) (longest : list (option nat)) (seqs : list (list Z)) : Prop :=
  if ok then exists σ, completes ∅ (Init model) σ /\ reads seqs longest = replicate (Z.to_nat n) (Some σ)
  else dead ∅ (Init model).

Lemma found_answer (seqs : list (list Z)) σ : completes ∅ (Init model) σ ->
  answer true (replicate (Z.to_nat n) (Some (length seqs))) (seqs ++ [σ]).
Proof.
  intros Hc. exists σ. split; [done|]. unfold reads. rewrite fmap_replicate. cbn. by rewrite list_lookup_middle.
Qed.

(** One round of the loop. *)
Lemma search_step_run computePartial st S rest A R : Inv st S rest A R ->
  match search_step model equal computePartial false hd n st with
  | Some (Finished ok longest seqs) => answer ok longest seqs
  | Some (Continue st') => exists S' rest' A' R', Inv st' S' rest' A' R' /\ (measure st' R' < measure st R)%nat
  | None => False
  end.
Proof.
  intros Hinv. destruct (search_step_round computePartial st S rest A R Hinv) as [ids El Hc|e R' x ?? Hi Hm|e R' s' b h x S' ???? Hi Hm|p R' -> Hp].
  - by apply found_answer.
  - by eexists _, _, _, _.
  - by eexists _, _, _, _.
  - destruct (backtrack_shape computePartial st S rest A p R' Hinv Hp)
      as [(-> & -> & Es & _)|(st' & e & s0 & S0 & rest0 & A0 & R0 & -> & _ & _ & _ & _ & _ & _ & _ & _ & Hi & Hm)]; [|by eexists _, _, _, _].
    cbn. rewrite <-Es. by eapply exhausted_dead; [apply (i_live _ _ _ _ _ Hinv)|done|apply Hinv].
Qed.

(** The loop ends with the right answer. *)
Lemma search_loop_run fuel computePartial kill st S rest A R :
  (forall i, kill i = false) -> Inv st S rest A R -> (measure st R < fuel)%nat ->
  exists ok longest seqs, search_loop model equal fuel computePartial kill hd n st = Some (Some (ok, longest, seqs)) /\
    answer ok longest seqs.
Proof.
  intros Hkill. revert st S rest A R. induction fuel as [|fuel IH]; intros st S rest A R Hinv Hlt; [lia|].
  cbn [search_loop]. rewrite Hkill. pose proof (search_step_run computePartial st S rest A R Hinv) as Hs.
  destruct (search_step model equal computePartial false hd n st) as [[st'|ok longest seqs]|]; [| |done].
  - destruct Hs as (S' & rest' & A' & R' & Hinv' & Hm). apply (IH st' S' rest' A' R'); [done|lia].
  - by exists ok, longest, seqs.
Qed.

Lemma Inv_init : Inv (mkSearch h0 (head L0) (newBitset n) ∅ [] (replicate (Z.to_nat n) None) [] (Init model)) ∅ [] [] L0.
Proof.
  split; cbn; try done.
  - constructor.
  - apply bits_new.
  - unfold live. apply filter_all. set_solver.
  - intros e s' Hin'. set_solver.
  - intros b s Hc. unfold cached in Hc. rewrite lookup_empty in Hc. cbn in Hc. set_solver.
  - apply length_replicate.
  - by intros i k [[=] _]%lookup_replicate.
Qed.
End search.
