(* ===== verification/PorcupineHistory.v ===== *)
(** * Histories: from entries to the linked list, and what linearizable means

    [linearization H σ] is the declarative notion: [σ] orders all operations, is legal for
    the model, and has [a] before [b] whenever the return of [a] comes before the call of
    [b]. [completes_linearization] relates it to the choices of the search. *)
From S2P Require Import Prelude Porcupine PorcupineHeap PorcupineBits PorcupineSearch.

Section history.
Context {In Out St : Type} (model : Model In Out St).
Abbreviation Heap := (list (node In Out)).
Implicit Types (H P : list (entry In Out)) (h : Heap).

(** ** Building the list *)

Fixpoint desc (k : nat) : list nat := match k with O => [] | S k => k :: desc k end.

Lemma elem_of_desc p k : p ∈ desc k <-> (p < k)%nat.
Proof. induction k as [|k IH]; cbn; [set_solver by lia|]. rewrite elem_of_cons, IH. lia. Qed.
Lemma desc_length k : length (desc k) = k.
Proof. induction k as [|k IH]; cbn; congruence. Qed.
Lemma desc_NoDup k : NoDup (desc k).
Proof. induction k as [|k IH]; cbn; constructor; [|done]. rewrite elem_of_desc. lia. Qed.
Lemma desc_split k e : (e < k)%nat -> exists A, desc k = A ++ e :: desc e.
Proof.
  induction k as [|k IH]; intros He; [lia|]. cbn. destruct (decide (e = k)) as [->|Hne]; [by exists []|].
  destruct IH as [A ->]; [lia|]. by exists (k :: A).
Qed.

(** The last return of each operation among the first entries, by its pointer. *)
Fixpoint returns_from (k : nat) P (m : gmap Z nat) : gmap Z nat :=
  match P with
  | [] => m
  | e :: P => returns_from (S k) P (match e_kind e with ReturnEvent => <[e_id e := k]> m | CallEvent => m end)
  end.
Definition returns P : gmap Z nat := returns_from 0 P ∅.

Lemma returns_snoc P e : returns (P ++ [e]) =
  match e_kind e with ReturnEvent => <[e_id e := length P]> (returns P) | CallEvent => returns P end.
Proof.
  unfold returns. assert (Hgen : forall k m, returns_from k (P ++ [e]) m =
    match e_kind e with ReturnEvent => <[e_id e := (k + length P)%nat]> (returns_from k P m)
                      | CallEvent => returns_from k P m end); [|exact (Hgen 0%nat ∅)].
  induction P as [|x P IH]; intros k m; cbn.
  - by rewrite Nat.add_0_r.
  - rewrite IH. by rewrite Nat.add_succ_r.
Qed.

Lemma returns_unique P q r : P !! q = Some r -> e_kind r = ReturnEvent ->
  (forall q' r', P !! q' = Some r' -> e_kind r' = ReturnEvent -> e_id r' = e_id r -> q' = q) ->
  returns P !! e_id r = Some q.
Proof.
  induction P as [|e P IH] using rev_ind; intros Hq Hr Hu; [done|]. rewrite returns_snoc.
  destruct (decide (q = length P)) as [->|Hne].
  - rewrite lookup_app_r, Nat.sub_diag in Hq by done. injection Hq as ->. rewrite Hr. apply lookup_insert_eq.
  - assert (Hlt : (q < length P)%nat).
    { apply lookup_lt_Some in Hq. rewrite length_app in Hq. cbn in Hq. lia. }
    rewrite lookup_app_l in Hq by done.
    assert (Hrest : returns P !! e_id r = Some q).
    { apply IH; [done|done|]. intros q' r' Hq'. apply Hu. by apply lookup_app_l_Some. }
    destruct (e_kind e) eqn:Ek; [done|]. rewrite lookup_insert_ne; [done|]. intros Eid.
    apply Hne. symmetry. apply (Hu (length P) e); [|done|done]. rewrite lookup_app_r, Nat.sub_diag by done. done.
Qed.

(** What a node knows of the entry it was made for. *)
Definition node_for P (p : nat) (x : node In Out) : Prop :=
  exists e, P !! p = Some e /\ n_value x = Some (e_value e) /\ n_id x = e_id e /\
    n_match x = match e_kind e with ReturnEvent => None | CallEvent => returns (take p P) !! e_id e end.

(** The nodes from the newest on are linked in order. *)
Definition linked h : Prop :=
  match length h with
  | O => True
  | S k => prv h k = Some None /\ dll h k (desc k)
  end.
Definition root_of h : option nat := match length h with O => None | S k => Some k end.

Lemma snoc_static h nd p x : (h ++ [nd]) !! p = Some x -> h !! p = Some x \/ (p = length h /\ x = nd).
Proof.
  intros [?|[Hge Hx]]%lookup_app_Some; [by left|right]. apply list_lookup_singleton_Some in Hx as [E <-].
  split; [lia|done].
Qed.

(** Allocating a node and inserting it at the front. *)
Lemma push_front h (nd : node In Out) : linked h -> n_next nd = None -> n_prev nd = None ->
  exists h', insertBefore (length h) (root_of h) (h ++ [nd]) = Some (tt, h') /\
    same_static (h ++ [nd]) h' /\ prv h' (length h) = Some None /\ dll h' (length h) (desc (length h)).
Proof.
  intros Hl Hn Hp. unfold linked, root_of in *. destruct (length h) as [|k] eqn:Ek.
  - exists (h ++ [nd]). split; [done|]. split; [apply same_static_refl|]. destruct h; [|done].
    unfold nxt, prv. cbn. by rewrite Hn, Hp.
  - destruct Hl as [Hpk Hd].
    assert (Hlk : forall p, (p < S k)%nat -> (h ++ [nd]) !! p = h !! p) by (intros p Hlt; apply lookup_app_l; lia).
    assert (Hnd : (h ++ [nd]) !! (S k) = Some nd) by (rewrite <-Ek; rewrite lookup_app_r, Nat.sub_diag by done; done).
    set (h' := upd_next (S k) (Some k) (upd_prev k (Some (S k)) (h ++ [nd]))).
    assert (Hpk' : prv (h ++ [nd]) k = Some None) by (unfold prv in *; rewrite Hlk by lia; done).
    exists h'. split_and!.
    + unfold insertBefore, bind at 1. rewrite (load_prev_run _ _ _ Hpk'). unfold bind at 1.
      rewrite store_prev_run by (by eapply prv_is_Some). unfold bind at 1.
      rewrite store_next_run; [done|]. apply (nxt_is_Some _ _ None). rewrite nxt_upd_prev. unfold nxt. by rewrite Hnd, <-Hn.
    + eapply same_static_trans; [apply upd_prev_static|apply upd_next_static].
    + unfold h'. rewrite prv_upd_next, prv_upd_prev, decide_False by lia. unfold prv. by rewrite Hnd, <-Hp.
    + cbn [desc dll]. split_and!.
      * unfold h'. rewrite nxt_upd_next, decide_True, nxt_upd_prev by done. unfold nxt. by rewrite Hnd.
      * unfold h'. rewrite prv_upd_next, prv_upd_prev, decide_True by done. by rewrite Hpk'.
      * eapply dll_ext; [| |exact Hd].
        -- intros q Hq. assert (q < S k)%nat by (rewrite elem_of_cons, elem_of_desc in Hq; lia).
           unfold h'. rewrite nxt_upd_next, decide_False, nxt_upd_prev by lia. unfold nxt. by rewrite Hlk.
        -- intros q Hq%elem_of_desc. unfold h'. rewrite prv_upd_next, prv_upd_prev, decide_False by lia.
           unfold prv. by rewrite Hlk by lia.
Qed.

Lemma linked_intro h k : length h = S k -> prv h k = Some None -> dll h k (desc k) -> linked h.
Proof. unfold linked. by intros ->. Qed.

Lemma node_for_static P h h' : (forall p x, h !! p = Some x -> node_for P p x) -> same_static h h' ->
  forall p x, h' !! p = Some x -> node_for P p x.
Proof.
  intros Hall [Hlen Hs] p x' Hx'. assert (Hlt := lookup_lt_Some _ _ _ Hx'). rewrite Hlen in Hlt.
  destruct (lookup_lt_is_Some_2 h p Hlt) as [x Hx]. destruct (Hs p x Hx) as (x2 & Hx2 & Hv & Hm & Hi).
  rewrite Hx' in Hx2. injection Hx2 as <-. destruct (Hall p x Hx) as (e & He & ? & ? & ?). exists e. split_and!; congruence.
Qed.

Lemma makeLinked_run rest P h : length h = length P -> linked h ->
  (forall p x, h !! p = Some x -> node_for P p x) ->
  exists h', makeLinkedEntries_loop rest (returns P) (root_of h) h = Some (root_of h', h') /\
    length h' = length (P ++ rest) /\ linked h' /\ (forall p x, h' !! p = Some x -> node_for (P ++ rest) p x).
Proof.
  revert P h. induction rest as [|e rest IH]; intros P h Hlen Hl Hall.
  { exists h. rewrite app_nil_r. by split_and!. }
  cbn [makeLinkedEntries_loop]. unfold bind at 1, get, alloc.
  set (nd := mkNode _ _ _ _ _). destruct (push_front h nd Hl eq_refl eq_refl) as (h1 & Hins & Hst & Hp & Hd).
  unfold bind at 1, modify. unfold bind at 1. rewrite Hins.
  assert (Hlen1 : length h1 = S (length h)).
  { destruct Hst as [-> _]. rewrite length_app. cbn. lia. }
  destruct (IH (P ++ [e]) h1) as (h' & Hrun & Hlen' & Hl' & Hall').
  - rewrite Hlen1, length_app, Hlen. cbn. lia.
  - by apply (linked_intro h1 (length h)).
  - eapply node_for_static; [|exact Hst]. intros p x [Hx|[-> ->]]%snoc_static.
    + destruct (Hall p x Hx) as (e' & He' & ? & ? & ?). exists e'. split_and!; try done; [by apply lookup_app_l_Some|].
      rewrite take_app_le; [done|]. apply lookup_lt_Some in He'. lia.
    + exists e. rewrite Hlen. split_and!; try done; [by rewrite lookup_app_r, Nat.sub_diag by done|].
      by rewrite take_app_length.
  - exists h'. rewrite <-app_assoc in Hlen', Hall'. split_and!; try done. rewrite <-Hrun.
    rewrite returns_snoc. assert (root_of h1 = Some (length h)) as -> by (unfold root_of; by rewrite Hlen1).
    by rewrite Hlen.
Qed.

Lemma list_length_run h fuel p L : dll h p L -> (length L < fuel)%nat ->
  list_length fuel h (Some p) = Z.of_nat (S (length L)).
Proof.
  revert p L. induction fuel as [|fuel IH]; intros p L Hd Hf; [lia|]. cbn [list_length].
  destruct L as [|q L]; cbn in Hd, Hf.
  - unfold nxt in Hd. destruct (h !! p) as [x|]; [|done]. injection Hd as ->. by destruct fuel.
  - destruct Hd as (Hn & _ & Hd). unfold nxt in Hn. destruct (h !! p) as [x|]; [|done]. injection Hn as ->.
    rewrite (IH q L Hd) by lia. cbn. lia.
Qed.

(** ** Well-formed histories *)

(** Every operation below [n] has one call and, later, one return. *)
Record wf_history H (n : Z) : Prop := {
  wh_len : len H = 2 * n;
  wh_id i e : H !! i = Some e -> 0 <= e_id e < n;
  wh_value i e : H !! i = Some e ->
    match e_kind e with CallEvent => exists v, e_value e = inl v | ReturnEvent => exists v, e_value e = inr v end;
  wh_unique i j e e' : H !! i = Some e -> H !! j = Some e' -> e_id e = e_id e' -> e_kind e = e_kind e' -> i = j;
  wh_order id : 0 <= id < n -> exists i j c r, (i < j)%nat /\ H !! i = Some c /\ H !! j = Some r /\
    e_kind c = CallEvent /\ e_kind r = ReturnEvent /\ e_id c = id /\ e_id r = id
}.

Lemma rev_lookup_Some H (p : nat) e :
  rev H !! p = Some e <-> H !! (length H - S p)%nat = Some e /\ (p < length H)%nat.
Proof. rewrite rev_alt. apply reverse_lookup_Some. Qed.

(** The entry of a pointer, and the pointer of an entry. *)
Lemma entry_pointer H i e : H !! i = Some e -> rev H !! (length H - S i)%nat = Some e.
Proof.
  intros Hi. pose proof (lookup_lt_Some _ _ _ Hi). apply rev_lookup_Some. split; [|lia].
  by replace (length H - S (length H - S i))%nat with i by lia.
Qed.

Section built.
Variables (H : list (entry In Out)) (n : Z) (h0 : Heap).
Hypotheses (Hwf : wf_history H n) (Hlen0 : length h0 = S (length H))
  (Hnodes : forall p x, (p < length H)%nat -> h0 !! p = Some x -> node_for (rev H) p x).

Abbreviation L0 := (desc (length H)).
Abbreviation mt := (mt h0).
Abbreviation idp := (idp h0).
Abbreviation valp := (valp h0).

Lemma pointer_facts p : (p < length H)%nat -> exists e, H !! (length H - S p)%nat = Some e /\
  idp p = e_id e /\ valp p = Some (e_value e) /\
  mt p = match e_kind e with ReturnEvent => None | CallEvent => returns (take p (rev H)) !! e_id e end.
Proof.
  intros Hp. destruct (lookup_lt_is_Some_2 h0 p) as [x Hx]; [lia|].
  destruct (Hnodes p x Hp Hx) as (e & He & Hv & Hi & Hm). apply rev_lookup_Some in He as [He _].
  exists e. unfold PorcupineSearch.idp, PorcupineSearch.valp, PorcupineSearch.mt. rewrite Hx. by split_and!.
Qed.

(** The match of a call is the pointer of its return, further down. *)
Lemma call_match i j c r : H !! i = Some c -> H !! j = Some r -> e_kind c = CallEvent -> e_kind r = ReturnEvent ->
  e_id c = e_id r -> (i < j)%nat -> mt (length H - S i)%nat = Some (length H - S j)%nat.
Proof.
  intros Hi Hj Hc Hr Hid Hij. pose proof (lookup_lt_Some _ _ _ Hi) as Li. pose proof (lookup_lt_Some _ _ _ Hj) as Lj.
  destruct (pointer_facts (length H - S i)) as (c' & Hc' & _ & _ & Hm); [lia|].
  replace (length H - S (length H - S i))%nat with i in Hc' by lia. rewrite Hi in Hc'. injection Hc' as <-.
  rewrite Hm, Hc, Hid. apply returns_unique; [|done|].
  - rewrite lookup_take_lt by lia. by apply entry_pointer.
  - intros q r' Hq Hr' Hid'. rewrite lookup_take_Some in Hq. destruct Hq as [Hq Hlt].
    apply rev_lookup_Some in Hq as [Hq Lq].
    assert (length H - S q = j)%nat; [|lia]. by apply (wh_unique _ _ Hwf _ _ r' r); [| |congruence|congruence].
Qed.

Lemma pointer_match p m : (p < length H)%nat -> mt p = Some m -> exists c r,
  (m < p)%nat /\ H !! (length H - S p)%nat = Some c /\ H !! (length H - S m)%nat = Some r /\
  e_kind c = CallEvent /\ e_kind r = ReturnEvent /\ e_id c = e_id r.
Proof.
  intros Hp Hm. destruct (pointer_facts p Hp) as (c & Hc & _ & _ & Hm').
  rewrite Hm in Hm'. destruct (e_kind c) eqn:Ek; [|done].
  destruct (wh_order _ _ Hwf (e_id c) (wh_id _ _ Hwf _ _ Hc)) as (i & j & c' & r & Hij & Hi & Hj & Hkc & Hkr & Hic & Hir).
  assert (i = length H - S p)%nat as -> by (apply (wh_unique _ _ Hwf _ _ c' c); [done|done|congruence|congruence]).
  pose proof (lookup_lt_Some _ _ _ Hj) as Lj.
  pose proof (call_match _ _ _ _ Hi Hj Hkc Hkr ltac:(congruence) Hij) as Hcm.
  replace (length H - S (length H - S p))%nat with p in Hcm by lia. rewrite Hm in Hcm. injection Hcm as ->.
  exists c, r. replace (length H - S (length H - S j))%nat with j by lia.
  split_and!; try done. lia.
Qed.

Lemma built_in p : p ∈ L0 -> is_Some (h0 !! p) /\ 0 <= idp p < n.
Proof.
  intros Hp%elem_of_desc. split; [apply lookup_lt_is_Some_2; lia|].
  destruct (pointer_facts p Hp) as (e & He & -> & _). by apply (wh_id _ _ Hwf _ _ He).
Qed.

Lemma return_match p : (p < length H)%nat -> mt p = None -> exists e, H !! (length H - S p)%nat = Some e /\
  e_kind e = ReturnEvent.
Proof.
  intros Hp Hm. destruct (pointer_facts p Hp) as (e & He & _ & _ & Hm'). exists e. split; [done|].
  destruct (e_kind e) eqn:Ek; [|done].
  destruct (wh_order _ _ Hwf (e_id e) (wh_id _ _ Hwf _ _ He)) as (i & j & c & r & Hij & Hi & Hj & Hkc & Hkr & Hic & Hir).
  assert (i = length H - S p)%nat as -> by (apply (wh_unique _ _ Hwf _ _ c e); [done|done|congruence|congruence]).
  pose proof (call_match _ _ _ _ Hi Hj Hkc Hkr ltac:(congruence) Hij) as Hcm.
  replace (length H - S (length H - S p))%nat with p in Hcm by lia. congruence.
Qed.

Lemma built_call e m : e ∈ L0 -> mt e = Some m -> exists A B C, L0 = A ++ e :: B ++ m :: C /\
  mt m = None /\ idp m = idp e /\ (forall p, p ∈ A ++ B ++ C -> idp p <> idp e) /\
  exists input output, valp e = Some (inl input) /\ valp m = Some (inr output).
Proof.
  intros He%elem_of_desc Hm. destruct (pointer_match e m He Hm) as (c & r & Hlt & Hc & Hr & Hkc & Hkr & Hid).
  destruct (pointer_facts e He) as (c' & Hc' & Hide & Hve & _). rewrite Hc in Hc'. injection Hc' as <-.
  destruct (pointer_facts m ltac:(lia)) as (r' & Hr' & Hidm & Hvm & Hmm). rewrite Hr in Hr'. injection Hr' as <-.
  destruct (desc_split (length H) e He) as [A EA]. destruct (desc_split e m Hlt) as [B EB].
  exists A, B, (desc m). rewrite EA, EB. rewrite Hkr in Hmm. split_and!; [done|done|congruence| |].
  - intros p Hp Hidp. pose proof (desc_NoDup (length H)) as Hnd. rewrite EA, EB in Hnd.
    assert (HpL : p ∈ L0) by (rewrite EA, EB; set_solver). apply elem_of_desc in HpL.
    destruct (pointer_facts p HpL) as (x & Hx & Hidx & _ & _).
    assert (p = e \/ p = m) as Hor.
    { destruct (e_kind x) eqn:Ek; [left|right].
      - assert (length H - S p = length H - S e)%nat; [|lia].
        apply (wh_unique _ _ Hwf _ _ x c); [done|done|congruence|congruence].
      - assert (length H - S p = length H - S m)%nat; [|lia].
        apply (wh_unique _ _ Hwf _ _ x r); [done|done|congruence|congruence]. }
    rewrite NoDup_app, NoDup_cons, NoDup_app, NoDup_cons in Hnd.
    destruct Hnd as (_ & HA & He' & _ & HB & Hm' & _). destruct Hor as [-> | ->]; set_solver.
  - pose proof (wh_value _ _ Hwf _ _ Hc) as Hvc. pose proof (wh_value _ _ Hwf _ _ Hr) as Hvr.
    rewrite Hkc in Hvc. rewrite Hkr in Hvr. destruct Hvc as [v Hvc], Hvr as [w Hvr].
    exists v, w. by rewrite Hve, Hvm, Hvc, Hvr.
Qed.
End built.

(** ** Linearizations *)

(** [a] returned before [b] was called. *)
Definition precedes H (a b : Z) : Prop :=
  exists i j r c, (i < j)%nat /\ H !! i = Some r /\ H !! j = Some c /\
    e_kind r = ReturnEvent /\ e_kind c = CallEvent /\ e_id r = a /\ e_id c = b.

Definition is_before (σ : list Z) (a b : Z) : Prop :=
  exists i j, (i < j)%nat /\ σ !! i = Some a /\ σ !! j = Some b.

(** [σ] is a run of the model from [s]. *)
Fixpoint legal H (s : St) (σ : list Z) : Prop :=
  match σ with
  | [] => True
  | id :: σ =>
      exists c r input output s', c ∈ H /\ r ∈ H /\ e_kind c = CallEvent /\ e_kind r = ReturnEvent /\
        e_id c = id /\ e_id r = id /\ e_value c = inl input /\ e_value r = inr output /\
        Step model s input output = (true, s') /\ legal H s' σ
  end.

Definition linearization H (n : Z) (σ : list Z) : Prop :=
  σ ≡ₚ seqZ 0 n /\ legal H (Init model) σ /\ forall a b, precedes H a b -> is_before σ a b.

(** The first part of an order of operations: with an operation it has all that
    returned before it was called. *)
Definition partial_linearization H (n : Z) (σ : list Z) : Prop :=
  NoDup σ /\ (forall i, i ∈ σ -> 0 <= i < n) /\ legal H (Init model) σ /\
  forall a b, b ∈ σ -> precedes H a b -> is_before σ a b.

(** The same for the operations outside [S], from state [s]. *)
Definition part_from H (n : Z) (S : gset Z) (s : St) (σ : list Z) : Prop :=
  NoDup σ /\ (forall i, i ∈ σ -> 0 <= i < n /\ i ∉ S) /\ legal H s σ /\
  forall a b, a ∉ S -> b ∈ σ -> precedes H a b -> is_before σ a b.

Lemma part_from_empty H n σ : part_from H n ∅ (Init model) σ <-> partial_linearization H n σ.
Proof. unfold part_from, partial_linearization. set_solver. Qed.

Lemma linearization_partial H n σ : (forall a b, precedes H a b -> 0 <= b < n) ->
  linearization H n σ <-> partial_linearization H n σ /\ forall i, 0 <= i < n -> i ∈ σ.
Proof.
  intros Hran. unfold linearization, partial_linearization. split.
  - intros (Hp & Hl & Hpre). split_and!; [rewrite Hp; apply NoDup_seqZ| |done|by intros; apply Hpre|];
      intros i; rewrite Hp, elem_of_seqZ; lia.
  - intros ((Hnd & Hin & Hl & Hpre) & Hall). split_and!; [|done|intros a b Hp; apply Hpre; [by eapply Hall, Hran|done]].
    apply NoDup_Permutation; [done|apply NoDup_seqZ|]. intros i. rewrite elem_of_seqZ. split; [intros ?%Hin; lia|intros; apply Hall; lia].
Qed.

Lemma is_before_cons x σ a b : is_before σ a b -> is_before (x :: σ) a b.
Proof. intros (i & j & Hij & Hi & Hj). exists (S i), (S j). split_and!; [lia|done|done]. Qed.

Section equivalence.
Variables (H : list (entry In Out)) (n : Z) (h0 : Heap).
Hypotheses (Hwf : wf_history H n) (Hlen0 : length h0 = S (length H))
  (Hnodes : forall p x, (p < length H)%nat -> h0 !! p = Some x -> node_for (rev H) p x).

Abbreviation L0 := (desc (length H)).
Abbreviation live := (live h0 L0).
Abbreviation mt := (mt h0).
Abbreviation idp := (idp h0).
Abbreviation completes := (completes model h0 L0).
Abbreviation tries := (tries model h0).

(** Pointers decrease along the list. *)
Lemma live_order S A e R p : live S = A ++ e :: R -> p ∈ live S -> p ∈ A <-> (e < p)%nat.
Proof.
  assert (Hs : StronglySorted (fun a b => b < a)%nat (live S)).
  { unfold PorcupineSearch.live. generalize (length H). intros k. induction k as [|k IH]; [constructor|]. cbn [desc].
    rewrite filter_cons. case_decide; [|done]. constructor; [done|]. apply Forall_forall.
    intros x [_ Hx%elem_of_desc]%list_elem_of_filter. lia. }
  intros E Hp. rewrite E in Hs, Hp. clear E. induction A as [|a A IH]; cbn in *.
  - apply StronglySorted_inv in Hs as [_ Hs]. rewrite Forall_forall in Hs.
    split; [set_solver|]. intros Hlt. apply elem_of_cons in Hp as [->|Hp]; [lia|]. specialize (Hs p Hp). lia.
  - apply StronglySorted_inv in Hs as [Hs Ha]. rewrite Forall_forall in Ha. apply elem_of_cons in Hp as [->|Hp].
    + split; [|set_solver]. intros _. apply Ha. set_solver.
    + rewrite elem_of_cons, <-(IH Hs Hp). split; [|auto]. intros [->|?]; [|done]. specialize (Ha a Hp). lia.
Qed.

Lemma precedes_irrefl a : ~ precedes H a a.
Proof.
  intros (i & j & r & c & Hij & Hi & Hj & Hr & Hc & Ha & Hb).
  destruct (wh_order _ _ Hwf a) as (i' & j' & c' & r' & Hij' & Hi' & Hj' & Hc' & Hr' & Ha' & Hb').
  { rewrite <-Ha. by apply (wh_id _ _ Hwf i). }
  assert (i = j') as -> by (apply (wh_unique _ _ Hwf _ _ r r'); [done|done|congruence|congruence]).
  assert (j = i') as -> by (apply (wh_unique _ _ Hwf _ _ c c'); [done|done|congruence|congruence]). lia.
Qed.

Lemma precedes_range a b : precedes H a b -> 0 <= a < n /\ 0 <= b < n.
Proof.
  intros (i & j & r & c & _ & Hi & Hj & _ & _ & <- & <-). split; by eapply (wh_id _ _ Hwf).
Qed.

(** The pointers of an operation. *)
Lemma op_pointers id : 0 <= id < n -> exists e m c r, e ∈ L0 /\ mt e = Some m /\ idp e = id /\ (m < e)%nat /\
  H !! (length H - S e)%nat = Some c /\ H !! (length H - S m)%nat = Some r /\
  e_kind c = CallEvent /\ e_kind r = ReturnEvent /\ e_id c = id /\ e_id r = id.
Proof.
  intros Hid. destruct (wh_order _ _ Hwf id Hid) as (i & j & c & r & Hij & Hi & Hj & Hc & Hr & Hic & Hir).
  pose proof (lookup_lt_Some _ _ _ Hj) as Lj.
  pose proof (call_match H n h0 Hwf Hlen0 Hnodes i j c r Hi Hj Hc Hr ltac:(congruence) Hij) as Hm.
  exists (length H - S i)%nat, (length H - S j)%nat, c, r.
  replace (length H - S (length H - S i))%nat with i by lia.
  replace (length H - S (length H - S j))%nat with j by lia. split_and!; try done; [apply elem_of_desc; lia| |lia].
  destruct (pointer_facts H h0 Hlen0 Hnodes (length H - S i) ltac:(lia)) as (c' & Hc' & -> & _).
  replace (length H - S (length H - S i))%nat with i in Hc' by lia. congruence.
Qed.

(** [tries] is the step of the model on the operation. *)
Lemma tries_legal e c r : (e < length H)%nat -> H !! (length H - S e)%nat = Some c -> e_kind c = CallEvent ->
  r ∈ H -> e_kind r = ReturnEvent -> e_id r = e_id c ->
  exists input output, e_value c = inl input /\ e_value r = inr output /\
    forall s s', tries s e = Some s' <-> Step model s input output = (true, s').
Proof.
  intros He Hc Hkc [j Hj]%list_elem_of_lookup_1 Hkr Hid.
  destruct (wh_order _ _ Hwf (e_id c) (wh_id _ _ Hwf _ _ Hc)) as (i & j' & c' & r' & Hij & Hi & Hj' & Hkc' & Hkr' & Hic & Hir).
  assert (i = length H - S e)%nat as -> by (apply (wh_unique _ _ Hwf _ _ c' c); [done|done|congruence|congruence]).
  assert (j' = j) as -> by (apply (wh_unique _ _ Hwf _ _ r' r); [done|done|congruence|congruence]).
  pose proof (lookup_lt_Some _ _ _ Hj) as Lj.
  pose proof (call_match H n h0 Hwf Hlen0 Hnodes _ j c r Hc Hj Hkc Hkr ltac:(congruence) Hij) as Hm.
  replace (length H - S (length H - S e))%nat with e in Hm by lia.
  destruct (pointer_facts H h0 Hlen0 Hnodes e He) as (c2 & Hc2 & _ & Hv & _). rewrite Hc in Hc2. injection Hc2 as <-.
  destruct (pointer_facts H h0 Hlen0 Hnodes (length H - S j) ltac:(lia)) as (r2 & Hr2 & _ & Hvr & _).
  replace (length H - S (length H - S j))%nat with j in Hr2 by lia. rewrite Hj in Hr2. injection Hr2 as <-.
  pose proof (wh_value _ _ Hwf _ _ Hc) as Hvc. rewrite Hkc in Hvc. destruct Hvc as [input Hvc].
  pose proof (wh_value _ _ Hwf _ _ Hj) as Hvr'. rewrite Hkr in Hvr'. destruct Hvr' as [output Hvr'].
  exists input, output. split_and!; [done|done|]. intros s s'. unfold PorcupineSearch.tries. rewrite Hm, Hv, Hvr, Hvc, Hvr'.
  destruct (Step model s input output) as [[] s1]; split; congruence.
Qed.

Abbreviation path := (path model h0 L0).

Lemma path_part S s σ S' s' : below n S -> path S s σ S' s' -> part_from H n S s σ /\ S' = S ∪ list_to_set σ.
Proof.
  intros Hb Hc. induction Hc as [S s|S s e A R s' σ S2 s2 El HA Ht _ IH].
  { split; [|set_solver]. split_and!; [constructor|set_solver|done|set_solver]. }
  assert (Hel : e ∈ live S) by (rewrite El; set_solver). apply live_in in Hel as [HeS HeL].
  destruct (built_in H n h0 Hwf Hlen0 Hnodes e HeL) as [_ Hid]. apply elem_of_desc in HeL.
  destruct IH as ((Hnd & Hin & Hleg & Hpre) & ES).
  { intros i [?| ->%elem_of_singleton]%elem_of_union; [by apply Hb|done]. }
  assert (Hni : idp e ∉ σ) by (intros Hx%Hin; set_solver).
  split; [|rewrite ES; set_solver]. split_and!.
  - by constructor.
  - intros i [->|Hi%Hin]%elem_of_cons; set_solver.
  - destruct (tries_call model h0 s e s' Ht) as [m Hm].
    destruct (pointer_match H n h0 Hwf Hlen0 Hnodes e m HeL Hm) as (c & r & Hlt & Hc & Hr & Hkc & Hkr & Hcr).
    destruct (pointer_facts H h0 Hlen0 Hnodes e HeL) as (c2 & Hc2 & Hide & _). rewrite Hc in Hc2. injection Hc2 as <-.
    apply list_elem_of_lookup_2 in Hr.
    destruct (tries_legal e c r HeL Hc Hkc Hr Hkr ltac:(congruence)) as (input & output & Hvc & Hvr & Hst).
    apply Hst in Ht. apply list_elem_of_lookup_2 in Hc. exists c, r, input, output, s'. split_and!; congruence.
  - intros a b Ha [->|Hbσ]%elem_of_cons Hp.
    + exfalso. assert (a <> idp e) as Hae by (intros ->; by apply (precedes_irrefl (idp e))).
      destruct Hp as (i & j & r & c & Hij & Hi & Hj & Hr & Hc & Hra & Hcb). pose proof (lookup_lt_Some _ _ _ Hj) as Lj.
      destruct (pointer_facts H h0 Hlen0 Hnodes (length H - Datatypes.S i) ltac:(lia)) as (r' & Hr' & Hidr & _ & Hmr).
      replace (length H - Datatypes.S (length H - Datatypes.S i))%nat with i in Hr' by lia.
      rewrite Hi in Hr'. injection Hr' as <-. rewrite Hr in Hmr.
      destruct (tries_call model h0 s e s' Ht) as [m Hm].
      destruct (pointer_match H n h0 Hwf Hlen0 Hnodes e m HeL Hm) as (c2 & _ & _ & Hc2 & _ & Hkc2 & _).
      destruct (pointer_facts H h0 Hlen0 Hnodes e HeL) as (c3 & Hc3 & Hide & _). rewrite Hc2 in Hc3. injection Hc3 as <-.
      assert (j = length H - Datatypes.S e)%nat as -> by (apply (wh_unique _ _ Hwf _ _ c c2); [done|done|congruence|congruence]).
      assert (Hlive : (length H - Datatypes.S i)%nat ∈ live S).
      { apply live_in. split; [congruence|]. apply elem_of_desc. lia. }
      apply (live_order S A e R _ El) in Hlive. assert (HinA : (length H - Datatypes.S i)%nat ∈ A) by (apply Hlive; lia).
      rewrite Forall_forall in HA. destruct (HA _ HinA) as [? ?]. congruence.
    + destruct (decide (a = idp e)) as [->|Hae]; [|apply is_before_cons, Hpre; set_solver].
      apply list_elem_of_lookup_1 in Hbσ as [j Hj]. exists 0%nat, (Datatypes.S j). split_and!; [lia|done|done].
Qed.

Lemma part_path S s σ : below n S -> part_from H n S s σ -> exists s', path S s σ (S ∪ list_to_set σ) s'.
Proof.
  revert S s. induction σ as [|id σ IH]; intros S s Hb (Hnd & Hin & Hleg & Hpre).
  { exists s. replace (S ∪ list_to_set []) with S by set_solver. constructor. }
  apply NoDup_cons in Hnd as [Hidσ Hnd]. destruct (Hin id ltac:(set_solver)) as [Hid HidS].
  destruct (op_pointers id Hid) as (e & m & c & r & He & Hm & Hide & Hlt & Hc & Hr & Hkc & Hkr & Hic & Hir).
  pose proof (proj1 (elem_of_desc _ _) He) as HeL.
  assert (Hel : e ∈ live S) by (apply live_in; split; congruence).
  destruct (list_elem_of_split _ _ Hel) as (A & R & El).
  destruct Hleg as (c' & r' & input & output & s' & Hc' & Hr' & Hkc' & Hkr' & Hic' & Hir' & Hvc & Hvr & Hstep & Hleg).
  assert (Ecc : c' = c).
  { apply list_elem_of_lookup_1 in Hc' as [i Hi].
    assert (i = length H - Datatypes.S e)%nat as -> by (apply (wh_unique _ _ Hwf _ _ c' c); [done|done|congruence|congruence]).
    congruence. }
  subst c'. destruct (tries_legal e c r' HeL Hc Hkc Hr' Hkr' ltac:(congruence)) as (i1 & o1 & Hv1 & Hv2 & Hst).
  assert (Ht : tries s e = Some s') by (apply Hst; congruence).
  destruct (IH (S ∪ {[idp e]}) s') as [s2 Hp2].
  - intros i [?| ->%elem_of_singleton]%elem_of_union; [by apply Hb|by rewrite Hide].
  - rewrite Hide. split_and!; [done| |done|].
    + intros i Hi. specialize (Hin i ltac:(set_solver)). set_solver.
    + intros a b Ha Hb' Hp. destruct (Hpre a b) as (i & j & Hij & Hi & Hj); [set_solver|set_solver|done|].
      destruct i as [|i]; [cbn in Hi; injection Hi as ->; set_solver|]. destruct j as [|j]; [lia|].
      exists i, j. split_and!; [lia|done|done].
  - exists s2. replace (S ∪ list_to_set (id :: σ)) with (S ∪ {[idp e]} ∪ list_to_set σ) by set_solver.
    rewrite <-Hide. eapply p_cons; [exact El| |exact Ht|exact Hp2].
    apply Forall_forall. intros p Hp. destruct (mt p) eqn:Hmp; [by eexists|exfalso].
    assert (Hpl : p ∈ live S) by (rewrite El; set_solver).
    pose proof (proj1 (live_order S A e R p El Hpl) Hp) as Hpe. apply live_in in Hpl as [HpS HpL].
    pose proof (proj1 (elem_of_desc _ _) HpL) as HpL'.
    destruct (return_match H n h0 Hwf Hlen0 Hnodes p HpL' Hmp) as (x & Hx & Hkx).
    destruct (pointer_facts H h0 Hlen0 Hnodes p HpL') as (x' & Hx' & Hidx & _). rewrite Hx in Hx'. injection Hx' as <-.
    assert (Hprec : precedes H (idp p) id).
    { exists (length H - Datatypes.S p)%nat, (length H - Datatypes.S e)%nat, x, c. split_and!; try done. lia. }
    destruct (Hpre (idp p) id HpS ltac:(set_solver) Hprec) as (i & j & Hij & Hi & Hj).
    destruct j as [|j]; [lia|]. cbn in Hj. apply list_elem_of_lookup_2 in Hj. done.
Qed.

(** Nothing is live when all operations are taken. *)
Lemma live_none S : below n S -> live S = [] <-> forall i, 0 <= i < n -> i ∈ S.
Proof.
  intros Hb. split.
  - intros El i Hi. destruct (decide (i ∈ S)) as [|HiS]; [done|exfalso].
    destruct (op_pointers i Hi) as (e & m & c & r & He & _ & Hid & _).
    assert (e ∈ live S) as Hx by (apply live_in; split; congruence). rewrite El in Hx. set_solver.
  - intros Hall. destruct (live S) as [|p L] eqn:El; [done|exfalso].
    assert (Hp : p ∈ live S) by (rewrite El; set_solver). apply live_in in Hp as [HpS HpL].
    destruct (built_in H n h0 Hwf Hlen0 Hnodes p HpL) as [_ Hid]. by apply HpS, Hall.
Qed.

(** The paths of the search are the partial linearizations. *)
Lemma path_partial_linearization σ : (exists S s, path ∅ (Init model) σ S s) <-> partial_linearization H n σ.
Proof.
  rewrite <-part_from_empty. split.
  - intros (S & s & Hp). by apply path_part in Hp as [? _].
  - intros Hp. destruct (part_path ∅ (Init model) σ) as [s Hs]; [by intros i Hi|done|by eexists _, _].
Qed.

Lemma completes_path S s σ : completes S s σ <-> exists S' s', path S s σ S' s' /\ live S' = [].
Proof.
  split.
  - intros Hc. induction Hc as [S s El|S s e A R s' σ El HA Ht _ (S' & s2 & Hp & El')]; [by exists S, s; split; [constructor|]|].
    exists S', s2. split; [by eapply p_cons|done].
  - intros (S' & s' & Hp & El). induction Hp; [by constructor|eapply c_cons; eauto].
Qed.

(** The choices of the search are the linearizations. *)
Lemma completes_linearization σ : completes ∅ (Init model) σ <-> linearization H n σ.
Proof.
  rewrite linearization_partial by (intros a b Hp; apply (precedes_range a b Hp)). rewrite completes_path, <-part_from_empty. split.
  - intros (S & s & Hp & El). apply path_part in Hp as [Hpart ES]; [|by intros i Hi]. split; [done|].
    assert (below n S) as Hb. { rewrite ES. intros i [Hi|Hi%elem_of_list_to_set]%elem_of_union; [set_solver|]. by apply Hpart in Hi as [? _]. }
    intros i Hi. apply (live_none S Hb) with (i := i) in El; [|done]. set_solver.
  - intros (Hpart & Hall). destruct (part_path ∅ (Init model) σ) as [s Hs]; [by intros i Hi|done|].
    eexists _, s. split; [exact Hs|]. apply live_none.
    + intros i [Hi|Hi%elem_of_list_to_set]%elem_of_union; [set_solver|]. by apply Hpart in Hi as [? _].
    + intros i Hi%Hall. set_solver.
Qed.
End equivalence.
End history.
