(* ===== verification/PorcupineProps.v ===== *)
(** * Correctness of the linearizability checker

    [checkSingle] decides linearizability of a history; on the entries of timed operations
    this is linearizability in real time. *)
From stdpp Require Import sorting.
From S2P Require Import Prelude Porcupine PorcupineHeap PorcupineBits PorcupineSearch PorcupineHistory.

Section check.
Context {In Out St : Type} (model : Model In Out St) (equal : St -> St -> bool).
Hypothesis Hequal : forall s s', equal s s' = true <-> s = s'.

(** What [search_init] builds. *)
Lemma search_init_run (H : list (entry In Out)) n : wf_history H n -> exists h,
  search_init model H = Some (n, length H,
    mkSearch h (head (desc (length H))) (Bitset.newBitset n) ∅ [] (replicate (Z.to_nat n) None) [] (Init model)) /\
  length h = S (length H) /\ dll h (length H) (desc (length H)) /\
  (forall p x, (p < length H)%nat -> h !! p = Some x -> node_for (rev H) p x).
Proof.
  intros Hwf. unfold search_init, makeLinkedEntries.
  destruct (makeLinked_run (rev H) [] []) as (h & Hrun & Hlen & Hl & Hall); [done|done|done|].
  cbn [app] in Hlen, Hall. rewrite length_rev in Hlen.
  change (makeLinkedEntries_loop (rev H) ∅ None [] = Some (root_of h, h)) in Hrun.
  rewrite Hrun. unfold alloc.
  assert (Hcount : list_length (length h) h (root_of h) / 2 = n).
  { pose proof (wh_len _ _ Hwf) as Hn. unfold linked, root_of in *. rewrite Hlen in *. destruct (length H) as [|k].
    - cbn. assert (n = 0) as -> by lia. done.
    - rewrite (list_length_run h (S k) k (desc k)); [|by apply Hl|rewrite desc_length; lia].
      rewrite desc_length, Hn. rewrite Z.mul_comm. apply Z.div_mul. lia. }
  rewrite Hcount. destruct (push_front h (mkNode None None (-1) None None) Hl eq_refl eq_refl) as (h' & Hins & Hst & _ & Hd).
  rewrite Hins, Hlen. rewrite Hlen in Hd. exists h'. split_and!.
  - do 3 f_equal. unfold root_of. rewrite Hlen. by destruct (length H).
  - destruct Hst as [-> _]. rewrite length_app, Hlen. cbn. lia.
  - done.
  - intros p x Hp Hx. destruct Hst as [_ Hst]. destruct (lookup_lt_is_Some_2 h p) as [y Hy]; [lia|].
    destruct (Hst p y) as (x' & Hx' & Hv & Hm & Hi); [by rewrite lookup_app_l by lia|].
    rewrite Hx in Hx'. injection Hx' as <-. destruct (Hall p y Hy) as (e & ? & ? & ? & ?). exists e. split_and!; congruence.
Qed.

(** The list the loop starts with, and what the search relies on. *)
Record search_ready (H : list (entry In Out)) (n : Z) (h : list (node In Out)) : Prop := {
  sr_init : search_init model H = Some (n, length H,
    mkSearch h (head (desc (length H))) (Bitset.newBitset n) ∅ [] (replicate (Z.to_nat n) None) [] (Init model));
  sr_n : 0 <= n;
  sr_len : length h = S (length H);
  sr_dll : dll h (length H) (desc (length H));
  sr_nodup : NoDup (length H :: desc (length H));
  sr_nodes p x : (p < length H)%nat -> h !! p = Some x -> node_for (rev H) p x
}.

Lemma search_ready_run (H : list (entry In Out)) n : wf_history H n -> exists h, search_ready H n h.
Proof.
  intros Hwf. destruct (search_init_run H n Hwf) as (h & Hinit & Hlen & Hd & Hnodes). exists h. split; try done.
  - pose proof (wh_len _ _ Hwf). lia.
  - constructor; [rewrite elem_of_desc; lia|apply desc_NoDup].
Qed.

(** The search on a well-formed history, with enough fuel. *)
Lemma checkSingle_run (H : list (entry In Out)) n : wf_history H n -> exists bound, forall fuel computePartial kill,
  (bound < fuel)%nat -> (forall i, kill i = false) ->
  exists ok longest seqs, checkSingle model equal fuel H computePartial kill = Some (Some (ok, longest, seqs)) /\
    if ok then exists σ, linearization model H n σ /\ reads seqs longest = replicate (Z.to_nat n) (Some σ)
    else forall σ, ~ linearization model H n σ.
Proof.
  intros Hwf. destruct (search_ready_run H n Hwf) as (h & [Hinit Hn Hlen Hd Hnd Hnodes]).
  pose proof (built_in H n h Hwf Hlen Hnodes) as Hin. pose proof (built_call H n h Hwf Hlen Hnodes) as Hcall.
  pose proof (Inv_init model equal Hequal n h (length H) (desc (length H)) Hn Hd Hnd Hin Hcall) as Hinv.
  eexists (measure model equal n h (desc (length H)) _ (desc (length H))). intros fuel computePartial kill Hf Hk.
  destruct (search_loop_run model equal Hequal n h (length H) (desc (length H)) Hn Hd Hnd Hin Hcall
    fuel computePartial kill _ _ _ _ _ Hk Hinv Hf) as (ok & longest & seqs & Hrun & Hres).
  exists ok, longest, seqs. unfold checkSingle. rewrite Hinit. split; [exact Hrun|]. destruct ok.
  - destruct Hres as (σ & Hσ & Hr). exists σ. split; [|exact Hr].
    by apply (completes_linearization model H n h Hwf Hlen Hnodes).
  - intros σ Hσ. apply (Hres σ). by apply (completes_linearization model H n h Hwf Hlen Hnodes).
Qed.

(** C10: the checker is correct. On every history in which each operation is called once
    and returns once, later, [checkSingle] ends without a panic, and answers true exactly
    when the history has a linearization: an order of all operations that is a run of the
    model and keeps every operation that returned before another was called in front of
    it. With the answer true it reports such an order. *)
Theorem checkSingle_decides_linearizability (H : list (entry In Out)) n :
  wf_history H n -> exists bound, forall fuel computePartial kill,
  (bound < fuel)%nat -> (forall i, kill i = false) ->
  exists ok longest seqs, checkSingle model equal fuel H computePartial kill = Some (Some (ok, longest, seqs)) /\
    (ok = true <-> exists σ, linearization model H n σ) /\
    (ok = true -> exists σ, linearization model H n σ /\ reads seqs longest = replicate (Z.to_nat n) (Some σ)).
Proof.
  intros Hwf. destruct (checkSingle_run H n Hwf) as [bound Hb]. exists bound. intros fuel computePartial kill Hf Hk.
  destruct (Hb fuel computePartial kill Hf Hk) as (ok & longest & seqs & Hrun & Hres). exists ok, longest, seqs.
  destruct ok; split_and!; try done.
  - split; [|done]. intros _. destruct Hres as (σ & ? & _). by exists σ.
  - split; [done|]. intros [σ Hσ]. by destruct (Hres σ).
Qed.
End check.
