(* ===== verification/PorcupinePartial.v ===== *)
(** * The partial linearizations of the checker

    With [computePartial] the search remembers for every operation a longest sequence of
    calls it has made that includes the operation. Whatever happens, a sequence it reports
    is a path of the search ([search_loop_reported]); when it fails on a history without
    being killed, no path that includes the operation is longer ([search_loop_covered]):
    every configuration it has left for good is [covered], it and all that can be reached
    from it have been recorded. Then [checkParallel] over any partitions, in any order of
    arrival and with or without a timeout: the answer is right about every partition it
    heard of, and the sequences it collects are partial linearizations, longest ones when
    nothing was killed. *)
From S2P Require Import Prelude Porcupine PorcupineHeap PorcupineBits PorcupineSearch PorcupineHistory PorcupineProps.
Import Bitset.

Lemma reads_lookup seqs longest i σ :
  reads seqs longest !! i = Some (Some σ) <-> exists k, longest !! i = Some (Some k) /\ seqs !! k = Some σ.
Proof.
  unfold reads. rewrite list_lookup_fmap. destruct (longest !! i) as [[k|]|] eqn:E; cbn; [|naive_solver..].
  split; [intros [= Hk]; by exists k|]. intros (k' & [= <-] & ->). done.
Qed.

(** Reading everything means no pointer is stray. *)
Lemma reads_valid seqs longest n σ : reads seqs longest = replicate n (Some σ) -> valid seqs longest.
Proof.
  intros Hr i k Hi. apply (f_equal (fun l => l !! i)) in Hr. unfold reads in Hr. rewrite list_lookup_fmap, Hi in Hr. cbn in Hr.
  symmetry in Hr. apply lookup_replicate in Hr as [E _]. rewrite E. by eexists.
Qed.

Section partial.
Context {In Out St : Type} (model : Model In Out St) (equal : St -> St -> bool).
Hypothesis Hequal : forall s s', equal s s' = true <-> s = s'.
Variables (n : Z) (h0 : list (node In Out)) (hd : nat) (L0 : list nat).

Abbreviation live := (live h0 L0).
Abbreviation mt := (mt h0).
Abbreviation idp := (idp h0).
Abbreviation valp := (valp h0).
Abbreviation tries := (tries model h0).
Abbreviation path := (path model h0 L0).
Abbreviation Inv := (Inv model n h0 hd L0).
Abbreviation measure := (measure model equal n h0 L0).
Abbreviation Srch := (Search (I := In) (O := Out) (S := St)).

Hypotheses (Hn : 0 <= n) (Hdll : dll h0 hd L0) (Hnd : NoDup (hd :: L0))
  (Hin : forall p, p ∈ L0 -> is_Some (h0 !! p) /\ 0 <= idp p < n)
  (Hcall : forall e m, e ∈ L0 -> mt e = Some m -> exists A B C, L0 = A ++ e :: B ++ m :: C /\
     mt m = None /\ idp m = idp e /\ (forall p, p ∈ A ++ B ++ C -> idp p <> idp e) /\
     exists input output, valp e = Some (inl input) /\ valp m = Some (inr output)).

Let round_of := search_step_round model equal Hequal n h0 hd L0 Hn Hdll Hnd Hin Hcall.
Let back_of := backtrack_shape model equal Hequal n h0 hd L0 Hn Hdll Hnd Hin Hcall.
Let facts_of := frames_facts model equal Hequal n h0 hd L0 Hn Hdll Hnd Hin Hcall.

(** ** Covered configurations *)

(** Every operation of [S] has a sequence as long as [S] is big. *)
Definition noted (seqs : list (list Z)) (longest : list (option nat)) (S : gset Z) : Prop :=
  forall i, i ∈ S -> exists k σ, longest !! Z.to_nat i = Some (Some k) /\ seqs !! k = Some σ /\ (size S <= length σ)%nat.

Definition covered seqs longest (S : gset Z) (s : St) : Prop :=
  forall σ S' s', path S s σ S' s' -> noted seqs longest S'.
Definition all_covered seqs longest (S : gset Z) (s : St) (A : list nat) : Prop :=
  forall e s', e ∈ A -> tries s e = Some s' -> covered seqs longest (S ∪ {[idp e]}) s'.

(** Sequences are only replaced by longer ones. *)
Definition grows (seqs : list (list Z)) (longest : list (option nat)) (seqs' : list (list Z)) (longest' : list (option nat)) : Prop :=
  forall (i k : nat) (σ : list Z), longest !! i = Some (Some k) -> seqs !! k = Some σ ->
    exists k' σ', longest' !! i = Some (Some k') /\ seqs' !! k' = Some σ' /\ (length σ <= length σ')%nat.

Lemma noted_grows seqs longest seqs' longest' S : grows seqs longest seqs' longest' -> noted seqs longest S -> noted seqs' longest' S.
Proof.
  intros Hg Hc i Hi. destruct (Hc i Hi) as (k & σ & Hk & Hσ & Hle). destruct (Hg _ _ _ Hk Hσ) as (k' & σ' & ? & ? & ?).
  exists k', σ'. split_and!; [done|done|lia].
Qed.
Lemma all_covered_grows seqs longest seqs' longest' S s A :
  grows seqs longest seqs' longest' -> all_covered seqs longest S s A -> all_covered seqs' longest' S s A.
Proof. intros Hg Hc e s' He Ht σ S' s2 Hp. eapply noted_grows; [exact Hg|]. by eapply Hc. Qed.

(** A configuration whose choices are all covered, once it is noted itself. *)
Lemma covered_here seqs longest S s A p R : live S = A ++ p :: R -> mt p = None ->
  all_covered seqs longest S s A -> noted seqs longest S -> covered seqs longest S s.
Proof.
  intros El Hp Hc Hno σ S' s' Hpa. destruct Hpa as [S s|S s e A' R' s1 σ S2 s2 El' HA' Ht Hpa]; [done|].
  assert (e ∈ A) as He by (eapply (choice_before equal Hequal n h0 hd L0 Hn Hdll Hnd Hin Hcall); eauto; by destruct (tries_call model h0 s e s1 Ht) as [m ->]).
  by eapply (Hc e s1 He Ht).
Qed.

(** ** The invariant *)

(** The choices passed over below the current configuration are covered. *)
Inductive covered_frames seqs longest : list (callsEntry (S := St)) -> list (gset Z * St) -> Prop :=
  | cf_nil cfg : covered_frames seqs longest [] [cfg]
  | cf_push cs e s S rest cfg :
      covered_frames seqs longest cs ((S, s) :: rest) ->
      (forall A R, live S = A ++ e :: R -> all_covered seqs longest S s A) ->
      covered_frames seqs longest (mkCallsEntry e s :: cs) (cfg :: (S, s) :: rest).

Lemma covered_frames_grows seqs longest seqs' longest' cs cfgs : grows seqs longest seqs' longest' ->
  covered_frames seqs longest cs cfgs -> covered_frames seqs' longest' cs cfgs.
Proof. intros Hg Hf. induction Hf; constructor; [done|]. intros A R El. eapply all_covered_grows; eauto. Qed.

Record Cov (st : Srch) (S : gset Z) (rest : list (gset Z * St)) (A : list nat) : Prop := {
  cv_frames : covered_frames (cs_seqs st) (cs_longest st) (rev (cs_calls st)) ((S, cs_state st) :: rest);
  cv_here : all_covered (cs_seqs st) (cs_longest st) S (cs_state st) A;
  cv_cache b s : cached (cs_cache st) b s -> exists S', bits n b S' /\ below n S' /\
    ((S', s) ∈ (S, cs_state st) :: rest \/ covered (cs_seqs st) (cs_longest st) S' s)
}.

Lemma Cov_skip st S rest A e R x : Inv st S rest A (e :: R) -> Cov st S rest A ->
  (forall s', tries (cs_state st) e = Some s' ->
     exists b, bits n b (S ∪ {[idp e]}) /\ below n (S ∪ {[idp e]}) /\ cached (cs_cache st) b s') ->
  Cov (skipped st x) S rest (A ++ [e]).
Proof.
  intros Hinv [Hf Hh Hc] Hsk. split; [done| |done]. intros e' s' [He| ->%list_elem_of_singleton]%elem_of_app Ht; [by eapply Hh|].
  destruct (Hsk s' Ht) as (b & Hb & Hbel & Hca). destruct (Hc b s' Hca) as (S' & Hb' & Hbel' & Hor).
  rewrite (bits_inj n b S' _ Hb' Hbel' Hb Hbel) in Hor. destruct Hor as [Hon|?]; [exfalso|done].
  assert (e ∈ live S) as Hel by (rewrite (i_live _ _ _ _ _ _ _ _ _ _ Hinv); set_solver). apply live_in in Hel as [HeS _].
  pose proof (facts_of _ _ _ _ _ (i_frames _ _ _ _ _ _ _ _ _ _ Hinv)) as Hff.
  apply elem_of_cons in Hon as [[= E _]|Hon]; [set_solver|]. apply (ff_rest _ _ _ _ _ _ _ _ _ _ Hff) in Hon.
  rewrite size_union, size_singleton in Hon by set_solver. lia.
Qed.

Lemma Cov_push st S rest A e R h x b s' : Cov st S rest A -> live S = A ++ e :: R ->
  bits n b (S ∪ {[idp e]}) -> below n (S ∪ {[idp e]}) -> Cov (pushed st h x b e s') (S ∪ {[idp e]}) ((S, cs_state st) :: rest) [].
Proof.
  intros [Hf Hh Hc] El Hb Hbel. split; cbn.
  - rewrite rev_app_distr. constructor; [done|]. intros A' R' El'. rewrite El in El'.
    destruct (split_unique A R A' R' e) as [<- _]; [|done|done]. rewrite <-El.
    pose proof (live_NoDup h0 hd L0 Hnd S) as Hnd'. by apply NoDup_cons in Hnd' as [_ ?].
  - intros e' s1 He'. set_solver.
  - intros b0 s0 [Hc0|[-> ->]]%cached_insert; [|exists (S ∪ {[idp e]}); set_solver].
    destruct (Hc b0 s0 Hc0) as (S0 & ? & ? & [?|?]); exists S0; split_and!; try done; [left; set_solver|by right].
Qed.

(** What is recorded before going back is long enough for every operation taken. *)
Lemma recorded_noted (st st' : Srch) S : recorded true st st' S -> noted (cs_seqs st') (cs_longest st') S /\
  grows (cs_seqs st) (cs_longest st) (cs_seqs st') (cs_longest st').
Proof.
  intros (ids & Eseqs & Hids & Hlen & [_ _ Him Hen]). split.
  - intros i Hi. destruct (Hen i) as (k & σ & ? & ? & ?); [by apply Hids|]. exists k, σ. split_and!; [done|done|lia].
  - intros i k σ Hi Hk. apply (Him i k σ Hi). rewrite Eseqs. by apply lookup_app_l_Some.
Qed.

Lemma Cov_back st st' S rest A p R e s0 S0 rest0 A0 R0 : Inv st S rest A (p :: R) -> mt p = None -> Cov st S rest A ->
  rest = (S0, s0) :: rest0 -> S = S0 ∪ {[idp e]} -> live S0 = A0 ++ e :: R0 -> tries s0 e = Some (cs_state st) ->
  cs_calls st = cs_calls st' ++ [mkCallsEntry e s0] -> cs_cache st' = cs_cache st -> cs_state st' = s0 ->
  recorded true st st' S -> Cov st' S0 rest0 (A0 ++ [e]).
Proof.
  intros Hinv Hp [Hf Hh Hc] -> ES El Ht Ecalls Ecache Est Hrec. destruct (recorded_noted _ _ _ Hrec) as [Hno Hg].
  assert (Hcov : covered (cs_seqs st') (cs_longest st') S (cs_state st)).
  { eapply covered_here; [apply (i_live _ _ _ _ _ _ _ _ _ _ Hinv)|done| |done]. by eapply all_covered_grows. }
  rewrite Ecalls, rev_app_distr in Hf. apply (covered_frames_grows _ _ _ _ _ _ Hg) in Hf. cbn [rev app] in Hf.
  inversion Hf as [|cs1 e1 s1 S1 rest1 cfg1 Hf0 Hall0]; subst. split.
  - done.
  - intros e' s' [He| ->%list_elem_of_singleton]%elem_of_app Ht'; [by eapply Hall0|].
    rewrite Ht in Ht'. by injection Ht' as <-.
  - rewrite Ecache. intros b s Hca. destruct (Hc b s Hca) as (S' & Hb & Hbel & Hor). exists S'. split_and!; [done|done|].
    destruct Hor as [[[= -> ->]|?]%elem_of_cons|Hcs]; [by right|by left|right].
    intros σ S2 s2 Hpa. eapply noted_grows; [exact Hg|]. by eapply Hcs.
Qed.

(** ** The loop *)

(** One round: the invariant is kept, and the end finds everything covered. *)
Lemma search_step_covered st S rest A R : Inv st S rest A R -> Cov st S rest A ->
  match search_step model equal true false hd n st with
  | Some (Finished false longest seqs) => covered seqs longest ∅ (Init model)
  | Some (Continue st') => exists S' rest' A' R', Inv st' S' rest' A' R' /\ Cov st' S' rest' A'
  | _ => True
  end.
Proof.
  intros Hinv Hcov. destruct (round_of true st S rest A R Hinv)
    as [ids El Hc|e R' x -> Hsk Hi _|e R' s' b h x S' -> El Hb Ht Hi _|p R' -> Hp]; [done| | |].
  - eexists _, _, _, _. split; [exact Hi|]. by eapply Cov_skip.
  - eexists _, _, _, _. split; [exact Hi|]. eapply Cov_push; [done|done|done|].
    by apply (ff_below _ _ _ _ _ _ _ _ _ _ (facts_of _ _ _ _ _ (i_frames _ _ _ _ _ _ _ _ _ _ Hi))).
  - destruct (back_of true st S rest A p R' Hinv Hp)
      as [(-> & -> & Es & _)|(st' & e & s0 & S0 & rest0 & A0 & R0 & -> & Hr & HS & El & Ht & Hca & Hch & Hst & Hrec & Hi & _)].
    + rewrite <-Es. eapply covered_here; [apply (i_live _ _ _ _ _ _ _ _ _ _ Hinv)|done|apply Hcov|]. intros i Hi. set_solver.
    + eexists _, _, _, _. split; [exact Hi|]. by eapply Cov_back.
Qed.

Lemma search_loop_covered fuel kill st S rest A R longest seqs : (forall i, kill i = false) ->
  Inv st S rest A R -> Cov st S rest A ->
  search_loop model equal fuel true kill hd n st = Some (Some (false, longest, seqs)) -> covered seqs longest ∅ (Init model).
Proof.
  intros Hk. revert st S rest A R. induction fuel as [|fuel IH]; intros st S rest A R Hinv Hcov; [done|].
  cbn [search_loop]. rewrite Hk. pose proof (search_step_covered st S rest A R Hinv Hcov) as Hs.
  destruct (search_step model equal true false hd n st) as [[st'|ok l1 q1]|]; [| |done].
  - destruct Hs as (S' & rest' & A' & R' & Hi' & Hc'). by eapply IH.
  - intros [= -> -> ->]. exact Hs.
Qed.

(** With the flag set the round ends the search, unless it has just found an order. *)
Lemma search_step_killed computePartial (st : Srch) :
  search_step model equal computePartial true hd n st = search_step model equal computePartial false hd n st \/
  search_step model equal computePartial true hd n st = Some (Finished false (cs_longest st) (cs_seqs st)).
Proof. unfold search_step. destruct (cs_heap st !! hd) as [x|]; [|by left]. destruct (n_next x); [by right|by left]. Qed.

(** What the loop reports, killed or not. *)
Definition reports (ok : bool) (longest : list (option nat)) (seqs : list (list Z)) : Prop :=
  if ok then exists σ, completes model h0 L0 ∅ (Init model) σ /\ reads seqs longest = replicate (Z.to_nat n) (Some σ)
  else length longest = Z.to_nat n /\ reported model h0 L0 seqs longest.

Lemma search_step_reports computePartial kill st S rest A R : Inv st S rest A R ->
  match search_step model equal computePartial kill hd n st with
  | Some (Finished ok longest seqs) => reports ok longest seqs
  | Some (Continue st') => exists S' rest' A' R', Inv st' S' rest' A' R' /\ (measure st' R' < measure st R)%nat
  | None => False
  end.
Proof.
  intros Hinv. pose proof (conj (i_longest _ _ _ _ _ _ _ _ _ _ Hinv) (i_reported _ _ _ _ _ _ _ _ _ _ Hinv)) as Hrep.
  enough (match search_step model equal computePartial false hd n st with
    | Some (Finished ok longest seqs) => reports ok longest seqs
    | Some (Continue st') => exists S' rest' A' R', Inv st' S' rest' A' R' /\ (measure st' R' < measure st R)%nat
    | None => False end) as Hgoal.
  { destruct kill; [|done]. by destruct (search_step_killed computePartial st) as [-> | ->]. }
  destruct (round_of computePartial st S rest A R Hinv) as [ids El Hc|e R' x ?? Hi Hm|e R' s' b h x S' ???? Hi Hm|p R' -> Hp].
  - exists ids. split; [done|]. unfold reads. rewrite fmap_replicate. cbn. by rewrite list_lookup_middle.
  - by eexists _, _, _, _.
  - by eexists _, _, _, _.
  - destruct (back_of computePartial st S rest A p R' Hinv Hp)
      as [(-> & _)|(st' & e & s0 & S0 & rest0 & A0 & R0 & -> & _ & _ & _ & _ & _ & _ & _ & _ & Hi & Hm)]; [done|by eexists _, _, _, _].
Qed.

Lemma search_loop_reports fuel computePartial kill st S rest A R : Inv st S rest A R -> (measure st R < fuel)%nat ->
  exists ok longest seqs, search_loop model equal fuel computePartial kill hd n st = Some (Some (ok, longest, seqs)) /\
    reports ok longest seqs.
Proof.
  revert st S rest A R. induction fuel as [|fuel IH]; intros st S rest A R Hinv Hlt; [lia|].
  cbn [search_loop]. pose proof (search_step_reports computePartial (kill fuel) st S rest A R Hinv) as Hs.
  destruct (search_step model equal computePartial (kill fuel) hd n st) as [[st'|ok longest seqs]|]; [| |done].
  - destruct Hs as (S' & rest' & A' & R' & Hinv' & Hm). apply (IH st' S' rest' A' R'); [done|lia].
  - by exists ok, longest, seqs.
Qed.

Lemma Cov_init : Cov (mkSearch h0 (head L0) (newBitset n) ∅ [] (replicate (Z.to_nat n) None) [] (Init model)) ∅ [] [].
Proof.
  split; cbn.
  - constructor.
  - intros e s' Hin'. set_solver.
  - intros b s Hc. unfold cached in Hc. rewrite lookup_empty in Hc. cbn in Hc. set_solver.
Qed.
End partial.

(** * The sequences [checkSingle] reports *)
Section check.
Context {In Out St : Type} (model : Model In Out St) (equal : St -> St -> bool).
Hypothesis Hequal : forall s s', equal s s' = true <-> s = s'.

(** Everything reported is a partial linearization with the operation it stands for. *)
Definition sound_partials (H : list (entry In Out)) (n : Z) (seqs : list (list Z)) (longest : list (option nat)) : Prop :=
  forall i σ, reads seqs longest !! i = Some (Some σ) -> partial_linearization model H n σ /\ Z.of_nat i ∈ σ.
(** And none with the operation is longer. *)
Definition longest_partials (H : list (entry In Out)) (n : Z) (seqs : list (list Z)) (longest : list (option nat)) : Prop :=
  forall i σ, partial_linearization model H n σ -> i ∈ σ ->
    exists σ', reads seqs longest !! Z.to_nat i = Some (Some σ') /\ (length σ <= length σ')%nat.

Lemma partial_length (H : list (entry In Out)) n σ : 0 <= n -> partial_linearization model H n σ -> (length σ <= Z.to_nat n)%nat.
Proof.
  intros Hn (Hnd & Hin & _). rewrite <-(length_seqZ 0 n). apply submseteq_length, NoDup_submseteq; [done|].
  intros i Hi%Hin. apply elem_of_seqZ. lia.
Qed.

(** An order of all operations is as good as can be for each of them. *)
Lemma full_partials (H : list (entry In Out)) n seqs longest σ : wf_history H n -> 0 <= n -> linearization model H n σ ->
  reads seqs longest = replicate (Z.to_nat n) (Some σ) ->
  length longest = Z.to_nat n /\ sound_partials H n seqs longest /\ longest_partials H n seqs longest.
Proof.
  intros Hwf Hn Hlin Hr.
  assert (partial_linearization model H n σ /\ forall i, 0 <= i < n -> i ∈ σ) as [Hpart Hall].
  { apply linearization_partial; [|done]. intros a b (i & j & r & c & _ & _ & Hj & _ & _ & _ & <-). by eapply wh_id. }
  split_and!.
  - apply (f_equal length) in Hr. unfold reads in Hr. by rewrite length_fmap, length_replicate in Hr.
  - intros i σ'. rewrite Hr. intros [[= ->] Hi]%lookup_replicate. split; [done|]. apply Hall. lia.
  - intros i σ' Hp Hi. pose proof Hp as (_ & Hran & _). specialize (Hran i Hi). exists σ.
    rewrite Hr. split; [apply lookup_replicate_2; lia|]. destruct Hlin as [Hperm _]. rewrite (Permutation_length Hperm), length_seqZ. by eapply partial_length.
Qed.

Lemma checkSingle_partials (H : list (entry In Out)) n : wf_history H n -> exists bound, forall fuel computePartial kill,
  (bound < fuel)%nat ->
  exists ok longest seqs, checkSingle model equal fuel H computePartial kill = Some (Some (ok, longest, seqs)) /\
    length longest = Z.to_nat n /\ valid seqs longest /\ sound_partials H n seqs longest /\
    (computePartial = true -> (forall i, kill i = false) -> longest_partials H n seqs longest).
Proof.
  intros Hwf. destruct (search_ready_run model H n Hwf) as (h & [Hinit Hn Hlen Hd Hnd Hnodes]).
  pose proof (built_in H n h Hwf Hlen Hnodes) as Hin. pose proof (built_call H n h Hwf Hlen Hnodes) as Hcall.
  pose proof (Inv_init model equal Hequal n h (length H) (desc (length H)) Hn Hd Hnd Hin Hcall) as Hinv.
  pose proof (Cov_init model equal Hequal n h (length H) (desc (length H)) Hn Hd Hnd Hin Hcall) as Hcov.
  eexists (measure model equal n h (desc (length H)) _ (desc (length H))). intros fuel computePartial kill Hf.
  destruct (search_loop_reports model equal Hequal n h (length H) (desc (length H)) Hn Hd Hnd Hin Hcall
    fuel computePartial kill _ _ _ _ _ Hinv Hf) as (ok & longest & seqs & Hrun & Hres).
  exists ok, longest, seqs. unfold checkSingle. rewrite Hinit. split; [exact Hrun|]. destruct ok.
  { destruct Hres as (σ & Hσ & Hr). apply (completes_linearization model H n h Hwf Hlen Hnodes) in Hσ.
    destruct (full_partials H n seqs longest σ Hwf Hn Hσ Hr) as (? & ? & ?). by split_and!; [|eapply reads_valid|..]. }
  destruct Hres as [Hl Hrep]. split_and!; [done|by eapply reported_valid| |].
  - intros i σ (k & Hk & Hσ)%reads_lookup. destruct (Hrep i k Hk) as (σ' & S & s & Hσ' & Hi & Hp).
    rewrite Hσ in Hσ'. injection Hσ' as <-. split; [|done]. apply (path_partial_linearization model H n h Hwf Hlen Hnodes). by exists S, s.
  - intros -> Hk i σ Hp Hi. pose proof Hp as (Hnds & _).
    pose proof (search_loop_covered model equal Hequal n h (length H) (desc (length H)) Hn Hd Hnd Hin Hcall
      fuel kill _ _ _ _ _ longest seqs Hk Hinv Hcov Hrun) as Hc.
    apply (path_partial_linearization model H n h Hwf Hlen Hnodes) in Hp as (S & s & Hp).
    pose proof Hp as [_ ES]%(path_part model H n h Hwf Hlen Hnodes); [|by intros j Hj].
    destruct (Hc σ S s Hp i) as (k & σ' & Hk' & Hσ' & Hle); [set_solver|]. exists σ'. split; [apply reads_lookup; by exists k|].
    rewrite ES, size_union, size_empty, size_list_to_set in Hle by set_solver. lia.
Qed.
End check.

(** ** The partitions of a check *)

Lemma mapM_all {A B} (f : A -> option B) (l : list A) : (forall x, x ∈ l -> is_Some (f x)) ->
  exists k, mapM f l = Some k /\ Forall2 (fun x y => f x = Some y) l k.
Proof.
  intros Hl. destruct (proj2 (mapM_is_Some f l)) as [k Hk]; [by apply Forall_forall|].
  exists k. split; [done|by apply mapM_Some].
Qed.

(** ** The sequences as a set *)

Lemma longest_set_lookup longest k : longest_set longest !! k = Some tt <-> Some k ∈ longest.
Proof.
  unfold longest_set. induction longest as [|v longest IH] using rev_ind; [set_solver|].
  rewrite foldl_app, elem_of_app, list_elem_of_singleton. cbn. destruct v as [v|]; [|rewrite IH; naive_solver].
  destruct (decide (k = v)) as [->|Hne]; [rewrite lookup_insert_eq; naive_solver|].
  rewrite lookup_insert_ne by done. rewrite IH. naive_solver.
Qed.

Lemma partials_of_run `{MapOrderLaws} longest seqs : valid seqs longest -> exists l, partials_of longest seqs = Some l /\
  forall σ, σ ∈ l <-> exists i, reads seqs longest !! i = Some (Some σ).
Proof.
  intros Hval. assert (Hk : forall k, k ∈ fst <$> range (longest_set longest) <-> Some k ∈ longest).
  { intros k. rewrite <-longest_set_lookup, <-elem_of_range, list_elem_of_fmap. split.
    - by intros ([? []] & -> & ?).
    - intros ?. by exists (k, tt). }
  unfold partials_of. destruct (mapM_all (fun k => (fun arr => copy_into (replicate (length arr) 0) arr) <$> seqs !! k)
    (fst <$> range (longest_set longest))) as (l & -> & Hl).
  { intros k [i Hi]%Hk%list_elem_of_lookup_1. by apply fmap_is_Some, (Hval i). }
  exists l. split; [done|]. intros σ. split.
  - intros [j Hj]%list_elem_of_lookup_1. destruct (Forall2_lookup_r _ _ _ _ _ Hl Hj) as (k & Hkj & Hσ).
    apply list_elem_of_lookup_2, Hk, list_elem_of_lookup_1 in Hkj as [i Hi]. exists i. apply reads_lookup. exists k. split; [done|].
    destruct (seqs !! k); [|done]. cbn in Hσ. by rewrite copy_into_replicate in Hσ.
  - intros (i & (k & Hi & Hσ)%reads_lookup). apply list_elem_of_lookup_2, Hk, list_elem_of_lookup_1 in Hi as [j Hj].
    destruct (Forall2_lookup_l _ _ _ _ _ Hl Hj) as (σ' & Hj' & E). rewrite Hσ in E. cbn in E. rewrite copy_into_replicate in E.
    injection E as <-. by apply list_elem_of_lookup_2 in Hj'.
Qed.

(** ** What arrives *)

(** The loop receives the first [k] results, and stops early only for a timeout or for a
    result that settles the answer. *)
Lemma receive_loop_run computeInfo total (oks : list bool) tail ok count :
  (oks <> [] /\ count + len oks = total) \/ (head tail = Some None /\ count + len oks <= total) ->
  exists k timedOut, (k <= length oks)%nat /\
    receive_loop computeInfo total ((Some <$> oks) ++ tail) ok count
      = Some (ok && forallb id (take k oks), timedOut, count + Z.of_nat k) /\
    (timedOut = true -> head tail = Some None) /\
    (timedOut = false -> count + Z.of_nat k = total \/ (computeInfo = false /\ ok && forallb id (take k oks) = false)).
Proof.
  revert ok count. induction oks as [|b oks IH]; intros ok count Hor.
  { destruct Hor as [[? _]|[Ht _]]; [done|]. exists 0%nat, true. destruct tail as [|[]]; [done..|].
    cbn. rewrite andb_true_r, Z.add_0_r. by split_and!. }
  cbn [fmap list_fmap app receive_loop]. destruct (negb (ok && b) && negb computeInfo) eqn:E.
  { apply andb_true_iff in E as [E Ec]. exists 1%nat, false. cbn. rewrite andb_true_r. split_and!; [lia|done|done|].
    intros _. right. split; [by apply negb_true_iff|by apply negb_true_iff]. }
  case_decide as Ht.
  { exists 1%nat, false. cbn. rewrite andb_true_r. split_and!; [lia|done|done|]. intros _. left.
    destruct Hor as [[_ Hc]|[_ Hc]]; cbn in Hc; lia. }
  destruct (IH (ok && b) (count + 1)) as (k & timedOut & Hk & Hrun & Hto & Hfin).
  { destruct Hor as [[_ Hc]|[Hh Hc]]; cbn in Hc; [left|right; split; [done|lia]]. split; [|lia]. intros ->. cbn in *. lia. }
  exists (S k), timedOut. rewrite Hrun. cbn [take forallb]. unfold id in *. rewrite andb_assoc.
  replace (count + 1 + Z.of_nat k) with (count + Z.of_nat (S k)) in * by lia. split_and!; [cbn; lia|done|done|done].
Qed.

Section parallel.
Context {In Out St : Type} (model : Model In Out St) `{EqDecision St} `{MapOrderLaws}.
Implicit Types (sub : list (entry In Out)) (history : list (list (entry In Out))).

(** The equality of the model is equality. *)
Definition exact_Equal : Prop := forall s s', default_Equal model s s' = true <-> s = s'.

Lemma default_exact : Equal model = None -> exact_Equal.
Proof. intros E s s'. unfold default_Equal. rewrite E. cbn. unfold ShallowEqual. apply bool_decide_eq_true. Qed.

(** The operations of a partition, and that it can be ordered. *)
Definition ops sub : Z := len sub / 2.
Definition orderable sub : Prop := exists σ, linearization model sub (ops sub) σ.

Lemma wf_ops sub n : wf_history sub n -> ops sub = n.
Proof. intros Hwf. unfold ops. rewrite (wh_len _ _ Hwf), Z.mul_comm. apply Z.div_mul. lia. Qed.

(** The sequences kept for a partition, and that they are as long as can be. *)
Definition sound_set sub (partials : list (list Z)) : Prop :=
  forall σ, σ ∈ partials -> partial_linearization model sub (ops sub) σ /\ σ <> [].
Definition longest_set_for sub (partials : list (list Z)) : Prop :=
  forall a σ, partial_linearization model sub (ops sub) σ -> a ∈ σ ->
    exists σ', σ' ∈ partials /\ a ∈ σ' /\ (length σ <= length σ')%nat.

Record partition_facts (fuel : nat) (i : nat) sub : Prop := {
  pf_single computeInfo : exists ok longest seqs,
    checkSingle model (default_Equal model) fuel sub computeInfo (fun _ => false) = Some (Some (ok, longest, seqs)) /\
    (ok = true <-> orderable sub);
  pf_partials received late : exists partials, partition_partials model fuel received late i sub = Some partials /\
    sound_set sub partials /\ (Some i ∈ received \/ (forall k, late i k = false) -> longest_set_for sub partials)
}.

Lemma partition_run sub : exact_Equal -> wf_history sub (ops sub) ->
  exists bound, forall fuel i, (bound < fuel)%nat -> partition_facts fuel i sub.
Proof.
  intros Heq Hwf. destruct (checkSingle_run model (default_Equal model) Heq sub _ Hwf) as [b1 Hb1].
  destruct (checkSingle_partials model (default_Equal model) Heq sub _ Hwf) as [b2 Hb2].
  exists (Nat.max b1 b2). intros fuel i Hf. split.
  - intros ci. destruct (Hb1 fuel ci (fun _ => false)) as (ok & longest & seqs & Hrun & Hres); [lia|done|].
    exists ok, longest, seqs. split; [done|]. destruct ok.
    + split; [|done]. intros _. destruct Hres as (σ & ? & _). by exists σ.
    + split; [done|]. intros [σ Hσ]. by destruct (Hres σ).
  - intros received late. unfold partition_partials. set (kill := if decide _ then _ else _).
    destruct (Hb2 fuel true kill ltac:(lia)) as (ok & longest & seqs & -> & Hlen & Hval & Hs & Hl).
    destruct (partials_of_run longest seqs Hval) as (l & -> & Hin). exists l. split_and!; [done| |].
    + intros σ (j & Hj)%Hin. destruct (Hs j σ Hj) as [? Hj']. split; [done|]. intros ->. set_solver.
    + intros Hor a σ Hp Ha. destruct (Hl eq_refl) with (i := a) (σ := σ) as (σ' & Hσ' & Hle); [|done|done|].
      * intros k. unfold kill. case_decide; [done|]. destruct Hor as [?|Hlate]; [done|apply Hlate].
      * exists σ'. split_and!; [apply Hin; by eexists| |done]. pose proof Hp as (_ & Hran & _). specialize (Hran a Ha).
        destruct (Hs _ _ Hσ') as [_ Hi]. by rewrite Z2Nat.id in Hi by lia.
Qed.

(** One bound for all partitions. *)
Lemma partitions_run history : exact_Equal -> (forall sub, sub ∈ history -> wf_history sub (ops sub)) ->
  exists bound, forall fuel i sub, (bound < fuel)%nat -> sub ∈ history -> partition_facts fuel i sub.
Proof.
  intros Heq. induction history as [|sub history IH]; intros Hwf; [exists 0%nat; set_solver|].
  destruct IH as [b1 Hb1]; [set_solver|]. destruct (partition_run sub Heq) as [b2 Hb2]; [set_solver|].
  exists (Nat.max b1 b2). intros fuel i sub' Hf [->|Hin]%elem_of_cons; [apply Hb2; lia|apply Hb1; [lia|done]].
Qed.

(** An order of arrival: each goroutine once, or a timeout before all of them. *)
Definition arrival_order (m : nat) (order : list (option nat)) : Prop :=
  exists o tail, order = (Some <$> o) ++ tail /\ NoDup o /\ (forall i, i ∈ o -> (i < m)%nat) /\
    ((tail = [] /\ o <> [] /\ length o = m) \/ (tail = [None] /\ (length o <= m)%nat)).

(** What is said of a result and the information that comes with it. *)
Record check_facts history (computeInfo : bool) (order : list (option nat))
    (res : CheckResult) (info : linearizationInfo In Out) : Prop := {
  kf_ok : res = Ok -> forall sub, sub ∈ history -> orderable sub;
  kf_illegal : res = Illegal -> exists sub, sub ∈ history /\ ~ orderable sub;
  kf_unknown : res = Unknown -> None ∈ order;
  kf_info : computeInfo = true -> li_history info = history /\
    Forall2 sound_set history (li_partialLinearizations info);
  kf_longest : computeInfo = true -> None ∉ order ->
    Forall2 longest_set_for history (li_partialLinearizations info)
}.

Section facts.
Variables (history : list (list (entry In Out))) (fuel : nat).
Hypothesis Hfacts : forall i sub, sub ∈ history -> partition_facts fuel i sub.

(** The results of the goroutines heard of are right. *)
Definition heard (o : list nat) (oks : list bool) : Prop :=
  Forall2 (fun i ok => exists sub, history !! i = Some sub /\ (ok = true <-> orderable sub)) o oks.

Lemma arrived_run computeInfo (o : list nat) : (forall i, i ∈ o -> (i < length history)%nat) -> exists oks,
  mapM (arrived model fuel history computeInfo) (Some <$> o) = Some (Some <$> oks) /\
  heard o oks.
Proof.
  induction o as [|i o IH]; intros Ho; [exists []; by split; [|constructor]|]. destruct IH as (oks & Hm & Hf); [set_solver|].
  destruct (lookup_lt_is_Some_2 history i) as [sub Hsub]; [apply Ho; set_solver|].
  destruct (pf_single _ _ _ (Hfacts i sub (list_elem_of_lookup_2 _ _ _ Hsub)) computeInfo) as (ok & longest & seqs & Hrun & Hok).
  exists (ok :: oks). split; [|constructor; [by exists sub|done]].
  assert (Ha : arrived model fuel history computeInfo (Some i) = Some (Some ok)) by (unfold arrived; by rewrite Hsub, Hrun).
  cbn -[arrived]. rewrite Ha. cbn -[arrived]. by rewrite Hm.
Qed.

(** Hearing from as many goroutines as there are is hearing from all. *)
Lemma all_there (o : list nat) i : NoDup o -> (forall i, i ∈ o -> (i < length history)%nat) -> (length history <= length o)%nat ->
  (i < length history)%nat -> i ∈ o.
Proof.
  intros Hnd Ho Hlen Hi. assert (o ≡ₚ seq 0 (length history)) as ->; [|apply elem_of_seq; lia].
  apply submseteq_length_Permutation; [|by rewrite length_seq]. apply NoDup_submseteq; [done|].
  intros j Hj%Ho. apply elem_of_seq. lia.
Qed.

Lemma one_heard (o : list nat) (oks : list bool) k : heard o oks -> forallb id (take k oks) = false ->
  exists sub, sub ∈ history /\ ~ orderable sub.
Proof.
  intros Hoks Hf. assert (false ∈ oks) as [j Hj]%list_elem_of_lookup_1.
  { apply (subseteq_take k oks). revert Hf. induction (take k oks) as [|[] l IH]; cbn; [done| |]; set_solver. }
  destruct (Forall2_lookup_r _ _ _ _ _ Hoks Hj) as (i & _ & sub & Hsub & Hiff). exists sub.
  split; [by apply list_elem_of_lookup_2 in Hsub|]. by intros ?%Hiff.
Qed.

Lemma all_heard (o : list nat) (oks : list bool) k : heard o oks -> NoDup o -> (forall i, i ∈ o -> (i < length history)%nat) ->
  (length history <= k)%nat -> (k <= length oks)%nat -> forallb id (take k oks) = true ->
  forall sub, sub ∈ history -> orderable sub.
Proof.
  intros Hoks Hnd Ho Hk Hk' Hf sub [i Hi]%list_elem_of_lookup_1. pose proof (Forall2_length _ _ _ Hoks) as Hlen.
  pose proof (all_there o i Hnd Ho ltac:(lia) (lookup_lt_Some _ _ _ Hi)) as [j Hj]%list_elem_of_lookup_1.
  assert (length o <= length history)%nat as Hle.
  { rewrite <-(length_seq (length history) 0). apply submseteq_length, NoDup_submseteq; [done|]. intros x Hx%Ho. apply elem_of_seq. lia. }
  destruct (Forall2_lookup_l _ _ _ _ _ Hoks Hj) as (ok & Hok & sub' & Hsub & Hiff). rewrite Hi in Hsub. injection Hsub as <-.
  rewrite take_ge, forallb_forall in Hf by lia. apply Hiff, (Hf ok), list_elem_of_In. by apply list_elem_of_lookup_2 in Hok.
Qed.

(** The sequences of all partitions. *)
Lemma infos_run (received : list (option nat)) late : exists partials,
  mapM (fun '(i, subhistory) => partition_partials model fuel received late i subhistory)
    (zip (seq 0 (length history)) history) = Some partials /\
  Forall2 sound_set history partials /\
  ((forall i, (i < length history)%nat -> Some i ∈ received \/ (forall k, late i k = false)) -> Forall2 longest_set_for history partials).
Proof.
  assert (Hzip : forall j i sub, zip (seq 0 (length history)) history !! j = Some (i, sub) -> i = j /\ history !! j = Some sub).
  { intros j i sub Hj. rewrite lookup_zip_Some in Hj. destruct Hj as [[E _]%lookup_seq Hsub]. by cbn in E. }
  destruct (mapM_all (fun '(i, subhistory) => partition_partials model fuel received late i subhistory)
    (zip (seq 0 (length history)) history)) as (partials & Hm & Hall).
  { intros [i sub] [j Hj]%list_elem_of_lookup_1. apply Hzip in Hj as [-> Hsub].
    destruct (pf_partials _ _ _ (Hfacts j sub (list_elem_of_lookup_2 _ _ _ Hsub)) received late) as (l & -> & _). by eexists. }
  assert (Hlen : length history = length partials).
  { rewrite <-(Forall2_length _ _ _ Hall), length_zip, length_seq. lia. }
  assert (Hpt : forall j sub l, history !! j = Some sub -> partials !! j = Some l ->
    sound_set sub l /\ (Some j ∈ received \/ (forall k, late j k = false) -> longest_set_for sub l)).
  { intros j sub l Hsub Hl. destruct (Forall2_lookup_r _ _ _ _ _ Hall Hl) as ([i sub'] & Hj & Hrun).
    apply Hzip in Hj as [-> Hsub']. rewrite Hsub in Hsub'. injection Hsub' as <-.
    destruct (pf_partials _ _ _ (Hfacts j sub (list_elem_of_lookup_2 _ _ _ Hsub)) received late) as (l' & Hrun' & ? & ?).
    rewrite Hrun in Hrun'. by injection Hrun' as <-. }
  exists partials. split_and!; [done| |].
  - apply Forall2_same_length_lookup. split; [done|]. intros j sub l Hsub Hl. by apply (Hpt j).
  - intros Hrec. apply Forall2_same_length_lookup. split; [done|]. intros j sub l Hsub Hl.
    apply (Hpt j); [done..|]. apply Hrec. by eapply lookup_lt_Some.
Qed.

Lemma checkParallel_facts computeInfo order late : arrival_order (length history) order ->
  exists res info, checkParallel model fuel history computeInfo order late = Some (res, info) /\
    check_facts history computeInfo order res info.
Proof.
  intros (o & tail & -> & Hnd & Ho & Htail). destruct (arrived_run computeInfo o Ho) as (oks & Hm & Hoks).
  pose proof (Forall2_length _ _ _ Hoks) as Hlen. unfold checkParallel.
  assert (mapM (arrived model fuel history computeInfo) ((Some <$> o) ++ tail) = Some ((Some <$> oks) ++ ((fun _ => None) <$> tail))) as ->.
  { apply mapM_Some, Forall2_app; [by apply mapM_Some|]. destruct Htail as [[-> _]|[-> _]]; by repeat constructor. }
  destruct (receive_loop_run computeInfo (len history) oks ((fun _ => None) <$> tail) true 0) as (k & timedOut & Hk & -> & Hto & Hfin).
  { destruct Htail as [(-> & Hne & Hl)|[-> Hl]]; [left|right; split; [done|lia]].
    split; [|lia]. intros ->. by destruct o. }
  cbn [andb] in *. rewrite !Z.add_0_l in *. rewrite Nat2Z.id.
  assert (Htk : take k ((Some <$> o) ++ tail) = Some <$> take k o).
  { rewrite take_app_le by (rewrite length_fmap; lia). by rewrite fmap_take. }
  set (result := if negb (forallb id (take k oks)) then Illegal else if timedOut then Unknown else Ok).
  assert (Hres : forall info, (computeInfo = true -> li_history info = history /\ Forall2 sound_set history (li_partialLinearizations info)) ->
    (computeInfo = true -> None ∉ (Some <$> o) ++ tail -> Forall2 longest_set_for history (li_partialLinearizations info)) ->
    check_facts history computeInfo ((Some <$> o) ++ tail) result info).
  { intros info Hi1 Hi2. unfold result. split; [| | |done|done]; destruct (forallb id (take k oks)) eqn:Ef; destruct timedOut; try done.
    - intros _. apply (all_heard o oks k); [done..| |done|done]. destruct (Hfin eq_refl) as [?|[_ ?]]; [lia|done].
    - intros _. by apply (one_heard o oks k).
    - intros _. by apply (one_heard o oks k).
    - intros _. specialize (Hto eq_refl). destruct Htail as [[-> _]|[-> _]]; [done|]. set_solver. }
  destruct computeInfo; [|eexists _, _; split; [done|by apply Hres]].
  rewrite Htk. destruct (infos_run (Some <$> take k o) late) as (partials & -> & Hs & Hl). cbn.
  eexists _, _. split; [done|]. apply Hres; [done|]. intros _ Hnone. apply Hl. intros i Hi. left.
  destruct timedOut; [exfalso; specialize (Hto eq_refl); destruct Htail as [[-> _]|[-> _]]; [done|set_solver]|].
  destruct (Hfin eq_refl) as [E|[? _]]; [|done]. rewrite take_ge by lia. apply list_elem_of_fmap. exists i. split; [done|].
  apply (all_there o); [done|done|lia|done].
Qed.
End facts.

(** The answer of [checkParallel], with enough fuel for every partition. *)
Lemma checkParallel_run history : exact_Equal -> (forall sub, sub ∈ history -> wf_history sub (ops sub)) ->
  exists bound, forall fuel computeInfo order late, (bound < fuel)%nat -> arrival_order (length history) order ->
    exists res info, checkParallel model fuel history computeInfo order late = Some (res, info) /\
      check_facts history computeInfo order res info.
Proof.
  intros Heq Hwf. destruct (partitions_run history Heq Hwf) as [bound Hb]. exists bound.
  intros fuel ci order late Hf Ho. apply checkParallel_facts; [|done]. intros i sub Hin. by apply Hb.
Qed.
End parallel.
