(* ===== verification/PorcupineTimed.v ===== *)
(** * Timed operations, partitions and the key/value model

    The entries of timed operations form a well-formed history in which one operation
    precedes another exactly when it returned before the other was called, by the clock; so
    [checkOperations] decides linearizability in real time, partition by partition. *)
From stdpp Require Import sorting.
From S2P Require Import Prelude Porcupine PorcupineHeap PorcupineBits PorcupineSearch PorcupineHistory PorcupineProps.

Section timed.
Context {In Out St : Type} (model : Model In Out St) `{SortByTimeLaws}.
Implicit Types (hist : list (Operation In Out)).

Definition call_entry (id : Z) (op : Operation In Out) : entry In Out :=
  mkEntry CallEvent (inl (op_Input op)) id (Call op) (ClientId op).
Definition return_entry (id : Z) (op : Operation In Out) : entry In Out :=
  mkEntry ReturnEvent (inr (op_Output op)) id (Return op) (ClientId op).

Lemma elem_of_loop hist k e : e ∈ makeEntries_loop hist k <->
  exists i op, hist !! i = Some op /\ (e = call_entry (k + Z.of_nat i) op \/ e = return_entry (k + Z.of_nat i) op).
Proof.
  revert k. induction hist as [|op hist IH]; intros k; cbn.
  - split; [set_solver|]. by intros (i & op & Hi & _).
  - rewrite !elem_of_cons, IH. split.
    + intros [->|[->|(i & op' & Hi & Hor)]].
      * exists 0%nat, op. rewrite Z.add_0_r. by split; [|left].
      * exists 0%nat, op. rewrite Z.add_0_r. by split; [|right].
      * exists (S i), op'. split; [done|]. by replace (k + Z.of_nat (S i)) with (k + 1 + Z.of_nat i) by lia.
    + intros (i & op' & Hi & Hor). destruct i as [|i]; cbn in Hi.
      * injection Hi as <-. rewrite Z.add_0_r in Hor. destruct Hor as [-> | ->]; auto.
      * right. right. exists i, op'. split; [done|]. by replace (k + 1 + Z.of_nat i) with (k + Z.of_nat (S i)) by lia.
Qed.

Lemma loop_NoDup hist k : NoDup ((fun e => (e_id e, e_kind e)) <$> makeEntries_loop hist k).
Proof.
  revert k. induction hist as [|op hist IH]; intros k; cbn; [constructor|].
  assert (Hout : forall kd, (k, kd) ∉ (fun e : entry In Out => (e_id e, e_kind e)) <$> makeEntries_loop hist (k + 1)).
  { intros kd (e & E & (i & op' & _ & Hor)%elem_of_loop)%list_elem_of_fmap.
    destruct Hor as [-> | ->]; cbn in E; injection E; intros; lia. }
  constructor; [|constructor; [apply Hout|apply IH]]. rewrite elem_of_cons. intros [[=]|Hx]. by apply (Hout CallEvent).
Qed.
Lemma loop_length hist k : length (makeEntries_loop hist k) = (2 * length hist)%nat.
Proof. revert k. induction hist as [|op hist IH]; intros k; cbn; [done|]. rewrite IH. lia. Qed.

Lemma makeEntries_elem hist e : e ∈ makeEntries hist <->
  exists i op, hist !! i = Some op /\ (e = call_entry (Z.of_nat i) op \/ e = return_entry (Z.of_nat i) op).
Proof. unfold makeEntries. rewrite sort_byTime_perm. apply elem_of_loop. Qed.

(** In the sorted entries, what is not [Less] does not come first. *)
Lemma makeEntries_order hist i j a b : makeEntries hist !! i = Some a -> makeEntries hist !! j = Some b ->
  Less a b = true -> (i < j)%nat.
Proof.
  intros Hi Hj Hl. pose proof (sort_byTime_sorted (makeEntries_loop hist 0)) as Hs. fold (makeEntries hist) in Hs.
  assert (Hgen : forall (l : list (entry In Out)) p q x y, StronglySorted (fun a b => Less b a = false) l ->
    (p < q)%nat -> l !! p = Some x -> l !! q = Some y -> Less y x = false).
  { clear. induction l as [|z l IH]; intros p q x y Hs Hpq Hp Hq; [done|].
    apply StronglySorted_inv in Hs as [Hs Hz]. destruct q as [|q]; [lia|]. cbn in Hq. destruct p as [|p]; cbn in Hp.
    - injection Hp as ->. rewrite Forall_forall in Hz. apply Hz. by apply list_elem_of_lookup_2 in Hq.
    - apply (IH p q x y); [done|lia|done|done]. }
  destruct (Nat.lt_trichotomy i j) as [?|[->|Hlt]]; [done| |].
  - rewrite Hi in Hj. injection Hj as ->. exfalso. revert Hl. unfold Less. rewrite decide_False by (intros ?; done).
    by destruct (e_kind b).
  - by rewrite (Hgen _ _ _ _ _ Hs Hlt Hj Hi) in Hl.
Qed.

Lemma makeEntries_NoDup hist : NoDup ((fun e => (e_id e, e_kind e)) <$> makeEntries hist).
Proof. unfold makeEntries. rewrite sort_byTime_perm. apply loop_NoDup. Qed.

Lemma makeEntries_unique hist i j e e' : makeEntries hist !! i = Some e -> makeEntries hist !! j = Some e' ->
  e_id e = e_id e' -> e_kind e = e_kind e' -> i = j.
Proof.
  intros Hi Hj Hid Hk. apply (NoDup_lookup _ i j (e_id e, e_kind e) (makeEntries_NoDup hist)).
  - by rewrite list_lookup_fmap, Hi.
  - rewrite list_lookup_fmap, Hj. cbn. congruence.
Qed.

(** The positions of an operation's entries. *)
Lemma makeEntries_positions hist i op : hist !! i = Some op -> exists p q,
  makeEntries hist !! p = Some (call_entry (Z.of_nat i) op) /\
  makeEntries hist !! q = Some (return_entry (Z.of_nat i) op).
Proof.
  intros Hi. assert (H1 : call_entry (Z.of_nat i) op ∈ makeEntries hist) by (apply makeEntries_elem; eauto).
  assert (H2 : return_entry (Z.of_nat i) op ∈ makeEntries hist) by (apply makeEntries_elem; eauto).
  apply list_elem_of_lookup_1 in H1 as [p Hp], H2 as [q Hq]. by exists p, q.
Qed.

Definition timed hist : Prop := forall op, op ∈ hist -> Call op <= Return op.

Lemma makeEntries_wf hist : timed hist -> wf_history (makeEntries hist) (len hist).
Proof.
  intros Ht. split.
  - unfold makeEntries. rewrite sort_byTime_perm, loop_length. lia.
  - intros i e Hi%list_elem_of_lookup_2%makeEntries_elem. destruct Hi as (k & op & Hk & Hor).
    apply lookup_lt_Some in Hk. destruct Hor as [-> | ->]; cbn; lia.
  - intros i e Hi%list_elem_of_lookup_2%makeEntries_elem. destruct Hi as (k & op & Hk & Hor).
    destruct Hor as [-> | ->]; cbn; eauto.
  - apply makeEntries_unique.
  - intros id Hid. destruct (lookup_lt_is_Some_2 hist (Z.to_nat id)) as [op Hop]; [lia|].
    destruct (makeEntries_positions hist _ op Hop) as (p & q & Hp & Hq). rewrite Z2Nat.id in Hp, Hq by lia.
    exists p, q, (call_entry id op), (return_entry id op). split_and!; try done.
    eapply makeEntries_order; [done|done|]. apply list_elem_of_lookup_2, Ht in Hop. unfold Less. cbn.
    case_decide; [|done]. apply bool_decide_eq_true. lia.
Qed.

(** Order in the entries is order in time. *)
Lemma precedes_time hist a b : precedes (makeEntries hist) a b <->
  exists i j opa opb, hist !! i = Some opa /\ hist !! j = Some opb /\ a = Z.of_nat i /\ b = Z.of_nat j /\
    Return opa < Call opb.
Proof.
  split.
  - intros (p & q & r & c & Hpq & Hp & Hq & Hr & Hc & Ha & Hb).
    pose proof (list_elem_of_lookup_2 _ _ _ Hp) as Hr'. pose proof (list_elem_of_lookup_2 _ _ _ Hq) as Hc'.
    apply makeEntries_elem in Hr' as (i & opa & Hi & [-> | ->]); [done|].
    apply makeEntries_elem in Hc' as (j & opb & Hj & [-> | ->]); [|done].
    exists i, j, opa, opb. split_and!; try done.
    destruct (decide (Return opa < Call opb)) as [?|Hge]; [done|exfalso].
    assert (q < p)%nat; [|lia]. eapply makeEntries_order; [done|done|]. unfold Less. cbn.
    case_decide; [|done]. apply bool_decide_eq_true. lia.
  - intros (i & j & opa & opb & Hi & Hj & -> & -> & Hlt).
    destruct (makeEntries_positions hist i opa Hi) as (_ & q & _ & Hq).
    destruct (makeEntries_positions hist j opb Hj) as (p & _ & Hp & _).
    exists q, p, (return_entry (Z.of_nat i) opa), (call_entry (Z.of_nat j) opb). split_and!; try done.
    eapply makeEntries_order; [done|done|]. unfold Less. cbn. case_decide; [|lia]. by apply bool_decide_eq_true.
Qed.

(** ** Linearizability of timed operations *)

Fixpoint legal_ops hist (s : St) (σ : list Z) : Prop :=
  match σ with
  | [] => True
  | id :: σ => exists op s', slice_get hist id = Some op /\
      Step model s (op_Input op) (op_Output op) = (true, s') /\ legal_ops hist s' σ
  end.

(** An order of the operations that the model accepts and that respects real time. *)
Definition linearizable hist : Prop :=
  exists σ, σ ≡ₚ seqZ 0 (len hist) /\ legal_ops hist (Init model) σ /\
    forall i j opa opb, hist !! i = Some opa -> hist !! j = Some opb -> Return opa < Call opb ->
      is_before σ (Z.of_nat i) (Z.of_nat j).

Lemma legal_entries hist s σ : legal model (makeEntries hist) s σ <-> legal_ops hist s σ.
Proof.
  revert s. induction σ as [|id σ IH]; intros s; cbn; [done|]. split.
  - intros (c & r & input & output & s' & Hc & Hr & Hkc & Hkr & Hic & Hir & Hvc & Hvr & Hst & Hl).
    apply makeEntries_elem in Hc as (i & op & Hi & [-> | ->]); [|done].
    apply makeEntries_elem in Hr as (j & op' & Hj & [-> | ->]); [done|]. cbn in *.
    assert (i = j) as <- by lia. rewrite Hi in Hj. injection Hj as <-. simplify_eq.
    exists op, s'. split_and!; [|done|by apply IH]. apply slice_get_Some. rewrite Nat2Z.id. split; [lia|done].
  - intros (op & s' & [Hid Hop]%slice_get_Some & Hst & Hl).
    exists (call_entry id op), (return_entry id op), (op_Input op), (op_Output op), s'.
    split_and!; try done; [apply makeEntries_elem..|by apply IH];
      exists (Z.to_nat id), op; rewrite Z2Nat.id by lia; auto.
Qed.

Lemma linearizable_entries hist : (exists σ, linearization model (makeEntries hist) (len hist) σ) <-> linearizable hist.
Proof.
  split; intros (σ & Hp & Hl & Hb); exists σ; (split; [done|]); (split; [by apply legal_entries|]).
  - intros i j opa opb Hi Hj Hlt. apply Hb, precedes_time. by exists i, j, opa, opb.
  - intros a b (i & j & opa & opb & Hi & Hj & -> & -> & Hlt)%precedes_time. by eapply Hb.
Qed.
End timed.
