(* ===== verification/PorcupineKv.v ===== *)
(** * The checker on partitions, and on the key/value model

    [checkOperations] answers Ok exactly when every partition is linearizable; with
    [KvModel] of [models/kv.go] the partitions are the operations of each key. *)
From stdpp Require Import sorting.
From S2P Require Import Prelude Porcupine PorcupineHeap PorcupineBits PorcupineSearch PorcupineHistory PorcupineProps PorcupinePartial PorcupineTimed.

(** ** The partitions of timed operations *)

Section parallel.
Context {In Out St : Type} (model : Model In Out St) `{EqDecision St} `{SortByTimeLaws} `{MapOrderLaws}.

Lemma timed_ops (sub : list (Operation In Out)) : timed sub -> ops (makeEntries sub) = len sub.
Proof. intros Ht. by apply wf_ops, makeEntries_wf. Qed.
Lemma timed_orderable (sub : list (Operation In Out)) : timed sub ->
  orderable model (makeEntries sub) <-> linearizable model sub.
Proof. intros Ht. unfold orderable. rewrite timed_ops by done. by apply linearizable_entries. Qed.

Lemma full_order m (o : list nat) : (0 < m)%nat -> o ≡ₚ seq 0 m -> arrival_order m (Some <$> o).
Proof.
  intros Hm Ho. exists o, []. assert (length o = m) by (rewrite Ho; apply length_seq). split_and!.
  - by rewrite app_nil_r.
  - rewrite Ho. apply NoDup_seq.
  - intros i. rewrite Ho, elem_of_seq. lia.
  - left. split_and!; [done| |done]. intros ->. cbn in *. lia.
Qed.

(** The check of timed operations, from what [checkParallel] is known to do. *)
Lemma timed_check_run (parts : list (list (Operation In Out))) : exact_Equal model -> (forall sub, sub ∈ parts -> timed sub) ->
  exists bound, forall fuel computeInfo order late, (bound < fuel)%nat -> arrival_order (length parts) order ->
    exists res info, checkParallel model fuel (makeEntries <$> parts) computeInfo order late = Some (res, info) /\
      check_facts model (makeEntries <$> parts) computeInfo order res info /\
      (res = Ok -> forall sub, sub ∈ parts -> linearizable model sub) /\
      (res = Illegal -> exists sub, sub ∈ parts /\ ~ linearizable model sub).
Proof.
  intros Heq Ht. destruct (checkParallel_run model (makeEntries <$> parts) Heq) as [bound Hb].
  { intros sub' (sub & -> & Hin)%list_elem_of_fmap. rewrite timed_ops by (by apply Ht). by apply makeEntries_wf, Ht. }
  exists bound. intros fuel ci order late Hf Ho.
  destruct (Hb fuel ci order late Hf) as (res & info & Hrun & Hfacts); [by rewrite length_fmap|].
  exists res, info. split_and!; [done|done| |].
  - intros Hres sub Hin. apply timed_orderable; [by apply Ht|]. apply (kf_ok _ _ _ _ _ _ Hfacts Hres). by apply list_elem_of_fmap_2.
  - intros Hres. destruct (kf_illegal _ _ _ _ _ _ Hfacts Hres) as (sub' & (sub & -> & Hin)%list_elem_of_fmap & Hno).
    exists sub. split; [done|]. by rewrite <-timed_orderable by (by apply Ht).
Qed.

(** [checkOperations] never gives a wrong answer about the partitions, in whatever order
    their goroutines finish and whether or not the time runs out: [Ok] means that every
    partition is linearizable in real time, [Illegal] that one is not, and [Unknown] comes
    only with a timeout. *)
Theorem checkOperations_correct (history : list (Operation In Out)) :
  exact_Equal model -> (forall sub, sub ∈ default_Partition model history -> timed sub) ->
  exists bound, forall fuel verbose order late, (bound < fuel)%nat ->
    arrival_order (length (default_Partition model history)) order ->
    exists res info, checkOperations model fuel history verbose order late = Some (res, info) /\
      (res = Ok -> forall sub, sub ∈ default_Partition model history -> linearizable model sub) /\
      (res = Illegal -> exists sub, sub ∈ default_Partition model history /\ ~ linearizable model sub) /\
      (res = Unknown -> None ∈ order).
Proof.
  intros Heq Ht. destruct (timed_check_run (default_Partition model history) Heq Ht) as [bound Hb]. exists bound.
  intros fuel verbose order late Hf Ho. destruct (Hb fuel verbose order late Hf Ho) as (res & info & Hrun & Hk & Hok & Hill).
  exists res, info. split_and!; [exact Hrun|done|done|]. apply (kf_unknown _ _ _ _ _ _ Hk).
Qed.
End parallel.

(** ** The key/value model *)
Section kv.
Context `{MapOrderLaws} `{SortByTimeLaws}.
Abbreviation Op := (Operation KvInput KvOutput).

Definition on_key (k : string) (history : list Op) : list Op := filter (fun v => kv_Key (op_Input v) = k) history.

Definition by_key (history : list Op) (m : gmap string (list Op)) : gmap string (list Op) :=
  foldl (fun (m : gmap string (list Op)) v =>
    let key := kv_Key (op_Input v) in <[key := default [] (m !! key) ++ [v]]> m) m history.

Lemma by_key_lookup history m k :
  by_key history m !! k = match on_key k history with [] => m !! k | l => Some (default [] (m !! k) ++ l) end.
Proof.
  revert m. induction history as [|v history IH]; intros m; [done|]. cbn [by_key foldl]. unfold by_key in IH. rewrite IH.
  unfold on_key. rewrite filter_cons. fold (on_key k history). case_decide as E.
  - rewrite E, lookup_insert_eq. destruct (on_key k history); [done|]. cbn [from_option]. unfold id. by rewrite <-app_assoc.
  - by rewrite lookup_insert_ne.
Qed.

(** The partitions are the operations of each key, keys in order, each once. *)
Lemma kv_Partition_spec history : exists keys,
  kv_Partition history = (fun k => on_key k history) <$> keys /\ NoDup keys /\ StronglySorted String.le keys /\
  forall k, k ∈ keys <-> on_key k history <> [].
Proof.
  set (m := by_key history ∅). exists (merge_sort String.le (fst <$> range m)). split_and!.
  - unfold kv_Partition. apply list_fmap_ext. intros i k _. fold (by_key history ∅). rewrite by_key_lookup, lookup_empty.
    by destruct (on_key k history).
  - rewrite merge_sort_Permutation, range_keys. apply NoDup_fst_map_to_list.
  - by apply (StronglySorted_merge_sort String.le).
  - intros k. rewrite merge_sort_Permutation, list_elem_of_fmap. split.
    + intros ([k' l] & -> & Hin%elem_of_range). cbn. intros E. unfold m in Hin. rewrite by_key_lookup in Hin.
      cbn in E. rewrite E, lookup_empty in Hin. done.
    + intros Hne. destruct (m !! k) as [l|] eqn:E.
      * exists (k, l). split; [done|]. by apply elem_of_range.
      * unfold m in E. rewrite by_key_lookup in E. by destruct (on_key k history).
Qed.

Lemma kv_exact : exact_Equal KvModel.
Proof. by apply default_exact. Qed.

Lemma linearizable_nil : linearizable KvModel [].
Proof. exists []. by split_and!. Qed.

(** C31: checking a key/value history. For operations with sane times [CheckOperations]
    with [KvModel] answers true exactly when, for every key, the operations on that key
    are linearizable: some order of them that respects real time reads what puts and
    appends wrote, starting from the empty string. Neither the order Go ranges over its
    map in nor the order the goroutines finish in matters. *)
Theorem kv_check_decides history :
  history <> [] -> timed history ->
  exists bound, forall fuel order late, (bound < fuel)%nat ->
    order ≡ₚ seq 0 (length (kv_Partition history)) ->
    exists answer, CheckOperations KvModel fuel history (Some <$> order) late = Some answer /\
      (answer = true <-> forall k, linearizable KvModel (on_key k history)).
Proof.
  intros Hne Ht. destruct (kv_Partition_spec history) as (keys & Ep & _ & _ & Hkeys).
  destruct (timed_check_run KvModel (kv_Partition history) kv_exact) as [bound Hb].
  { rewrite Ep. intros sub (k & -> & _)%list_elem_of_fmap op [_ Hop]%list_elem_of_filter. by apply Ht. }
  exists bound. intros fuel order late Hf Ho.
  destruct (Hb fuel false (Some <$> order) late Hf) as (res & info & Hrun & Hk & Hok & Hill).
  { apply full_order; [|done]. rewrite Ep, length_fmap. destruct history as [|v history]; [done|].
    destruct keys; [exfalso|cbn; lia]. assert (Hv : kv_Key (op_Input v) ∈ []) by (apply Hkeys; unfold on_key; by rewrite filter_cons_True).
    set_solver. }
  exists (match res with Ok => true | _ => false end). split.
  { exact (f_equal (fmap (fun '(r, _) => match r with Ok => true | _ => false end)) Hrun). }
  assert (forall k, on_key k history <> [] -> on_key k history ∈ kv_Partition history) as Hin.
  { intros k Hke%Hkeys. rewrite Ep. by apply (list_elem_of_fmap_2 (fun k => on_key k history)). }
  destruct res.
  - exfalso. pose proof (kf_unknown _ _ _ _ _ _ Hk eq_refl) as Hx. apply list_elem_of_fmap in Hx as (? & ? & _). done.
  - split; [intros _ k|done]. destruct (on_key k history) as [|v l] eqn:E; [apply linearizable_nil|].
    rewrite <-E. apply Hok; [done|]. apply Hin. by rewrite E.
  - split; [done|]. intros Hall. exfalso. destruct (Hill eq_refl) as (sub & Hs & Hno).
    rewrite Ep in Hs. apply list_elem_of_fmap in Hs as (k & -> & _). by apply Hno.
Qed.

(** An empty history is never answered. [KvModel] splits it into no partition at all,
    no goroutine is started, and the loop that counts results waits for the first one:
    only a timeout ends it, with the answer Unknown. *)
Theorem kv_check_empty_blocks fuel verbose late :
  checkOperations KvModel fuel [] verbose [] late = None /\
  checkOperations KvModel fuel [] verbose [None] late = Some (Unknown, mkLinearizationInfo [] []).
Proof.
  assert (E : default_Partition KvModel [] = []).
  { change (kv_Partition [] = []). destruct (kv_Partition_spec []) as (keys & -> & _ & _ & Hk).
    destruct keys as [|k keys]; [done|]. exfalso. by apply (proj1 (Hk k)); [set_solver|]. }
  unfold checkOperations. rewrite E. by destruct verbose.
Qed.
End kv.

(** ** A sort, and witnesses *)

Definition time_le {I O} (a b : entry I O) : Prop := Less b a = false.
#[export] Instance time_le_dec {I O} : RelDecision (@time_le I O).
Proof. intros a b. unfold time_le. apply _. Defined.
Lemma time_le_spec {I O} (a b : entry I O) : time_le a b <->
  e_time a < e_time b \/ (e_time a = e_time b /\ (e_kind b = CallEvent -> e_kind a = CallEvent)).
Proof.
  unfold time_le, Less. case_decide as E.
  - rewrite bool_decide_eq_false. split; [lia|]. intros [?|[? _]]; lia.
  - rewrite andb_false_iff, !bool_decide_eq_false. destruct (e_kind a), (e_kind b); intuition (congruence || lia).
Qed.
#[export] Instance time_le_total {I O} : Total (@time_le I O).
Proof.
  intros a b. rewrite !time_le_spec. destruct (e_kind a), (e_kind b);
    destruct (Z.lt_trichotomy (e_time a) (e_time b)) as [?|[?|?]]; intuition (congruence || lia).
Qed.
#[export] Instance time_le_trans {I O} : Transitive (@time_le I O).
Proof. intros a b c. rewrite !time_le_spec. intuition (congruence || lia). Qed.

#[export] Instance merge_byTime : SortByTime := fun I O => merge_sort time_le.
#[export] Instance merge_byTime_laws : SortByTimeLaws.
Proof. split; intros I O l; [apply merge_sort_Permutation|by apply (StronglySorted_merge_sort time_le)]. Qed.

#[local] Existing Instance list_order.
Module Example_kv.
Abbreviation KV := (KvModel (H := list_order)).
(** A put of [x] and a get that overlaps with it; a later get. *)
Definition history : list (Operation KvInput KvOutput) := [
  mkOperation 0 (mkKvInput 1 "k" "x") 0 (mkKvOutput "") 10;
  mkOperation 1 (mkKvInput 0 "k" "") 5 (mkKvOutput "") 15;
  mkOperation 1 (mkKvInput 0 "k" "") 20 (mkKvOutput "x") 25
].
(** The same with a stale read. *)
Definition stale : list (Operation KvInput KvOutput) := [
  mkOperation 0 (mkKvInput 1 "k" "x") 0 (mkKvOutput "") 10;
  mkOperation 1 (mkKvInput 0 "k" "") 20 (mkKvOutput "") 25
].
Lemma history_timed : timed history.
Proof. unfold timed, history. intros op Hop. set_unfold. destruct Hop as [->|[->|[->|[]]]]; cbn; lia. Qed.

Example accepts : CheckOperations KV 100 history [Some 0%nat] (fun _ _ => false) = Some true.
Proof. vm_compute. reflexivity. Qed.
Example rejects : CheckOperations KV 100 stale [Some 0%nat] (fun _ _ => false) = Some false.
Proof. vm_compute. reflexivity. Qed.
End Example_kv.

Lemma checkSingle_decides_linearizability_witness :
  exists bound, forall fuel, (bound < fuel)%nat ->
  exists ok longest seqs,
    checkSingle Example_kv.KV (default_Equal Example_kv.KV) fuel (makeEntries Example_kv.history) false (fun _ => false)
      = Some (Some (ok, longest, seqs)) /\
    (ok = true <-> exists σ, linearization Example_kv.KV (makeEntries Example_kv.history) 3 σ).
Proof.
  destruct (checkSingle_decides_linearizability Example_kv.KV (default_Equal Example_kv.KV)
    (kv_exact (H := list_order)) (makeEntries Example_kv.history) 3
    (makeEntries_wf Example_kv.history Example_kv.history_timed)) as [bound Hb].
  exists bound. intros fuel Hf. destruct (Hb fuel false (fun _ => false) Hf (fun _ => eq_refl)) as (ok & l & sq & ? & ? & _).
  exists ok, l, sq. split; assumption.
Defined.

Lemma checkOperations_correct_witness :
  exists bound, forall fuel late, (bound < fuel)%nat ->
  exists res info, checkOperations Example_kv.KV fuel Example_kv.history false [Some 0%nat] late = Some (res, info) /\
    (res = Unknown -> None ∈ [Some 0%nat]).
Proof.
  destruct (checkOperations_correct Example_kv.KV Example_kv.history
    (kv_exact (H := list_order))) as [bound Hb].
  - change (forall sub, sub ∈ [Example_kv.history] -> timed sub). intros sub Hs. apply list_elem_of_singleton in Hs as ->.
    apply Example_kv.history_timed.
  - exists bound. intros fuel late Hf. destruct (Hb fuel false [Some 0%nat] late Hf) as (res & info & ? & _ & _ & ?).
    + apply (full_order 1 [0%nat]); [lia|reflexivity].
    + exists res, info. split; assumption.
Defined.

Lemma kv_check_decides_witness :
  exists bound, forall fuel late, (bound < fuel)%nat ->
  exists answer, CheckOperations Example_kv.KV fuel Example_kv.history [Some 0%nat] late = Some answer /\
    (answer = true <-> forall k, linearizable Example_kv.KV (on_key k Example_kv.history)).
Proof.
  destruct (kv_check_decides (H := list_order) Example_kv.history) as [bound Hb].
  - discriminate.
  - apply Example_kv.history_timed.
  - exists bound. intros fuel late Hf. apply (Hb fuel [0%nat] late Hf). vm_compute. reflexivity.
Defined.

Lemma kv_check_empty_blocks_witness : checkOperations Example_kv.KV 10 [] false [] (fun _ _ => false) = None.
Proof. exact (proj1 (kv_check_empty_blocks (H := list_order) 10 false (fun _ _ => false))). Defined.
