(* ===== verification/Visualization.v ===== *)
(** * porcupine/visualization.go: the data of the page

    [computeVisualizationData] turns what a verbose check returns into the data of a page:
    for every partition the operations with their times, the sequences the checker kept
    with the states along them, and for each operation the longest sequence it is in. A
    panic, an index out of range or a failed type assertion is [None]. *)
From S2P Require Import Prelude Porcupine.

Record historyElement := mkHistoryElement { he_ClientId : Z; he_Start : Z; he_End : Z; he_Description : string }.
Record linearizationStep := mkLinearizationStep { ls_Index : Z; ls_StateDescription : string }.
Abbreviation partialLinearization := (list linearizationStep).
Record partitionVisualizationData := mkPartitionVisualizationData {
  History : list historyElement;
  PartialLinearizations : list partialLinearization;
  Largest : gmap Z Z
}.
Abbreviation visualizationData := (list partitionVisualizationData).

(** [sort.Slice] by length, longest first; the order of equal lengths is open. *)
Class SortBySize := sort_bySize : list (list Z) -> list (list Z).
Class SortBySizeLaws `{SortBySize} := {
  sort_bySize_perm l : sort_bySize l ≡ₚ l;
  sort_bySize_sorted l : StronglySorted (fun a b => ~ len b > len a) (sort_bySize l)
}.

Section visualize.
Context {I O S : Type} `{EqDecision S} `{Sprint} `{SortBySize} (model : Model I O S).

(** *** The operations *)

Record Values := mkValues {
  vs_history : list historyElement;
  vs_callValue : gmap Z (Value I O);
  vs_returnValue : gmap Z (Value I O)
}.

(** The two cases of the [switch]. The zero value of a missing key is not of a type the
    model can assert. *)
Definition history_step (elem : entry I O) (vs : Values) : option Values :=
  match slice_get (vs_history vs) (e_id elem) with
  | None => None
  | Some x =>
      match e_kind elem with
      | CallEvent =>
          (fun history => mkValues history (<[e_id elem := e_value elem]> (vs_callValue vs)) (vs_returnValue vs)) <$>
            slice_set (vs_history vs) (e_id elem) (mkHistoryElement (e_clientId elem) (e_time elem) (he_End x) (he_Description x))
      | ReturnEvent =>
          match (vs_callValue vs !! e_id elem : option (Value I O)), e_value elem with
          | Some (inl input), inr output =>
              (fun history => mkValues history (vs_callValue vs) (<[e_id elem := e_value elem]> (vs_returnValue vs))) <$>
                slice_set (vs_history vs) (e_id elem)
                  (mkHistoryElement (he_ClientId x) (he_Start x) (e_time elem) (default_DescribeOperation model input output))
          | _, _ => None
          end
      end
  end.
Fixpoint history_loop (elems : list (entry I O)) (vs : Values) : option Values :=
  match elems with
  | [] => Some vs
  | elem :: elems => match history_step elem vs with Some vs => history_loop elems vs | None => None end
  end.

(** *** The sequences *)

Record Largests := mkLargests { lg_index : gmap Z Z; lg_size : gmap Z Z }.

(** The loop over one sequence, of length [size] at index [i]. *)
Fixpoint partial_loop (vs : Values) (i size : Z) (partial : list Z) (state : S) (lg : Largests)
  : option (partialLinearization * Largests) :=
  match partial with
  | [] => Some ([], lg)
  | histId :: partial =>
      match (vs_callValue vs !! histId : option (Value I O)), (vs_returnValue vs !! histId : option (Value I O)) with
      | Some (inl input), Some (inr output) =>
          let '(ok, state) := Step model state input output in
          if negb ok then None
          else
            let stateDesc := default_DescribeState model state in
            let lg := if decide (default 0 (lg_size lg !! histId) < size)
                      then mkLargests (<[histId := i]> (lg_index lg)) (<[histId := size]> (lg_size lg))
                      else lg in
            (fun '(steps, lg) => (mkLinearizationStep histId stateDesc :: steps, lg)) <$> partial_loop vs i size partial state lg
      | _, _ => None
      end
  end.

Fixpoint partials_loop (vs : Values) (i : Z) (partials : list (list Z)) (lg : Largests)
  : option (list partialLinearization * Largests) :=
  match partials with
  | [] => Some ([], lg)
  | partial :: partials =>
      match partial_loop vs i (len partial) partial (Init model) lg with
      | Some (linearization, lg) =>
          (fun '(linearizations, lg) => (linearization :: linearizations, lg)) <$> partials_loop vs (i + 1) partials lg
      | None => None
      end
  end.

(** One round over the partitions: the data, and the sequences, sorted in place. *)
Definition visualize_partition (entries : list (entry I O)) (partials : list (list Z))
  : option (partitionVisualizationData * list (list Z)) :=
  let n := len entries / 2 in
  match history_loop entries (mkValues (replicate (Z.to_nat n) (mkHistoryElement 0 0 0 "")) ∅ ∅) with
  | None => None
  | Some vs =>
      let partials := sort_bySize partials in
      (fun '(linearizations, lg) => (mkPartitionVisualizationData (vs_history vs) linearizations (lg_index lg), partials)) <$>
        partials_loop vs 0 partials (mkLargests ∅ ∅)
  end.

(** The loop over [info.history]; the slices of [info] that are left have been sorted. *)
Fixpoint visualize_loop (history : list (list (entry I O))) (partialLinearizations : list (list (list Z)))
  : option (visualizationData * list (list (list Z))) :=
  match history, partialLinearizations with
  | [], rest => Some ([], rest)
  | _ :: _, [] => None
  | entries :: history, partials :: rest =>
      match visualize_partition entries partials with
      | None => None
      | Some (d, partials) => (fun '(data, rest) => (d :: data, partials :: rest)) <$> visualize_loop history rest
      end
  end.
Definition computeVisualizationData (info : linearizationInfo I O) : option (visualizationData * linearizationInfo I O) :=
  (fun '(data, partials) => (data, mkLinearizationInfo (li_history info) partials)) <$>
    visualize_loop (li_history info) (li_partialLinearizations info).
End visualize.
