(* ===== verification/VisualizationProps.v ===== *)
(** * The page shows what the checker found

    On the entries of a well-formed history and partial linearizations of it,
    [computeVisualizationData] does not panic; it shows every operation with its times and
    description, every sequence with the states along it, and for each operation an index
    of a longest sequence that has it. *)
From stdpp Require Import sorting.
From S2P Require Import Prelude Porcupine PorcupineHeap PorcupineBits PorcupineSearch PorcupineHistory PorcupineProps PorcupinePartial PorcupineTimed PorcupineKv Visualization.

Section visualize.
Context {In Out St : Type} `{EqDecision St} `{Sprint} `{SortBySizeLaws} (model : Model In Out St).
Implicit Types (sub P : list (entry In Out)).

(** ** The operations *)

(** What the loop over the entries knows after those of [P]. *)
Record shown P (vs : Values (I := In) (O := Out)) : Prop := {
  sh_call c : c ∈ P -> e_kind c = CallEvent -> vs_callValue vs !! e_id c = Some (e_value c);
  sh_return r : r ∈ P -> e_kind r = ReturnEvent -> vs_returnValue vs !! e_id r = Some (e_value r);
  sh_start c : c ∈ P -> e_kind c = CallEvent -> exists x, slice_get (vs_history vs) (e_id c) = Some x /\
    he_ClientId x = e_clientId c /\ he_Start x = e_time c;
  sh_end c r input output : c ∈ P -> r ∈ P -> e_kind c = CallEvent -> e_kind r = ReturnEvent -> e_id c = e_id r ->
    e_value c = inl input -> e_value r = inr output ->
    slice_get (vs_history vs) (e_id c) =
      Some (mkHistoryElement (e_clientId c) (e_time c) (e_time r) (default_DescribeOperation model input output))
}.

Section history.
Variables (sub : list (entry In Out)) (n : Z).
Hypothesis Hwf : wf_history sub n.

(** An entry and those before it: its call comes first, and no other is of its kind. *)
Lemma entry_new P e rest x : sub = P ++ e :: rest -> x ∈ P -> e_id x = e_id e -> e_kind x <> e_kind e.
Proof.
  intros E [i Hi]%list_elem_of_lookup_1 Hid Hk. pose proof (lookup_lt_Some _ _ _ Hi).
  assert (i = length P); [|lia]. apply (wh_unique _ _ Hwf _ _ x e); [|by rewrite E; apply list_lookup_middle|done|done].
  rewrite E. by apply lookup_app_l_Some.
Qed.
Lemma call_before P r rest : sub = P ++ r :: rest -> e_kind r = ReturnEvent ->
  exists c, c ∈ P /\ e_kind c = CallEvent /\ e_id c = e_id r.
Proof.
  intros E Hr. assert (Hlk : sub !! length P = Some r) by (rewrite E; by apply list_lookup_middle).
  destruct (wh_order _ _ Hwf (e_id r) (wh_id _ _ Hwf _ _ Hlk)) as (i & j & c & r' & Hij & Hi & Hj & Hkc & Hkr & Hic & Hir).
  assert (j = length P) as -> by (apply (wh_unique _ _ Hwf _ _ r' r); [done|done|congruence|congruence]).
  exists c. split_and!; [|done|done]. rewrite E, lookup_app_l in Hi by done. by apply list_elem_of_lookup_2 in Hi.
Qed.

Lemma call_in P rest r : sub = P ++ rest -> r ∈ P -> e_kind r = ReturnEvent ->
  exists c, c ∈ P /\ e_kind c = CallEvent /\ e_id c = e_id r.
Proof.
  intros E (P1 & P2 & ->)%list_elem_of_split Hr. destruct (call_before P1 r (P2 ++ rest)) as (c & ? & ? & ?); [|done|].
  - rewrite E. by rewrite <-app_assoc.
  - exists c. set_solver.
Qed.

Lemma history_step_run P e rest vs : sub = P ++ e :: rest -> shown P vs -> length (vs_history vs) = Z.to_nat n ->
  exists vs', history_step model e vs = Some vs' /\ shown (P ++ [e]) vs' /\ length (vs_history vs') = Z.to_nat n.
Proof.
  intros E [Hc Hr Hs He] Hlen. pose proof (entry_new P e rest) as Hnew.
  assert (Hlk : sub !! length P = Some e) by (rewrite E; by apply list_lookup_middle).
  pose proof (wh_id _ _ Hwf _ _ Hlk) as Hid. pose proof (wh_value _ _ Hwf _ _ Hlk) as Hval.
  destruct (slice_get_is_Some (vs_history vs) (e_id e)) as [x Hx]; [lia|]. unfold history_step. rewrite Hx.
  destruct (e_kind e) eqn:Ek.
  - rewrite slice_set_Some by lia. cbn. eexists. split_and!; [done| |by cbn; rewrite length_insert]. split; cbn.
    + intros c [Hin| ->%list_elem_of_singleton]%elem_of_app Hk; [|by rewrite lookup_insert_eq].
      rewrite lookup_insert_ne; [by apply Hc|]. intros Eid. by apply (Hnew c E Hin); [|congruence].
    + intros r [Hin| ->%list_elem_of_singleton]%elem_of_app Hk; [by apply Hr|congruence].
    + intros c [Hin| ->%list_elem_of_singleton]%elem_of_app Hk; rewrite slice_get_insert by lia.
      * rewrite decide_False; [by apply Hs|]. intros Eid. by apply (Hnew c E Hin); [|congruence].
      * rewrite decide_True by done. by eexists.
    + intros c r input output [Hin| ->%list_elem_of_singleton]%elem_of_app [Hin'| ->%list_elem_of_singleton]%elem_of_app Hk Hk' Eid Hv Hv';
        try congruence; rewrite slice_get_insert by lia.
      * rewrite decide_False; [by eapply He|]. intros Eid'. by apply (Hnew c E Hin); [|congruence].
      * exfalso. destruct (call_in P (e :: rest) r E Hin' Hk') as (c & Hin & Hkc & Hic). apply (Hnew c E Hin); congruence.
  - destruct Hval as [output Ho]. destruct (call_before P e rest E Ek) as (c & Hin & Hkc & Hic).
    assert (Hcs : c ∈ sub) by (rewrite E; set_solver). apply list_elem_of_lookup_1 in Hcs as [i Hi].
    pose proof (wh_value _ _ Hwf _ _ Hi) as Hvc. rewrite Hkc in Hvc. destruct Hvc as [input Hin0].
    pose proof (Hc c Hin Hkc) as Hcv. rewrite Hic in Hcv. rewrite Hcv, Hin0, Ho, slice_set_Some by lia. cbn.
    destruct (Hs c Hin Hkc) as (x' & Hx' & Hcl & Hst). rewrite Hic, Hx in Hx'. injection Hx' as <-.
    eexists. split_and!; [done| |by cbn; rewrite length_insert]. split; cbn.
    + intros c' [Hin'| ->%list_elem_of_singleton]%elem_of_app Hk; [by apply Hc|congruence].
    + intros r [Hin'| ->%list_elem_of_singleton]%elem_of_app Hk; [|by rewrite lookup_insert_eq, Ho].
      rewrite lookup_insert_ne; [by apply Hr|]. intros Eid. by apply (Hnew r E Hin'); [|congruence].
    + intros c' [Hin'| ->%list_elem_of_singleton]%elem_of_app Hk; [|congruence].
      rewrite slice_get_insert by lia. case_decide as Ed; [|by apply Hs].
      destruct (Hs c' Hin' Hk) as (x' & Hx' & ? & ?). rewrite <-Ed, Hx in Hx'. injection Hx' as <-. by eexists.
    + intros c' r i' o' [Hin'| ->%list_elem_of_singleton]%elem_of_app [Hr'| ->%list_elem_of_singleton]%elem_of_app Hk Hk' Eid Hv Hv';
        try congruence; rewrite slice_get_insert by lia.
      * rewrite decide_False; [by eapply He|]. intros Eid'. apply (Hnew r E Hr'); congruence.
      * rewrite decide_True by done. destruct (Hs c' Hin' Hk) as (x' & Hx' & ? & ?). rewrite Eid, Hx in Hx'. injection Hx' as <-.
        pose proof (Hc c' Hin' Hk) as Hcv'. rewrite Eid, Hcv in Hcv'. repeat f_equal; congruence.
Qed.

(** The loop over all entries. *)
Lemma history_loop_run P rest vs : sub = P ++ rest -> shown P vs -> length (vs_history vs) = Z.to_nat n ->
  exists vs', history_loop model rest vs = Some vs' /\ shown sub vs' /\ length (vs_history vs') = Z.to_nat n.
Proof.
  revert P vs. induction rest as [|e rest IH]; intros P vs E Hsh Hlen.
  { rewrite app_nil_r in E. subst P. by exists vs. }
  destruct (history_step_run P e rest vs E Hsh Hlen) as (vs1 & Hrun & Hsh1 & Hlen1). cbn [history_loop]. rewrite Hrun.
  apply (IH (P ++ [e])); [by rewrite <-app_assoc|done|done].
Qed.
End history.

(** ** The sequences *)

(** The steps of a sequence: its operations with the states it goes through. *)
Inductive steps_of sub : St -> list Z -> list linearizationStep -> Prop :=
  | so_nil s : steps_of sub s [] []
  | so_cons s id σ c r input output s' steps :
      c ∈ sub -> r ∈ sub -> e_kind c = CallEvent -> e_kind r = ReturnEvent -> e_id c = id -> e_id r = id ->
      e_value c = inl input -> e_value r = inr output -> Step model s input output = (true, s') -> steps_of sub s' σ steps ->
      steps_of sub s (id :: σ) (mkLinearizationStep id (default_DescribeState model s') :: steps).

(** What the loop over a sequence of length [size] at index [i] does to the largest ones. *)
Definition enlarged (i size : Z) (σ : list Z) (lg lg' : Largests) : Prop := forall a,
  if decide (a ∈ σ /\ default 0 (lg_size lg !! a) < size) then lg_index lg' !! a = Some i /\ lg_size lg' !! a = Some size
  else lg_index lg' !! a = lg_index lg !! a /\ lg_size lg' !! a = lg_size lg !! a.

Lemma partial_loop_run sub vs i size σ s lg : shown sub vs -> legal model sub s σ ->
  exists steps lg', partial_loop model vs i size σ s lg = Some (steps, lg') /\ steps_of sub s σ steps /\ enlarged i size σ lg lg'.
Proof.
  intros [Hc Hr _ _]. revert s lg. induction σ as [|id σ IH]; intros s lg Hleg.
  { exists [], lg. split_and!; [done|constructor|]. intros a. rewrite decide_False by set_solver. done. }
  destruct Hleg as (c & r & input & output & s' & Hcin & Hrin & Hkc & Hkr & Hic & Hir & Hvc & Hvr & Hst & Hleg).
  pose proof (Hc c Hcin Hkc) as Hcv. pose proof (Hr r Hrin Hkr) as Hrv. rewrite Hic, Hvc in Hcv. rewrite Hir, Hvr in Hrv.
  cbn [partial_loop]. rewrite Hcv, Hrv, Hst. cbn [negb].
  set (lg1 := if decide _ then _ else _). destruct (IH s' lg1 Hleg) as (steps & lg' & -> & Hso & Hen). cbn.
  eexists _, lg'. split_and!; [done|by eapply (so_cons _ _ _ _ c r)|]. intros a. specialize (Hen a). revert Hen. unfold lg1.
  destruct (decide (default 0 (lg_size lg !! id) < size)) as [Hlt|Hge]; cbn.
  - destruct (decide (a = id)) as [->|Hne].
    + rewrite lookup_insert_eq. cbn. rewrite decide_False by lia. rewrite decide_True by set_solver. by rewrite !lookup_insert_eq.
    + rewrite !lookup_insert_ne by done. repeat case_decide; set_solver.
  - repeat case_decide; set_solver.
Qed.

(** The largest sequences among those of [Q]. *)
Definition largest_in (Q : list (list Z)) (index : gmap Z Z) (a : Z) : Prop :=
  match index !! a with
  | None => forall σ, σ ∈ Q -> a ∉ σ
  | Some k => exists σ, slice_get Q k = Some σ /\ a ∈ σ /\ forall σ', σ' ∈ Q -> a ∈ σ' -> (length σ' <= length σ)%nat
  end.
Definition sizes_of (Q : list (list Z)) (lg : Largests) (a : Z) : Prop :=
  lg_size lg !! a = lg_index lg !! a ≫= fun k => (fun σ => len σ) <$> slice_get Q k.

Lemma largest_step Q σ lg lg' : (forall a, largest_in Q (lg_index lg) a /\ sizes_of Q lg a) ->
  enlarged (len Q) (len σ) σ lg lg' -> forall a, largest_in (Q ++ [σ]) (lg_index lg') a /\ sizes_of (Q ++ [σ]) lg' a.
Proof.
  intros Hq He a. specialize (He a). destruct (Hq a) as [Hl Hs]. unfold largest_in, sizes_of in *.
  assert (Hlast : slice_get (Q ++ [σ]) (len Q) = Some σ).
  { rewrite slice_get_app_r by lia. by rewrite Z.sub_diag. }
  case_decide as Hd; destruct He as [-> ->].
  - destruct Hd as [Ha Hlt]. cbn. rewrite Hlast. split; [|done]. exists σ. split_and!; [done|done|].
    intros σ' [Hin| ->%list_elem_of_singleton]%elem_of_app Ha'; [|done].
    destruct (lg_index lg !! a) as [k|]; [|by destruct (Hl σ' Hin)].
    destruct Hl as (σ0 & Hk & _ & Hmax). cbn in Hs. rewrite Hk in Hs. cbn in Hs. rewrite Hs in Hlt. cbn in Hlt.
    specialize (Hmax σ' Hin Ha'). lia.
  - destruct (lg_index lg !! a) as [k|] eqn:Ek; cbn in *.
    + destruct Hl as (σ0 & Hk & Ha & Hmax). rewrite Hk in Hs. cbn in Hs.
      assert (Hk' : slice_get (Q ++ [σ]) k = Some σ0) by (rewrite slice_get_app_l; [done|by apply slice_get_lt in Hk as [_ ?]]).
      rewrite Hk'. split; [|done]. exists σ0. split_and!; [done|done|].
      intros σ' [Hin| ->%list_elem_of_singleton]%elem_of_app Ha'; [by apply Hmax|]. rewrite Hs in Hd. cbn in Hd.
      destruct (decide (len σ0 < len σ)); [|lia]. by destruct Hd.
    + split; [|done]. intros σ' [Hin| ->%list_elem_of_singleton]%elem_of_app; [by apply Hl|]. intros Ha. apply Hd. split; [done|].
      rewrite Hs. cbn. destruct σ; [set_solver|cbn; lia].
Qed.

Lemma partials_loop_run sub vs Q rest lg : shown sub vs -> (forall σ, σ ∈ rest -> legal model sub (Init model) σ) ->
  (forall a, largest_in Q (lg_index lg) a /\ sizes_of Q lg a) ->
  exists lins lg', partials_loop model vs (len Q) rest lg = Some (lins, lg') /\
    Forall2 (steps_of sub (Init model)) rest lins /\ forall a, largest_in (Q ++ rest) (lg_index lg') a.
Proof.
  intros Hsh. revert Q lg. induction rest as [|σ rest IH]; intros Q lg Hleg Hq.
  { exists [], lg. rewrite app_nil_r. split_and!; [done|constructor|]. intros a. apply (Hq a). }
  destruct (partial_loop_run sub vs (len Q) (len σ) σ (Init model) lg Hsh) as (steps & lg1 & Hrun & Hso & Hen); [apply Hleg; set_solver|].
  cbn [partials_loop]. rewrite Hrun. destruct (IH (Q ++ [σ]) lg1) as (lins & lg' & Hrun' & Hall & Hl).
  - intros σ' Hin. apply Hleg. set_solver.
  - by eapply largest_step.
  - rewrite length_app in Hrun'. cbn in Hrun'. replace (Z.of_nat (length Q + 1)) with (len Q + 1) in Hrun' by lia. rewrite Hrun'.
    cbn. rewrite <-app_assoc in Hl. eexists _, lg'. split_and!; [done|by constructor|done].
Qed.

(** ** A partition on the page *)

Record page_of sub (partials partials' : list (list Z)) (d : partitionVisualizationData) : Prop := {
  pg_operation c r input output : c ∈ sub -> r ∈ sub -> e_kind c = CallEvent -> e_kind r = ReturnEvent -> e_id c = e_id r ->
    e_value c = inl input -> e_value r = inr output ->
    slice_get (History d) (e_id c) =
      Some (mkHistoryElement (e_clientId c) (e_time c) (e_time r) (default_DescribeOperation model input output));
  pg_length : len (History d) = ops sub;
  pg_sorted : partials' ≡ₚ partials /\ StronglySorted (fun a b => ~ len b > len a) partials';
  pg_steps : Forall2 (steps_of sub (Init model)) partials' (PartialLinearizations d);
  pg_largest a : largest_in partials' (Largest d) a
}.

Lemma visualize_partition_run sub partials : wf_history sub (ops sub) -> sound_set model sub partials ->
  exists d partials', visualize_partition model sub partials = Some (d, partials') /\ page_of sub partials partials' d.
Proof.
  intros Hwf Hs. unfold visualize_partition. fold (ops sub).
  assert (0 <= ops sub) by (unfold ops; apply Z.div_pos; lia).
  destruct (history_loop_run sub (ops sub) Hwf [] sub
    (mkValues (replicate (Z.to_nat (ops sub)) (mkHistoryElement 0 0 0 "")) ∅ ∅)) as (vs & -> & Hsh & Hlen).
  { done. } { split; intros; set_solver. } { apply length_replicate. }
  destruct (partials_loop_run sub vs [] (sort_bySize partials) (mkLargests ∅ ∅) Hsh) as (lins & lg & Hrun & Hall & Hl).
  { intros σ. rewrite sort_bySize_perm. intros [(_ & _ & ? & _) _]%Hs. done. }
  { intros a. unfold largest_in, sizes_of. cbn. rewrite !lookup_empty. cbn. split; [set_solver|done]. }
  change (len ([] : list (list Z))) with 0 in Hrun. rewrite Hrun. cbn. eexists _, _. split; [done|]. split; cbn; [by apply Hsh|lia| |done|done].
  split; [apply sort_bySize_perm|apply sort_bySize_sorted].
Qed.

Lemma visualize_loop_run history partials : (forall sub, sub ∈ history -> wf_history sub (ops sub)) ->
  Forall2 (sound_set model) history partials ->
  exists data partials', visualize_loop model history partials = Some (data, partials') /\ length data = length history /\
    forall i sub l, history !! i = Some sub -> partials !! i = Some l ->
      exists d l', data !! i = Some d /\ partials' !! i = Some l' /\ page_of sub l l' d.
Proof.
  intros Hwf Hall. induction Hall as [|sub l history partials Hs Hall IH].
  { exists [], []. by split_and!. }
  destruct (visualize_partition_run sub l) as (d & l' & Hd & Hp); [apply Hwf; set_solver|done|].
  destruct IH as (data & partials' & Hrun & Hlen & Hpages); [intros; apply Hwf; set_solver|].
  exists (d :: data), (l' :: partials'). cbn [visualize_loop]. rewrite Hd, Hrun. split_and!; [done|cbn; congruence|].
  intros [|i] sub0 l0 Hi Hi'; cbn in *; [|by apply Hpages]. simplify_eq. by exists d, l'.
Qed.
End visualize.

(** ** The page of a verbose check *)
Section page.
Context {In Out St : Type} (model : Model In Out St) `{EqDecision St} `{SortByTimeLaws} `{MapOrderLaws} `{Sprint} `{SortBySizeLaws}.

(** What the page says of the operations of a partition. *)
Record shows (sub : list (Operation In Out)) (d : partitionVisualizationData) : Prop := {
  sw_operations : History d =
    (fun op => mkHistoryElement (ClientId op) (Call op) (Return op) (default_DescribeOperation model (op_Input op) (op_Output op))) <$> sub;
  sw_steps steps : steps ∈ PartialLinearizations d ->
    partial_linearization model (makeEntries sub) (len sub) (ls_Index <$> steps) /\
    steps_of model (makeEntries sub) (Init model) (ls_Index <$> steps) steps;
  sw_largest a : match Largest d !! a with
    | None => forall steps, steps ∈ PartialLinearizations d -> a ∉ ls_Index <$> steps
    | Some k => exists steps, slice_get (PartialLinearizations d) k = Some steps /\ a ∈ ls_Index <$> steps /\
        forall steps', steps' ∈ PartialLinearizations d -> a ∈ ls_Index <$> steps' -> (length steps' <= length steps)%nat
    end
}.
(** And that it shows a longest partial linearization for every operation that has one. *)
Definition shows_longest (sub : list (Operation In Out)) (d : partitionVisualizationData) : Prop :=
  forall a σ, partial_linearization model (makeEntries sub) (len sub) σ -> a ∈ σ ->
    exists k steps, Largest d !! a = Some k /\ slice_get (PartialLinearizations d) k = Some steps /\
      a ∈ ls_Index <$> steps /\ (length σ <= length steps)%nat.

Lemma steps_index entries s σ steps : steps_of model entries s σ steps -> ls_Index <$> steps = σ.
Proof. induction 1; cbn; congruence. Qed.
Lemma lins_index entries s l lins : Forall2 (steps_of model entries s) l lins -> l = (fun steps : list linearizationStep => ls_Index <$> steps) <$> lins.
Proof. induction 1 as [|σ steps l lins Hs _ IH]; [done|]. cbn. by rewrite (steps_index _ _ _ _ Hs), <-IH. Qed.

Lemma page_shows sub l l' d : timed sub -> sound_set model (makeEntries sub) l -> page_of model (makeEntries sub) l l' d -> shows sub d.
Proof.
  intros Ht Hs [Hop Hlen [Hperm _] Hsteps Hl]. rewrite timed_ops in Hlen by done. pose proof (lins_index _ _ _ _ Hsteps) as El. split.
  - apply list_eq_same_length with (length sub); [by rewrite length_fmap|lia|]. intros i x y Hi Hx Hy.
    rewrite list_lookup_fmap in Hy. destruct (sub !! i) as [op|] eqn:Eop; [|done]. injection Hy as <-.
    destruct (makeEntries_positions sub i op Eop) as (p & q & Hp & Hq).
    pose proof (Hop _ _ _ _ (list_elem_of_lookup_2 _ _ _ Hp) (list_elem_of_lookup_2 _ _ _ Hq) eq_refl eq_refl eq_refl eq_refl eq_refl) as E.
    cbn in E. apply slice_get_Some in E as [_ E]. rewrite Nat2Z.id in E. congruence.
  - intros steps [j Hj]%list_elem_of_lookup_1. destruct (Forall2_lookup_r _ _ _ _ _ Hsteps Hj) as (σ & Hσ & Hso).
    rewrite (steps_index _ _ _ _ Hso). split; [|done]. rewrite <-(timed_ops sub Ht). apply Hs. rewrite <-Hperm. by apply list_elem_of_lookup_2 in Hσ.
  - intros a. specialize (Hl a). unfold largest_in in Hl. destruct (Largest d !! a) as [k|].
    + destruct Hl as (σ & [Hk Hσ]%slice_get_Some & Ha & Hmax). rewrite El, list_lookup_fmap in Hσ.
      destruct (PartialLinearizations d !! Z.to_nat k) as [steps|] eqn:Est; [|done]. injection Hσ as <-.
      exists steps. split_and!; [by apply slice_get_Some|done|]. intros steps' Hin Ha'. rewrite <-(length_fmap ls_Index steps'), <-(length_fmap ls_Index steps).
      apply Hmax; [|done]. rewrite El. by apply list_elem_of_fmap_2.
    + intros steps Hin. apply Hl. rewrite El. by apply list_elem_of_fmap_2.
Qed.

Lemma page_longest sub l l' d : timed sub -> longest_set_for model (makeEntries sub) l -> page_of model (makeEntries sub) l l' d ->
  shows sub d -> shows_longest sub d.
Proof.
  intros Ht Hs [_ _ [Hperm _] Hsteps _] [_ _ Hl] a σ Hp Ha. rewrite <-(timed_ops sub Ht) in Hp. destruct (Hs a σ Hp Ha) as (σ' & Hin & Ha' & Hle).
  rewrite <-Hperm in Hin. rewrite (lins_index _ _ _ _ Hsteps) in Hin. apply list_elem_of_fmap in Hin as (steps' & -> & Hin).
  rewrite length_fmap in Hle. specialize (Hl a). destruct (Largest d !! a) as [k|]; [|by destruct (Hl steps')].
  destruct Hl as (steps & Hk & Has & Hmax). exists k, steps. split_and!; [done|done|done|]. specialize (Hmax steps' Hin Ha'). lia.
Qed.

(** C11: the page of a verbose check. For any model and any operations with sane times, a
    verbose check and [computeVisualizationData] on what it returns end without a panic,
    whatever the order of arrival, timed out or not. The page has every operation of a
    partition with its client, times and description; every sequence on it is a partial
    linearization, with the states the model goes through; [Largest] of an operation is
    the index of a longest of them with the operation. Without a timeout that sequence is
    as long as any partial linearization with the operation. *)
Theorem visualization_shows_longest (history : list (Operation In Out)) :
  exact_Equal model -> (forall sub, sub ∈ default_Partition model history -> timed sub) ->
  exists bound, forall fuel order late, (bound < fuel)%nat -> arrival_order (length (default_Partition model history)) order ->
    exists res info data info', CheckOperationsVerbose model fuel history order late = Some (res, info) /\
      computeVisualizationData model info = Some (data, info') /\ length data = length (default_Partition model history) /\
      forall i sub d, default_Partition model history !! i = Some sub -> data !! i = Some d ->
        shows sub d /\ (None ∉ order -> shows_longest sub d).
Proof.
  intros Heq Ht. set (parts := default_Partition model history) in *.
  destruct (timed_check_run model parts Heq Ht) as [bound Hb]. exists bound. intros fuel order late Hf Ho.
  destruct (Hb fuel true order late Hf Ho) as (res & info & Hrun & [_ _ _ Hinfo Hlong] & _).
  destruct (Hinfo eq_refl) as [Hhist Hsound]. specialize (Hlong eq_refl).
  destruct (visualize_loop_run model (makeEntries <$> parts) (li_partialLinearizations info)) as (data & partials' & Hv & Hlen & Hpages).
  { intros sub' (sub & -> & Hin)%list_elem_of_fmap. rewrite timed_ops by (by apply Ht). by apply makeEntries_wf, Ht. }
  { done. }
  exists res, info, data. eexists. split_and!; [exact Hrun|unfold computeVisualizationData; by rewrite Hhist, Hv|by rewrite Hlen, length_fmap|].
  intros i sub d Hi Hd. assert (Hi' : (makeEntries <$> parts) !! i = Some (makeEntries sub)) by (by rewrite list_lookup_fmap, Hi).
  destruct (Forall2_lookup_l _ _ _ _ _ Hsound Hi') as (l & Hl & Hs). destruct (Hpages i _ l Hi' Hl) as (d' & l' & Hd' & _ & Hpage).
  rewrite Hd in Hd'. injection Hd' as <-. assert (timed sub) as Hts by (by eapply Ht, list_elem_of_lookup_2).
  pose proof (page_shows sub l l' d Hts Hs Hpage) as Hsh. split; [done|]. intros Hno. eapply page_longest; [done| |exact Hpage|done].
  destruct (Forall2_lookup_l _ _ _ _ _ (Hlong Hno) Hi') as (l2 & Hl2 & ?). rewrite Hl in Hl2. by injection Hl2 as <-.
Qed.
End page.

(** ** A sort, and a page *)

Definition size_ge (a b : list Z) : Prop := ~ len b > len a.
#[export] Instance size_ge_dec : RelDecision size_ge.
Proof. intros a b. unfold size_ge. apply _. Defined.
#[export] Instance size_ge_total : Total size_ge.
Proof. intros a b. unfold size_ge. lia. Qed.
#[export] Instance size_ge_trans : Transitive size_ge.
Proof. intros a b c. unfold size_ge. lia. Qed.
#[export] Instance merge_bySize : SortBySize := merge_sort size_ge.
#[export] Instance merge_bySize_laws : SortBySizeLaws.
Proof. split; intros l; [apply merge_sort_Permutation|by apply (StronglySorted_merge_sort size_ge)]. Qed.

Module Example_page.
#[local] Existing Instance list_order.
#[local] Instance no_verb : Sprint := fun A _ => "?".

(** The stale read of [Example_kv.stale]: the put alone is a partial linearization, and the
    read, which comes after it, is in none. *)
Definition summary (d : partitionVisualizationData) : list (list Z) * list string * option Z * option Z :=
  (map (map ls_Index) (PartialLinearizations d), map he_Description (History d), Largest d !! 0, Largest d !! 1).
Example page_of_stale :
  match CheckOperationsVerbose Example_kv.KV 100 Example_kv.stale [Some 0%nat] (fun _ _ => false) with
  | Some (res, info) =>
      match computeVisualizationData Example_kv.KV info with Some (data, _) => Some (res, map summary data) | None => None end
  | None => None
  end = Some (Illegal, [([[0]], ["put('k', 'x')"; "get('k') -> ''"], Some 0, None)]).
Proof. vm_compute. reflexivity. Qed.

Lemma visualization_shows_longest_witness :
  exists bound, forall fuel, (bound < fuel)%nat ->
    exists res info data info',
      CheckOperationsVerbose Example_kv.KV fuel Example_kv.history [Some 0%nat] (fun _ _ => false) = Some (res, info) /\
      computeVisualizationData Example_kv.KV info = Some (data, info') /\ length data = 1%nat.
Proof.
  destruct (visualization_shows_longest Example_kv.KV Example_kv.history (kv_exact (H := list_order))) as [bound Hb].
  - change (forall sub, sub ∈ [Example_kv.history] -> timed sub). intros sub Hs. apply list_elem_of_singleton in Hs as ->.
    apply Example_kv.history_timed.
  - exists bound. intros fuel Hf. destruct (Hb fuel [Some 0%nat] (fun _ _ => false) Hf) as (res & info & data & info' & ? & ? & ? & _).
    + apply (full_order 1 [0%nat]); [lia|reflexivity].
    + exists res, info, data, info'. split; [assumption|]. split; assumption.
Defined.
End Example_page.
