(* ===== verification/Labrpc.v ===== *)
(** * labrpc: the simulated network ([src/src/labrpc/labrpc.go])

    A world is the [Network], the [Server] objects it points to and the calls in
    progress. [ClientEnd.Call], the goroutine [processReq] serves a request with and
    the goroutine that runs the handler are one [Thread]: [t_pc] says where the
    request is between sending and return, [t_hp] where its handler goroutine is.
    An [Event] is one atomic step: a critical section of [rn.mu] or [rs.mu], a
    rendezvous on an unbuffered channel, a timer that fires, a handler that returns.
    What [rand] and the handlers answer is part of the event; how long a sleep lasts
    is left open. [Exit] is [log.Fatalf] or a panic, which end the process. *)
From Stdlib Require Import Strings.Byte Strings.Ascii.
From S2P Require Import Prelude.

(** Reflection and encoding, as labrpc uses them. [EncodeValue] returns the bytes
    written and whether it succeeded, [DecodeInto] fills a zero variable of a type;
    [None] is the decoder's error. *)
Class Values := {
  Value : Type;
  GoType : Type;
  TypeOf : Value -> GoType;
  zeroValue : GoType -> Value;
  type_eq :: EqDecision GoType;
  EncodeValue : Value -> list byte * bool;
  DecodeInto : GoType -> list byte -> option Value
}.

Class ValuesLaws `{Values} :=
  DecodeInto_EncodeValue : forall v, (EncodeValue v).2 = true ->
    DecodeInto (TypeOf v) (EncodeValue v).1 = Some v.

(** Go's wrap-around of [int32] and [int64] counters. *)
Definition wrap (bits x : Z) : Z := (x + 2 ^ (bits - 1)) mod 2 ^ bits - 2 ^ (bits - 1).

(** [strings.LastIndex(s, ".")]. *)
Fixpoint LastIndex_dot (s : string) : Z :=
  match s with
  | EmptyString => -1
  | String c s =>
      let i := LastIndex_dot s in
      if decide (0 <= i) then i + 1 else if decide (c = "."%char) then 0 else -1
  end.

(** [s[:i]] and [s[i:]]; [None] is the panic of an index out of range. *)
Definition string_to (s : string) (i : Z) : option string :=
  if decide (0 <= i <= Z.of_nat (String.length s)) then Some (String.substring 0 (Z.to_nat i) s) else None.
Definition string_from (s : string) (i : Z) : option string :=
  if decide (0 <= i <= Z.of_nat (String.length s))
  then Some (String.substring (Z.to_nat i) (String.length s - Z.to_nat i) s) else None.

Section labrpc.
Context `{Values} {EndName SrvName : Type} `{Countable EndName} `{Countable SrvName}.

(** ** Messages *)

Record reqMsg := mkReqMsg {
  rq_endname : EndName;
  svcMeth : string;
  argsType : GoType;
  rq_args : list byte
}.

Record replyMsg := mkReplyMsg { rp_ok : bool; rp_reply : list byte }.
Definition noReply : replyMsg := mkReplyMsg false [].

Record ClientEnd := mkClientEnd { ce_endname : EndName }.

(** ** Services *)

Inductive Kind := Ptr | OtherKind.

(** What [MakeService] asks of a [reflect.Method]. [In1] and [In2Elem] are the
    argument type and the type the reply pointer points to. *)
Record Method := mkMethod {
  m_Name : string;
  PkgPath : string;
  NumIn : nat;
  In1 : GoType;
  In2Kind : Kind;
  In2Elem : GoType;
  NumOut : nat
}.

(** A receiver object: its identity, the name of its type and its methods. *)
Record Receiver := mkReceiver { rc_id : nat; rc_name : string; rc_methods : list Method }.

Record Service := mkService { sv_name : string; sv_rcvr : nat; sv_methods : gmap string Method }.

Definition suitable (m : Method) : bool :=
  negb (negb (bool_decide (PkgPath m = "")) || negb (bool_decide (NumIn m = 3%nat)) ||
        match In2Kind m with Ptr => false | OtherKind => true end || negb (bool_decide (NumOut m = 0%nat))).

Definition MakeService (rcvr : Receiver) : Service :=
  mkService (rc_name rcvr) (rc_id rcvr)
    (foldl (fun ms m => if suitable m then <[m_Name m := m]> ms else ms) ∅ (rc_methods rcvr)).

Record Server := mkServer { services : gmap string Service; sr_count : Z }.

Definition MakeServer : Server := mkServer ∅ 0.
Definition AddService (svc : Service) (rs : Server) : Server :=
  mkServer (<[sv_name svc := svc]> (services rs)) (sr_count rs).

(** ** The network *)

Record Network := mkNetwork {
  reliable : bool;
  longDelays : bool;
  longReordering : bool;
  ends : gmap EndName ClientEnd;
  enabled : gmap EndName bool;
  servers : gmap SrvName (option nat);
  connections : gmap EndName (option SrvName);
  rn_done : bool;
  rn_count : Z;
  rn_bytes : Z
}.

Definition MakeNetwork : Network := mkNetwork true false false ∅ ∅ ∅ ∅ false 0 0.

Definition Reliable (yes : bool) (rn : Network) : Network :=
  mkNetwork yes (longDelays rn) (longReordering rn) (ends rn) (enabled rn) (servers rn)
    (connections rn) (rn_done rn) (rn_count rn) (rn_bytes rn).
Definition LongReordering (yes : bool) (rn : Network) : Network :=
  mkNetwork (reliable rn) (longDelays rn) yes (ends rn) (enabled rn) (servers rn)
    (connections rn) (rn_done rn) (rn_count rn) (rn_bytes rn).
Definition LongDelays (yes : bool) (rn : Network) : Network :=
  mkNetwork (reliable rn) yes (longReordering rn) (ends rn) (enabled rn) (servers rn)
    (connections rn) (rn_done rn) (rn_count rn) (rn_bytes rn).
Definition AddServer (s : SrvName) (rs : nat) (rn : Network) : Network :=
  mkNetwork (reliable rn) (longDelays rn) (longReordering rn) (ends rn) (enabled rn)
    (<[s := Some rs]> (servers rn)) (connections rn) (rn_done rn) (rn_count rn) (rn_bytes rn).
Definition DeleteServer (s : SrvName) (rn : Network) : Network :=
  mkNetwork (reliable rn) (longDelays rn) (longReordering rn) (ends rn) (enabled rn)
    (<[s := None]> (servers rn)) (connections rn) (rn_done rn) (rn_count rn) (rn_bytes rn).
Definition Connect (e : EndName) (s : SrvName) (rn : Network) : Network :=
  mkNetwork (reliable rn) (longDelays rn) (longReordering rn) (ends rn) (enabled rn)
    (servers rn) (<[e := Some s]> (connections rn)) (rn_done rn) (rn_count rn) (rn_bytes rn).
Definition Enable (e : EndName) (yes : bool) (rn : Network) : Network :=
  mkNetwork (reliable rn) (longDelays rn) (longReordering rn) (ends rn) (<[e := yes]> (enabled rn))
    (servers rn) (connections rn) (rn_done rn) (rn_count rn) (rn_bytes rn).
(** [None]: the end exists ([log.Fatalf]). *)
Definition MakeEnd (e : EndName) (rn : Network) : option Network :=
  match ends rn !! e with
  | Some _ => None
  | None =>
      Some (mkNetwork (reliable rn) (longDelays rn) (longReordering rn)
              (<[e := mkClientEnd e]> (ends rn)) (<[e := false]> (enabled rn)) (servers rn)
              (<[e := None]> (connections rn)) (rn_done rn) (rn_count rn) (rn_bytes rn))
  end.
(** Closing a closed channel panics. *)
Definition Cleanup (rn : Network) : option Network :=
  if rn_done rn then None
  else Some (mkNetwork (reliable rn) (longDelays rn) (longReordering rn) (ends rn) (enabled rn)
               (servers rn) (connections rn) true (rn_count rn) (rn_bytes rn)).

Definition addRequest (n : Z) (rn : Network) : Network :=
  mkNetwork (reliable rn) (longDelays rn) (longReordering rn) (ends rn) (enabled rn) (servers rn)
    (connections rn) (rn_done rn) (wrap 32 (rn_count rn + 1)) (wrap 64 (rn_bytes rn + n)).
Definition addBytes (n : Z) (rn : Network) : Network :=
  mkNetwork (reliable rn) (longDelays rn) (longReordering rn) (ends rn) (enabled rn) (servers rn)
    (connections rn) (rn_done rn) (rn_count rn) (wrap 64 (rn_bytes rn + n)).

Definition GetTotalCount (rn : Network) : Z := rn_count rn.
Definition GetTotalBytes (rn : Network) : Z := rn_bytes rn.

(** The results of [readEndnameInfo] that a served request keeps. *)
Record EndInfo := mkEndInfo {
  i_servername : SrvName;
  i_server : nat;
  i_reliable : bool;
  i_longreordering : bool
}.

(** A missing key reads as [false] or [nil]. *)
Definition end_enabled (rn : Network) (e : EndName) : bool := default false (enabled rn !! e).
Definition server_of (rn : Network) (s : SrvName) : option nat :=
  match servers rn !! s with Some p => p | None => None end.

(** [readEndnameInfo] and the test on its results: [None] when the end is
    disabled, not connected or connected to no server. *)
Definition readEndnameInfo (rn : Network) (e : EndName) : option EndInfo :=
  match end_enabled rn e, connections rn !! e with
  | true, Some (Some servername) =>
      match server_of rn servername with
      | Some server => Some (mkEndInfo servername server (reliable rn) (longReordering rn))
      | None => None
      end
  | _, _ => None
  end.

Definition isServerDead (rn : Network) (e : EndName) (i : EndInfo) : bool :=
  negb (end_enabled rn e) || negb (bool_decide (server_of rn (i_servername i) = Some (i_server i))).

(** ** Calls in progress *)

(** Where a request is. [Sending]: [Call] offers it on [endCh]. [Accepted]:
    [processReq] starts. [Delaying]: the short delay of an unreliable network.
    [Waiting]: for the handler. [Checking]: after the wait, before the last
    [isServerDead]. [Reordering] and [TimingOut]: a timer of [ms] runs.
    [Replying]: offered on [replyCh]. [Returned]: [Call] returned false, or true
    and the reply. *)
Inductive Pc :=
  | Sending
  | Accepted
  | Delaying (i : EndInfo)
  | Waiting (i : EndInfo)
  | Checking (i : EndInfo) (reply : option replyMsg)
  | Reordering (ms : Z) (reply : replyMsg)
  | TimingOut (ms : Z)
  | Replying (reply : replyMsg)
  | Returned (reply : option Value).

(** The goroutine around [server.dispatch]: not started, before [dispatch], in the
    method of a receiver, offering the reply on [ech], gone. *)
Inductive Hp :=
  | NotStarted
  | Dispatching (server : nat)
  | Running (rcvr : nat) (method : Method) (args : Value)
  | Offering (reply : replyMsg)
  | Gone.

Record Thread := mkThread {
  t_req : reqMsg;
  t_replyType : GoType;
  t_pc : Pc;
  t_hp : Hp
}.

(** [w_looping]: the goroutine of [MakeNetwork] has not returned. *)
Record World := mkWorld {
  w_net : Network;
  w_servers : list Server;
  w_looping : bool;
  w_calls : list Thread
}.

Definition NewWorld : World := mkWorld MakeNetwork [] true [].

Definition set_net (rn : Network) (w : World) : World :=
  mkWorld rn (w_servers w) (w_looping w) (w_calls w).

Inductive Res := Next (w : World) | Blocked | Exit.

(** [ClientEnd.Call] up to the [select]: the request it sends; [None] is the panic
    when the arguments cannot be encoded. *)
Definition Call_request (e : ClientEnd) (svcMeth : string) (args : Value) : option reqMsg :=
  let '(b, ok) := EncodeValue args in
  if ok then Some (mkReqMsg (ce_endname e) svcMeth (TypeOf args) b) else None.

(** The end of [Call], on the message received from [replyCh]; [None] is
    [log.Fatalf]. *)
Definition Call_result (replyType : GoType) (rep : replyMsg) : option (option Value) :=
  if rp_ok rep then
    match DecodeInto replyType (rp_reply rep) with Some v => Some (Some v) | None => None end
  else Some None.

(** [Service.dispatch] up to the call of the method: the method and the argument it
    gets. The decoder's error is ignored; an argument of another type than the
    method's panics in [reflect]. [None] is that panic or [log.Fatalf]. *)
Definition Service_dispatch (svc : Service) (methname : string) (req : reqMsg)
  : option (nat * Method * Value) :=
  match sv_methods svc !! methname with
  | Some m =>
      let args := default (zeroValue (argsType req)) (DecodeInto (argsType req) (rq_args req)) in
      if decide (argsType req = In1 m) then Some (sv_rcvr svc, m, args) else None
  | None => None
  end.

(** [Server.dispatch] up to there, with the counter. *)
Definition Server_dispatch (rs : Server) (req : reqMsg) : option (nat * Method * Value) * Server :=
  let rs := mkServer (services rs) (wrap 64 (sr_count rs + 1)) in
  let dot := LastIndex_dot (svcMeth req) in
  (match string_to (svcMeth req) dot, string_from (svcMeth req) (dot + 1) with
   | Some serviceName, Some methodName =>
       match services rs !! serviceName with
       | Some service => Service_dispatch service methodName req
       | None => None
       end
   | _, _ => None
   end, rs).

(** The end of [Service.dispatch]; the encoder's error is ignored. *)
Definition dispatch_reply (replyv : Value) : replyMsg := mkReplyMsg true (EncodeValue replyv).1.

(** [processReq] up to the branch on [readEndnameInfo]; [r] is [rand.Int()]. *)
Definition process_start (rn : Network) (req : reqMsg) (r : Z) : Pc :=
  match readEndnameInfo rn (rq_endname req) with
  | Some i => Delaying i
  | None => TimingOut (if longDelays rn then r `rem` 7000 else r `rem` 100)
  end.

(** After the delay: the request is dropped ([rand.Int() % 1000 < 100]) or the
    goroutine of the handler starts. *)
Definition process_deliver (i : EndInfo) (r : Z) : Pc * Hp :=
  if negb (i_reliable i) && bool_decide (r `rem` 1000 < 100)
  then (Replying noReply, NotStarted) else (Waiting i, Dispatching (i_server i)).

(** After the wait; [r1] is [rand.Int()], [r2] is [rand.Intn(900)] and [r3] is
    [rand.Intn(1+rand.Intn(2000))]. *)
Definition process_reply (rn : Network) (req : reqMsg) (i : EndInfo) (reply : option replyMsg)
    (r1 r2 r3 : Z) : Pc * Network :=
  match isServerDead rn (rq_endname req) i, reply with
  | false, Some reply =>
      if negb (i_reliable i) && bool_decide (r1 `rem` 1000 < 100) then (Replying noReply, rn)
      else if i_longreordering i && bool_decide (r2 < 600) then (Reordering (200 + r3) reply, rn)
      else (Replying reply, addBytes (len (rp_reply reply)) rn)
  | _, _ => (Replying noReply, rn)
  end.

(** ** Steps *)

Inductive Event :=
  | MakeEndE (e : EndName)
  | AddServerE (s : SrvName) (rs : nat)
  | DeleteServerE (s : SrvName)
  | ConnectE (e : EndName) (s : SrvName)
  | EnableE (e : EndName) (yes : bool)
  | ReliableE (yes : bool)
  | LongReorderingE (yes : bool)
  | LongDelaysE (yes : bool)
  | CleanupE
  | StopE
  | MakeServerE
  | AddServiceE (rs : nat) (svc : Service)
  | CallE (e : EndName) (svcMeth : string) (args : Value) (replyType : GoType)
  | AcceptE (c : nat)
  | AbandonE (c : nat)
  | StartE (c : nat) (r : Z)
  | DeliverE (c : nat) (r : Z)
  | DispatchE (c : nat)
  | ReturnE (c : nat) (replyv : Value)
  | ReceiveE (c : nat)
  | TickE (c : nat)
  | DrainE (c : nat)
  | ReplyE (c : nat) (r1 r2 r3 : Z)
  | FireE (c : nat)
  | AnswerE (c : nat).

Definition exit_or {A} (o : option A) (f : A -> Res) : Res :=
  match o with Some a => f a | None => Exit end.

(** The operations of the tests on the network and its servers. *)
Definition net_step (ev : Event) (w : World) : Res :=
  let rn := w_net w in
  match ev with
  | MakeEndE e => exit_or (MakeEnd e rn) (fun rn => Next (set_net rn w))
  | AddServerE s rs =>
      if decide (rs < length (w_servers w))%nat then Next (set_net (AddServer s rs rn) w) else Blocked
  | DeleteServerE s => Next (set_net (DeleteServer s rn) w)
  | ConnectE e s => Next (set_net (Connect e s rn) w)
  | EnableE e yes => Next (set_net (Enable e yes rn) w)
  | ReliableE yes => Next (set_net (Reliable yes rn) w)
  | LongReorderingE yes => Next (set_net (LongReordering yes rn) w)
  | LongDelaysE yes => Next (set_net (LongDelays yes rn) w)
  | CleanupE => exit_or (Cleanup rn) (fun rn => Next (set_net rn w))
  | StopE => if rn_done rn && w_looping w
             then Next (mkWorld rn (w_servers w) false (w_calls w)) else Blocked
  | MakeServerE => Next (mkWorld rn (w_servers w ++ [MakeServer]) (w_looping w) (w_calls w))
  | AddServiceE rs svc =>
      match w_servers w !! rs with
      | Some s => Next (mkWorld rn (<[rs := AddService svc s]> (w_servers w)) (w_looping w) (w_calls w))
      | None => Blocked
      end
  | CallE e svcMeth args T =>
      match ends rn !! e with
      | Some end_ =>
          exit_or (Call_request end_ svcMeth args) (fun req =>
            Next (mkWorld rn (w_servers w) (w_looping w)
                    (w_calls w ++ [mkThread req T Sending NotStarted])))
      | None => Blocked
      end
  | _ => Blocked
  end.

(** The steps of one call: the new state of its goroutines, of the network and of
    the servers. *)
Definition call_step (ev : Event) (w : World) (t : Thread) : Res :=
  let rn := w_net w in
  let go pc hp rn servers c :=
    Next (mkWorld rn servers (w_looping w)
            (<[c := mkThread (t_req t) (t_replyType t) pc hp]> (w_calls w))) in
  match ev, t_pc t, t_hp t with
  | AcceptE c, Sending, hp =>
      if w_looping w
      then go Accepted hp (addRequest (len (rq_args (t_req t))) rn) (w_servers w) c else Blocked
  | AbandonE c, Sending, hp =>
      if rn_done rn then go (Returned None) hp rn (w_servers w) c else Blocked
  | StartE c r, Accepted, hp =>
      if decide (0 <= r) then go (process_start rn (t_req t) r) hp rn (w_servers w) c else Blocked
  | DeliverE c r, Delaying i, _ =>
      if decide (0 <= r)
      then let '(pc, hp) := process_deliver i r in go pc hp rn (w_servers w) c else Blocked
  | DispatchE c, pc, Dispatching p =>
      match w_servers w !! p with
      | Some rs =>
          let '(o, rs) := Server_dispatch rs (t_req t) in
          exit_or o (fun '(rcvr, m, args) =>
            go pc (Running rcvr m args) rn (<[p := rs]> (w_servers w)) c)
      | None => Blocked
      end
  | ReturnE c replyv, pc, Running _ m _ =>
      if decide (TypeOf replyv = In2Elem m)
      then go pc (Offering (dispatch_reply replyv)) rn (w_servers w) c else Blocked
  | ReceiveE c, Waiting i, Offering r => go (Checking i (Some r)) Gone rn (w_servers w) c
  | TickE c, Waiting i, hp =>
      if isServerDead rn (rq_endname (t_req t)) i
      then go (Checking i None) hp rn (w_servers w) c else Next w
  | DrainE c, Waiting _, _ => Blocked
  | DrainE c, pc, Offering _ => go pc Gone rn (w_servers w) c
  | ReplyE c r1 r2 r3, Checking i reply, hp =>
      if decide (0 <= r1 /\ 0 <= r2 < 900 /\ 0 <= r3 < 2000)
      then let '(pc, rn) := process_reply rn (t_req t) i reply r1 r2 r3 in
           go pc hp rn (w_servers w) c
      else Blocked
  | FireE c, TimingOut _, hp => go (Replying noReply) hp rn (w_servers w) c
  | FireE c, Reordering _ r, hp =>
      go (Replying r) hp (addBytes (len (rp_reply r)) rn) (w_servers w) c
  | AnswerE c, Replying r, hp =>
      exit_or (Call_result (t_replyType t) r) (fun v => go (Returned v) hp rn (w_servers w) c)
  | _, _, _ => Blocked
  end.

Definition call_of (ev : Event) : option nat :=
  match ev with
  | AcceptE c | AbandonE c | StartE c _ | DeliverE c _ | DispatchE c | ReturnE c _
  | ReceiveE c | TickE c | DrainE c | ReplyE c _ _ _ | FireE c | AnswerE c => Some c
  | _ => None
  end.

Definition step (ev : Event) (w : World) : Res :=
  match call_of ev with
  | Some c => match w_calls w !! c with Some t => call_step ev w t | None => Blocked end
  | None => net_step ev w
  end.

(** [Network.GetCount]; [None] is the panic on a nil server. *)
Definition GetCount (w : World) (s : SrvName) : option Z :=
  match server_of (w_net w) s with
  | Some p => match w_servers w !! p with Some rs => Some (sr_count rs) | None => None end
  | None => None
  end.

Fixpoint run (evs : list Event) (w : World) : Res :=
  match evs with
  | [] => Next w
  | ev :: evs => match step ev w with Next w => run evs w | r => r end
  end.
End labrpc.
