(* ===== verification/LabrpcInv.v ===== *)
(** * labrpc: the history of a call

    What is known of a call from the events so far: the request is what [Call] was
    given, the handler was started at most once and by which server, what it answered
    and when the reply was let through ([run_inv]); how many steps it has left
    ([run_weight]) and that it can make one ([call_enabled]). *)
From Stdlib Require Import Strings.Byte Strings.Ascii.
From S2P Require Import Prelude Labrpc.

(** ** Routing *)

Definition no_dot (s : string) : Prop := LastIndex_dot s = -1.

Lemma LastIndex_dot_bounds s : -1 <= LastIndex_dot s < Z.of_nat (String.length s).
Proof. induction s as [|c s IH]; simpl; [lia|]. repeat case_decide; lia. Qed.

Lemma LastIndex_dot_app svc meth : no_dot meth ->
  LastIndex_dot (svc +:+ String "." meth) = Z.of_nat (String.length svc).
Proof.
  intros Hm. induction svc as [|c svc IH]; simpl.
  - rewrite Hm. repeat case_decide; done.
  - rewrite IH. case_decide; lia.
Qed.

Lemma string_length_cat s t :
  String.length (s +:+ t) = (String.length s + String.length t)%nat.
Proof. induction s as [|c s IH]; [done|]. cbn. by rewrite <-IH. Qed.

Lemma substring_0_all s : String.substring 0 (String.length s) s = s.
Proof. induction s as [|c s IH]; simpl; congruence. Qed.

Lemma substring_app_l s t : String.substring 0 (String.length s) (s +:+ t) = s.
Proof. induction s as [|c s IH]; simpl; [by destruct t|congruence]. Qed.

Lemma substring_app_r s t n :
  String.substring (String.length s) n (s +:+ t) = String.substring 0 n t.
Proof. induction s as [|c s IH]; simpl; done. Qed.

Lemma split_svcMeth svc meth : no_dot meth ->
  let s := svc +:+ String "." meth in
  string_to s (LastIndex_dot s) = Some svc /\ string_from s (LastIndex_dot s + 1) = Some meth.
Proof.
  intros Hm. cbn zeta. rewrite LastIndex_dot_app by done. unfold string_to, string_from.
  rewrite string_length_cat. simpl String.length. rewrite !decide_True by lia. split; f_equal.
  - rewrite Nat2Z.id. apply substring_app_l.
  - replace (Z.to_nat (Z.of_nat (String.length svc) + 1)) with (String.length (svc +:+ "."))
      by (rewrite string_length_cat; simpl; lia).
    replace (svc +:+ String "." meth) with ((svc +:+ ".") +:+ meth).
    + rewrite substring_app_r.
      replace (String.length svc + S (String.length meth) - String.length (svc +:+ "."))%nat
        with (String.length meth) by (rewrite string_length_cat; simpl; lia).
      apply substring_0_all.
    + clear. induction svc as [|c s IH]; [done|]. 
      change (String c ((s +:+ ".") +:+ meth) = String c (s +:+ String "." meth)). by rewrite IH.
Qed.

Section labrpc.
Context `{ValuesLaws} {EndName SrvName : Type} `{Countable EndName} `{Countable SrvName}.
Abbreviation World := (@World _ EndName SrvName _ _ _ _).
Abbreviation Event := (@Event _ EndName SrvName).
Abbreviation Thread := (@Thread _ EndName SrvName).
Abbreviation EndInfo := (@EndInfo SrvName).
Implicit Types (w : World) (ev : Event) (evs : list Event) (c : nat).

Lemma run_snoc evs ev w w' : run (evs ++ [ev]) w = Next w' <->
  exists w1, run evs w = Next w1 /\ step ev w1 = Next w'.
Proof.
  revert w. induction evs as [|e evs IH]; intros w; simpl.
  - split; [|by intros (w1&[= ->]&->)]. destruct (step ev w) eqn:E; [|done..]. intros [= <-]. eauto.
  - destruct (step e w); [apply IH|split; [done|by intros (?&?&?)]..].
Qed.

(** [ev] happened in state [w] of the run. *)
Definition at_event evs ev w : Prop :=
  exists pre post, evs = pre ++ ev :: post /\ run pre NewWorld = Next w.

Lemma at_event_snoc evs ev ev' w : at_event evs ev w -> at_event (evs ++ [ev']) ev w.
Proof. intros (pre&post&->&?). exists pre, (post ++ [ev']). by rewrite <-app_assoc. Qed.

Lemma at_event_last evs ev w : run evs NewWorld = Next w -> at_event (evs ++ [ev]) ev w.
Proof. intros. by exists evs, []. Qed.

(** ** What is known of a call *)

Definition is_dispatch c ev : bool :=
  match ev with DispatchE c' => bool_decide (c = c') | _ => false end.
(** How often the handler of call [c] was started. *)
Definition dispatches c evs : nat := length (List.filter (is_dispatch c) evs).

Lemma dispatches_snoc c evs ev :
  dispatches c (evs ++ [ev]) = (dispatches c evs + if is_dispatch c ev then 1 else 0)%nat.
Proof.
  unfold dispatches. rewrite List.filter_app, length_app. simpl. by destruct (is_dispatch c ev).
Qed.

(** The request is what [Call] was given. *)
Definition sent evs (t : Thread) args : Prop :=
  CallE (rq_endname (t_req t)) (svcMeth (t_req t)) args (t_replyType t) ∈ evs /\
  (EncodeValue args).2 = true /\
  argsType (t_req t) = TypeOf args /\ rq_args (t_req t) = (EncodeValue args).1.

(** Server [p] started method [m] of [rcvr] with [args]. *)
Definition ran evs c (t : Thread) (p rcvr : nat) (m : Method) (args : Value) : Prop :=
  exists w rs, at_event evs (DispatchE c) w /\ w_servers w !! p = Some rs /\
    (Server_dispatch rs (t_req t)).1 = Some (rcvr, m, args).

(** ... and it answered [r]. *)
Definition answered evs c (t : Thread) (p : nat) (r : replyMsg) : Prop :=
  exists rcvr m args replyv, ran evs c t p rcvr m args /\ ReturnE c replyv ∈ evs /\
    TypeOf replyv = In2Elem m /\ r = dispatch_reply replyv.

(** When the request was taken from the channel its end was enabled and connected to the
    server [i]. *)
Definition routed evs c (t : Thread) (i : EndInfo) : Prop :=
  exists w r, at_event evs (StartE c r) w /\ end_enabled (w_net w) (rq_endname (t_req t)) = true /\
    connections (w_net w) !! rq_endname (t_req t) = Some (Some (i_servername i)) /\
    servers (w_net w) !! i_servername i = Some (Some (i_server i)).

(** The reply was let through while the server was alive. *)
Definition validated evs c (t : Thread) (i : EndInfo) : Prop :=
  routed evs c t i /\ exists w r1 r2 r3, at_event evs (ReplyE c r1 r2 r3) w /\
    isServerDead (w_net w) (rq_endname (t_req t)) i = false.

Definition hp_inv evs c (t : Thread) (p : nat) : Prop :=
  match t_hp t with
  | NotStarted => dispatches c evs = 0%nat
  | Dispatching p' => dispatches c evs = 0%nat /\ p' = p
  | Running rcvr m args => dispatches c evs = 1%nat /\ ran evs c t p rcvr m args
  | Offering r => dispatches c evs = 1%nat /\ answered evs c t p r
  | Gone => dispatches c evs = 1%nat
  end.

Definition replied evs c (t : Thread) (i : EndInfo) (r : replyMsg) : Prop :=
  t_hp t = Gone /\ dispatches c evs = 1%nat /\ answered evs c t (i_server i) r.

Definition pc_inv evs c (t : Thread) : Prop :=
  match t_pc t with
  | Sending | Accepted | TimingOut _ => t_hp t = NotStarted /\ dispatches c evs = 0%nat
  | Delaying i => (t_hp t = NotStarted /\ dispatches c evs = 0%nat) /\ routed evs c t i
  | Waiting i => (hp_inv evs c t (i_server i) /\ t_hp t <> NotStarted /\ t_hp t <> Gone) /\ routed evs c t i
  | Checking i (Some r) => replied evs c t i r /\ routed evs c t i
  | Checking i None => exists p, hp_inv evs c t p
  | Reordering _ r => exists i, replied evs c t i r /\ validated evs c t i
  | Replying r => if rp_ok r then exists i, replied evs c t i r /\ validated evs c t i
                  else exists p, hp_inv evs c t p
  | Returned None => exists p, hp_inv evs c t p
  | Returned (Some v) => exists i r, replied evs c t i r /\ validated evs c t i /\
                           DecodeInto (t_replyType t) (rp_reply r) = Some v
  end.

Definition call_inv evs c (t : Thread) : Prop :=
  (exists args, sent evs t args) /\ pc_inv evs c t.

(** What happened stays so. *)
Lemma sent_snoc evs ev t t' args : t_req t' = t_req t -> t_replyType t' = t_replyType t ->
  sent evs t args -> sent (evs ++ [ev]) t' args.
Proof. unfold sent. intros -> -> (?&?). split; [|done]. apply elem_of_app; auto. Qed.

Lemma ran_snoc evs ev c t t' p rcvr m args : t_req t' = t_req t ->
  ran evs c t p rcvr m args -> ran (evs ++ [ev]) c t' p rcvr m args.
Proof. unfold ran. intros -> (w&rs&?&?). exists w, rs. split; [by apply at_event_snoc|done]. Qed.

Lemma answered_snoc evs ev c t t' p r : t_req t' = t_req t ->
  answered evs c t p r -> answered (evs ++ [ev]) c t' p r.
Proof.
  intros Ht (rcvr&m&args&v&?&?&?). exists rcvr, m, args, v.
  split_and!; [by eapply ran_snoc|apply elem_of_app; auto|naive_solver..].
Qed.

Lemma routed_snoc evs ev c t t' i : t_req t' = t_req t ->
  routed evs c t i -> routed (evs ++ [ev]) c t' i.
Proof. unfold routed. intros -> (w&r&?&?). exists w, r. split; [by apply at_event_snoc|done]. Qed.

Lemma validated_snoc evs ev c t t' i : t_req t' = t_req t ->
  validated evs c t i -> validated (evs ++ [ev]) c t' i.
Proof.
  intros Ht (Hr&w&r1&r2&r3&?&?). split; [by eapply routed_snoc|].
  exists w, r1, r2, r3. rewrite Ht. split; [by apply at_event_snoc|done].
Qed.

Lemma replied_snoc evs ev c t t' i r : t_req t' = t_req t -> t_hp t' = t_hp t ->
  is_dispatch c ev = false -> replied evs c t i r -> replied (evs ++ [ev]) c t' i r.
Proof.
  unfold replied. intros Ht -> Hd (?&?&?). rewrite dispatches_snoc, Hd.
  split_and!; [done|lia|by eapply answered_snoc].
Qed.

Lemma hp_inv_snoc evs ev c t t' p : t_req t' = t_req t -> t_hp t' = t_hp t ->
  is_dispatch c ev = false -> hp_inv evs c t p -> hp_inv (evs ++ [ev]) c t' p.
Proof.
  unfold hp_inv. intros Ht -> Hd Hi. rewrite dispatches_snoc, Hd, Nat.add_0_r.
  destruct (t_hp t); try done; destruct Hi as [? Hi]; split; try done;
    [by eapply ran_snoc|by eapply answered_snoc].
Qed.

Lemma call_inv_snoc evs ev c t : is_dispatch c ev = false ->
  call_inv evs c t -> call_inv (evs ++ [ev]) c t.
Proof.
  intros Hd [[args Hs] Hp]. split; [exists args; by eapply sent_snoc|].
  unfold pc_inv in *. rewrite dispatches_snoc, Hd, Nat.add_0_r.
  destruct (t_pc t) as [| |i|i|i [r|]|ms r| |r|[v|]]; try done.
  - destruct Hp as [? ?]. split; [done|by eapply routed_snoc].
  - destruct Hp as [[? ?] ?]. split; [split; [by eapply hp_inv_snoc|done]|by eapply routed_snoc].
  - destruct Hp as [? ?]. split; [by eapply replied_snoc|by eapply routed_snoc].
  - destruct Hp as [p ?]. exists p. by eapply hp_inv_snoc.
  - destruct Hp as (i&?&?). exists i. split; [by eapply replied_snoc|by eapply validated_snoc].
  - destruct (rp_ok r).
    + destruct Hp as (i&?&?). exists i. split; [by eapply replied_snoc|by eapply validated_snoc].
    + destruct Hp as [p ?]. exists p. by eapply hp_inv_snoc.
  - destruct Hp as (i&r&?&?&?). exists i, r.
    split_and!; [by eapply replied_snoc|by eapply validated_snoc|done].
  - destruct Hp as [p ?]. exists p. by eapply hp_inv_snoc.
Qed.

(** An end is registered under its own name. *)
Definition ends_ok w : Prop := forall e x, ends (w_net w) !! e = Some x -> ce_endname x = e.

Lemma net_step_calls ev w w' : net_step ev w = Next w' -> ends_ok w ->
  w_calls w' = w_calls w \/
  exists e svc args T, ev = CallE e svc args T /\ (EncodeValue args).2 = true /\
    w_calls w' = w_calls w ++
      [mkThread (mkReqMsg e svc (TypeOf args) (EncodeValue args).1) T Sending NotStarted].
Proof.
  intros Hs Hok. unfold net_step, exit_or, Call_request in Hs.
  destruct ev; repeat case_match; simplify_eq; auto.
  right. eexists _, _, _, _. split_and!; [done|..];
    repeat match goal with E : EncodeValue _ = _ |- _ => rewrite E end; [done|].
  match goal with E : ends _ !! _ = Some _ |- _ => by rewrite (Hok _ _ E) end.
Qed.

(** A step of call [c] changes the goroutines of [c] only. *)
Lemma call_step_calls ev w t w' c : call_of ev = Some c -> call_step ev w t = Next w' ->
  w_calls w !! c = Some t ->
  exists t', w_calls w' = <[c := t']> (w_calls w) /\ t_req t' = t_req t /\ t_replyType t' = t_replyType t.
Proof.
  intros Hc Hs Ht. unfold call_step, exit_or in Hs.
  assert (w_calls w = <[c := t]> (w_calls w)) as Hid by (by rewrite list_insert_id).
  destruct ev; simpl in Hc; simplify_eq; destruct (t_pc t), (t_hp t); try done;
    repeat case_match; simplify_eq; try (eexists; split; [reflexivity|done]); eauto.
Qed.

Lemma call_step_ends ev w t w' : call_step ev w t = Next w' -> ends (w_net w') = ends (w_net w).
Proof.
  intros Hs. unfold call_step, exit_or, process_reply in Hs.
  destruct ev, (t_pc t), (t_hp t); try done; repeat case_match; by simplify_eq.
Qed.

Lemma step_ends_ok ev w w' : step ev w = Next w' -> ends_ok w -> ends_ok w'.
Proof.
  intros Hs Hok. unfold step in Hs. destruct (call_of ev).
  { destruct (_ !! _); [|done]. unfold ends_ok. by rewrite (call_step_ends _ _ _ _ Hs). }
  unfold net_step, exit_or, MakeEnd, Cleanup in Hs.
  destruct ev; repeat case_match; simplify_eq; try exact Hok.
  intros e' x. cbn. rewrite lookup_insert_Some. intros [[<- <-]|[_ ?]]; [done|by apply Hok].
Qed.

(** Calls are never forgotten. *)
Lemma step_keeps ev w w' c t : step ev w = Next w' -> w_calls w !! c = Some t ->
  is_Some (w_calls w' !! c).
Proof.
  intros Hs Ht. unfold step in Hs. destruct (call_of ev) as [d|] eqn:Ec.
  - destruct (w_calls w !! d) as [t0|] eqn:Ed; [|done].
    destruct (call_step_calls _ _ _ _ _ Ec Hs Ed) as (t1&->&_).
    apply lookup_lt_is_Some. rewrite length_insert. by apply lookup_lt_Some in Ht.
  - unfold net_step, exit_or in Hs. destruct ev; repeat case_match; simplify_eq; cbn; eauto.
    rewrite lookup_app_l; [eauto|by eapply lookup_lt_Some].
Qed.

Lemma step_cases ev w w' c t' : step ev w = Next w' -> ends_ok w -> w_calls w' !! c = Some t' ->
  (w_calls w !! c = Some t' /\ call_of ev <> Some c) \/
  (exists t, w_calls w !! c = Some t /\ call_of ev = Some c /\ call_step ev w t = Next w' /\
     t_req t' = t_req t /\ t_replyType t' = t_replyType t) \/
  (call_of ev = None /\ w_calls w !! c = None /\ t_pc t' = Sending /\ t_hp t' = NotStarted /\
   exists args, sent [ev] t' args).
Proof.
  intros Hs Hok Ht'. unfold step in Hs. destruct (call_of ev) as [d|] eqn:Ec.
  - destruct (w_calls w !! d) as [t|] eqn:Ed; [|done].
    destruct (call_step_calls _ _ _ _ _ Ec Hs Ed) as (t1&E&?&?).
    destruct (decide (c = d)) as [->|]; rewrite E in Ht'.
    + rewrite list_lookup_insert_eq in Ht' by (by eapply lookup_lt_Some). simplify_eq.
      right; left. eauto 6.
    + rewrite list_lookup_insert_ne in Ht' by done. left. split; [done|congruence].
  - destruct (net_step_calls _ _ _ Hs Hok) as [E|(e&svc&args&T&->&He&E)]; rewrite E in Ht'.
    { by left. }
    apply lookup_app_Some in Ht' as [?|[? Hl]]; [by left|]. right; right.
    destruct (c - length (w_calls w))%nat; [|done]. simplify_eq/=.
    split_and!; [done|by apply lookup_ge_None|done|done|]. exists args.
    split_and!; try done. by apply list_elem_of_here.
Qed.

Lemma readEndnameInfo_Some (rn : @Network EndName SrvName _ _ _ _) e i : readEndnameInfo rn e = Some i ->
  end_enabled rn e = true /\ connections rn !! e = Some (Some (i_servername i)) /\
  servers rn !! i_servername i = Some (Some (i_server i)).
Proof. unfold readEndnameInfo, server_of. intros Hi. repeat case_match; by simplify_eq/=. Qed.

Lemma hp_inv_early evs ev c req T pc p : dispatches c evs = 0%nat -> is_dispatch c ev = false ->
  hp_inv (evs ++ [ev]) c (mkThread req T pc NotStarted) p.
Proof. intros Hd He. unfold hp_inv; cbn. rewrite dispatches_snoc, He. lia. Qed.

Lemma pc_inv_early evs ev c req T pc : dispatches c evs = 0%nat -> is_dispatch c ev = false ->
  match pc with Sending | Accepted | TimingOut _ => True | _ => False end ->
  pc_inv (evs ++ [ev]) c (mkThread req T pc NotStarted).
Proof.
  intros Hd He Hpc. unfold pc_inv; cbn. rewrite dispatches_snoc, He. destruct pc; try done; by split; [|lia].
Qed.

(** The handler's goroutine moves on by itself. *)
Lemma pc_inv_hp evs evs' c req T pc hp hp' : hp <> NotStarted -> hp <> Gone -> hp' <> NotStarted ->
  (hp' = Gone -> forall i, pc <> Waiting i) ->
  (forall i, routed evs c (mkThread req T pc hp) i -> routed evs' c (mkThread req T pc hp') i) ->
  (forall p, hp_inv evs c (mkThread req T pc hp) p -> hp_inv evs' c (mkThread req T pc hp') p) ->
  pc_inv evs c (mkThread req T pc hp) -> pc_inv evs' c (mkThread req T pc hp').
Proof.
  intros Hn Hg Hn' Hg' Hro Hh Hp. unfold pc_inv, replied in *; cbn in *.
  destruct pc as [| | |i|i [r|]|ms r| |r|[v|]]; try naive_solver.
  destruct (rp_ok r); naive_solver.
Qed.

Lemma call_step_inv evs ev w w' c t t' : run evs NewWorld = Next w -> call_of ev = Some c ->
  w_calls w !! c = Some t -> call_step ev w t = Next w' -> w_calls w' !! c = Some t' ->
  pc_inv evs c t -> pc_inv (evs ++ [ev]) c t'.
Proof.
  intros Hrun Hc Ht Hs Ht' Hp. destruct t as [req T pc hp].
  assert (forall t1 rn srv l, Next (mkWorld rn srv l (<[c := t1]> (w_calls w))) = Next w' -> t' = t1) as Hx.
  { intros t1 rn srv l [= <-]. cbn in Ht'. apply lookup_lt_Some in Ht.
    rewrite list_lookup_insert_eq in Ht' by done. congruence. }
  unfold pc_inv in Hp. simpl in Hp.
  destruct ev; simpl in Hc; simplify_eq; unfold call_step in Hs; cbn -[process_start process_deliver process_reply] in Hs.
  - (* AcceptE *) destruct pc; try done. destruct Hp as [-> Hd].
    destruct (w_looping w); [|done]. rewrite (Hx _ _ _ _ Hs). by apply pc_inv_early.
  - (* AbandonE *) destruct pc; try done. destruct Hp as [-> Hd].
    destruct (rn_done _); [|done]. rewrite (Hx _ _ _ _ Hs). exists 0%nat.
    by apply hp_inv_early.
  - (* StartE *) destruct pc; try done. destruct Hp as [-> Hd].
    destruct (decide _); [|done]. rewrite (Hx _ _ _ _ Hs). unfold process_start.
    destruct (readEndnameInfo _ _) as [i|] eqn:Ei; [|by apply pc_inv_early].
    unfold pc_inv; cbn. rewrite dispatches_snoc; cbn. split; [by split; [|lia]|].
    exists w, r. split; [by apply at_event_last|]. by apply readEndnameInfo_Some.
  - (* DeliverE *) destruct pc; try done. destruct Hp as [[-> Hd] Hro].
    destruct (decide _); [|done]. unfold process_deliver in Hs.
    destruct (_ && _); rewrite (Hx _ _ _ _ Hs).
    + exists 0%nat. by apply hp_inv_early.
    + unfold pc_inv, hp_inv; cbn. rewrite dispatches_snoc; cbn. rewrite Hd.
      split; [done|]. by eapply routed_snoc.
  - (* DispatchE *) destruct hp as [|p| | |]; try (by destruct pc).
    assert (Hstep : match w_servers w !! p with
      | Some rs => exit_or (Server_dispatch rs req).1 (fun '(rcvr, m, args) =>
          Next (mkWorld (w_net w) (<[p := (Server_dispatch rs req).2]> (w_servers w)) (w_looping w)
            (<[c := mkThread req T pc (Running rcvr m args)]> (w_calls w))))
      | None => Blocked end = Next w') by (destruct pc; exact Hs).
    destruct (w_servers w !! p) as [rs|] eqn:Ep; [|done]. unfold exit_or in Hstep.
    destruct (Server_dispatch rs req).1 as [[[rcvr m] args]|] eqn:Ed; [|done].
    rewrite (Hx _ _ _ _ Hstep). eapply pc_inv_hp; [..|exact Hp]; [done..|intros i; by apply routed_snoc|].
    intros q [Hq ->]. split.
    + rewrite dispatches_snoc, Hq; cbn. by rewrite bool_decide_true.
    + exists w, rs. split; [by apply at_event_last|done].
  - (* ReturnE *) destruct hp as [| |rcvr m args| |]; try (by destruct pc).
    assert (Hstep : (if decide (TypeOf replyv = In2Elem m) then
        Next (mkWorld (w_net w) (w_servers w) (w_looping w)
          (<[c := mkThread req T pc (Offering (dispatch_reply replyv))]> (w_calls w)))
        else Blocked) = Next w') by (destruct pc; exact Hs).
    destruct (decide _); [|done].
    rewrite (Hx _ _ _ _ Hstep). eapply pc_inv_hp; [..|exact Hp]; [done..|intros i; by apply routed_snoc|].
    intros p [Hd Hr]. unfold hp_inv; cbn. split; [rewrite dispatches_snoc; cbn; lia|].
    exists rcvr, m, args, replyv. split_and!; [by eapply ran_snoc| |done|done].
    apply elem_of_app. right. by apply list_elem_of_here.
  - (* ReceiveE *) destruct pc as [| | |i| | | | |]; try done. destruct hp as [| | |r|]; try done.
    rewrite (Hx _ _ _ _ Hs). destruct Hp as [[[Hd Ha] _] Hro]. unfold pc_inv, replied; cbn.
    split_and!; [done|rewrite dispatches_snoc; cbn; lia|by eapply answered_snoc|by eapply routed_snoc].
  - (* TickE *) destruct pc as [| | |i| | | | |]; try done. destruct (isServerDead _ _ _).
    + rewrite (Hx _ _ _ _ Hs). exists (i_server i). eapply hp_inv_snoc; [done..|apply Hp].
    + injection Hs as <-. simplify_eq. destruct Hp as [[? ?] ?].
      split; [split; [by eapply hp_inv_snoc|done]|by eapply routed_snoc].
  - (* DrainE *) assert (forall i, pc <> Waiting i) as Hw by (by intros i ->).
    destruct hp as [| | |r|]; try (by destruct pc).
    assert (Hstep : Next (mkWorld (w_net w) (w_servers w) (w_looping w)
          (<[c := mkThread req T pc Gone]> (w_calls w))) = Next w') by (destruct pc; try exact Hs; naive_solver).
    rewrite (Hx _ _ _ _ Hstep). eapply pc_inv_hp; [..|exact Hp]; [done..|intros i; by apply routed_snoc|].
    intros p [Hd _]. unfold hp_inv; cbn. rewrite dispatches_snoc; cbn; lia.
  - (* ReplyE *) destruct pc as [| | | |i reply| | | |]; try done. destruct (decide _); [|done].
    destruct (process_reply _ _ _ _ _ _ _) as [pc' rn'] eqn:Er. rewrite (Hx _ _ _ _ Hs).
    assert (exists p, hp_inv evs c (mkThread req T (Checking i reply) hp) p) as [p Hh].
    { destruct reply; [|done]. destruct Hp as ((E&?&_)&_). cbn in E. subst hp. by exists 0%nat. }
    assert (forall pc, hp_inv (evs ++ [ReplyE c r1 r2 r3]) c (mkThread req T pc hp) p) as Hh'.
    { intros pc. by eapply hp_inv_snoc. }
    unfold process_reply in Er. destruct (isServerDead _ _ _) eqn:Ed; [simplify_eq; by exists p|].
    destruct reply as [r|]; [|simplify_eq; by exists p].
    assert (validated (evs ++ [ReplyE c r1 r2 r3]) c (mkThread req T (Checking i (Some r)) hp) i) as Hv.
    { split; [eapply routed_snoc; [done|apply Hp]|].
      exists w, r1, r2, r3. split; [by apply at_event_last|done]. }
    assert (replied (evs ++ [ReplyE c r1 r2 r3]) c (mkThread req T (Checking i (Some r)) hp) i r) as Hr
      by (eapply replied_snoc; [done..|apply Hp]).
    destruct (_ && _); [simplify_eq; by exists p|].
    destruct (_ && _); simplify_eq; unfold pc_inv; cbn; [by exists i|].
    assert (rp_ok r = true) as -> by (destruct Hp as ((_&_&?&?&?&?&_&_&_&->)&_); done). by exists i.
  - (* FireE *) destruct pc as [| | | | |ms r|ms| |]; try done; rewrite (Hx _ _ _ _ Hs).
    + destruct Hp as (i&Hr&Hv). unfold pc_inv; cbn.
      assert (rp_ok r = true) as -> by (destruct Hr as (_&_&?&?&?&?&_&_&_&->); done).
      exists i. split; [by eapply replied_snoc|by eapply validated_snoc].
    + destruct Hp as [-> Hd]. exists 0%nat. by apply hp_inv_early.
  - (* AnswerE *) destruct pc as [| | | | | | |r|]; try done. unfold exit_or, Call_result in Hs.
    destruct (rp_ok r) eqn:Eo.
    + destruct (DecodeInto _ _) as [v|] eqn:Ev; [|done]. rewrite (Hx _ _ _ _ Hs).
      destruct Hp as (i&Hr&Hv). exists i, r. cbn.
      split_and!; [by eapply replied_snoc|by eapply validated_snoc|done].
    + rewrite (Hx _ _ _ _ Hs). destruct Hp as [p ?]. exists p. by eapply hp_inv_snoc.
Qed.

Lemma step_dispatch ev w w' c : step ev w = Next w' -> is_dispatch c ev = true ->
  is_Some (w_calls w !! c).
Proof.
  destruct ev; cbn; try done. intros Hs ->%bool_decide_eq_true. unfold step in Hs; cbn in Hs.
  destruct (w_calls w !! _); [eauto|done].
Qed.

Lemma Server_dispatch_args evs (t : Thread) args rs rcvr m a : sent evs t args ->
  (Server_dispatch rs (t_req t)).1 = Some (rcvr, m, a) -> a = args.
Proof.
  intros (_&He&HT&Ha). unfold Server_dispatch, Service_dispatch; cbn.
  repeat case_match; try done. intros [= _ _ <-].
  by rewrite HT, Ha, DecodeInto_EncodeValue.
Qed.

Lemma pc_inv_dispatches evs c (t : Thread) : pc_inv evs c t -> (dispatches c evs <= 1)%nat.
Proof.
  assert (forall p, hp_inv evs c t p -> (dispatches c evs <= 1)%nat) as Hh.
  { intros p. unfold hp_inv. destruct (t_hp t); lia. }
  unfold pc_inv, replied. destruct (t_pc t) as [| | |i|i [r|]|ms r| |r|[v|]]; try naive_solver lia.
  destruct (rp_ok r); naive_solver lia.
Qed.

Lemma run_inv evs w : run evs NewWorld = Next w ->
  ends_ok w /\ (forall c, w_calls w !! c = None -> dispatches c evs = 0%nat) /\
  forall c t, w_calls w !! c = Some t -> call_inv evs c t.
Proof.
  revert w. induction evs as [|ev evs IH] using rev_ind; intros w.
  { intros [= <-]. split_and!; [by intros ? ? ?|done|]. by intros c t ?%list_elem_of_lookup_2%elem_of_nil. }
  intros (w1&Hr&Hs)%run_snoc. destruct (IH _ Hr) as (Hok&Hd&Hi).
  split; [by eapply step_ends_ok|]. split.
  - intros c Hc. destruct (is_dispatch c ev) eqn:Ed.
    + destruct (step_dispatch _ _ _ _ Hs Ed) as [t Ht].
      destruct (step_keeps _ _ _ _ _ Hs Ht) as [t' ?]. congruence.
    + rewrite dispatches_snoc, Ed, Hd; [done|]. apply eq_None_not_Some. intros [t Ht].
      destruct (step_keeps _ _ _ _ _ Hs Ht) as [t' ?]. congruence.
  - intros c t Ht.
    destruct (step_cases _ _ _ _ _ Hs Hok Ht) as [[? Hc]|[(t0&Ht0&Hc&Hcs&?&?)|(Hc&Hn&Hp&Hh&args&Ha)]].
    + apply call_inv_snoc; [|by apply Hi]. destruct ev; try done. cbn. apply bool_decide_false.
      intros ->. by apply Hc.
    + destruct (Hi _ _ Ht0) as [[args ?] ?]. split; [exists args; by eapply sent_snoc|].
      by eapply call_step_inv.
    + split; [exists args; destruct Ha as [??]; split; [apply elem_of_app; by right|done]|].
      unfold pc_inv. rewrite Hp. split; [done|]. rewrite dispatches_snoc, Hd by done. by destruct ev.
Qed.

(** ** Termination *)

(** An upper bound on the steps a call has left. *)
Definition pc_weight (pc : @Pc _ SrvName) : nat :=
  match pc with
  | Sending => 12 | Accepted => 11 | Delaying _ => 10 | Waiting _ => 5 | Checking _ _ => 4
  | Reordering _ _ | TimingOut _ => 3 | Replying _ => 2 | Returned _ => 0
  end.
Definition hp_weight (hp : Hp) : nat :=
  match hp with Dispatching _ => 3 | Running _ _ _ => 2 | Offering _ => 1 | NotStarted | Gone => 0 end.
Definition weight (t : Thread) : nat := (pc_weight (t_pc t) + hp_weight (t_hp t))%nat.

(** The steps of call [c] other than the polls of [isServerDead]. *)
Definition own c ev : bool :=
  match ev with TickE _ => false | _ => bool_decide (call_of ev = Some c) end.
Definition own_steps c evs : nat := length (List.filter (own c) evs).

Lemma call_step_weight ev w t w' c t' : call_of ev = Some c -> w_calls w !! c = Some t ->
  call_step ev w t = Next w' -> w_calls w' !! c = Some t' ->
  (weight t' + (if own c ev then 1 else 0) <= weight t)%nat.
Proof.
  intros Hc Ht Hs Ht'. pose proof (lookup_lt_Some _ _ _ Ht). destruct t as [req T pc hp].
  unfold call_step, exit_or, process_start, process_deliver, process_reply in Hs; cbn in Hs.
  destruct ev; simpl in Hc; simplify_eq; unfold own; cbn [call_of]; try rewrite bool_decide_true by done;
    unfold weight; destruct pc, hp; try done;
    repeat case_match; simplify_eq/=;
    try (rewrite list_lookup_insert_eq in Ht' by done; simplify_eq/=); lia.
Qed.

Lemma own_steps_snoc c evs ev :
  own_steps c (evs ++ [ev]) = (own_steps c evs + if own c ev then 1 else 0)%nat.
Proof. unfold own_steps. rewrite List.filter_app, length_app. simpl. by destruct (own c ev). Qed.

Lemma own_call c ev : own c ev = true -> call_of ev = Some c.
Proof. destruct ev; cbn; try done; intros E%bool_decide_eq_true; done. Qed.

Lemma run_weight evs w : run evs NewWorld = Next w ->
  (forall c, w_calls w !! c = None -> own_steps c evs = 0%nat) /\
  forall c t, w_calls w !! c = Some t -> (own_steps c evs + weight t <= 12)%nat.
Proof.
  revert w. induction evs as [|ev evs IH] using rev_ind; intros w.
  { intros [= <-]. split; [done|]. by intros c t ?%list_elem_of_lookup_2%elem_of_nil. }
  intros (w1&Hr&Hs)%run_snoc. destruct (IH _ Hr) as [Hn Hw]. destruct (run_inv _ _ Hr) as (Hok&_&_).
  split.
  - intros c Hc. assert (w_calls w1 !! c = None) as H1'.
    { apply eq_None_not_Some. intros [t Ht]. destruct (step_keeps _ _ _ _ _ Hs Ht). congruence. }
    rewrite own_steps_snoc, Hn by done. destruct (own c ev) eqn:Eo; [|done].
    apply own_call in Eo. unfold step in Hs. by rewrite Eo, H1' in Hs.
  - intros c t Ht. rewrite own_steps_snoc.
    destruct (step_cases _ _ _ _ _ Hs Hok Ht) as [[? Hc]|[(t0&Ht0&Hc&Hcs&_)|(Hc&Hnone&Hp&Hh&_)]].
    + assert (own c ev = false) as -> by (apply not_true_iff_false; by intros ?%own_call).
      rewrite Nat.add_0_r. auto.
    + pose proof (call_step_weight _ _ _ _ _ _ Hc Ht0 Hcs Ht). pose proof (Hw _ _ Ht0). lia.
    + assert (own c ev = false) as -> by (apply not_true_iff_false; intros ?%own_call; congruence).
      rewrite Hn by done. unfold weight. by rewrite Hp, Hh.
Qed.

(** Server pointers are valid, and the accepting goroutine stops only after [Cleanup]. *)
Definition thread_ok (n : nat) (t : Thread) : Prop :=
  (forall i, t_pc t = Delaying i -> (i_server i < n)%nat) /\
  (forall p, t_hp t = Dispatching p -> (p < n)%nat).
Definition servers_ok w : Prop :=
  (forall s p, server_of (w_net w) s = Some p -> (p < length (w_servers w))%nat) /\
  (w_looping w = false -> rn_done (w_net w) = true) /\
  Forall (thread_ok (length (w_servers w))) (w_calls w).

Lemma thread_ok_mono n n' t : (n <= n')%nat -> thread_ok n t -> thread_ok n' t.
Proof. intros Hn [Hi Hp]. split; [intros i ?%Hi|intros p ?%Hp]; lia. Qed.

Lemma servers_ok_net ev w w' : net_step ev w = Next w' -> servers_ok w -> servers_ok w'.
Proof.
  intros Hs (Hsrv&Hl&Ht). unfold net_step, exit_or, MakeEnd, Cleanup, Call_request in Hs.
  destruct ev; repeat case_match; simplify_eq; try (split_and!; cbn; by auto);
    split_and!; cbn; try done.
  - intros s' p. unfold server_of; cbn. rewrite lookup_insert. destruct (decide (s = s')); [intros; by simplify_eq/=|apply Hsrv].
  - intros s' p. unfold server_of; cbn. rewrite lookup_insert. destruct (decide (s = s')); [done|apply Hsrv].
  - intros _. by apply andb_true_iff in H3 as [? _].
  - intros s p ?%Hsrv. rewrite length_app. lia.
  - eapply Forall_impl; [exact Ht|]. intros t. apply thread_ok_mono. rewrite length_app. lia.
  - by rewrite length_insert.
  - by rewrite length_insert.
  - apply Forall_app. split; [done|]. by repeat constructor.
Qed.

Lemma servers_ok_call ev w t w' c : call_of ev = Some c -> w_calls w !! c = Some t ->
  call_step ev w t = Next w' -> servers_ok w -> servers_ok w'.
Proof.
  intros Hc Ht Hs (Hsrv&Hl&Hall). pose proof (Forall_lookup_1 _ _ _ _ Hall Ht) as [Hi Hp].
  assert (forall pc hp rn srv, servers rn = servers (w_net w) -> rn_done rn = rn_done (w_net w) ->
    length srv = length (w_servers w) ->
    (forall i, pc = Delaying i -> (i_server i < length (w_servers w))%nat) ->
    (forall p, hp = Dispatching p -> (p < length (w_servers w))%nat) ->
    servers_ok (mkWorld rn srv (w_looping w) (<[c := mkThread (t_req t) (t_replyType t) pc hp]> (w_calls w)))) as Hx.
  { intros pc hp rn srv E1 E2 E3 Hi' Hp'. unfold servers_ok, server_of; cbn. rewrite E1, E2, E3.
    split_and!; [done|done|]. by apply Forall_insert. }
  unfold call_step, exit_or, process_deliver, process_reply in Hs.
  destruct ev; simpl in Hc; simplify_eq; destruct (t_pc t) eqn:Epc, (t_hp t) eqn:Ehp; try done;
    repeat case_match; simplify_eq; try (by split_and!);
    apply Hx; try done; try (by rewrite length_insert); try (by intros; simplify_eq; eauto).
  all: unfold process_start, readEndnameInfo; intros i; repeat case_match; try done;
    intros; simplify_eq; cbn; eauto.
Qed.

Lemma run_servers_ok evs w : run evs NewWorld = Next w -> servers_ok w.
Proof.
  revert w. induction evs as [|ev evs IH] using rev_ind; intros w.
  { intros [= <-]. split_and!; [|done|by constructor]. intros s p. unfold server_of; cbn.
    by rewrite lookup_empty. }
  intros (w1&Hr&Hs)%run_snoc. apply IH in Hr. unfold step in Hs.
  destruct (call_of ev) as [c|] eqn:Ec; [|by eapply servers_ok_net].
  destruct (_ !! _) eqn:Et; [|done]. by eapply servers_ok_call.
Qed.

(** A call that has not returned can make a step, unless its handler is running. *)
Lemma call_enabled evs w c t : run evs NewWorld = Next w -> w_calls w !! c = Some t ->
  (forall v, t_pc t <> Returned v) -> (forall rcvr m args, t_hp t <> Running rcvr m args) ->
  exists ev, own c ev = true /\ (forall v, ev <> ReturnE c v) /\ step ev w <> Blocked.
Proof.
  intros Hr Ht Hret Hrun. destruct (run_servers_ok _ _ Hr) as (_&Hl&Hall).
  pose proof (Forall_lookup_1 _ _ _ _ Hall Ht) as [_ Hp].
  destruct (run_inv _ _ Hr) as (_&_&Hi). destruct (Hi _ _ Ht) as [_ Hpc]. unfold pc_inv in Hpc.
  assert (forall ev, own c ev = true -> (forall v, ev <> ReturnE c v) -> call_step ev w t <> Blocked ->
    exists ev, own c ev = true /\ (forall v, ev <> ReturnE c v) /\ step ev w <> Blocked) as Hx.
  { intros ev He Hv Hs. exists ev. split_and!; [done..|]. unfold step. by rewrite (own_call _ _ He), Ht. }
  unfold call_step, exit_or in Hx. destruct (t_pc t) as [| |i|i|i reply|ms r|ms|r|v] eqn:Epc.
  - destruct (w_looping w) eqn:El.
    + apply (Hx (AcceptE c)); [cbn; by rewrite bool_decide_true|done..].
    + apply (Hx (AbandonE c)); [cbn; by rewrite bool_decide_true|done|by rewrite Hl].
  - apply (Hx (StartE c 0)); [cbn; by rewrite bool_decide_true|done..].
  - apply (Hx (DeliverE c 0)); [cbn; by rewrite bool_decide_true|done|].
    unfold process_deliver. by destruct (_ && _).
  - destruct (t_hp t) as [|p|rcvr m args|r|] eqn:Ehp;
      [by destruct Hpc as ((_&?&_)&_)| |by destruct (Hrun rcvr m args)| |by destruct Hpc as ((_&_&?)&_)].
    + apply (Hx (DispatchE c)); [cbn; by rewrite bool_decide_true|done|].
      destruct (lookup_lt_is_Some_2 (w_servers w) p) as [rs ->]; [auto|].
      destruct (Server_dispatch rs (t_req t)) as [[[[??]?]|] ?]; done.
    + apply (Hx (ReceiveE c)); [cbn; by rewrite bool_decide_true|done..].
  - apply (Hx (ReplyE c 0 0 0)); [cbn; by rewrite bool_decide_true|done|].
    rewrite decide_True by lia. by destruct (process_reply _ _ _ _ _ _ _).
  - apply (Hx (FireE c)); [cbn; by rewrite bool_decide_true|done..].
  - apply (Hx (FireE c)); [cbn; by rewrite bool_decide_true|done..].
  - apply (Hx (AnswerE c)); [cbn; by rewrite bool_decide_true|done|].
    by destruct (Call_result _ _).
  - by destruct (Hret v).
Qed.
End labrpc.
