(* ===== verification/LabrpcProps.v ===== *)
(** * labrpc: what a [Call] promises

    A call that returns true had its handler run exactly once, on the values sent,
    by the server its end was connected to, which had not been deleted when the reply
    was let through, and returns what the handler answered ([rpc_true_executed_once]).
    A call takes at most twelve steps and is never stuck but in its handler
    ([call_terminates]). On a reliable network no call to a live server fails
    ([reliable_calls_succeed]). The counter of requests is their number modulo
    [2^32] ([total_count_wraps]). *)
From Stdlib Require Import Strings.Byte Strings.Ascii.
From S2P Require Import Prelude Labrpc LabrpcInv.

Section labrpc.
Context `{ValuesLaws} {EndName SrvName : Type} `{Countable EndName} `{Countable SrvName}.
Abbreviation World := (@World _ EndName SrvName _ _ _ _).
Abbreviation Event := (@Event _ EndName SrvName).
Abbreviation Thread := (@Thread _ EndName SrvName).
Abbreviation EndInfo := (@EndInfo SrvName).
Implicit Types (w : World) (ev : Event) (evs : list Event) (c : nat).

(** ** A healthy connection *)

(** End [e] is enabled and connected to the server [p], the network is up, reliable
    and does not reorder. *)
Record healthy (e : EndName) (s : SrvName) (p : nat) w : Prop := {
  h_reliable : reliable (w_net w) = true;
  h_order : longReordering (w_net w) = false;
  h_enabled : end_enabled (w_net w) e = true;
  h_connected : connections (w_net w) !! e = Some (Some s);
  h_server : server_of (w_net w) s = Some p;
  h_up : rn_done (w_net w) = false
}.

(** The events that are not operations on the network. *)
Definition traffic ev : Prop :=
  match ev with
  | CallE _ _ _ _ | MakeServerE | AddServiceE _ _ => True
  | _ => is_Some (call_of ev)
  end.

(** No failure of call [t] so far. *)
Definition unfailed (s : SrvName) (p : nat) (t : Thread) : Prop :=
  match t_pc t with
  | Sending | Accepted => True
  | Delaying i | Waiting i | Checking i (Some _) => i = mkEndInfo s p true false
  | Checking _ None | Reordering _ _ | TimingOut _ => False
  | Replying r => rp_ok r = true
  | Returned v => is_Some v
  end /\
  match t_pc t with
  | Waiting _ => match t_hp t with Offering r => rp_ok r = true | _ => True end
  | Checking _ (Some r) => rp_ok r = true
  | _ => True
  end.

Lemma traffic_net ev w w' : traffic ev -> step ev w = Next w' ->
  forall e s p, healthy e s p w -> healthy e s p w'.
Proof.
  intros Hev Hs e s p Hw. unfold step in Hs. destruct (call_of ev) as [c|] eqn:Ec.
  - destruct (_ !! _) as [t|]; [|done]. destruct Hw.
    unfold call_step, exit_or, process_reply in Hs.
    destruct ev, (t_pc t), (t_hp t); try done; repeat case_match; simplify_eq; by split.
  - unfold net_step, exit_or in Hs. destruct ev; try (by destruct Hev); repeat case_match; simplify_eq; first [done | by destruct Hw].
Qed.

Lemma unfailed_step ev w w' c t t' e s p : healthy e s p w -> call_of ev = Some c ->
  w_calls w !! c = Some t -> call_step ev w t = Next w' -> w_calls w' !! c = Some t' ->
  rq_endname (t_req t) = e -> unfailed s p t -> unfailed s p t'.
Proof.
  intros [Hre Ho He Hc Hsv Hup] Hev Ht Hs Ht' He' [Hp Hh].
  assert (readEndnameInfo (w_net w) e = Some (mkEndInfo s p true false)) as Hread.
  { unfold readEndnameInfo. by rewrite He, Hc, Hsv, Hre, Ho. }
  assert (isServerDead (w_net w) e (mkEndInfo s p true false) = false) as Halive.
  { unfold isServerDead; cbn. rewrite He, Hsv, bool_decide_true; done. }
  pose proof (lookup_lt_Some _ _ _ Ht) as Hlt. destruct t as [req T pc hp]; cbn in *; subst e.
  unfold call_step, exit_or, process_start, process_deliver, process_reply, Call_result in Hs; cbn in Hs.
  unfold unfailed.
  destruct ev; simpl in Hev; simplify_eq; destruct pc; try done; cbn in *;
    rewrite ?Hread, ?Hup in Hs; simplify_eq; repeat case_match; simplify_eq/=;
    try (rewrite list_lookup_insert_eq in Ht' by done; simplify_eq/=); first [done|congruence].
Qed.

Lemma ends_ok_run evs w w' : run evs w = Next w' -> ends_ok w -> ends_ok w'.
Proof.
  revert w. induction evs as [|ev evs IH]; intros w; simpl; [by intros [= <-]|].
  destruct (step ev w) as [w1| |] eqn:Es; [|done..]. intros Hr Hok.
  eapply IH; [exact Hr|]. by eapply step_ends_ok.
Qed.

Lemma healthy_run evs w w' e s p : Forall traffic evs -> run evs w = Next w' ->
  healthy e s p w -> healthy e s p w'.
Proof.
  revert w. induction evs as [|ev evs IH]; intros w Ht; simpl; [by intros [= <-]|].
  inversion Ht; subst. destruct (step ev w) as [w1| |] eqn:Es; [|done..]. intros Hr Hh.
  eapply IH; [done|exact Hr|]. by eapply traffic_net.
Qed.

Lemma unfailed_run evs w w' e s p : Forall traffic evs -> run evs w = Next w' ->
  healthy e s p w -> ends_ok w ->
  forall c t, (length (w_calls w) <= c)%nat -> w_calls w' !! c = Some t ->
    rq_endname (t_req t) = e -> unfailed s p t.
Proof.
  intros Hev Hr Hh Hok. revert w' Hev Hr. induction evs as [|ev evs IH] using rev_ind; intros w' Hev Hr c t Hc Ht He.
  { simplify_eq/=. apply lookup_lt_Some in Ht. lia. }
  apply run_snoc in Hr as (w1&Hr&Hs). apply Forall_app in Hev as [Hev _].
  pose proof (healthy_run _ _ _ _ _ _ Hev Hr Hh) as Hh1. pose proof (ends_ok_run _ _ _ Hr Hok) as Hok1.
  destruct (step_cases _ _ _ _ _ Hs Hok1 Ht) as [[? _]|[(t0&Ht0&Hce&Hcs&Hq&_)|(_&_&Hp&_)]].
  - eauto.
  - rewrite Hq in He. eapply unfailed_step; eauto.
  - unfold unfailed. by rewrite Hp.
Qed.

(** On a reliable network that does not reorder, no call made through an end that is
    enabled and connected to a registered server returns false, as long as no operation
    on the network intervenes, however the calls interleave. *)
Theorem reliable_calls_succeed evs0 w0 evs w e s p c t v :
  run evs0 NewWorld = Next w0 -> healthy e s p w0 ->
  Forall traffic evs -> run evs w0 = Next w ->
  (length (w_calls w0) <= c)%nat -> w_calls w !! c = Some t -> rq_endname (t_req t) = e ->
  t_pc t = Returned v -> is_Some v.
Proof.
  intros H0' Hh Hev Hr Hc Ht He Hv. destruct (run_inv _ _ H0') as (Hok&_&_).
  destruct (unfailed_run _ _ _ _ _ _ Hev Hr Hh Hok _ _ Hc Ht He) as [Hu _].
  by rewrite Hv in Hu.
Qed.

(** C29: A [Call] that returns true with reply [v]: when the network took the request (state
    [w0] of the run) the end it was made through was enabled and connected to a server name
    under which the server [i_server i] was registered; that server, and no other, started
    the handler, exactly once, for the method the request names and on the argument passed
    to [Call]; it answered [v]; and when the reply was let through (state [w2]) the end was
    enabled and that server was still the one registered under that name. *)
Theorem rpc_true_executed_once evs w c t v :
  run evs NewWorld = Next w -> w_calls w !! c = Some t -> t_pc t = Returned (Some v) ->
  exists args w0 r0 i w1 rs rcvr m replyv w2 r1 r2 r3,
    sent evs t args /\
    at_event evs (StartE c r0) w0 /\ end_enabled (w_net w0) (rq_endname (t_req t)) = true /\
    connections (w_net w0) !! rq_endname (t_req t) = Some (Some (i_servername i)) /\
    servers (w_net w0) !! i_servername i = Some (Some (i_server i)) /\
    dispatches c evs = 1%nat /\
    at_event evs (DispatchE c) w1 /\ w_servers w1 !! i_server i = Some rs /\
    (Server_dispatch rs (t_req t)).1 = Some (rcvr, m, args) /\
    ReturnE c replyv ∈ evs /\ TypeOf replyv = In2Elem m /\
    DecodeInto (t_replyType t) (EncodeValue replyv).1 = Some v /\
    (t_replyType t = In2Elem m -> (EncodeValue replyv).2 = true -> v = replyv) /\
    at_event evs (ReplyE c r1 r2 r3) w2 /\
    end_enabled (w_net w2) (rq_endname (t_req t)) = true /\
    servers (w_net w2) !! i_servername i = Some (Some (i_server i)).
Proof.
  intros Hr Ht Hv. destruct (run_inv _ _ Hr) as (_&_&Hi). destruct (Hi _ _ Ht) as [[args Hs] Hp].
  unfold pc_inv in Hp. rewrite Hv in Hp.
  destruct Hp as (i&r&(Hg&Hd&rcvr&m&a&replyv&(w1&rs&Hat&Hrs&Hdis)&Hret&Hty&->)&
    ((w0&r0&Hat0&He0&Hc0&Hs0)&w2&r1&r2&r3&Hat2&Hal)&Hdec).
  pose proof (Server_dispatch_args _ _ _ _ _ _ _ Hs Hdis) as ->.
  unfold isServerDead in Hal. apply orb_false_iff in Hal as [He Hsv].
  apply negb_false_iff in He, Hsv. apply bool_decide_eq_true in Hsv. cbn in Hdec.
  assert (servers (w_net w2) !! i_servername i = Some (Some (i_server i))) as Hs2.
  { unfold server_of in Hsv. destruct (servers (w_net w2) !! _); [by rewrite Hsv|done]. }
  exists args, w0, r0, i, w1, rs, rcvr, m, replyv, w2, r1, r2, r3. split_and!; try done.
  intros HT Henc. rewrite HT, <-Hty, DecodeInto_EncodeValue in Hdec by done. congruence.
Qed.


(** C30: A [Call] makes at most twelve steps, the polls of [isServerDead] aside, and
    starts its handler at most once, whatever it returns; until it returns one of its
    steps can be made, unless the handler is running and has not returned. *)
Theorem call_terminates evs w c t :
  run evs NewWorld = Next w -> w_calls w !! c = Some t ->
  (own_steps c evs <= 12)%nat /\ (dispatches c evs <= 1)%nat /\
  ((exists v, t_pc t = Returned v) \/
   (exists rcvr m args, t_hp t = Running rcvr m args /\
      forall v, TypeOf v = In2Elem m -> step (ReturnE c v) w <> Blocked) \/
   (exists ev, own c ev = true /\ (forall v, ev <> ReturnE c v) /\ step ev w <> Blocked)).
Proof.
  intros Hr Ht. split_and!.
  - pose proof (proj2 (run_weight _ _ Hr) _ _ Ht). lia.
  - destruct (run_inv _ _ Hr) as (_&_&Hi). apply (pc_inv_dispatches _ _ t), Hi, Ht.
  - destruct (t_hp t) as [| |rcvr m args| |] eqn:Eh.
    3: { right; left. exists rcvr, m, args. split; [done|]. intros v Hv.
         unfold step; cbn. rewrite Ht. unfold call_step. rewrite Eh.
         destruct (t_pc t); by rewrite decide_True. }
    all: destruct (t_pc t) eqn:Epc; try (by left; eauto);
      right; right; eapply call_enabled; eauto; by rewrite ?Epc, ?Eh.
Qed.

(** ** Counting *)

Definition is_accept ev : bool := match ev with AcceptE _ => true | _ => false end.

Lemma wrap_add_1 x : wrap 32 (wrap 32 x + 1) = wrap 32 (x + 1).
Proof.
  unfold wrap. change (2 ^ (32 - 1)) with 2147483648. change (2 ^ 32) with 4294967296.
  replace ((x + 2147483648) mod 4294967296 - 2147483648 + 1 + 2147483648)
    with ((x + 2147483648) mod 4294967296 + 1) by lia.
  rewrite Zplus_mod_idemp_l. f_equal. f_equal. lia.
Qed.

Lemma step_count ev w w' : step ev w = Next w' ->
  rn_count (w_net w') = if is_accept ev then wrap 32 (rn_count (w_net w) + 1) else rn_count (w_net w).
Proof.
  intros Hs. unfold step in Hs. destruct (call_of ev) eqn:Ec.
  - destruct (_ !! _) as [t|]; [|done]. unfold call_step, exit_or, process_reply in Hs.
    destruct ev, (t_pc t); try done; repeat case_match; by simplify_eq.
  - unfold net_step, exit_or, MakeEnd, Cleanup in Hs.
    destruct ev; try done; repeat case_match; by simplify_eq.
Qed.

(** C39: [GetTotalCount] is the number of requests the network accepted, modulo [2^32]: it is
    exact below [2^31] and always a value of [int32]. *)
Theorem total_count_wraps evs w : run evs NewWorld = Next w ->
  let n := len (List.filter is_accept evs) in
  GetTotalCount (w_net w) = wrap 32 n /\ -2 ^ 31 <= GetTotalCount (w_net w) < 2 ^ 31 /\
  (n < 2 ^ 31 -> GetTotalCount (w_net w) = n).
Proof.
  intros Hr. cbn zeta.
  assert (GetTotalCount (w_net w) = wrap 32 (len (List.filter is_accept evs))) as ->.
  { unfold GetTotalCount. revert w Hr. induction evs as [|ev evs IH] using rev_ind; intros w.
    { by intros [= <-]. }
    intros (w1&Hr&Hs)%run_snoc. rewrite (step_count _ _ _ Hs), (IH _ Hr), List.filter_app, length_app.
    simpl. destruct (is_accept ev); simpl; [rewrite wrap_add_1|]; f_equal; lia. }
  unfold wrap. change (2 ^ (32 - 1)) with 2147483648. change (2 ^ 32) with 4294967296.
  change (2 ^ 31) with 2147483648.
  pose proof (Z.mod_pos_bound (len (List.filter is_accept evs) + 2147483648) 4294967296 ltac:(lia)).
  split_and!; [done|lia|lia|]. intros. rewrite Z.mod_small; lia.
Qed.

(** ** Routing *)

Lemma MakeService_methods (rcvr : Receiver) m :
  NoDup (m_Name <$> rc_methods rcvr) -> m ∈ rc_methods rcvr ->
  sv_methods (MakeService rcvr) !! m_Name m = if suitable m then Some m else None.
Proof.
  unfold MakeService; cbn. assert (forall ms (acc : gmap string Method), NoDup (m_Name <$> ms) ->
    forall n, foldl (fun ms m => if suitable m then <[m_Name m := m]> ms else ms) acc ms !! n =
      match List.find (fun m => bool_decide (m_Name m = n)) ms with
      | Some m => if suitable m then Some m else acc !! n | None => acc !! n end) as Hf.
  { induction ms as [|x ms IH]; intros acc Hnd n; simpl; [done|].
    apply NoDup_cons in Hnd as [Hx Hnd]. rewrite IH by done.
    destruct (bool_decide _) eqn:E.
    - apply bool_decide_eq_true in E as <-.
      destruct (List.find _ _) as [y|] eqn:Ey.
      { apply List.find_some in Ey as [Hy E]. apply bool_decide_eq_true in E. destruct Hx.
        rewrite <-E. apply list_elem_of_fmap_2, list_elem_of_In, Hy. }
      destruct (suitable x); [by rewrite lookup_insert_eq|done].
    - apply bool_decide_eq_false in E.
      destruct (suitable x); [by rewrite !lookup_insert_ne by done|done]. }
  intros Hnd Hm. rewrite Hf by done. destruct (List.find _ _) as [y|] eqn:Ey.
  - apply List.find_some in Ey as [Hy E]. apply bool_decide_eq_true in E.
    assert (y = m) as ->; [|by rewrite lookup_empty].
    apply list_elem_of_In in Hy. apply list_elem_of_lookup in Hy as [j Hj], Hm as [k Hk].
    assert (j = k) as ->; [|congruence].
    eapply (NoDup_lookup (m_Name <$> rc_methods rcvr)); [done|..]; rewrite list_lookup_fmap;
      [by rewrite Hj|rewrite Hk; simpl; congruence].
  - eapply List.find_none in Ey; [|by apply list_elem_of_In].
    by apply bool_decide_eq_false in Ey.
Qed.

(** A request named [svc.meth] reaches the method [meth] of the receiver whose service
    [svc] was added, with the argument sent, exactly when the method is exported and
    takes an argument and a pointer and returns nothing. *)
Theorem dispatch_routes rcvr m rs (e : EndName) args :
  NoDup (m_Name <$> rc_methods rcvr) -> m ∈ rc_methods rcvr -> no_dot (m_Name m) ->
  (EncodeValue args).2 = true -> TypeOf args = In1 m ->
  (Server_dispatch (AddService (MakeService rcvr) rs)
     (mkReqMsg e (rc_name rcvr +:+ String "." (m_Name m)) (TypeOf args) (EncodeValue args).1)).1 =
  if suitable m then Some (rc_id rcvr, m, args) else None.
Proof.
  intros Hnd Hm Hdot Henc HT. unfold Server_dispatch; cbn [fst].
  destruct (split_svcMeth (rc_name rcvr) (m_Name m) Hdot) as [Hto Hfrom]. cbn [svcMeth].
  rewrite Hto, Hfrom. cbn. rewrite lookup_insert_eq. unfold Service_dispatch; cbn.
  pose proof (MakeService_methods rcvr m Hnd Hm) as Hl. cbn in Hl. rewrite Hl.
  destruct (suitable m); [|done]. rewrite decide_True by done. by rewrite DecodeInto_EncodeValue.
Qed.
End labrpc.
