(* ===== verification/LabrpcExample.v ===== *)
(** * labrpc: a concrete run

    A codec for tagged integers, one server with one method and a call that returns;
    the hypotheses of the theorems of [LabrpcProps] hold of it. *)
From Stdlib Require Import Strings.Byte Strings.Ascii.
From S2P Require Import Prelude Labgob Labrpc LabrpcInv LabrpcProps.

(** ** Values: an integer with the number of its type *)

#[export] Instance tagged : Values := {|
  Value := nat * Z;
  GoType := nat;
  TypeOf := fst;
  zeroValue T := (T, 0);
  type_eq := _;
  EncodeValue v := (Encode v, true);
  DecodeInto T b := match Decode b with
                    | Some (v, _) => if decide (fst v = T) then Some v else None
                    | None => None
                    end
|}.

#[export] Instance tagged_laws : ValuesLaws.
Proof. intros v _. unfold EncodeValue, DecodeInto, TypeOf; cbn [tagged fst]. by rewrite Decode_Encode_nil, decide_True. Qed.

Module Example_rpc.
Definition double : Method := mkMethod "Double" "" 3 1%nat Ptr 2%nat 0.
Definition hidden : Method := mkMethod "reset" "main" 3 1%nat Ptr 2%nat 0.
Definition junk : Receiver := mkReceiver 7 "JunkServer" [double; hidden].

Definition setup : list (@Event tagged string Z) := [
  MakeServerE; AddServiceE 0 (MakeService junk);
  MakeEndE "end1"; ConnectE "end1" 99; AddServerE 99 0; EnableE "end1" true].
Definition calls : list (@Event tagged string Z) := [
  CallE "end1" "JunkServer.Double" (1%nat, 21) 2%nat; AcceptE 0; StartE 0 5; DeliverE 0 5;
  DispatchE 0; TickE 0; ReturnE 0 (2%nat, 42); ReceiveE 0; ReplyE 0 0 0 0; AnswerE 0].

Definition after (evs : list (@Event tagged string Z)) : World (EndName := string) (SrvName := Z) :=
  match run evs (NewWorld (EndName := string) (SrvName := Z)) with Next w => w | _ => NewWorld end.

Lemma setup_run : run setup NewWorld = Next (after setup).
Proof. vm_compute; reflexivity. Qed.
Lemma calls_run : run (setup ++ calls) NewWorld = Next (after (setup ++ calls)).
Proof. vm_compute; reflexivity. Qed.

Definition answer : Thread := default
  (mkThread (mkReqMsg "" "" 0%nat []) 0%nat Sending NotStarted)
  (w_calls (after (setup ++ calls)) !! 0%nat).

Lemma answer_at : w_calls (after (setup ++ calls)) !! 0%nat = Some answer.
Proof. vm_compute; reflexivity. Qed.

Lemma setup_healthy : healthy "end1" 99 0 (after setup).
Proof. by split; vm_compute. Qed.
End Example_rpc.
Import Example_rpc.

Lemma rpc_true_executed_once_witness : exists args w0 r0 s p, sent (setup ++ calls) answer args /\
  at_event (setup ++ calls) (StartE 0 r0) w0 /\ connections (w_net w0) !! "end1"%string = Some (Some s) /\
  servers (w_net w0) !! s = Some (Some p) /\ dispatches 0 (setup ++ calls) = 1%nat.
Proof.
  destruct (rpc_true_executed_once (setup ++ calls) (after (setup ++ calls)) 0 answer (2%nat, 42)
    calls_run answer_at eq_refl) as (args&w0&r0&i&w1&rs&rcvr&m&v&w2&r1&r2&r3&Hs&Hat&_&Hc&Hv&Hd&_).
  exists args, w0, r0, (i_servername i), (i_server i).
  split; [exact Hs|]. split; [exact Hat|]. split; [exact Hc|]. split; [exact Hv|exact Hd].
Defined.

Lemma call_terminates_witness : (own_steps 0 (setup ++ calls) <= 12)%nat.
Proof. exact (proj1 (call_terminates (setup ++ calls) (after (setup ++ calls)) 0 answer calls_run answer_at)). Defined.

Lemma reliable_calls_succeed_witness : is_Some (Some (2%nat, 42)).
Proof.
  refine (reliable_calls_succeed setup (after setup) calls (after (setup ++ calls)) "end1" 99 0
    0 answer (Some (2%nat, 42)) setup_run setup_healthy _ _ _ answer_at _ _).
  - repeat constructor; cbn; eauto.
  - vm_compute; reflexivity.
  - by vm_compute; lia.
  - vm_compute; reflexivity.
  - vm_compute; reflexivity.
Defined.

Lemma total_count_wraps_witness : GetTotalCount (w_net (after (setup ++ calls))) = 1.
Proof.
  destruct (total_count_wraps (setup ++ calls) (after (setup ++ calls)) calls_run) as (_&_&E).
  rewrite E; [by vm_compute|by vm_compute].
Defined.

Lemma dispatch_routes_witness :
  (Server_dispatch (AddService (MakeService junk) MakeServer)
     (mkReqMsg "end1" "JunkServer.Double" 1%nat (Encode (1%nat, 21)))).1 = Some (7%nat, double, (1%nat, 21)).
Proof.
  refine (dispatch_routes junk double MakeServer "end1" (1%nat, 21) _ _ _ _ _).
  - apply (bool_decide_unpack _). by vm_compute.
  - by left.
  - vm_compute; reflexivity.
  - done.
  - done.
Defined.
