(* ===== verification/RaftConfig.v ===== *)
(** * raft/config.go: the tester of the Raft package

    [config] is the tester: the network of [labrpc] that connects the peers, the Raft
    objects it has made, what it has seen of every peer's [applyCh] ([cfg_logs]) and
    the checks it makes. A Raft object lives in [cfg_objects] and runs on its own;
    [cfg_rafts] are the pointers of the tester to the current ones. A peer and
    [cfg.saved] share a [Persister] object as long as the peer runs: [Shared r] is the
    persister inside object [r], [Owned ps] one that only the tester has. [None] in
    [M] is the end of the test: [t.Fatalf], [log.Fatalf] or a run-time panic. Loops that
    watch the clock take what they see in each round. *)
From Stdlib Require Import Strings.Byte.
From S2P Require Import Prelude Labgob Persister RaftTypes RaftNode Labrpc.

(** The errors [applier] reports; the strings of [fmt.Sprintf] are not modelled. *)
Inductive ApplyError :=
  | DifferentValue (index server other : Z)
  | OutOfOrder (server index : Z).

Inductive Saved := Nil | Owned (ps : Persister) | Shared (r : nat).

Section config.
Context {C : Type} `{EqDecision C} `{Gob Z} `{Gob (list (Entry C))} `{Rand} `{Alloc} `{MapOrder}.
Context `{Values} (raftMethods : list Method).

Abbreviation Net := (Network (EndName := string) (SrvName := Z)).
Abbreviation Wld := (World (EndName := string) (SrvName := Z)).

Record config := mkConfig {
  cfg_world : Wld;
  cfg_n : nat;
  cfg_rafts : list (option nat);
  cfg_applyErr : list (option ApplyError);
  cfg_connected : list bool;
  cfg_saved : list Saved;
  cfg_endnames : list (option (list string));
  cfg_logs : list (GoMap Z (option C));
  cfg_maxIndex : Z;
  cfg_objects : list (Raft C)
}.

Definition set_cfg_world v (x : config) : config :=
  mkConfig v (cfg_n x) (cfg_rafts x) (cfg_applyErr x) (cfg_connected x) (cfg_saved x) (cfg_endnames x) (cfg_logs x) (cfg_maxIndex x) (cfg_objects x).
Definition set_cfg_rafts v (x : config) : config :=
  mkConfig (cfg_world x) (cfg_n x) v (cfg_applyErr x) (cfg_connected x) (cfg_saved x) (cfg_endnames x) (cfg_logs x) (cfg_maxIndex x) (cfg_objects x).
Definition set_cfg_connected v (x : config) : config :=
  mkConfig (cfg_world x) (cfg_n x) (cfg_rafts x) (cfg_applyErr x) v (cfg_saved x) (cfg_endnames x) (cfg_logs x) (cfg_maxIndex x) (cfg_objects x).
Definition set_cfg_saved v (x : config) : config :=
  mkConfig (cfg_world x) (cfg_n x) (cfg_rafts x) (cfg_applyErr x) (cfg_connected x) v (cfg_endnames x) (cfg_logs x) (cfg_maxIndex x) (cfg_objects x).
Definition set_cfg_endnames v (x : config) : config :=
  mkConfig (cfg_world x) (cfg_n x) (cfg_rafts x) (cfg_applyErr x) (cfg_connected x) (cfg_saved x) v (cfg_logs x) (cfg_maxIndex x) (cfg_objects x).
Definition set_cfg_logs v (x : config) : config :=
  mkConfig (cfg_world x) (cfg_n x) (cfg_rafts x) (cfg_applyErr x) (cfg_connected x) (cfg_saved x) (cfg_endnames x) v (cfg_maxIndex x) (cfg_objects x).
Definition set_cfg_maxIndex v (x : config) : config :=
  mkConfig (cfg_world x) (cfg_n x) (cfg_rafts x) (cfg_applyErr x) (cfg_connected x) (cfg_saved x) (cfg_endnames x) (cfg_logs x) v (cfg_objects x).
Definition set_cfg_objects v (x : config) : config :=
  mkConfig (cfg_world x) (cfg_n x) (cfg_rafts x) (cfg_applyErr x) (cfg_connected x) (cfg_saved x) (cfg_endnames x) (cfg_logs x) (cfg_maxIndex x) v.

Implicit Types (cfg : config).

(** [x.f[i] = v] for a slice field with getter [g] and setter [s]. *)
Definition assign {A} (g : config -> list A) (s : list A -> config -> config) (i : Z) (v : A)
  : M config unit :=
  let! cfg := get in
  let! l := lift (slice_set (g cfg) i v) in
  modify (s l).

(** ** Watching applyCh *)

Definition checkLogs (i : Z) (m : ApplyMsg C) : M config (option ApplyError * bool) :=
  let v := am_Command m in
  let! cfg := get in
  let err_msg := foldl (fun err j =>
    match cfg_logs cfg !! j with
    | Some log =>
        match map_get log (CommandIndex m) with
        | Some old => if decide (old <> v) then Some (DifferentValue (CommandIndex m) i (Z.of_nat j)) else err
        | None => err
        end
    | None => err
    end) None (seq 0 (length (cfg_logs cfg))) in
  let! log := lift (slice_get (cfg_logs cfg) i) in
  let prevok := bool_decide (is_Some (map_get log (CommandIndex m - 1))) in
  let! log := lift (map_set log (CommandIndex m) v) in
  do! assign cfg_logs set_cfg_logs i log;
  do! modify (fun cfg => if decide (CommandIndex m > cfg_maxIndex cfg)
                         then set_cfg_maxIndex (CommandIndex m) cfg else cfg);
  ret (err_msg, prevok).

(** One message read by [applier]; [log.Fatalf] ends the process. *)
Definition applier_read (i : Z) (m : ApplyMsg C) : M config unit :=
  if negb (CommandValid m) then ret tt else
  let! p := checkLogs i m in
  let '(err_msg, prevok) := p in
  let err_msg := if bool_decide (CommandIndex m > 1) && negb prevok
                 then Some (OutOfOrder i (CommandIndex m)) else err_msg in
  match err_msg with
  | Some _ => panic
  | None => ret tt
  end.

(** The peers and the goroutines of [applier] run while the tester looks at one peer
    after the other: [view i] is the tester at the moment it looks at peer [i]. *)

(** How many peers have applied [index], and the command. *)
Fixpoint nCommitted_loop (index : Z) (view : nat -> config) (js : list nat) (count : Z)
  (cmd : option C) : option (Z * option C) :=
  match js with
  | [] => Some (count, cmd)
  | i :: js =>
      err ← cfg_applyErr (view i) !! i;
      match err with
      | Some _ => None
      | None =>
          log ← cfg_logs (view i) !! i;
          match map_get log index with
          | Some cmd1 =>
              if bool_decide (count > 0) && bool_decide (cmd <> cmd1) then None
              else nCommitted_loop index view js (count + 1) cmd1
          | None => nCommitted_loop index view js count cmd
          end
      end
  end.
Definition nCommitted (index : Z) (view : nat -> config) : option (Z * option C) :=
  nCommitted_loop index view (seq 0 (length (cfg_rafts (view O)))) 0 None.

(** ** Watching the roles *)

(** The peer [cfg.rafts[i]] points to; a nil pointer panics. *)
Definition raft_of (i : nat) (cfg : config) : option (Raft C) :=
  p ← cfg_rafts cfg !! i; r ← p; cfg_objects cfg !! r.

(** [GetState] of every connected peer: [leaders[term] = append(leaders[term], i)]. *)
Fixpoint collect (view : nat -> config) (js : list nat) (leaders : gmap Z (list nat))
  : option (gmap Z (list nat)) :=
  match js with
  | [] => Some leaders
  | i :: js =>
      c ← cfg_connected (view i) !! i;
      if (c : bool) then
        rf ← raft_of i (view i);
        let '(term, leader) := GetState rf in
        collect view js (if (leader : bool) then <[term := default [] (leaders !! term) ++ [i]]> leaders
                         else leaders)
      else collect view js leaders
  end.

(** [for term, leaders := range leaders]. *)
Fixpoint lastTerm (terms : list (Z * list nat)) (last : Z) : option Z :=
  match terms with
  | [] => Some last
  | (term, leaders) :: terms =>
      if decide (1 < length leaders)%nat then None
      else lastTerm terms (if decide (term > last) then term else last)
  end.

(** One iteration: [Some None] when there is no leader yet. *)
Definition checkOneLeader_round (n : nat) (view : nat -> config) : option (option nat) :=
  leaders ← collect view (seq 0 n) ∅;
  last ← lastTerm (range leaders) (-1);
  if decide (leaders <> ∅) then
    l ← default [] (leaders !! last) !! 0%nat;
    Some (Some l)
  else Some None.

(** Ten attempts; [views k] is what the tester sees in the [k]-th. *)
Fixpoint checkOneLeader_loop (iters : nat) (n : nat) (views : nat -> nat -> config) : option nat :=
  match iters with
  | O => None
  | S iters =>
      r ← checkOneLeader_round n (views O);
      match r with
      | Some l => Some l
      | None => checkOneLeader_loop iters n (fun k => views (S k))
      end
  end.
Definition checkOneLeader := checkOneLeader_loop 10.

Fixpoint checkTerms_loop (view : nat -> config) (js : list nat) (term : Z) : option Z :=
  match js with
  | [] => Some term
  | i :: js =>
      c ← cfg_connected (view i) !! i;
      if (c : bool) then
        rf ← raft_of i (view i);
        let '(xterm, _) := GetState rf in
        if decide (term = -1) then checkTerms_loop view js xterm
        else if decide (term <> xterm) then None
        else checkTerms_loop view js term
      else checkTerms_loop view js term
  end.
Definition checkTerms (n : nat) (view : nat -> config) : option Z :=
  checkTerms_loop view (seq 0 n) (-1).

Fixpoint checkNoLeader_loop (view : nat -> config) (js : list nat) : option unit :=
  match js with
  | [] => Some tt
  | i :: js =>
      c ← cfg_connected (view i) !! i;
      if (c : bool) then
        rf ← raft_of i (view i);
        let '(_, is_leader) := GetState rf in
        if (is_leader : bool) then None else checkNoLeader_loop view js
      else checkNoLeader_loop view js
  end.
Definition checkNoLeader (n : nat) (view : nat -> config) : option unit :=
  checkNoLeader_loop view (seq 0 n).

(** [for _, r := range cfg.rafts] of [wait]: has a peer moved on to a later term? *)
Fixpoint moved_on (startTerm : Z) (view : nat -> config) (js : list nat) : option bool :=
  match js with
  | [] => Some false
  | i :: js =>
      rf ← raft_of i (view i);
      if decide ((GetState rf).1 > startTerm) then Some true else moved_on startTerm view js
  end.

(** [counting k] and [moving k] are what the tester sees in iteration [k]; [inl] is the
    result [-1]. *)
Fixpoint wait_loop (iters : nat) (index n startTerm : Z) (counting moving : nat -> nat -> config)
  (k : nat) : option (unit + option C) :=
  let final k :=
    p ← nCommitted index (counting k);
    if decide (p.1 < n) then None else Some (inr p.2) in
  match iters with
  | O => final k
  | S iters =>
      p ← nCommitted index (counting k);
      if decide (p.1 >= n) then final (S k)
      else if decide (startTerm > -1) then
        b ← moved_on startTerm (moving k) (seq 0 (length (cfg_rafts (moving k O))));
        if (b : bool) then Some (inl tt)
        else wait_loop iters index n startTerm counting moving (S k)
      else wait_loop iters index n startTerm counting moving (S k)
  end.
Definition wait (index n startTerm : Z) (counting moving : nat -> nat -> config)
  : option (unit + option C) :=
  wait_loop 30 index n startTerm counting moving 0.

(** ** The network of the peers *)

Definition on_net (f : Net -> Net) : M config unit :=
  modify (fun cfg => set_cfg_world (set_net (f (w_net (cfg_world cfg))) (cfg_world cfg)) cfg).

(** [cfg.endnames[i][j]]. *)
Definition endname (i j : Z) : M config string :=
  let! cfg := get in
  let! ends := lift (slice_get (cfg_endnames cfg) i) in
  lift (slice_get (default [] ends) j).

Definition disconnect (i : Z) : M config unit :=
  do! assign cfg_connected set_cfg_connected i false;
  let! cfg := get in
  do! forM (seq 0 (cfg_n cfg)) (fun j =>
    let! ends := lift (slice_get (cfg_endnames cfg) i) in
    if decide (is_Some ends) then
      let! name := endname i (Z.of_nat j) in
      on_net (Enable name false)
    else ret tt);
  forM (seq 0 (cfg_n cfg)) (fun j =>
    let! ends := lift (slice_get (cfg_endnames cfg) (Z.of_nat j)) in
    if decide (is_Some ends) then
      let! name := endname (Z.of_nat j) i in
      on_net (Enable name false)
    else ret tt).

Definition connect (i : Z) : M config unit :=
  do! assign cfg_connected set_cfg_connected i true;
  let! cfg := get in
  do! forM (seq 0 (cfg_n cfg)) (fun j =>
    let! c := lift (slice_get (cfg_connected cfg) (Z.of_nat j)) in
    if (c : bool) then
      let! name := endname i (Z.of_nat j) in
      on_net (Enable name true)
    else ret tt);
  forM (seq 0 (cfg_n cfg)) (fun j =>
    let! c := lift (slice_get (cfg_connected cfg) (Z.of_nat j)) in
    if (c : bool) then
      let! name := endname (Z.of_nat j) i in
      on_net (Enable name true)
    else ret tt).

(** ** Crashing and starting a peer *)

(** The contents of [cfg.saved[i]]; [None] is a nil pointer. *)
Definition saved_contents (sv : Saved) (cfg : config) : option Persister :=
  match sv with
  | Nil => None
  | Owned ps => Some ps
  | Shared r => persister <$> cfg_objects cfg !! r
  end.

(** A call of a method of the object [cfg.rafts[i]] points to. *)
Definition on_raft {A} (r : nat) (m : M (Raft C) A) : M config A :=
  let! cfg := get in
  let! rf := lift (cfg_objects cfg !! r) in
  let! p := lift (m rf) in
  do! modify (set_cfg_objects (<[r := p.2]> (cfg_objects cfg)));
  ret p.1.

(** [if cfg.saved[i] != nil { cfg.saved[i] = f(cfg.saved[i]) }]. *)
Definition update_saved (i : Z) (f : Persister -> Persister) : M config unit :=
  let! cfg := get in
  let! sv := lift (slice_get (cfg_saved cfg) i) in
  match saved_contents sv cfg with
  | Some ps => assign cfg_saved set_cfg_saved i (Owned (f ps))
  | None => ret tt
  end.

Definition crash1 (i : Z) : M config unit :=
  do! disconnect i;
  do! on_net (DeleteServer i);
  do! update_saved i Copy;
  let! cfg := get in
  let! rf := lift (slice_get (cfg_rafts cfg) i) in
  do! match rf with
      | Some r => do! on_raft r Kill; assign cfg_rafts set_cfg_rafts i None
      | None => ret tt
      end;
  update_saved i (fun ps => SaveStateAndSnapshot (ReadRaftState ps) (ReadSnapshot ps) MakePersister).

(** [names] are the strings drawn by [randstring]. *)
Definition start1 (i : Z) (names : list string) : M config unit :=
  do! crash1 i;
  let! cfg := get in
  do! assign cfg_endnames set_cfg_endnames i (Some names);
  do! forM (seq 0 (cfg_n cfg)) (fun j =>
    let! name := endname i (Z.of_nat j) in
    let! cfg := get in
    let! net := lift (MakeEnd name (w_net (cfg_world cfg))) in
    do! on_net (fun _ => net);
    on_net (Connect name (Z.of_nat j)));
  let! cfg := get in
  let! sv := lift (slice_get (cfg_saved cfg) i) in
  let ps := match saved_contents sv cfg with Some ps => Copy ps | None => MakePersister end in
  let! rf := lift (Make (cfg_n cfg) i ps) in
  let r := length (cfg_objects cfg) in
  do! modify (set_cfg_objects (cfg_objects cfg ++ [rf]));
  do! assign cfg_saved set_cfg_saved i (Shared r);
  do! assign cfg_rafts set_cfg_rafts i (Some r);
  let svc := MakeService (mkReceiver r "Raft" raftMethods) in
  let! cfg := get in
  let w := cfg_world cfg in
  let srv := length (w_servers w) in
  do! modify (set_cfg_world (mkWorld (w_net w) (w_servers w ++ [AddService svc MakeServer])
                               (w_looping w) (w_calls w)));
  on_net (AddServer i srv).

Definition setunreliable (unrel : bool) : M config unit := on_net (Reliable (negb unrel)).
Definition setlongreordering (longrel : bool) : M config unit := on_net (LongReordering longrel).
Definition rpcCount (server : Z) (cfg : config) : option Z := GetCount (cfg_world cfg) server.
Definition rpcTotal (cfg : config) : Z := GetTotalCount (w_net (cfg_world cfg)).
Definition bytesTotal (cfg : config) : Z := GetTotalBytes (w_net (cfg_world cfg)).

(** [&config{}] with its slices made. *)
Definition new_config (n : nat) : config :=
  mkConfig NewWorld n (replicate n None) (replicate n None) (replicate n false) (replicate n Nil)
    (replicate n None) (replicate n None) 0 [].

Definition make_config (n : nat) (unreliable : bool) (names : nat -> list string) : option config :=
  snd <$> (do! setunreliable unreliable;
           do! on_net (LongDelays true);
           do! forM (seq 0 n) (fun i =>
                 do! assign cfg_logs set_cfg_logs (Z.of_nat i) (Some ∅);
                 start1 (Z.of_nat i) (names i));
           forM (seq 0 n) (fun i => connect (Z.of_nat i))) (new_config n).

(** [Kill] for every peer and [Cleanup] of the network; the time limit of a test is not
    modelled. *)
Definition cleanup : M config unit :=
  let! cfg := get in
  do! forM (seq 0 (length (cfg_rafts cfg))) (fun i =>
    let! rf := lift (cfg_rafts cfg !! i) in
    match rf with Some r => on_raft r Kill | None => ret tt end);
  let! cfg := get in
  let! net := lift (Cleanup (w_net (cfg_world cfg))) in
  on_net (fun _ => net).

(** The largest [RaftStateSize] of the persisters. *)
Definition LogSize : M config Z :=
  let! cfg := get in
  let fix loop (js : list nat) (logsize : Z) : M config Z :=
    match js with
    | [] => ret logsize
    | i :: js =>
        let! sv := lift (cfg_saved cfg !! i) in
        let! ps := lift (saved_contents sv cfg) in
        loop js (if decide (RaftStateSize ps > logsize) then RaftStateSize ps else logsize)
    end in
  loop (seq 0 (cfg_n cfg)) 0.

(** ** Submitting a command *)

(** What the tester sees in one round of [one]: [rd_try si] when it tries the [si]-th
    server, and [rd_waits] each time it looks for agreement before two seconds are over. *)
Record Round := mkRound { rd_try : nat -> config; rd_waits : list (nat -> config) }.

(** [for si := 0; si < cfg.n; si++]: the index at which a peer that thinks it leads has
    put the command, -1 when there is none, and [starts]. *)
Fixpoint try_servers (cmd : C) (view : nat -> config) (js : list nat) (starts : Z) : option (Z * Z) :=
  match js with
  | [] => Some (-1, starts)
  | si :: js =>
      let cfg := view si in
      let starts := (starts + 1) `rem` Z.of_nat (cfg_n cfg) in
      c ← slice_get (cfg_connected cfg) starts;
      rf ← (if (c : bool) then slice_get (cfg_rafts cfg) starts else Some None);
      match rf with
      | Some r =>
          o ← cfg_objects cfg !! r;
          p ← Start cmd o;
          let '(index1, _, ok) := p.1 in
          if (ok : bool) then Some (index1, starts) else try_servers cmd view js starts
      | None => try_servers cmd view js starts
      end
  end.

(** Has the command been agreed on at [index]? *)
Definition agreed (index : Z) (cmd : C) (expectedServers : Z) (view : nat -> config) : option bool :=
  p ← nCommitted index view;
  Some (bool_decide (p.1 > 0) && bool_decide (p.1 >= expectedServers) && bool_decide (p.2 = Some cmd)).
Fixpoint await (index : Z) (cmd : C) (expectedServers : Z) (waits : list (nat -> config)) : option bool :=
  match waits with
  | [] => Some false
  | view :: waits =>
      b ← agreed index cmd expectedServers view;
      if (b : bool) then Some true else await index cmd expectedServers waits
  end.

(** The rounds begun before ten seconds are over. [Some None] is the failure to reach
    agreement, [None] any other failure. *)
Fixpoint one_loop (n : nat) (cmd : C) (expectedServers : Z) (retry : bool) (rounds : list Round) (starts : Z) : option (option Z) :=
  match rounds with
  | [] => Some None
  | r :: rounds =>
      p ← try_servers cmd (rd_try r) (seq 0 n) starts;
      let '(index, starts) := p in
      if decide (index <> -1) then
        b ← await index cmd expectedServers (rd_waits r);
        if (b : bool) then Some (Some index)
        else if retry then one_loop n cmd expectedServers retry rounds starts
        else Some None
      else one_loop n cmd expectedServers retry rounds starts
  end.
Definition one (n : nat) (cmd : C) (expectedServers : Z) (retry : bool) (rounds : list Round) : option (option Z) :=
  one_loop n cmd expectedServers retry rounds 0.

(** ** Statistics *)

(** [failed] is [cfg.t.Failed()], [since] the seconds since [cfg.start]; [None] is the end
    of the test by [t.Fatal]. *)
Definition checkTimeout (failed : bool) (since : Z) : option unit :=
  if negb failed && bool_decide (since > 120) then None else Some tt.

(** What [begin] remembers and [end] prints, if anything, the time aside. *)
Record Begun := mkBegun { rpcs0 : Z; bytes0 : Z; cmds0 : Z; maxIndex0 : Z }.
Definition begin (cfg : config) : Begun := mkBegun (rpcTotal cfg) (bytesTotal cfg) 0 (cfg_maxIndex cfg).
Definition end_ (failed : bool) (since : Z) (begun : Begun) (cfg : config) : option (option (nat * Z * Z * Z)) :=
  _ ← checkTimeout failed since;
  if failed then Some None
  else Some (Some (cfg_n cfg, rpcTotal cfg - rpcs0 begun, bytesTotal cfg - bytes0 begun, cfg_maxIndex cfg - maxIndex0 begun)).
End config.

(** ** The tester of snapshots *)

Definition SnapShotInterval : Z := 10.

(** In the snapshot tests the commands are integers, which a snapshot holds encoded. *)
Section snap.
Context `{Gob Z} `{Gob (list (Entry Z))} `{Rand} `{Alloc} `{Values}.

(** [cfg.rafts[i]]; a method call on a nil pointer panics. *)
Definition current_raft (i : Z) : M (config (C := Z)) nat :=
  let! cfg := get in
  let! p := lift (slice_get (cfg_rafts cfg) i) in
  lift p.

(** One message read by [applierSnap], whose local variable [lastApplied] is passed and
    returned. *)
Definition applierSnap_read (i : Z) (m : ApplyMsg Z) (lastApplied : Z) : M (config (C := Z)) Z :=
  if SnapshotValid m then
    let! r := current_raft i in
    let! installed := on_raft r (CondInstallSnapshot (SnapshotTerm m) (SnapshotIndex m) (Snapshot_ m)) in
    if (installed : bool) then
      do! assign cfg_logs set_cfg_logs i (Some ∅);
      let! v := lift (fst <$> Decode (Snapshot_ m)) in
      do! assign cfg_logs set_cfg_logs i (Some {[SnapshotIndex m := Some v]});
      ret (SnapshotIndex m)
    else ret lastApplied
  else if CommandValid m && bool_decide (CommandIndex m > lastApplied) then
    do! applier_read i m;
    do! (if decide ((CommandIndex m + 1) `rem` SnapShotInterval = 0) then
           let! v := lift (am_Command m) in
           let! r := current_raft i in
           on_raft r (Snapshot (CommandIndex m) (Encode v))
         else ret tt);
    ret (CommandIndex m)
  else ret lastApplied.
End snap.
