(* ===== verification/RaftConfigNet.v ===== *)
(** * The network the tester keeps

    [net_inv] ties the tester's bookkeeping to the network of [Labrpc]: an end from peer
    [i] to peer [j] is enabled exactly when both are connected, leads to [j]'s server,
    and the server of [j] is there exactly when [j] runs. Every operation of the tester
    keeps it; a peer that is started again has the state the last instance saved, and
    the old instance cannot reach it. *)
From Stdlib Require Import Strings.Byte.
From S2P Require Import Prelude Labgob Persister RaftTypes RaftNode RaftLog RaftSpec RaftSnapshot RaftInv RaftProps Labrpc RaftConfig.

Section net.
Context {C : Type} `{EqDecision C} `{Gob Z} `{Gob (list (Entry C))} `{Rand} `{Alloc}.
Context `{!GobLaws Z} `{!GobLaws (list (Entry C))}.
Context `{Values} (raftMethods : list Method).
Implicit Types (cfg : config (C := C)) (en : gmap string bool).

Definition net cfg : Network (EndName := string) (SrvName := Z) := w_net (cfg_world cfg).
Definition conn cfg (i : nat) : bool := default false (cfg_connected cfg !! i).
Definition name cfg (i j : nat) : option string :=
  l ← cfg_endnames cfg !! i; l ← l; l !! j.

(** ** Switching ends on and off *)

Definition with_enabled en cfg : config (C := C) :=
  let rn := net cfg in
  set_cfg_world (set_net (mkNetwork (reliable rn) (longDelays rn) (longReordering rn) (ends rn) en
    (servers rn) (connections rn) (rn_done rn) (rn_count rn) (rn_bytes rn)) (cfg_world cfg)) cfg.

Lemma with_enabled_id cfg : with_enabled (enabled (net cfg)) cfg = cfg.
Proof. by destruct cfg as [[[] ? ? ?] ? ? ? ? ? ? ? ?]. Qed.

Definition switch (names : list string) (b : bool) en : gmap string bool :=
  foldl (fun en nm => <[nm := b]> en) en names.

Lemma switch_lookup names b en e :
  default false (switch names b en !! e) = if decide (e ∈ names) then b else default false (en !! e).
Proof.
  revert en. induction names as [|nm names IH]; intros en; [by rewrite decide_False by apply not_elem_of_nil|].
  change (switch (nm :: names) b en) with (switch names b (<[nm := b]> en)). rewrite IH.
  destruct (decide (e ∈ names)) as [Hin|Hin]; [by rewrite decide_True by set_solver|].
  destruct (decide (nm = e)) as [->|Hne].
  - rewrite lookup_insert_eq, decide_True by set_solver. done.
  - rewrite lookup_insert_ne, decide_False by set_solver. done.
Qed.

(** A loop that switches the ends [sel] names. *)
Lemma wp_switch (js : list nat) (body : nat -> M (config (C := C)) unit) (sel : nat -> option string) b en cfg :
  (forall j en, j ∈ js -> wp (body j) (with_enabled en cfg) (fun _ c =>
     c = with_enabled (match sel j with Some nm => <[nm := b]> en | None => en end) cfg)) ->
  wp (forM js body) (with_enabled en cfg) (fun _ c => c = with_enabled (switch (omap sel js) b en) cfg).
Proof.
  intros Hb. revert en. induction js as [|j js IH]; intros en; cbn; [by apply wp_ret|].
  go. eapply wp_mono; [apply Hb; set_solver|]. intros [] c ->.
  eapply wp_mono; [apply IH; intros; apply Hb; set_solver|]. intros [] c ->. by destruct (sel j).
Qed.

Lemma wp_endname i j nm en cfg (Q : string -> config (C := C) -> Prop) : name cfg i j = Some nm ->
  Q nm (with_enabled en cfg) -> wp (endname (Z.of_nat i) (Z.of_nat j)) (with_enabled en cfg) Q.
Proof.
  unfold name, endname. intros (l&Hl&(ns&->&Hj)%bind_Some)%bind_Some HQ. go.
  eapply wp_lift; [apply slice_get_Some; rewrite Nat2Z.id; split; [lia|exact Hl]|]. 
  eapply wp_lift; [apply slice_get_Some; rewrite Nat2Z.id; split; [lia|exact Hj]|]. done.
Qed.

Lemma wp_assign {A} (g : config (C := C) -> list A) s i (v : A) cfg (Q : unit -> config (C := C) -> Prop) :
  (i < length (g cfg))%nat -> Q tt (s (<[i := v]> (g cfg)) cfg) -> wp (assign g s (Z.of_nat i) v) cfg Q.
Proof.
  intros Hi HQ. unfold assign. go. eapply wp_lift; [apply slice_set_Some; lia|]. go. by rewrite Nat2Z.id.
Qed.

(** The peers, by their numbers. *)
Record lengths (n : nat) cfg : Prop := {
  ln_n : cfg_n cfg = n;
  ln_connected : length (cfg_connected cfg) = n;
  ln_endnames : length (cfg_endnames cfg) = n;
  ln_saved : length (cfg_saved cfg) = n;
  ln_rafts : length (cfg_rafts cfg) = n
}.

Definition started cfg (i : nat) : Prop := exists l, cfg_endnames cfg !! i = Some (Some l) /\ length l = cfg_n cfg.

Lemma started_name n cfg i j : lengths n cfg -> started cfg i -> (j < n)%nat -> is_Some (name cfg i j).
Proof.
  intros Hl (l&Hi&Hlen) Hj. unfold name. rewrite Hi. cbn. apply lookup_lt_is_Some. rewrite Hlen, (ln_n _ _ Hl). done.
Qed.

(** What [connect] and [disconnect] do to the ends: those of connected peers are
    switched on, all of them are switched off. *)
Lemma wp_connect n i cfg : lengths n cfg -> (i < n)%nat -> started cfg i ->
  (forall j, conn cfg j = true -> started cfg j) ->
  let connected := <[i := true]> (cfg_connected cfg) in
  let on j := default false (connected !! j) in
  wp (connect (Z.of_nat i)) cfg (fun _ c => c = with_enabled (switch
      (omap (fun j => if on j : bool then name cfg i j else None) (seq 0 n) ++
       omap (fun j => if on j : bool then name cfg j i else None) (seq 0 n)) true (enabled (net cfg)))
    (set_cfg_connected connected cfg)).
Proof.
  intros Hl Hi Hst Hconn connected on. unfold connect. go. apply wp_assign; [by rewrite (ln_connected _ _ Hl)|].
  go. fold connected. set (cfg1 := set_cfg_connected connected cfg).
  assert (forall j, (j < n)%nat -> slice_get (cfg_connected cfg1) (Z.of_nat j) = Some (on j)) as Hon.
  { intros j Hj. apply slice_get_Some. rewrite Nat2Z.id. split; [lia|]. unfold on. cbn.
    destruct (lookup_lt_is_Some_2 connected j) as [b ->]; [|done].
    unfold connected. by rewrite length_insert, (ln_connected _ _ Hl). }
  assert (forall j, on j = true -> started cfg j) as Hon_st.
  { intros j. unfold on, connected. destruct (decide (i = j)) as [<-|Hne]; [done|].
    rewrite list_lookup_insert_ne by done. apply Hconn. }
  rewrite <-(with_enabled_id cfg1) at 2. change (cfg_n cfg1) with (cfg_n cfg). rewrite (ln_n _ _ Hl).
  change (enabled (net cfg1)) with (enabled (net cfg)).
  eapply wp_mono; [apply (wp_switch _ _ (fun j => if on j : bool then name cfg i j else None) true)|].
  { intros j en Hj%elem_of_seq. go. eapply wp_lift; [apply Hon; lia|]. destruct (on j) eqn:E; [|by go].
    go. destruct (started_name n cfg i j Hl Hst) as [nm Hnm]; [lia|]. rewrite Hnm.
    eapply wp_endname; [exact Hnm|]. by go. }
  intros [] c ->. eapply wp_mono; [apply (wp_switch _ _ (fun j => if on j : bool then name cfg j i else None) true)|].
  { intros j en Hj%elem_of_seq. go. eapply wp_lift; [apply Hon; lia|]. destruct (on j) eqn:E; [|by go].
    go. destruct (started_name n cfg j i Hl (Hon_st j E)) as [nm Hnm]; [lia|]. rewrite Hnm.
    eapply wp_endname; [exact Hnm|]. by go. }
  intros [] c ->. unfold switch. by rewrite foldl_app.
Qed.

Definition named cfg : Prop := forall i l, cfg_endnames cfg !! i = Some (Some l) -> length l = cfg_n cfg.

Lemma wp_disconnect n i cfg : lengths n cfg -> (i < n)%nat -> named cfg ->
  wp (disconnect (Z.of_nat i)) cfg (fun _ c => c = with_enabled (switch
      (omap (fun j => name cfg i j) (seq 0 n) ++ omap (fun j => name cfg j i) (seq 0 n)) false (enabled (net cfg)))
    (set_cfg_connected (<[i := false]> (cfg_connected cfg)) cfg)).
Proof.
  intros Hl Hi Hnm. unfold disconnect. go. apply wp_assign; [by rewrite (ln_connected _ _ Hl)|].
  go. set (cfg1 := set_cfg_connected _ cfg).
  assert (forall a b en, (a < n)%nat -> (b < n)%nat ->
    wp (let! ends := lift (slice_get (cfg_endnames cfg1) (Z.of_nat a)) in
        if decide (is_Some ends) then
          let! nm := endname (Z.of_nat a) (Z.of_nat b) in on_net (Enable nm false)
        else ret tt) (with_enabled en cfg1) (fun _ c =>
      c = with_enabled (match name cfg a b with Some nm => <[nm := false]> en | None => en end) cfg1)) as Hbody.
  { intros a b en Ha Hb. go. destruct (lookup_lt_is_Some_2 (cfg_endnames cfg1) a) as [ends He].
    { cbn. by rewrite (ln_endnames _ _ Hl). }
    eapply wp_lift; [apply slice_get_Some; rewrite Nat2Z.id; split; [lia|exact He]|]. destruct ends as [l|].
    - rewrite decide_True by done. go. destruct (started_name n cfg a b Hl) as [nm E]; [|done|].
      { exists l. split; [exact He|]. by eapply Hnm. }
      rewrite E. eapply wp_endname; [exact E|]. by go.
    - rewrite decide_False by (by intros [? [=]]). go. unfold name.
      change (cfg_endnames cfg1) with (cfg_endnames cfg) in He. by rewrite He. }
  rewrite <-(with_enabled_id cfg1) at 2. change (cfg_n cfg1) with (cfg_n cfg). rewrite (ln_n _ _ Hl).
  change (enabled (net cfg1)) with (enabled (net cfg)).
  eapply wp_mono; [apply (wp_switch _ _ (fun j => name cfg i j) false)|].
  { intros j en Hj%elem_of_seq. apply Hbody; lia. }
  intros [] c ->. eapply wp_mono; [apply (wp_switch _ _ (fun j => name cfg j i) false)|].
  { intros j en Hj%elem_of_seq. apply Hbody; lia. }
  intros [] c ->. unfold switch. by rewrite foldl_app.
Qed.

(** ** The invariant *)

(** The persister is the one of a sound peer with number [i]. *)
Definition sound n (i : nat) (rf : Raft C) : Prop :=
  wf rf /\ durable rf /\ peers rf = n /\ me rf = Z.of_nat i.

Record net_inv (n : nat) cfg : Prop := {
  nv_len : lengths n cfg;
  nv_named : named cfg;
  nv_started i : conn cfg i = true -> started cfg i;
  nv_distinct i j i' j' nm : name cfg i j = Some nm -> name cfg i' j' = Some nm -> i = i' /\ j = j';
  nv_ends i j nm : name cfg i j = Some nm -> is_Some (ends (net cfg) !! nm) /\
    connections (net cfg) !! nm = Some (Some (Z.of_nat j));
  nv_enabled i j nm : name cfg i j = Some nm -> end_enabled (net cfg) nm = conn cfg i && conn cfg j;
  nv_raft i r : cfg_rafts cfg !! i = Some (Some r) -> cfg_saved cfg !! i = Some (Shared r) /\
    exists p srv svc, server_of (net cfg) (Z.of_nat i) = Some p /\
      w_servers (cfg_world cfg) !! p = Some srv /\ services srv !! "Raft"%string = Some svc /\ sv_rcvr svc = r;
  nv_down i : cfg_rafts cfg !! i = Some None -> server_of (net cfg) (Z.of_nat i) = None;
  nv_saved i sv : cfg_saved cfg !! i = Some sv -> match sv with
    | Nil => True
    | Owned ps => exists rf, sound n i rf /\ persister rf = ps
    | Shared r => exists rf, cfg_objects cfg !! r = Some rf /\ sound n i rf
    end;
  nv_objects r rf : cfg_objects cfg !! r = Some rf -> wf rf /\ durable rf
}.

(** The ends of the new connections: [connected] with [i] changed to [b]. *)
Lemma switched_enabled n cfg i b (connected := <[i := b]> (cfg_connected cfg)) names a c nm :
  net_inv n cfg -> (i < n)%nat ->
  (forall nm, nm ∈ names <-> exists a c, name cfg a c = Some nm /\ (a = i \/ c = i) /\
     (b = true -> default false (connected !! a) = true /\ default false (connected !! c) = true)) ->
  name cfg a c = Some nm ->
  default false (switch names b (enabled (net cfg)) !! nm) =
    default false (connected !! a) && default false (connected !! c).
Proof.
  intros Hinv Hi Hnames Hnm. rewrite switch_lookup.
  assert (i < length (cfg_connected cfg))%nat as Hlen by (by rewrite (ln_connected _ _ (nv_len _ _ Hinv))).
  assert (forall k, k <> i -> connected !! k = cfg_connected cfg !! k) as Hne by (intros; by apply list_lookup_insert_ne).
  assert (connected !! i = Some b) as Hci by (by apply list_lookup_insert_eq).
  destruct (decide (nm ∈ names)) as [Hin|Hin].
  - apply Hnames in Hin as (a'&c'&Hnm'&Hor&Hb). destruct (nv_distinct _ _ Hinv _ _ _ _ _ Hnm Hnm') as [-> ->].
    destruct b; [destruct Hb as [-> ->]; done|]. destruct Hor as [->| ->]; rewrite Hci; cbn; [done|].
    by rewrite andb_false_r.
  - assert ((a = i \/ c = i) -> default false (connected !! a) && default false (connected !! c) = false) as Hx.
    { intros Hor. apply not_true_is_false. intros [Ha Hc]%andb_true_iff. apply Hin, Hnames. eauto 10. }
    fold (end_enabled (net cfg) nm). rewrite (nv_enabled _ _ Hinv _ _ _ Hnm). unfold conn.
    destruct (decide (a = i \/ c = i)) as [Hor|Hor].
    + rewrite (Hx Hor). destruct b; [|exfalso; apply Hin, Hnames; by exists a, c].
      apply not_true_is_false. intros [Ha Hc]%andb_true_iff. specialize (Hx Hor).
      assert (forall k, default false (cfg_connected cfg !! k) = true -> default false (connected !! k) = true) as Hmono.
      { intros k. destruct (decide (k = i)) as [->|]; [by rewrite Hci|by rewrite Hne]. }
      by rewrite !Hmono in Hx.
    + by rewrite !Hne by tauto.
Qed.

Lemma net_inv_switched n cfg i b names (connected := <[i := b]> (cfg_connected cfg)) :
  net_inv n cfg -> (i < n)%nat -> (b = true -> started cfg i) ->
  (forall nm, nm ∈ names <-> exists a c, name cfg a c = Some nm /\ (a = i \/ c = i) /\
     (b = true -> default false (connected !! a) = true /\ default false (connected !! c) = true)) ->
  net_inv n (with_enabled (switch names b (enabled (net cfg))) (set_cfg_connected connected cfg)).
Proof.
  intros Hinv Hi Hst Hnames. destruct (nv_len _ _ Hinv). split; try apply Hinv.
  - split; try done. unfold connected; cbn. by rewrite length_insert.
  - intros k. unfold conn, connected. cbn. destruct (decide (k = i)) as [->|Hne].
    + rewrite list_lookup_insert_eq by lia. exact Hst.
    + rewrite list_lookup_insert_ne by done. apply (nv_started _ _ Hinv).
  - intros a c nm Hnm. by apply (switched_enabled n cfg i b).
Qed.

Lemma elem_of_omap_seq {A} (f : nat -> option A) n (x : A) :
  x ∈ omap f (seq 0 n) <-> exists j, (j < n)%nat /\ f j = Some x.
Proof. rewrite list_elem_of_omap. setoid_rewrite elem_of_seq. split; intros (j&?&?); exists j; split; done || lia. Qed.

Lemma name_range n cfg i j nm : net_inv n cfg -> name cfg i j = Some nm -> (i < n)%nat /\ (j < n)%nat.
Proof.
  intros Hinv Hn. unfold name in Hn. apply bind_Some in Hn as (o&Hl&(l&->&Hj)%bind_Some).
  pose proof (nv_named _ _ Hinv _ _ Hl) as Hlen. rewrite (ln_n _ _ (nv_len _ _ Hinv)) in Hlen.
  apply lookup_lt_Some in Hl, Hj. rewrite (ln_endnames _ _ (nv_len _ _ Hinv)) in Hl. lia.
Qed.

Lemma connect_inv n i cfg : net_inv n cfg -> (i < n)%nat -> started cfg i ->
  wp (connect (Z.of_nat i)) cfg (fun _ c => net_inv n c /\ cfg_connected c = <[i := true]> (cfg_connected cfg) /\
    cfg_rafts c = cfg_rafts cfg /\ cfg_endnames c = cfg_endnames cfg /\ cfg_n c = cfg_n cfg /\
    cfg_logs c = cfg_logs cfg /\ cfg_applyErr c = cfg_applyErr cfg).
Proof.
  intros Hinv Hi Hst. eapply wp_mono; [apply (wp_connect n); [apply Hinv|done|done|apply Hinv]|].
  intros [] c ->. split; [|done]. apply net_inv_switched; [done|done|done|]. intros nm.
  assert (<[i := true]> (cfg_connected cfg) !! i = Some true) as Hii.
  { apply list_lookup_insert_eq. by rewrite (ln_connected _ _ (nv_len _ _ Hinv)). }
  rewrite elem_of_app, !elem_of_omap_seq. split.
  - intros [(j&Hj&E)|(j&Hj&E)]; destruct (default _ _) eqn:Eon; try done; [exists i, j|exists j, i];
      rewrite Hii; eauto 10.
  - intros (a&b&Hnm&Hor&Hon). destruct (Hon eq_refl) as [Ha Hb].
    destruct (name_range _ _ _ _ _ Hinv Hnm). destruct Hor as [->| ->].
    + left. exists b. by rewrite Hb.
    + right. exists a. by rewrite Ha.
Qed.

Lemma disconnect_inv n i cfg : net_inv n cfg -> (i < n)%nat ->
  wp (disconnect (Z.of_nat i)) cfg (fun _ c => net_inv n c /\ cfg_connected c = <[i := false]> (cfg_connected cfg) /\
    cfg_rafts c = cfg_rafts cfg /\ cfg_endnames c = cfg_endnames cfg /\ cfg_saved c = cfg_saved cfg /\
    cfg_objects c = cfg_objects cfg /\ cfg_logs c = cfg_logs cfg /\ ends (net c) = ends (net cfg) /\
    cfg_applyErr c = cfg_applyErr cfg /\ cfg_n c = cfg_n cfg).
Proof.
  intros Hinv Hi. eapply wp_mono; [apply (wp_disconnect n); [apply Hinv|done|apply Hinv]|].
  intros [] c ->. split; [|done]. apply net_inv_switched; [done|done|done|]. intros nm.
  rewrite elem_of_app, !elem_of_omap_seq. split.
  - intros [(j&Hj&E)|(j&Hj&E)]; [exists i, j|exists j, i]; split_and!; auto; done.
  - intros (a&b&Hnm&Hor&_). destruct (name_range _ _ _ _ _ Hinv Hnm). destruct Hor as [->| ->]; eauto.
Qed.

(** ** Crash and restart *)

Lemma Copy_id ps : Copy ps = ps.
Proof. by destruct ps. Qed.
Lemma saved_again ps : SaveStateAndSnapshot (ReadRaftState ps) (ReadSnapshot ps) MakePersister = ps.
Proof. destruct ps. unfold SaveStateAndSnapshot, ReadRaftState, ReadSnapshot. by rewrite !clone_id. Qed.

Lemma sound_Kill n i rf : sound n i rf -> sound n i (set_dead true rf).
Proof.
  intros (Hwf&Hd&Hp&Hm). destruct (run_good EvKill rf Hwf Hd I) as (rf'&[= <-]&(?&?&_)&_). done.
Qed.

(** The persister a sound [cfg.saved[i]] holds. *)
Lemma saved_sound n cfg i sv : net_inv n cfg -> cfg_saved cfg !! i = Some sv ->
  match saved_contents sv cfg with
  | None => sv = Nil
  | Some ps => sv <> Nil /\ exists rf, sound n i rf /\ persister rf = ps
  end.
Proof.
  intros Hinv Hs. pose proof (nv_saved _ _ Hinv _ _ Hs) as Hsv. destruct sv as [|ps|r]; cbn.
  - done.
  - done.
  - destruct Hsv as (rf&Hr&Hso). rewrite Hr. cbn. split; [done|eauto].
Qed.

Lemma wp_update_saved n i f cfg sv (Q : unit -> config (C := C) -> Prop) :
  lengths n cfg -> (i < n)%nat -> cfg_saved cfg !! i = Some sv ->
  (forall ps, saved_contents sv cfg = Some ps -> Q tt (set_cfg_saved (<[i := Owned (f ps)]> (cfg_saved cfg)) cfg)) ->
  (saved_contents sv cfg = None -> Q tt cfg) -> wp (update_saved (Z.of_nat i) f) cfg Q.
Proof.
  intros Hl Hi Hs H1' H2'. unfold update_saved. go.
  eapply wp_lift; [apply slice_get_Some; rewrite Nat2Z.id; split; [lia|exact Hs]|].
  destruct (saved_contents sv cfg) as [ps|].
  - apply wp_assign; [by rewrite (ln_saved _ _ Hl)|auto].
  - go. auto.
Qed.

(** The object the tester has for peer [i], killed. *)
Definition kill_object cfg (i : nat) : list (Raft C) :=
  match cfg_rafts cfg !! i with
  | Some (Some r) => alter (set_dead true) r (cfg_objects cfg)
  | _ => cfg_objects cfg
  end.

Definition crashed_saved cfg (i : nat) : list Saved :=
  match cfg_saved cfg !! i with
  | Some sv => match saved_contents sv cfg with Some ps => <[i := Owned ps]> (cfg_saved cfg) | None => cfg_saved cfg end
  | None => cfg_saved cfg
  end.

(** The part of [crash1] after [disconnect]. *)
Definition crashed cfg (i : nat) : config (C := C) :=
  set_cfg_objects (kill_object cfg i) (set_cfg_saved (crashed_saved cfg i)
    (set_cfg_rafts (<[i := None]> (cfg_rafts cfg))
      (set_cfg_world (set_net (DeleteServer (Z.of_nat i) (net cfg)) (cfg_world cfg)) cfg))).

Lemma crashed_inv n i cfg : net_inv n cfg -> (i < n)%nat -> net_inv n (crashed cfg i).
Proof.
  intros Hinv Hi. pose proof (nv_len _ _ Hinv) as Hlen. destruct (Hlen) as [Hn Hc He Hs Hr].
  assert (length (crashed_saved cfg i) = length (cfg_saved cfg)) as Hls.
  { unfold crashed_saved. destruct (cfg_saved cfg !! i) as [sv|]; [|done].
    destruct (saved_contents sv cfg); [apply length_insert|done]. }
  assert (forall j, j <> i -> crashed_saved cfg i !! j = cfg_saved cfg !! j) as Hsne.
  { intros j Hne. unfold crashed_saved. destruct (cfg_saved cfg !! i) as [sv|]; [|done].
    destruct (saved_contents sv cfg); [by apply list_lookup_insert_ne|done]. }
  assert (forall r rf j, cfg_objects cfg !! r = Some rf -> sound n j rf ->
    exists rf', kill_object cfg i !! r = Some rf' /\ sound n j rf') as Hko.
  { intros r rf j Hrf Hso. unfold kill_object. destruct (cfg_rafts cfg !! i) as [[r'|]|]; [|by eauto..].
    destruct (decide (r = r')) as [->|Hne].
    - exists (set_dead true rf). rewrite list_lookup_alter_eq, Hrf. split; [done|by apply sound_Kill].
    - exists rf. by rewrite list_lookup_alter_ne. }
  assert (forall j, server_of (net (crashed cfg i)) (Z.of_nat j) =
    if decide (j = i) then None else server_of (net cfg) (Z.of_nat j)) as Hsrv.
  { intros j. unfold server_of. cbn. destruct (decide (j = i)) as [->|]; [by rewrite lookup_insert_eq|].
    by rewrite lookup_insert_ne by lia. }
  split; try apply Hinv.
  - split; cbn; rewrite ?length_insert; congruence.
  - intros j r Hj. cbn in Hj. destruct (decide (j = i)) as [->|Hne].
    { rewrite list_lookup_insert_eq in Hj by lia. done. }
    rewrite list_lookup_insert_ne in Hj by done. rewrite Hsrv, decide_False by done.
    cbn. rewrite Hsne by done. by apply (nv_raft _ _ Hinv).
  - intros j Hj. rewrite Hsrv. destruct (decide (j = i)) as [->|Hne]; [done|]. cbn in Hj.
    rewrite list_lookup_insert_ne in Hj by done. by apply (nv_down _ _ Hinv).
  - intros j sv Hj. cbn in Hj. destruct (decide (j = i)) as [->|Hne].
    + unfold crashed_saved in Hj. destruct (cfg_saved cfg !! i) as [sv0|] eqn:E; [|congruence].
      pose proof (saved_sound _ _ _ _ Hinv E) as Hso. destruct (saved_contents sv0 cfg) as [ps|].
      * rewrite list_lookup_insert_eq in Hj by lia. injection Hj as <-. apply Hso.
      * rewrite E in Hj. injection Hj as <-. by rewrite Hso.
    + rewrite Hsne in Hj by done. pose proof (nv_saved _ _ Hinv _ _ Hj) as Hsv. destruct sv as [| |r]; [done|done|].
      destruct Hsv as (rf&Hrf&Hso). by eapply Hko.
  - intros r rf. cbn. unfold kill_object. destruct (cfg_rafts cfg !! i) as [[r'|]|]; [|apply (nv_objects _ _ Hinv)..].
    intros Hr'. destruct (decide (r = r')) as [->|].
    2:{ rewrite list_lookup_alter_ne in Hr' by done. by apply (nv_objects _ _ Hinv r). }
    rewrite list_lookup_alter_eq in Hr'. apply fmap_Some in Hr' as (rf0&Hr0&->).
    destruct (nv_objects _ _ Hinv _ _ Hr0) as [Hwf Hd].
    destruct (run_good EvKill rf0 Hwf Hd I) as (rf'&[= <-]&(?&?&_)&_). done.
Qed.

Definition private (sv : Saved) : Prop := match sv with Shared _ => False | _ => True end.

(** Saving a private copy again changes nothing. *)
Lemma wp_save_again n i cfg : lengths n cfg -> (i < n)%nat ->
  (forall sv, cfg_saved cfg !! i = Some sv -> private sv) ->
  wp (update_saved (Z.of_nat i) (fun ps => SaveStateAndSnapshot (ReadRaftState ps) (ReadSnapshot ps) MakePersister))
    cfg (fun _ c => c = cfg).
Proof.
  intros Hl Hi Hown. destruct (lookup_range (cfg_saved cfg) i) as (sv&Hsv&_); [by rewrite (ln_saved _ _ Hl)|].
  eapply wp_update_saved; [exact Hl|done|exact Hsv|..]; [|done]. specialize (Hown sv Hsv).
  destruct sv as [|ps|]; try done. intros ? [= <-]. rewrite saved_again, list_insert_id by done. by destruct cfg.
Qed.

(** Killing the object and forgetting it, in a state whose storage is already copied. *)
Lemma wp_kill n i cfg cfg1 : net_inv n cfg -> (i < n)%nat -> lengths n cfg1 ->
  cfg_rafts cfg1 = cfg_rafts cfg -> cfg_objects cfg1 = cfg_objects cfg ->
  (forall sv, cfg_saved cfg1 !! i = Some sv -> private sv) ->
  wp (let! cfg := get in
      let! rf := lift (slice_get (cfg_rafts cfg) (Z.of_nat i)) in
      do! match rf with
          | Some r => do! on_raft r Kill; assign cfg_rafts set_cfg_rafts (Z.of_nat i) None
          | None => ret tt
          end;
      update_saved (Z.of_nat i) (fun ps => SaveStateAndSnapshot (ReadRaftState ps) (ReadSnapshot ps) MakePersister))
    cfg1
    (fun _ c => c = set_cfg_objects (kill_object cfg i) (set_cfg_rafts (<[i := None]> (cfg_rafts cfg)) cfg1)).
Proof.
  intros Hinv Hi Hl Er Eo Hown. destruct (lookup_range (cfg_rafts cfg) i) as (rf&Hrf&Hrf').
  { by rewrite <-Er, (ln_rafts _ _ Hl). }
  go. rewrite Er. eapply wp_lift; [exact Hrf'|]. unfold kill_object. rewrite Hrf. destruct rf as [r|].
  - destruct (nv_raft _ _ Hinv _ _ Hrf) as (Hs&_). destruct (nv_saved _ _ Hinv _ _ Hs) as (rf&Ho&_).
    unfold on_raft. go. rewrite Eo. eapply wp_lift; [exact Ho|]. unfold Kill. go.
    eapply wp_lift; [reflexivity|]. go. apply wp_assign; [cbn; by rewrite (ln_rafts _ _ Hl)|].
    eapply wp_mono; [apply (wp_save_again n); [|done|done]|].
    + destruct Hl. split; cbn; rewrite ?length_insert; done.
    + intros [] c ->. cbn. rewrite Er, (alter_insert _ _ _ _ Ho). done.
  - go. eapply wp_mono; [by apply (wp_save_again n)|]. intros [] c ->.
    rewrite (list_insert_id _ _ _ Hrf), <-Er, <-Eo. by destruct cfg1.
Qed.

(** What [crash1] changes. *)
Definition stopped cfg0 (i : nat) cfg : Prop :=
  cfg_connected cfg = <[i := false]> (cfg_connected cfg0) /\
  cfg_rafts cfg = <[i := None]> (cfg_rafts cfg0) /\ cfg_endnames cfg = cfg_endnames cfg0 /\
  cfg_objects cfg = kill_object cfg0 i /\ cfg_saved cfg = crashed_saved cfg0 i /\
  cfg_logs cfg = cfg_logs cfg0 /\ ends (net cfg) = ends (net cfg0) /\ cfg_applyErr cfg = cfg_applyErr cfg0.

(** [crash1]: disconnected, the server gone, the object killed, its storage copied. *)
Lemma wp_crash1 n i cfg : net_inv n cfg -> (i < n)%nat ->
  wp (crash1 (Z.of_nat i)) cfg (fun _ c => net_inv n c /\ stopped cfg i c).
Proof.
  intros Hinv Hi. unfold crash1. go. eapply wp_mono; [by apply disconnect_inv|].
  intros [] c (Hc&Hrest). eapply wp_mono with (P := fun _ c' => c' = crashed c i).
  2:{ destruct Hrest as (E1&E2&E3&E4&E5&E6&E7&E8&_). intros [] ? ->. split; [by apply crashed_inv|].
      unfold stopped, crashed. cbn. unfold kill_object, crashed_saved, saved_contents. rewrite E1, E2, E3, E4, E5, E6, E8.
      split_and!; done. }
  clear Hrest Hinv cfg. rename c into cfg, Hc into Hinv. pose proof (nv_len _ _ Hinv) as Hl.
  destruct (lookup_range (cfg_saved cfg) i) as (sv&Hsv&_); [by rewrite (ln_saved _ _ Hl)|].
  unfold on_net at 1. go. set (cfg1 := set_cfg_world _ cfg).
  assert (lengths n cfg1) as Hl1 by (destruct Hl; by split).
  assert (saved_contents sv cfg1 = saved_contents sv cfg) as Esv by (by destruct sv).
  eapply wp_update_saved; [exact Hl1|done|exact Hsv|rewrite Esv..].
  - intros ps Hps. eapply wp_mono; [apply (wp_kill n i cfg); try done|].
    + destruct Hl1. split; cbn; rewrite ?length_insert; done.
    + intros sv' Hsv'. cbn in Hsv'. rewrite list_lookup_insert_eq in Hsv' by (by rewrite (ln_saved _ _ Hl)).
      by injection Hsv' as <-.
    + intros [] c ->. unfold crashed, crashed_saved. rewrite Hsv, Hps, Copy_id. done.
  - intros Hps. eapply wp_mono; [apply (wp_kill n i cfg); try done|].
    + intros sv' Hsv'. change (cfg_saved cfg1) with (cfg_saved cfg) in Hsv'. rewrite Hsv in Hsv'. injection Hsv' as <-.
      pose proof (saved_sound _ _ _ _ Hinv Hsv) as Hso. rewrite Hps in Hso. by rewrite Hso.
    + intros [] c ->. unfold crashed, crashed_saved. rewrite Hsv, Hps. done.
Qed.

(** ** New ends *)

Abbreviation Net := (Network (EndName := string) (SrvName := Z)).

(** [rn'] is [rn] with the ends [take k names], which lead to the peers 0, 1, 2, ... *)
Record ends_added (names : list string) (k : nat) (rn rn' : Net) : Prop := {
  ea_ends nm : is_Some (ends rn' !! nm) <-> is_Some (ends rn !! nm) \/ nm ∈ take k names;
  ea_enabled nm : end_enabled rn' nm = if decide (nm ∈ take k names) then false else end_enabled rn nm;
  ea_new j nm : (j < k)%nat -> names !! j = Some nm -> connections rn' !! nm = Some (Some (Z.of_nat j));
  ea_old nm : nm ∉ take k names -> connections rn' !! nm = connections rn !! nm;
  ea_servers : servers rn' = servers rn
}.

Definition with_net (rn : Net) cfg : config (C := C) := set_cfg_world (set_net rn (cfg_world cfg)) cfg.

Definition fresh_names n (names : list string) cfg : Prop :=
  length names = n /\ NoDup names /\ forall nm, nm ∈ names -> ends (net cfg) !! nm = None.

Lemma ends_added_step names k nm rn0 rn : NoDup names -> names !! k = Some nm -> ends rn0 !! nm = None ->
  ends_added names k rn0 rn -> exists rn1, MakeEnd nm rn = Some rn1 /\
    ends_added names (S k) rn0 (Connect nm (Z.of_nat k) rn1).
Proof.
  intros Hd Hk Hfresh Hea. assert (nm ∉ take k names) as Hnew.
  { intros (j&Hj)%list_elem_of_lookup. apply lookup_take_Some in Hj as [Hj Hjk].
    pose proof (NoDup_lookup _ _ _ _ Hd Hj Hk). lia. }
  assert (ends rn !! nm = None) as Hnone.
  { destruct (ends rn !! nm) eqn:E; [|done]. exfalso.
    destruct (proj1 (ea_ends _ _ _ _ Hea nm)) as [[? Hs]|?]; [by eexists|congruence|done]. }
  unfold MakeEnd. rewrite Hnone. eexists. split; [reflexivity|]. pose proof (take_S_r _ _ _ Hk) as Ht.
  assert (forall x, x ∈ take (S k) names <-> x ∈ take k names \/ x = nm) as Hin.
  { intros x. rewrite Ht, elem_of_app, list_elem_of_singleton. done. }
  split; cbn.
  - intros x. rewrite Hin, lookup_insert_is_Some', (ea_ends _ _ _ _ Hea). naive_solver.
  - intros x. pose proof (ea_enabled _ _ _ _ Hea x) as Hx. unfold end_enabled in *. cbn.
    destruct (decide (nm = x)) as [->|Hne].
    + rewrite lookup_insert_eq, decide_True by (apply Hin; by right). done.
    + rewrite lookup_insert_ne, Hx by done. destruct (decide (x ∈ take k names)).
      * rewrite decide_True by (apply Hin; by left). done.
      * rewrite decide_False; [done|]. intros [?| ->]%Hin; done.
  - intros j x Hj Hx. destruct (decide (j = k)) as [->|Hne].
    + simplify_eq. by rewrite lookup_insert_eq.
    + assert (x <> nm) by (intros ->; by apply Hne, (NoDup_lookup _ _ _ _ Hd Hx Hk)).
      rewrite !lookup_insert_ne by done. apply (ea_new _ _ _ _ Hea); [lia|done].
  - intros x Hx. rewrite Hin in Hx. rewrite !lookup_insert_ne by naive_solver. apply Hea. naive_solver.
  - apply Hea.
Qed.

(** The loop of [start1] over the new ends. *)
Lemma wp_add_ends n i names cfg (cfg1 := set_cfg_endnames (<[i := Some names]> (cfg_endnames cfg)) cfg) :
  lengths n cfg -> (i < n)%nat -> fresh_names n names cfg ->
  wp (forM (seq 0 n) (fun j =>
        let! nm := endname (Z.of_nat i) (Z.of_nat j) in
        let! cfg := get in
        let! rn := lift (MakeEnd nm (w_net (cfg_world cfg))) in
        do! on_net (fun _ => rn);
        on_net (Connect nm (Z.of_nat j)))) cfg1
    (fun _ c => exists rn, c = with_net rn cfg1 /\ ends_added names n (net cfg) rn).
Proof.
  intros Hl Hi (Hlen&Hd&Hfresh).
  eapply wp_mono; [apply (wp_forM _ _ (fun pre c => exists rn, c = with_net rn cfg1 /\ ends_added names (length pre) (net cfg) rn))|].
  - exists (net cfg). split; [by destruct cfg as [[] ? ? ? ? ? ? ? ?]|]. cbn. split; try done.
    + intros nm. split; [by left|intros [?|[]%not_elem_of_nil]; done].
    + lia.
  - intros pre j c (post&Hseq) (rn&->&Hea).
    assert (j = length pre) as ->.
    { pose proof (f_equal (fun l => l !! length pre) Hseq) as Hj. rewrite list_lookup_middle in Hj by done.
      apply lookup_seq in Hj. lia. }
    assert (length pre < n)%nat as Hlt by (apply (f_equal length) in Hseq; rewrite length_app, length_seq in Hseq; cbn in Hseq; lia).
    destruct (lookup_lt_is_Some_2 names (length pre)) as [nm Hnm]; [lia|].
    destruct (ends_added_step names (length pre) nm (net cfg) rn) as (rn1&Hme&Hea'); [done|done| |done|].
    { apply Hfresh. by eapply list_elem_of_lookup_2. }
    go. unfold endname. go. eapply wp_lift; [apply slice_get_Some; rewrite Nat2Z.id; split; [lia|]|].
    { cbn. apply list_lookup_insert_eq. by rewrite (ln_endnames _ _ Hl). }
    eapply wp_lift; [apply slice_get_Some; rewrite Nat2Z.id; split; [lia|exact Hnm]|].
    go. eapply wp_lift; [exact Hme|]. unfold on_net. go. rewrite length_app, Nat.add_comm.
    by exists (Connect nm (Z.of_nat (length pre)) rn1).
  - intros [] c (rn&->&Hea). rewrite length_seq in Hea. by exists rn.
Qed.

(** ** Starting a peer *)

(** A new peer on the storage of a sound one has its term, vote and log. *)
Lemma sound_Make n i rf : sound n i rf -> exists rf', Make n (Z.of_nat i) (persister rf) = Some rf' /\
  sound n i rf' /\ persister rf' = persister rf /\ currentTerm rf' = currentTerm rf /\
  votedFor rf' = votedFor rf /\ logs rf' = logs rf.
Proof.
  intros (Hwf&Hd&Hp&Hm). rewrite <-Hp, <-Hm. destruct (run_good EvRestart rf Hwf Hd I) as (rf'&HM&(Hwf'&Hd'&_&Hme&Hpe)&_).
  destruct (durable_Make (peers rf) (me rf) rf (wf_log _ Hwf) Hd) as (rf1&HM1&[]). cbn in HM.
  exists rf'. split; [done|]. rewrite HM in HM1. injection HM1 as <-. split; [|done]. unfold sound. split_and!; congruence || done.
Qed.

Lemma fresh_Make n i : (i < n)%nat -> exists rf', Make n (Z.of_nat i) MakePersister = Some rf' /\ sound n i rf'.
Proof.
  intros Hi. destruct (Make_spec n (Z.of_nat i) MakePersister 0 (-1) [@zeroEntry C]) as (rf&HM&[]); [by left|apply wf_zero|].
  exists rf. split; [done|]. destruct (Make_initial n (Z.of_nat i) rf) as [? ?]; [lia|done|]. by split_and!.
Qed.

(** The state in which [start1] leaves the tester: [rf] is the new object, [srv] the
    new server, [rn] the network with the new ends. *)
Definition restarted cfg (i : nat) (names : list string) (rn : Net) (rf : Raft C) : config (C := C) :=
  let r := length (cfg_objects cfg) in
  let w := cfg_world cfg in
  mkConfig
    (mkWorld (AddServer (Z.of_nat i) (length (w_servers w)) rn)
       (w_servers w ++ [AddService (MakeService (mkReceiver r "Raft" raftMethods)) MakeServer])
       (w_looping w) (w_calls w))
    (cfg_n cfg) (<[i := Some r]> (cfg_rafts cfg)) (cfg_applyErr cfg) (cfg_connected cfg)
    (<[i := Shared r]> (cfg_saved cfg)) (<[i := Some names]> (cfg_endnames cfg)) (cfg_logs cfg)
    (cfg_maxIndex cfg) (cfg_objects cfg ++ [rf]).

Lemma restarted_name n cfg i names rn rf a c : lengths n cfg -> (i < n)%nat ->
  name (restarted cfg i names rn rf) a c = if decide (a = i) then names !! c else name cfg a c.
Proof.
  intros Hl Hi. unfold name. cbn. destruct (decide (a = i)) as [->|].
  - by rewrite list_lookup_insert_eq by (by rewrite (ln_endnames _ _ Hl)).
  - by rewrite list_lookup_insert_ne.
Qed.

Lemma restarted_inv n cfg i names rn rf : net_inv n cfg -> (i < n)%nat -> fresh_names n names cfg ->
  conn cfg i = false -> ends_added names n (net cfg) rn -> sound n i rf ->
  net_inv n (restarted cfg i names rn rf).
Proof.
  intros Hinv Hi (Hlen&Hd&Hfresh) Hdown Hea Hso. pose proof (nv_len _ _ Hinv) as Hl. destruct (Hl) as [Hn Hc He Hs Hr].
  assert (take n names = names) as Ht by (apply take_ge; lia).
  assert (forall a c nm, name cfg a c = Some nm -> nm ∉ names) as Hold.
  { intros a c nm Hnm Hin. destruct (nv_ends _ _ Hinv _ _ _ Hnm) as [[? E] _]. by rewrite (Hfresh _ Hin) in E. }
  assert (forall c nm, names !! c = Some nm -> nm ∈ names) as Hin by (intros; by eapply list_elem_of_lookup_2).
  assert (forall j, server_of (net (restarted cfg i names rn rf)) (Z.of_nat j) =
    if decide (j = i) then Some (length (w_servers (cfg_world cfg))) else server_of (net cfg) (Z.of_nat j)) as Hsrv.
  { intros j. unfold server_of. cbn. rewrite (ea_servers _ _ _ _ Hea). destruct (decide (j = i)) as [->|];
      [by rewrite lookup_insert_eq|by rewrite lookup_insert_ne by lia]. }
  split.
  - split; cbn; rewrite ?length_insert; done.
  - intros a l. cbn. rewrite list_lookup_insert_Some. intros [(<-&[= <-]&_)|[_ Ha]]; [lia|]. by apply (nv_named _ _ Hinv a).
  - intros a. change (conn _ a) with (conn cfg a). intros Ha. unfold started. cbn.
    rewrite list_lookup_insert_ne by (intros ->; congruence). by apply (nv_started _ _ Hinv).
  - intros a c a' c' nm. rewrite !(restarted_name n) by done. destruct (decide (a = i)) as [->|], (decide (a' = i)) as [->|].
    + intros H1' H2'. split; [done|]. by eapply NoDup_lookup.
    + intros H1' H2'. by destruct (Hold _ _ _ H2'); eapply Hin.
    + intros H1' H2'. by destruct (Hold _ _ _ H1'); eapply Hin.
    + apply Hinv.
  - intros a c nm. rewrite (restarted_name n) by done. cbn. rewrite (ea_ends _ _ _ _ Hea), Ht.
    destruct (decide (a = i)) as [->|]; intros Hnm.
    + split; [right; by eapply Hin|]. eapply (ea_new _ _ _ _ Hea); [|done]. apply lookup_lt_Some in Hnm. lia.
    + destruct (nv_ends _ _ Hinv _ _ _ Hnm) as [? <-]. split; [by left|]. apply (ea_old _ _ _ _ Hea).
      rewrite Ht. by eapply Hold.
  - intros a c nm. rewrite (restarted_name n) by done. change (conn (restarted _ _ _ _ _)) with (conn cfg).
    change (end_enabled (net _) nm) with (end_enabled rn nm). rewrite (ea_enabled _ _ _ _ Hea), Ht.
    destruct (decide (a = i)) as [->|]; intros Hnm.
    + rewrite decide_True by (by eapply Hin). by rewrite Hdown.
    + rewrite decide_False by (by eapply Hold). by apply (nv_enabled _ _ Hinv).
  - intros a r Ha. rewrite Hsrv. cbn in *. destruct (decide (a = i)) as [->|Hne].
    + rewrite list_lookup_insert_eq in Ha by lia. injection Ha as <-. split; [by rewrite list_lookup_insert_eq by lia|].
      eexists _, _, _. split; [done|]. rewrite list_lookup_middle by done. split; [done|].
      split; [apply lookup_insert_eq|done].
    + rewrite list_lookup_insert_ne in Ha by done. rewrite list_lookup_insert_ne by done.
      destruct (nv_raft _ _ Hinv _ _ Ha) as (?&p&srv&svc&?&Hp&?). split; [done|]. exists p, srv, svc.
      split; [done|]. split; [by apply lookup_app_l_Some|done].
  - intros a Ha. rewrite Hsrv. cbn in Ha. destruct (decide (a = i)) as [->|Hne].
    + by rewrite list_lookup_insert_eq in Ha by lia.
    + rewrite list_lookup_insert_ne in Ha by done. by apply (nv_down _ _ Hinv).
  - intros a sv Ha. cbn in Ha. apply list_lookup_insert_Some in Ha as [(<-&<-&_)|[_ Ha]].
    + exists rf. split; [by apply list_lookup_middle|done].
    + pose proof (nv_saved _ _ Hinv _ _ Ha) as Hsv. destruct sv as [| |r]; [done|done|].
      destruct Hsv as (rf'&Hr'&?). exists rf'. split; [by apply lookup_app_l_Some|done].
  - intros r rf0. cbn. intros [Hr0|[_ Hr0]]%lookup_app_Some; [by apply (nv_objects _ _ Hinv r)|].
    apply list_lookup_singleton_Some in Hr0 as [_ <-]. destruct Hso as (?&?&_). done.
Qed.


(** The persister [start1] hands to [Make]. *)
Definition storage cfg (i : nat) : Persister :=
  match cfg_saved cfg !! i with
  | Some sv => default MakePersister (saved_contents sv cfg)
  | None => MakePersister
  end.

Lemma storage_Make n cfg i : net_inv n cfg -> (i < n)%nat -> exists rf, Make n (Z.of_nat i) (storage cfg i) = Some rf /\ sound n i rf.
Proof.
  intros Hinv Hi. unfold storage. destruct (lookup_range (cfg_saved cfg) i) as (sv&Hsv&_).
  { by rewrite (ln_saved _ _ (nv_len _ _ Hinv)). }
  rewrite Hsv. pose proof (saved_sound _ _ _ _ Hinv Hsv) as Hso. destruct (saved_contents sv cfg) as [ps|].
  - destruct Hso as (_&rf&Hrf&<-). destruct (sound_Make n i rf Hrf) as (rf'&?&?&_). eauto.
  - by apply fresh_Make.
Qed.

Lemma storage_stopped n cfg i cfg1 : net_inv n cfg -> (i < n)%nat -> stopped cfg i cfg1 -> storage cfg1 i = storage cfg i.
Proof.
  intros Hinv Hi (_&_&_&_&E&_). unfold storage. rewrite E. unfold crashed_saved.
  destruct (lookup_range (cfg_saved cfg) i) as (sv&Hsv&_); [by rewrite (ln_saved _ _ (nv_len _ _ Hinv))|].
  rewrite Hsv. pose proof (saved_sound _ _ _ _ Hinv Hsv) as Hso. destruct (saved_contents sv cfg) as [ps|] eqn:Es.
  - rewrite list_lookup_insert_eq by (by rewrite (ln_saved _ _ (nv_len _ _ Hinv))). done.
  - rewrite Hsv, Hso. done.
Qed.

(** [start1]: the old instance stopped, the new one made from what it saved. *)
Lemma wp_start1 n i names cfg : net_inv n cfg -> (i < n)%nat -> fresh_names n names cfg ->
  wp (start1 raftMethods (Z.of_nat i) names) cfg (fun _ c => exists cfg1 rn rf,
    c = restarted cfg1 i names rn rf /\ net_inv n c /\ stopped cfg i cfg1 /\
    ends_added names n (net cfg1) rn /\ Make n (Z.of_nat i) (storage cfg i) = Some rf).
Proof.
  intros Hinv Hi Hfresh. unfold start1. go. eapply wp_mono; [by apply wp_crash1|].
  intros [] cfg1 [Hinv1 Hst]. go. pose proof (nv_len _ _ Hinv1) as Hl.
  assert (fresh_names n names cfg1) as Hfresh1.
  { destruct Hst as (_&_&_&_&_&_&E&_), Hfresh as (?&?&?). unfold fresh_names. by rewrite E. }
  assert (conn cfg1 i = false) as Hdown.
  { unfold conn. destruct Hst as [-> _]. rewrite list_lookup_insert_eq; [done|].
    by rewrite (ln_connected _ _ (nv_len _ _ Hinv)). }
  apply wp_assign; [by rewrite (ln_endnames _ _ Hl)|]. rewrite (ln_n _ _ Hl). go.
  eapply wp_mono; [by apply (wp_add_ends n i names cfg1)|]. intros [] c (rn&->&Hea). go. cbn [with_net set_cfg_endnames set_cfg_world cfg_saved].
  destruct (lookup_range (cfg_saved cfg1) i) as (sv&Hsv&Hsv'); [by rewrite (ln_saved _ _ Hl)|].
  eapply wp_lift; [exact Hsv'|]. set (cfg2 := with_net rn _).
  assert (match saved_contents sv cfg2 with Some ps => Copy ps | None => MakePersister end = storage cfg i) as ->.
  { rewrite <-(storage_stopped n cfg i cfg1) by done. unfold storage. rewrite Hsv.
    change (saved_contents sv cfg2) with (saved_contents sv cfg1). destruct (saved_contents sv cfg1); [apply Copy_id|done]. }
  destruct (storage_Make n cfg i Hinv Hi) as (rf&HM&Hso). change (cfg_n cfg2) with (cfg_n cfg1). rewrite (ln_n _ _ Hl).
  go. eapply wp_lift; [exact HM|]. go. apply wp_assign; [cbn; by rewrite (ln_saved _ _ Hl)|].
  go. apply wp_assign; [cbn; by rewrite (ln_rafts _ _ Hl)|]. go. unfold on_net. go.
  exists cfg1, rn, rf. split; [reflexivity|]. split; [by apply (restarted_inv n cfg1 i names rn rf)|]. done.
Qed.

(** ** The life of a tester *)

(** A tester that has read nothing. *)
Definition fresh_tester (n : nat) cfg : Prop :=
  cfg_logs cfg = replicate n (Some ∅) /\ cfg_applyErr cfg = replicate n None /\
  length (cfg_rafts cfg) = n.

Lemma net_inv_logs n cfg l : net_inv n cfg -> net_inv n (set_cfg_logs l cfg).
Proof. intros Hinv. split; try apply Hinv. by destruct (nv_len _ _ Hinv). Qed.

Lemma new_config_inv n (f : Net -> Net) : (forall rn, servers (f rn) = servers rn) -> net_inv n (with_net (f MakeNetwork) (new_config n)).
Proof.
  intros Hf. assert (forall i j, name (with_net (f MakeNetwork) (new_config n)) i j = None) as Hno.
  { intros i j. unfold name. cbn. destruct (decide (i < n)%nat).
    - by rewrite (lookup_replicate_2 _ None).
    - by rewrite lookup_ge_None_2 by (rewrite length_replicate; lia). }
  split; unfold conn; cbn.
  - split; cbn; rewrite ?length_replicate; done.
  - by intros i l [[=]%eq_sym _]%lookup_replicate.
  - intros i Hi. destruct (replicate n false !! i) as [b|] eqn:E; [|done]. apply lookup_replicate in E as [-> _]. done.
  - intros i j i' j' nm Hi. by rewrite Hno in Hi.
  - intros i j nm Hi. by rewrite Hno in Hi.
  - intros i j nm Hi. by rewrite Hno in Hi.
  - by intros i r [[=] _]%lookup_replicate.
  - intros i _. unfold server_of, net. cbn. by rewrite Hf.
  - by intros i sv [-> _]%lookup_replicate.
  - done.
Qed.

(** The strings [randstring] returned: [n] for each peer, all different. *)
Definition distinct_names (n : nat) (names : nat -> list string) : Prop :=
  (forall i, length (names i) = n /\ NoDup (names i)) /\
  (forall i j nm, nm ∈ names i -> nm ∈ names j -> i = j).

(** The loops of [make_config]. *)
Record starting n (names : nat -> list string) (pre : list nat) cfg : Prop := {
  sg_inv : net_inv n cfg;
  sg_ends nm : is_Some (ends (net cfg) !! nm) -> exists k, k ∈ pre /\ nm ∈ names k;
  sg_started i : i ∈ pre -> started cfg i;
  sg_down i : conn cfg i = false;
  sg_running i : i ∈ pre -> exists r, cfg_rafts cfg !! i = Some (Some r);
  sg_len : length (cfg_logs cfg) = n;
  sg_logs i : i ∈ pre -> cfg_logs cfg !! i = Some (Some ∅);
  sg_err : cfg_applyErr cfg = replicate n None
}.

Lemma start_first n names pre i cfg : distinct_names n names -> starting n names pre cfg -> (i < n)%nat -> i ∉ pre ->
  wp (do! assign cfg_logs set_cfg_logs (Z.of_nat i) (Some ∅); start1 raftMethods (Z.of_nat i) (names i)) cfg
    (fun _ c => starting n names (pre ++ [i]) c).
Proof.
  intros [Hnames Hdis] Hs Hi Hpre. pose proof (sg_inv _ _ _ _ Hs) as Hinv. destruct (nv_len _ _ Hinv) as [Hn Hc He Hsv Hr].
  go. apply wp_assign; [by rewrite (sg_len _ _ _ _ Hs)|].
  eapply wp_mono; [apply (wp_start1 n); [by apply net_inv_logs|done|]|].
  { destruct (Hnames i). split_and!; [done|done|]. intros nm Hnm. cbn.
    destruct (ends (net cfg) !! nm) eqn:E; [|done]. destruct (sg_ends _ _ _ _ Hs nm) as (k&Hk&Hnm'); [by eexists|].
    by rewrite (Hdis _ _ _ Hnm Hnm') in Hpre. }
  intros [] c (cfg1&rn&rf&->&Hinv'&(E1&E2&E3&E4&E5&E6&E7&E8)&Hea&_). cbn in E1, E2, E3, E5, E6, E7, E8.
  destruct (Hnames i) as [Hlen _]. rewrite <-Hlen in Hea.
  split; [done|..].
  - intros nm. cbn. rewrite (ea_ends _ _ _ _ Hea), firstn_all. change (ends (net cfg1)) with (ends (net cfg1)).
    rewrite E7. intros [Hx|Hx]; [|exists i; set_solver]. destruct (sg_ends _ _ _ _ Hs nm Hx) as (k&?&?). exists k. set_solver.
  - intros k [Hk|Hk%list_elem_of_singleton]%elem_of_app; unfold started; cbn; rewrite E3.
    + rewrite list_lookup_insert_ne by (intros ->; done). destruct (sg_started _ _ _ _ Hs k Hk) as (l&?&Hl). exists l.
      split; [done|]. rewrite Hl, Hn. symmetry. apply (ln_n n (restarted cfg1 i (names i) rn rf)), Hinv'.
    + subst k. exists (names i). rewrite list_lookup_insert_eq by lia. split; [done|].
      rewrite Hlen. symmetry. apply (ln_n n (restarted cfg1 i (names i) rn rf)), Hinv'.
  - intros k. unfold conn. cbn. rewrite E1. destruct (decide (k = i)) as [->|].
    + by rewrite list_lookup_insert_eq by lia.
    + rewrite list_lookup_insert_ne by done. apply (sg_down _ _ _ _ Hs).
  - intros k Hk. cbn. rewrite E2. destruct (decide (k = i)) as [->|].
    + eexists. apply list_lookup_insert_eq. rewrite length_insert. lia.
    + rewrite !list_lookup_insert_ne by done. apply (sg_running _ _ _ _ Hs). set_solver.
  - cbn. rewrite E6, length_insert. apply Hs.
  - intros k Hk. cbn. rewrite E6. destruct (decide (k = i)) as [->|].
    + apply list_lookup_insert_eq. apply (Nat.lt_le_trans _ _ _ Hi), Nat.eq_le_incl. symmetry. apply Hs.
    + rewrite list_lookup_insert_ne by done. apply (sg_logs _ _ _ _ Hs). set_solver.
  - cbn. rewrite E8. apply Hs.
Qed.

(** Every peer has been started. *)
Definition up n cfg : Prop := net_inv n cfg /\ forall i, (i < n)%nat -> started cfg i.

Lemma started_same cfg cfg' i : cfg_endnames cfg' = cfg_endnames cfg -> cfg_n cfg' = cfg_n cfg -> started cfg i -> started cfg' i.
Proof. intros E1 E2. unfold started. by rewrite E1, E2. Qed.

Lemma make_config_up n unreliable names : distinct_names n names -> exists cfg,
  make_config raftMethods n unreliable names = Some cfg /\ up n cfg /\ fresh_tester n cfg /\
  forall i, (i < n)%nat -> conn cfg i = true /\ exists r, cfg_rafts cfg !! i = Some (Some r).
Proof.
  intros Hnames. unfold make_config.
  match goal with |- exists cfg, snd <$> ?m _ = _ /\ _ => enough (wp m (new_config n) (fun _ cfg => up n cfg /\
    fresh_tester n cfg /\ forall i, (i < n)%nat -> conn cfg i = true /\ exists r, cfg_rafts cfg !! i = Some (Some r))) as Hw end.
  { apply wp_runs in Hw as ([]&cfg&->&Hw). by exists cfg. }
  unfold setunreliable, on_net. go.
  eapply wp_mono; [apply (wp_forM _ _ (starting n names))|].
  - set (f := fun rn : Net => LongDelays true (Reliable (negb unreliable) rn)).
    pose proof (new_config_inv n f (fun _ => eq_refl)) as Hinv. split; [exact Hinv|..].
    + intros nm. cbn. rewrite lookup_empty. by intros [? [=]].
    + by intros i []%not_elem_of_nil.
    + intros i. unfold conn. cbn. destruct (replicate n false !! i) as [b|] eqn:E; [|done].
      apply lookup_replicate in E as [-> _]. done.
    + by intros i []%not_elem_of_nil.
    + apply length_replicate.
    + by intros i []%not_elem_of_nil.
    + done.
  - intros pre i c (post&E) Hs. destruct (seq_split _ _ _ _ E). by apply start_first.
  - intros [] c Hs. assert (forall i, (i < n)%nat -> i ∈ seq 0 n) as Hin by (intros; apply elem_of_seq; lia).
    eapply wp_mono; [apply (wp_forM _ _ (fun pre c' => up n c' /\ cfg_rafts c' = cfg_rafts c /\
      cfg_logs c' = cfg_logs c /\ cfg_applyErr c' = cfg_applyErr c /\ forall i, i ∈ pre -> conn c' i = true))|].
    + split_and!; try done; [|by intros i []%not_elem_of_nil]. split; [apply Hs|]. intros i Hi. eapply sg_started; eauto.
    + intros pre i c' (post&E) ([Hinv Hst]&E1&E2&E3&Hc). destruct (seq_split _ _ _ _ E) as [Hi _].
      eapply wp_mono; [apply connect_inv; [done|done|by apply Hst]|].
      intros [] c'' (Hinv'&Hcon&F1&F2&F3&F4&F5). split_and!; try congruence.
      * split; [done|]. intros k Hk. eapply started_same; [exact F2|exact F3|by apply Hst].
      * intros k Hk. unfold conn. rewrite Hcon. destruct (decide (k = i)) as [->|].
        -- by rewrite list_lookup_insert_eq by (by rewrite (ln_connected _ _ (nv_len _ _ Hinv))).
        -- rewrite list_lookup_insert_ne by done. apply Hc. set_solver.
    + intros [] c' (Hup&E1&E2&E3&Hc). split_and!; [done| |].
      * split_and!; [|rewrite E3; apply Hs|rewrite E1; apply Hs]. rewrite E2. symmetry. apply replicate_as_elem_of.
        split; [apply Hs|]. intros x (k&Hk)%list_elem_of_lookup. pose proof (lookup_lt_Some _ _ _ Hk) as Hlt.
        rewrite (sg_len _ _ _ _ Hs) in Hlt. pose proof (sg_logs _ _ _ _ Hs k (Hin k Hlt)) as Hk'.
        exact (Some_inj _ _ (eq_trans (eq_sym Hk) Hk')).
      * intros i Hi. split; [by apply Hc, Hin|]. rewrite E1. by apply (sg_running _ _ _ _ Hs), Hin.
Qed.

(** What the tester, and the peers on their own, do to a running configuration. *)
Inductive Op :=
  | ConnectOp (i : nat)
  | DisconnectOp (i : nat)
  | CrashOp (i : nat)
  | StartOp (i : nat) (names : list string)
  | UnreliableOp (b : bool)
  | ReorderOp (b : bool)
  | PeerOp (r : nat) (ev : RaftInv.Event C).

Definition op_ok n (op : Op) cfg : Prop :=
  match op with
  | ConnectOp i | DisconnectOp i | CrashOp i => (i < n)%nat
  | StartOp i names => (i < n)%nat /\ fresh_names n names cfg
  | UnreliableOp _ | ReorderOp _ => True
  | PeerOp r ev => ev <> EvRestart /\ forall rf, cfg_objects cfg !! r = Some rf -> ok ev rf
  end.

Definition run_op (op : Op) cfg : option (config (C := C)) :=
  match op with
  | ConnectOp i => snd <$> connect (Z.of_nat i) cfg
  | DisconnectOp i => snd <$> disconnect (Z.of_nat i) cfg
  | CrashOp i => snd <$> crash1 (Z.of_nat i) cfg
  | StartOp i names => snd <$> start1 raftMethods (Z.of_nat i) names cfg
  | UnreliableOp b => snd <$> setunreliable b cfg
  | ReorderOp b => snd <$> setlongreordering b cfg
  | PeerOp r ev =>
      match cfg_objects cfg !! r with
      | Some rf => (fun rf => set_cfg_objects (<[r := rf]> (cfg_objects cfg)) cfg) <$> RaftInv.run ev rf
      | None => Some cfg
      end
  end.

Definition op_step n cfg cfg' : Prop := exists op, op_ok n op cfg /\ run_op op cfg = Some cfg'.

Lemma wp_op {A} (m : M (config (C := C)) A) cfg (P : config (C := C) -> Prop) :
  wp m cfg (fun _ => P) -> exists cfg', snd <$> m cfg = Some cfg' /\ P cfg'.
Proof. intros (a&cfg'&->&HP)%wp_runs. by exists cfg'. Qed.

(** Objects that run stay sound, whether the tester still points to them or not. *)
Lemma peer_inv n r ev rf rf' cfg : net_inv n cfg -> ev <> EvRestart -> cfg_objects cfg !! r = Some rf ->
  ok ev rf -> RaftInv.run ev rf = Some rf' ->
  net_inv n (set_cfg_objects (<[r := rf']> (cfg_objects cfg)) cfg).
Proof.
  intros Hinv Hne Ho Hok Hrun. destruct (nv_objects _ _ Hinv _ _ Ho) as [Hwf Hd]. destruct (run_good ev rf Hwf Hd Hok) as (rf1&Hr1&(Hwf'&Hd'&_&Hme&Hpe)&_).
  rewrite Hrun in Hr1. injection Hr1 as <-. split; try apply Hinv.
  - by destruct (nv_len _ _ Hinv).
  - intros i sv Hi. cbn in Hi. pose proof (nv_saved _ _ Hinv _ _ Hi) as Hsv. destruct sv as [| |r']; [done|done|].
    destruct Hsv as (rf0&Hr'&Hso). cbn. destruct (decide (r = r')) as [->|Hner].
    + exists rf'. rewrite list_lookup_insert_eq by (by eapply lookup_lt_Some). split; [done|].
      simplify_eq. destruct Hso as (_&_&?&?). unfold sound. split_and!; congruence || done.
    + exists rf0. by rewrite list_lookup_insert_ne.
  - intros r' rf0. cbn. intros [(_&<-&_)|[_ Hr']]%list_lookup_insert_Some; [done|]. by apply (nv_objects _ _ Hinv r').
Qed.

Lemma with_net_inv n cfg (f : Net -> Net) : net_inv n cfg ->
  (forall rn, ends (f rn) = ends rn /\ enabled (f rn) = enabled rn /\ servers (f rn) = servers rn /\
     connections (f rn) = connections rn) -> net_inv n (with_net (f (net cfg)) cfg).
Proof.
  intros Hinv Hf. destruct (Hf (net cfg)) as (E1&E2&E3&E4). split; try apply Hinv;
    change (net (with_net (f (net cfg)) cfg)) with (f (net cfg)); unfold server_of, end_enabled.
  - by destruct (nv_len _ _ Hinv).
  - rewrite E1, E4. apply Hinv.
  - rewrite E2. apply Hinv.
  - rewrite E3. apply Hinv.
  - rewrite E3. apply Hinv.
Qed.

Lemma op_up n op cfg : up n cfg -> op_ok n op cfg -> exists cfg', run_op op cfg = Some cfg' /\ up n cfg'.
Proof.
  intros [Hinv Hst] Hok. destruct op as [i|i|i|i names|b|b|r ev]; cbn [run_op op_ok] in *.
  - apply wp_op. eapply wp_mono; [apply (connect_inv n); auto|]. intros [] c (Hc&_&_&E1&E2&_). split; [done|].
    intros k Hk. eapply started_same; eauto.
  - apply wp_op. eapply wp_mono; [apply (disconnect_inv n); auto|]. intros [] c (Hc&_&_&E1&_&_&_&_&_&E2). split; [done|].
    intros k Hk. eapply started_same; eauto.
  - apply wp_op. eapply wp_mono; [by apply wp_crash1|]. intros [] c (Hc&_&_&E1&_). split; [done|].
    intros k Hk. eapply started_same; [exact E1| |by apply Hst].
    rewrite (ln_n _ _ (nv_len _ _ Hc)). symmetry. apply Hinv.
  - destruct Hok as [Hi Hfr]. apply wp_op. eapply wp_mono; [by apply wp_start1|].
    intros [] c (cfg1&rn&rf&->&Hc&(_&_&E1&_)&_). split; [done|]. intros k Hk.
    destruct (decide (k = i)) as [->|Hne]; unfold started; pose proof (ln_n _ _ (nv_len _ _ Hc)) as En; cbn in *; rewrite E1, En.
    + exists names. rewrite list_lookup_insert_eq by (by rewrite (ln_endnames _ _ (nv_len _ _ Hinv))). split; [done|apply Hfr].
    + rewrite list_lookup_insert_ne by done. destruct (Hst k Hk) as (l&?&El). exists l. split; [done|].
      rewrite El. apply Hinv.
  - eexists. split; [reflexivity|]. split; [|exact Hst]. by apply (with_net_inv n cfg (Reliable (negb b))).
  - eexists. split; [reflexivity|]. split; [|exact Hst]. by apply (with_net_inv n cfg (LongReordering b)).
  - destruct Hok as [Hne Hok]. destruct (cfg_objects cfg !! r) as [rf|] eqn:Ho; [|by exists cfg].
    destruct (nv_objects _ _ Hinv _ _ Ho) as [Hwf Hd]. destruct (run_good ev rf Hwf Hd (Hok rf eq_refl)) as (rf'&Hr&_).
    rewrite Hr. eexists. split; [reflexivity|]. split; [|exact Hst]. eapply peer_inv; eauto.
Qed.

Lemma steps_up n cfg cfg' : up n cfg -> rtc (op_step n) cfg cfg' -> up n cfg'.
Proof.
  intros Hup Hs. induction Hs as [|cfg cfg1 cfg' (op&Hok&Hr) _ IH]; [done|]. apply IH.
  destruct (op_up n op cfg Hup Hok) as (c&Hc&?). congruence.
Qed.

(** The network a tester keeps. With random names that differ, [make_config] succeeds
    and connects everyone; after any sequence of its operations, with peers running
    in between, every operation succeeds, and a request from peer [i] to peer [j]
    finds a server exactly when both are connected and [j] has not crashed: the one
    that serves the current instance of [j]. *)
Theorem tester_network n unreliable names : distinct_names n names ->
  exists cfg0, make_config raftMethods n unreliable names = Some cfg0 /\ fresh_tester n cfg0 /\
    (forall i, (i < n)%nat -> conn cfg0 i = true) /\
    forall cfg, rtc (op_step n) cfg0 cfg ->
      (forall op, op_ok n op cfg -> is_Some (run_op op cfg)) /\
      forall i j, (i < n)%nat -> (j < n)%nat -> exists nm, name cfg i j = Some nm /\
        match readEndnameInfo (net cfg) nm with
        | Some info => conn cfg i = true /\ conn cfg j = true /\ exists r srv svc,
            cfg_rafts cfg !! j = Some (Some r) /\ w_servers (cfg_world cfg) !! i_server info = Some srv /\
            services srv !! "Raft"%string = Some svc /\ sv_rcvr svc = r
        | None => conn cfg i = false \/ conn cfg j = false \/ cfg_rafts cfg !! j = Some None
        end.
Proof.
  intros Hnames. destruct (make_config_up n unreliable names Hnames) as (cfg0&Hm&Hup&Hf&Hall). exists cfg0.
  split_and!; [done|done|by intros i Hi; apply Hall|]. intros cfg Hs. pose proof (steps_up _ _ _ Hup Hs) as [Hinv Hst].
  split. { intros op Hok. destruct (op_up n op cfg) as (c&->&_); [by split|done|by eexists]. }
  intros i j Hi Hj. destruct (started_name n cfg i j (nv_len _ _ Hinv) (Hst i Hi) Hj) as [nm Hnm]. exists nm.
  split; [done|]. unfold readEndnameInfo. rewrite (nv_enabled _ _ Hinv _ _ _ Hnm).
  destruct (nv_ends _ _ Hinv _ _ _ Hnm) as [_ ->]. destruct (conn cfg i), (conn cfg j); cbn; auto.
  destruct (lookup_range (cfg_rafts cfg) j) as ([r|]&Hr&_); [by rewrite (ln_rafts _ _ (nv_len _ _ Hinv))|..].
  - destruct (nv_raft _ _ Hinv _ _ Hr) as (_&p&srv&svc&->&?&?&?). cbn. split_and!; [done|done|]. by exists r, srv, svc.
  - rewrite (nv_down _ _ Hinv _ Hr). auto.
Qed.

(** A crash loses nothing that was saved. [start1] on a running peer kills its
    object and makes a new one with its term, vote and log, whose storage no other
    object shares; the copy of the log the tester keeps stays. *)
Theorem start1_recovers n i names cfg r rf : net_inv n cfg -> (i < n)%nat -> fresh_names n names cfg ->
  cfg_rafts cfg !! i = Some (Some r) -> cfg_objects cfg !! r = Some rf ->
  exists cfg' r' rf', start1 raftMethods (Z.of_nat i) names cfg = Some (tt, cfg') /\ r' <> r /\
    cfg_rafts cfg' !! i = Some (Some r') /\ cfg_objects cfg' !! r' = Some rf' /\
    cfg_objects cfg' !! r = Some (set_dead true rf) /\
    currentTerm rf' = currentTerm rf /\ votedFor rf' = votedFor rf /\ logs rf' = logs rf /\
    state rf' = StateFollower /\ cfg_saved cfg' !! i = Some (Shared r') /\
    (forall j, j <> i -> cfg_saved cfg' !! j <> Some (Shared r')) /\
    conn cfg' i = false /\ cfg_logs cfg' = cfg_logs cfg.
Proof.
  intros Hinv Hi Hfr Hr Ho. destruct (proj1 (wp_runs _ _ _) (wp_start1 n i names cfg Hinv Hi Hfr))
    as ([]&cfg'&Hrun&(cfg1&rn&rf'&->&Hinv'&(E1&E2&E3&E4&E5&E6&_)&_&HM)).
  destruct (nv_len _ _ Hinv) as [Ln Lc Le Ls Lr]. destruct (nv_raft _ _ Hinv _ _ Hr) as (Hsv&_).
  destruct (nv_saved _ _ Hinv _ _ Hsv) as (rf0&Ho0&Hso). rewrite Ho in Ho0. injection Ho0 as <-.
  unfold storage in HM. rewrite Hsv in HM. cbn in HM. rewrite Ho in HM. cbn in HM.
  destruct Hso as (Hwf&Hd&Hpe&Hme). destruct (durable_Make n (Z.of_nat i) rf (wf_log _ Hwf) Hd) as (rf1&HM1&[]).
  rewrite HM in HM1. injection HM1 as <-. unfold kill_object in E4. rewrite Hr in E4.
  pose proof (lookup_lt_Some _ _ _ Ho) as Hlt.
  assert (length (cfg_objects cfg1) = length (cfg_objects cfg)) as Hlo by (rewrite E4; apply length_alter).
  exists (restarted cfg1 i names rn rf'), (length (cfg_objects cfg1)), rf'. split; [done|]. split; [lia|]. cbn.
  rewrite E2, E6, E5. split_and!; try done.
  - apply list_lookup_insert_eq. rewrite length_insert. lia.
  - by apply list_lookup_middle.
  - apply lookup_app_l_Some. rewrite E4, list_lookup_alter_eq, Ho. done.
  - apply list_lookup_insert_eq. unfold crashed_saved. rewrite Hsv. cbn. rewrite Ho. cbn. rewrite length_insert. lia.
  - intros j Hne. rewrite list_lookup_insert_ne by done. unfold crashed_saved. rewrite Hsv. cbn. rewrite Ho. cbn.
    rewrite list_lookup_insert_ne by done. intros Hj. destruct (nv_saved _ _ Hinv _ _ Hj) as (x&Hx%lookup_lt_Some&_). lia.
  - unfold conn. cbn. by rewrite E1, list_lookup_insert_eq by lia.
Qed.
End net.
