(* ===== verification/RaftConfigProps.v ===== *)
(** * The tester never fails a Raft cluster

    The checks of [RaftConfig] against the executions of [RaftSystem]: what [applier]
    reads from the peers never makes [checkLogs] report an error, [nCommitted] never
    finds two values at one index, [checkOneLeader] never finds two leaders of one term. *)
From Stdlib Require Import Strings.Byte.
From S2P Require Import Prelude Labgob Persister RaftTypes RaftNode RaftLog RaftSpec RaftReplication RaftLeader RaftSnapshot RaftInv RaftProps RaftVotes RaftElection RaftSystem RaftHistory RaftPreserve RaftReplicate RaftAppend RaftSafety RaftApply Labrpc RaftConfig RaftConfigNet.

(** A loop that leaves its accumulator alone. *)
Lemma foldl_keep {A B} (f : A -> B -> A) (l : list B) a :
  (forall x, x ∈ l -> f a x = a) -> foldl f a l = a.
Proof.
  induction l as [|x l IH]; intros Hf; [done|]. cbn. rewrite Hf by set_solver. apply IH.
  intros y Hy. apply Hf. set_solver.
Qed.

(** A loop that remembers the last error it found. *)
Lemma foldl_last_error {A E} (g : A -> option E) (f : option E -> A -> option E) (l : list A) err :
  (forall err x, f err x = match g x with Some e => Some e | None => err end) ->
  foldl f err l = None <-> err = None /\ forall x, x ∈ l -> g x = None.
Proof.
  intros Hf. revert err. induction l as [|x l IH]; intros err; cbn.
  - split; [|tauto]. intros ->. split; [done|]. by intros ? []%not_elem_of_nil.
  - rewrite IH, Hf. split.
    + destruct (g x) eqn:E'; [by intros [? _]|]. intros [-> Hl]. split; [done|]. intros y [->|?]%elem_of_cons; auto.
    + intros [-> Hl]. rewrite (Hl x) by (by left). split; [done|]. intros y Hy. apply Hl. by right.
Qed.

Section applied.
Context {C : Type} `{EqDecision C} `{Gob Z} `{Gob (list (Entry C))} `{Rand} `{Alloc}.
Context `{!GobLaws Z} `{!GobLaws (list (Entry C))}.
Context `{Values}.
Implicit Types (l pre : list (Z * Entry C)) (cfg : config (C := C)).

(** The goroutines of [applier] read what the peers send. *)
Definition feed l : M (config (C := C)) unit :=
  forM l (fun p => applier_read p.1 (applyMsg p.2)).

(** One entry per index. *)
Definition one_per_index l : Prop :=
  forall i j e e', (i, e) ∈ l -> (j, e') ∈ l -> e_Index e = e_Index e' -> e = e'.

(** The copies of the tester are what was read: [m] is the copy of peer [j]. *)
Definition copy_of l (j : nat) (m : gmap Z (option C)) : Prop :=
  forall index v, m !! index = Some v <->
    exists e, (Z.of_nat j, e) ∈ l /\ e_Index e = index /\ e_Command e = v.

Record seen (n : nat) l cfg : Prop := {
  seen_len : length (cfg_logs cfg) = n;
  seen_log j : (j < n)%nat -> exists m, cfg_logs cfg !! j = Some (Some m : GoMap Z (option C)) /\ copy_of l j m;
  seen_err : cfg_applyErr cfg = replicate n None;
  seen_rafts : length (cfg_rafts cfg) = n
}.

Lemma fresh_seen n cfg : fresh_tester n cfg -> seen n [] cfg.
Proof.
  intros (Hl&He&Hr). split; rewrite ?Hl; [apply length_replicate| |done|done].
  intros j Hj. exists ∅. split; [by apply lookup_replicate|]. intros index v. rewrite lookup_empty.
  split; [done|]. by intros (e&[]%not_elem_of_nil&_).
Qed.

Lemma copy_snoc l j m i e : one_per_index (l ++ [(i, e)]) -> copy_of l j m ->
  copy_of (l ++ [(i, e)]) j (if decide (i = Z.of_nat j) then <[e_Index e := e_Command e]> m else m).
Proof.
  intros Hu Hm index v. setoid_rewrite elem_of_app. setoid_rewrite list_elem_of_singleton.
  destruct (decide (i = Z.of_nat j)) as [->|Hne].
  - rewrite lookup_insert_Some, (Hm index v). split.
    + intros [[<- <-]|[_ (x&?&?&?)]]; [exists e; eauto|exists x; eauto].
    + intros (x&[Hx|[= ->]]&<-&<-); [|by left].
      destruct (decide (e_Index e = e_Index x)) as [He|]; [|right; eauto].
      left. rewrite (Hu (Z.of_nat j) (Z.of_nat j) e x); [done|set_solver..|done].
  - rewrite (Hm index v). split; [intros (x&?&?&?); exists x; eauto|].
    intros (x&[Hx|[= ? _]]&<-&<-); [eauto|congruence].
Qed.

(** One message: no error when it agrees with what was read and follows on it. *)
Lemma wp_applier_read n l i e cfg :
  seen n l cfg -> 0 <= i < Z.of_nat n -> one_per_index (l ++ [(i, e)]) ->
  (1 < e_Index e -> exists e', (i, e') ∈ l /\ e_Index e' = e_Index e - 1) ->
  wp (applier_read i (applyMsg e)) cfg (fun _ cfg' => seen n (l ++ [(i, e)]) cfg').
Proof.
  intros Hs Hi Hu Hprev. unfold applier_read, checkLogs, assign. cbn [negb CommandValid applyMsg]. go.
  assert (0 <= i < len (cfg_logs cfg)) as Hr by (rewrite (seen_len _ _ _ Hs); lia).
  destruct (seen_log _ _ _ Hs (Z.to_nat i)) as (m&Hm&Hc); [lia|].
  assert (slice_get (cfg_logs cfg) i = Some (Some m : GoMap Z (option C))) as Hg by (apply slice_get_Some; split; [lia|done]).
  rewrite Hg. go. cbn [map_set]. go. rewrite slice_set_Some by done. go. cbn [applyMsg am_Command CommandIndex].
  rewrite foldl_keep.
  2:{ intros j Hj. apply elem_of_seq in Hj. destruct (seen_log _ _ _ Hs j) as (mj&->&Hcj).
      { rewrite <-(seen_len _ _ _ Hs). lia. }
      cbn. destruct (mj !! e_Index e) as [old|] eqn:Hold; [|done].
      apply Hcj in Hold as (x&Hx&Hxi&<-). rewrite decide_False; [done|]. intros Hne. apply Hne.
      rewrite (Hu (Z.of_nat j) i x e); [done|set_solver..|done]. }
  assert ((bool_decide (e_Index e > 1) &&
    negb (bool_decide (is_Some (map_get (Some m : GoMap Z (option C)) (e_Index e - 1))))) = false) as ->.
  { case_bool_decide as Hgt; [|done]. destruct Hprev as (x&Hx&Hxi); [lia|].
    rewrite bool_decide_eq_true_2; [done|]. cbn. exists (e_Command x). apply Hc. exists x.
    rewrite Z2Nat.id by lia. done. }
  go. apply wp_ret. split.
  - case_decide; cbn; rewrite length_insert; apply Hs.
  - intros j Hj. destruct (seen_log _ _ _ Hs j Hj) as (mj&Hmj&Hcj).
    pose proof (copy_snoc _ _ _ _ _ Hu Hcj) as Hcn.
    exists (if decide (i = Z.of_nat j) then <[e_Index e := e_Command e]> mj else mj). split; [|done].
    destruct (decide (i = Z.of_nat j)) as [->|Hne].
    + rewrite Nat2Z.id in *. simplify_eq. case_decide; cbn;
        rewrite list_lookup_insert_eq by (by apply lookup_lt_Some in Hm); done.
    + case_decide; cbn; rewrite list_lookup_insert_ne by lia; done.
  - case_decide; apply Hs.
  - case_decide; apply Hs.
Qed.

(** The next message agrees with what was read of all peers at its index, and follows on what
    was read of its own. *)
Definition consistent l (i : Z) (e : Entry C) : Prop :=
  (forall j e', (j, e') ∈ l -> e_Index e' = e_Index e -> e_Command e' = e_Command e) /\
  (1 < e_Index e -> exists e', (i, e') ∈ l /\ e_Index e' = e_Index e - 1).

(** The tester lets it through exactly then. *)
Lemma applier_read_exact n l i e cfg : seen n l cfg -> (forall j e', (j, e') ∈ l -> 0 <= j < Z.of_nat n) -> 0 <= i < Z.of_nat n ->
  is_Some (applier_read i (applyMsg e) cfg) <-> consistent l i e.
Proof.
  intros Hs Hrange Hi. destruct (seen_log _ _ _ Hs (Z.to_nat i)) as (m&Hm&Hc); [lia|].
  assert (0 <= i < len (cfg_logs cfg)) as Hr by (rewrite (seen_len _ _ _ Hs); lia).
  assert (slice_get (cfg_logs cfg) i = Some (Some m : GoMap Z (option C))) as Hg by (apply slice_get_Some; split; [lia|done]).
  unfold applier_read, checkLogs, assign. cbn [negb CommandValid applyMsg CommandIndex am_Command]. unfold bind, get, lift, modify, ret.
  rewrite Hg. cbn [map_set]. rewrite slice_set_Some by done.
  set (err := foldl _ None _).
  assert (err = None <-> forall j e', (j, e') ∈ l -> e_Index e' = e_Index e -> e_Command e' = e_Command e) as Herr.
  { unfold err. rewrite (foldl_last_error (fun j => match cfg_logs cfg !! j with
      | Some log => match map_get log (e_Index e) with
        | Some old => if decide (old <> e_Command e) then Some (DifferentValue (e_Index e) i (Z.of_nat j)) else None
        | None => None end
      | None => None end)).
    2:{ intros err' x. destruct (cfg_logs cfg !! x); [|done]. destruct (map_get _ _); [|done]. by case_decide. }
    split.
    - intros [_ Hall] j e' He Hix. specialize (Hrange _ _ He). specialize (Hall (Z.to_nat j)).
      rewrite elem_of_seq, (seen_len _ _ _ Hs) in Hall. destruct (seen_log _ _ _ Hs (Z.to_nat j)) as (mj&Hmj&Hcj); [lia|].
      rewrite Hmj in Hall. assert (mj !! e_Index e = Some (e_Command e')) as Hl.
      { apply Hcj. exists e'. by rewrite Z2Nat.id by lia. }
      cbn in Hall. rewrite Hl in Hall. specialize (Hall ltac:(lia)). by case_decide.
    - intros Hall. split; [done|]. intros j Hj. apply elem_of_seq in Hj. rewrite (seen_len _ _ _ Hs) in Hj.
      destruct (seen_log _ _ _ Hs j) as (mj&->&Hcj); [lia|]. cbn. destruct (mj !! e_Index e) as [old|] eqn:Hold; [|done].
      apply Hcj in Hold as (x&Hx&Hxi&<-). rewrite decide_False; [done|]. intros Hne. by apply Hne, (Hall (Z.of_nat j)). }
  set (gap := bool_decide (e_Index e > 1) && _).
  assert (gap = false <-> (1 < e_Index e -> exists e', (i, e') ∈ l /\ e_Index e' = e_Index e - 1)) as Hgap.
  { unfold gap. cbn [map_get]. case_bool_decide as H1'; cbn [andb]; [|split; [lia|done]]. case_bool_decide as H2'; cbn [negb].
    - split; [intros _ _|done]. destruct H2' as [v Hv]. apply Hc in Hv as (x&Hx&Hxi&_). rewrite Z2Nat.id in Hx by lia. eauto.
    - split; [done|]. intros Hx. destruct Hx as (x&Hx&Hxi); [lia|]. exfalso. apply H2'. exists (e_Command x). apply Hc.
      exists x. by rewrite Z2Nat.id by lia. }
  unfold consistent. rewrite <-Herr, <-Hgap. clearbody gap err. destruct gap, err; cbn; (split; [by intros [? ?]|]);
    [by intros [? ?]|by intros [? ?]|by intros [? ?]|by eexists].
Qed.

(** What a record of applied entries has to be for the tester to accept it. *)
Record acceptable (n : nat) l : Prop := {
  ac_peer i e : (i, e) ∈ l -> 0 <= i < Z.of_nat n;
  ac_index : one_per_index l;
  ac_gap : no_gap l
}.

Lemma acceptable_prefix n l l' : l `prefix_of` l' -> acceptable n l' -> acceptable n l.
Proof.
  intros [x ->] [Hp Hu Hg].
  assert (forall y, y ∈ l -> y ∈ l ++ x) as Hin by (intros; apply elem_of_app; by left).
  split; [eauto|intros i j e e' ? ?; eauto|].
  intros k i e Hk. pose proof (lookup_lt_Some _ _ _ Hk).
  destruct (Hg k i e) as [? Hb]; [by apply lookup_app_l_Some|]. split; [done|].
  intros Hlt. destruct (Hb Hlt) as (k'&e'&?&Hk'&?). exists k', e'.
  rewrite lookup_app_l in Hk' by lia. done.
Qed.

Lemma reachable_acceptable n s : sys_reachable n s -> acceptable n (s_applied s).
Proof.
  intros [[g Hg] Ho]%reachable_order. split.
  - intros i e He. destruct (oi_known _ Ho _ _ He) as [rf Hi].
    by apply (inv_node _ _ (si_cluster _ _ _ Hg) _ _ Hi).
  - intros i j e e' Hi Hj. eapply committed_entry_unique; [exact Hg|..]; by eapply (si_applied _ _ _ Hg).
  - apply Ho.
Qed.

Lemma wp_feed n l cfg : fresh_tester n cfg -> acceptable n l -> wp (feed l) cfg (fun _ => seen n l).
Proof.
  intros Hf. induction l as [|[i e] l IH] using rev_ind; intros Hl.
  - apply wp_ret. by apply fresh_seen.
  - unfold wp, feed. rewrite forM_app. apply wp_bind. eapply wp_mono; [apply IH; eapply acceptable_prefix; [by eexists|done]|]. intros [] cfg' Hs. cbn [forM fst snd].
    go. eapply wp_mono.
    { apply (wp_applier_read n l); [done| |apply Hl|].
      - eapply (ac_peer _ _ Hl). apply elem_of_app. right. by apply list_elem_of_singleton.
      - destruct (ac_gap _ _ Hl (length l) i e) as [_ Hg]; [by apply list_lookup_middle|].
        intros Hlt. destruct (Hg Hlt) as (k&e'&Hk&Hl'&?). exists e'. split; [|done].
        rewrite lookup_app_l in Hl' by done. by eapply list_elem_of_lookup_2. }
    by intros [] cfg'' ?; apply wp_ret.
Qed.

(** Counting, over copies taken while more is read. *)
Lemma nCommitted_loop_spec n l index view js count cmd :
  one_per_index l -> Forall (fun j => (j < n)%nat) js ->
  (forall j, exists pre, pre `prefix_of` l /\ seen n pre (view j)) ->
  0 <= count -> (0 < count -> exists i e, (i, e) ∈ l /\ e_Index e = index /\ e_Command e = cmd) ->
  exists count' cmd', nCommitted_loop index view js count cmd = Some (count', cmd') /\
    count <= count' <= count + len js /\
    (0 < count' -> exists i e, (i, e) ∈ l /\ e_Index e = index /\ e_Command e = cmd').
Proof.
  intros Hu Hjs Hview. revert count cmd. induction js as [|j js IH]; intros count cmd Hc Hcmd; cbn.
  - exists count, cmd. split_and!; [done|lia|lia|done].
  - apply Forall_cons in Hjs as [Hj Hjs]. destruct (Hview j) as (pre&[x ->]&Hs).
    rewrite (seen_err _ _ _ Hs), (lookup_replicate_2 _ None) by done. cbn.
    destruct (seen_log _ _ _ Hs j Hj) as (m&->&Hm). cbn. destruct (m !! index) as [cmd1|] eqn:E.
    + apply Hm in E as (e&He&Hi&Hv).
      assert ((Z.of_nat j, e) ∈ pre ++ x) as Hin by (apply elem_of_app; by left).
      assert ((bool_decide (count > 0) && bool_decide (cmd <> cmd1)) = false) as ->.
      { case_bool_decide as Hpos; [|done]. apply bool_decide_eq_false_2. intros Hne. apply Hne.
        destruct Hcmd as (i'&e'&He'&Hi'&<-); [lia|]. rewrite (Hu i' (Z.of_nat j) e' e); [done|done|done|congruence]. }
      destruct (IH Hjs (count + 1) cmd1) as (c'&cmd'&->&?&?); [lia|eauto|].
      exists c', cmd'. split_and!; [done|lia|lia|done].
    + destruct (IH Hjs count cmd Hc Hcmd) as (c'&cmd'&->&?&?). exists c', cmd'. split_and!; [done|lia|lia|done].
Qed.

(** C24: The tester accepts every execution of a cluster that does not compact its logs and is
    read by [applier] (not [applierSnap]):
    reading what the peers send, restarts included, [applier] never finds a value that differs
    from one it has seen at that index nor an entry out of order; and [nCommitted], whatever
    is read while it counts, never finds two values, counts at most the peers, and reports a
    command some peer applied at that index. The check is exact: of the next message of any
    peer the tester lets through those, and only those, whose command is the one seen at their
    index, if any, and whose predecessor the peer has sent. *)
Theorem tester_accepts n s cfg0 :
  sys_reachable n s -> fresh_tester n cfg0 ->
  is_Some (feed (s_applied s) cfg0) /\
  (forall i (e : Entry C), 0 <= i < Z.of_nat n ->
     is_Some (feed (s_applied s ++ [(i, e)]) cfg0) <-> consistent (s_applied s) i e) /\
  forall index view,
    (forall j, exists pre, pre `prefix_of` s_applied s /\ feed pre cfg0 = Some (tt, view j)) ->
    exists count cmd, nCommitted index view = Some (count, cmd) /\ 0 <= count <= Z.of_nat n /\
      (0 < count -> exists i (e : Entry C), (i, e) ∈ s_applied s /\ e_Index e = index /\ e_Command e = cmd).
Proof.
  intros Ha%reachable_acceptable Hf. split_and!.
  - destruct (proj1 (wp_runs _ _ _) (wp_feed n _ _ Hf Ha)) as (?&?&->&_). by eexists.
  - intros i e Hi. destruct (proj1 (wp_runs _ _ _) (wp_feed n _ _ Hf Ha)) as ([]&cfg&Hr&Hs).
    rewrite <-(applier_read_exact n _ i e cfg Hs (ac_peer _ _ Ha) Hi). unfold feed. rewrite forM_app. unfold feed in Hr.
    unfold bind. rewrite Hr. cbn [forM fst snd]. unfold bind, ret. destruct (applier_read i (applyMsg e) cfg) as [[[] ?]|]; split; try done; intros _; by eexists.
  - intros index view Hview.
    assert (forall j, exists pre, pre `prefix_of` s_applied s /\ seen n pre (view j)) as Hseen.
    { intros j. destruct (Hview j) as (pre&Hp&Hr). exists pre. split; [done|].
      eapply (wp_run _ _ _ _ (fun _ => seen n pre)); [exact Hr|]. apply wp_feed; [done|].
      by eapply acceptable_prefix. }
    unfold nCommitted. destruct (Hseen 0%nat) as (?&_&Hs). rewrite (seen_rafts _ _ _ Hs).
    destruct (nCommitted_loop_spec n (s_applied s) index view (seq 0 n) 0 None) as (c&cmd&->&?&?); try done.
    + apply Ha.
    + apply Forall_forall. intros j Hj. apply elem_of_seq in Hj. lia.
    + exists c, cmd. rewrite length_seq in *. split_and!; [done|lia|lia|done].
Qed.

(** ** Agreement *)

(** The peers that were counted have applied the entry. *)
Lemma nCommitted_loop_peers n l index view js count cmd count' cmd' :
  Forall (fun j => (j < n)%nat) js -> (forall j, exists pre, pre `prefix_of` l /\ seen n pre (view j)) ->
  nCommitted_loop index view js count cmd = Some (count', cmd') ->
  exists ps, ps `sublist_of` js /\ count' = count + len ps /\ forall j, j ∈ ps -> exists e, (Z.of_nat j, e) ∈ l /\ e_Index e = index.
Proof.
  intros Hjs Hview. revert count cmd. induction js as [|j js IH]; intros count cmd; cbn [nCommitted_loop].
  - intros [= <- <-]. exists []. split_and!; [done|cbn; lia|set_solver].
  - apply Forall_cons in Hjs as [Hj Hjs]. destruct (Hview j) as (pre&[x Hx]&Hs).
    rewrite (seen_err _ _ _ Hs), (lookup_replicate_2 _ None) by done. cbn.
    destruct (seen_log _ _ _ Hs j Hj) as (m&->&Hm). cbn. destruct (m !! index) as [cmd1|] eqn:E.
    + apply Hm in E as (e&He&Hi&_). destruct (_ && _); [done|]. intros (ps&Hsub&->&Hps)%(IH Hjs).
      exists (j :: ps). split_and!; [by apply sublist_skip|cbn [length]; lia|].
      intros j' [->|Hin]%elem_of_cons; [|by apply Hps]. exists e. split; [|done]. rewrite Hx. apply elem_of_app. by left.
    + intros (ps&Hsub&->&Hps)%(IH Hjs). exists ps. split_and!; [by apply sublist_cons|done|done].
Qed.

(** The tester looks at a cluster: it has read a part of what was applied. *)
Definition reads s cfg0 (view : nat -> config (C := C)) : Prop :=
  forall j, exists pre, pre `prefix_of` s_applied s /\ feed pre cfg0 = Some (tt, view j).
(** What it finds when it tries a server: slices of [n] elements, pointers to peers. *)
Definition tries n (view : nat -> config (C := C)) : Prop :=
  forall si, cfg_n (view si) = n /\ length (cfg_connected (view si)) = n /\ length (cfg_rafts (view si)) = n /\
    exists s, sys_reachable n s /\ forall r, Some r ∈ cfg_rafts (view si) ->
      exists i rf, cfg_objects (view si) !! r = Some rf /\ node s i = Some rf.

Lemma reads_seen n s cfg0 view : sys_reachable n s -> fresh_tester n cfg0 -> reads s cfg0 view ->
  forall j, exists pre, pre `prefix_of` s_applied s /\ seen n pre (view j).
Proof.
  intros Ha%reachable_acceptable Hf Hv j. destruct (Hv j) as (pre&Hp&Hr). exists pre. split; [done|].
  eapply (wp_run _ _ _ _ (fun _ => seen n pre)); [exact Hr|]. apply wp_feed; [done|]. by eapply acceptable_prefix.
Qed.

Lemma try_servers_runs n cmd view js starts : (0 < n)%nat -> tries n view -> 0 <= starts -> exists index starts',
  try_servers cmd view js starts = Some (index, starts') /\ 0 <= starts'.
Proof.
  intros Hn Ht. revert starts. induction js as [|si js IH]; intros starts Hs; [by exists (-1), starts|]. cbn [try_servers].
  destruct (Ht si) as (En&Hc&Hr&s&Hs'&Hobj). rewrite En. set (st := (starts + 1) `rem` Z.of_nat n).
  assert (Hst : 0 <= st < Z.of_nat n) by (apply Z.rem_bound_pos; lia).
  destruct (slice_get_is_Some (cfg_connected (view si)) st) as [c ->]; [lia|]. cbn [mbind option_bind].
  destruct (slice_get_is_Some (cfg_rafts (view si)) st) as [rf Hrf]; [lia|].
  destruct c; [rewrite Hrf|apply IH; lia]. cbn [mbind option_bind]. destruct rf as [r|]; [|apply IH; lia].
  destruct (Hobj r) as (i&o&->&Hi); [by apply slice_get_Some in Hrf as [_ ?%list_elem_of_lookup_2]|].
  apply reachable_order in Hs' as [[g Hg] _]. pose proof (ni_wf _ _ _ _ _ (si_node _ _ _ Hg i o Hi)) as Hwf.
  destruct (inv_node _ _ (si_cluster _ _ _ Hg) i o Hi) as (_&_&_&Hd). cbn [mbind option_bind].
  pose proof (Start_good cmd o Hwf Hd) as (((index1&t)&ok)&o'&->&_)%wp_runs. cbn [mbind option_bind fst]. destruct ok; [|apply IH; lia].
  exists index1, st. split; [done|lia].
Qed.

(** The peers [ps] have applied [cmd] at [index]. *)
Definition applied_by s (ps : list nat) (index : Z) (cmd : C) : Prop :=
  NoDup ps /\ forall j, j ∈ ps -> exists e, (Z.of_nat j, e) ∈ s_applied s /\ e_Index e = index /\ e_Command e = Some cmd.

Lemma await_spec n s cfg0 index cmd expected waits : sys_reachable n s -> fresh_tester n cfg0 -> Forall (reads s cfg0) waits ->
  exists b, await index cmd expected waits = Some b /\
    (b = true -> exists ps, applied_by s ps index cmd /\ ps <> [] /\ expected <= len ps).
Proof.
  intros Hs Hf. induction 1 as [|view waits Hv _ IH]; cbn [await]; [by exists false|]. unfold agreed, nCommitted.
  pose proof (reads_seen n s cfg0 view Hs Hf Hv) as Hseen. pose proof (reachable_acceptable n s Hs) as Ha.
  destruct (Hseen 0%nat) as (?&_&Hs0). rewrite (seen_rafts _ _ _ Hs0).
  assert (Hjs : Forall (fun j => (j < n)%nat) (seq 0 n)) by (apply Forall_forall; intros j Hj; apply elem_of_seq in Hj; lia).
  destruct (nCommitted_loop_spec n (s_applied s) index view (seq 0 n) 0 None) as (c&v&Hrun&_&Hval); try done; [apply Ha|].
  destruct (nCommitted_loop_peers n (s_applied s) index view (seq 0 n) 0 None c v Hjs Hseen Hrun) as (ps&Hsub&->&Hps).
  rewrite Hrun. cbn. case_bool_decide as Hb1; cbn; [|done]. case_bool_decide as Hb2; cbn; [|done]. case_bool_decide as Hb3; [|done].
  exists true. split; [done|]. intros _. exists ps. split_and!; [split| |lia].
  - eapply sublist_NoDup; [apply NoDup_seq|exact Hsub].
  - intros j Hj. destruct (Hps j Hj) as (e&He&Hi). destruct Hval as (i'&e'&He'&Hi'&Hc'); [lia|]. exists e. split_and!; [done|done|].
    rewrite (ac_index _ _ Ha (Z.of_nat j) i' e e'); [congruence|done|done|congruence].
  - intros ->. cbn in Hb1. lia.
Qed.

(** C25: [one] reports agreements that are there, on a cluster that does not compact its logs
    and is read by [applier] (not [applierSnap]). Whatever servers it tries and whatever such
    a cluster does meanwhile, [one] ends with an index or with the failure to reach agreement
    in time, never with another failure; and when it returns an index, at least one peer, and
    at least as many as were expected, have applied the command at that index. *)
Theorem one_agrees n s cfg0 cmd expectedServers retry rounds :
  (0 < n)%nat -> sys_reachable n s -> fresh_tester n cfg0 ->
  Forall (fun r => tries n (rd_try r) /\ Forall (reads s cfg0) (rd_waits r)) rounds ->
  exists res, one n cmd expectedServers retry rounds = Some res /\
    forall index, res = Some index -> exists ps, applied_by s ps index cmd /\ ps <> [] /\ expectedServers <= len ps.
Proof.
  intros Hn Hs Hf Hr. unfold one.
  enough (Hgen : forall starts, 0 <= starts -> exists res, one_loop n cmd expectedServers retry rounds starts = Some res /\
    forall index, res = Some index -> exists ps, applied_by s ps index cmd /\ ps <> [] /\ expectedServers <= len ps) by (by apply Hgen).
  induction Hr as [|r rounds [Ht Hw] _ IH]; intros starts Hst; cbn [one_loop]; [by exists None|].
  destruct (try_servers_runs n cmd (rd_try r) (seq 0 n) starts Hn Ht Hst) as (index&starts'&->&Hst'). cbn.
  case_decide; [|by apply IH]. destruct (await_spec n s cfg0 index cmd expectedServers (rd_waits r) Hs Hf Hw) as (b&->&Hb). cbn.
  destruct b; [exists (Some index); split; [done|]; intros ? [= <-]; by apply Hb|]. destruct retry; [by apply IH|by exists None].
Qed.
End applied.

(** ** The leader the tester finds *)

Section roles.
Context {C : Type} `{EqDecision C} `{Gob Z} `{Gob (list (Entry C))} `{Rand} `{Alloc}.
Context `{!GobLaws Z} `{!GobLaws (list (Entry C))}.
Context `{Values} `{MapOrderLaws}.
Implicit Types (view : nat -> config (C := C)) (s : System C).

(** In [view], peer [i] is connected and answers that it leads term [T]. *)
Definition leads view (i : nat) (T : Z) : Prop :=
  cfg_connected (view i) !! i = Some true /\
  exists rf, raft_of i (view i) = Some rf /\ GetState rf = (T, true).

(** The tester looks at peer [i] when the cluster is in state [t i] of an execution. *)
Record watched (n : nat) (t : nat -> System C) view : Prop := {
  wa_start : sys_reachable n (t 0%nat);
  wa_step i : rtc sys_step (t i) (t (S i));
  wa_peer i : (i < n)%nat -> exists c, cfg_connected (view i) !! i = Some c /\
    (c = true -> exists rf, raft_of i (view i) = Some rf /\ node (t i) (Z.of_nat i) = Some rf)
}.

Lemma sys_steps_election s s' : rtc sys_step s s' -> rtc RaftElection.step (s_cluster s) (s_cluster s').
Proof.
  induction 1 as [|s s1 s' Hs _ IH]; [done|]. destruct (sys_step_election _ _ Hs) as [?| <-]; [by eapply rtc_l|done].
Qed.

Lemma watched_steps n t view i j : watched n t view -> (i <= j)%nat -> rtc sys_step (t i) (t j).
Proof.
  intros Hw. induction 1 as [|j _ IH]; [done|]. etrans; [exact IH|apply Hw].
Qed.

Lemma watched_reachable n t view i : watched n t view -> sys_reachable n (t i).
Proof.
  intros Hw. destruct (wa_start _ _ _ Hw) as (s0&Hi&Hs). exists s0. split; [done|]. etrans; [exact Hs|].
  eapply watched_steps; [exact Hw|lia].
Qed.

Lemma leads_leader n t view i T : watched n t view -> (i < n)%nat -> leads view i T ->
  is_leader (s_cluster (t i)) (Z.of_nat i) T /\ 0 <= T.
Proof.
  intros Hw Hi [Hc (rf&Hrf&HG)]. destruct (wa_peer _ _ _ Hw i Hi) as (c&Hc'&Hn).
  rewrite Hc in Hc'. injection Hc' as <-. destruct (Hn eq_refl) as (rf'&Hrf'&Hnode).
  rewrite Hrf in Hrf'. injection Hrf' as <-. split; [by exists rf|]. destruct (reachable_sys_inv _ _ (watched_reachable _ _ _ i Hw)) as [g Hg].
  pose proof (ni_term _ _ _ _ _ (si_node _ _ _ Hg _ _ Hnode)) as HT. injection HG as <- _. done.
Qed.

Lemma leads_once n t view i j T : watched n t view -> (i < n)%nat -> (j < n)%nat ->
  leads view i T -> leads view j T -> i = j.
Proof.
  intros Hw Hi Hj Hli Hlj.
  assert (forall i j, (i < n)%nat -> (j < n)%nat -> leads view i T -> leads view j T -> (i <= j)%nat -> i = j) as Hx.
  { clear i j Hi Hj Hli Hlj. intros i j Hi Hj Hli Hlj Hle. apply Nat2Z.inj.
    destruct (reachable_sys_inv _ _ (watched_reachable _ _ _ i Hw)) as [g Hg%si_cluster].
    pose proof (sys_steps_election _ _ (watched_steps _ _ _ _ _ Hw Hle)) as Hs.
    destruct (leads_leader _ _ _ _ _ Hw Hi Hli) as [Li _]. destruct (leads_leader _ _ _ _ _ Hw Hj Hlj) as [Lj _].
    eapply majority_once; [by eapply steps_inv| |eapply leader_majority; [by eapply steps_inv|exact Lj]].
    eapply majority_steps; [exact Hg|exact Hs|]. by apply leader_majority. }
  destruct (Nat.le_ge_cases i j); [by apply Hx|symmetry; by apply Hx].
Qed.

(** What [collect] has gathered from the peers in [seen]. *)
Definition gathered view (seen : list nat) (leaders : gmap Z (list nat)) : Prop :=
  (forall T l, leaders !! T = Some l -> exists i, l = [i] /\ i ∈ seen /\ leads view i T) /\
  (forall i T, i ∈ seen -> leads view i T -> leaders !! T = Some [i]).

Lemma collect_spec n t view js seen leaders : watched n t view ->
  Forall (fun j => (j < n)%nat) (seen ++ js) -> NoDup (seen ++ js) -> gathered view seen leaders ->
  exists leaders', collect view js leaders = Some leaders' /\ gathered view (seen ++ js) leaders'.
Proof.
  intros Hw. revert seen leaders. induction js as [|j js IH]; intros seen leaders Hn Hd Hg.
  { exists leaders. by rewrite app_nil_r. }
  assert (j < n)%nat as Hj by (rewrite Forall_forall in Hn; apply Hn; set_solver).
  assert (j ∉ seen) as Hnew.
  { apply NoDup_app in Hd as (_&Hd&_). intros Hin. apply (Hd j Hin). set_solver. }
  assert (forall leaders', gathered view (seen ++ [j]) leaders' ->
    exists leaders'', collect view js leaders' = Some leaders'' /\ gathered view (seen ++ j :: js) leaders'') as Hnext.
  { intros leaders' Hg'. rewrite (cons_middle j), app_assoc in Hn, Hd |- *. by apply IH. }
  assert (forall b, (forall T, ~ leads view j T) -> b = leaders -> gathered view (seen ++ [j]) b) as Hskip.
  { intros b Hno ->. destruct Hg as [G1 G2]. split.
    - intros T l Hl. destruct (G1 T l Hl) as (i&?&?&?). exists i. set_solver.
    - intros i T [Hi|Hi%list_elem_of_singleton]%elem_of_app Hl; [by apply G2|subst; by apply Hno in Hl]. }
  destruct (wa_peer _ _ _ Hw j Hj) as (c&Hc&Hrf). cbn. rewrite Hc. cbn. destruct c.
  2:{ apply Hnext, Hskip; [|done]. intros T [Hc' _]. congruence. }
  destruct (Hrf eq_refl) as (rf&Hraft&_). rewrite Hraft. cbn. apply Hnext.
  destruct (decide (state rf = StateLeader)) as [Hs|Hs].
  - rewrite bool_decide_eq_true_2 by done.
    assert (leads view j (currentTerm rf)) as Hl.
    { split; [done|]. exists rf. split; [done|]. unfold GetState. by rewrite bool_decide_eq_true_2. }
    assert (leaders !! currentTerm rf = None) as Hnone.
    { destruct (leaders !! currentTerm rf) eqn:E; [|done]. apply Hg in E as (i&_&Hin&Hli). exfalso.
      apply Hnew. rewrite <-(leads_once n t view i j (currentTerm rf) Hw); try done. rewrite Forall_forall in Hn. apply Hn. set_solver. }
    rewrite Hnone. cbn. destruct Hg as [G1 G2]. split.
    + intros T l [[<- <-]|[_ HT]]%lookup_insert_Some; [exists j; set_solver|].
      destruct (G1 T l HT) as (i&?&?&?). exists i. set_solver.
    + intros i T [Hi|Hi%list_elem_of_singleton]%elem_of_app HT.
      * rewrite lookup_insert_ne; [by apply G2|]. intros <-. by rewrite (G2 i _ Hi HT) in Hnone.
      * subst i. destruct HT as [_ (rf'&Hraft'&HG)]. rewrite Hraft in Hraft'. injection Hraft' as <-.
        injection HG as <- _. apply lookup_insert_eq.
  - rewrite bool_decide_eq_false_2 by done. apply Hskip; [|done]. intros T [_ (rf'&Hraft'&HG)].
    rewrite Hraft in Hraft'. injection Hraft' as <-. injection HG as _ Hb%bool_decide_eq_true. done.
Qed.

Lemma lastTerm_spec terms last : Forall (fun p => length p.2 = 1%nat) terms ->
  exists last', lastTerm terms last = Some last' /\ last <= last' /\
    (last' = last \/ last' ∈ terms.*1) /\ forall T, T ∈ terms.*1 -> T <= last'.
Proof.
  revert last. induction terms as [|[T l] terms IH]; intros last Hl; cbn.
  { exists last. split_and!; [done|lia|by left|]. by intros T []%not_elem_of_nil. }
  apply Forall_cons in Hl as [H1' Hl]. cbn in H1'. rewrite decide_False by lia.
  destruct (IH (if decide (T > last) then T else last) Hl) as (last'&->&Hle&Hin&Hmax).
  exists last'. split_and!; [done|case_decide; lia| |].
  - destruct Hin as [->|Hin]; [case_decide; [right; set_solver|by left]|right; set_solver].
  - intros T' [->|HT']%elem_of_cons; [case_decide; lia|by apply Hmax].
Qed.

Definition round_ok (n : nat) view (r : option nat) : Prop :=
  match r with
  | None => forall i T, (i < n)%nat -> ~ leads view i T
  | Some l => (l < n)%nat /\ exists T, leads view l T /\
      forall i T', (i < n)%nat -> leads view i T' -> T' <= T
  end.

Lemma checkOneLeader_round_ok n t view : watched n t view ->
  exists r, checkOneLeader_round n view = Some r /\ round_ok n view r.
Proof.
  intros Hw. unfold checkOneLeader_round.
  destruct (collect_spec n t view (seq 0 n) [] ∅ Hw) as (leaders&->&G1&G2).
  { apply Forall_forall. intros j Hj. apply elem_of_seq in Hj. lia. }
  { apply NoDup_seq. }
  { split; [done|]. by intros i T []%not_elem_of_nil. }
  assert (forall i, i ∈ seq 0 n <-> (i < n)%nat) as Hseq by (intros; rewrite elem_of_seq; lia).
  cbn [app] in *. setoid_rewrite Hseq in G1. setoid_rewrite Hseq in G2. cbn.
  destruct (lastTerm_spec (range leaders) (-1)) as (last&->&_&Hin&Hmax).
  { apply Forall_forall. intros [T l] HT%elem_of_range. by destruct (G1 T l HT) as (i&->&_). }
  cbn. destruct (decide (leaders <> ∅)) as [Hne|He%dec_stable].
  2:{ exists None. split; [done|]. intros i T Hi Hl. apply (G2 i T Hi) in Hl. by rewrite He in Hl. }
  assert (forall T, T ∈ (range leaders).*1 <-> is_Some (leaders !! T)) as Hdom.
  { intros T. rewrite list_elem_of_fmap. split.
    - intros ([T' l]&->&Hp%elem_of_range). by exists l.
    - intros [l Hl]. exists (T, l). split; [done|by apply elem_of_range]. }
  assert (is_Some (leaders !! last)) as [l Hl].
  { apply Hdom. destruct Hin as [->|]; [|done]. exfalso.
    apply map_choose in Hne as (T&l&HT). destruct (G1 T l HT) as (i&_&Hi&Hli).
    destruct (leads_leader _ _ _ _ _ Hw Hi Hli) as [_ Hpos]. enough (T <= -1) by lia. apply Hmax, Hdom. by exists l. }
  rewrite Hl. cbn. destruct (G1 last l Hl) as (i&->&Hi&Hli). exists (Some i). split; [done|].
  split; [done|]. exists last. split; [done|]. intros j T' Hj Hlj. apply Hmax, Hdom. exists [j]. by apply G2.
Qed.

(** Whatever the peers do while the tester looks at them one after the other,
    [checkOneLeader] never fails because of two leaders in a term: it fails only if in all
    ten attempts no connected peer says it leads, and else it returns a connected peer
    that leads the highest term any connected peer leads in that attempt. *)
Theorem checkOneLeader_correct n views traces :
  (forall k, watched n (traces k) (views k)) ->
  match checkOneLeader n views with
  | Some l => exists k T, (k < 10)%nat /\ (l < n)%nat /\ leads (views k) l T /\
      forall i T', (i < n)%nat -> leads (views k) i T' -> T' <= T
  | None => forall k i T, (k < 10)%nat -> (i < n)%nat -> ~ leads (views k) i T
  end.
Proof.
  unfold checkOneLeader. generalize 10%nat as iters. intros iters. revert views traces.
  induction iters as [|iters IH]; intros views traces Hw; cbn; [lia|].
  destruct (checkOneLeader_round_ok _ _ _ (Hw 0%nat)) as ([l|]&->&Hr); cbn in *.
  - destruct Hr as (Hl&T&HT&Hmax). exists 0%nat, T. split_and!; [lia|done..].
  - specialize (IH (fun k => views (S k)) (fun k => traces (S k)) (fun k => Hw (S k))).
    destruct (checkOneLeader_loop _ _ _) as [l|].
    + destruct IH as (k&T&?&?). exists (S k), T. split; [lia|done].
    + intros [|k] i T Hk Hi; [by apply Hr|]. apply IH; [lia|done].
Qed.
End roles.
