(* ===== verification/RaftConfigExample.v ===== *)
(** * A tester of three peers

    The tester of [RaftConfig] on concrete names, and the run of [RaftSafetyExample] seen
    through it: the hypotheses of the theorems of [RaftConfigNet] and
    [RaftConfigProps] hold of it. *)
From Stdlib Require Import Strings.Byte Strings.Ascii.
From S2P Require Import Prelude Labgob Persister RaftTypes RaftNode RaftLog RaftInv RaftProps RaftVotes RaftElection RaftSystem RaftSafety RaftApply RaftSafetyExample Labrpc LabrpcExample RaftConfig RaftConfigNet RaftConfigProps.
Import RaftProps.Example3 RaftSafetyExample.Example_run.

Module Example_tester.
#[export] Instance order : MapOrder := list_order.

(** Names that differ in length. *)
Fixpoint tally (k : nat) : string :=
  match k with O => "" | S k => String "x" (tally k) end.
Lemma tally_inj j k : tally j = tally k -> j = k.
Proof. revert k. induction j as [|j IH]; intros [|k]; cbn; intros [=]; auto. Qed.

Definition names (i : nat) : list string := tally <$> seq (3 * i) 3.

Lemma elem_of_names i nm : nm ∈ names i <-> exists k, nm = tally k /\ (3 * i <= k < 3 * i + 3)%nat.
Proof. unfold names. rewrite list_elem_of_fmap. setoid_rewrite elem_of_seq. done. Qed.

Lemma names_distinct : distinct_names 3 names.
Proof.
  split.
  - intros i. split; [done|]. apply NoDup_fmap_2; [intros j k; apply tally_inj|apply NoDup_seq].
  - intros i j nm (k&->&?)%elem_of_names (k'&E&?)%elem_of_names. apply tally_inj in E. lia.
Qed.

Definition cfg0 : config (C := string) := force (new_config 3) (make_config [] 3 false names).
Lemma cfg0_made : make_config [] 3 false names = Some cfg0.
Proof. vm_compute. reflexivity. Qed.

Lemma cfg0_fresh : fresh_tester 3 cfg0.
Proof. split_and!; vm_compute; reflexivity. Qed.

(** The peers of the run, all connected. *)
Definition seen_at (s : System string) : config (C := string) :=
  set_cfg_objects [force follower (node s 0); force follower (node s 1); force follower (node s 2)] cfg0.
End Example_tester.
Import Example_tester.

Lemma tester_network_witness : exists cfg, make_config (C := string) [] 3 false names = Some cfg /\ fresh_tester 3 cfg.
Proof.
  destruct (tester_network (C := string) [] 3 false names names_distinct) as (cfg&Hm&Hf&_).
  exists cfg. split; [exact Hm|exact Hf].
Defined.

Lemma cfg0_up : up 3 cfg0.
Proof.
  destruct (make_config_up (C := string) [] 3 false names names_distinct) as (cfg&Hm&Hup&_).
  rewrite cfg0_made in Hm. apply Some_inj in Hm as <-. exact Hup.
Qed.

Lemma start1_recovers_witness : exists cfg' r' rf',
  start1 [] 1 (names 5) cfg0 = Some (tt, cfg') /\ r' <> 1%nat /\
  cfg_objects cfg' !! r' = Some rf' /\ logs rf' = [zeroEntry].
Proof.
  destruct (start1_recovers (C := string) [] 3 1 (names 5) cfg0 1 (force follower (cfg_objects cfg0 !! 1%nat)))
    as (cfg'&r'&rf'&Hr&Hne&_&Ho&_&_&_&Hl&_).
  - apply cfg0_up.
  - lia.
  - split_and!; [reflexivity|apply names_distinct|]. intros nm (k&->&Hk)%elem_of_names.
    assert (k = 15 \/ k = 16 \/ k = 17)%nat as [-> | [-> | -> ] ] by lia; vm_compute; reflexivity.
  - vm_compute; reflexivity.
  - vm_compute; reflexivity.
  - exists cfg', r', rf'. split_and!; [exact Hr|exact Hne|exact Ho|]. rewrite Hl. vm_compute. reflexivity.
Defined.

(** Peers 0 and 1 have applied ["x"] at index 1: the tester refuses ["y"] there. *)
Lemma tester_accepts_witness : is_Some (feed (s_applied final) cfg0) /\
  ~ is_Some (feed (s_applied final ++ [(2, mkEntry string 1 1 (Some "y"%string))]) cfg0).
Proof.
  destruct (tester_accepts 3 final cfg0 final_reachable cfg0_fresh) as (Hok&Hexact&_). split; [exact Hok|].
  intros [Hc _]%Hexact; [|lia]. specialize (Hc 0 entry). rewrite final_applied in Hc.
  specialize (Hc ltac:(constructor) eq_refl). discriminate Hc.
Defined.

(** Peer 0 has been elected and has no command yet. *)
Definition elected : System string := force start_ (acts (take 4 script) start_).
Lemma elected_reachable : sys_reachable 3 elected.
Proof.
  exists start_. split; [|apply (acts_rtc (take 4 script)); vm_compute; reflexivity].
  split_and!; try reflexivity. apply Example_election.cs0_initial.
Qed.
Definition fed : config (C := string) := force cfg0 (snd <$> feed (s_applied final) cfg0).
Definition rounds : list (Round (C := string)) := [mkRound (fun _ => seen_at elected) [(fun _ => cfg0); (fun _ => fed)]].

Lemma elected_rafts : cfg_rafts (seen_at elected) = Some <$> seq 0 3.
Proof. vm_compute. reflexivity. Qed.
Lemma elected_sizes : cfg_n (seen_at elected) = 3%nat /\ length (cfg_connected (seen_at elected)) = 3%nat.
Proof. split; vm_compute; reflexivity. Qed.
Lemma elected_objects (i : nat) : (i < 3)%nat -> exists rf, cfg_objects (seen_at elected) !! i = Some rf /\ node elected (Z.of_nat i) = Some rf.
Proof. intros Hi. assert (i = 0 \/ i = 1 \/ i = 2)%nat as [-> | [-> | -> ] ] by lia; eexists; split; vm_compute; reflexivity. Qed.
Lemma fed_fed : feed (s_applied final) cfg0 = Some (tt, fed).
Proof. vm_compute. reflexivity. Qed.

Lemma rounds_ok : Forall (fun r => tries 3 (rd_try r) /\ Forall (reads final cfg0) (rd_waits r)) rounds.
Proof.
  apply Forall_singleton. split; [|apply Forall_cons; split; [|apply Forall_singleton]].
  - intros si. cbn [rd_try]. destruct elected_sizes as [Hn Hc]. rewrite elected_rafts. split_and!; [exact Hn|exact Hc|reflexivity|].
    exists elected. split; [apply elected_reachable|]. intros r (i&[= ->]&Hi)%list_elem_of_fmap. apply elem_of_seq in Hi.
    destruct (elected_objects i) as (rf&Ho&Hnode); [lia|]. exists (Z.of_nat i), rf. split; [exact Ho|exact Hnode].
  - intros j. exists []. split; [apply prefix_nil|reflexivity].
  - intros j. exists (s_applied final). split; [reflexivity|exact fed_fed].
Qed.

Lemma one_agrees_witness : one 3 "x"%string 2 true rounds = Some (Some 1) /\ exists ps, applied_by final ps 1 "x"%string /\ ps <> [] /\ 2 <= len ps.
Proof.
  assert (E : one 3 "x"%string 2 true rounds = Some (Some 1)) by (vm_compute; reflexivity). split; [exact E|].
  destruct (one_agrees 3 final cfg0 "x"%string 2 true rounds ltac:(lia) final_reachable cfg0_fresh rounds_ok) as (res&Hr&Hp).
  rewrite E in Hr. apply (Hp 1). injection Hr as <-. reflexivity.
Defined.

Lemma final_watched : watched 3 (fun _ => final) (fun _ => seen_at final).
Proof.
  split.
  - apply final_reachable.
  - intros i. apply rtc_refl.
  - intros i Hi. exists true. split.
    + assert (i = 0 \/ i = 1 \/ i = 2)%nat as [-> | [-> | -> ] ] by lia; vm_compute; reflexivity.
    + intros _. exists (peer_ (Z.of_nat i)). split; [|apply final_node; lia].
      assert (i = 0 \/ i = 1 \/ i = 2)%nat as [-> | [-> | -> ] ] by lia; vm_compute; reflexivity.
Qed.

Lemma checkOneLeader_correct_witness : exists k T, (k < 10)%nat /\ leads (fun _ => seen_at final) 0 T.
Proof.
  assert (checkOneLeader 3 (fun _ _ => seen_at final) = Some 0%nat) as E by (vm_compute; reflexivity).
  pose proof (checkOneLeader_correct 3 (fun _ _ => seen_at final) (fun _ _ => final) (fun _ => final_watched)) as Hc.
  rewrite E in Hc. destruct Hc as (k&T&Hk&_&HT&_). exists k, T. split; [exact Hk|exact HT].
Defined.
