(* ===== verification/ServiceConfig.v ===== *)
(** * kvraft/config.go and shardctrler/config.go: the testers of the services

    The two files are one program over different servers, so the tester is written once,
    over the interface [Replica] of what it does with a server; [KvTester] and [CtrlTester]
    of [ServiceTesters] are its two instances. Servers live in [cfg_objects] and run on
    their own; [cfg_servers] are the tester's pointers to the current ones. [cfg_saved]
    is as in [RaftConfig]. A clerk is a number; [cfg_handles] has the ends each was made
    with. [maxraftstate] belongs to the instance; the counters of [begin], [op] and [end] are
    a record of their own, [Begun]. [None] in [M] is the end of the test: a run-time panic
    or [log.Fatalf]. *)
From Stdlib Require Import Strings.Byte.
From S2P Require Import Prelude Labgob Persister RaftTypes RaftNode Labrpc RaftConfig.

(** What the tester asks of a server of type [Obj], whose commands are of type [C]. *)
Class Replica (Obj C : Type) := {
  replica_start : nat -> Z -> Persister -> option Obj;
  replica_Kill : M Obj unit;
  replica_rf : Obj -> Raft C;
  replica_type : string
}.

Section tester.
Context {Obj C : Type} `{Replica Obj C} `{Values} (methods raftMethods : list Method).

Abbreviation Net := (Network (EndName := string) (SrvName := Z)).
Abbreviation Wld := (World (EndName := string) (SrvName := Z)).

Record config := mkConfig {
  cfg_world : Wld;
  cfg_n : nat;
  cfg_servers : list (option nat);
  cfg_saved : list Saved;
  cfg_endnames : list (option (list string));
  cfg_clerks : gmap nat (list string);
  cfg_handles : list (list string);
  cfg_nextClientId : Z;
  cfg_objects : list Obj
}.

Definition set_cfg_world v (x : config) : config :=
  mkConfig v (cfg_n x) (cfg_servers x) (cfg_saved x) (cfg_endnames x) (cfg_clerks x) (cfg_handles x) (cfg_nextClientId x) (cfg_objects x).
Definition set_cfg_servers v (x : config) : config :=
  mkConfig (cfg_world x) (cfg_n x) v (cfg_saved x) (cfg_endnames x) (cfg_clerks x) (cfg_handles x) (cfg_nextClientId x) (cfg_objects x).
Definition set_cfg_saved v (x : config) : config :=
  mkConfig (cfg_world x) (cfg_n x) (cfg_servers x) v (cfg_endnames x) (cfg_clerks x) (cfg_handles x) (cfg_nextClientId x) (cfg_objects x).
Definition set_cfg_endnames v (x : config) : config :=
  mkConfig (cfg_world x) (cfg_n x) (cfg_servers x) (cfg_saved x) v (cfg_clerks x) (cfg_handles x) (cfg_nextClientId x) (cfg_objects x).
Definition set_cfg_clerks v (x : config) : config :=
  mkConfig (cfg_world x) (cfg_n x) (cfg_servers x) (cfg_saved x) (cfg_endnames x) v (cfg_handles x) (cfg_nextClientId x) (cfg_objects x).
Definition set_cfg_handles v (x : config) : config :=
  mkConfig (cfg_world x) (cfg_n x) (cfg_servers x) (cfg_saved x) (cfg_endnames x) (cfg_clerks x) v (cfg_nextClientId x) (cfg_objects x).
Definition set_cfg_nextClientId v (x : config) : config :=
  mkConfig (cfg_world x) (cfg_n x) (cfg_servers x) (cfg_saved x) (cfg_endnames x) (cfg_clerks x) (cfg_handles x) v (cfg_objects x).
Definition set_cfg_objects v (x : config) : config :=
  mkConfig (cfg_world x) (cfg_n x) (cfg_servers x) (cfg_saved x) (cfg_endnames x) (cfg_clerks x) (cfg_handles x) (cfg_nextClientId x) v.

Implicit Types (cfg : config).

Definition assign {A} (g : config -> list A) (s : list A -> config -> config) (i : Z) (v : A) : M config unit :=
  let! cfg := get in
  let! l := lift (slice_set (g cfg) i v) in
  modify (s l).

Definition on_net (f : Net -> Net) : M config unit :=
  modify (fun cfg => set_cfg_world (set_net (f (w_net (cfg_world cfg))) (cfg_world cfg)) cfg).

(** [cfg.endnames[i][j]]. *)
Definition endname (i j : Z) : M config string :=
  let! cfg := get in
  let! ends := lift (slice_get (cfg_endnames cfg) i) in
  lift (slice_get (default [] ends) j).

(** ** Connections between servers *)

Definition connectUnlocked (i : Z) (to : list Z) : M config unit :=
  do! forM to (fun j => let! name := endname i j in on_net (Enable name true));
  forM to (fun j => let! name := endname j i in on_net (Enable name true)).
Definition connect := connectUnlocked.

(** [if cfg.endnames[k] != nil]. *)
Definition if_named (k : Z) (m : M config unit) : M config unit :=
  let! cfg := get in
  let! ends := lift (slice_get (cfg_endnames cfg) k) in
  if decide (is_Some ends) then m else ret tt.

(** The second loop looks at [cfg.endnames[j]] where [j] is the position in [from]. *)
Definition disconnectUnlocked (i : Z) (from : list Z) : M config unit :=
  do! forM from (fun fj =>
    if_named i (let! name := endname i fj in on_net (Enable name false)));
  forM (zip (seq 0 (length from)) from) (fun '(j, fj) =>
    if_named (Z.of_nat j) (let! name := endname fj i in on_net (Enable name false))).
Definition disconnect := disconnectUnlocked.

Definition All cfg : list Z := Z.of_nat <$> seq 0 (cfg_n cfg).

Definition ConnectAll : M config unit :=
  let! cfg := get in
  forM (seq 0 (cfg_n cfg)) (fun i => connectUnlocked (Z.of_nat i) (All cfg)).

Definition partition (p1 p2 : list Z) : M config unit :=
  do! forM p1 (fun i => do! disconnectUnlocked i p2; connectUnlocked i p1);
  forM p2 (fun i => do! disconnectUnlocked i p1; connectUnlocked i p2).

(** ** Clerks *)

(** [draw i] is [rand.Intn(i + 1)]. *)
Fixpoint shuffle (draw : nat -> Z) (ks : list nat) (sa : list string) : option (list string) :=
  match ks with
  | [] => Some sa
  | i :: ks =>
      x ← slice_get sa (Z.of_nat i);
      y ← slice_get sa (draw i);
      sa ← slice_set sa (Z.of_nat i) y;
      sa ← slice_set sa (draw i) x;
      shuffle draw ks sa
  end.
Definition random_handles (draw : nat -> Z) (kvh : list string) : option (list string) :=
  shuffle draw (seq 0 (length kvh)) kvh.

Definition ConnectClientUnlocked (ck : nat) (to : list Z) : M config unit :=
  let! cfg := get in
  let endnames := default [] (cfg_clerks cfg !! ck) in
  forM to (fun j => let! s := lift (slice_get endnames j) in on_net (Enable s true)).
Definition ConnectClient := ConnectClientUnlocked.

Definition DisconnectClientUnlocked (ck : nat) (from : list Z) : M config unit :=
  let! cfg := get in
  let endnames := default [] (cfg_clerks cfg !! ck) in
  forM from (fun j => let! s := lift (slice_get endnames j) in on_net (Enable s false)).
Definition DisconnectClient := DisconnectClientUnlocked.

(** [ends[j] = cfg.net.MakeEnd(names[j])] and [cfg.net.Connect(names[j], j)], for all [j]. *)
Definition make_ends (n : nat) (names : list string) : M config unit :=
  forM (seq 0 n) (fun j =>
    let! name := lift (slice_get names (Z.of_nat j)) in
    let! cfg := get in
    let! net := lift (MakeEnd name (w_net (cfg_world cfg))) in
    do! on_net (fun _ => net);
    on_net (Connect name (Z.of_nat j))).

(** [names] are the strings drawn by [randstring]; the result is the clerk. *)
Definition makeClient (to : list Z) (names : list string) (draw : nat -> Z) : M config nat :=
  let! cfg := get in
  do! make_ends (cfg_n cfg) names;
  let! ends := lift (random_handles draw names) in
  let! cfg := get in
  let ck := length (cfg_handles cfg) in
  do! modify (set_cfg_handles (cfg_handles cfg ++ [ends]));
  do! modify (set_cfg_clerks (<[ck := names]> (cfg_clerks cfg)));
  do! modify (fun cfg => set_cfg_nextClientId (cfg_nextClientId cfg + 1) cfg);
  do! ConnectClientUnlocked ck to;
  ret ck.

Definition deleteClient (ck : nat) : M config unit :=
  modify (fun cfg => set_cfg_clerks (delete ck (cfg_clerks cfg)) cfg).

(** ** Stopping and starting a server *)

Definition saved_contents (sv : Saved) (cfg : config) : option Persister :=
  match sv with
  | Nil => None
  | Owned ps => Some ps
  | Shared r => (fun o => persister (replica_rf o)) <$> cfg_objects cfg !! r
  end.

Definition ShutdownServer (i : Z) : M config unit :=
  let! cfg := get in
  do! disconnectUnlocked i (All cfg);
  do! on_net (DeleteServer i);
  let! cfg := get in
  let! sv := lift (slice_get (cfg_saved cfg) i) in
  do! match saved_contents sv cfg with
      | Some ps => assign cfg_saved set_cfg_saved i (Owned (Copy ps))
      | None => ret tt
      end;
  let! cfg := get in
  let! kv := lift (slice_get (cfg_servers cfg) i) in
  match kv with
  | Some r =>
      let! o := lift (cfg_objects cfg !! r) in
      let! p := lift (replica_Kill o) in
      do! modify (set_cfg_objects (<[r := p.2]> (cfg_objects cfg)));
      assign cfg_servers set_cfg_servers i None
  | None => ret tt
  end.

Definition StartServer (i : Z) (names : list string) : M config unit :=
  do! assign cfg_endnames set_cfg_endnames i (Some names);
  let! cfg := get in
  do! make_ends (cfg_n cfg) names;
  let! cfg := get in
  let! sv := lift (slice_get (cfg_saved cfg) i) in
  let ps := match saved_contents sv cfg with Some ps => Copy ps | None => MakePersister end in
  let! o := lift (replica_start (cfg_n cfg) i ps) in
  let r := length (cfg_objects cfg) in
  do! modify (set_cfg_objects (cfg_objects cfg ++ [o]));
  do! assign cfg_saved set_cfg_saved i (Shared r);
  do! assign cfg_servers set_cfg_servers i (Some r);
  let kvsvc := MakeService (mkReceiver r replica_type methods) in
  let rfsvc := MakeService (mkReceiver r "Raft" raftMethods) in
  let! cfg := get in
  let w := cfg_world cfg in
  let srv := length (w_servers w) in
  do! modify (set_cfg_world (mkWorld (w_net w)
                (w_servers w ++ [AddService rfsvc (AddService kvsvc MakeServer)])
                (w_looping w) (w_calls w)));
  on_net (AddServer i srv).

(** ** Looking at the servers *)

Definition LogSize_of (size : Persister -> Z) : M config Z :=
  let! cfg := get in
  let fix loop (js : list nat) (logsize : Z) : M config Z :=
    match js with
    | [] => ret logsize
    | i :: js =>
        let! sv := lift (cfg_saved cfg !! i) in
        let! ps := lift (saved_contents sv cfg) in
        loop js (if decide (size ps > logsize) then size ps else logsize)
    end in
  loop (seq 0 (cfg_n cfg)) 0.
Definition LogSize := LogSize_of RaftStateSize.
Definition SnapshotSize := LogSize_of Persister.SnapshotSize.

(** [view i] is the tester when it looks at server [i]. [skip_nil]: a nil pointer is
    skipped (shardctrler), or dereferenced (kvraft). *)
Fixpoint Leader_loop (skip_nil : bool) (view : nat -> config) (js : list nat) : option (bool * Z) :=
  match js with
  | [] => Some (false, 0)
  | i :: js =>
      p ← cfg_servers (view i) !! i;
      match p with
      | Some r =>
          o ← cfg_objects (view i) !! r;
          let '(_, is_leader) := GetState (replica_rf o) in
          if (is_leader : bool) then Some (true, Z.of_nat i) else Leader_loop skip_nil view js
      | None => if skip_nil then Leader_loop skip_nil view js else None
      end
  end.
Definition Leader (skip_nil : bool) (n : nat) (view : nat -> config) : option (bool * Z) :=
  Leader_loop skip_nil view (seq 0 n).

(** The loop of [make_partition]; [j] counts the servers other than [l]. *)
Fixpoint split_servers (l : Z) (ks : list nat) (p1 p2 : list Z) (j : Z) : option (list Z * list Z) :=
  match ks with
  | [] => Some (p1, p2)
  | i :: ks =>
      if decide (Z.of_nat i <> l) then
        if decide (j < len p1) then
          p1 ← slice_set p1 j (Z.of_nat i);
          split_servers l ks p1 p2 (j + 1)
        else
          p2 ← slice_set p2 (j - len p1) (Z.of_nat i);
          split_servers l ks p1 p2 (j + 1)
      else split_servers l ks p1 p2 j
  end.
Definition make_partition (skip_nil : bool) (n : nat) (view : nat -> config) : option (list Z * list Z) :=
  lr ← Leader skip_nil n view;
  let l := lr.2 in
  p ← split_servers l (seq 0 n) (replicate (Nat.div n 2 + 1) 0) (replicate (Nat.div n 2) 0) 0;
  p2 ← slice_set p.2 (len p.2 - 1) l;
  Some (p.1, p2).

(** ** The life of a tester *)

Definition new_config (n : nat) : config :=
  mkConfig NewWorld n (replicate n None) (replicate n Nil) (replicate n None) ∅ [] (Z.of_nat n + 1000) [].

Definition make_config (n : nat) (unreliable : bool) (names : nat -> list string) : option config :=
  snd <$> (do! forM (seq 0 n) (fun i => StartServer (Z.of_nat i) (names i));
           do! ConnectAll;
           on_net (Reliable (negb unreliable))) (new_config n).

(** Before [checkTimeout]. *)
Definition cleanup : M config unit :=
  let! cfg := get in
  do! forM (seq 0 (length (cfg_servers cfg))) (fun i =>
    let! kv := lift (cfg_servers cfg !! i) in
    match kv with
    | Some r =>
        let! cfg := get in
        let! o := lift (cfg_objects cfg !! r) in
        let! p := lift (replica_Kill o) in
        modify (set_cfg_objects (<[r := p.2]> (cfg_objects cfg)))
    | None => ret tt
    end);
  let! cfg := get in
  let! net := lift (Cleanup (w_net (cfg_world cfg))) in
  on_net (fun _ => net).

Definition rpcTotal cfg : Z := GetTotalCount (w_net (cfg_world cfg)).

(** What [begin] remembers, [op] counts and [end] prints, the time aside. *)
Record Begun := mkBegun { rpcs0 : Z; ops : Z }.
Definition begin cfg : Begun := mkBegun (rpcTotal cfg) 0.
Definition op (begun : Begun) : Begun := mkBegun (rpcs0 begun) (wrap 32 (ops begun + 1)).
Definition end_ (failed : bool) (since : Z) (begun : Begun) cfg : option (option (nat * Z * Z)) :=
  _ ← checkTimeout failed since;
  if failed then Some None else Some (Some (cfg_n cfg, rpcTotal cfg - rpcs0 begun, ops begun)).
End tester.
