(* ===== verification/ServiceConfigNet.v ===== *)
(** * What the testers of the services do to the network

    [Links] says which server may send to which, and which clerk to which server; it is all
    there is to know of the network a tester keeps. [rep n cfg L]: the ends of [cfg] are
    enabled as [L] says, lead where their position says, and the servers registered are
    the current ones. The operations on connections are proved to be the operations
    [set_links] on [Links]. *)
From Stdlib Require Import Strings.Byte.
From S2P Require Import Prelude Labgob Persister RaftTypes RaftNode RaftLog RaftSpec RaftInv Labrpc RaftConfig RaftConfigNet ServiceConfig.

(** Who an end belongs to. *)
Inductive Owner := Srv (i : nat) | Clk (k : nat).
#[export] Instance owner_eq_dec : EqDecision Owner.
Proof. solve_decision. Defined.

Definition Links : Type := Owner -> nat -> bool.
Definition set_links (S : list (Owner * nat)) (b : bool) (L : Links) : Links :=
  fun o j => if decide ((o, j) ∈ S) then b else L o j.

(** Between server [i] and the servers [to], both ways. *)
Definition pairs (i : nat) (to : list nat) : list (Owner * nat) :=
  ((fun j => (Srv i, j)) <$> to) ++ ((fun j => (Srv j, i)) <$> to).
Definition clerk_pairs (k : nat) (to : list nat) : list (Owner * nat) := (fun j => (Clk k, j)) <$> to.

(** Equality of links is pointwise. *)
Definition links_eq (L L' : Links) : Prop := forall o j, L o j = L' o j.
#[export] Instance links_eq_equiv : Equivalence links_eq.
Proof. split; [by intros L o j|by intros L L' E o j|intros L1 L2 L3 E1 E2 o j; by rewrite E1]. Qed.
#[export] Instance set_links_proper S b : Proper (links_eq ==> links_eq) (set_links S b).
Proof. intros L L' E o j. unfold set_links. by rewrite E. Qed.

Lemma set_links_app S S' b L : links_eq (set_links S' b (set_links S b L)) (set_links (S ++ S') b L).
Proof. intros o j. unfold set_links. repeat case_decide; set_solver. Qed.

(** Links switched off and others switched on, in either order. *)
Lemma set_links_swap S S' b b' L : (forall p, p ∈ S -> p ∉ S') ->
  links_eq (set_links S b (set_links S' b' L)) (set_links S' b' (set_links S b L)).
Proof. intros Hd o j. unfold set_links. repeat case_decide; try done. by destruct (Hd (o, j)). Qed.

Section net.
Context {Obj C : Type} `{Replica Obj C} `{Gob Z} `{Gob (list (Entry C))} `{Rand} `{Alloc} `{Values}.
Implicit Types (cfg c : ServiceConfig.config (Obj := Obj)) (L : Links) (o : Owner).

Abbreviation Net := (Network (EndName := string) (SrvName := Z)).
Definition cnet cfg : Net := w_net (ServiceConfig.cfg_world cfg).
Definition owned cfg o : option (list string) :=
  match o with
  | Srv i => l ← ServiceConfig.cfg_endnames cfg !! i; l
  | Clk k => cfg_clerks cfg !! k
  end.
Definition end_in (own : Owner -> option (list string)) o (j : nat) : option string := l ← own o; l !! j.
Abbreviation end_of cfg := (end_in (owned cfg)).

(** The ends of all owners are different, lead to the servers of their positions and are
    enabled as [L] says. *)
Record ends_ok (n : nat) (own : Owner -> option (list string)) (rn : Net) L : Prop := {
  eo_len o l : own o = Some l -> length l = n;
  eo_distinct o j o' j' nm : end_in own o j = Some nm -> end_in own o' j' = Some nm -> o = o' /\ j = j';
  eo_ends o j nm : end_in own o j = Some nm -> is_Some (ends rn !! nm) /\
    connections rn !! nm = Some (Some (Z.of_nat j));
  eo_enabled o j nm : end_in own o j = Some nm -> end_enabled rn nm = L o j
}.

(** A server whose Raft peer is well-formed, has saved its state and is number [i]. *)
Definition sound_replica n (i : nat) (x : Obj) : Prop := sound n i (replica_rf x).

Record rep (n : nat) cfg L : Prop := {
  rp_n : ServiceConfig.cfg_n cfg = n;
  rp_servers : length (cfg_servers cfg) = n;
  rp_saveds : length (ServiceConfig.cfg_saved cfg) = n;
  rp_endnames : length (ServiceConfig.cfg_endnames cfg) = n;
  rp_ok : ends_ok n (owned cfg) (cnet cfg) L;
  rp_clerks k : is_Some (cfg_clerks cfg !! k) -> (k < length (cfg_handles cfg))%nat;
  rp_up i r : cfg_servers cfg !! i = Some (Some r) -> ServiceConfig.cfg_saved cfg !! i = Some (Shared r) /\
    exists p srv sv sv', server_of (cnet cfg) (Z.of_nat i) = Some p /\
      w_servers (ServiceConfig.cfg_world cfg) !! p = Some srv /\
      services srv !! replica_type = Some sv /\ sv_rcvr sv = r /\
      services srv !! "Raft"%string = Some sv' /\ sv_rcvr sv' = r;
  rp_down i : cfg_servers cfg !! i = Some None -> server_of (cnet cfg) (Z.of_nat i) = None;
  rp_saved i sv : ServiceConfig.cfg_saved cfg !! i = Some sv -> match sv with
    | Nil => True
    | Owned ps => exists rf, sound (C := C) n i rf /\ persister rf = ps
    | Shared r => exists x, ServiceConfig.cfg_objects cfg !! r = Some x /\ sound_replica n i x
    end;
  rp_objects r x : ServiceConfig.cfg_objects cfg !! r = Some x -> wf (replica_rf x) /\ durable (replica_rf x)
}.

#[export] Instance rep_proper n cfg : Proper (links_eq ==> iff) (rep n cfg).
Proof.
  assert (forall L L', links_eq L L' -> rep n cfg L -> rep n cfg L') as Hx.
  { intros L L' E [? ? ? ? [? ? ? ?]]. split; try done. split; try done. intros o j nm Hnm. rewrite <-E. eauto. }
  intros L L' E. split; apply Hx; done.
Qed.

Definition running cfg (i : nat) : Prop := is_Some (owned cfg (Srv i)).
(** Every server has been started. *)
Definition all_up n cfg L : Prop := rep n cfg L /\ forall i, (i < n)%nat -> running cfg i.

Lemma end_of_Some n cfg L o j : rep n cfg L -> is_Some (owned cfg o) -> (j < n)%nat -> is_Some (end_of cfg o j).
Proof.
  intros Hr [l Hl] Hj. unfold end_in. rewrite Hl. cbn. apply lookup_lt_is_Some. by rewrite (eo_len _ _ _ _ (rp_ok _ _ _ Hr) _ _ Hl).
Qed.

(** ** Switching ends on and off *)

Definition with_links (en : gmap string bool) cfg : ServiceConfig.config (Obj := Obj) :=
  let rn := cnet cfg in
  ServiceConfig.set_cfg_world (set_net (mkNetwork (reliable rn) (longDelays rn) (longReordering rn) (ends rn) en
    (servers rn) (connections rn) (rn_done rn) (rn_count rn) (rn_bytes rn)) (ServiceConfig.cfg_world cfg)) cfg.

Lemma with_links_id cfg : with_links (enabled (cnet cfg)) cfg = cfg.
Proof. by destruct cfg as [[[] ? ? ?] ? ? ? ? ? ? ? ?]. Qed.

Lemma rep_switch n en cfg L S b : rep n cfg L ->
  (forall o j nm, end_of cfg o j = Some nm ->
     default false (en !! nm) = if decide ((o, j) ∈ S) then b else L o j) ->
  rep n (with_links en cfg) (set_links S b L).
Proof. intros [? ? ? ? [? ? ? ?]] Hen. by split. Qed.

(** A loop that switches the ends [sel] chooses. *)
Lemma wp_switch_ends {A} n (l : list A) (body : A -> M (ServiceConfig.config (Obj := Obj)) unit) (sel : A -> Owner * nat) b cfg L :
  rep n cfg L ->
  (forall x en, x ∈ l -> exists nm, end_of cfg (sel x).1 (sel x).2 = Some nm /\
     wp (body x) (with_links en cfg) (fun _ c => c = with_links (<[nm := b]> en) cfg)) ->
  wp (forM l body) cfg (fun _ c => (exists en, c = with_links en cfg) /\ rep n c (set_links (sel <$> l) b L)).
Proof.
  intros Hr Hb. eapply wp_mono; [apply (wp_forM _ _ (fun pre c => exists en, c = with_links en cfg /\
    forall o j nm, end_of cfg o j = Some nm ->
      default false (en !! nm) = if decide ((o, j) ∈ sel <$> pre) then b else L o j))|].
  - exists (enabled (cnet cfg)). split; [by rewrite with_links_id|]. intros o j nm Hnm. cbn.
    rewrite decide_False by apply not_elem_of_nil. by apply (eo_enabled _ _ _ _ (rp_ok _ _ _ Hr)).
  - intros pre x c (post&E) (en&->&Hen). destruct (Hb x en) as (nm&Hnm&Hw); [rewrite E; set_solver|].
    eapply wp_mono; [exact Hw|]. intros [] c ->. exists (<[nm := b]> en). split; [done|].
    intros o j nm' Hnm'. destruct (sel x) as [o1 j1] eqn:Es. cbn in Hnm. rewrite fmap_app. cbn. rewrite Es.
    destruct (decide (nm = nm')) as [<-|Hne].
    + destruct (eo_distinct _ _ _ _ (rp_ok _ _ _ Hr) _ _ _ _ _ Hnm Hnm') as [-> ->]. rewrite lookup_insert_eq, decide_True by set_solver. done.
    + rewrite lookup_insert_ne, (Hen o j) by done. assert ((o, j) <> (o1, j1)) by (intros [= -> ->]; congruence).
      repeat case_decide; set_solver.
  - intros [] c (en&->&Hen). split; [by exists en|by apply rep_switch].
Qed.

Lemma wp_lookup_name {A} (l : list A) (j : nat) x cfg (Q : A -> ServiceConfig.config (Obj := Obj) -> Prop) :
  l !! j = Some x -> Q x cfg -> wp (lift (slice_get l (Z.of_nat j))) cfg Q.
Proof. intros Hl HQ. eapply wp_lift; [apply slice_get_Some; rewrite Nat2Z.id; split; [lia|exact Hl]|done]. Qed.

Lemma wp_endname_of i j nm en cfg (Q : string -> ServiceConfig.config (Obj := Obj) -> Prop) :
  end_of cfg (Srv i) j = Some nm -> Q nm (with_links en cfg) ->
  wp (ServiceConfig.endname (Z.of_nat i) (Z.of_nat j)) (with_links en cfg) Q.
Proof.
  intros (l&(o&Hi&->)%bind_Some&Hj)%bind_Some HQ. unfold ServiceConfig.endname. go.
  eapply wp_lookup_name; [exact Hi|]. by eapply wp_lookup_name.
Qed.

(** Between server [i] and others: a loop body that switches one end of server [a]. *)
Lemma wp_enable_one b i j nm en cfg : end_of cfg (Srv i) j = Some nm ->
  wp (let! name := ServiceConfig.endname (Z.of_nat i) (Z.of_nat j) in ServiceConfig.on_net (Enable name b)) (with_links en cfg)
    (fun _ c => c = with_links (<[nm := b]> en) cfg).
Proof. intros Hnm. go. eapply wp_endname_of; [exact Hnm|]. unfold ServiceConfig.on_net. by go. Qed.

(** A result in which only links have changed. *)
Definition relinked n cfg L c : Prop := (exists en, c = with_links en cfg) /\ rep n c L.

Lemma relinked_trans n cfg L c L' c' : relinked n cfg L c -> relinked n c L' c' -> relinked n cfg L' c'.
Proof. intros [(en&->) _] [(en'&->) Hr]. split; [by exists en'|done]. Qed.

Lemma relinked_refl n cfg L : rep n cfg L -> relinked n cfg L cfg.
Proof. intros Hr. split; [|done]. exists (enabled (cnet cfg)). by rewrite with_links_id. Qed.

Lemma relinked_up n cfg L c : (forall i, (i < n)%nat -> running cfg i) -> relinked n cfg L c -> all_up n c L.
Proof. intros Hu [(en&->) Hr]. by split. Qed.

Lemma relinked_ext n cfg L L' c : links_eq L L' -> relinked n cfg L c -> relinked n cfg L' c.
Proof. intros E [He Hr]. split; [done|by rewrite <-E]. Qed.

(** ** Connections between servers *)

Definition below (n : nat) (l : list nat) : Prop := Forall (fun j => j < n)%nat l.

Lemma below_lt n l j : below n l -> j ∈ l -> (j < n)%nat.
Proof. intros Hl Hj. by eapply Forall_forall in Hl. Qed.

Lemma running_end n cfg L i j : all_up n cfg L -> (i < n)%nat -> (j < n)%nat -> is_Some (end_of cfg (Srv i) j).
Proof. intros [Hr Hu] Hi Hj. eapply end_of_Some; [exact Hr| |done]. by apply Hu. Qed.

Lemma wp_connectUnlocked n i to cfg L : all_up n cfg L -> (i < n)%nat -> below n to ->
  wp (connectUnlocked (Z.of_nat i) (Z.of_nat <$> to)) cfg (fun _ => relinked n cfg (set_links (pairs i to) true L)).
Proof.
  intros Hu Hi Hto. unfold connectUnlocked. go. rewrite !forM_fmap.
  eapply wp_mono; [apply (wp_switch_ends n _ _ (fun j => (Srv i, j)) true _ L); [apply Hu|]|].
  { intros j en Hj. destruct (running_end n cfg L i j) as [nm Hnm]; [done|done|by eapply below_lt|].
    exists nm. split; [done|]. by apply wp_enable_one. }
  intros [] c Hc. pose proof (relinked_up n cfg _ c (proj2 Hu) Hc) as Hu'.
  eapply wp_mono; [apply (wp_switch_ends n _ _ (fun j => (Srv j, i)) true _ _ (proj2 Hc))|].
  { intros j en Hj. destruct (running_end n c _ j i Hu') as [nm Hnm]; [by eapply below_lt|done|].
    exists nm. split; [done|]. by apply wp_enable_one. }
  intros [] c' Hc'. eapply relinked_ext; [apply set_links_app|]. by eapply relinked_trans.
Qed.

Lemma wp_if_named n k m cfg L en (Q : unit -> ServiceConfig.config (Obj := Obj) -> Prop) : all_up n cfg L -> (k < n)%nat ->
  wp m (with_links en cfg) Q -> wp (if_named (Z.of_nat k) m) (with_links en cfg) Q.
Proof.
  intros [Hr Hu] Hk Hm. unfold if_named. go. destruct (Hu k Hk) as [l (o&Ho&->)%bind_Some].
  eapply wp_lookup_name; [exact Ho|]. by rewrite decide_True by (by eexists).
Qed.

Lemma wp_disconnectUnlocked n i from cfg L : all_up n cfg L -> (i < n)%nat -> below n from -> (length from <= n)%nat ->
  wp (disconnectUnlocked (Z.of_nat i) (Z.of_nat <$> from)) cfg (fun _ => relinked n cfg (set_links (pairs i from) false L)).
Proof.
  intros Hu Hi Hfr Hlen. unfold disconnectUnlocked. go. rewrite forM_fmap, length_fmap.
  eapply wp_mono; [apply (wp_switch_ends n _ _ (fun j => (Srv i, j)) false _ L); [apply Hu|]|].
  { intros j en Hj. destruct (running_end n cfg L i j) as [nm Hnm]; [done|done|by eapply below_lt|].
    exists nm. split; [done|]. eapply (wp_if_named n); [exact Hu|done|]. by apply wp_enable_one. }
  intros [] c Hc. pose proof (relinked_up n cfg _ c (proj2 Hu) Hc) as Hu'. rewrite zip_with_fmap_r, zip_with_zip, forM_fmap.
  eapply wp_mono; [apply (wp_switch_ends n _ _ (fun p : nat * nat => (Srv p.2, i)) false _ _ (proj2 Hc))|].
  { intros [k j] en Hj. apply elem_of_zip_r in Hj as Hj'. apply elem_of_zip_l in Hj as Hk%elem_of_seq.
    destruct (running_end n c _ j i Hu') as [nm Hnm]; [by eapply below_lt|done|].
    exists nm. split; [done|]. cbn. eapply (wp_if_named n); [exact Hu'|lia|]. by apply wp_enable_one. }
  assert ((fun p : nat * nat => (Srv p.2, i)) <$> zip (seq 0 (length from)) from = (fun j => (Srv j, i)) <$> from) as ->.
  { etrans; [apply (list_fmap_compose snd (fun j => (Srv j, i)))|]. by rewrite snd_zip by (by rewrite length_seq). }
  intros [] c' Hc'. eapply relinked_ext; [apply set_links_app|]. by eapply relinked_trans.
Qed.

Lemma wp_ConnectAll n cfg L : all_up n cfg L ->
  wp ConnectAll cfg (fun _ c => exists L', relinked n cfg L' c /\ (forall i j, (i < n)%nat -> (j < n)%nat -> L' (Srv i) j = true) /\
    forall k j, L' (Clk k) j = L (Clk k) j).
Proof.
  intros Hu. unfold ConnectAll. go. rewrite (rp_n _ _ _ (proj1 Hu)). unfold All. rewrite (rp_n _ _ _ (proj1 Hu)).
  assert (below n (seq 0 n)) as Hb by (apply Forall_forall; intros j Hj%elem_of_seq; lia).
  eapply wp_mono; [apply (wp_forM _ _ (fun pre c => exists L', relinked n cfg L' c /\
    (forall i j, i ∈ pre -> (j < n)%nat -> L' (Srv i) j = true) /\ forall k j, L' (Clk k) j = L (Clk k) j))|].
  - exists L. split_and!; [by apply relinked_refl, Hu|by intros i j []%not_elem_of_nil|done].
  - intros pre i c (post&E) (L1&Hc&Hon&Hck). destruct (seq_split _ _ _ _ E) as [Hi _].
    eapply wp_mono; [apply (wp_connectUnlocked n i (seq 0 n) c L1); [by eapply relinked_up; [apply Hu|]|done|done]|].
    intros [] c' Hc'. eexists. split_and!; [by eapply relinked_trans|..]; unfold set_links.
    + intros a j Ha Hj. case_decide as Hn; [done|]. apply Hon; [|done]. apply elem_of_app in Ha as [|Ha%list_elem_of_singleton]; [done|].
      subst a. destruct Hn. apply elem_of_app. left. apply list_elem_of_fmap. exists j. split; [done|]. apply elem_of_seq. lia.
    + intros k j. rewrite <-Hck. apply decide_False. unfold pairs. set_solver.
  - intros [] c (L'&Hc&Hon&Hck). exists L'. split_and!; [done| |done]. intros i j Hi Hj. apply Hon; [|done]. apply elem_of_seq. lia.
Qed.

(** ** Partitions *)

Lemma elem_of_pairs i to o j : (o, j) ∈ pairs i to <-> (o = Srv i /\ j ∈ to) \/ (exists a, o = Srv a /\ a ∈ to /\ j = i).
Proof. unfold pairs. set_solver. Qed.
Lemma elem_of_all_pairs is_ to o j : (o, j) ∈ is_ ≫= (fun i => pairs i to) <->
  exists a, o = Srv a /\ ((a ∈ is_ /\ j ∈ to) \/ (a ∈ to /\ j ∈ is_)).
Proof.
  rewrite list_elem_of_bind. setoid_rewrite elem_of_pairs. naive_solver.
Qed.

Lemma server_pairs is_ to a j : (Srv a, j) ∈ is_ ≫= (fun i => pairs i to) <->
  (a ∈ is_ /\ j ∈ to) \/ (a ∈ to /\ j ∈ is_).
Proof. rewrite elem_of_all_pairs. naive_solver. Qed.

Lemma bind_snoc {A B} (f : A -> list B) l x : (l ++ [x]) ≫= f = (l ≫= f) ++ f x.
Proof. rewrite bind_app. cbn. by rewrite app_nil_r. Qed.

(** One of the two loops: the servers [is_] are cut off from [q] and joined with [p]. *)
Lemma wp_partition_loop n is_ p q cfg L : all_up n cfg L -> below n is_ -> below n p -> below n q -> (length q <= n)%nat ->
  (forall i, i ∈ is_ -> i ∈ p) -> (forall i, i ∈ p -> i ∉ q) ->
  wp (forM (Z.of_nat <$> is_) (fun i => do! disconnectUnlocked i (Z.of_nat <$> q); connectUnlocked i (Z.of_nat <$> p)))
    cfg (fun _ => relinked n cfg (set_links (is_ ≫= (fun i => pairs i p)) true (set_links (is_ ≫= (fun i => pairs i q)) false L))).
Proof.
  intros Hu His Hp Hq Hlen Hip Hpq. rewrite forM_fmap.
  eapply wp_mono; [apply (wp_forM _ _ (fun pre => relinked n cfg (set_links (pre ≫= (fun i => pairs i p)) true
    (set_links (pre ≫= (fun i => pairs i q)) false L))))|].
  - apply relinked_refl, Hu.
  - intros pre i c (post&E) Hc. assert (i ∈ is_ /\ forall a, a ∈ pre -> a ∈ is_) as [Hi Hpre] by (rewrite E; set_solver).
    cbn. go. eapply wp_mono; [apply (wp_disconnectUnlocked n i q); [by eapply relinked_up; [apply Hu|]|exact (below_lt _ _ _ His Hi)|done|done]|].
    intros [] c1 Hc1. pose proof (relinked_trans _ _ _ _ _ _ Hc Hc1) as Hc1'.
    eapply wp_mono; [apply (wp_connectUnlocked n i p); [by eapply relinked_up; [apply Hu|]|exact (below_lt _ _ _ His Hi)|done]|].
    intros [] c2 Hc2. eapply relinked_ext; [|by eapply relinked_trans]. rewrite !bind_snoc.
    rewrite (set_links_swap (pairs i q)), set_links_app, set_links_app; [done|].
    intros [o j]. rewrite elem_of_pairs, elem_of_all_pairs. naive_solver.
  - done.
Qed.
(** Servers of the same part are connected, of different parts not. *)
Definition partition_links (p1 p2 : list nat) L : Links := fun o j =>
  match o with
  | Srv a =>
      if decide ((a ∈ p1 /\ j ∈ p1) \/ (a ∈ p2 /\ j ∈ p2)) then true
      else if decide ((a ∈ p1 /\ j ∈ p2) \/ (a ∈ p2 /\ j ∈ p1)) then false
      else L o j
  | Clk _ => L o j
  end.

Lemma wp_partition n p1 p2 cfg L : all_up n cfg L -> below n p1 -> below n p2 -> (length p1 <= n)%nat -> (length p2 <= n)%nat ->
  (forall i, i ∈ p1 -> i ∉ p2) ->
  wp (partition (Z.of_nat <$> p1) (Z.of_nat <$> p2)) cfg (fun _ => relinked n cfg (partition_links p1 p2 L)).
Proof.
  intros Hu H1' H2' Hl1 Hl2 Hd. unfold partition. go.
  eapply wp_mono; [apply (wp_partition_loop n p1 p1 p2 cfg L); auto|]. intros [] c Hc.
  eapply wp_mono; [apply (wp_partition_loop n p2 p2 p1 c); [by eapply relinked_up; [apply Hu|]|done..| |]|].
  { done. } { intros i Hi Hi'. by apply (Hd i). }
  intros [] c' Hc'. eapply relinked_ext; [|by eapply relinked_trans]. intros o j. unfold set_links, partition_links.
  destruct o as [a|k].
  - pose proof (Hd a). pose proof (Hd j). repeat case_decide; rewrite ?server_pairs in *; try done; exfalso; tauto.
  - by rewrite !decide_False by (rewrite elem_of_all_pairs; naive_solver).
Qed.

(** ** Clerks *)

(** Every end of clerk [k], switched as [to] says. *)
Lemma wp_client_loop n b k to cfg L : rep n cfg L -> is_Some (cfg_clerks cfg !! k) -> below n to ->
  wp (forM (Z.of_nat <$> to) (fun j => let! s := lift (slice_get (default [] (cfg_clerks cfg !! k)) j) in
        ServiceConfig.on_net (Enable s b))) cfg
    (fun _ => relinked n cfg (set_links (clerk_pairs k to) b L)).
Proof.
  intros Hr [l Hl] Hto. rewrite forM_fmap, Hl. cbn [default].
  apply (wp_switch_ends n to _ (fun j => (Clk k, j)) b cfg L Hr). intros j en Hj.
  destruct (end_of_Some n cfg L (Clk k) j Hr) as [nm Hnm]; [by eexists|by eapply below_lt|]. exists nm. split; [done|].
  apply bind_Some in Hnm as (l'&Hl'&Hj'). cbn in Hl'. simplify_eq. cbn. go. eapply wp_lookup_name; [exact Hj'|].
  unfold ServiceConfig.on_net. by go.
Qed.

Lemma wp_ConnectClient n k to cfg L : rep n cfg L -> is_Some (cfg_clerks cfg !! k) -> below n to ->
  wp (ConnectClient k (Z.of_nat <$> to)) cfg (fun _ => relinked n cfg (set_links (clerk_pairs k to) true L)).
Proof. intros Hr Hk Hto. unfold ConnectClient, ConnectClientUnlocked. go. by apply wp_client_loop. Qed.

Lemma wp_DisconnectClient n k from cfg L : rep n cfg L -> is_Some (cfg_clerks cfg !! k) -> below n from ->
  wp (DisconnectClient k (Z.of_nat <$> from)) cfg (fun _ => relinked n cfg (set_links (clerk_pairs k from) false L)).
Proof. intros Hr Hk Hto. unfold DisconnectClient, DisconnectClientUnlocked. go. by apply wp_client_loop. Qed.

(** [random_handles] is a permutation, whatever is drawn. *)
Lemma shuffle_permutes draw ks sa : (forall k, k ∈ ks -> (k < length sa)%nat /\ 0 <= draw k <= Z.of_nat k) ->
  exists sa', shuffle draw ks sa = Some sa' /\ sa' ≡ₚ sa.
Proof.
  revert sa. induction ks as [|k ks IH]; intros sa Hd; [by exists sa|]. destruct (Hd k) as [Hk Hdr]; [set_solver|].
  cbn [shuffle]. destruct (lookup_range sa k Hk) as (x&Hx&->).
  destruct (lookup_range sa (Z.to_nat (draw k))) as (y&Hy&Hy'); [lia|]. rewrite Z2Nat.id in Hy' by lia. rewrite Hy'. cbn.
  rewrite slice_set_Some by lia. cbn. rewrite slice_set_Some by (rewrite length_insert; lia). cbn. rewrite Nat2Z.id.
  destruct (IH (<[Z.to_nat (draw k) := x]> (<[k := y]> sa))) as (sa'&->&Hp).
  { intros k' Hk'. rewrite !length_insert. apply Hd. set_solver. }
  exists sa'. split; [done|]. rewrite Hp. by apply Permutation_insert_swap.
Qed.
End net.
