(* ===== verification/ServiceConfigLife.v ===== *)
(** * Clerks and servers that come and go

    The operations of the testers that make ends, register servers and stop them, on
    [rep] of [ServiceConfigNet]; then [make_config], and any sequence of operations. The
    theorems need of a server only [ReplicaLaws]. *)
From Stdlib Require Import Strings.Byte.
From S2P Require Import Prelude Labgob Persister RaftTypes RaftNode RaftLog RaftSpec RaftSnapshot RaftInv Labrpc RaftConfig RaftConfigNet ServiceConfig ServiceConfigNet.

(** A server is started with a Raft peer on the persister it is given, and killing it
    kills that peer. *)
Class ReplicaLaws (Obj C : Type) `{Gob Z} `{Gob (list (Entry C))} `{Rand} `{!Replica Obj C} := {
  replica_start_Make n i ps rf : Make n i ps = Some rf ->
    exists o, replica_start n i ps = Some o /\ replica_rf o = rf;
  replica_Kill_rf o : exists o', replica_Kill o = Some (tt, o') /\ replica_rf o' = set_dead true (replica_rf o);
  replica_not_Raft : replica_type <> "Raft"%string
}.

Section life.
Context {Obj C : Type} `{Gob Z} `{Gob (list (Entry C))} `{Rand} `{Alloc} `{Replica Obj C} `{!ReplicaLaws Obj C}.
Context `{!GobLaws Z} `{!GobLaws (list (Entry C))} `{Values} (methods raftMethods : list Method).
Implicit Types (cfg c : ServiceConfig.config (Obj := Obj)) (L : Links) (o : Owner).
Abbreviation Net := (Network (EndName := string) (SrvName := Z)).

(** ** New ends *)

Definition fresh_strings n (names : list string) (rn : Net) : Prop :=
  length names = n /\ NoDup names /\ forall nm, nm ∈ names -> ends rn !! nm = None.

Lemma ends_ok_net n own (rn rn' : Net) L : ends rn' = ends rn -> enabled rn' = enabled rn -> connections rn' = connections rn ->
  ends_ok n own rn L -> ends_ok n own rn' L.
Proof. intros E1 E2 E3 []. split; unfold end_enabled; rewrite ?E1, ?E2, ?E3; done. Qed.

Definition cut o0 L : Links := fun o j => if decide (o = o0) then false else L o j.

Lemma ends_ok_add n own own' rn rn' L o0 names : ends_ok n own rn L -> fresh_strings n names rn ->
  ends_added names n rn rn' -> own' o0 = Some names -> (forall o, o <> o0 -> own' o = own o) ->
  ends_ok n own' rn' (cut o0 L).
Proof.
  intros Hok (Hlen&Hd&Hfresh) Hea H0' Hne.
  assert (take n names = names) as Ht by (apply take_ge; lia).
  assert (forall o j, end_in own' o j = if decide (o = o0) then names !! j else end_in own o j) as Hend.
  { intros o j. unfold end_in. case_decide as Ho; [subst; by rewrite H0'|by rewrite Hne]. }
  assert (forall o j nm, end_in own o j = Some nm -> nm ∉ names) as Hold.
  { intros o j nm Hnm Hin. destruct (eo_ends _ _ _ _ Hok _ _ _ Hnm) as [[? E] _]. by rewrite (Hfresh _ Hin) in E. }
  assert (forall j nm, names !! j = Some nm -> nm ∈ names) as Hin by (intros; by eapply list_elem_of_lookup_2).
  split.
  - intros o l Hl. destruct (decide (o = o0)) as [->|Ho]; [congruence|]. rewrite Hne in Hl by done. by eapply eo_len.
  - intros o j o' j' nm. rewrite !Hend. repeat case_decide; subst; intros H1' H2'.
    + split; [done|]. by eapply NoDup_lookup.
    + by destruct (Hold _ _ _ H2'); eapply Hin.
    + by destruct (Hold _ _ _ H1'); eapply Hin.
    + by eapply eo_distinct.
  - intros o j nm. rewrite Hend, (ea_ends _ _ _ _ Hea), Ht. case_decide; intros Hnm.
    + split; [right; by eapply Hin|]. eapply (ea_new _ _ _ _ Hea); [|done]. apply lookup_lt_Some in Hnm. lia.
    + destruct (eo_ends _ _ _ _ Hok _ _ _ Hnm) as [? <-]. split; [by left|]. apply (ea_old _ _ _ _ Hea). rewrite Ht. by eapply Hold.
  - intros o j nm. rewrite Hend, (ea_enabled _ _ _ _ Hea), Ht. unfold cut. case_decide; intros Hnm.
    + by rewrite decide_True by (by eapply Hin).
    + rewrite decide_False by (by eapply Hold). by eapply eo_enabled.
Qed.

Definition with_cnet (rn : Net) cfg : ServiceConfig.config (Obj := Obj) :=
  ServiceConfig.set_cfg_world (set_net rn (ServiceConfig.cfg_world cfg)) cfg.

Lemma wp_make_ends n names cfg : fresh_strings n names (cnet cfg) ->
  wp (make_ends n names) cfg (fun _ c => exists rn, c = with_cnet rn cfg /\ ends_added names n (cnet cfg) rn).
Proof.
  intros (Hlen&Hd&Hfresh). unfold make_ends.
  eapply wp_mono; [apply (wp_forM _ _ (fun pre c => exists rn, c = with_cnet rn cfg /\ ends_added names (length pre) (cnet cfg) rn))|].
  - exists (cnet cfg). split; [by destruct cfg as [[] ? ? ? ? ? ? ? ?]|]. cbn. split; try done.
    + intros nm. split; [by left|intros [?|[]%not_elem_of_nil]; done].
    + lia.
  - intros pre j c (post&Hseq) (rn&->&Hea).
    assert (j = length pre) as ->.
    { pose proof (f_equal (fun l => l !! length pre) Hseq) as Hj. rewrite list_lookup_middle in Hj by done.
      apply lookup_seq in Hj. lia. }
    destruct (seq_split _ _ _ _ Hseq) as [Hlt _].
    destruct (lookup_lt_is_Some_2 names (length pre)) as [nm Hnm]; [lia|].
    destruct (ends_added_step names (length pre) nm (cnet cfg) rn) as (rn1&Hme&Hea'); [done|done| |done|].
    { apply Hfresh. by eapply list_elem_of_lookup_2. }
    go. eapply wp_lookup_name; [exact Hnm|]. go. eapply wp_lift; [exact Hme|]. unfold ServiceConfig.on_net. go.
    rewrite length_app, Nat.add_comm. by exists (Connect nm (Z.of_nat (length pre)) rn1).
  - intros [] c (rn&->&Hea). rewrite length_seq in Hea. by exists rn.
Qed.

Lemma wp_assign_slice {A} (g : ServiceConfig.config (Obj := Obj) -> list A) s i (v : A) cfg (Q : unit -> ServiceConfig.config (Obj := Obj) -> Prop) :
  (i < length (g cfg))%nat -> Q tt (s (<[i := v]> (g cfg)) cfg) -> wp (ServiceConfig.assign g s (Z.of_nat i) v) cfg Q.
Proof. intros Hi HQ. unfold ServiceConfig.assign. go. eapply wp_lift; [apply slice_set_Some; lia|]. go. by rewrite Nat2Z.id. Qed.

(** ** Clerks *)

Definition draws_ok n (draw : nat -> Z) : Prop := forall k, (k < n)%nat -> 0 <= draw k <= Z.of_nat k.

Lemma wp_makeClient n to names draw cfg L : rep n cfg L -> below n to -> fresh_strings n names (cnet cfg) -> draws_ok n draw ->
  wp (makeClient (Z.of_nat <$> to) names draw) cfg (fun k c => k = length (cfg_handles cfg) /\
    rep n c (set_links (clerk_pairs k to) true (cut (Clk k) L)) /\
    (exists ends_, cfg_handles c = cfg_handles cfg ++ [ends_] /\ ends_ ≡ₚ names) /\
    cfg_clerks c = <[k := names]> (cfg_clerks cfg) /\ ServiceConfig.cfg_endnames c = ServiceConfig.cfg_endnames cfg /\
    cfg_servers c = cfg_servers cfg).
Proof.
  intros Hr Hto Hfr Hdr. unfold makeClient. go. rewrite (rp_n _ _ _ Hr). eapply wp_mono; [by apply wp_make_ends|].
  intros [] c (rn&->&Hea). go. destruct Hfr as (Hlen&Hd&Hf).
  destruct (shuffle_permutes draw (seq 0 (length names)) names) as (sa&Hsa&Hp).
  { intros k Hk%elem_of_seq. split; [lia|]. apply Hdr. lia. }
  eapply wp_lift; [exact Hsa|]. go. set (k := length (cfg_handles cfg)). set (c1 := set_cfg_nextClientId _ _).
  assert (rep n c1 (cut (Clk k) L)) as Hr1.
  { destruct Hr. split; try done.
    - eapply (ends_ok_add n (owned cfg) _ (cnet cfg)); [done|done|done|..].
      + cbn. apply lookup_insert_eq.
      + intros [i|k'] Hne; [done|]. cbn. apply lookup_insert_ne. intros <-. by apply Hne.
    - intros k'. cbn. rewrite lookup_insert_is_Some', length_app. cbn. intros [<-|Hk]; [lia|]. apply rp_clerks in Hk. lia.
    - cbn. unfold server_of. by rewrite (ea_servers _ _ _ _ Hea).
    - cbn. unfold server_of. by rewrite (ea_servers _ _ _ _ Hea). }
  eapply wp_mono; [apply (wp_client_loop n true k to c1 _ Hr1); [|done]|].
  { exists names. apply lookup_insert_eq. }
  intros [] c [(en&->) Hc]. go. split_and!; try done. by exists sa.
Qed.

Lemma deleteClient_rep n k cfg L : rep n cfg L -> wp (deleteClient k) cfg (fun _ c => rep n c L /\
  cfg_clerks c = delete k (cfg_clerks cfg) /\ ServiceConfig.cfg_endnames c = ServiceConfig.cfg_endnames cfg /\
  cfg_servers c = cfg_servers cfg).
Proof.
  intros Hr. unfold deleteClient. go. split; [|done]. destruct Hr as [? ? ? ? [El Ed Ee En] ?]. set (c := set_cfg_clerks _ cfg).
  assert (forall o l, owned c o = Some l -> owned cfg o = Some l) as Hown.
  { intros [i|k'] l; [done|]. cbn. by intros [_ ?]%lookup_delete_Some. }
  assert (forall o j nm, end_in (owned c) o j = Some nm -> end_in (owned cfg) o j = Some nm) as Hend.
  { intros o j nm (l&Hl&Hj)%bind_Some. unfold end_in. by rewrite (Hown _ _ Hl). }
  split; try done.
  - split; eauto.
  - intros k' [l Hl]. apply rp_clerks. exists l. by apply (Hown (Clk k')).
Qed.

(** ** Stopping a server *)

Definition killed_replica (x : Obj) : Obj := default x (snd <$> replica_Kill x).
Lemma Kill_replica (x : Obj) : replica_Kill x = Some (tt, killed_replica x) /\ replica_rf (killed_replica x) = set_dead true (replica_rf x).
Proof. destruct (replica_Kill_rf x) as (x'&E&Hx'). unfold killed_replica. by rewrite E. Qed.

Definition kill_server cfg (i : nat) : list Obj :=
  match cfg_servers cfg !! i with
  | Some (Some r) => alter killed_replica r (ServiceConfig.cfg_objects cfg)
  | _ => ServiceConfig.cfg_objects cfg
  end.
Definition copied_saved cfg (i : nat) : list Saved :=
  match ServiceConfig.cfg_saved cfg !! i with
  | Some sv =>
      match ServiceConfig.saved_contents sv cfg with
      | Some ps => <[i := Owned ps]> (ServiceConfig.cfg_saved cfg)
      | None => ServiceConfig.cfg_saved cfg
      end
  | None => ServiceConfig.cfg_saved cfg
  end.

(** What [ShutdownServer] does after [disconnectUnlocked]. *)
Definition shut cfg (i : nat) : ServiceConfig.config (Obj := Obj) :=
  ServiceConfig.set_cfg_objects (kill_server cfg i) (set_cfg_servers (<[i := None]> (cfg_servers cfg))
    (ServiceConfig.set_cfg_saved (copied_saved cfg i) (with_cnet (DeleteServer (Z.of_nat i) (cnet cfg)) cfg))).

Lemma killed_replica_sound n i (x : Obj) : sound_replica n i x -> sound_replica n i (killed_replica x).
Proof. unfold sound_replica. rewrite (proj2 (Kill_replica x)). apply sound_Kill. Qed.
Lemma killed_replica_good (x : Obj) : wf (replica_rf x) /\ durable (replica_rf x) ->
  wf (replica_rf (killed_replica x)) /\ durable (replica_rf (killed_replica x)).
Proof.
  rewrite (proj2 (Kill_replica x)). intros [Hwf Hd].
  destruct (run_good EvKill (replica_rf x) Hwf Hd I) as (rf'&[= <-]&(?&?&_)&_). done.
Qed.

(** The persister a sound [cfg.saved[i]] holds. *)
Lemma saved_replica n cfg L i sv : rep n cfg L -> ServiceConfig.cfg_saved cfg !! i = Some sv ->
  match ServiceConfig.saved_contents sv cfg with
  | None => sv = Nil
  | Some ps => exists rf, sound (C := C) n i rf /\ persister rf = ps
  end.
Proof.
  intros Hr Hs. pose proof (rp_saved _ _ _ Hr _ _ Hs) as Hsv. destruct sv as [|ps|r]; cbn; [done|done|].
  destruct Hsv as (x&Hx&Hso). rewrite Hx. cbn. by exists (replica_rf x).
Qed.

Lemma kill_server_lookup cfg i r x : ServiceConfig.cfg_objects cfg !! r = Some x ->
  kill_server cfg i !! r = Some x \/ kill_server cfg i !! r = Some (killed_replica x).
Proof.
  intros Hx. unfold kill_server. destruct (cfg_servers cfg !! i) as [[r'|]|]; [|by left..].
  destruct (decide (r = r')) as [->|Hne]; [right; by rewrite list_lookup_alter_eq, Hx|left; by rewrite list_lookup_alter_ne].
Qed.

Lemma length_copied_saved cfg i : length (copied_saved cfg i) = length (ServiceConfig.cfg_saved cfg).
Proof. unfold copied_saved. repeat case_match; rewrite ?length_insert; done. Qed.
Lemma copied_saved_ne cfg i j : j <> i -> copied_saved cfg i !! j = ServiceConfig.cfg_saved cfg !! j.
Proof. intros Hne. unfold copied_saved. repeat case_match; rewrite ?list_lookup_insert_ne by done; done. Qed.
Lemma copied_saved_eq n cfg L i sv : rep n cfg L -> (i < n)%nat -> copied_saved cfg i !! i = Some sv ->
  match sv with Nil => True | Owned ps => exists rf, sound (C := C) n i rf /\ persister rf = ps | Shared _ => False end.
Proof.
  intros Hr Hi. unfold copied_saved. destruct (ServiceConfig.cfg_saved cfg !! i) as [sv0|] eqn:E; [|congruence].
  pose proof (saved_replica _ _ _ _ _ Hr E) as Hso. destruct (ServiceConfig.saved_contents sv0 cfg) as [ps|].
  - rewrite list_lookup_insert_eq by (rewrite (rp_saveds _ _ _ Hr); done). by intros [= <-].
  - rewrite E, Hso. by intros [= <-].
Qed.

Lemma shut_rep n i cfg L : rep n cfg L -> (i < n)%nat -> rep n (shut cfg i) L.
Proof.
  intros Hr Hi. pose proof (rp_servers _ _ _ Hr) as Hls.
  assert (forall j, server_of (cnet (shut cfg i)) (Z.of_nat j) =
    if decide (j = i) then None else server_of (cnet cfg) (Z.of_nat j)) as Hsrv.
  { intros j. unfold server_of. cbn. destruct (decide (j = i)) as [->|]; [by rewrite lookup_insert_eq|by rewrite lookup_insert_ne by lia]. }
  split; try apply Hr.
  - cbn. by rewrite length_insert.
  - cbn. rewrite length_copied_saved. apply Hr.
  - by destruct (rp_ok _ _ _ Hr).
  - intros j r Hj. cbn in Hj. destruct (decide (j = i)) as [->|Hne]; [by rewrite list_lookup_insert_eq in Hj by lia|].
    rewrite list_lookup_insert_ne in Hj by done. rewrite Hsrv, decide_False by done. cbn.
    rewrite copied_saved_ne by done. by apply (rp_up _ _ _ Hr).
  - intros j Hj. rewrite Hsrv. destruct (decide (j = i)) as [->|Hne]; [done|]. cbn in Hj.
    rewrite list_lookup_insert_ne in Hj by done. by apply (rp_down _ _ _ Hr).
  - intros j sv Hj. cbn in Hj. destruct (decide (j = i)) as [->|Hne].
    + pose proof (copied_saved_eq _ _ _ _ _ Hr Hi Hj). by destruct sv.
    + rewrite copied_saved_ne in Hj by done. pose proof (rp_saved _ _ _ Hr _ _ Hj) as Hsv. destruct sv as [| |r]; [done|done|].
      destruct Hsv as (x&Hx&Hso). cbn. destruct (kill_server_lookup cfg i r x Hx) as [-> | ->]; [by exists x|].
      eexists. split; [done|by apply killed_replica_sound].
  - intros r x. cbn. unfold kill_server. destruct (cfg_servers cfg !! i) as [[r'|]|]; [|apply (rp_objects _ _ _ Hr)..].
    destruct (decide (r = r')) as [->|]; [|rewrite list_lookup_alter_ne by done; by apply (rp_objects _ _ _ Hr r)].
    rewrite list_lookup_alter_eq. intros (x0&Hx0&->)%fmap_Some. apply killed_replica_good. by apply (rp_objects _ _ _ Hr r').
Qed.

(** [shutdown_links]: server [i] is isolated from the other servers; clerks may still
    have their ends to it enabled. *)
Definition shutdown_links n i L : Links := set_links (pairs i (seq 0 n)) false L.

Lemma wp_shut n i cfg L : rep n cfg L -> (i < n)%nat ->
  wp (do! ServiceConfig.on_net (DeleteServer (Z.of_nat i));
      let! cfg := get in
      let! sv := lift (slice_get (ServiceConfig.cfg_saved cfg) (Z.of_nat i)) in
      do! match ServiceConfig.saved_contents sv cfg with
          | Some ps => ServiceConfig.assign ServiceConfig.cfg_saved ServiceConfig.set_cfg_saved (Z.of_nat i) (Owned (Copy ps))
          | None => ret tt
          end;
      let! cfg := get in
      let! kv := lift (slice_get (cfg_servers cfg) (Z.of_nat i)) in
      match kv with
      | Some r =>
          let! x := lift (ServiceConfig.cfg_objects cfg !! r) in
          let! p := lift (replica_Kill x) in
          do! modify (ServiceConfig.set_cfg_objects (<[r := p.2]> (ServiceConfig.cfg_objects cfg)));
          ServiceConfig.assign cfg_servers set_cfg_servers (Z.of_nat i) None
      | None => ret tt
      end) cfg (fun _ c => c = shut cfg i).
Proof.
  intros Hr Hi. destruct (lookup_range (ServiceConfig.cfg_saved cfg) i) as (sv&Hsv&_); [by rewrite (rp_saveds _ _ _ Hr)|].
  destruct (lookup_range (cfg_servers cfg) i) as (kv&Hkv&_); [by rewrite (rp_servers _ _ _ Hr)|].
  unfold ServiceConfig.on_net. go. set (cfg1 := ServiceConfig.set_cfg_world _ cfg).
  eapply wp_lookup_name; [exact Hsv|]. assert (ServiceConfig.saved_contents sv cfg1 = ServiceConfig.saved_contents sv cfg) as -> by (by destruct sv).
  apply wp_bind. eapply wp_mono with (P := fun _ c => c = ServiceConfig.set_cfg_saved (copied_saved cfg i) cfg1).
  { unfold copied_saved. rewrite Hsv. destruct (ServiceConfig.saved_contents sv cfg) as [ps|].
    - apply wp_assign_slice; [cbn; by rewrite (rp_saveds _ _ _ Hr)|]. by rewrite Copy_id.
    - go. unfold cfg1. by destruct cfg. }
  intros [] c ->. go. eapply wp_lookup_name; [exact Hkv|]. unfold shut, kill_server. rewrite Hkv. destruct kv as [r|].
  - destruct (rp_up _ _ _ Hr _ _ Hkv) as (Hs&_). destruct (rp_saved _ _ _ Hr _ _ Hs) as (x&Hx&_).
    go. eapply wp_lift; [exact Hx|]. go. eapply wp_lift; [apply Kill_replica|]. go.
    apply wp_assign_slice; [cbn; by rewrite (rp_servers _ _ _ Hr)|]. by rewrite (alter_insert _ _ _ _ Hx).
  - go. rewrite (list_insert_id _ _ _ Hkv). by destruct cfg.
Qed.

Lemma wp_ShutdownServer n i cfg L : all_up n cfg L -> (i < n)%nat ->
  wp (ShutdownServer (Z.of_nat i)) cfg (fun _ c => exists c1, relinked n cfg (shutdown_links n i L) c1 /\ c = shut c1 i).
Proof.
  intros Hu Hi. unfold ShutdownServer. apply wp_bind, wp_get. unfold All. rewrite (rp_n _ _ _ (proj1 Hu)).
  apply wp_bind. eapply wp_mono; [apply (wp_disconnectUnlocked n i (seq 0 n) cfg L Hu Hi)|].
  { apply Forall_forall. intros j Hj%elem_of_seq. lia. } { by rewrite length_seq. }
  intros [] c1 Hc1. eapply wp_mono; [exact (wp_shut n i c1 _ (proj2 Hc1) Hi)|]. intros [] c ->. by exists c1.
Qed.

(** ** Starting a server *)

Definition server_object (r : nat) : Server :=
  AddService (MakeService (mkReceiver r "Raft" raftMethods))
    (AddService (MakeService (mkReceiver r replica_type methods)) MakeServer).

(** [x] is the new server, [rn] the network with the new ends. *)
Definition launched cfg (i : nat) (names : list string) (rn : Net) (x : Obj) : ServiceConfig.config (Obj := Obj) :=
  let r := length (ServiceConfig.cfg_objects cfg) in
  let w := ServiceConfig.cfg_world cfg in
  ServiceConfig.mkConfig
    (mkWorld (AddServer (Z.of_nat i) (length (w_servers w)) rn) (w_servers w ++ [server_object r])
       (w_looping w) (w_calls w))
    (ServiceConfig.cfg_n cfg) (<[i := Some r]> (cfg_servers cfg)) (<[i := Shared r]> (ServiceConfig.cfg_saved cfg))
    (<[i := Some names]> (ServiceConfig.cfg_endnames cfg)) (cfg_clerks cfg) (cfg_handles cfg) (cfg_nextClientId cfg)
    (ServiceConfig.cfg_objects cfg ++ [x]).

Lemma launched_rep n cfg L i names rn x : rep n cfg L -> (i < n)%nat -> fresh_strings n names (cnet cfg) ->
  ends_added names n (cnet cfg) rn -> sound_replica n i x ->
  rep n (launched cfg i names rn x) (cut (Srv i) L).
Proof.
  intros Hr Hi Hfr Hea Hso.
  assert (forall j, server_of (cnet (launched cfg i names rn x)) (Z.of_nat j) =
    if decide (j = i) then Some (length (w_servers (ServiceConfig.cfg_world cfg))) else server_of (cnet cfg) (Z.of_nat j)) as Hsrv.
  { intros j. unfold server_of. cbn. rewrite (ea_servers _ _ _ _ Hea). destruct (decide (j = i)) as [->|];
      [by rewrite lookup_insert_eq|by rewrite lookup_insert_ne by lia]. }
  split; try apply Hr; cbn; rewrite ?length_insert; try apply Hr.
  - apply (ends_ok_net n _ rn); [done..|]. eapply (ends_ok_add n (owned cfg) _ (cnet cfg)); [apply Hr|done|done|..].
    + cbn. by rewrite list_lookup_insert_eq by (by rewrite (rp_endnames _ _ _ Hr)).
    + intros [j|k] Hne; [|done]. cbn. rewrite list_lookup_insert_ne by congruence. done.
  - intros a r Ha. destruct (decide (a = i)) as [->|Hne].
    + rewrite list_lookup_insert_eq in Ha by (by rewrite (rp_servers _ _ _ Hr)). injection Ha as <-.
      split; [by rewrite list_lookup_insert_eq by (by rewrite (rp_saveds _ _ _ Hr))|].
      eexists _, (server_object _), _, _. rewrite Hsrv, decide_True by done. split; [done|]. rewrite list_lookup_middle by done.
      split; [done|]. cbn. rewrite lookup_insert_ne by (apply not_eq_sym, replica_not_Raft).
      split; [apply lookup_insert_eq|]. split; [done|]. split; [apply lookup_insert_eq|done].
    + rewrite list_lookup_insert_ne in Ha by done. rewrite list_lookup_insert_ne by done.
      destruct (rp_up _ _ _ Hr _ _ Ha) as (?&p&srv&sv&sv'&?&Hp&?). split; [done|]. exists p, srv, sv, sv'.
      rewrite Hsrv, decide_False by done. split; [done|]. split; [by apply lookup_app_l_Some|done].
  - intros a Ha. rewrite Hsrv. destruct (decide (a = i)) as [->|Hne].
    + by rewrite list_lookup_insert_eq in Ha by (by rewrite (rp_servers _ _ _ Hr)).
    + rewrite list_lookup_insert_ne in Ha by done. by apply (rp_down _ _ _ Hr).
  - intros a sv [(<-&<-&_)|[_ Ha]]%list_lookup_insert_Some.
    + exists x. split; [by apply list_lookup_middle|done].
    + pose proof (rp_saved _ _ _ Hr _ _ Ha) as Hsv. destruct sv as [| |r]; [done|done|].
      destruct Hsv as (x'&Hx'&?). exists x'. split; [by apply lookup_app_l_Some|done].
  - intros r x0 [Hr0|[_ Hr0]]%lookup_app_Some; [by apply (rp_objects _ _ _ Hr r)|].
    apply list_lookup_singleton_Some in Hr0 as [_ <-]. destruct Hso as (?&?&_). done.
Qed.

Definition replica_storage cfg (i : nat) : Persister :=
  match ServiceConfig.cfg_saved cfg !! i with
  | Some sv => default MakePersister (ServiceConfig.saved_contents sv cfg)
  | None => MakePersister
  end.

(** A server started on what the tester has saved for [i] comes up, with the persisted
    state of the last instance. *)
Lemma storage_start n cfg L i : rep n cfg L -> (i < n)%nat -> exists x rf,
  replica_start n (Z.of_nat i) (replica_storage cfg i) = Some x /\ replica_rf x = rf /\
  Make n (Z.of_nat i) (replica_storage cfg i) = Some rf /\ sound_replica n i x.
Proof.
  intros Hr Hi. assert (exists rf, Make (C := C) n (Z.of_nat i) (replica_storage cfg i) = Some rf /\ sound n i rf) as (rf&HM&Hso).
  { unfold replica_storage. destruct (ServiceConfig.cfg_saved cfg !! i) as [sv|] eqn:E; [|by apply fresh_Make].
    pose proof (saved_replica _ _ _ _ _ Hr E) as Hsv. destruct (ServiceConfig.saved_contents sv cfg) as [ps|]; [|by apply fresh_Make].
    destruct Hsv as (rf&Hso&<-). cbn. destruct (sound_Make n i rf Hso) as (rf'&?&?&_). eauto. }
  destruct (replica_start_Make _ _ _ _ HM) as (x&Hx&<-). by exists x, (replica_rf x).
Qed.

Lemma wp_StartServer n i names cfg L : rep n cfg L -> (i < n)%nat -> fresh_strings n names (cnet cfg) ->
  wp (StartServer methods raftMethods (Z.of_nat i) names) cfg (fun _ c => exists rn x,
    c = launched cfg i names rn x /\ rep n c (cut (Srv i) L) /\ ends_added names n (cnet cfg) rn /\
    Make n (Z.of_nat i) (replica_storage cfg i) = Some (replica_rf x)).
Proof.
  intros Hr Hi Hfr. unfold StartServer. go. apply wp_assign_slice; [by rewrite (rp_endnames _ _ _ Hr)|]. go.
  cbn [ServiceConfig.cfg_n ServiceConfig.set_cfg_endnames]. rewrite (rp_n _ _ _ Hr).
  eapply wp_mono; [apply (wp_make_ends n names); exact Hfr|]. intros [] c (rn&->&Hea). go.
  destruct (lookup_range (ServiceConfig.cfg_saved cfg) i) as (sv&Hsv&_); [by rewrite (rp_saveds _ _ _ Hr)|].
  eapply wp_lookup_name; [exact Hsv|]. go. destruct (storage_start n cfg L i Hr Hi) as (x&rf&Hx&<-&HM&Hso).
  eapply wp_lift with (a := x).
  { cbn. rewrite (rp_n _ _ _ Hr), <-Hx. unfold replica_storage. rewrite Hsv.
    match goal with |- context [ServiceConfig.saved_contents sv ?c] => assert (ServiceConfig.saved_contents sv c = ServiceConfig.saved_contents sv cfg) as -> by (by destruct sv) end.
    f_equal. destruct (ServiceConfig.saved_contents sv cfg); cbn; by rewrite ?Copy_id. }
  go. apply wp_assign_slice; [cbn; by rewrite (rp_saveds _ _ _ Hr)|]. go.
  apply wp_assign_slice; [cbn; by rewrite (rp_servers _ _ _ Hr)|]. unfold ServiceConfig.on_net. go.
  exists rn, x. split; [done|]. split_and!; [|done|done]. exact (launched_rep n cfg L i names rn x Hr Hi Hfr Hea Hso).
Qed.
End life.
