(* ===== verification/ServiceConfigProps.v ===== *)
(** * The network of a service under test

    After [make_config], whatever the tester does, its operations succeed and a request is
    delivered exactly when the link between its sender and the server is up and the
    server runs ([service_tester_network]); [make_partition] and [partition] put the
    leader with a minority that cannot talk to the rest ([make_partition_isolates]). *)
From Stdlib Require Import Strings.Byte.
From S2P Require Import Prelude Labgob Persister RaftTypes RaftNode RaftLog RaftSpec RaftSnapshot RaftInv Labrpc RaftConfig RaftConfigNet ServiceConfig ServiceConfigNet ServiceConfigLife.

Section props.
Context {Obj C : Type} `{Gob Z} `{Gob (list (Entry C))} `{Rand} `{Alloc} `{Replica Obj C} `{!ReplicaLaws Obj C}.
Context `{!GobLaws Z} `{!GobLaws (list (Entry C))} `{Values} (methods raftMethods : list Method).
Implicit Types (cfg c : ServiceConfig.config (Obj := Obj)) (L : Links) (o : Owner).

(** ** make_config *)

(** The servers of [pre] have been started with their names. *)
Record booting n (names : nat -> list string) (pre : list nat) cfg : Prop := {
  bo_rep : exists L, rep n cfg L;
  bo_ends nm : is_Some (ends (cnet cfg) !! nm) -> exists i, i ∈ pre /\ nm ∈ names i;
  bo_up i : i ∈ pre -> running cfg i /\ exists r, cfg_servers cfg !! i = Some (Some r);
  bo_clerks : cfg_clerks cfg = ∅
}.

Lemma new_config_booting n names : booting n names [] (ServiceConfig.new_config (Obj := Obj) n).
Proof.
  assert (forall o, owned (ServiceConfig.new_config (Obj := Obj) n) o = None) as Hown.
  { intros [i|k]; cbn; [|apply lookup_empty]. destruct (replicate n (@None (list string)) !! i) as [x|] eqn:E; [|done].
    apply lookup_replicate in E as [-> _]. done. }
  assert (forall o j nm, end_in (owned (ServiceConfig.new_config (Obj := Obj) n)) o j = Some nm -> False) as Hend.
  { intros o j nm. unfold end_in. by rewrite Hown. }
  split.
  - exists (fun _ _ => false). split; cbn; rewrite ?length_replicate; try done.
    + split; [by intros o l; rewrite Hown|..]; intros; exfalso; eauto.
    + intros k. rewrite lookup_empty. by intros [? [=]].
    + intros i r [[=] _]%lookup_replicate.
    + intros i sv [-> _]%lookup_replicate. done.
  - intros nm. cbn. rewrite lookup_empty. by intros [? [=]].
  - by intros i []%not_elem_of_nil.
  - done.
Qed.

Lemma start_booting n names pre i cfg : distinct_names n names -> (i < n)%nat -> i ∉ pre ->
  booting n names pre cfg ->
  wp (StartServer methods raftMethods (Z.of_nat i) (names i)) cfg (fun _ => booting n names (pre ++ [i])).
Proof.
  intros [Hnames Hdis] Hi Hpre [(L&Hr) Hends Hup Hck]. destruct (Hnames i) as [Hlen Hd].
  eapply wp_mono; [apply (wp_StartServer _ _ n i (names i) cfg L Hr Hi)|].
  { split_and!; [done|done|]. intros nm Hnm. destruct (ends (cnet cfg) !! nm) eqn:E; [|done].
    destruct (Hends nm) as (k&Hk&Hnm'); [by eexists|]. by rewrite (Hdis _ _ _ Hnm Hnm') in Hpre. }
  intros [] c (rn&x&->&Hr'&Hea&_). split; [by eexists|..| done].
  - intros nm. cbn. rewrite (ea_ends _ _ _ _ Hea), <-Hlen, firstn_all. intros [Hin|Hin].
    + destruct (Hends nm Hin) as (k&?&?). exists k. set_solver.
    + exists i. set_solver.
  - intros k. unfold running. cbn. destruct (decide (k = i)) as [->|Hne].
    + intros _. rewrite !list_lookup_insert_eq by (by rewrite ?(rp_endnames _ _ _ Hr), ?(rp_servers _ _ _ Hr)). eauto.
    + intros Hk. rewrite !list_lookup_insert_ne by done. apply Hup. set_solver.
Qed.

Lemma make_config_links n unreliable names : distinct_names n names -> exists cfg L,
  make_config methods raftMethods n unreliable names = Some cfg /\ all_up n cfg L /\
  (forall i j, (i < n)%nat -> (j < n)%nat -> L (Srv i) j = true) /\ cfg_clerks cfg = ∅ /\
  forall i, (i < n)%nat -> exists r, cfg_servers cfg !! i = Some (Some r).
Proof.
  intros Hnames. unfold make_config.
  match goal with |- exists cfg L, snd <$> ?m _ = _ /\ _ => enough (wp m (ServiceConfig.new_config n) (fun _ cfg => exists L,
    all_up n cfg L /\ (forall i j, (i < n)%nat -> (j < n)%nat -> L (Srv i) j = true) /\ cfg_clerks cfg = ∅ /\
    forall i, (i < n)%nat -> exists r, cfg_servers cfg !! i = Some (Some r))) as Hw end.
  { apply wp_runs in Hw as ([]&cfg&->&L&Hw). by exists cfg, L. }
  go. eapply wp_mono; [apply (wp_forM _ _ (booting n names)); [apply new_config_booting|]|].
  { intros pre i c (post&E) Hb. destruct (seq_split _ _ _ _ E). by apply start_booting. }
  intros [] c [(L&Hr) _ Hup Hck]. assert (forall i, (i < n)%nat -> i ∈ seq 0 n) as Hin by (intros; apply elem_of_seq; lia).
  apply wp_bind. eapply wp_mono; [apply (wp_ConnectAll n c L); split; [done|]; intros i Hi; by apply Hup, Hin|].
  intros [] c' (L'&[(en&->) Hc']&Hon&_). unfold ServiceConfig.on_net. go. exists L'. split_and!; [|done|done|].
  - split; [|intros i Hi; by apply Hup, Hin]. destruct Hc' as [? ? ? ? [? ? ? ?] ? ? ? ? ?]. by split.
  - intros i Hi. by apply Hup, Hin.
Qed.

(** ** Operations *)

(** What the tester, and the servers on their own, do. *)
Inductive TesterOp :=
  | TConnect (i : nat) (to : list nat)
  | TDisconnect (i : nat) (from : list nat)
  | TPartition (p1 p2 : list nat)
  | TClient (to : list nat) (names : list string) (draw : nat -> Z)
  | TDelete (k : nat)
  | TConnectClient (k : nat) (to : list nat)
  | TDisconnectClient (k : nat) (from : list nat)
  | TShutdown (i : nat)
  | TStart (i : nat) (names : list string)
  | TServer (r : nat) (ev : RaftInv.Event C) (x' : Obj).

Definition top_ok n (op : TesterOp) cfg : Prop :=
  match op with
  | TConnect i to => (i < n)%nat /\ below n to
  | TDisconnect i from => (i < n)%nat /\ below n from /\ (length from <= n)%nat
  | TPartition p1 p2 => below n p1 /\ below n p2 /\ NoDup (p1 ++ p2) /\ (length p1 <= n)%nat /\ (length p2 <= n)%nat
  | TClient to names draw => below n to /\ fresh_strings n names (cnet cfg) /\ draws_ok n draw
  | TDelete _ => True
  | TConnectClient k to | TDisconnectClient k to => is_Some (cfg_clerks cfg !! k) /\ below n to
  | TShutdown i => (i < n)%nat
  | TStart i names => (i < n)%nat /\ fresh_strings n names (cnet cfg)
  | TServer r ev x' => exists x, ServiceConfig.cfg_objects cfg !! r = Some x /\ ev <> EvRestart /\ ok ev (replica_rf x) /\
      RaftInv.run ev (replica_rf x) = Some (replica_rf x')
  end.

Definition run_top (op : TesterOp) cfg : option (ServiceConfig.config (Obj := Obj)) :=
  match op with
  | TConnect i to => snd <$> ServiceConfig.connect (Z.of_nat i) (Z.of_nat <$> to) cfg
  | TDisconnect i from => snd <$> ServiceConfig.disconnect (Z.of_nat i) (Z.of_nat <$> from) cfg
  | TPartition p1 p2 => snd <$> partition (Z.of_nat <$> p1) (Z.of_nat <$> p2) cfg
  | TClient to names draw => snd <$> makeClient (Z.of_nat <$> to) names draw cfg
  | TDelete k => snd <$> deleteClient k cfg
  | TConnectClient k to => snd <$> ConnectClient k (Z.of_nat <$> to) cfg
  | TDisconnectClient k from => snd <$> DisconnectClient k (Z.of_nat <$> from) cfg
  | TShutdown i => snd <$> ShutdownServer (Z.of_nat i) cfg
  | TStart i names => snd <$> StartServer methods raftMethods (Z.of_nat i) names cfg
  | TServer r _ x' => Some (ServiceConfig.set_cfg_objects (<[r := x']> (ServiceConfig.cfg_objects cfg)) cfg)
  end.

(** The same operations on links. *)
Definition link_op n (op : TesterOp) cfg L : Links :=
  match op with
  | TConnect i to => set_links (pairs i to) true L
  | TDisconnect i from => set_links (pairs i from) false L
  | TPartition p1 p2 => partition_links p1 p2 L
  | TClient to _ _ => let k := length (cfg_handles cfg) in set_links (clerk_pairs k to) true (cut (Clk k) L)
  | TConnectClient k to => set_links (clerk_pairs k to) true L
  | TDisconnectClient k from => set_links (clerk_pairs k from) false L
  | TShutdown i => shutdown_links n i L
  | TStart i _ => cut (Srv i) L
  | TDelete _ | TServer _ _ _ => L
  end.

Lemma server_moves n r ev x x' cfg L : rep n cfg L -> ServiceConfig.cfg_objects cfg !! r = Some x -> ev <> EvRestart ->
  ok ev (replica_rf x) -> RaftInv.run ev (replica_rf x) = Some (replica_rf x') ->
  rep n (ServiceConfig.set_cfg_objects (<[r := x']> (ServiceConfig.cfg_objects cfg)) cfg) L.
Proof.
  intros Hr Hx Hne Hok Hrun. destruct (rp_objects _ _ _ Hr _ _ Hx) as [Hwf Hd].
  destruct (run_good ev _ Hwf Hd Hok) as (rf1&Hr1&(Hwf'&Hd'&_&Hme&Hpe)&_). rewrite Hrun in Hr1. injection Hr1 as <-.
  split; try apply Hr.
  - intros i sv Hi. cbn in Hi. pose proof (rp_saved _ _ _ Hr _ _ Hi) as Hsv. destruct sv as [| |r']; [done|done|].
    destruct Hsv as (x0&Hx0&Hso). cbn. destruct (decide (r = r')) as [->|Hner].
    + exists x'. rewrite list_lookup_insert_eq by (by eapply lookup_lt_Some). split; [done|].
      simplify_eq. destruct Hso as (_&_&?&?). unfold sound_replica, sound. split_and!; congruence || done.
    + exists x0. by rewrite list_lookup_insert_ne.
  - intros r' x0. cbn. intros [(_&<-&_)|[_ Hr']]%list_lookup_insert_Some; [done|]. by apply (rp_objects _ _ _ Hr r').
Qed.

Lemma running_same n cfg c L : ServiceConfig.cfg_endnames c = ServiceConfig.cfg_endnames cfg ->
  (forall i, (i < n)%nat -> running cfg i) -> rep n c L -> all_up n c L.
Proof. intros E Hu Hr. split; [done|]. intros i Hi. unfold running. cbn. rewrite E. by apply Hu. Qed.

Lemma wp_top {A} (m : M (ServiceConfig.config (Obj := Obj)) A) cfg (P : ServiceConfig.config (Obj := Obj) -> Prop) :
  wp m cfg (fun _ => P) -> exists cfg', snd <$> m cfg = Some cfg' /\ P cfg'.
Proof. intros (a&cfg'&->&HP)%wp_runs. by exists cfg'. Qed.

Lemma top_up n op cfg L : all_up n cfg L -> top_ok n op cfg ->
  exists cfg', run_top op cfg = Some cfg' /\ all_up n cfg' (link_op n op cfg L).
Proof.
  intros Hup Hok. destruct (Hup) as [Hr Hu]. assert (forall c L', relinked n cfg L' c -> all_up n c L') as Hre.
  { intros c L'. by apply relinked_up. }
  destruct op as [i to|i from|p1 p2|to names draw|k|k to|k from|i|i names|r ev x']; cbn [run_top top_ok link_op] in *.
  - apply wp_top. eapply wp_mono; [apply (wp_connectUnlocked n i to cfg L); tauto|]. intros [] c. apply Hre.
  - apply wp_top. eapply wp_mono; [apply (wp_disconnectUnlocked n i from cfg L); tauto|]. intros [] c. apply Hre.
  - destruct Hok as (?&?&(_&Hd&_)%NoDup_app&?&?). apply wp_top.
    eapply wp_mono; [by apply (wp_partition n p1 p2 cfg L)|]. intros [] c. apply Hre.
  - apply wp_top. eapply wp_mono; [apply (wp_makeClient n to names draw cfg L); tauto|].
    intros k c (->&Hc&_&_&E&_). by eapply running_same.
  - apply wp_top. eapply wp_mono; [by apply deleteClient_rep|]. intros [] c (Hc&_&E&_). by eapply running_same.
  - apply wp_top. eapply wp_mono; [apply (wp_ConnectClient n k to cfg L); tauto|]. intros [] c. apply Hre.
  - apply wp_top. eapply wp_mono; [apply (wp_DisconnectClient n k from cfg L); tauto|]. intros [] c. apply Hre.
  - apply wp_top. eapply wp_mono; [by apply wp_ShutdownServer|]. intros [] c (c1&Hc1&->).
    destruct (Hre _ _ Hc1) as [Hr1 Hu1]. eapply (running_same _ c1); [done|done|by apply shut_rep].
  - destruct Hok as [Hi Hfr]. apply wp_top. eapply wp_mono; [by apply (wp_StartServer _ _ n i names cfg L)|].
    intros [] c (rn&x&->&Hc&_). split; [done|]. intros k Hk. unfold running. cbn. destruct (decide (k = i)) as [->|].
    + rewrite list_lookup_insert_eq by (by rewrite (rp_endnames _ _ _ Hr)). by eexists.
    + rewrite list_lookup_insert_ne by done. by apply Hu.
  - destruct Hok as (x&?&?&?&?). eexists. split; [done|]. eapply running_same; [done|done|by eapply server_moves].
Qed.

Definition tester_step n (s s' : ServiceConfig.config (Obj := Obj) * Links) : Prop :=
  exists op, top_ok n op s.1 /\ run_top op s.1 = Some s'.1 /\ s'.2 = link_op n op s.1 s.2.

Lemma tester_steps_up n s s' : all_up n s.1 s.2 -> rtc (tester_step n) s s' -> all_up n s'.1 s'.2.
Proof.
  intros Hup Hs. induction Hs as [|s s1 s' (op&Hok&Hr&HL) _ IH]; [done|]. apply IH. rewrite HL.
  destruct (top_up n op s.1 s.2 Hup Hok) as (c&Hc&?). congruence.
Qed.

(** What becomes of a request sent through the end [nm] towards server [j] when the link
    is up or down. *)
Definition routed cfg (up : bool) (j : nat) (nm : string) : Prop :=
  match readEndnameInfo (cnet cfg) nm with
  | Some info => up = true /\ exists r srv sv sv',
      cfg_servers cfg !! j = Some (Some r) /\ w_servers (ServiceConfig.cfg_world cfg) !! i_server info = Some srv /\
      services srv !! replica_type = Some sv /\ sv_rcvr sv = r /\
      services srv !! "Raft"%string = Some sv' /\ sv_rcvr sv' = r
  | None => up = false \/ cfg_servers cfg !! j = Some None
  end.

Lemma rep_routed n cfg L o j nm : rep n cfg L -> end_in (owned cfg) o j = Some nm -> routed cfg (L o j) j nm.
Proof.
  intros Hr Hnm. assert (j < n)%nat as Hj.
  { apply bind_Some in Hnm as (l&Hl&Hj%lookup_lt_Some). by rewrite (eo_len _ _ _ _ (rp_ok _ _ _ Hr) _ _ Hl) in Hj. }
  unfold routed, readEndnameInfo. rewrite (eo_enabled _ _ _ _ (rp_ok _ _ _ Hr) _ _ _ Hnm).
  destruct (eo_ends _ _ _ _ (rp_ok _ _ _ Hr) _ _ _ Hnm) as [_ ->]. destruct (L o j); [|by left].
  destruct (lookup_range (cfg_servers cfg) j) as ([r|]&Hs&_); [by rewrite (rp_servers _ _ _ Hr)|..].
  - destruct (rp_up _ _ _ Hr _ _ Hs) as (_&p&srv&sv&sv'&->&?&?&?&?&?). cbn. split; [done|]. by exists r, srv, sv, sv'.
  - rewrite (rp_down _ _ _ Hr _ Hs). by right.
Qed.

(** C33: The testers of the services refine a relation of links. With random names that differ,
    [make_config] succeeds with every server linked to every other. From then on, with
    servers running in between, each operation succeeds and does to the links what
    [link_op] says (two-way links between servers, one-way links of clerks, none of a
    server that has been shut down or has just been started); and a request of a server
    or a clerk to server [j] is delivered exactly when its link is up and [j] runs, to
    the services of its current instance. *)
Theorem service_tester_network n unreliable names : distinct_names n names ->
  exists cfg0 L0, make_config methods raftMethods n unreliable names = Some cfg0 /\
    (forall i j, (i < n)%nat -> (j < n)%nat -> L0 (Srv i) j = true) /\
    forall cfg L, rtc (tester_step n) (cfg0, L0) (cfg, L) ->
      (forall op, top_ok n op cfg -> is_Some (run_top op cfg)) /\
      (forall i j, (i < n)%nat -> (j < n)%nat -> is_Some (end_in (owned cfg) (Srv i) j)) /\
      forall o j nm, end_in (owned cfg) o j = Some nm -> routed cfg (L o j) j nm.
Proof.
  intros Hnames. destruct (make_config_links n unreliable names Hnames) as (cfg0&L0&Hm&Hup&Hon&_). exists cfg0, L0.
  split_and!; [done|done|]. intros cfg L Hs. pose proof (tester_steps_up n (cfg0, L0) (cfg, L) Hup Hs) as [Hr Hu]. split_and!.
  - intros op Hok. destruct (top_up n op cfg L) as (c&->&_); [by split|done|by eexists].
  - intros i j Hi Hj. eapply end_of_Some; [exact Hr|by apply Hu|done].
  - intros o j nm. by apply (rep_routed n).
Qed.

(** ** make_partition *)

(** The servers other than [l], in order; filled into two arrays. *)
Definition others (l : nat) (ks : list nat) : list nat := filter (fun i => i <> l) ks.

Definition filled (m1 m2 : nat) (xs : list nat) : list Z * list Z :=
  ((Z.of_nat <$> take m1 xs) ++ replicate (m1 - length xs) 0,
   (Z.of_nat <$> drop m1 xs) ++ replicate (m2 - (length xs - m1)) 0).

Lemma filled_len m1 m2 xs : length (filled m1 m2 xs).1 = m1.
Proof. cbn. rewrite length_app, length_fmap, length_take, length_replicate. lia. Qed.

Lemma filled_nil m1 m2 : filled m1 m2 [] = (replicate m1 0, replicate m2 0).
Proof. unfold filled. rewrite take_nil, drop_nil. cbn. by rewrite !Nat.sub_0_r. Qed.

Lemma set_next k (xs : list Z) x : (0 < k)%nat ->
  slice_set (xs ++ replicate k 0) (len xs) x = Some ((xs ++ [x]) ++ replicate (k - 1) 0).
Proof.
  intros Hk. rewrite slice_set_Some by (rewrite length_app, length_replicate; lia). f_equal. rewrite Nat2Z.id.
  destruct k as [|k]; [lia|]. cbn. rewrite Nat.sub_0_r, <-app_assoc, insert_app_r_alt, Nat.sub_diag by lia. done.
Qed.

Lemma filled_first m1 m2 xs i : (length xs < m1)%nat ->
  slice_set (filled m1 m2 xs).1 (len xs) (Z.of_nat i) = Some (filled m1 m2 (xs ++ [i])).1 /\
  (filled m1 m2 (xs ++ [i])).2 = (filled m1 m2 xs).2.
Proof.
  intros Hlt. unfold filled. cbn. rewrite length_app, !take_ge, !drop_ge by (rewrite ?length_app; cbn; lia). cbn. split.
  - pose proof (set_next (m1 - length xs) (Z.of_nat <$> xs) (Z.of_nat i)) as Hs. rewrite length_fmap in Hs.
    rewrite Hs by lia. rewrite fmap_app. cbn. do 3 f_equal. lia.
  - do 2 f_equal. lia.
Qed.

Lemma filled_second m1 m2 xs i : (m1 <= length xs)%nat -> (length xs < m1 + m2)%nat ->
  slice_set (filled m1 m2 xs).2 (len xs - Z.of_nat m1) (Z.of_nat i) = Some (filled m1 m2 (xs ++ [i])).2 /\
  (filled m1 m2 (xs ++ [i])).1 = (filled m1 m2 xs).1.
Proof.
  intros Hle Hlt. unfold filled. cbn. rewrite length_app. split.
  - pose proof (set_next (m2 - (length xs - m1)) (Z.of_nat <$> drop m1 xs) (Z.of_nat i)) as Hs.
    rewrite length_fmap, length_drop, Nat2Z.inj_sub in Hs by done. rewrite Hs by lia. rewrite drop_app_le, fmap_app by done. cbn.
    do 3 f_equal. lia.
  - rewrite take_app_le by done. cbn. do 2 f_equal. lia.
Qed.

Lemma split_servers_filled (l : nat) m1 m2 ks xs : (length xs + length (others l ks) <= m1 + m2)%nat ->
  split_servers (Z.of_nat l) ks (filled m1 m2 xs).1 (filled m1 m2 xs).2 (len xs) = Some (filled m1 m2 (xs ++ others l ks)).
Proof.
  revert xs. induction ks as [|i ks IH]; intros xs Hlen; [cbn [split_servers]; change (others l []) with (@nil nat); by rewrite app_nil_r|].
  cbn [split_servers]. unfold others in *. rewrite filter_cons in *. destruct (decide (i = l)) as [->|Hne].
  { rewrite (decide_False (P := l <> l)) in * by tauto. rewrite decide_False by lia. by apply IH. }
  rewrite (decide_True (P := i <> l)) in * by done. rewrite decide_True by lia. cbn [length] in Hlen.
  assert (xs ++ i :: filter (fun i => i <> l) ks = (xs ++ [i]) ++ filter (fun i => i <> l) ks) as -> by (by rewrite <-app_assoc).
  assert (len xs + 1 = len (xs ++ [i])) as -> by (rewrite length_app; cbn; lia).
  rewrite filled_len. destruct (decide (len xs < Z.of_nat m1)) as [Hlt|Hge].
  - destruct (filled_first m1 m2 xs i) as [-> <-]; [lia|]. cbn. apply IH. rewrite length_app. cbn. lia.
  - destruct (filled_second m1 m2 xs i) as [-> <-]; [lia|lia|]. cbn. apply IH. rewrite length_app. cbn. lia.
Qed.

Lemma others_perm l n : (l < n)%nat -> others l (seq 0 n) ++ [l] ≡ₚ seq 0 n.
Proof.
  intros Hl. apply NoDup_Permutation.
  - apply NoDup_app. split_and!; [apply NoDup_filter, NoDup_seq| |apply NoDup_singleton].
    intros x [Hx _]%list_elem_of_filter Hx'%list_elem_of_singleton. done.
  - apply NoDup_seq.
  - intros x. unfold others. rewrite elem_of_app, list_elem_of_filter, list_elem_of_singleton, elem_of_seq.
    destruct (decide (x = l)); [subst|]; split; intros; [lia|by right|lia|left; split; [done|lia]].
Qed.

(** With an odd number of servers: the majority, and the rest with [l] at the end. *)
Lemma make_partition_odd skip n (view : nat -> ServiceConfig.config (Obj := Obj)) b l : Nat.odd n = true -> (3 <= n)%nat ->
  (l < n)%nat -> Leader skip n view = Some (b, Z.of_nat l) ->
  exists p1 p2, make_partition skip n view = Some (Z.of_nat <$> p1, Z.of_nat <$> p2 ++ [l]) /\
    p1 ++ p2 ++ [l] ≡ₚ seq 0 n /\ length p1 = (n / 2 + 1)%nat /\ length (p2 ++ [l]) = (n / 2)%nat.
Proof.
  intros [k Hk]%Nat.odd_spec Hn Hl HL. set (m := others l (seq 0 n)).
  assert (n / 2 = k)%nat as Hdiv by (rewrite Hk, Nat.add_comm, Nat.mul_comm, Nat.div_add by lia; done).
  pose proof (others_perm l n Hl) as Hp. pose proof (Permutation_length Hp) as Hlen. fold m in Hp, Hlen.
  rewrite length_app, length_seq in Hlen. cbn in Hlen.
  exists (take (k + 1) m), (drop (k + 1) m). unfold make_partition. rewrite HL, Hdiv. cbn [mbind option_bind snd].
  pose proof (split_servers_filled l (k + 1) k (seq 0 n) []) as Hs. rewrite filled_nil in Hs. cbn [app length fst snd] in Hs.
  fold m in Hs. change (Z.of_nat 0) with 0 in Hs. rewrite Hs by lia. cbn [mbind option_bind fst snd filled].
  replace (k + 1 - length m)%nat with 0%nat by lia. replace (k - (length m - (k + 1)))%nat with 1%nat by lia.
  rewrite length_app, length_fmap, length_drop. cbn [replicate length]. rewrite app_nil_r.
  split_and!.
  - rewrite slice_set_Some by (rewrite length_app, length_fmap, length_drop; cbn; lia). cbn [mbind option_bind]. do 2 f_equal.
    rewrite insert_app_r_alt by (rewrite length_fmap, length_drop; lia). rewrite fmap_app, length_fmap, length_drop. cbn.
    by replace (Z.to_nat _ - _)%nat with 0%nat by lia.
  - by rewrite app_assoc, take_drop.
  - rewrite length_take. lia.
  - rewrite length_app, length_drop. cbn. lia.
Qed.

Lemma Leader_spec skip n (view : nat -> ServiceConfig.config (Obj := Obj)) b l : (0 < n)%nat -> Leader skip n view = Some (b, l) ->
  exists i, l = Z.of_nat i /\ (i < n)%nat /\ (b = true -> exists r x, cfg_servers (view i) !! i = Some (Some r) /\
    ServiceConfig.cfg_objects (view i) !! r = Some x /\ state (replica_rf x) = StateLeader).
Proof.
  intros Hn. unfold Leader. assert (forall i, i ∈ seq 0 n -> (i < n)%nat) as Hin by (intros i Hi%elem_of_seq; lia).
  revert Hin. generalize (seq 0 n) as ks. intros ks. induction ks as [|i ks IH]; intros Hin; cbn [Leader_loop].
  { intros [= <- <-]. by exists 0%nat. }
  intros (p&Hp&HL)%bind_Some. assert (forall k, k ∈ ks -> (k < n)%nat) as Hin' by (intros k Hk; apply Hin; set_solver).
  destruct p as [r|]; [|by destruct skip; [apply IH|]].
  apply bind_Some in HL as (x&Hx&HL). destruct (GetState (replica_rf x)) as [t [|]] eqn:Eg; [|by apply IH].
  injection HL as <- <-. exists i. split_and!; [done|apply Hin; set_solver|]. intros _. exists r, x. split_and!; [done|done|].
  unfold GetState in Eg. injection Eg as _ Eg. by apply bool_decide_eq_true in Eg.
Qed.

(** With an odd number of servers, at least three, [make_partition] splits them into a
    majority and a minority with the server [Leader] found, and [partition] then lets a
    request between two servers through exactly when they are on the same side (and the
    receiver runs): the leader has lost its majority. *)
Theorem make_partition_isolates skip n (view : nat -> ServiceConfig.config (Obj := Obj)) b l cfg L :
  all_up n cfg L -> Nat.odd n = true -> (3 <= n)%nat -> Leader skip n view = Some (b, l) ->
  exists (p1 p2 : list nat) cfg', make_partition skip n view = Some (Z.of_nat <$> p1, Z.of_nat <$> p2) /\
    p1 ++ p2 ≡ₚ seq 0 n /\ length p1 = (n / 2 + 1)%nat /\ length p2 = (n / 2)%nat /\ Z.to_nat l ∈ p2 /\
    (b = true -> exists r x, cfg_servers (view (Z.to_nat l)) !! Z.to_nat l = Some (Some r) /\
       ServiceConfig.cfg_objects (view (Z.to_nat l)) !! r = Some x /\ state (replica_rf x) = StateLeader) /\
    partition (Z.of_nat <$> p1) (Z.of_nat <$> p2) cfg = Some (tt, cfg') /\
    forall i j, (i < n)%nat -> (j < n)%nat -> exists nm, end_in (owned cfg') (Srv i) j = Some nm /\
      routed cfg' (Bool.eqb (bool_decide (i ∈ p2)) (bool_decide (j ∈ p2))) j nm.
Proof.
  intros Hup Hodd Hn HL. destruct (Leader_spec skip n view b l ltac:(lia) HL) as (i0&->&Hi0&Hlead).
  destruct (make_partition_odd skip n view b i0 Hodd Hn Hi0 HL) as (p1&p2&Hmp&Hperm&Hl1&Hl2).
  assert (forall x, x ∈ p1 \/ x ∈ p2 ++ [i0] <-> (x < n)%nat) as Hall.
  { intros x. rewrite <-elem_of_app, Hperm, elem_of_seq. lia. }
  assert (NoDup (p1 ++ p2 ++ [i0])) as Hnd by (rewrite Hperm; apply NoDup_seq).
  apply NoDup_app in Hnd as (_&Hdis&_).
  assert (n / 2 + 1 <= n)%nat as Hdiv by (pose proof (Nat.div_lt n 2); lia).
  destruct (proj1 (wp_runs _ _ _) (wp_partition n p1 (p2 ++ [i0]) cfg L Hup
    ltac:(apply Forall_forall; intros; apply Hall; auto) ltac:(apply Forall_forall; intros; apply Hall; auto)
    ltac:(lia) ltac:(lia) Hdis)) as ([]&cfg'&Hpart&Hc').
  exists p1, (p2 ++ [i0]), cfg'. rewrite Nat2Z.id. split_and!; try done; [set_solver|].
  intros i j Hi Hj. destruct (relinked_up n cfg _ cfg' (proj2 Hup) Hc') as [Hr' Hu'].
  destruct (end_of_Some n cfg' _ (Srv i) j Hr' (Hu' i Hi) Hj) as [nm Hnm]. exists nm. split; [done|].
  pose proof (rep_routed n cfg' _ (Srv i) j nm Hr' Hnm) as Hro. cbn [partition_links] in Hro.
  pose proof (Hall i) as Hi'. pose proof (Hall j) as Hj'. pose proof (Hdis i). pose proof (Hdis j).
  repeat case_bool_decide; cbn; repeat case_decide; try done; exfalso; tauto.
Qed.
End props.
