(* ===== verification/ServiceTesters.v ===== *)
(** * The testers of kvraft and shardctrler

    The tester of [ServiceConfig] on key/value servers ([KvTester], kvraft/config.go) and on
    shard controllers ([CtrlTester], shardctrler/config.go): what both do with a server
    satisfies [ReplicaLaws], so the theorems of [ServiceConfigProps] hold of them. The
    operations that look at the servers differ in one place: [Leader] of kvraft
    dereferences the pointer of a server that is down. *)
From Stdlib Require Import Strings.Byte.
From S2P Require Import Prelude Labgob Persister RaftTypes RaftNode RaftProps KvStateMachine KvServer CtrlConfig CtrlServer Labrpc LabrpcExample RaftConfig RaftConfigNet RaftConfigExample ServiceConfig ServiceConfigNet ServiceConfigLife ServiceConfigProps.

Module KvTester.
Section kv.
Context `{Gob Z} `{Gob (list (Entry KvStateMachine.Command))} `{Rand} `{Alloc}.
Context `{Gob MemoryKV} `{Gob (gmap Z KvStateMachine.OperationContext)}.
Context `{Values} (methods raftMethods : list Method) (maxraftstate : Z).

#[export] Instance replica : Replica KVServer KvStateMachine.Command := {|
  replica_start n i ps := StartKVServer n i ps maxraftstate;
  replica_Kill := KvServer.Kill;
  replica_rf := kv_rf;
  replica_type := "KVServer"
|}.

#[export] Instance replica_laws : ReplicaLaws KVServer KvStateMachine.Command.
Proof.
  split.
  - intros n i ps rf Hm. cbn. unfold StartKVServer. rewrite Hm. unfold restoreSnapshot.
    destruct (decide _); [by eexists|]. destruct (decodeSnapshot _). by eexists.
  - intros kv. by eexists.
  - done.
Qed.

Definition StartServer := ServiceConfig.StartServer (Obj := KVServer) methods raftMethods.
Definition make_config := ServiceConfig.make_config (Obj := KVServer) methods raftMethods.
Definition Leader := ServiceConfig.Leader (Obj := KVServer) false.
Definition make_partition := ServiceConfig.make_partition (Obj := KVServer) false.
End kv.
End KvTester.

Module CtrlTester.
Section ctrl.
Context `{Gob Z} `{Gob (list (Entry CtrlServer.Command))} `{Rand} `{Alloc}.
Context `{Values} (methods raftMethods : list Method).

#[export] Instance replica : Replica ShardCtrler CtrlServer.Command := {|
  replica_start n i ps := CtrlServer.StartServer n i ps;
  replica_Kill := CtrlServer.Kill;
  replica_rf := sc_rf;
  replica_type := "ShardCtrler"
|}.

#[export] Instance replica_laws : ReplicaLaws ShardCtrler CtrlServer.Command.
Proof.
  split.
  - intros n i ps rf Hm. cbn. unfold CtrlServer.StartServer. rewrite Hm. by eexists.
  - intros sc. by eexists.
  - done.
Qed.

Abbreviation config := (ServiceConfig.config (Obj := ShardCtrler)).
Definition cleanup : M config unit := ServiceConfig.cleanup.
Definition LogSize : M config Z := ServiceConfig.LogSize.
Definition connectUnlocked : Z -> list Z -> M config unit := ServiceConfig.connectUnlocked.
Definition disconnectUnlocked : Z -> list Z -> M config unit := ServiceConfig.disconnectUnlocked.
Definition All : config -> list Z := ServiceConfig.All.
Definition ConnectAll : M config unit := ServiceConfig.ConnectAll.
Definition partition : list Z -> list Z -> M config unit := ServiceConfig.partition.
Definition random_handles := ServiceConfig.random_handles.
Definition makeClient : list Z -> list string -> (nat -> Z) -> M config nat := ServiceConfig.makeClient.
Definition deleteClient : nat -> M config unit := ServiceConfig.deleteClient.
Definition ConnectClientUnlocked : nat -> list Z -> M config unit := ServiceConfig.ConnectClientUnlocked.
Definition DisconnectClientUnlocked : nat -> list Z -> M config unit := ServiceConfig.DisconnectClientUnlocked.
Definition ShutdownServer : Z -> M config unit := ServiceConfig.ShutdownServer.
Definition StartServer : Z -> list string -> M config unit := ServiceConfig.StartServer methods raftMethods.
Definition Leader : nat -> (nat -> config) -> option (bool * Z) := ServiceConfig.Leader true.
Definition make_partition : nat -> (nat -> config) -> option (list Z * list Z) := ServiceConfig.make_partition true.
Definition make_config : nat -> bool -> (nat -> list string) -> option config := ServiceConfig.make_config methods raftMethods.
End ctrl.
End CtrlTester.

(** ** Three key/value servers under test *)

Module ServiceExample.
Import RaftProps.Example3 Example_tester.

Definition kv_replica := KvTester.replica (-1).
#[export] Existing Instance kv_replica.
#[export] Instance kv_replica_laws : ReplicaLaws KVServer KvStateMachine.Command := KvTester.replica_laws (-1).

Definition cfg1 : ServiceConfig.config (Obj := KVServer) :=
  force (ServiceConfig.new_config 3) (ServiceConfig.make_config [] [] 3 false names).
Lemma cfg1_made : ServiceConfig.make_config [] [] 3 false names = Some cfg1.
Proof. vm_compute. reflexivity. Qed.

(** Server 1 thinks it leads. *)
Definition view (i : nat) : ServiceConfig.config (Obj := KVServer) :=
  ServiceConfig.set_cfg_objects
    (alter (fun kv => set_kv_rf (set_state StateLeader (kv_rf kv)) kv) 1%nat (ServiceConfig.cfg_objects cfg1)) cfg1.
Lemma view_leader : ServiceConfig.Leader false 3 view = Some (true, 1).
Proof. vm_compute. reflexivity. Qed.

Lemma cfg1_up : exists L, all_up 3 cfg1 L.
Proof.
  destruct (make_config_links (Obj := KVServer) (C := KvStateMachine.Command) [] [] 3 false names names_distinct) as (cfg&L&Hm&Hup&_).
  exists L. rewrite cfg1_made in Hm. apply Some_inj in Hm as <-. exact Hup.
Qed.
End ServiceExample.
Import RaftProps.Example3 Example_tester ServiceExample.

Lemma service_tester_network_witness : exists cfg0 L0,
  ServiceConfig.make_config (Obj := KVServer) (C := KvStateMachine.Command) [] [] 3 false names = Some cfg0 /\
  L0 (Srv 1) 2%nat = true /\
  forall op : TesterOp (Obj := KVServer) (C := KvStateMachine.Command), top_ok 3 op cfg0 -> is_Some (run_top [] [] op cfg0).
Proof.
  destruct (service_tester_network (Obj := KVServer) (C := KvStateMachine.Command) [] [] 3 false names names_distinct) as (cfg0&L0&Hm&Hon&Hsteps).
  exists cfg0, L0. split; [exact Hm|]. split; [apply Hon; lia|]. exact (proj1 (Hsteps cfg0 L0 (rtc_refl _ _))).
Defined.

Lemma make_partition_isolates_witness : exists p1 p2 cfg',
  ServiceConfig.make_partition false 3 view = Some (Z.of_nat <$> p1, Z.of_nat <$> p2) /\ 1%nat ∈ p2 /\ length p1 = 2%nat /\
  ServiceConfig.partition (Z.of_nat <$> p1) (Z.of_nat <$> p2) cfg1 = Some (tt, cfg').
Proof.
  destruct cfg1_up as [L Hup].
  destruct (make_partition_isolates (Obj := KVServer) (C := KvStateMachine.Command) false 3 view true 1 cfg1 L Hup eq_refl ltac:(lia) view_leader)
    as (p1&p2&cfg'&Hm&_&Hl&_&Hin&_&Hp&_).
  exists p1, p2, cfg'. split; [exact Hm|]. split; [exact Hin|]. split; [exact Hl|exact Hp].
Defined.

(** The result for this view, and that with an even number of servers one of them is put on both sides. *)
Example make_partition_three : ServiceConfig.make_partition false 3 view = Some ([0; 2], [1]).
Proof. vm_compute. reflexivity. Qed.
Lemma make_partition_even skip (vw : nat -> ServiceConfig.config (Obj := KVServer)) b :
  ServiceConfig.Leader skip 4 vw = Some (b, 2) -> ServiceConfig.make_partition skip 4 vw = Some ([0; 1; 3], [0; 2]).
Proof. intros HL. unfold ServiceConfig.make_partition. rewrite HL. vm_compute. reflexivity. Qed.
