(* ===== verification/ShardConfig.v ===== *)
(** * shardkv/config.go: the tester of the sharded service

    Three controllers, three groups of [n] servers and clerks on one network of [Labrpc],
    whose servers have string names. Objects of both kinds live in [cfg_objects] and run
    on their own; the tester has pointers to the current ones. [gg_saved] is as in
    [RaftConfig]. A clerk is a number; [cfg_mck] and [cfg_ctrlerends] are the ends the
    tester's own clerk of the controllers and the controllers were given. The strings
    [randstring] returns are an argument [rs] of the operations that call it, the [k]-th
    is [rs k]. The clock is left out. [None] in [M] is the end of the test: a run-time
    panic, [t.Fatal] or [log.Fatalf]. *)
From stdpp Require Import pretty.
From Stdlib Require Import Strings.Byte.
From S2P Require Import Prelude Labgob Persister RaftTypes RaftNode Labrpc RaftConfig ServiceConfig.

(** What the tester does with a server of a group. *)
Class ShardReplica (Kv C : Type) := {
  shard_start : nat -> Z -> Persister -> Z -> Z -> option Kv;
  shard_Kill : M Kv unit;
  shard_rf : Kv -> Raft C
}.

(** [strconv.Itoa] is [pretty]. *)
Definition ctrlername (i : Z) : string := "ctrler" +:+ pretty i.
Definition servername (gid i : Z) : string := "server-" +:+ pretty gid +:+ "-" +:+ pretty i.

Section tester.
Context {Kv C Ctl D : Type} `{ShardReplica Kv C} `{Replica Ctl D} `{Values}.
Context (methods ctrlMethods raftMethods : list Method).

Abbreviation Net := (Network (EndName := string) (SrvName := string)).
Abbreviation Wld := (World (EndName := string) (SrvName := string)).

Record group := mkGroup {
  gg_gid : Z;
  gg_servers : list (option nat);
  gg_saved : list Saved;
  gg_endnames : list (option (list string));
  gg_mendnames : list (option (list string))
}.

Record config := mkConfig {
  cfg_world : Wld;
  cfg_nctrlers : nat;
  cfg_ctrlerservers : list (option nat);
  cfg_ctrlerends : gmap nat (list string);
  cfg_mck : list string;
  cfg_ngroups : nat;
  cfg_n : nat;
  cfg_groups : list (option group);
  cfg_clerks : gmap nat (list string);
  cfg_made : nat;
  cfg_nextClientId : Z;
  cfg_maxraftstate : Z;
  cfg_objects : list (Kv + Ctl)
}.

Definition set_cfg_world v (x : config) : config :=
  mkConfig v (cfg_nctrlers x) (cfg_ctrlerservers x) (cfg_ctrlerends x) (cfg_mck x) (cfg_ngroups x) (cfg_n x) (cfg_groups x)
    (cfg_clerks x) (cfg_made x) (cfg_nextClientId x) (cfg_maxraftstate x) (cfg_objects x).
Definition set_cfg_ctrlerservers v (x : config) : config :=
  mkConfig (cfg_world x) (cfg_nctrlers x) v (cfg_ctrlerends x) (cfg_mck x) (cfg_ngroups x) (cfg_n x) (cfg_groups x)
    (cfg_clerks x) (cfg_made x) (cfg_nextClientId x) (cfg_maxraftstate x) (cfg_objects x).
Definition set_cfg_ctrlerends v (x : config) : config :=
  mkConfig (cfg_world x) (cfg_nctrlers x) (cfg_ctrlerservers x) v (cfg_mck x) (cfg_ngroups x) (cfg_n x) (cfg_groups x)
    (cfg_clerks x) (cfg_made x) (cfg_nextClientId x) (cfg_maxraftstate x) (cfg_objects x).
Definition set_cfg_mck v (x : config) : config :=
  mkConfig (cfg_world x) (cfg_nctrlers x) (cfg_ctrlerservers x) (cfg_ctrlerends x) v (cfg_ngroups x) (cfg_n x) (cfg_groups x)
    (cfg_clerks x) (cfg_made x) (cfg_nextClientId x) (cfg_maxraftstate x) (cfg_objects x).
Definition set_cfg_groups v (x : config) : config :=
  mkConfig (cfg_world x) (cfg_nctrlers x) (cfg_ctrlerservers x) (cfg_ctrlerends x) (cfg_mck x) (cfg_ngroups x) (cfg_n x) v
    (cfg_clerks x) (cfg_made x) (cfg_nextClientId x) (cfg_maxraftstate x) (cfg_objects x).
Definition set_cfg_clerks ck made (x : config) : config :=
  mkConfig (cfg_world x) (cfg_nctrlers x) (cfg_ctrlerservers x) (cfg_ctrlerends x) (cfg_mck x) (cfg_ngroups x) (cfg_n x) (cfg_groups x)
    ck made (cfg_nextClientId x) (cfg_maxraftstate x) (cfg_objects x).
Definition set_cfg_nextClientId v (x : config) : config :=
  mkConfig (cfg_world x) (cfg_nctrlers x) (cfg_ctrlerservers x) (cfg_ctrlerends x) (cfg_mck x) (cfg_ngroups x) (cfg_n x) (cfg_groups x)
    (cfg_clerks x) (cfg_made x) v (cfg_maxraftstate x) (cfg_objects x).
Definition set_cfg_objects v (x : config) : config :=
  mkConfig (cfg_world x) (cfg_nctrlers x) (cfg_ctrlerservers x) (cfg_ctrlerends x) (cfg_mck x) (cfg_ngroups x) (cfg_n x) (cfg_groups x)
    (cfg_clerks x) (cfg_made x) (cfg_nextClientId x) (cfg_maxraftstate x) v.

Definition set_gg_servers v (x : group) : group := mkGroup (gg_gid x) v (gg_saved x) (gg_endnames x) (gg_mendnames x).
Definition set_gg_saved v (x : group) : group := mkGroup (gg_gid x) (gg_servers x) v (gg_endnames x) (gg_mendnames x).
Definition set_gg_endnames v (x : group) : group := mkGroup (gg_gid x) (gg_servers x) (gg_saved x) v (gg_mendnames x).
Definition set_gg_mendnames v (x : group) : group := mkGroup (gg_gid x) (gg_servers x) (gg_saved x) (gg_endnames x) v.

Implicit Types (cfg : config).

Definition on_net (f : Net -> Net) : M config unit :=
  modify (fun cfg => set_cfg_world (set_net (f (w_net (cfg_world cfg))) (cfg_world cfg)) cfg).

(** [cfg.groups[gi]], and an assignment through the pointer. *)
Definition group_at (gi : Z) : M config group :=
  let! cfg := get in
  let! gg := lift (slice_get (cfg_groups cfg) gi) in
  lift gg.
Definition assign {A} (gi : Z) (g : group -> list A) (s : list A -> group -> group) (i : Z) (v : A) : M config unit :=
  let! gg := group_at gi in
  let! l := lift (slice_set (g gg) i v) in
  let! cfg := get in
  let! gs := lift (slice_set (cfg_groups cfg) gi (Some (s l gg))) in
  modify (set_cfg_groups gs).

(** ** Ends *)

(** [MakeEnd], [Connect] and [Enable], which always come together. *)
Definition add_end (name server : string) : M config unit :=
  let! cfg := get in
  let! net := lift (MakeEnd name (w_net (cfg_world cfg))) in
  do! on_net (fun _ => net);
  do! on_net (Connect name server);
  on_net (Enable name true).
(** A loop that makes the ends for [j] below [k]. *)
Definition add_ends (k : nat) (rs : nat -> string) (server : Z -> string) : M config unit :=
  forM (seq 0 k) (fun j => add_end (rs j) (server (Z.of_nat j))).

(** The function given to clerks and servers. *)
Definition make_end (rs : nat -> string) (server : string) : M config string :=
  do! add_end (rs 0%nat) server;
  ret (rs 0%nat).

(** ** Clerks *)

(** The loop of [makeClient]: [endnames] has [n] elements, and is filled up to [nctrlers]. *)
Fixpoint client_ends (rs : nat -> string) (js : list nat) (endnames : list string) : M config (list string) :=
  match js with
  | [] => ret endnames
  | j :: js =>
      let! endnames := lift (slice_set endnames (Z.of_nat j) (rs j)) in
      do! add_end (rs j) (ctrlername (Z.of_nat j));
      client_ends rs js endnames
  end.

Definition makeClient (rs : nat -> string) : M config nat :=
  let! cfg := get in
  let! endnames := client_ends rs (seq 0 (cfg_nctrlers cfg)) (replicate (cfg_n cfg) "") in
  let! cfg := get in
  let ck := cfg_made cfg in
  do! modify (set_cfg_clerks (<[ck := endnames]> (cfg_clerks cfg)) (S ck));
  do! modify (fun cfg => set_cfg_nextClientId (cfg_nextClientId cfg + 1) cfg);
  ret ck.

(** The files [os.Remove] is called for do not exist. *)
Definition deleteClient (ck : nat) : M config unit :=
  modify (fun cfg => set_cfg_clerks (delete ck (cfg_clerks cfg)) (cfg_made cfg) cfg).

(** ** Stopping and starting servers *)

Definition saved_contents (sv : Saved) (cfg : config) : option Persister :=
  match sv with
  | Nil => None
  | Owned ps => Some ps
  | Shared r =>
      match cfg_objects cfg !! r with
      | Some (inl o) => Some (persister (shard_rf o))
      | _ => None
      end
  end.

Definition ShutdownServer (gi i : Z) : M config unit :=
  let! gg := group_at gi in
  do! forM (seq 0 (length (gg_servers gg))) (fun j =>
    let! names := lift (slice_get (gg_endnames gg) i) in
    let! name := lift (slice_get (default [] names) (Z.of_nat j)) in
    on_net (Enable name false));
  let! mnames := lift (slice_get (gg_mendnames gg) i) in
  do! forM (default [] mnames) (fun name => on_net (Enable name false));
  do! on_net (DeleteServer (servername (gg_gid gg) i));
  let! cfg := get in
  let! sv := lift (slice_get (gg_saved gg) i) in
  do! match saved_contents sv cfg with
      | Some ps => assign gi gg_saved set_gg_saved i (Owned (Copy ps))
      | None => ret tt
      end;
  let! kv := lift (slice_get (gg_servers gg) i) in
  match kv with
  | Some r =>
      let! cfg := get in
      match cfg_objects cfg !! r with
      | Some (inl o) =>
          let! p := lift (shard_Kill o) in
          do! modify (set_cfg_objects (<[r := inl p.2]> (cfg_objects cfg)));
          assign gi gg_servers set_gg_servers i None
      | _ => panic
      end
  | None => ret tt
  end.

Definition ShutdownGroup (gi : Z) : M config unit :=
  let! cfg := get in
  forM (seq 0 (cfg_n cfg)) (fun i => ShutdownServer gi (Z.of_nat i)).

(** A labrpc server with the two services of object [r], under [name]. *)
Definition register (name : string) (r : nat) (type : string) (ms : list Method) : M config unit :=
  let svc := MakeService (mkReceiver r type ms) in
  let rfsvc := MakeService (mkReceiver r "Raft" raftMethods) in
  let! cfg := get in
  let w := cfg_world cfg in
  let srv := length (w_servers w) in
  do! modify (set_cfg_world (mkWorld (w_net w)
                (w_servers w ++ [AddService rfsvc (AddService svc MakeServer)])
                (w_looping w) (w_calls w)));
  on_net (AddServer name srv).

(** The first [n] strings name the ends to the group, the next ones those to the
    controllers; both slices are assigned before the loops that make the ends. *)
Definition StartServer (gi i : Z) (rs : nat -> string) : M config unit :=
  let! cfg := get in
  let n := cfg_n cfg in
  do! assign gi gg_endnames set_gg_endnames i (Some (rs <$> seq 0 n));
  let! gg := group_at gi in
  do! add_ends n rs (servername (gg_gid gg));
  do! assign gi gg_mendnames set_gg_mendnames i (Some (rs <$> seq n (cfg_nctrlers cfg)));
  do! add_ends (cfg_nctrlers cfg) (fun j => rs (n + j)%nat) ctrlername;
  let! gg := group_at gi in
  let! sv := lift (slice_get (gg_saved gg) i) in
  let! cfg := get in
  let ps := match saved_contents sv cfg with Some ps => Copy ps | None => MakePersister end in
  let! o := lift (shard_start n i ps (cfg_maxraftstate cfg) (gg_gid gg)) in
  let r := length (cfg_objects cfg) in
  do! modify (set_cfg_objects (cfg_objects cfg ++ [inl o]));
  do! assign gi gg_saved set_gg_saved i (Shared r);
  do! assign gi gg_servers set_gg_servers i (Some r);
  register (servername (gg_gid gg) i) r "ShardKV" methods.

Definition StartGroup (gi : Z) (rs : nat -> nat -> string) : M config unit :=
  let! cfg := get in
  forM (seq 0 (cfg_n cfg)) (fun i => StartServer gi (Z.of_nat i) (rs i)).

Definition StartCtrlerserver (i : Z) (rs : nat -> string) : M config unit :=
  let! cfg := get in
  do! add_ends (cfg_nctrlers cfg) rs ctrlername;
  let! o := lift (replica_start (cfg_nctrlers cfg) i MakePersister) in
  let! cfg := get in
  let r := length (cfg_objects cfg) in
  do! modify (set_cfg_objects (cfg_objects cfg ++ [inr o]));
  do! modify (set_cfg_ctrlerends (<[Z.to_nat i := rs <$> seq 0 (cfg_nctrlers cfg)]> (cfg_ctrlerends cfg)));
  let! l := lift (slice_set (cfg_ctrlerservers cfg) i (Some r)) in
  do! modify (set_cfg_ctrlerservers l);
  register (ctrlername i) r replica_type ctrlMethods.

(** The ends of the clerk. *)
Definition shardclerk (rs : nat -> string) : M config (list string) :=
  let! cfg := get in
  do! add_ends (cfg_nctrlers cfg) rs ctrlername;
  ret (rs <$> seq 0 (cfg_nctrlers cfg)).

(** ** Joining and leaving: what [cfg.mck.Join] and [cfg.mck.Leave] are called with *)

Fixpoint joinm_loop (gis : list Z) (m : gmap Z (list string)) : M config (gmap Z (list string)) :=
  match gis with
  | [] => ret m
  | g :: gis =>
      let! gg := group_at g in
      let! cfg := get in
      let servernames := (fun i => servername (gg_gid gg) (Z.of_nat i)) <$> seq 0 (cfg_n cfg) in
      joinm_loop gis (<[gg_gid gg := servernames]> m)
  end.
Definition joinm (gis : list Z) : M config (gmap Z (list string)) := joinm_loop gis ∅.
Definition join (gi : Z) : M config (gmap Z (list string)) := joinm [gi].

Fixpoint leavem_loop (gis : list Z) (gids : list Z) : M config (list Z) :=
  match gis with
  | [] => ret gids
  | g :: gis =>
      let! gg := group_at g in
      leavem_loop gis (gids ++ [gg_gid gg])
  end.
Definition leavem (gis : list Z) : M config (list Z) := leavem_loop gis [].
Definition leave (gi : Z) : M config (list Z) := leavem [gi].

(** ** The life of a tester *)

Definition checklogs : M config unit :=
  let! cfg := get in
  forM (seq 0 (cfg_ngroups cfg)) (fun gi => forM (seq 0 (cfg_n cfg)) (fun i =>
    let! gg := group_at (Z.of_nat gi) in
    let! sv := lift (gg_saved gg !! i) in
    let! ps := lift (saved_contents sv cfg) in
    let raft := RaftStateSize ps in
    let snap := len (ReadSnapshot ps) in
    if decide (cfg_maxraftstate cfg >= 0 /\ raft > 8 * cfg_maxraftstate cfg) then panic
    else if decide (cfg_maxraftstate cfg < 0 /\ snap > 0) then panic
    else ret tt)).

Definition cleanup : M config unit :=
  let! cfg := get in
  do! forM (seq 0 (cfg_ngroups cfg)) (fun gi => ShutdownGroup (Z.of_nat gi));
  do! forM (seq 0 (cfg_nctrlers cfg)) (fun i =>
    let! cfg := get in
    let! p := lift (cfg_ctrlerservers cfg !! i) in
    let! r := lift p in
    match cfg_objects cfg !! r with
    | Some (inr o) =>
        let! p := lift (replica_Kill o) in
        modify (set_cfg_objects (<[r := inr p.2]> (cfg_objects cfg)))
    | _ => panic
    end);
  let! cfg := get in
  let! net := lift (Cleanup (w_net (cfg_world cfg))) in
  on_net (fun _ => net).

(** Whose strings are drawn. *)
Inductive Draw := ControllerEnds (i : nat) | ClerkEnds | ServerEnds (gi i : nat).

Definition zero_config (n : nat) (maxraftstate : Z) : config :=
  mkConfig NewWorld 3 (replicate 3 None) ∅ [] 3 n (replicate 3 None) ∅ 0 0 maxraftstate [].
Definition new_group (gid : Z) (n nctrlers : nat) : group :=
  mkGroup gid (replicate n None) (replicate n Nil) (replicate n None) (replicate nctrlers None).

Definition start_groups (rs : Draw -> nat -> string) : M config unit :=
  let! cfg := get in
  forM (seq 0 (cfg_ngroups cfg)) (fun gi =>
    let! c := get in
    let! gs := lift (slice_set (cfg_groups c) (Z.of_nat gi) (Some (new_group (100 + Z.of_nat gi) (cfg_n cfg) (cfg_nctrlers cfg)))) in
    do! modify (set_cfg_groups gs);
    forM (seq 0 (cfg_n cfg)) (fun i => StartServer (Z.of_nat gi) (Z.of_nat i) (rs (ServerEnds gi i)))).

Definition make_config (n : nat) (unreliable : bool) (maxraftstate : Z) (rs : Draw -> nat -> string) : option config :=
  snd <$> (do! forM (seq 0 3) (fun i => StartCtrlerserver (Z.of_nat i) (rs (ControllerEnds i)));
           let! mck := shardclerk (rs ClerkEnds) in
           do! modify (set_cfg_mck mck);
           do! start_groups rs;
           do! modify (set_cfg_nextClientId (Z.of_nat n + 1000));
           on_net (Reliable (negb unreliable))) (zero_config n maxraftstate).
End tester.
