(* ===== verification/ShardConfigNet.v ===== *)
(** * The network of the sharded service under test

    [rep n cfg]: every end the tester has handed out leads to the server of its position,
    the ends of a server of a group are enabled exactly when it runs, all others always;
    a server of a group is registered under its name exactly when it runs, a controller
    always. The operations that make and disable ends, as steps on [Network]. *)
From stdpp Require Import pretty.
From Stdlib Require Import Strings.Byte.
From S2P Require Import Prelude Names Labgob Persister RaftTypes RaftNode RaftLog RaftSpec RaftInv Labrpc RaftConfig RaftConfigNet ServiceConfig ShardConfig.

(** ** Names of servers *)

Lemma servername_inj (g i g' i' : nat) :
  servername (100 + Z.of_nat g) (Z.of_nat i) = servername (100 + Z.of_nat g') (Z.of_nat i') -> g = g' /\ i = i'.
Proof.
  assert (forall a : nat, 100 + Z.of_nat a = Z.of_nat (100 + a)) as Hz by lia.
  unfold servername. rewrite !Hz. intros E%(inj (String.append "server-")).
  apply split_dash in E as [E1 E2]; [|apply pretty_plain..]. apply (inj pretty) in E1, E2. lia.
Qed.
Lemma ctrlername_inj (i i' : nat) : ctrlername (Z.of_nat i) = ctrlername (Z.of_nat i') -> i = i'.
Proof. unfold ctrlername. intros E%(inj (String.append "ctrler"))%(inj pretty). lia. Qed.
Lemma servername_ctrlername gid i j : servername gid i <> ctrlername j.
Proof. done. Qed.

(** Who an end belongs to. *)
Inductive Owner := InGroup (g i : nat) | Client (k : nat) | Tester | Controller (i : nat).
#[export] Instance Owner_eq_dec : EqDecision Owner.
Proof. solve_decision. Defined.

(** The server the [j]-th end of an owner leads to. *)
Definition target (n : nat) (o : Owner) (j : nat) : string :=
  match o with
  | InGroup g _ => if decide (j < n)%nat then servername (100 + Z.of_nat g) (Z.of_nat j) else ctrlername (Z.of_nat (j - n))
  | _ => ctrlername (Z.of_nat j)
  end.

Section wires.
Context `{Values}.
Abbreviation Net := (Network (EndName := string) (SrvName := string)).
Implicit Types (rn : Net) (ps : list (string * string)) (own : Owner -> option (list string)) (on : Owner -> bool).

(** ** Ends that are made, and ends that are disabled *)

(** [rn'] is [rn] with the ends [ps] made, connected and enabled. *)
Record wired_in ps rn rn' : Prop := {
  wi_ends nm : is_Some (ends rn' !! nm) <-> is_Some (ends rn !! nm) \/ nm ∈ ps.*1;
  wi_new nm s : (nm, s) ∈ ps -> connections rn' !! nm = Some (Some s) /\ end_enabled rn' nm = true;
  wi_old nm : nm ∉ ps.*1 -> connections rn' !! nm = connections rn !! nm /\ end_enabled rn' nm = end_enabled rn nm;
  wi_servers : servers rn' = servers rn
}.

Lemma wired_nil rn : wired_in [] rn rn.
Proof. split; [|set_solver|done|done]. intros nm. cbn. set_solver. Qed.

Lemma wired_one rn nm s : ends rn !! nm = None -> exists rn', MakeEnd nm rn = Some rn' /\
  wired_in [(nm, s)] rn (Enable nm true (Connect nm s rn')).
Proof.
  intros E. unfold MakeEnd. rewrite E. eexists. split; [done|]. split; cbn.
  - intros nm'. rewrite lookup_insert_is_Some'. set_solver.
  - intros nm' s' [= -> ->]%list_elem_of_singleton. unfold end_enabled. cbn. by rewrite !lookup_insert_eq.
  - intros nm' Hne. unfold end_enabled. cbn. rewrite !lookup_insert_ne by set_solver. done.
  - done.
Qed.

Lemma wired_app ps qs rn rn1 rn2 : (forall nm, nm ∈ ps.*1 -> nm ∉ qs.*1) ->
  wired_in ps rn rn1 -> wired_in qs rn1 rn2 -> wired_in (ps ++ qs) rn rn2.
Proof.
  intros Hd [E1 N1 O1 S1] [E2 N2 O2 S2]. split.
  - intros nm. rewrite E2, E1, fmap_app. set_solver.
  - intros nm s [Hin|Hin]%elem_of_app; [|by apply N2]. assert (nm ∉ qs.*1) as Hq by (apply Hd, list_elem_of_fmap; by exists (nm, s)).
    destruct (O2 nm Hq) as [-> ->]. by apply N1.
  - intros nm. rewrite fmap_app, not_elem_of_app. intros [Hp Hq]. destruct (O2 nm Hq) as [-> ->]. by apply O1.
  - congruence.
Qed.

Definition disable (names : list string) rn : Net := foldl (fun rn nm => Enable nm false rn) rn names.

Lemma disable_enabled names rn nm : end_enabled (disable names rn) nm = if decide (nm ∈ names) then false else end_enabled rn nm.
Proof.
  unfold disable. induction names as [|nm' names IH] using rev_ind; [done|]. rewrite foldl_app. cbn. unfold end_enabled. cbn.
  destruct (decide (nm' = nm)) as [->|Hne].
  - rewrite lookup_insert_eq, decide_True by set_solver. done.
  - rewrite lookup_insert_ne by done. unfold end_enabled in IH. rewrite IH. repeat case_decide; set_solver.
Qed.
Lemma disable_rest names rn : ends (disable names rn) = ends rn /\ connections (disable names rn) = connections rn /\
  servers (disable names rn) = servers rn.
Proof. unfold disable. induction names as [|nm names IH] using rev_ind; [done|]. by rewrite foldl_app. Qed.

(** ** The ends of all owners *)

Definition end_in own o (j : nat) : option string := l ← own o; l !! j.

(** They are different, lead to their targets, and are enabled as [on] says. *)
Record wires_ok (n : nat) own on rn : Prop := {
  wo_distinct o j o' j' nm : end_in own o j = Some nm -> end_in own o' j' = Some nm -> o = o' /\ j = j';
  wo_wired o j nm : end_in own o j = Some nm -> is_Some (ends rn !! nm) /\
    connections rn !! nm = Some (Some (target n o j)) /\ end_enabled rn nm = on o
}.

Lemma wires_net n own on rn rn' : ends rn' = ends rn -> connections rn' = connections rn -> enabled rn' = enabled rn ->
  wires_ok n own on rn -> wires_ok n own on rn'.
Proof. intros E1 E2 E3 [? ?]. split; [done|]. unfold end_enabled. by rewrite E1, E2, E3. Qed.

(** An owner gets new ends. *)
Lemma wires_add n own own' on on' rn rn' o0 ps : wires_ok n own on rn -> wired_in ps rn rn' ->
  NoDup ps.*1 -> (forall nm, nm ∈ ps.*1 -> ends rn !! nm = None) ->
  own' o0 = Some ps.*1 -> on' o0 = true -> (forall o, o <> o0 -> own' o = own o /\ on' o = on o) ->
  (forall j p, ps !! j = Some p -> p.2 = target n o0 j) -> wires_ok n own' on' rn'.
Proof.
  intros [Hd Hw] [We Wn Wo _] Hnd Hfresh Ho0 Hon Hne Htg.
  assert (Hold : forall o j nm, end_in own o j = Some nm -> nm ∉ ps.*1).
  { intros o j nm Hnm Hin. destruct (Hw _ _ _ Hnm) as [[? E] _]. by rewrite (Hfresh _ Hin) in E. }
  assert (Hend : forall o j, end_in own' o j = if decide (o = o0) then ps.*1 !! j else end_in own o j).
  { intros o j. unfold end_in. case_decide as E; [subst; by rewrite Ho0|]. by rewrite (proj1 (Hne o E)). }
  split.
  - intros o j o' j' nm. rewrite !Hend. repeat case_decide; subst; intros Hx Hy.
    + split; [done|]. by eapply NoDup_lookup.
    + by destruct (Hold _ _ _ Hy); eapply list_elem_of_lookup_2.
    + by destruct (Hold _ _ _ Hx); eapply list_elem_of_lookup_2.
    + by eapply Hd.
  - intros o j nm. rewrite Hend. case_decide as E; intros Hnm.
    + subst o. rewrite list_lookup_fmap in Hnm. destruct (ps !! j) as [[nm' s]|] eqn:Ep; [|done]. injection Hnm as ->.
      pose proof (list_elem_of_lookup_2 _ _ _ Ep) as Hin. destruct (Wn _ _ Hin) as [-> ->]. rewrite Hon.
      pose proof (Htg _ _ Ep) as Hs. cbn in Hs. rewrite Hs. split_and!; [|done|done].
      apply We. right. apply list_elem_of_fmap. by exists (nm, s).
    + destruct (Wo nm (Hold _ _ _ Hnm)) as [-> ->]. destruct (Hw _ _ _ Hnm) as (Hs&Hc&He). rewrite (proj2 (Hne o E)).
      split_and!; [|done|done]. apply We. by left.
Qed.

(** Ends of nobody's. *)
Lemma wires_keep n own on rn rn' ps : wires_ok n own on rn -> wired_in ps rn rn' ->
  (forall nm, nm ∈ ps.*1 -> ends rn !! nm = None) -> wires_ok n own on rn'.
Proof.
  intros [Hd Hw] [We _ Wo _] Hfresh. split; [done|]. intros o j nm Hnm. destruct (Hw _ _ _ Hnm) as (Hs&Hc&He).
  assert (nm ∉ ps.*1) as Hni by (intros Hin%Hfresh; rewrite Hin in Hs; by destruct Hs).
  destruct (Wo nm Hni) as [-> ->]. split_and!; [apply We; by left|done|done].
Qed.

(** An owner is silenced. *)
Lemma wires_disable n own on on' rn o0 names : wires_ok n own on rn -> own o0 = Some names ->
  on' o0 = false -> (forall o, o <> o0 -> on' o = on o) -> wires_ok n own on' (disable names rn).
Proof.
  intros [Hd Hw] Ho0 Hoff Hne. destruct (disable_rest names rn) as (E1&E2&_). split; [done|]. intros o j nm Hnm.
  rewrite E1, E2, disable_enabled. destruct (Hw _ _ _ Hnm) as (?&?&He). split_and!; [done|done|]. case_decide as Hin.
  - apply list_elem_of_lookup_1 in Hin as [j' Hj']. destruct (Hd o j o0 j' nm Hnm) as [-> _]; [|done]. unfold end_in. by rewrite Ho0.
  - destruct (decide (o = o0)) as [->|E]; [|by rewrite Hne]. destruct Hin. unfold end_in in Hnm. rewrite Ho0 in Hnm.
    by eapply list_elem_of_lookup_2.
Qed.
End wires.

Section tester.
Context {Kv C Ctl D : Type} `{Gob Z} `{Gob (list (Entry C))} `{Rand} `{Alloc} `{ShardReplica Kv C} `{Replica Ctl D} `{Values}.
Abbreviation Cfg := (ShardConfig.config (Kv := Kv) (Ctl := Ctl)).
Abbreviation Net := (Network (EndName := string) (SrvName := string)).
Implicit Types (cfg c : Cfg) (rn : Net).

Definition snet cfg : Net := w_net (ShardConfig.cfg_world cfg).
Definition with_snet rn cfg : Cfg := ShardConfig.set_cfg_world (set_net rn (ShardConfig.cfg_world cfg)) cfg.
Lemma with_snet_id cfg : with_snet (snet cfg) cfg = cfg.
Proof. by destruct cfg as [[] ? ? ? ? ? ? ? ? ? ? ? ?]. Qed.

Lemma wp_get_at {A} (l : list A) (j : nat) x cfg (Q : A -> Cfg -> Prop) :
  l !! j = Some x -> Q x cfg -> wp (lift (slice_get l (Z.of_nat j))) cfg Q.
Proof. intros Hl HQ. eapply wp_lift; [apply slice_get_Some; rewrite Nat2Z.id; split; [lia|exact Hl]|done]. Qed.

(** ** Making ends *)

Lemma wp_add_end nm s cfg : ends (snet cfg) !! nm = None ->
  wp (add_end nm s) cfg (fun _ c => exists rn, c = with_snet rn cfg /\ wired_in [(nm, s)] (snet cfg) rn).
Proof.
  intros Hf. destruct (wired_one (snet cfg) nm s Hf) as (rn1&Hm&Hw). unfold add_end. go. eapply wp_lift; [exact Hm|].
  unfold ShardConfig.on_net. go. by exists (Enable nm true (Connect nm s rn1)).
Qed.

Definition wires (k : nat) (rs : nat -> string) (server : Z -> string) : list (string * string) :=
  (fun j => (rs j, server (Z.of_nat j))) <$> seq 0 k.

(** The strings drawn are new. *)
Definition fresh (k : nat) (rs : nat -> string) cfg : Prop :=
  NoDup (rs <$> seq 0 k) /\ forall j, (j < k)%nat -> ends (snet cfg) !! rs j = None.

Lemma wires_fst k rs server : (wires k rs server).*1 = rs <$> seq 0 k.
Proof. unfold wires. by rewrite <-list_fmap_compose. Qed.
Lemma wires_S k rs server : wires (S k) rs server = wires k rs server ++ [(rs k, server (Z.of_nat k))].
Proof. unfold wires. by rewrite seq_S, fmap_app. Qed.
Lemma wires_lookup k rs server j p : wires k rs server !! j = Some p -> (j < k)%nat /\ p = (rs j, server (Z.of_nat j)).
Proof. unfold wires. rewrite list_lookup_fmap. intros (i&[-> Hi]%lookup_seq&->)%fmap_Some. done. Qed.

Lemma fresh_S k rs cfg : fresh (S k) rs cfg -> fresh k rs cfg /\ rs k ∉ rs <$> seq 0 k /\ ends (snet cfg) !! rs k = None.
Proof.
  intros [Hnd Hf]. rewrite seq_S, fmap_app, NoDup_app in Hnd. destruct Hnd as (?&Hx&_). split_and!.
  - split; [done|]. intros; apply Hf; lia.
  - intros Hin. apply (Hx _ Hin). set_solver.
  - apply Hf. lia.
Qed.

Lemma fresh_le m k rs cfg : (m <= k)%nat -> fresh k rs cfg -> fresh m rs cfg.
Proof.
  intros Hle [Hnd Hf]. split; [|intros; apply Hf; lia]. replace k with (m + (k - m))%nat in Hnd by lia.
  rewrite seq_app, fmap_app, NoDup_app in Hnd. apply Hnd.
Qed.

(** The end that comes next is new to the network reached so far. *)
Lemma still_fresh k rs server cfg rn : wired_in (wires k rs server) (snet cfg) rn -> fresh (S k) rs cfg -> ends rn !! rs k = None.
Proof.
  intros Hw (_&Hnew&Hf)%fresh_S. destruct (ends rn !! rs k) as [x|] eqn:E; [|done]. exfalso.
  destruct (proj1 (wi_ends _ _ _ Hw (rs k))) as [[? ?]|Hin]; [by eexists|congruence|]. by rewrite wires_fst in Hin.
Qed.

Lemma wp_add_ends_from k m rs server cfg rn : (m <= k)%nat -> fresh k rs cfg -> wired_in (wires m rs server) (snet cfg) rn ->
  wp (forM (seq m (k - m)) (fun j => add_end (rs j) (server (Z.of_nat j)))) (with_snet rn cfg)
    (fun _ c => exists rn', c = with_snet rn' cfg /\ wired_in (wires k rs server) (snet cfg) rn').
Proof.
  remember (k - m)%nat as d eqn:Ed. revert m rn Ed. induction d as [|d IH]; intros m rn Ed Hm Hf Hw; cbn [seq forM].
  { go. exists rn. by replace k with m by lia. }
  assert (fresh (S m) rs cfg) as Hfm by (apply (fresh_le (S m) k); [lia|done]).
  go. eapply wp_mono; [apply wp_add_end; exact (still_fresh m rs server cfg rn Hw Hfm)|]. intros [] c (rn1&->&Hw1).
  apply (IH (S m) rn1); [lia|lia|done|]. rewrite wires_S. eapply wired_app; [|exact Hw|exact Hw1].
  apply fresh_S in Hfm as (_&Hnew&_). intros nm. rewrite wires_fst. cbn. set_solver.
Qed.

Lemma wp_shard_add_ends k rs server cfg : fresh k rs cfg ->
  wp (add_ends k rs server) cfg (fun _ c => exists rn, c = with_snet rn cfg /\ wired_in (wires k rs server) (snet cfg) rn).
Proof.
  intros Hf. unfold add_ends. rewrite <-(with_snet_id cfg) at 1. rewrite <-(Nat.sub_0_r k) at 1.
  apply wp_add_ends_from; [lia|done|apply wired_nil].
Qed.

(** The loop of [makeClient], on an array with as many elements as there are controllers. *)
Lemma wp_client_ends_from k m rs cfg rn endnames : (m <= k)%nat -> fresh k rs cfg ->
  wired_in (wires m rs ctrlername) (snet cfg) rn -> length endnames = k -> take m endnames = rs <$> seq 0 m ->
  wp (client_ends rs (seq m (k - m)) endnames) (with_snet rn cfg)
    (fun l c => l = rs <$> seq 0 k /\ exists rn', c = with_snet rn' cfg /\ wired_in (wires k rs ctrlername) (snet cfg) rn').
Proof.
  remember (k - m)%nat as d eqn:Ed. revert m rn endnames Ed. induction d as [|d IH]; intros m rn endnames Ed Hm Hf Hw Hlen Ht; cbn [seq client_ends].
  { go. assert (m = k) as -> by lia. split; [by rewrite <-Ht, take_ge by lia|by exists rn]. }
  assert (fresh (S m) rs cfg) as Hfm by (apply (fresh_le (S m) k); [lia|done]).
  go. eapply wp_lift; [apply slice_set_Some; lia|]. rewrite Nat2Z.id.
  go. eapply wp_mono; [apply wp_add_end; exact (still_fresh m rs ctrlername cfg rn Hw Hfm)|]. intros [] c (rn1&->&Hw1).
  apply (IH (S m) rn1); [lia|lia|done| |by rewrite length_insert|].
  - rewrite wires_S. eapply wired_app; [|exact Hw|exact Hw1]. apply fresh_S in Hfm as (_&Hnew&_). intros nm. rewrite wires_fst. cbn. set_solver.
  - rewrite (take_S_r _ _ (rs m)) by (apply list_lookup_insert_eq; lia). rewrite take_insert_ge by lia. by rewrite Ht, seq_S, fmap_app.
Qed.
End tester.
