(* ===== verification/ShardConfigLife.v ===== *)
(** * Servers of the sharded service that come and go

    The operations of the tester of shardkv, on [rep] of [ShardConfigNet]. They need of a
    server of a group only [ShardReplicaLaws] and of a controller [ReplicaLaws]. *)
From Stdlib Require Import Strings.Byte.
From S2P Require Import Prelude Names Labgob Persister RaftTypes RaftNode RaftLog RaftSpec RaftSnapshot RaftInv Labrpc RaftConfig RaftConfigNet ServiceConfig ServiceConfigLife ShardConfig ShardConfigNet.

(** A server is started with a Raft peer on the persister it is given, and killing it
    kills that peer. *)
Class ShardReplicaLaws (Kv C : Type) `{Gob Z} `{Gob (list (Entry C))} `{Rand} `{!ShardReplica Kv C} := {
  shard_start_Make n i ps maxraftstate gid rf : Make n i ps = Some rf ->
    exists o, shard_start n i ps maxraftstate gid = Some o /\ shard_rf o = rf;
  shard_Kill_rf o : exists o', shard_Kill o = Some (tt, o') /\ shard_rf o' = set_dead true (shard_rf o)
}.

Section life.
Context {Kv C Ctl D : Type} `{Gob Z} `{Gob (list (Entry C))} `{Gob (list (Entry D))} `{Rand} `{Alloc}.
Context `{ShardReplica Kv C} `{!ShardReplicaLaws Kv C} `{Replica Ctl D} `{!ReplicaLaws Ctl D}.
Context `{!GobLaws Z} `{!GobLaws (list (Entry C))} `{!GobLaws (list (Entry D))} `{Values}.
Context (methods ctrlMethods raftMethods : list Method).
Abbreviation Cfg := (ShardConfig.config (Kv := Kv) (Ctl := Ctl)).
Abbreviation Net := (Network (EndName := string) (SrvName := string)).
Implicit Types (cfg c : Cfg) (rn : Net).

(** ** The invariant *)

Definition group_of cfg (g : nat) : option group := gg ← cfg_groups cfg !! g; gg.
(** The object that runs as server [i] of group [g]. *)
Definition kv_at cfg (g i : nat) : option nat := gg ← group_of cfg g; p ← gg_servers gg !! i; p.

Definition group_ends (gg : group) (i : nat) : option (list string) :=
  e ← gg_endnames gg !! i; e ← e; m ← gg_mendnames gg !! i; m ← m; Some (e ++ m).
Definition owned cfg (o : Owner) : option (list string) :=
  match o with
  | InGroup g i => gg ← group_of cfg g; group_ends gg i
  | Client k => ShardConfig.cfg_clerks cfg !! k
  | Tester => Some (cfg_mck cfg)
  | Controller i => cfg_ctrlerends cfg !! i
  end.
Definition is_on cfg (o : Owner) : bool :=
  match o with InGroup g i => bool_decide (is_Some (kv_at cfg g i)) | _ => true end.

(** Object [r] is behind the name [s], with its service of type [ty] and its Raft peer. *)
Definition registered cfg (s ty : string) (r : nat) : Prop :=
  exists p srv sv sv', server_of (snet cfg) s = Some p /\ w_servers (ShardConfig.cfg_world cfg) !! p = Some srv /\
    services srv !! ty = Some sv /\ sv_rcvr sv = r /\ services srv !! "Raft"%string = Some sv' /\ sv_rcvr sv' = r.

Definition group_name (g i : nat) : string := servername (100 + Z.of_nat g) (Z.of_nat i).

(** The group [gg] at index [g]. *)
Record group_ok (n : nat) cfg (g : nat) (gg : group) : Prop := {
  go_gid : gg_gid gg = 100 + Z.of_nat g;
  go_servers : length (gg_servers gg) = n;
  go_saved : length (gg_saved gg) = n;
  go_endnames : length (gg_endnames gg) = n;
  go_mendnames : length (gg_mendnames gg) = 3%nat;
  go_ends i e : gg_endnames gg !! i = Some (Some e) -> length e = n;
  go_mends i m : gg_mendnames gg !! i = Some (Some m) -> length m = 3%nat;
  go_up i r : gg_servers gg !! i = Some (Some r) -> gg_saved gg !! i = Some (Shared r) /\ registered cfg (group_name g i) "ShardKV" r;
  go_down i : gg_servers gg !! i = Some None -> server_of (snet cfg) (group_name g i) = None;
  go_store i sv : gg_saved gg !! i = Some sv -> match sv with
    | Nil => True
    | Owned ps => exists rf, sound (C := C) n i rf /\ persister rf = ps
    | Shared r => exists x, ShardConfig.cfg_objects cfg !! r = Some (inl x) /\ sound n i (shard_rf x)
    end
}.

Record rep (n : nat) cfg : Prop := {
  rp_n : ShardConfig.cfg_n cfg = n;
  rp_nctrlers : cfg_nctrlers cfg = 3%nat;
  rp_ngroups : cfg_ngroups cfg = 3%nat;
  rp_groups : length (cfg_groups cfg) = 3%nat;
  rp_ctrlers : length (cfg_ctrlerservers cfg) = 3%nat;
  rp_group g gg : group_of cfg g = Some gg -> group_ok n cfg g gg;
  rp_missing g i : group_of cfg g = None -> server_of (snet cfg) (group_name g i) = None;
  rp_wires : wires_ok n (owned cfg) (is_on cfg) (snet cfg);
  rp_clerks k : is_Some (ShardConfig.cfg_clerks cfg !! k) -> (k < cfg_made cfg)%nat;
  rp_short o l : owned cfg o = Some l -> match o with InGroup _ _ => True | _ => (length l <= 3)%nat end;
  rp_controller i r : cfg_ctrlerservers cfg !! i = Some (Some r) ->
    registered cfg (ctrlername (Z.of_nat i)) replica_type r /\ exists o, ShardConfig.cfg_objects cfg !! r = Some (inr o);
  rp_objects r x : ShardConfig.cfg_objects cfg !! r = Some (inl x) -> wf (shard_rf x) /\ durable (shard_rf x)
}.

(** ** Groups *)

Definition with_group (g : nat) (gg : group) cfg : Cfg := set_cfg_groups (<[g := Some gg]> (cfg_groups cfg)) cfg.

Lemma group_of_lt cfg g gg : group_of cfg g = Some gg -> (g < length (cfg_groups cfg))%nat.
Proof. intros (x&Hx&_)%bind_Some. by eapply lookup_lt_Some. Qed.

Lemma group_of_with cfg g gg g' gg' : group_of cfg g = Some gg ->
  group_of (with_group g gg' cfg) g' = if decide (g' = g) then Some gg' else group_of cfg g'.
Proof.
  intros Hlt%group_of_lt. unfold group_of. cbn. case_decide as E; [subst; by rewrite list_lookup_insert_eq|].
  by rewrite list_lookup_insert_ne.
Qed.

Lemma with_group_twice g gg gg' cfg : with_group g gg' (with_group g gg cfg) = with_group g gg' cfg.
Proof. unfold with_group. cbn. by rewrite list_insert_insert_eq. Qed.

Lemma wp_group_at g gg cfg (Q : group -> Cfg -> Prop) : group_of cfg g = Some gg -> Q gg cfg -> wp (group_at (Z.of_nat g)) cfg Q.
Proof.
  intros (x&Hx&->)%bind_Some HQ. unfold group_at. go. eapply wp_get_at; [exact Hx|]. by go.
Qed.

Lemma wp_assign_at {A} g gg (f : group -> list A) s i (v : A) cfg (Q : unit -> Cfg -> Prop) : group_of cfg g = Some gg ->
  (i < length (f gg))%nat -> Q tt (with_group g (s (<[i := v]> (f gg)) gg) cfg) ->
  wp (ShardConfig.assign (Z.of_nat g) f s (Z.of_nat i) v) cfg Q.
Proof.
  intros Hg Hi HQ. pose proof (group_of_lt _ _ _ Hg). unfold ShardConfig.assign. go. eapply wp_group_at; [exact Hg|].
  go. eapply wp_lift; [apply slice_set_Some; lia|]. go. eapply wp_lift; [apply slice_set_Some; lia|]. go. by rewrite !Nat2Z.id.
Qed.

(** ** Operations on ends and clerks *)

(** What [rep] says apart from the ends and the clerks. *)
Lemma rep_frame n cfg c : rep n cfg ->
  ShardConfig.cfg_n c = ShardConfig.cfg_n cfg -> cfg_nctrlers c = cfg_nctrlers cfg -> cfg_ngroups c = cfg_ngroups cfg ->
  cfg_groups c = cfg_groups cfg -> cfg_ctrlerservers c = cfg_ctrlerservers cfg -> ShardConfig.cfg_objects c = ShardConfig.cfg_objects cfg ->
  servers (snet c) = servers (snet cfg) -> w_servers (ShardConfig.cfg_world c) = w_servers (ShardConfig.cfg_world cfg) ->
  wires_ok n (owned c) (is_on c) (snet c) -> (forall k, is_Some (ShardConfig.cfg_clerks c !! k) -> (k < cfg_made c)%nat) ->
  (forall o l, owned c o = Some l -> match o with InGroup _ _ => True | _ => (length l <= 3)%nat end) -> rep n c.
Proof.
  intros Hr E1 E2 E3 E4 E5 E6 E7 E8 Hw Hk Hsh.
  assert (Hreg : forall s ty r, registered cfg s ty r -> registered c s ty r).
  { intros s ty r. unfold registered, server_of. by rewrite E7, E8. }
  assert (Hg : forall g, group_of c g = group_of cfg g) by (intros g; unfold group_of; by rewrite E4).
  assert (Hs : forall s, server_of (snet c) s = server_of (snet cfg) s) by (intros s; unfold server_of; by rewrite E7).
  destruct Hr. split; try done; try congruence.
  - intros g gg. rewrite Hg. intros Hgg. destruct (rp_group0 g gg Hgg). split; try done.
    + intros i r Hi. destruct (go_up0 i r Hi). split; [done|by apply Hreg].
    + intros i Hi. rewrite Hs. by apply go_down0.
    + intros i sv Hi. specialize (go_store0 i sv Hi). by rewrite E6.
  - intros g i. rewrite Hg, Hs. apply rp_missing0.
  - intros i r. rewrite E5, E6. intros Hi. destruct (rp_controller0 i r Hi). split; [by apply Hreg|done].
  - intros r x. rewrite E6. apply rp_objects0.
Qed.

Definition fresh_ends (ps : list (string * string)) rn : Prop := NoDup ps.*1 /\ forall nm, nm ∈ ps.*1 -> ends rn !! nm = None.
Lemma fresh_wires k rs server cfg : fresh k rs cfg -> fresh_ends (wires k rs server) (snet cfg).
Proof.
  intros [Hnd Hf]. unfold fresh_ends. rewrite wires_fst. split; [done|]. intros nm (j&->&Hj%elem_of_seq)%list_elem_of_fmap. apply Hf. lia.
Qed.

(** An end for a name, as clerks and servers make them, reaches the server of the name. *)
Lemma wp_make_end n rs s cfg : rep n cfg -> fresh 1 rs cfg ->
  wp (make_end rs s) cfg (fun nm c => rep n c /\ nm = rs 0%nat /\
    connections (snet c) !! nm = Some (Some s) /\ end_enabled (snet c) nm = true /\
    exists rn, c = with_snet rn cfg /\ servers rn = servers (snet cfg)).
Proof.
  intros Hr Hf. unfold make_end. go. eapply wp_mono; [apply wp_add_end, Hf; lia|]. intros [] c (rn&->&Hw). go.
  assert (fresh_ends [(rs 0%nat, s)] (snet cfg)) as [_ Hfr] by (exact (fresh_wires 1 rs (fun _ => s) cfg Hf)).
  destruct (wi_new _ _ _ Hw (rs 0%nat) s) as [? ?]; [set_solver|]. split_and!; try done.
  - eapply rep_frame; [exact Hr|done..|exact (wi_servers _ _ _ Hw)|done| |apply Hr|apply Hr].
    eapply (wires_keep n _ _ (snet cfg)); [apply Hr|exact Hw|exact Hfr].
  - exists rn. by rewrite (wi_servers _ _ _ Hw).
Qed.

Lemma wp_makeClient_shard n rs cfg : rep n cfg -> n = 3%nat -> fresh n rs cfg ->
  wp (ShardConfig.makeClient rs) cfg (fun k c => rep n c /\ k = cfg_made cfg /\ owned c (Client k) = Some (rs <$> seq 0 3) /\
    cfg_groups c = cfg_groups cfg /\ ShardConfig.cfg_clerks c = <[k := rs <$> seq 0 3]> (ShardConfig.cfg_clerks cfg) /\
    cfg_ctrlerservers c = cfg_ctrlerservers cfg).
Proof.
  intros Hr -> Hf. unfold ShardConfig.makeClient. go. rewrite (rp_nctrlers _ _ Hr), (rp_n _ _ Hr).
  rewrite <-(with_snet_id cfg) at 1. eapply wp_mono; [apply (wp_client_ends_from 3 0 rs cfg); [lia|done|apply wired_nil|apply length_replicate|done]|].
  intros l c (->&rn&->&Hw). go. destruct (fresh_wires 3 rs ctrlername cfg Hf) as [Hnd Hfr].
  match goal with |- rep _ ?c' /\ _ => set (c := c') end.
  assert (owned c (Client (cfg_made cfg)) = Some (rs <$> seq 0 3)) as Ho by (cbn; apply lookup_insert_eq).
  split_and!; try done. eapply rep_frame; [exact Hr|done..|exact (wi_servers _ _ _ Hw)|done| | |].
  - eapply (wires_add 3 (owned cfg) _ (is_on cfg) _ (snet cfg) _ (Client (cfg_made cfg))); [apply Hr|exact Hw|done|done| |done| |].
    + by rewrite wires_fst.
    + intros [g i|k| |i] Hne; try done. split; [|done]. cbn. apply lookup_insert_ne. congruence.
    + intros j p [_ ->]%wires_lookup. done.
  - intros k. cbn. rewrite lookup_insert_is_Some'. intros [<-|Hk]; [lia|]. apply (rp_clerks _ _ Hr) in Hk. lia.
  - intros [g i|k| |i] l Hl; [done| |by apply (rp_short _ _ Hr Tester)|by apply (rp_short _ _ Hr (Controller i))]. cbn in Hl.
    apply lookup_insert_Some in Hl as [[_ <-]|[_ Hl]]; [done|by apply (rp_short _ _ Hr (Client k))].
Qed.

Lemma wp_deleteClient_shard n k cfg : rep n cfg ->
  wp (ShardConfig.deleteClient k) cfg (fun _ c => rep n c /\ cfg_groups c = cfg_groups cfg /\ cfg_ctrlerservers c = cfg_ctrlerservers cfg).
Proof.
  intros Hr. unfold ShardConfig.deleteClient. go. split; [|done]. eapply rep_frame; [exact Hr|done..| | |].
  - destruct (rp_wires _ _ Hr) as [Hd Hw]. match goal with |- wires_ok _ (owned ?c') _ _ => set (c := c') end.
    assert (Hown : forall o j nm, end_in (owned c) o j = Some nm -> end_in (owned cfg) o j = Some nm).
    { intros o j nm. unfold end_in. destruct o as [g i|k'| |i]; try done. cbn. destruct (decide (k = k')) as [->|Hne];
        [by rewrite lookup_delete_eq|by rewrite lookup_delete_ne]. }
    split.
    + intros o j o' j' nm Hx%Hown Hy%Hown. by eapply Hd.
    + intros o j nm Hx%Hown. exact (Hw _ _ _ Hx).
  - cbn. intros k' [x [_ Hx]%lookup_delete_Some]. apply (rp_clerks _ _ Hr). by eexists.
  - intros [g i|k'| |i] l Hl; [done| |by apply (rp_short _ _ Hr Tester)|by apply (rp_short _ _ Hr (Controller i))]. cbn in Hl. apply lookup_delete_Some in Hl as [_ Hl].
    by apply (rp_short _ _ Hr (Client k')).
Qed.

(** ** Stopping a server *)

Definition killed_kv (x : Kv) : Kv := default x (snd <$> shard_Kill x).
Lemma Kill_kv (x : Kv) : shard_Kill x = Some (tt, killed_kv x) /\ shard_rf (killed_kv x) = set_dead true (shard_rf x).
Proof. destruct (shard_Kill_rf x) as (x'&E&Hx'). unfold killed_kv. by rewrite E. Qed.

Definition kill_object (o : Kv + Ctl) : Kv + Ctl := match o with inl x => inl (killed_kv x) | inr y => inr y end.
Definition stopped_objects (gg : group) (i : nat) cfg : list (Kv + Ctl) :=
  match gg_servers gg !! i with Some (Some r) => alter kill_object r (ShardConfig.cfg_objects cfg) | _ => ShardConfig.cfg_objects cfg end.
Definition copied (gg : group) (i : nat) cfg : list Saved :=
  match gg_saved gg !! i with
  | Some sv => match ShardConfig.saved_contents sv cfg with Some ps => <[i := Owned ps]> (gg_saved gg) | None => gg_saved gg end
  | None => gg_saved gg
  end.
Definition stopped_group (gg : group) (i : nat) cfg : group :=
  mkGroup (gg_gid gg) (<[i := None]> (gg_servers gg)) (copied gg i cfg) (gg_endnames gg) (gg_mendnames gg).
Definition shutdown (g i : nat) (gg : group) (names : list string) cfg : Cfg :=
  with_group g (stopped_group gg i cfg) (ShardConfig.set_cfg_objects (stopped_objects gg i cfg)
    (with_snet (DeleteServer (group_name g i) (disable names (snet cfg))) cfg)).

Lemma wp_silence (e : list string) (l : list (option (list string))) i cfg : l !! i = Some (Some e) ->
  wp (forM (seq 0 (length e)) (fun j =>
        let! names := lift (slice_get l (Z.of_nat i)) in
        let! name := lift (slice_get (default [] names) (Z.of_nat j)) in
        ShardConfig.on_net (Enable name false))) cfg
    (fun _ c => c = with_snet (disable e (snet cfg)) cfg).
Proof.
  intros Hl. eapply wp_mono; [apply (wp_forM _ _ (fun pre c => c = with_snet (disable (take (length pre) e) (snet cfg)) cfg))|].
  - symmetry. exact (with_snet_id cfg).
  - intros pre j c (post&E) ->. destruct (seq_split _ _ _ _ E) as [Hj _].
    assert (j = length pre) as ->.
    { pose proof (f_equal (fun l => l !! length pre) E) as Hx. rewrite list_lookup_middle in Hx by done. apply lookup_seq in Hx. lia. }
    destruct (lookup_lt_is_Some_2 e (length pre)) as [nm Hnm]; [lia|]. go. eapply wp_get_at; [exact Hl|]. go.
    eapply wp_get_at; [exact Hnm|]. unfold ShardConfig.on_net. go.
    rewrite length_app, Nat.add_1_r, (take_S_r _ _ _ Hnm). unfold disable. by rewrite foldl_app.
  - intros [] c ->. by rewrite length_seq, firstn_all.
Qed.
Lemma wp_silence_more (e m : list string) cfg :
  wp (forM m (fun name => ShardConfig.on_net (Enable name false))) (with_snet (disable e (snet cfg)) cfg)
    (fun _ c => c = with_snet (disable (e ++ m) (snet cfg)) cfg).
Proof.
  eapply wp_mono; [apply (wp_forM _ _ (fun pre c => c = with_snet (disable (e ++ pre) (snet cfg)) cfg))|]; [by rewrite app_nil_r| |by intros [] c ->].
  intros pre nm c _ ->. unfold ShardConfig.on_net. go. rewrite app_assoc. unfold disable. by rewrite (foldl_app _ (e ++ pre)).
Qed.

Lemma group_ends_Some gg i names : group_ends gg i = Some names ->
  exists e m, gg_endnames gg !! i = Some (Some e) /\ gg_mendnames gg !! i = Some (Some m) /\ names = e ++ m.
Proof.
  unfold group_ends. intros (?&?&(e&->&(?&?&(m&->&[= <-])%bind_Some)%bind_Some)%bind_Some)%bind_Some. by exists e, m.
Qed.

Lemma wp_ShutdownServer_shard n g i gg names cfg : rep n cfg -> group_of cfg g = Some gg -> (i < n)%nat -> group_ends gg i = Some names ->
  wp (ShardConfig.ShutdownServer (Z.of_nat g) (Z.of_nat i)) cfg (fun _ c => c = shutdown g i gg names cfg).
Proof.
  intros Hr Hg Hi (e&m&He&Hm&->)%group_ends_Some. pose proof (rp_group _ _ Hr _ _ Hg) as Hok.
  destruct (lookup_range (gg_saved gg) i) as (sv&Hsv&_); [by rewrite (go_saved _ _ _ _ Hok)|].
  destruct (lookup_range (gg_servers gg) i) as (kv&Hkv&_); [by rewrite (go_servers _ _ _ _ Hok)|].
  unfold ShardConfig.ShutdownServer. apply wp_bind. eapply wp_group_at; [exact Hg|].
  rewrite (go_servers _ _ _ _ Hok), <-(go_ends _ _ _ _ Hok _ _ He). apply wp_bind. eapply wp_mono; [by apply wp_silence|].
  intros [] c ->. apply wp_bind. eapply wp_get_at; [exact Hm|]. apply wp_bind. eapply wp_mono; [apply wp_silence_more|].
  intros [] c ->. set (rn := disable (e ++ m) (snet cfg)). unfold ShardConfig.on_net. go. eapply wp_get_at; [exact Hsv|].
  rewrite (go_gid _ _ _ _ Hok). fold (group_name g i). set (cfg1 := ShardConfig.set_cfg_world _ _).
  change cfg1 with (with_snet (DeleteServer (group_name g i) rn) cfg). clear cfg1. set (cfg1 := with_snet _ cfg).
  assert (ShardConfig.saved_contents sv cfg1 = ShardConfig.saved_contents sv cfg) as -> by (by destruct sv).
  apply wp_bind. eapply wp_mono with (P := fun _ c => c = with_group g (set_gg_saved (copied gg i cfg) gg) cfg1).
  { unfold copied. rewrite Hsv. destruct (ShardConfig.saved_contents sv cfg) as [ps|].
    - eapply wp_assign_at; [exact Hg|by rewrite (go_saved _ _ _ _ Hok)|]. by rewrite Copy_id.
    - go. unfold with_group. rewrite list_insert_id; [by destruct cfg|]. apply bind_Some in Hg as (x&Hx&->). by destruct gg. }
  intros [] c ->. go. eapply wp_get_at; [exact Hkv|]. unfold shutdown, stopped_group, stopped_objects. rewrite Hkv. destruct kv as [r|].
  - destruct (go_up _ _ _ _ Hok _ _ Hkv) as [Hs _]. destruct (go_store _ _ _ _ Hok _ _ Hs) as (x&Hx&_). go.
    change (ShardConfig.cfg_objects (with_group g (set_gg_saved (copied gg i cfg) gg) cfg1)) with (ShardConfig.cfg_objects cfg).
    rewrite Hx. go. eapply wp_lift; [apply Kill_kv|]. go. set (cfg2 := ShardConfig.set_cfg_objects _ _).
    eapply (wp_assign_at g (set_gg_saved (copied gg i cfg) gg)); [|cbn; by rewrite (go_servers _ _ _ _ Hok)|].
    { change (group_of cfg2 g) with (group_of (with_group g (set_gg_saved (copied gg i cfg) gg) cfg1) g).
      rewrite (group_of_with cfg1 g gg) by done. by rewrite decide_True. }
    unfold cfg2, with_group, cfg1. cbn. rewrite list_insert_insert_eq, (alter_insert _ _ _ _ Hx). done.
  - go. rewrite (list_insert_id _ _ _ Hkv). done.
Qed.

Lemma length_copied gg i cfg : length (copied gg i cfg) = length (gg_saved gg).
Proof. unfold copied. repeat case_match; rewrite ?length_insert; done. Qed.
Lemma copied_ne gg i cfg j : j <> i -> copied gg i cfg !! j = gg_saved gg !! j.
Proof. intros Hne. unfold copied. repeat case_match; rewrite ?list_lookup_insert_ne by done; done. Qed.
(** The persister saved for a server is that of a sound peer, and a copy of it is kept. *)
Lemma shard_saved_sound n cfg g gg i sv : group_ok n cfg g gg -> gg_saved gg !! i = Some sv ->
  match ShardConfig.saved_contents sv cfg with
  | None => sv = Nil
  | Some ps => exists rf, sound (C := C) n i rf /\ persister rf = ps
  end.
Proof.
  intros Hok Hs. pose proof (go_store _ _ _ _ Hok _ _ Hs) as Hsv. destruct sv as [|ps|r]; cbn; [done|done|].
  destruct Hsv as (x&Hx&Hso). rewrite Hx. by exists (shard_rf x).
Qed.
Lemma copied_eq n cfg g gg i sv : group_ok n cfg g gg -> (i < n)%nat -> copied gg i cfg !! i = Some sv ->
  match sv with Nil => True | Owned ps => exists rf, sound (C := C) n i rf /\ persister rf = ps | Shared _ => False end.
Proof.
  intros Hok Hi. unfold copied. destruct (gg_saved gg !! i) as [sv0|] eqn:E; [|congruence].
  pose proof (shard_saved_sound _ _ _ _ _ _ Hok E) as Hso. destruct (ShardConfig.saved_contents sv0 cfg) as [ps|].
  - rewrite list_lookup_insert_eq by (rewrite (go_saved _ _ _ _ Hok); done). by intros [= <-].
  - rewrite E, Hso. by intros [= <-].
Qed.

Lemma killed_kv_sound n i (x : Kv) : sound n i (shard_rf x) -> sound n i (shard_rf (killed_kv x)).
Proof. rewrite (proj2 (Kill_kv x)). apply sound_Kill. Qed.
Lemma killed_kv_good (x : Kv) : wf (shard_rf x) /\ durable (shard_rf x) ->
  wf (shard_rf (killed_kv x)) /\ durable (shard_rf (killed_kv x)).
Proof.
  rewrite (proj2 (Kill_kv x)). intros [Hwf Hd]. destruct (run_good EvKill (shard_rf x) Hwf Hd I) as (rf'&[= <-]&(?&?&_)&_). done.
Qed.
Lemma stopped_lookup gg i cfg r x : ShardConfig.cfg_objects cfg !! r = Some x ->
  stopped_objects gg i cfg !! r = Some x \/ stopped_objects gg i cfg !! r = Some (kill_object x).
Proof.
  intros Hx. unfold stopped_objects. destruct (gg_servers gg !! i) as [[r'|]|]; [|by left..].
  destruct (decide (r = r')) as [->|Hne]; [right; by rewrite list_lookup_alter_eq, Hx|left; by rewrite list_lookup_alter_ne].
Qed.
Lemma stopped_inv gg i cfg r x : stopped_objects gg i cfg !! r = Some (inl x) ->
  exists x0, ShardConfig.cfg_objects cfg !! r = Some (inl x0) /\ (x = x0 \/ x = killed_kv x0).
Proof.
  unfold stopped_objects. destruct (gg_servers gg !! i) as [[r'|]|]; [|by eauto..].
  destruct (decide (r = r')) as [->|]; [|rewrite list_lookup_alter_ne by done; by eauto].
  rewrite list_lookup_alter_eq. intros ([x0|y]&Hx0&[= ->])%fmap_Some. eauto.
Qed.

(** The servers of other names are where they were. *)
Lemma group_name_ne g i g' i' : (g', i') <> (g, i) -> group_name g' i' <> group_name g i.
Proof. intros Hne E. apply Hne. by apply servername_inj in E as [-> ->]. Qed.

Lemma kv_at_with cfg g gg gg' g' i' : group_of cfg g = Some gg ->
  kv_at (with_group g gg' cfg) g' i' = if decide (g' = g) then (p ← gg_servers gg' !! i'; p) else kv_at cfg g' i'.
Proof. intros Hg. unfold kv_at. rewrite (group_of_with cfg g gg) by done. by case_decide. Qed.

Lemma shutdown_kv_at n g i gg names cfg g' i' : rep n cfg -> group_of cfg g = Some gg -> (i < n)%nat ->
  kv_at (shutdown g i gg names cfg) g' i' = if decide ((g', i') = (g, i)) then None else kv_at cfg g' i'.
Proof.
  intros Hr Hg Hi. pose proof (rp_group _ _ Hr _ _ Hg) as Hok. unfold shutdown. rewrite (kv_at_with _ g gg) by done.
  destruct (decide (g' = g)) as [->|Hne]; [|by rewrite decide_False by congruence].
  cbn. destruct (decide (i' = i)) as [->|Hne].
  - rewrite decide_True by done. by rewrite list_lookup_insert_eq by (by rewrite (go_servers _ _ _ _ Hok)).
  - rewrite decide_False by congruence. rewrite list_lookup_insert_ne by done. unfold kv_at. by rewrite Hg.
Qed.

(** What a change of one group must leave to the rest. *)
Record keeps n cfg c (g : nat) : Prop := {
  ke_sizes : ShardConfig.cfg_n c = ShardConfig.cfg_n cfg /\ cfg_nctrlers c = cfg_nctrlers cfg /\ cfg_ngroups c = cfg_ngroups cfg /\
    cfg_ctrlerservers c = cfg_ctrlerservers cfg /\ ShardConfig.cfg_clerks c = ShardConfig.cfg_clerks cfg /\ cfg_made c = cfg_made cfg /\
    cfg_mck c = cfg_mck cfg /\ cfg_ctrlerends c = cfg_ctrlerends cfg;
  ke_groups : length (cfg_groups c) = length (cfg_groups cfg) /\ forall g', g' <> g -> group_of c g' = group_of cfg g';
  ke_names s : (forall i, s <> group_name g i) -> server_of (snet c) s = server_of (snet cfg) s;
  ke_servers p srv : w_servers (ShardConfig.cfg_world cfg) !! p = Some srv -> w_servers (ShardConfig.cfg_world c) !! p = Some srv;
  ke_sound r x i : ShardConfig.cfg_objects cfg !! r = Some (inl x) -> sound n i (shard_rf x) ->
    exists x', ShardConfig.cfg_objects c !! r = Some (inl x') /\ sound n i (shard_rf x');
  ke_controllers r o : ShardConfig.cfg_objects cfg !! r = Some (inr o) -> exists o', ShardConfig.cfg_objects c !! r = Some (inr o')
}.

Lemma registered_keeps n cfg c g s ty r : keeps n cfg c g -> server_of (snet c) s = server_of (snet cfg) s ->
  registered cfg s ty r -> registered c s ty r.
Proof.
  intros Hk E (p&srv&sv&sv'&Hs&Hp&Hrest). exists p, srv, sv, sv'. rewrite E. split; [done|]. split; [by apply (ke_servers _ _ _ _ Hk)|done].
Qed.

Lemma group_ok_keeps n cfg c g gg g0 : keeps n cfg c g0 -> g <> g0 -> group_ok n cfg g gg -> group_ok n c g gg.
Proof.
  intros Hk Hne Hok. assert (Hs : forall i, server_of (snet c) (group_name g i) = server_of (snet cfg) (group_name g i)).
  { intros i. apply (ke_names _ _ _ _ Hk). intros i'. apply group_name_ne. congruence. }
  destruct Hok. split; try done.
  - intros i r Hi. destruct (go_up0 i r Hi). split; [done|by eapply registered_keeps].
  - intros i Hi. rewrite Hs. by apply go_down0.
  - intros i sv Hi. specialize (go_store0 i sv Hi). destruct sv as [| |r]; [done|done|].
    destruct go_store0 as (x&Hx&Hso). by apply (ke_sound _ _ _ _ Hk) with x.
Qed.

Lemma rep_group n cfg c g : rep n cfg -> keeps n cfg c g ->
  (forall gg, group_of c g = Some gg -> group_ok n c g gg) ->
  (group_of c g = None -> forall i, server_of (snet c) (group_name g i) = None) ->
  wires_ok n (owned c) (is_on c) (snet c) ->
  (forall r x, ShardConfig.cfg_objects c !! r = Some (inl x) -> wf (shard_rf x) /\ durable (shard_rf x)) -> rep n c.
Proof.
  intros Hr Hk Hg Hno Hw Ho. destruct (ke_sizes _ _ _ _ Hk) as (E1&E2&E3&E4&E5&E6&E7&E8). destruct (ke_groups _ _ _ _ Hk) as [El Eg].
  destruct Hr. split; try congruence; try done.
  - intros g' gg Hgg. destruct (decide (g' = g)) as [->|Hne]; [by apply Hg|]. eapply group_ok_keeps; [exact Hk|done|].
    apply rp_group0. by rewrite <-Eg.
  - intros g' i Hgg. destruct (decide (g' = g)) as [->|Hne]; [by apply Hno|]. rewrite (ke_names _ _ _ _ Hk).
    + apply rp_missing0. by rewrite <-Eg.
    + intros i'. apply group_name_ne. congruence.
  - intros k. rewrite E5, E6. apply rp_clerks0.
  - intros [g' i|k| |i] l Hl; [done|..]; cbn in Hl; rewrite ?E5, ?E7, ?E8 in Hl.
    + by apply (rp_short0 (Client k)).
    + by apply (rp_short0 Tester).
    + by apply (rp_short0 (Controller i)).
  - intros i r. rewrite E4. intros Hi. destruct (rp_controller0 i r Hi) as [Hreg [o Hobj]]. split.
    + eapply registered_keeps; [exact Hk|apply (ke_names _ _ _ _ Hk); intros i'; apply not_eq_sym, servername_ctrlername|done].
    + by eapply (ke_controllers _ _ _ _ Hk).
Qed.

Lemma shutdown_keeps n g i gg names cfg : rep n cfg -> group_of cfg g = Some gg -> keeps n cfg (shutdown g i gg names cfg) g.
Proof.
  intros Hr Hg. split; try done.
  - split; [cbn; by rewrite length_insert|]. intros g' Hne. unfold shutdown. rewrite (group_of_with _ g gg) by done. by rewrite decide_False.
  - intros s Hs. unfold server_of, shutdown. cbn. rewrite lookup_insert_ne by (apply not_eq_sym, Hs).
    by rewrite (proj2 (proj2 (disable_rest names (snet cfg)))).
  - intros r x k Hx Hso. cbn. destruct (stopped_lookup gg i cfg r (inl x) Hx) as [-> | ->]; eexists; (split; [done|]); [done|by apply killed_kv_sound].
  - intros r o Ho. cbn. destruct (stopped_lookup gg i cfg r (inr o) Ho) as [-> | ->]; by eexists.
Qed.

Lemma shutdown_rep n g i gg names cfg : rep n cfg -> group_of cfg g = Some gg -> (i < n)%nat -> group_ends gg i = Some names ->
  rep n (shutdown g i gg names cfg).
Proof.
  intros Hr Hg Hi Hnames. pose proof (rp_group _ _ Hr _ _ Hg) as Hok. pose proof (shutdown_keeps n g i gg names cfg Hr Hg) as Hk.
  set (c := shutdown g i gg names cfg) in *.
  assert (Hgc : group_of c g = Some (stopped_group gg i cfg)) by (unfold c, shutdown; rewrite (group_of_with _ g gg) by done; by rewrite decide_True).
  assert (Hsrv : forall j, server_of (snet c) (group_name g j) = if decide (j = i) then None else server_of (snet cfg) (group_name g j)).
  { intros j. unfold server_of. cbn. destruct (decide (j = i)) as [->|Hne]; [by rewrite lookup_insert_eq|].
    rewrite lookup_insert_ne by (apply group_name_ne; congruence). by rewrite (proj2 (proj2 (disable_rest names (snet cfg)))). }
  eapply rep_group; [exact Hr|exact Hk| |by rewrite Hgc| |].
  - rewrite Hgc. intros gg' [= <-]. pose proof Hok as [? Hls Hlsv ? ? ? ? Hup Hdown Hstore]. split; cbn; try done.
    + by rewrite length_insert.
    + by rewrite length_copied.
    + intros j r Hj. destruct (decide (j = i)) as [->|Hne]; [by rewrite list_lookup_insert_eq in Hj by lia|].
      rewrite list_lookup_insert_ne in Hj by done. destruct (Hup j r Hj) as [? Hreg]. split; [by rewrite copied_ne|].
      eapply registered_keeps; [exact Hk| |exact Hreg]. by rewrite Hsrv, decide_False.
    + intros j Hj. rewrite Hsrv. destruct (decide (j = i)) as [->|Hne]; [done|]. rewrite list_lookup_insert_ne in Hj by done. by apply Hdown.
    + intros j sv Hj. destruct (decide (j = i)) as [->|Hne]; [pose proof (copied_eq _ _ _ _ _ _ Hok Hi Hj); by destruct sv|].
      rewrite copied_ne in Hj by done. pose proof (Hstore j sv Hj) as Hsv. destruct sv as [| |r]; [done|done|].
      destruct Hsv as (x&Hx&Hso). by apply (ke_sound _ _ _ _ Hk) with x.
  - apply (wires_net n _ _ (disable names (snet cfg))); [done..|].
    assert (Hown : forall o, owned c o = owned cfg o).
    { intros [g' i'|k| |k]; try done. cbn. unfold c, shutdown. rewrite (group_of_with _ g gg) by done. case_decide as E; [|done].
      subst g'. cbn. change (group_ends gg i' = owned cfg (InGroup g i')). cbn. by rewrite Hg. }
    pose proof (rp_wires _ _ Hr) as Hw. eapply (wires_disable n _ (is_on cfg) _ _ (InGroup g i)).
    + destruct Hw as [Hd Hw]. split; intros *; unfold end_in; rewrite !Hown; [apply Hd|apply Hw].
    + rewrite Hown. cbn. by rewrite Hg.
    + cbn. unfold c. rewrite (shutdown_kv_at n) by done. rewrite decide_True by done. by apply bool_decide_eq_false; intros [].
    + intros [g' i'|k| |k] Hne; try done. cbn. unfold c. rewrite (shutdown_kv_at n) by done. by rewrite decide_False by congruence.
  - intros r x Hx. destruct (stopped_inv gg i cfg r x Hx) as (x0&Hx0&[-> | ->]); [by eapply rp_objects|].
    apply killed_kv_good. by eapply rp_objects.
Qed.

(** ** Starting a server *)

Definition services_of (r : nat) (ty : string) (ms : list Method) : Server :=
  AddService (MakeService (mkReceiver r "Raft" raftMethods)) (AddService (MakeService (mkReceiver r ty ms)) MakeServer).
Lemma services_of_registered cfg s ty r ms p : ty <> "Raft"%string ->
  server_of (snet cfg) s = Some p -> w_servers (ShardConfig.cfg_world cfg) !! p = Some (services_of r ty ms) -> registered cfg s ty r.
Proof.
  intros Hty Hs Hp. eexists _, (services_of r ty ms), _, _. split; [done|]. split; [done|]. cbn.
  rewrite lookup_insert_ne by (by apply not_eq_sym). split; [apply lookup_insert_eq|]. split; [done|]. split; [apply lookup_insert_eq|done].
Qed.

(** The network [rn] with a new server, its services and its object. *)
Definition enrolled (name ty : string) (ms : list Method) (o : Kv + Ctl) rn cfg : Cfg :=
  let w := ShardConfig.cfg_world cfg in
  ShardConfig.set_cfg_objects (ShardConfig.cfg_objects cfg ++ [o])
    (ShardConfig.set_cfg_world (mkWorld (AddServer name (length (w_servers w)) rn)
       (w_servers w ++ [services_of (length (ShardConfig.cfg_objects cfg)) ty ms]) (w_looping w) (w_calls w)) cfg).
Definition started_group (gg : group) (i r n : nat) (rs : nat -> string) : group :=
  mkGroup (gg_gid gg) (<[i := Some r]> (gg_servers gg)) (<[i := Shared r]> (gg_saved gg))
    (<[i := Some (rs <$> seq 0 n)]> (gg_endnames gg)) (<[i := Some (rs <$> seq n 3)]> (gg_mendnames gg)).
Definition launch (g i : nat) (gg : group) (n : nat) (rs : nat -> string) rn (x : Kv) cfg : Cfg :=
  with_group g (started_group gg i (length (ShardConfig.cfg_objects cfg)) n rs) (enrolled (group_name g i) "ShardKV" methods (inl x) rn cfg).

(** The ends of a server of group [g]: to its group, then to the controllers. *)
Definition server_wires (n g : nat) (rs : nat -> string) : list (string * string) :=
  wires n rs (servername (100 + Z.of_nat g)) ++ wires 3 (fun j => rs (n + j)%nat) ctrlername.

Lemma server_wires_fst n g rs : (server_wires n g rs).*1 = (rs <$> seq 0 n) ++ (rs <$> seq n 3).
Proof. unfold server_wires. rewrite fmap_app, !wires_fst. f_equal. cbn. by rewrite !Nat.add_0_r, !Nat.add_succ_r, Nat.add_0_r. Qed.
Lemma server_wires_target n g i rs j p : server_wires n g rs !! j = Some p -> p.2 = target n (InGroup g i) j.
Proof.
  unfold server_wires, target. intros [[Hlt ->]%wires_lookup|[Hge [Hlt ->]%wires_lookup]]%lookup_app_Some; cbn.
  - by rewrite decide_True.
  - assert (length (wires n rs (servername (100 + Z.of_nat g))) = n) as Hlen by (unfold wires; by rewrite length_fmap, length_seq).
    rewrite Hlen in Hge |- *. by rewrite decide_False by lia.
Qed.

Definition storage (gg : group) (i : nat) cfg : Persister :=
  match gg_saved gg !! i with Some sv => default MakePersister (ShardConfig.saved_contents sv cfg) | None => MakePersister end.

(** A server started on what the tester has saved for it comes up. *)
Lemma storage_starts n g gg i cfg : group_ok n cfg g gg -> (i < n)%nat -> exists x,
  shard_start n (Z.of_nat i) (storage gg i cfg) (cfg_maxraftstate cfg) (gg_gid gg) = Some x /\
  Make n (Z.of_nat i) (storage gg i cfg) = Some (shard_rf x) /\ sound n i (shard_rf x).
Proof.
  intros Hok Hi. assert (exists rf, Make (C := C) n (Z.of_nat i) (storage gg i cfg) = Some rf /\ sound n i rf) as (rf&HM&Hso).
  { unfold storage. destruct (gg_saved gg !! i) as [sv|] eqn:E; [|by apply fresh_Make].
    pose proof (shard_saved_sound _ _ _ _ _ _ Hok E) as Hsv. destruct (ShardConfig.saved_contents sv cfg) as [ps|]; [|by apply fresh_Make].
    destruct Hsv as (rf&Hso&<-). cbn. destruct (sound_Make n i rf Hso) as (rf'&?&?&_). eauto. }
  destruct (shard_start_Make _ _ _ (cfg_maxraftstate cfg) (gg_gid gg) _ HM) as (x&Hx&<-). by exists x.
Qed.

Lemma fresh_split n k rs cfg rn server : fresh (n + k) rs cfg -> wired_in (wires n rs server) (snet cfg) rn ->
  fresh k (fun j => rs (n + j)%nat) (with_snet rn cfg) /\ forall nm, nm ∈ rs <$> seq 0 n -> nm ∉ (fun j => rs (n + j)%nat) <$> seq 0 k.
Proof.
  intros [Hnd Hf] Hw. rewrite seq_app, fmap_app, NoDup_app in Hnd. destruct Hnd as (_&Hd&Hnd).
  assert (E : rs <$> seq (0 + n) k = (fun j => rs (n + j)%nat) <$> seq 0 k).
  { rewrite <-(Nat.add_0_r (0 + n)), <-fmap_add_seq, <-list_fmap_compose. apply list_fmap_ext. intros ? j _. cbn. done. }
  rewrite E in Hnd, Hd. split; [|done]. split; [done|]. intros j Hj. cbn. destruct (ends rn !! rs (n + j)%nat) eqn:Ee; [|done]. exfalso.
  destruct (proj1 (wi_ends _ _ _ Hw (rs (n + j)%nat))) as [[? Hx]|Hin]; [by eexists|rewrite (Hf (n + j)%nat) in Hx by lia; done|].
  rewrite wires_fst in Hin. apply (Hd _ Hin). apply list_elem_of_fmap. exists j. split; [done|]. apply elem_of_seq. lia.
Qed.

Lemma wp_StartServer_shard n g i gg rs cfg : rep n cfg -> group_of cfg g = Some gg -> (i < n)%nat -> (i < 3)%nat -> fresh (n + 3) rs cfg ->
  wp (ShardConfig.StartServer methods raftMethods (Z.of_nat g) (Z.of_nat i) rs) cfg (fun _ c => exists rn x,
    c = launch g i gg n rs rn x cfg /\ wired_in (server_wires n g rs) (snet cfg) rn /\
    Make n (Z.of_nat i) (storage gg i cfg) = Some (shard_rf x) /\ sound n i (shard_rf x)).
Proof.
  intros Hr Hg Hi Hn Hf. pose proof (rp_group _ _ Hr _ _ Hg) as Hok. destruct (storage_starts n g gg i cfg Hok Hi) as (x&Hx&HM&Hso).
  destruct (lookup_range (gg_saved gg) i) as (sv&Hsv&_); [by rewrite (go_saved _ _ _ _ Hok)|].
  unfold ShardConfig.StartServer. go. rewrite (rp_n _ _ Hr), (rp_nctrlers _ _ Hr).
  eapply wp_assign_at; [exact Hg|by rewrite (go_endnames _ _ _ _ Hok)|]. set (gg1 := set_gg_endnames _ gg).
  assert (Hgof : forall gg' c, (length (cfg_groups c) = length (cfg_groups cfg))%nat -> group_of (with_group g gg' c) g = Some gg').
  { intros gg' c Hc. unfold group_of. cbn. rewrite list_lookup_insert_eq; [done|]. rewrite Hc. by eapply group_of_lt. }
  go. eapply wp_group_at; [by apply Hgof|]. go.
  eapply wp_mono; [apply (wp_shard_add_ends n rs (servername (gg_gid gg1))), (fresh_le n (n + 3)); [lia|exact Hf]|]. intros [] c (rn1&->&Hw1). go.
  eapply (wp_assign_at g gg1); [by apply (Hgof gg1 (with_snet rn1 cfg))|cbn; rewrite (go_mendnames _ _ _ _ Hok); lia|].
  set (gg2 := set_gg_mendnames _ gg1). set (c2 := with_group g gg2 _). go.
  change (gg_gid gg1) with (gg_gid gg) in Hw1. rewrite (go_gid _ _ _ _ Hok) in Hw1. change (snet (with_group g gg1 cfg)) with (snet cfg) in Hw1.
  destruct (fresh_split n 3 rs cfg rn1 _ Hf Hw1) as [Hf2 Hd].
  eapply wp_mono; [apply (wp_shard_add_ends 3 (fun j => rs (n + j)%nat) ctrlername c2); exact Hf2|]. intros [] c (rn&->&Hw2). go.
  eapply wp_group_at; [apply (Hgof gg2 (with_snet rn (with_group g gg1 cfg))); cbn; by rewrite length_insert|]. go. eapply wp_get_at; [exact Hsv|]. go.
  eapply wp_lift with (a := x).
  { rewrite <-Hx. unfold storage. rewrite Hsv.
    match goal with |- context [ShardConfig.saved_contents sv ?c] => assert (ShardConfig.saved_contents sv c = ShardConfig.saved_contents sv cfg) as -> by (by destruct sv) end.
    change (gg_gid gg2) with (gg_gid gg). destruct (ShardConfig.saved_contents sv cfg); cbn; by rewrite ?Copy_id. }
  go. match goal with |- wp _ ?c _ => set (c3 := c) end.
  assert (Hl3 : length (cfg_groups c3) = length (cfg_groups cfg)) by (cbn; by rewrite !length_insert).
  eapply (wp_assign_at g gg2); [apply (Hgof gg2 (with_snet rn (with_group g gg1 cfg))); cbn; by rewrite length_insert|cbn; by rewrite (go_saved _ _ _ _ Hok)|].
  go. eapply wp_assign_at; [by apply Hgof|cbn; by rewrite (go_servers _ _ _ _ Hok)|].
  unfold register, ShardConfig.on_net. go. exists rn, x. split_and!; [|eapply wired_app; [|exact Hw1|exact Hw2]; by rewrite !wires_fst|done|done].
  unfold launch, enrolled, with_group, c3. cbn. rewrite !list_insert_insert_eq, (go_gid _ _ _ _ Hok). done.
Qed.

Lemma enrolled_server name ty ms o rn cfg s : servers rn = servers (snet cfg) ->
  server_of (snet (enrolled name ty ms o rn cfg)) s =
    if decide (s = name) then Some (length (w_servers (ShardConfig.cfg_world cfg))) else server_of (snet cfg) s.
Proof.
  intros Es. unfold server_of. cbn. rewrite Es. destruct (decide (s = name)) as [->|]; [by rewrite lookup_insert_eq|by rewrite lookup_insert_ne].
Qed.

Lemma launch_kv_at n g i gg rs rn x cfg g' i' : rep n cfg -> group_of cfg g = Some gg -> (i < n)%nat ->
  kv_at (launch g i gg n rs rn x cfg) g' i' = if decide ((g', i') = (g, i)) then Some (length (ShardConfig.cfg_objects cfg)) else kv_at cfg g' i'.
Proof.
  intros Hr Hg Hi. pose proof (rp_group _ _ Hr _ _ Hg) as Hok. unfold launch. rewrite (kv_at_with _ g gg) by done.
  destruct (decide (g' = g)) as [->|Hne]; [|by rewrite decide_False by congruence].
  cbn. destruct (decide (i' = i)) as [->|Hne].
  - rewrite decide_True by done. by rewrite list_lookup_insert_eq by (by rewrite (go_servers _ _ _ _ Hok)).
  - rewrite decide_False by congruence. rewrite list_lookup_insert_ne by done. unfold kv_at. by rewrite Hg.
Qed.

Lemma launch_owned n g i gg rs rn x cfg o : rep n cfg -> group_of cfg g = Some gg -> (i < n)%nat -> (i < 3)%nat ->
  owned (launch g i gg n rs rn x cfg) o =
    if decide (o = InGroup g i) then Some ((rs <$> seq 0 n) ++ (rs <$> seq n 3)) else owned cfg o.
Proof.
  intros Hr Hg Hi Hn. pose proof (rp_group _ _ Hr _ _ Hg) as Hok. destruct o as [g' i'|k| |k]; [|by rewrite decide_False by done..].
  cbn. unfold launch. rewrite (group_of_with _ g gg) by done. destruct (decide (g' = g)) as [->|Hne]; [|by rewrite decide_False by congruence].
  cbn. destruct (decide (i' = i)) as [->|Hne].
  - rewrite decide_True by done. unfold group_ends. cbn [started_group gg_endnames gg_mendnames].
    rewrite !list_lookup_insert_eq by (rewrite ?(go_endnames _ _ _ _ Hok), ?(go_mendnames _ _ _ _ Hok); lia). done.
  - rewrite decide_False by congruence. unfold group_ends. cbn. rewrite !list_lookup_insert_ne by done. by rewrite Hg.
Qed.

Lemma launch_keeps n g i gg rs rn x cfg : rep n cfg -> group_of cfg g = Some gg -> servers rn = servers (snet cfg) ->
  keeps n cfg (launch g i gg n rs rn x cfg) g.
Proof.
  intros Hr Hg Es. split; try done.
  - split; [cbn; by rewrite length_insert|]. intros g' Hne. unfold launch. rewrite (group_of_with _ g gg) by done. by rewrite decide_False.
  - intros s Hs. change (server_of (snet (enrolled (group_name g i) "ShardKV" methods (inl x) rn cfg)) s = server_of (snet cfg) s).
    rewrite enrolled_server by done. by rewrite decide_False.
  - intros p srv Hp. cbn. by apply lookup_app_l_Some.
  - intros r x' k Hx' Hso. exists x'. split; [|done]. cbn. by apply lookup_app_l_Some.
  - intros r o Ho. exists o. cbn. by apply lookup_app_l_Some.
Qed.

Lemma launch_rep n g i gg rs rn x cfg : rep n cfg -> group_of cfg g = Some gg -> (i < n)%nat -> (i < 3)%nat ->
  fresh (n + 3) rs cfg -> wired_in (server_wires n g rs) (snet cfg) rn -> sound n i (shard_rf x) -> rep n (launch g i gg n rs rn x cfg).
Proof.
  intros Hr Hg Hi Hn Hf Hw Hso. pose proof (rp_group _ _ Hr _ _ Hg) as Hok.
  pose proof (launch_keeps n g i gg rs rn x cfg Hr Hg (wi_servers _ _ _ Hw)) as Hk.
  pose proof (fun o => launch_owned n g i gg rs rn x cfg o Hr Hg Hi Hn) as Hown.
  pose proof (fun g' i' => launch_kv_at n g i gg rs rn x cfg g' i' Hr Hg Hi) as Hkv.
  set (c := launch g i gg n rs rn x cfg) in *. set (r0 := length (ShardConfig.cfg_objects cfg)).
  assert (Hgc : group_of c g = Some (started_group gg i r0 n rs)) by (unfold c, launch; rewrite (group_of_with _ g gg) by done; by rewrite decide_True).
  assert (Hsrv : forall j, server_of (snet c) (group_name g j) =
    if decide (j = i) then Some (length (w_servers (ShardConfig.cfg_world cfg))) else server_of (snet cfg) (group_name g j)).
  { intros j. change (snet c) with (snet (enrolled (group_name g i) "ShardKV" methods (inl x) rn cfg)). rewrite enrolled_server by apply Hw.
    destruct (decide (j = i)) as [->|Hne]; [by rewrite decide_True|]. rewrite decide_False; [done|]. apply group_name_ne. congruence. }
  eapply rep_group; [exact Hr|exact Hk| |by rewrite Hgc| |].
  - rewrite Hgc. intros gg' [= <-]. pose proof Hok as [? Hls Hlsv Hle Hlm He Hm Hup Hdown Hstore]. split; cbn [started_group gg_gid gg_servers gg_saved gg_endnames gg_mendnames];
      rewrite ?length_insert; try done.
    + intros j e [(_&[= <-]&_)|[_ Hj]]%list_lookup_insert_Some; [by rewrite length_fmap, length_seq|by eapply He].
    + intros j m [(_&[= <-]&_)|[_ Hj]]%list_lookup_insert_Some; [done|by eapply Hm].
    + intros j r Hj. destruct (decide (j = i)) as [->|Hne].
      * rewrite list_lookup_insert_eq in Hj by lia. injection Hj as <-. split; [by rewrite list_lookup_insert_eq by lia|].
        eapply (services_of_registered _ _ _ _ methods); [done|by rewrite Hsrv, decide_True|]. cbn. by apply list_lookup_middle.
      * rewrite list_lookup_insert_ne in Hj by done. destruct (Hup j r Hj) as [? Hreg]. split; [by rewrite list_lookup_insert_ne|].
        eapply registered_keeps; [exact Hk| |exact Hreg]. by rewrite Hsrv, decide_False.
    + intros j Hj. destruct (decide (j = i)) as [->|Hne]; [by rewrite list_lookup_insert_eq in Hj by lia|].
      rewrite list_lookup_insert_ne in Hj by done. rewrite Hsrv, decide_False by done. by apply Hdown.
    + intros j sv [(<-&<-&_)|[_ Hj]]%list_lookup_insert_Some; [exists x; split; [by apply list_lookup_middle|done]|].
      pose proof (Hstore j sv Hj) as Hsv. destruct sv as [| |r]; [done|done|]. destruct Hsv as (x0&Hx0&?). by apply (ke_sound _ _ _ _ Hk) with x0.
  - apply (wires_net n _ _ rn); [done..|].
    destruct Hf as [Hnd Hfr]. rewrite seq_app, fmap_app in Hnd. change (0 + n)%nat with n in Hnd. rewrite <-(server_wires_fst n g rs) in Hnd.
    eapply (wires_add n (owned cfg) _ (is_on cfg) _ (snet cfg) _ (InGroup g i)); [apply Hr|exact Hw|exact Hnd| | | | |].
    + intros nm. rewrite server_wires_fst, <-fmap_app. intros (j&->&[Hj|Hj]%elem_of_app)%list_elem_of_fmap; apply elem_of_seq in Hj; apply Hfr; lia.
    + by rewrite Hown, decide_True, server_wires_fst.
    + cbn. rewrite Hkv, decide_True by done. by apply bool_decide_eq_true.
    + intros o Hne. rewrite Hown, decide_False by done. split; [done|]. destruct o as [g' i'|k| |k]; try done. cbn. by rewrite Hkv, decide_False by congruence.
    + intros j p Hj. by eapply server_wires_target.
  - intros r y. cbn. intros [Hy|[_ Hy]]%lookup_app_Some; [by eapply rp_objects|].
    apply list_lookup_singleton_Some in Hy as [_ [= <-]]. destruct Hso as (?&?&_). done.
Qed.
End life.
