(* ===== verification/ShardConfigProps.v ===== *)
(** * The sharded service under test

    After [make_config], whatever the tester does, requests reach the servers their names
    designate ([shard_tester_network]); with more than three servers in a group
    [make_config] panics, and with fewer [makeClient] does ([shard_tester_needs_three]). *)
From Stdlib Require Import Strings.Byte.
From S2P Require Import Prelude Names Labgob Persister RaftTypes RaftNode RaftLog RaftSpec RaftSnapshot RaftInv Labrpc RaftConfig RaftConfigNet ServiceConfig ServiceConfigLife ShardConfig ShardConfigNet ShardConfigLife.

Section props.
Context {Kv C Ctl D : Type} `{Gob Z} `{Gob (list (Entry C))} `{Gob (list (Entry D))} `{Rand} `{Alloc}.
Context `{ShardReplica Kv C} `{!ShardReplicaLaws Kv C} `{Replica Ctl D} `{!ReplicaLaws Ctl D}.
Context `{!GobLaws Z} `{!GobLaws (list (Entry C))} `{!GobLaws (list (Entry D))} `{Values}.
Context (methods ctrlMethods raftMethods : list Method).
Abbreviation Cfg := (ShardConfig.config (Kv := Kv) (Ctl := Ctl)).
Abbreviation Net := (Network (EndName := string) (SrvName := string)).
Implicit Types (cfg c : Cfg) (rn : Net) (rs : Draw -> nat -> string).

(** ** Random names *)

(** [randstring] does not return a string twice. *)
Definition draws_distinct rs : Prop := forall d j d' j', rs d j = rs d' j' -> d = d' /\ j = j'.
(** All ends were named by the draws [used]. *)
Definition drawn rs (used : Draw -> Prop) cfg : Prop :=
  forall nm, is_Some (ends (snet cfg) !! nm) -> exists d j, used d /\ nm = rs d j.

Lemma fresh_draw rs used cfg d k : draws_distinct rs -> drawn rs used cfg -> ~ used d -> fresh k (rs d) cfg.
Proof.
  intros Hd Hu Hn. split.
  - apply (NoDup_fmap_2_strong (rs d)); [|apply NoDup_seq]. intros j j' _ _ E. by apply Hd in E as [_ ->].
  - intros j _. destruct (ends (snet cfg) !! rs d j) eqn:E; [|done]. destruct (Hu (rs d j)) as (d'&j'&Hin&E'); [by eexists|].
    apply Hd in E' as [-> _]. done.
Qed.

Lemma drawn_add rs (used used' : Draw -> Prop) cfg rn d ps : drawn rs used cfg -> wired_in ps (snet cfg) rn ->
  (forall nm, nm ∈ ps.*1 -> exists j, nm = rs d j) -> (forall d', used d' -> used' d') -> used' d -> drawn rs used' (with_snet rn cfg).
Proof.
  intros Hu Hw Hp Hsub Hd nm Hnm. apply (wi_ends _ _ _ Hw) in Hnm as [Hnm|Hin].
  - destruct (Hu nm Hnm) as (d'&j&?&?). exists d', j. split; [by apply Hsub|done].
  - destruct (Hp nm Hin) as (j&->). by exists d, j.
Qed.
Lemma wires_drawn rs d k server nm : nm ∈ (wires k (rs d) server).*1 -> exists j, nm = rs d j.
Proof. rewrite wires_fst. intros (j&->&_)%list_elem_of_fmap. by exists j. Qed.
Lemma server_wires_drawn rs d n g nm : nm ∈ (server_wires n g (rs d)).*1 -> exists j, nm = rs d j.
Proof. rewrite server_wires_fst, <-fmap_app. intros (j&->&_)%list_elem_of_fmap. by exists j. Qed.

(** ** make_config *)

Definition enlist (i : nat) (names : list string) rn (o : Ctl) cfg : Cfg :=
  set_cfg_ctrlerservers (<[i := Some (length (ShardConfig.cfg_objects cfg))]> (cfg_ctrlerservers cfg))
    (set_cfg_ctrlerends (<[i := names]> (cfg_ctrlerends cfg))
      (enrolled raftMethods (ctrlername (Z.of_nat i)) replica_type ctrlMethods (inr o) rn cfg)).

Lemma wp_StartCtrlerserver n i ss cfg : rep n cfg -> (i < 3)%nat -> fresh 3 ss cfg ->
  wp (StartCtrlerserver ctrlMethods raftMethods (Z.of_nat i) ss) cfg (fun _ c => exists rn o,
    c = enlist i (ss <$> seq 0 3) rn o cfg /\ wired_in (wires 3 ss ctrlername) (snet cfg) rn).
Proof.
  intros Hr Hi Hf. unfold StartCtrlerserver. go. rewrite (rp_nctrlers _ _ Hr). eapply wp_mono; [by apply wp_shard_add_ends|].
  intros [] c (rn&->&Hw). destruct (fresh_Make (C := D) 3 i Hi) as (rf&HM&_). destruct (replica_start_Make _ _ _ _ HM) as (o&Ho&_).
  go. eapply wp_lift; [exact Ho|]. go. cbn. eapply wp_lift; [apply slice_set_Some; rewrite (rp_ctrlers _ _ Hr); lia|].
  unfold register, ShardConfig.on_net. go. exists rn, o. split; [|done]. unfold enlist. cbn. rewrite !Nat2Z.id, (rp_nctrlers _ _ Hr). done.
Qed.

Definition no_groups cfg : Prop := forall g, group_of cfg g = None.

Lemma enlist_rep n i ss rn o cfg : rep n cfg -> no_groups cfg -> (i < 3)%nat -> fresh 3 ss cfg ->
  wired_in (wires 3 ss ctrlername) (snet cfg) rn -> rep n (enlist i (ss <$> seq 0 3) rn o cfg).
Proof.
  intros Hr Hno Hi Hf Hw. destruct (fresh_wires 3 ss ctrlername cfg Hf) as [Hnd Hfr].
  assert (Hsrv : forall s, server_of (snet (enlist i (ss <$> seq 0 3) rn o cfg)) s =
    if decide (s = ctrlername (Z.of_nat i)) then Some (length (w_servers (ShardConfig.cfg_world cfg))) else server_of (snet cfg) s).
  { intros s. exact (enrolled_server raftMethods _ replica_type ctrlMethods (inr o) rn cfg s (wi_servers _ _ _ Hw)). }
  split; try apply Hr.
  - cbn. rewrite length_insert. apply Hr.
  - intros g gg Hg. change (group_of cfg g = Some gg) in Hg. by rewrite Hno in Hg.
  - intros g k _. rewrite Hsrv, decide_False by apply servername_ctrlername. by apply (rp_missing _ _ Hr).
  - apply (wires_net n _ _ rn); [done..|].
    eapply (wires_add n (owned cfg) _ (is_on cfg) _ (snet cfg) _ (Controller i)); [apply Hr|exact Hw|done|done| |done| |].
    + change (<[i := ss <$> seq 0 3]> (cfg_ctrlerends cfg) !! i = Some (wires 3 ss ctrlername).*1). by rewrite lookup_insert_eq, wires_fst.
    + intros [g k|k| |k] Hne; try done. split; [|done]. cbn. apply lookup_insert_ne. congruence.
    + intros j p [_ ->]%wires_lookup. done.
  - intros [g k|k| |k] l Hl; [done|by apply (rp_short _ _ Hr (Client k))|by apply (rp_short _ _ Hr Tester)|].
    cbn in Hl. apply lookup_insert_Some in Hl as [[_ <-]|[_ Hl]]; [done|by apply (rp_short _ _ Hr (Controller k))].
  - intros k r Hk. cbn in Hk. destruct (decide (k = i)) as [->|Hne].
    + rewrite list_lookup_insert_eq in Hk by (by rewrite (rp_ctrlers _ _ Hr)). injection Hk as <-. split; [|exists o; by apply list_lookup_middle].
      eapply (services_of_registered raftMethods _ _ _ _ ctrlMethods); [apply replica_not_Raft|by rewrite Hsrv, decide_True|]. cbn. by apply list_lookup_middle.
    + rewrite list_lookup_insert_ne in Hk by done. destruct (rp_controller _ _ Hr k r Hk) as [(p&srv&sv&sv'&?&Hp&?) [o' Ho']]. split.
      * exists p, srv, sv, sv'. rewrite Hsrv, decide_False by (intros E%ctrlername_inj; done). split; [done|]. split; [cbn; by apply lookup_app_l_Some|done].
      * exists o'. cbn. by apply lookup_app_l_Some.
  - intros r x. cbn. intros [Hx|[_ Hx]]%lookup_app_Some; [by eapply (rp_objects _ _ Hr)|]. by apply list_lookup_singleton_Some in Hx as [_ [=]].
Qed.

(** The controllers of [pre] have been started. *)
Record controllers_up n rs (pre : list nat) cfg : Prop := {
  cu_rep : rep n cfg;
  cu_groups : no_groups cfg;
  cu_drawn : drawn rs (fun d => exists i, i ∈ pre /\ d = ControllerEnds i) cfg;
  cu_up i : i ∈ pre -> (exists r, cfg_ctrlerservers cfg !! i = Some (Some r)) /\ exists l, owned cfg (Controller i) = Some l /\ length l = 3%nat;
  cu_clerks : ShardConfig.cfg_clerks cfg = ∅
}.

Lemma zero_config_up n maxraftstate rs : controllers_up n rs [] (zero_config n maxraftstate).
Proof.
  assert (Hno : no_groups (zero_config (Kv := Kv) (Ctl := Ctl) n maxraftstate)) by (intros [|[|[|g]]]; done).
  assert (Hend : forall o j nm, end_in (owned (zero_config (Kv := Kv) (Ctl := Ctl) n maxraftstate)) o j = Some nm -> False).
  { intros o j nm (l&Hl&Hj)%bind_Some. destruct o as [g i|k| |i]; cbn in Hl; [by rewrite Hno in Hl|done| |done].
    injection Hl as <-. done. }
  split; try done.
  - split; try done.
    + intros g gg Hg. by rewrite Hno in Hg.
    + split; intros; exfalso; eauto.
    + intros k [? [=]].
    + intros [g i|k| |i] l Hl; try done. injection Hl as <-. cbn. lia.
    + by intros [|[|[|i]]] r.
  - intros nm [? [=]].
  - intros i Hi. set_solver.
Qed.

Lemma controllers_step n rs pre i cfg : draws_distinct rs -> (i < 3)%nat -> i ∉ pre -> controllers_up n rs pre cfg ->
  wp (StartCtrlerserver ctrlMethods raftMethods (Z.of_nat i) (rs (ControllerEnds i))) cfg (fun _ => controllers_up n rs (pre ++ [i])).
Proof.
  intros Hd Hi Hpre [Hr Hno Hdr Hup Hck].
  assert (Hf : fresh 3 (rs (ControllerEnds i)) cfg) by (eapply fresh_draw; [done|exact Hdr|]; intros (k&Hk&[= ->]); done).
  eapply wp_mono; [by apply (wp_StartCtrlerserver n)|]. intros [] c (rn&o&->&Hw). split.
  - by apply enlist_rep.
  - exact Hno.
  - refine (drawn_add rs _ _ cfg rn (ControllerEnds i) _ Hdr Hw (wires_drawn rs _ _ _) _ _); [|exists i; set_solver].
    intros d (k&?&->). exists k. set_solver.
  - intros k Hk. cbn. destruct (decide (k = i)) as [->|Hne].
    + rewrite list_lookup_insert_eq by (by rewrite (rp_ctrlers _ _ Hr)). rewrite lookup_insert_eq. split; [by eexists|]. by eexists.
    + rewrite list_lookup_insert_ne, lookup_insert_ne by done. apply Hup. set_solver.
  - done.
Qed.

(** The groups [here] have been made and the servers [st] started. *)
Record booted n rs (here : nat -> Prop) (st : nat -> nat -> Prop) cfg : Prop := {
  bt_rep : rep n cfg;
  bt_drawn : drawn rs (fun d => match d with ServerEnds g i => st g i | _ => True end) cfg;
  bt_here g : if decide (is_Some (group_of cfg g)) then here g else ~ here g;
  bt_started g i : st g i -> is_Some (owned cfg (InGroup g i)) /\ is_Some (kv_at cfg g i);
  bt_controllers i : (i < 3)%nat -> (exists r, cfg_ctrlerservers cfg !! i = Some (Some r)) /\
    exists l, owned cfg (Controller i) = Some l /\ length l = 3%nat;
  bt_mck : length (cfg_mck cfg) = 3%nat;
  bt_clerks : ShardConfig.cfg_clerks cfg = ∅
}.

Lemma booted_iff n rs (here here' : nat -> Prop) (st st' : nat -> nat -> Prop) cfg : (forall g, here g <-> here' g) ->
  (forall g i, st g i <-> st' g i) -> booted n rs here st cfg -> booted n rs here' st' cfg.
Proof.
  intros Eh Es []. split; try done.
  - intros nm Hnm. destruct (bt_drawn0 nm Hnm) as (d&j&Hd&->). exists d, j. split; [|done]. destruct d; [done..|by apply Es].
  - intros g. specialize (bt_here0 g). case_decide; by rewrite <-Eh.
  - intros g i Hst. apply bt_started0. by apply Es.
Qed.

Lemma booted_clerk n rs cfg : draws_distinct rs -> controllers_up n rs (seq 0 3) cfg ->
  wp (let! mck := shardclerk (rs ClerkEnds) in modify (set_cfg_mck mck)) cfg (fun _ => booted n rs (fun _ => False) (fun _ _ => False)).
Proof.
  intros Hd [Hr Hno Hdr Hup Hck]. unfold shardclerk. go. rewrite (rp_nctrlers _ _ Hr).
  assert (Hf : fresh 3 (rs ClerkEnds) cfg) by (eapply fresh_draw; [done|exact Hdr|]; intros (k&_&[=])).
  eapply wp_mono; [by apply wp_shard_add_ends|]. intros [] c (rn&->&Hw). go. destruct (fresh_wires 3 _ ctrlername cfg Hf) as [Hnd Hfr].
  set (c := set_cfg_mck _ _). split; try done.
  - eapply rep_frame; [exact Hr|done..|exact (wi_servers _ _ _ Hw)|done| |by cbn; rewrite Hck; intros k [? [=]]|].
    2:{ intros [g i|k| |i] l Hl; [done|by apply (rp_short _ _ Hr (Client k))|by injection Hl as <-|by apply (rp_short _ _ Hr (Controller i))]. }
    eapply (wires_add n (owned cfg) _ (is_on cfg) _ (snet cfg) _ Tester); [apply Hr|exact Hw|done|done| |done| |].
    + change (Some (rs ClerkEnds <$> seq 0 3) = Some (wires 3 (rs ClerkEnds) ctrlername).*1). by rewrite wires_fst.
    + intros [g i|k| |i] Hne; done.
    + intros j p [_ ->]%wires_lookup. done.
  - refine (drawn_add rs _ _ cfg rn ClerkEnds _ Hdr Hw (wires_drawn rs _ _ _) _ I). by intros d (k&_&->).
  - intros g. change (group_of c g) with (group_of cfg g). rewrite Hno, decide_False by (by intros [? [=]]). by intros [].
  - intros i Hi. apply Hup. apply elem_of_seq. lia.
Qed.

Lemma booted_group n rs here st g cfg : (g < 3)%nat -> ~ here g -> (forall i, ~ st g i) -> booted n rs here st cfg ->
  booted n rs (fun g' => here g' \/ g' = g) st (with_group g (new_group (100 + Z.of_nat g) n 3) cfg).
Proof.
  intros Hg Hh Hst [Hr Hdr Hhere Hsta Hct Hm Hck]. pose proof (Hhere g) as Hnone.
  destruct (decide (is_Some (group_of cfg g))) as [|Hng]; [done|]. apply eq_None_not_Some in Hng.
  set (gg := new_group (100 + Z.of_nat g) n 3). set (c := with_group g gg cfg).
  assert (Hgo : forall g', group_of c g' = if decide (g' = g) then Some gg else group_of cfg g').
  { intros g'. unfold group_of. cbn. case_decide as E; [subst; by rewrite list_lookup_insert_eq by (by rewrite (rp_groups _ _ Hr))|by rewrite list_lookup_insert_ne]. }
  assert (Hkv : forall g' i, kv_at c g' i = kv_at cfg g' i).
  { intros g' i. unfold kv_at. rewrite Hgo. case_decide as E; [|done]. subst. rewrite Hng. cbn.
    destruct (replicate n None !! i) as [x|] eqn:Ex; [|done]. by apply lookup_replicate in Ex as [-> _]. }
  assert (Hown : forall o, owned c o = owned cfg o).
  { intros [g' i|k| |i]; try done. cbn. rewrite Hgo. case_decide as E; [|done]. subst. rewrite Hng. cbn. unfold group_ends. cbn.
    destruct (replicate n None !! i) as [x|] eqn:Ex; [|done]. by apply lookup_replicate in Ex as [-> _]. }
  split; try done.
  - eapply (rep_group n cfg c g); [exact Hr| | |by rewrite Hgo, decide_True| |apply Hr].
    + split; try done.
      * split; [cbn; by rewrite length_insert|]. intros g' Hne. by rewrite Hgo, decide_False.
      * eauto.
      * eauto.
    + intros gg'. rewrite Hgo, decide_True by done. intros [= <-]. split; cbn; rewrite ?length_replicate; try done.
      * by intros i e [[=] _]%lookup_replicate.
      * intros i m. destruct i as [|[|[|i]]]; done.
      * by intros i r [[=] _]%lookup_replicate.
      * intros i _. change (snet c) with (snet cfg). by apply (rp_missing _ _ Hr).
      * by intros i sv [-> _]%lookup_replicate.
    + destruct (rp_wires _ _ Hr) as [Hd Hw]. split; intros *; unfold end_in; rewrite !Hown; [apply Hd|].
      intros Hx. destruct (Hw _ _ _ Hx) as (?&?&E). split_and!; [done|done|]. etrans; [exact E|]. destruct o; try done. cbn. by rewrite Hkv.
  - intros g'. rewrite Hgo. specialize (Hhere g'). destruct (decide (g' = g)) as [->|Hne].
    + rewrite decide_True by done. by right.
    + case_decide; [by left|]. by intros [?|?].
  - intros g' i Hi. rewrite Hown, Hkv. by apply Hsta.
Qed.

Lemma booted_server n rs here (st : nat -> nat -> Prop) g i cfg : draws_distinct rs -> (i < 3)%nat -> here g -> (i < n)%nat -> ~ st g i ->
  booted n rs here st cfg ->
  wp (ShardConfig.StartServer methods raftMethods (Z.of_nat g) (Z.of_nat i) (rs (ServerEnds g i))) cfg
    (fun _ => booted n rs here (fun g' i' => st g' i' \/ (g' = g /\ i' = i))).
Proof.
  intros Hd Hn Hh Hi Hst [Hr Hdr Hhere Hsta Hct Hm Hck]. pose proof (Hhere g) as Hg. destruct (decide (is_Some (group_of cfg g))) as [[gg Hgg]|]; [clear Hg|done].
  assert (Hf : fresh (n + 3) (rs (ServerEnds g i)) cfg) by (eapply fresh_draw; [done|exact Hdr|done]).
  eapply wp_mono; [by apply (wp_StartServer_shard methods raftMethods n g i gg)|]. intros [] c (rn&x&->&Hw&_&Hso). split; try done.
  - by apply launch_rep.
  - refine (drawn_add rs _ _ cfg rn (ServerEnds g i) _ Hdr Hw (server_wires_drawn rs _ _ _) _ _); [intros []; try done; by left|by right].
  - intros g'. specialize (Hhere g'). unfold launch. rewrite (group_of_with _ g gg) by done. destruct (decide (g' = g)) as [->|Hne]; [by rewrite decide_True|done].
  - intros g' i' Hor. rewrite (launch_owned methods raftMethods n), (launch_kv_at methods raftMethods n) by done.
    destruct (decide ((g', i') = (g, i))) as [[= -> ->]|Hne]; [by rewrite decide_True|].
    rewrite decide_False by congruence. apply Hsta. destruct Hor as [?|[-> ->]]; done.
Qed.

Lemma booted_groups n rs cfg : draws_distinct rs -> (n <= 3)%nat -> booted n rs (fun _ => False) (fun _ _ => False) cfg ->
  wp (start_groups methods raftMethods rs) cfg (fun _ => booted n rs (fun g => (g < 3)%nat) (fun g i => (g < 3)%nat /\ (i < n)%nat)).
Proof.
  intros Hd Hn Hb. pose proof (bt_rep _ _ _ _ _ Hb) as Hr. unfold start_groups. go. rewrite (rp_ngroups _ _ Hr), (rp_n _ _ Hr), (rp_nctrlers _ _ Hr).
  eapply wp_mono; [apply (wp_forM _ _ (fun pre => booted n rs (fun g => g ∈ pre) (fun g i => g ∈ pre /\ (i < n)%nat)))|].
  - refine (booted_iff _ _ _ _ _ _ _ _ _ Hb); intros; set_solver.
  - intros pre g c (post&E) Hc. destruct (seq_split _ _ _ _ E) as [Hg Hnew]. pose proof (bt_rep _ _ _ _ _ Hc) as Hrc. go.
    eapply wp_lift; [apply slice_set_Some; rewrite (rp_groups _ _ Hrc); lia|]. go. rewrite Nat2Z.id.
    change (set_cfg_groups (<[g := Some (new_group (100 + Z.of_nat g) n 3)]> (cfg_groups c)) c) with (with_group g (new_group (100 + Z.of_nat g) n 3) c).
    pose proof (booted_group n rs (fun g => g ∈ pre) (fun g i => g ∈ pre /\ (i < n)%nat) g c Hg Hnew ltac:(by intros i [? _]) Hc) as Hc1.
    eapply wp_mono; [apply (wp_forM _ _ (fun pre' => booted n rs (fun g' => g' ∈ pre \/ g' = g)
      (fun g' i => (g' ∈ pre /\ (i < n)%nat) \/ (g' = g /\ i ∈ pre'))))|].
    + refine (booted_iff _ _ _ _ _ _ _ _ _ Hc1); intros; set_solver.
    + intros pre' i c2 (post'&E') Hc2. destruct (seq_split _ _ _ _ E') as [Hi Hnew'].
      eapply wp_mono; [refine (booted_server n rs _ _ g i c2 Hd ltac:(lia) _ Hi _ Hc2); [by right|by intros [[? _]|[_ ?]]]|].
      intros [] c3 Hc3. refine (booted_iff _ _ _ _ _ _ _ _ _ Hc3); intros; set_solver.
    + intros [] c2 Hc2. refine (booted_iff _ _ _ _ _ _ _ _ _ Hc2).
      * intros g'. set_solver.
      * intros g' i. pose proof (elem_of_seq 0 n i). rewrite elem_of_app, list_elem_of_singleton. naive_solver lia.
  - intros [] c Hc. refine (booted_iff _ _ _ _ _ _ _ _ _ Hc); intros; rewrite elem_of_seq; lia.
Qed.

(** A bind whose first part is known as a whole. *)
Lemma wp_assoc {A B E S} (m : M S A) (f : A -> M S B) (k : B -> M S E) s (P : B -> S -> Prop) (Q : E -> S -> Prop) :
  wp (let! x := m in f x) s P -> (forall b s', P b s' -> wp (k b) s' Q) -> wp (let! x := m in let! y := f x in k y) s Q.
Proof.
  unfold wp, bind. destruct (m s) as [[a s1]|]; [|done]. destruct (f a s1) as [[b s2]|]; [|done]. intros HP Hk. by apply Hk.
Qed.

Lemma make_config_booted n unreliable maxraftstate rs : draws_distinct rs -> (n <= 3)%nat -> exists cfg,
  ShardConfig.make_config methods ctrlMethods raftMethods n unreliable maxraftstate rs = Some cfg /\
  booted n rs (fun g => (g < 3)%nat) (fun g i => (g < 3)%nat /\ (i < n)%nat) cfg.
Proof.
  intros Hd Hn. unfold ShardConfig.make_config.
  match goal with |- exists cfg, snd <$> ?m ?z = _ /\ _ => enough (wp m z (fun _ => booted n rs (fun g => (g < 3)%nat) (fun g i => (g < 3)%nat /\ (i < n)%nat))) as Hw end.
  { apply wp_runs in Hw as ([]&cfg&->&Hw). by exists cfg. }
  apply wp_bind. eapply wp_mono; [apply (wp_forM _ _ (controllers_up n rs)); [apply zero_config_up|]|].
  { intros pre i c (post&E) Hc. destruct (seq_split _ _ _ _ E). by apply controllers_step. }
  intros [] c Hc. eapply wp_assoc; [exact (booted_clerk n rs c Hd Hc)|]. intros [] c1 Hc1. go.
  eapply wp_mono; [by apply booted_groups|]. intros [] c2 Hc2. unfold ShardConfig.on_net. go.
  destruct Hc2 as [Hr Hdr Hh Hs Hct Hm Hck]. split; try done. eapply rep_frame; [exact Hr|done..| |apply Hr|apply Hr].
  apply (wires_net n _ _ (snet c2)); [done..|]. apply Hr.
Qed.

(** ** Operations *)

(** What the tester, the clerks and the servers on their own do. *)
Inductive ShardOp :=
  | SClient (ss : nat -> string)
  | SDelete (k : nat)
  | SMakeEnd (server : string) (ss : nat -> string)
  | SShutdown (g i : nat)
  | SStart (g i : nat) (ss : nat -> string)
  | SServer (r : nat) (ev : RaftInv.Event C) (x' : Kv)
  | SController (r : nat) (o' : Ctl).

Definition sop_ok n (op : ShardOp) cfg : Prop :=
  match op with
  | SClient ss => n = 3%nat /\ fresh n ss cfg
  | SDelete _ => True
  | SMakeEnd _ ss => fresh 1 ss cfg
  | SShutdown g i => (g < 3)%nat /\ (i < n)%nat
  | SStart g i ss => (g < 3)%nat /\ (i < n)%nat /\ fresh (n + 3) ss cfg
  | SServer r ev x' => exists x, ShardConfig.cfg_objects cfg !! r = Some (inl x) /\ ev <> EvRestart /\ ok ev (shard_rf x) /\
      RaftInv.run ev (shard_rf x) = Some (shard_rf x')
  | SController r _ => exists o, ShardConfig.cfg_objects cfg !! r = Some (inr o)
  end.

Definition run_sop (op : ShardOp) cfg : option Cfg :=
  match op with
  | SClient ss => snd <$> ShardConfig.makeClient ss cfg
  | SDelete k => snd <$> ShardConfig.deleteClient k cfg
  | SMakeEnd s ss => snd <$> make_end ss s cfg
  | SShutdown g i => snd <$> ShardConfig.ShutdownServer (Z.of_nat g) (Z.of_nat i) cfg
  | SStart g i ss => snd <$> ShardConfig.StartServer methods raftMethods (Z.of_nat g) (Z.of_nat i) ss cfg
  | SServer r _ x' => Some (ShardConfig.set_cfg_objects (<[r := inl x']> (ShardConfig.cfg_objects cfg)) cfg)
  | SController r o' => Some (ShardConfig.set_cfg_objects (<[r := inr o']> (ShardConfig.cfg_objects cfg)) cfg)
  end.

(** The same on the set of servers that run. *)
Definition run_set (op : ShardOp) (U : gset (nat * nat)) : gset (nat * nat) :=
  match op with
  | SShutdown g i => U ∖ {[(g, i)]}
  | SStart g i _ => U ∪ {[(g, i)]}
  | _ => U
  end.

(** The tester after [make_config]: all servers have names, the servers [U] run. *)
Record ready (n : nat) cfg (U : gset (nat * nat)) : Prop := {
  rd_rep : rep n cfg;
  rd_group g : (g < 3)%nat -> exists gg, group_of cfg g = Some gg /\ forall i, (i < n)%nat -> is_Some (group_ends gg i);
  rd_controllers i : (i < 3)%nat -> exists r, cfg_ctrlerservers cfg !! i = Some (Some r);
  rd_runs g i : (g, i) ∈ U <-> is_Some (kv_at cfg g i)
}.

(** An operation that leaves the groups and the controllers alone. *)
Lemma ready_same (n : nat) cfg c U : ready n cfg U -> rep n c -> cfg_groups c = cfg_groups cfg -> cfg_ctrlerservers c = cfg_ctrlerservers cfg -> ready n c U.
Proof.
  intros [Hr Hg Hc Hu] Hr' Eg Ec. assert (forall g, group_of c g = group_of cfg g) as E by (intros g; unfold group_of; by rewrite Eg).
  split; [done| | |].
  - intros g. rewrite E. apply Hg.
  - intros i. rewrite Ec. apply Hc.
  - intros g i. unfold kv_at. rewrite E. apply Hu.
Qed.

(** An object changes on its own. *)
Lemma object_moves n cfg r o o' : rep n cfg -> ShardConfig.cfg_objects cfg !! r = Some o ->
  match o, o' with
  | inl x, inl x' => (wf (shard_rf x) -> durable (shard_rf x) -> wf (shard_rf x') /\ durable (shard_rf x')) /\
      forall i, sound n i (shard_rf x) -> sound n i (shard_rf x')
  | inr _, inr _ => True
  | _, _ => False
  end -> rep n (ShardConfig.set_cfg_objects (<[r := o']> (ShardConfig.cfg_objects cfg)) cfg).
Proof.
  intros Hr Ho Hoo. pose proof (lookup_lt_Some _ _ _ Ho) as Hlt. set (c := ShardConfig.set_cfg_objects _ cfg).
  assert (Hstore : forall r0 x i, ShardConfig.cfg_objects cfg !! r0 = Some (inl x) -> sound n i (shard_rf x) ->
    exists x', ShardConfig.cfg_objects c !! r0 = Some (inl x') /\ sound n i (shard_rf x')).
  { intros r0 x i Hx Hso. cbn. destruct (decide (r = r0)) as [->|Hne]; [|exists x; by rewrite list_lookup_insert_ne].
    rewrite list_lookup_insert_eq by done. rewrite Ho in Hx. injection Hx as ->. destruct o' as [x'|]; [|done]. exists x'. split; [done|by apply Hoo]. }
  split; try apply Hr.
  - intros g gg Hg. destruct (rp_group _ _ Hr g gg Hg). split; try done. intros i sv Hi. specialize (go_store i sv Hi).
    destruct sv as [| |r0]; [done|done|]. destruct go_store as (x&Hx&Hso). by apply (Hstore r0 x).
  - intros i r0 Hi. destruct (rp_controller _ _ Hr i r0 Hi) as [Hreg [y Hy]]. split; [exact Hreg|]. cbn.
    destruct (decide (r = r0)) as [->|Hne]; [|exists y; by rewrite list_lookup_insert_ne].
    rewrite list_lookup_insert_eq by done. rewrite Ho in Hy. injection Hy as ->. destruct o' as [|y']; [done|]. by exists y'.
  - intros r0 x. cbn. intros [(<-&->&_)|[_ Hx]]%list_lookup_insert_Some; [|by eapply (rp_objects _ _ Hr)].
    destruct o as [x0|]; [|done]. destruct (rp_objects _ _ Hr _ _ Ho). by apply Hoo.
Qed.

Lemma wp_sop {A} (m : M Cfg A) cfg (P : Cfg -> Prop) : wp m cfg (fun _ => P) -> exists c, snd <$> m cfg = Some c /\ P c.
Proof. intros (a&c&->&HP)%wp_runs. by exists c. Qed.

Lemma sop_ready (n : nat) op cfg U : ready n cfg U -> (n <= 3)%nat -> sop_ok n op cfg ->
  exists c, run_sop op cfg = Some c /\ ready n c (run_set op U).
Proof.
  intros Hrd Hn Hok. pose proof Hrd as [Hr Hg Hc Hu].
  destruct op as [ss|k|s ss|g i|g i ss|r ev x'|r o']; cbn [run_sop sop_ok run_set] in *.
  - destruct Hok as [-> Hf]. apply wp_sop. eapply wp_mono; [by apply (wp_makeClient_shard 3)|].
    intros k c (Hrc&_&_&Eg&_&Ec). by eapply ready_same.
  - apply wp_sop. eapply wp_mono; [by apply (wp_deleteClient_shard n)|]. intros [] c (Hrc&Eg&Ec). by eapply ready_same.
  - apply wp_sop. eapply wp_mono; [by apply (wp_make_end n)|]. intros nm c (Hrc&_&_&_&rn&->&_). by eapply ready_same.
  - destruct Hok as [Hgl Hi]. destruct (Hg g Hgl) as (gg&Hgg&Hends). destruct (Hends i Hi) as [names Hnames]. apply wp_sop.
    eapply wp_mono; [by apply (wp_ShutdownServer_shard n g i gg names)|]. intros [] c ->. split.
    + by apply shutdown_rep.
    + intros g' Hg'. destruct (Hg g' Hg') as (gg'&Hgg'&Hends'). unfold shutdown. rewrite (group_of_with _ g gg) by done.
      destruct (decide (g' = g)) as [->|]; [|by exists gg']. simplify_eq. eexists. split; [done|]. intros j Hj. by apply Hends'.
    + exact Hc.
    + intros g' i'. rewrite (shutdown_kv_at n) by done. rewrite elem_of_difference, elem_of_singleton, Hu.
      destruct (decide ((g', i') = (g, i))); [|tauto]. split; [tauto|by intros []].
  - destruct Hok as (Hgl&Hi&Hf). destruct (Hg g Hgl) as (gg&Hgg&Hends). apply wp_sop.
    eapply wp_mono; [apply (wp_StartServer_shard methods raftMethods n g i gg); try done; lia|]. intros [] c (rn&x&->&Hw&_&Hso). split.
    + apply launch_rep; try done; lia.
    + intros g' Hg'. destruct (Hg g' Hg') as (gg'&Hgg'&Hends'). unfold launch. rewrite (group_of_with _ g gg) by done.
      destruct (decide (g' = g)) as [->|]; [|by exists gg']. simplify_eq. eexists. split; [done|]. intros j Hj.
      pose proof (launch_owned methods raftMethods n g i gg ss rn x cfg (InGroup g j) Hr Hgg Hi ltac:(lia)) as Ho. cbn in Ho.
      unfold launch in Ho. rewrite (group_of_with _ g gg), decide_True in Ho by done. cbn in Ho. rewrite Ho. case_decide; [done|].
      rewrite Hgg. by apply Hends.
    + exact Hc.
    + intros g' i'. rewrite (launch_kv_at methods raftMethods n) by done. rewrite elem_of_union, elem_of_singleton, Hu.
      destruct (decide ((g', i') = (g, i))) as [E|E]; [|tauto]. split; [by intros; eexists|by right].
  - destruct Hok as (x&Hx&Hne&Hev&Hrun). eexists. split; [done|]. eapply ready_same; [done| |done|done].
    eapply object_moves; [done|exact Hx|]. cbn. split.
    + intros Hwf Hd. destruct (run_good ev _ Hwf Hd Hev) as (rf1&Hr1&(?&?&_)&_). rewrite Hrun in Hr1. by injection Hr1 as <-.
    + intros i (Hwf&Hd&Hp&Hm). destruct (run_good ev _ Hwf Hd Hev) as (rf1&Hr1&(?&?&_&Hme&Hpe)&_). rewrite Hrun in Hr1. injection Hr1 as <-.
      split_and!; congruence || done.
  - destruct Hok as [o Ho]. eexists. split; [done|]. eapply ready_same; [done| |done|done]. by eapply object_moves.
Qed.

Definition shard_step (n : nat) (s s' : Cfg * gset (nat * nat)) : Prop :=
  exists op, sop_ok n op s.1 /\ run_sop op s.1 = Some s'.1 /\ s'.2 = run_set op s.2.

Lemma shard_steps_ready (n : nat) s s' : (n <= 3)%nat -> ready n s.1 s.2 -> rtc (shard_step n) s s' -> ready n s'.1 s'.2.
Proof.
  intros Hn Hrd Hs. induction Hs as [|s s1 s' (op&Hok&Hr&HU) _ IH]; [done|]. apply IH. rewrite HU.
  destruct (sop_ready n op s.1 s.2 Hrd Hn Hok) as (c&Hc&?). congruence.
Qed.

(** ** Where requests go *)

(** Object [r], a server of type [ty], is the one of the name [s]. *)
Inductive answers cfg : string -> string -> nat -> Prop :=
  | an_server g i r : (g < 3)%nat -> kv_at cfg g i = Some r -> answers cfg (group_name g i) "ShardKV" r
  | an_controller i r : cfg_ctrlerservers cfg !! i = Some (Some r) -> answers cfg (ctrlername (Z.of_nat i)) replica_type r.

(** A request through the end [nm] to [s]: delivered to the object that answers, or not at
    all, because the sender is off or nobody answers. *)
Definition delivery cfg (on : bool) (s nm : string) : Prop :=
  match readEndnameInfo (snet cfg) nm with
  | Some info => on = true /\ exists ty r srv sv sv', answers cfg s ty r /\
      w_servers (ShardConfig.cfg_world cfg) !! i_server info = Some srv /\
      services srv !! ty = Some sv /\ sv_rcvr sv = r /\ services srv !! "Raft"%string = Some sv' /\ sv_rcvr sv' = r
  | None => on = false \/ forall ty r, ~ answers cfg s ty r
  end.

(** The names of servers and controllers. *)
Definition known (n : nat) (s : string) : Prop :=
  (exists g i, (g < 3)%nat /\ (i < n)%nat /\ s = group_name g i) \/ exists i, (i < 3)%nat /\ s = ctrlername (Z.of_nat i).

Lemma answers_server cfg g i ty r : answers cfg (group_name g i) ty r -> ty = "ShardKV"%string /\ kv_at cfg g i = Some r.
Proof.
  remember (group_name g i) as s eqn:E. intros Ha. destruct Ha as [g' i' r Hg Hr|i' r Hr].
  - by apply servername_inj in E as [-> ->].
  - symmetry in E. by apply servername_ctrlername in E.
Qed.

Lemma ready_delivery (n : nat) cfg U s nm : ready n cfg U -> known n s -> connections (snet cfg) !! nm = Some (Some s) ->
  delivery cfg (end_enabled (snet cfg) nm) s nm.
Proof.
  intros [Hr Hg Hc _] Hs Hconn. unfold delivery, readEndnameInfo. rewrite Hconn. destruct (end_enabled (snet cfg) nm); [|by left].
  destruct Hs as [(g&i&Hgl&Hi&->)|(i&Hi&->)].
  - destruct (Hg g Hgl) as (gg&Hgg&_). pose proof (rp_group _ _ Hr _ _ Hgg) as Hok.
    destruct (lookup_range (gg_servers gg) i) as ([r|]&Hs&_); [by rewrite (go_servers _ _ _ _ Hok)|..].
    + destruct (go_up _ _ _ _ Hok _ _ Hs) as (_&p&srv&sv&sv'&->&?&?&?&?&?). split; [done|]. exists "ShardKV"%string, r, srv, sv, sv'.
      split_and!; try done. constructor; [done|]. unfold kv_at. rewrite Hgg. cbn. by rewrite Hs.
    + rewrite (go_down _ _ _ _ Hok _ Hs). right. intros ty r [_ Ha]%answers_server. unfold kv_at in Ha. rewrite Hgg in Ha. cbn in Ha. by rewrite Hs in Ha.
  - destruct (Hc i Hi) as (r&Hs). destruct (rp_controller _ _ Hr _ _ Hs) as [(p&srv&sv&sv'&->&?&?&?&?&?) _].
    split; [done|]. exists replica_type, r, srv, sv, sv'. split_and!; try done. by constructor.
Qed.

(** The servers of a tester that has just been made. *)
Definition all_servers (n : nat) : gset (nat * nat) := list_to_set (p ← seq 0 3; (fun i => (p, i)) <$> seq 0 n).
Lemma elem_of_all_servers n g i : (g, i) ∈ all_servers n <-> (g < 3)%nat /\ (i < n)%nat.
Proof.
  unfold all_servers. rewrite elem_of_list_to_set, list_elem_of_bind. setoid_rewrite list_elem_of_fmap. setoid_rewrite elem_of_seq. split.
  - intros (p&(i'&[= <- <-]&?)&?). lia.
  - intros [? ?]. exists g. split; [exists i; split; [done|lia]|lia].
Qed.

Lemma booted_ready (n : nat) rs cfg : booted n rs (fun g => (g < 3)%nat) (fun g i => (g < 3)%nat /\ (i < n)%nat) cfg -> ready n cfg (all_servers n).
Proof.
  intros [Hr Hdr Hh Hs Hct _ _]. split; [done| | |].
  - intros g Hg. pose proof (Hh g) as Hx. destruct (decide (is_Some (group_of cfg g))) as [[gg Hgg]|]; [|done]. exists gg. split; [done|].
    intros i Hi. destruct (Hs g i) as [Ho _]; [done|]. cbn in Ho. by rewrite Hgg in Ho.
  - intros i Hi. by apply Hct.
  - intros g i. rewrite elem_of_all_servers. split; [apply Hs|]. intros [r Hk]. unfold kv_at in Hk.
    apply bind_Some in Hk as (gg&Hgg&(p&Hp&_)%bind_Some). pose proof (group_of_lt _ _ _ Hgg) as Hlt. rewrite (rp_groups _ _ Hr) in Hlt.
    apply lookup_lt_Some in Hp. by rewrite (go_servers _ _ _ _ (rp_group _ _ Hr _ _ Hgg)) in Hp.
Qed.

(** Who sends: a server of a group when it runs, the others always. *)
Definition sends (U : gset (nat * nat)) (o : Owner) : bool := match o with InGroup g i => bool_decide ((g, i) ∈ U) | _ => true end.

Lemma target_known (n : nat) cfg U o j nm : ready n cfg U -> end_in (owned cfg) o j = Some nm -> known n (target n o j).
Proof.
  intros [Hr _ _ _] (l&Hl&Hj%lookup_lt_Some)%bind_Some. pose proof (rp_short _ _ Hr o l Hl) as Hsh.
  destruct o as [g i|k| |i]; cbn [target]; [|right; exists j; split; [lia|done]..].
  cbn in Hl. apply bind_Some in Hl as (gg&Hgg&(e&m&He&Hm&->)%group_ends_Some). pose proof (rp_group _ _ Hr _ _ Hgg) as Hok.
  rewrite length_app, (go_ends _ _ _ _ Hok _ _ He), (go_mends _ _ _ _ Hok _ _ Hm) in Hj.
  pose proof (group_of_lt _ _ _ Hgg) as Hlt. rewrite (rp_groups _ _ Hr) in Hlt. case_decide.
  - left. exists g, j. by split_and!.
  - right. exists (j - n)%nat. split; [lia|done].
Qed.

(** The servers [joinm] announces for a group, and what [make_end] makes of their names. *)
Lemma joinm_names (n : nat) cfg U g : ready n cfg U -> (g < 3)%nat ->
  joinm [Z.of_nat g] cfg = Some ({[100 + Z.of_nat g := group_name g <$> seq 0 n]}, cfg).
Proof.
  intros [Hr Hg _ _] Hgl. destruct (Hg g Hgl) as (gg&Hgg&_). pose proof (rp_group _ _ Hr _ _ Hgg) as Hok.
  assert (wp (joinm [Z.of_nat g]) cfg (fun m c => m = {[100 + Z.of_nat g := group_name g <$> seq 0 n]} /\ c = cfg)) as (m&c&->&->&->)%wp_runs; [|done].
  unfold joinm. cbn [joinm_loop]. go. eapply wp_group_at; [exact Hgg|]. go. by rewrite (go_gid _ _ _ _ Hok), (rp_n _ _ Hr).
Qed.

(** C34: the network of the sharded service. With up to three servers in a group
    [make_config] succeeds. After it and after any operations, that is clerks that come and
    go, ends made on demand, servers that are shut down and started again, and servers and
    controllers that go on by themselves, (1) every operation the tester may do succeeds;
    (2) the servers that run are exactly those the history of shutdowns and starts leaves;
    (3) every end, whether of a server, of a clerk, of the tester or of a controller, leads
    to the server it was made for: a request sent through it is handed to the services of
    the current instance of that server if its owner and that server run, and to none
    otherwise; (4) the names [join] hands to the controllers for a group are [n] names such
    that an end made with [make_end] for the [i]-th reaches the [i]-th server of that group
    when it runs, and nothing when it does not. *)
Theorem shard_tester_network (n : nat) unreliable maxraftstate rs : draws_distinct rs -> (n <= 3)%nat ->
  exists cfg0, ShardConfig.make_config methods ctrlMethods raftMethods n unreliable maxraftstate rs = Some cfg0 /\
    forall cfg U, rtc (shard_step n) (cfg0, all_servers n) (cfg, U) ->
      (forall op, sop_ok n op cfg -> is_Some (run_sop op cfg)) /\
      (forall g i, (g, i) ∈ U <-> is_Some (kv_at cfg g i)) /\
      (forall o j nm, end_in (owned cfg) o j = Some nm -> delivery cfg (sends U o) (target n o j) nm) /\
      forall g, (g < 3)%nat -> exists m names, join (Z.of_nat g) cfg = Some (m, cfg) /\ m !! (100 + Z.of_nat g) = Some names /\
        length names = n /\ forall i s ss, names !! i = Some s -> fresh 1 ss cfg ->
          exists nm c, make_end ss s cfg = Some (nm, c) /\ delivery c true s nm /\
            (is_Some (readEndnameInfo (snet c) nm) <-> (g, i) ∈ U).
Proof.
  intros Hd Hn. destruct (make_config_booted n unreliable maxraftstate rs Hd Hn) as (cfg0&Hm&Hb). exists cfg0. split; [done|].
  intros cfg U Hs. pose proof (shard_steps_ready n (cfg0, all_servers n) (cfg, U) Hn (booted_ready n rs cfg0 Hb) Hs) as Hrd. cbn in Hrd. pose proof Hrd as [Hr _ _ Hu]. split_and!.
  - intros op Hok. destruct (sop_ready n op cfg U Hrd Hn Hok) as (c&->&_). by eexists.
  - exact Hu.
  - intros o j nm Hnm. destruct (wo_wired _ _ _ _ (rp_wires _ _ Hr) _ _ _ Hnm) as (_&Hc&He).
    replace (sends U o) with (end_enabled (snet cfg) nm); [eapply ready_delivery; [done|by eapply target_known|done]|].
    rewrite He. destruct o as [g i|k| |i]; try done. cbn. apply bool_decide_ext. symmetry. apply Hu.
  - intros g Hg. exists {[100 + Z.of_nat g := group_name g <$> seq 0 n]}, (group_name g <$> seq 0 n).
    split; [by apply (joinm_names n cfg U)|]. rewrite lookup_singleton_eq, length_fmap, length_seq. split_and!; [done|done|].
    intros i s ss Hi Hf. rewrite list_lookup_fmap in Hi. apply fmap_Some in Hi as (i'&[-> Hi]%lookup_seq&->). cbn in Hi |- *.
    pose proof (wp_make_end n ss (group_name g i) cfg Hr Hf) as (nm&c&Hrun&Hrc&_&Hconn&Hen&rn&->&_)%wp_runs.
    exists nm, (with_snet rn cfg). split; [done|]. assert (ready n (with_snet rn cfg) U) as Hrd' by (by eapply ready_same).
    pose proof (ready_delivery n _ U (group_name g i) nm Hrd' ltac:(left; by exists g, i) Hconn) as Hdel. rewrite Hen in Hdel. split; [done|].
    rewrite Hu. unfold delivery in Hdel. destruct (readEndnameInfo _ nm) as [info|].
    + split; [|by eexists]. intros _. destruct Hdel as (_&ty&r&?&?&?&[_ Ha]%answers_server&_). by exists r.
    + split; [by intros []|]. intros [r Hk]. destruct Hdel as [?|Hno]; [done|]. destruct (Hno "ShardKV"%string r). by constructor.
Qed.

(** ** Groups of more or fewer than three servers *)

Lemma bind_fails {S A B} (m : M S A) (f : A -> M S B) s : wp m s (fun a s' => f a s' = None) -> (let! x := m in f x) s = None.
Proof. unfold wp, bind. by destruct (m s) as [[a s']|]. Qed.
Lemma forM_fails {S A} (f : A -> M S unit) pre x post s : wp (forM pre f) s (fun _ s' => f x s' = None) -> forM (pre ++ x :: post) f s = None.
Proof.
  revert s. induction pre as [|y pre IH]; intros s Hw; cbn [app forM] in *.
  - unfold bind. cbn in Hw. by rewrite Hw.
  - unfold wp, bind in *. destruct (f y s) as [[[] s1]|]; [|done]. by apply IH.
Qed.

(** [gg.mendnames] has a slot for each controller and is indexed by servers. *)
Lemma StartServer_fails (n : nat) g i gg ss cfg : rep n cfg -> group_of cfg g = Some gg -> (i < n)%nat -> (3 <= i)%nat -> fresh (n + 3) ss cfg ->
  ShardConfig.StartServer methods raftMethods (Z.of_nat g) (Z.of_nat i) ss cfg = None.
Proof.
  intros Hr Hg Hi Hge Hf. pose proof (rp_group _ _ Hr _ _ Hg) as Hok. pose proof (group_of_lt _ _ _ Hg) as Hlt.
  unfold ShardConfig.StartServer. apply bind_fails. go. rewrite (rp_n _ _ Hr), (rp_nctrlers _ _ Hr). apply bind_fails.
  eapply wp_assign_at; [exact Hg|by rewrite (go_endnames _ _ _ _ Hok)|]. set (gg1 := set_gg_endnames _ gg).
  assert (Hg1 : group_of (with_group g gg1 cfg) g = Some gg1) by (rewrite (group_of_with cfg g gg) by done; by rewrite decide_True).
  apply bind_fails. eapply wp_group_at; [exact Hg1|]. apply bind_fails.
  eapply wp_mono; [apply (wp_shard_add_ends n ss (servername (gg_gid gg1))), (fresh_le n (n + 3)); [lia|exact Hf]|]. intros [] c (rn1&->&_).
  unfold bind at 1, ShardConfig.assign. unfold bind at 1.
  assert (group_at (Z.of_nat g) (with_snet rn1 (with_group g gg1 cfg)) = Some (gg1, with_snet rn1 (with_group g gg1 cfg))) as ->.
  { unfold group_at, bind, get, lift. cbn. unfold slice_get. rewrite decide_True, Nat2Z.id by lia. by rewrite list_lookup_insert_eq. }
  unfold bind at 1, lift, slice_set. rewrite decide_False; [done|]. cbn. rewrite (go_mendnames _ _ _ _ Hok). lia.
Qed.

Lemma make_config_fails (n : nat) unreliable maxraftstate rs : draws_distinct rs -> (3 < n)%nat ->
  ShardConfig.make_config methods ctrlMethods raftMethods n unreliable maxraftstate rs = None.
Proof.
  intros Hd Hn. unfold ShardConfig.make_config. match goal with |- snd <$> ?m ?z = None => enough (m z = None) as -> by done end.
  apply bind_fails. eapply wp_mono; [apply (wp_forM _ _ (controllers_up n rs)); [apply zero_config_up|]|].
  { intros pre i c (post&E) Hc. destruct (seq_split _ _ _ _ E). by apply controllers_step. }
  intros [] c Hc. pose proof (booted_clerk n rs c Hd Hc) as Hclerk. unfold bind at 1. unfold bind at 1 in Hclerk. unfold wp in Hclerk.
  destruct (shardclerk (rs ClerkEnds) c) as [[mck c1]|]; [|done]. unfold bind at 1, modify at 1. cbn in Hclerk.
  set (c2 := set_cfg_mck mck c1) in *. pose proof (bt_rep _ _ _ _ _ Hclerk) as Hr. unfold bind at 1.
  enough (start_groups methods raftMethods rs c2 = None) as -> by done. unfold start_groups. apply bind_fails. go.
  rewrite (rp_ngroups _ _ Hr), (rp_n _ _ Hr), (rp_nctrlers _ _ Hr). apply (forM_fails _ [] 0%nat [1; 2]%nat). cbn [forM]. go.
  apply bind_fails. go. apply bind_fails. eapply wp_lift; [apply slice_set_Some; rewrite (rp_groups _ _ Hr); lia|]. apply bind_fails. go.
  change (set_cfg_groups _ c2) with (with_group 0 (new_group (100 + Z.of_nat 0) n 3) c2).
  assert (seq 0 n = seq 0 3 ++ 3%nat :: seq 4 (n - 4)) as -> by (replace n with (3 + S (n - 4))%nat at 1 by lia; by rewrite seq_app).
  apply forM_fails. pose proof (booted_group n rs _ _ 0 c2 ltac:(lia) (fun x => x) (fun _ x => x) Hclerk) as Hb1.
  eapply wp_mono; [apply (wp_forM _ _ (fun pre => booted n rs (fun g' => False \/ g' = 0%nat) (fun g' i => g' = 0%nat /\ i ∈ pre)))|].
  - refine (booted_iff _ _ _ _ _ _ _ _ _ Hb1); intros; set_solver.
  - intros pre i c3 (post&E) Hc3. destruct (seq_split _ _ _ _ E) as [Hi Hnew].
    eapply wp_mono; [refine (booted_server n rs _ _ 0 i c3 Hd Hi _ _ _ Hc3); [by right|lia|by intros [_ ?]]|].
    intros [] c4 Hc4. refine (booted_iff _ _ _ _ _ _ _ _ _ Hc4); intros; set_solver.
  - intros [] c3 [Hr3 Hdr3 Hh3 _ _ _ _]. pose proof (Hh3 0%nat) as Hx. destruct (decide (is_Some (group_of c3 0))) as [[gg Hgg]|]; [|by destruct Hx; right].
    apply (StartServer_fails n 0 3 gg); [done|done|lia|lia|]. eapply fresh_draw; [done|exact Hdr3|]. intros [_ Hin%elem_of_seq]. lia.
Qed.

(** [endnames] of [makeClient] has a slot for each server and is indexed by controllers. *)
Lemma client_ends_fails ss (d m : nat) endnames cfg : (length endnames < m + d)%nat -> (m <= length endnames)%nat ->
  client_ends ss (seq m d) endnames cfg = None.
Proof.
  revert m endnames cfg. induction d as [|d IH]; intros m endnames cfg Hlen Hm; [lia|]. cbn [seq client_ends]. unfold bind at 1, lift, slice_set.
  case_decide; [|done]. unfold bind at 1. destruct (add_end _ _ cfg) as [[[] c]|]; [|done]. apply IH; rewrite length_insert; lia.
Qed.

(** C35: the tester works for groups of exactly three servers only, the number of
    controllers. The slice [mendnames] of a group has one element per controller but is
    indexed by server, so with more than three servers [make_config] panics; the slice
    [endnames] of [makeClient] has one element per server but is indexed by controller, so
    with fewer than three [make_config] succeeds and every later [makeClient] panics. *)
Theorem shard_tester_needs_three (n : nat) unreliable maxraftstate rs : draws_distinct rs ->
  ((3 < n)%nat -> ShardConfig.make_config methods ctrlMethods raftMethods n unreliable maxraftstate rs = None) /\
  ((n < 3)%nat -> exists cfg0, ShardConfig.make_config methods ctrlMethods raftMethods n unreliable maxraftstate rs = Some cfg0 /\
     forall cfg U ss, rtc (shard_step n) (cfg0, all_servers n) (cfg, U) -> ShardConfig.makeClient ss cfg = None).
Proof.
  intros Hd. split; [by apply make_config_fails|]. intros Hn.
  destruct (make_config_booted n unreliable maxraftstate rs Hd ltac:(lia)) as (cfg0&Hm&Hb). exists cfg0. split; [done|].
  intros cfg U ss Hs. pose proof (shard_steps_ready n (cfg0, all_servers n) (cfg, U) ltac:(lia) (booted_ready n rs cfg0 Hb) Hs) as [Hr _ _ _].
  cbn in Hr. unfold ShardConfig.makeClient. unfold bind at 1, get. cbn beta iota. rewrite (rp_nctrlers _ _ Hr), (rp_n _ _ Hr).
  unfold bind at 1. rewrite client_ends_fails; [done|rewrite length_replicate; lia|lia].
Qed.
End props.
