(* ===== verification/ShardTester.v ===== *)
(** * The tester of shardkv

    The tester of [ShardConfig] on the servers of [ShardKv] and the controllers of
    [CtrlServer]: they satisfy what [ShardConfigProps] asks of them. Then a tester with
    three servers in each group. *)
From stdpp Require Import pretty.
From Stdlib Require Import Strings.Byte.
From S2P Require Import Prelude Names Labgob Persister RaftTypes RaftNode RaftProps CtrlConfig CtrlServer ShardKv Labrpc LabrpcExample RaftConfig RaftConfigNet ServiceConfig ServiceConfigLife ServiceTesters ShardConfig ShardConfigNet ShardConfigLife ShardConfigProps.

(** ** A codec of the commands *)

Module ShardCodec.
Import ShardKv.
#[export] Instance CommandType_eq_dec : EqDecision CommandType.
Proof. solve_decision. Defined.
#[export] Instance Err_countable : Countable Err.
Proof.
  refine (inj_countable (fun e => match e with OK => 0 | ErrNoKey => 1 | ErrWrongGroup => 2 | ErrWrongLeader => 3 | ErrOutDated => 4 | ErrTimeout => 5 | ErrNotReady => 6 end)
    (fun z => [OK; ErrNoKey; ErrWrongGroup; ErrWrongLeader; ErrOutDated; ErrTimeout; ErrNotReady] !! Z.to_nat z) _). by intros [].
Defined.
#[export] Instance CommandType_countable : Countable CommandType.
Proof.
  refine (inj_countable (fun e => match e with Operation => 0 | Configuration => 1 | InsertShards => 2 | DeleteShards => 3 | EmptyEntry => 4 end)
    (fun z => [Operation; Configuration; InsertShards; DeleteShards; EmptyEntry] !! Z.to_nat z) _). by intros [].
Defined.
#[export] Instance OperationOp_countable : Countable OperationOp.
Proof.
  refine (inj_countable (fun e => match e with OpPut => 0 | OpAppend => 1 | OpGet => 2 end)
    (fun z => [OpPut; OpAppend; OpGet] !! Z.to_nat z) _). by intros [].
Defined.
#[export] Instance CommandRequest_eq_dec : EqDecision CommandRequest.
Proof. solve_decision. Defined.
#[export] Instance CommandRequest_countable : Countable CommandRequest.
Proof.
  refine (inj_countable' (fun r => (q_Key r, q_Value r, q_Op r, q_ClientId r, q_CommandId r))
    (fun '(k, v, o, c, i) => mkCommandRequest k v o c i) _). by intros [].
Defined.
#[export] Instance Config_eq_dec : EqDecision Config.
Proof. solve_decision. Defined.
#[export] Instance Config_countable : Countable Config.
Proof. refine (inj_countable' (fun c => (Num c, Shards c, Groups c)) (fun '(n, s, g) => CtrlConfig.mkConfig n s g) _). by intros []. Defined.
#[export] Instance CommandResponse_eq_dec : EqDecision CommandResponse.
Proof. solve_decision. Defined.
#[export] Instance CommandResponse_countable : Countable CommandResponse.
Proof. refine (inj_countable' (fun p => (p_Err p, p_Value p)) (fun '(e, v) => mkCommandResponse e v) _). by intros []. Defined.
#[export] Instance OperationContext_eq_dec : EqDecision OperationContext.
Proof. solve_decision. Defined.
#[export] Instance OperationContext_countable : Countable OperationContext.
Proof. refine (inj_countable' (fun c => (MaxAppliedCommandId c, LastResponse c)) (fun '(m, r) => mkOperationContext m r) _). by intros []. Defined.
#[export] Instance ShardOperationRequest_eq_dec : EqDecision ShardOperationRequest.
Proof. solve_decision. Defined.
#[export] Instance ShardOperationRequest_countable : Countable ShardOperationRequest.
Proof. refine (inj_countable' (fun r => (q_ConfigNum r, q_ShardIDs r)) (fun '(n, l) => mkShardOperationRequest n l) _). by intros []. Defined.
#[export] Instance ShardOperationResponse_eq_dec : EqDecision ShardOperationResponse.
Proof. solve_decision. Defined.
#[export] Instance ShardOperationResponse_countable : Countable ShardOperationResponse.
Proof.
  refine (inj_countable' (fun r => (s_Err r, s_ConfigNum r, s_Shards r, s_LastOperations r))
    (fun '(e, n, s, l) => mkShardOperationResponse e n s l) _). by intros [].
Defined.
#[export] Instance CommandData_eq_dec : EqDecision CommandData.
Proof. solve_decision. Defined.
#[export] Instance CommandData_countable : Countable CommandData.
Proof.
  refine (inj_countable' (A := (CommandRequest + (Config + (ShardOperationResponse + (ShardOperationRequest + unit))))%type)
    (fun d => match d with
      | DRequest r => inl r | DConfig c => inr (inl c) | DShards r => inr (inr (inl r))
      | DShardIDs r => inr (inr (inr (inl r))) | DNil => inr (inr (inr (inr tt))) end)
    (fun s => match s with
      | inl r => DRequest r | inr (inl c) => DConfig c | inr (inr (inl r)) => DShards r
      | inr (inr (inr (inl r))) => DShardIDs r | inr (inr (inr (inr _))) => DNil end) _). by intros [].
Defined.
#[export] Instance Command_eq_dec : EqDecision Command.
Proof. solve_decision. Defined.
#[export] Instance Command_countable : Countable Command.
Proof. refine (inj_countable' (fun c => (c_Op c, c_Data c)) (fun '(o, d) => mkCommand o d) _). by intros []. Defined.
End ShardCodec.

Module ShardTester.
Section shardkv.
Context `{Gob Z} `{Gob (list (Entry ShardKv.Command))} `{Rand} `{Alloc}.

#[export] Instance shard_replica : ShardReplica ShardKV ShardKv.Command := {|
  shard_start n i ps maxraftstate gid := ShardKv.StartServer n i ps maxraftstate gid;
  shard_Kill := ShardKv.Kill;
  shard_rf := ShardKv.kv_rf
|}.

#[export] Instance shard_replica_laws : ShardReplicaLaws ShardKV ShardKv.Command.
Proof.
  split.
  - intros n i ps maxraftstate gid rf Hm. cbn. unfold ShardKv.StartServer. rewrite Hm. by eexists.
  - intros kv. by eexists.
Qed.
End shardkv.
End ShardTester.

(** ** Three groups of three servers *)

Module ShardExample.
Import RaftProps.Example3 ShardCodec.
#[export] Existing Instance ShardTester.shard_replica.
#[export] Existing Instance ShardTester.shard_replica_laws.
#[export] Existing Instance CtrlTester.replica.
#[export] Existing Instance CtrlTester.replica_laws.

(** Names of three numbers. *)
Definition draw_key (d : Draw) : nat * nat :=
  match d with ControllerEnds i => (i, 0%nat) | ClerkEnds => (0%nat, 1%nat) | ServerEnds g i => (g, S (S i)) end.
Definition draws (d : Draw) (j : nat) : string :=
  pretty (Z.of_nat (draw_key d).1) +:+ "-" +:+ pretty (Z.of_nat (draw_key d).2) +:+ "-" +:+ pretty (Z.of_nat j).

Lemma draws_are_distinct : draws_distinct draws.
Proof.
  intros d j d' j' E. unfold draws in E.
  apply split_dash in E as [E1 E]; [|apply pretty_plain..]. apply split_dash in E as [E2 E3]; [|apply pretty_plain..].
  apply (inj pretty) in E1, E2, E3. split; [|lia]. destruct d, d'; cbn in *; f_equal; lia.
Qed.

Abbreviation Cfg := (ShardConfig.config (Kv := ShardKV) (Ctl := ShardCtrler)).
Definition cfg3 : Cfg :=
  force (zero_config 3 (-1)) (ShardConfig.make_config (C := ShardKv.Command) (D := CtrlServer.Command) [] [] [] 3 false (-1) draws).

(** All nine servers and three controllers are registered. *)
Example cfg3_servers : size (servers (w_net (ShardConfig.cfg_world cfg3))) = 12%nat.
Proof. vm_compute. reflexivity. Qed.
End ShardExample.
Import RaftProps.Example3 ShardCodec ShardExample.

Lemma shard_tester_network_witness : exists cfg0,
  ShardConfig.make_config (Kv := ShardKV) (C := ShardKv.Command) (Ctl := ShardCtrler) (D := CtrlServer.Command) [] [] [] 3 false (-1) draws = Some cfg0 /\
  forall g, (g < 3)%nat -> exists m names, join (Z.of_nat g) cfg0 = Some (m, cfg0) /\ m !! (100 + Z.of_nat g) = Some names /\ length names = 3%nat.
Proof.
  destruct (shard_tester_network (Kv := ShardKV) (C := ShardKv.Command) (Ctl := ShardCtrler) (D := CtrlServer.Command)
    [] [] [] 3 false (-1) draws draws_are_distinct ltac:(lia)) as (cfg0&Hm&Hnet).
  exists cfg0. split; [exact Hm|]. intros g Hg. destruct (Hnet cfg0 (all_servers 3) (rtc_refl _ _)) as (_&_&_&Hj).
  destruct (Hj g Hg) as (m&names&?&?&?&_). exists m, names. split; [assumption|]. split; assumption.
Defined.

Lemma shard_tester_needs_three_witness :
  ShardConfig.make_config (Kv := ShardKV) (C := ShardKv.Command) (Ctl := ShardCtrler) (D := CtrlServer.Command) [] [] [] 5 false (-1) draws = None.
Proof.
  apply (proj1 (shard_tester_needs_three (Kv := ShardKV) (C := ShardKv.Command) (Ctl := ShardCtrler) (D := CtrlServer.Command)
    [] [] [] 5 false (-1) draws draws_are_distinct)). lia.
Defined.
